(* ===== verification/_CoqProject ===== *)
-Q . S2P
Prelude.v
Sequence.v
Catalog.v
Checkpoint.v
Timers.v
Congestion.v
Retransmission.v
Failure.v
ReceiveWindow.v
Arena.v
Blocks.v
SendBuffer.v
ReceiveBuffer.v
Stream.v
Checksum.v
Packet.v
Options.v
ControlBlock.v
Exchange.v
History.v
Sack.v
SackRecovery.v
Replay.v
Spf.v
Sender.v
SenderSync.v
SenderCheckpoint.v
SenderFrame.v
Connection.v
ConnectionParts.v
ConnectionSync.v
ConnectionCalls.v
ConnectionRuns.v
Ordering.v
Routes.v
RouteSelection.v
RouteLookup.v
OspfFsm.v
OspfElection.v
OspfConvergence.v
OspfNeighbor.v
OspfHello.v
OspfInterface.v
OspfDiscovery.v
OspfRuntime.v
Octets.v
Ipv6Packet.v
Ipv6Fragmentation.v
Ipv6Fragments.v
Ipv6Entry.v
Ipv6Reassembly.v
Ipv6RoundTrip.v
Ipv6Delivery.v
OspfLsa.v
OspfHeaders.v
OspfLsdb.v
OspfExchange.v
OspfChecksum.v
OspfDatabase.v
OspfFlooding.v
OspfThrottle.v
OspfProcess.v
OspfUpdate.v
OspfDescription.v
OspfSync.v
OspfNegotiation.v
OspfParty.v
OspfAdjacency.v
OspfSummaries.v
OspfLoading.v
OspfLossy.v
OspfSample.v
