(* ===== verification/Prelude.v ===== *)
(** * Router Simulator: the transport core, routing, OSPF, IPv6 fragments and replay protection

    Router Simulator runs a network of routers and hosts inside one process.
    Its native core (core/src, C++) is split into protocol directories; every
    component there is a value type that performs no I/O, is told the time by
    its caller, works in storage its caller owns, and exposes [checkpoint] and
    [restore].  This library models the components of core/src/transport that
    make up TCP, the IPv4 half of forwarding/multi_device_routing.cpp,
    security/ipsec_replay.cpp, ip/ipv6_fragmentation.cpp with the IPv6 parser of
    forwarding/packet.cpp, and of core/src/ospf the shortest paths, the state
    machines, the interface runtime, the link-state database and the adjacencies
    over which routers synchronize it.

    ** How the parts interact

    A connection owns a control block (the RFC 9293 state machine), a send side
    and a receive side.  The send side keeps unacknowledged octets in a circular
    arena; it prepares a range, hands the bytes to the network owner, and
    commits the range only when that owner admitted the segment.  Admitted
    segments are recorded in the transmission history, the SACK scoreboard and
    the congestion controller decide what may be sent next, and the
    retransmission estimator, the failure detector and the persist timer decide
    when.  The receive side reassembles segments in a second circular arena with
    a receipt bitmap, reports SACK blocks, advertises a window under silly-window
    avoidance, and delays acknowledgments.

    An OSPF interface hears Hellos, keeps a row per neighbor, runs the neighbor
    machine for each and, on multi-access networks, elects a designated router and
    a backup over what the rows declare; its own Hellos declare the result.  An
    adjacency that begins describes the database to the neighbor in Database
    Descriptions under the sequence numbers of a master, requests what it lacks,
    and answers requests with updates; a received update is installed when it is
    newer, acknowledged, and flooded to the other adjacencies.  The process owns the
    database, the interface runtime and the lists of every adjacency.  The
    routes of OSPF and of the other sources meet in the route table, which installs
    a program that the forwarder looks up.

    A datagram larger than the path admits is split by its source into fragments,
    handed one by one to a sink of the caller; the destination gives every received
    frame to a table of partial datagrams, which answers with the datagram when the
    last octet of it has come.  Both read packets through [parse_ipv6].

    ** Files

    - Prelude: machine words, [Settable] record updates, list lemmas, automation.
    - Arena: circular addressing [(head + offset) mod size] of caller-owned spans.
    - Checkpoint: the class [Checkpointed], the contract between a component and
      the owner that saves and restores it; instances are in the components.
    - Blocks, Catalog: the shared SACK block; profile constants
      (generated_device_catalog.hpp).
    - Sequence: serial-number comparisons, segment acceptability (tcp_sequence.hpp).
    - Timers: delayed acknowledgments, persist timer (tcp_timers.cpp).
    - Congestion: RFC 5681 and RFC 6675 windows (tcp_congestion.cpp).
    - Retransmission: the RFC 6298 estimator (tcp_retransmission.cpp).
    - Failure: the R1/R2 policy (tcp_failure.cpp).
    - ReceiveWindow: silly-window avoidance (tcp_receive_window.cpp).
    - SendBuffer, ReceiveBuffer: the two repositories (tcp_send_buffer.cpp,
      tcp_receive_buffer.cpp); Stream composes them over a network that loses,
      duplicates and reorders.
    - History: the ring of admitted segments (tcp_transmission_history.cpp).
    - Sack, SackRecovery: the scoreboard and what its queries mean
      (tcp_sack_scoreboard.cpp).
    - Checksum, Packet, Options: Internet checksums (forwarding/packet.cpp), the
      segment codec (tcp_packet.cpp), typed options (tcp_options.cpp).
    - ControlBlock: the connection state machine (tcp_control_block.cpp); Exchange
      runs two of them against each other.
    - Sender: the owner of the send side (tcp_sender.cpp) over SendBuffer, History,
      Failure, Sack, Congestion, Retransmission and Timers; SenderSync proves that
      its parts stay in step, SenderCheckpoint what its checkpoint keeps.
    - Connection: the owner of a four-tuple (tcp_connection.cpp) over ControlBlock,
      Sender, ReceiveBuffer, ReceiveWindow, Timers, Options and Packet.  SenderFrame
      and ConnectionParts say what one operation of a part does to the sequence
      variables, ConnectionSync that every operation keeps the parts in agreement,
      ConnectionCalls what the application's calls do to a pending preparation,
      ConnectionRuns what that means for runs.
    - Replay: anti-replay windows and outbound counters (security/ipsec_replay.cpp).
    - Spf: the OSPF shortest-path computation (ospf/ospf_spf.cpp).
    - Ordering: comparators as orders on keys, and the contract of std::sort.
    - Routes: the IPv4 route table and lookup (forwarding/multi_device_routing.cpp)
      and the operations of router_forwarder.cpp that own the installed program;
      RouteSelection proves what a rebuild selects, RouteLookup what is found.
    - OspfFsm: the interface machine, the election and the neighbor machine
      (ospf/ospf_fsm.cpp); OspfElection proves what the election computes,
      OspfConvergence that the routers of a segment agree, OspfNeighbor what a trace
      of neighbor events implies.
    - OspfHello, OspfInterface: the Hello body (ospf_packet.cpp) and the runtime of
      an interface (ospf/ospf_interface.cpp); OspfDiscovery proves that interfaces
      discover each other, OspfRuntime the invariant, adjacencies, checkpoints.
    - OspfLsa: the headers of advertisements and the bodies of the packets of an
      adjacency (ospf_packet.cpp, of ospf_lsa.cpp the grace advertisement);
      OspfHeaders what is read back of a written header.
    - OspfLsdb: the database (ospf_lsdb.cpp).  OspfChecksum proves that the checksum
      protects an advertisement, OspfDatabase the invariant of every run,
      OspfFlooding that an instance never gives way to an older one and that
      flooding converges.
    - OspfExchange: the lists of an adjacency (ospf_database_exchange.cpp); OspfSync
      proves what a description makes a router request.
    - OspfThrottle, OspfProcess, OspfUpdate: the delays, the database exchange, and
      the requests, updates and acknowledgments of the process (InstanceProcess,
      ospf_process_database.cpp, ospf_process_origination.cpp from line 1057,
      ospf_process_output.cpp).  One neighbor is the field [neighbor], the other
      adjacencies are the list [others_].
    - OspfDescription, OspfNegotiation, OspfParty, OspfAdjacency: a description is
      read as it was written, what each step makes of a router, and the conversation
      of two of them; OspfSummaries, OspfLoading and OspfLossy prove that it ends,
      that the databases agree after it, and what a loss does; OspfSample holds
      concrete runs.
    - Octets: reading and writing octets of a packet.
    - Ipv6Packet, Ipv6Fragmentation: the IPv6 parser (forwarding/packet.cpp); the
      source encoder and the reassembly table (ip/ipv6_fragmentation.cpp).
      Ipv6Fragments proves what the destination reads in a fragment, Ipv6Entry what
      an entry of the table holds, Ipv6Reassembly what every run of the table keeps,
      Ipv6RoundTrip and Ipv6Delivery that the fragments give the datagram back.

    A Module is named after the C++ class it models, its state record [t] has the
    class's members, and an operation keeps its method's name.  A method that
    mutates returns the new state, next to its result if it has one; one that
    fails returns [option] or the status enumeration of the source.

    ** Machine integers, time and storage

    A [std::uintN_t] is a [Z] in [0, 2^N) and every operation that can wrap is
    written with its reduction ([u16], [u32], [u64], the circled operators of this
    file).  The steady clock is an integer count of nanoseconds.  Spans are lists,
    read and written at [Z] indices below their length.  Objects the C++ shares by
    reference between a component and its owner (the arenas) are fields of the
    state that mutates them.

    ** What the theorems show

    - Reliability: what a reader gets is a prefix of what was written, whatever the
      network does, and from every reachable state the rest can still be delivered
      (Stream); each arena refines its abstract queue or window, and its prepared
      ranges are the stream at their sequence numbers.
    - Connections: the state machine's invariant, the transitions it allows, what
      a segment may move, the blind attacks it ignores, and the opens and closes
      that two blocks complete together (ControlBlock, Exchange).
    - Loss recovery: the scoreboard is the union of what was reported, clipped to
      the flight; [pipe] counts the octets of RFC 6675; [next_segment] follows its
      rules; the history covers the flight without gaps.
    - The send side as a whole: in every run the parts of the sender describe one
      flight and no checked commit fails; new data stays inside both windows; its
      checkpoint continues exactly when the parts agree; and two defects, a persist
      probe left without a timer and a recovery that only congestion control enters.
    - A whole connection: its parts describe the same two streams, in every run that
      does not commit a preparation the application has overtaken by writing, reading
      or reducing the segment size (such a commit undoes the call: ConnectionCalls);
      a preparation is a transaction; and where the parts disagree: the acknowledgment of our
      FIN is lost on the sender, a refused segment still acknowledges, and a close
      drops what was not sent (ConnectionRuns).
    - Timers and windows: the RFC 6298 formula despite overflow guards, R1/R2,
      congestion windows, monotone right edges, acknowledgment delay.
    - Codecs: segments and options parse back; both ends negotiate the same values;
      PAWS agrees with unbounded timestamps.
    - Checkpoints: saved states are accepted back and continue, and accepted
      states are well formed.
    - Replay: no sequence number is accepted twice, and the 64-bit number is
      recovered from its low half within the window.
    - Routing: a destination goes along the best candidate of the longest prefix
      that contains it; a rebuild publishes the best class of every prefix in a
      well-formed table or changes nothing; static routes resolve as documented;
      the forwarder finds a usable path or repair unless the probed hashes wrap.
    - OSPF interfaces: the election computes the roles of RFC 2328 in any order of
      the candidates; routers that start silent agree after two rounds of Hellos and
      an agreed pair outlives newcomers; Full follows only a complete exchange;
      Hellos parse back and three of them make two routers neighbors; adjacencies
      follow elections; a wait can end too early, or be lost by a checkpoint.
    - OSPF databases: every run holds verified advertisements, each once; instances
      only advance; routers that received the same advertisements agree.  Without
      losses two neighbors leave Exchange in every interleaving of what they send,
      agree on the master, request exactly what each lacks and are
      Full once it came, each with instances no older than the other described; a
      lost reply, a lost description and a request of something unknown are not
      recovered from.
    - IPv6 fragments: a completed datagram is tiled by received fragments that do not
      overlap; the fragments of a datagram give it back in any order and among
      other frames; an overlap releases the datagram, and no other.
    - Shortest paths: the published distances are the least costs over paths of the
      graph, the first hops are those of the least-cost paths, and the computation
      ends within its candidate budget.

    ** Fuel

    Loops that are not structural carry fuel, taken from a bound the code has:
    the scoreboard's scans use its range count or its capacity, the history's use
    its record count, option parsing and the option iterator use the option
    length, the receipt scans the arena size.  Spf runs a given number of turns;
    [enough_turns] is the number that suffices for a graph and spf_terminates
    shows it, so that spf_shortest, stated for a run that ended, speaks of every run.
    The readers of header arrays, requests and updates have the number of entries
    the packet holds.  The conversation of two routers is a run of given events, and
    exchange_completes bounds their number.
    The walk along IPv6 headers and the insertion point have [enough_headers], one
    for every eight octets of the packet, which more fuel does not change; the loop
    of the encoder has the number of fragments of its layout.

    ** Not modelled

    tcp_endpoint.cpp, the table of sockets over the connection, the other IP
    services, the IPv6 half of the route table and the forwarding pipeline are
    deterministic code of the same kind that this library does not reach.  Of the
    OSPF process the library leaves out the packet envelope with its checksum and
    authentication (an emission is told whether it succeeds), the origination of
    advertisements, the aging sweep, helping a restarting neighbor (the model is the
    process with [graceful_restart_helper_] off), NBMA peers, areas, routes,
    configuration and the checkpoint; a multicast update that several neighbors
    share appears once for each.  The room of the output span is not modelled.  Where a restore is refused, the rollback of the parts that
    were already restored is not described.  The adapters over ngtcp2, nghttp2, nghttp3 and OpenSSL
    (QUIC, HTTP, DoH, DoQ, DoT, TLS, IKE and ESP) are left out because the
    machines they drive are not in the repository; the command line, the runtime
    and the tools are parsing, orchestration and I/O.  Each constant of
    generated_device_catalog.hpp that a modelled component reads is in Catalog;
    the others are not. *)

From stdpp Require Export base numbers list option.
From Stdlib Require Export ZArith Lia.

#[global] Open Scope Z_scope.

(** lia decides goals with [mod] and [/] by constants through their defining
    equations. *)
Ltac Zify.zify_post_hook ::= Z.to_euclidean_division_equations.

(** ** Machine words

    A [std::uintN_t] value is a [Z] in [0, 2^N); every operation that can wrap
    in C++ is written with its wrap. *)

Abbreviation two32 := 4294967296 (only parsing).
Abbreviation two31 := 2147483648 (only parsing).
(** The 2^30 ceiling the transport puts on every live sequence range. *)
Abbreviation two30 := 1073741824 (only parsing).
Abbreviation two64 := 18446744073709551616 (only parsing).

Definition u8 (z : Z) : Z := z mod 256.
Definition u16 (z : Z) : Z := z mod 65536.
Definition u32 (z : Z) : Z := z mod two32.
Definition u64 (z : Z) : Z := z mod two64.

Definition u32_max : Z := 4294967295.

Definition is_u8 (z : Z) : Prop := 0 <= z < 256.
Definition is_u16 (z : Z) : Prop := 0 <= z < 65536.
Definition is_u32 (z : Z) : Prop := 0 <= z < two32.
Definition is_u64 (z : Z) : Prop := 0 <= z < two64.

Declare Scope word_scope.
Delimit Scope word_scope with word.
(** Wrapping 32-bit addition and subtraction. *)
Notation "a ⊞ b" := (u32 (a + b)) (at level 50, left associativity) : word_scope.
Notation "a ⊟ b" := (u32 (a - b)) (at level 50, left associativity) : word_scope.
#[global] Open Scope word_scope.

Create HintDb word.

Lemma u32_range z : is_u32 (u32 z).
Proof. unfold is_u32, u32. lia. Qed.

Lemma u32_id z : is_u32 z -> u32 z = z.
Proof. unfold is_u32, u32. lia. Qed.

Lemma u16_range z : is_u16 (u16 z).
Proof. unfold is_u16, u16. lia. Qed.

Lemma u8_range z : is_u8 (u8 z).
Proof. unfold is_u8, u8. lia. Qed.

Lemma u64_range z : is_u64 (u64 z).
Proof. unfold is_u64, u64. lia. Qed.

#[export] Hint Resolve u32_range u16_range u8_range u64_range : word.

(** The one fact about wrapped subtraction that proofs use: the difference of
    two words is their integer difference, or that plus 2^32. *)
Lemma wsub_cases a b :
  is_u32 a -> is_u32 b ->
  (b <= a /\ a ⊟ b = a - b) \/ (a < b /\ a ⊟ b = a - b + two32).
Proof. unfold is_u32, u32. lia. Qed.

Lemma wadd_cases a b :
  is_u32 a -> is_u32 b ->
  (a + b < two32 /\ a ⊞ b = a + b) \/ (two32 <= a + b /\ a ⊞ b = a + b - two32).
Proof. unfold is_u32, u32. lia. Qed.

Lemma wadd_wsub b x : is_u32 x -> b ⊞ (x ⊟ b) = x.
Proof. unfold is_u32, u32. lia. Qed.

Lemma wsub_wadd b d : is_u32 d -> (b ⊞ d) ⊟ b = d.
Proof. unfold is_u32, u32. lia. Qed.

Lemma wsub_diag b : b ⊟ b = 0.
Proof. unfold u32. now rewrite Z.sub_diag. Qed.

(** Differences of offsets from a common base. *)
Lemma wsub_offsets b x y : x ⊟ y = (x ⊟ b) ⊟ (y ⊟ b).
Proof. unfold u32. rewrite <- Zminus_mod. f_equal. lia. Qed.

Lemma wsub_offset b x y : y ⊟ b <= x ⊟ b -> x ⊟ y = x ⊟ b - (y ⊟ b).
Proof.
  intros H. rewrite (wsub_offsets b). apply u32_id.
  pose proof (u32_range (x - b)). pose proof (u32_range (y - b)). unfold is_u32 in *. lia.
Qed.

(** [unfold_words] exposes the modular equations, for lia. *)
Ltac unfold_words := unfold u8, u16, u32, u64, is_u8, is_u16, is_u32, is_u64, u32_max in *.
Ltac word := unfold_words; lia.

(** [std::uintN_t] concatenation: a shifted word or a byte below it. *)
Lemma lor_shiftl h l n :
  0 <= n -> 0 <= l < 2 ^ n -> Z.lor (Z.shiftl h n) l = h * 2 ^ n + l.
Proof.
  intros Hn Hl. rewrite <- Z.shiftl_mul_pow2 by lia.
  assert (Z.land (Z.shiftl h n) l = 0) as E.
  { apply Z.bits_inj'. intros k Hk. rewrite Z.land_spec, Z.bits_0.
    destruct (Z.lt_ge_cases k n); [now rewrite Z.shiftl_spec_low by lia|].
    rewrite <- (Z.mod_small l (2 ^ n)), Z.mod_pow2_bits_high by lia. apply andb_false_r. }
  rewrite <- Z.lxor_lor by done. symmetry. now apply Z.add_nocarry_lxor.
Qed.

(** Network byte order: the octets of a value, and what reading them back gives. *)
Definition be16 (v : Z) : list Z := [u8 (Z.shiftr v 8); u8 v].
Definition be24 (v : Z) : list Z := [u8 (Z.shiftr v 16); u8 (Z.shiftr v 8); u8 v].
Definition be32 (v : Z) : list Z :=
  [u8 (Z.shiftr v 24); u8 (Z.shiftr v 16); u8 (Z.shiftr v 8); u8 v].

Lemma be16_read v : is_u16 v -> u16 (Z.lor (Z.shiftl (u8 (Z.shiftr v 8)) 8) (u8 v)) = v.
Proof.
  intros Hv. pose proof (u8_range v). rewrite Z.shiftr_div_pow2 by lia.
  rewrite lor_shiftl by (unfold is_u8 in *; lia). word.
Qed.

(** Four octets in network order. *)
Lemma lor_octets a b c d :
  is_u8 a -> is_u8 b -> is_u8 c -> is_u8 d ->
  Z.lor (Z.lor (Z.lor (Z.shiftl a 24) (Z.shiftl b 16)) (Z.shiftl c 8)) d
  = ((a * 256 + b) * 256 + c) * 256 + d.
Proof.
  unfold is_u8. intros Ha Hb Hc Hd.
  rewrite (lor_shiftl a (Z.shiftl b 16) 24) by (rewrite ?Z.shiftl_mul_pow2 by lia; lia).
  replace (a * 2 ^ 24 + Z.shiftl b 16) with (Z.shiftl (a * 256 + b) 16)
    by (rewrite !Z.shiftl_mul_pow2 by lia; lia).
  rewrite (lor_shiftl (a * 256 + b) (Z.shiftl c 8) 16) by (rewrite ?Z.shiftl_mul_pow2 by lia; lia).
  replace ((a * 256 + b) * 2 ^ 16 + Z.shiftl c 8) with (Z.shiftl ((a * 256 + b) * 256 + c) 8)
    by (rewrite !Z.shiftl_mul_pow2 by lia; lia).
  rewrite (lor_shiftl _ d 8) by lia. lia.
Qed.

Lemma be32_read v :
  is_u32 v ->
  Z.lor (Z.lor (Z.lor (Z.shiftl (u8 (Z.shiftr v 24)) 24) (Z.shiftl (u8 (Z.shiftr v 16)) 16))
               (Z.shiftl (u8 (Z.shiftr v 8)) 8)) (u8 v) = v.
Proof.
  intros Hv. rewrite lor_octets by apply u8_range. rewrite !Z.shiftr_div_pow2 by lia.
  change (2 ^ 24) with 16777216. change (2 ^ 16) with 65536. change (2 ^ 8) with 256. word.
Qed.

Lemma be24_read v :
  0 <= v < 2 ^ 24 ->
  Z.lor (Z.lor (Z.shiftl (u8 (Z.shiftr v 16)) 16) (Z.shiftl (u8 (Z.shiftr v 8)) 8)) (u8 v) = v.
Proof.
  intros Hv. rewrite <- (be32_read v) at 4 by (unfold is_u32; lia).
  replace (u8 (Z.shiftr v 24)) with 0; [done|].
  unfold u8. rewrite Z.shiftr_div_pow2 by lia. now rewrite Z.div_small.
Qed.

(** ** Saturating arithmetic and machine division *)

(** C++ signed division truncates towards zero. *)
Abbreviation cdiv := Z.quot (only parsing).

(** ** Options *)

(** [o ||= v] is [std::optional::value_or]. *)
Definition value_or {A} (d : A) (o : option A) : A := match o with Some x => x | None => d end.

Definition has_value {A} (o : option A) : bool := match o with Some _ => true | None => false end.

(** ** Booleans *)

(** [bdestruct b] splits on a boolean test of the goal and turns it into the
    corresponding proposition about integers. *)
Ltac bool_to_prop :=
  repeat match goal with
  | H : (_ && _)%bool = true |- _ =>
      let H1 := fresh "E" in let H2 := fresh "E" in apply andb_true_iff in H as [H1 H2]
  | H : (_ || _)%bool = false |- _ =>
      let H1 := fresh "E" in let H2 := fresh "E" in apply orb_false_iff in H as [H1 H2]
  | H : negb _ = true |- _ => apply negb_true_iff in H
  | H : negb _ = false |- _ => apply negb_false_iff in H
  | H : (_ <? _) = true |- _ => apply Z.ltb_lt in H
  | H : (_ <? _) = false |- _ => apply Z.ltb_ge in H
  | H : (_ <=? _) = true |- _ => apply Z.leb_le in H
  | H : (_ <=? _) = false |- _ => apply Z.leb_gt in H
  | H : (_ =? _) = true |- _ => apply Z.eqb_eq in H
  | H : (_ =? _) = false |- _ => apply Z.eqb_neq in H
  end.

(** [blia] proves equations between boolean tests on integers by turning them
    into propositions first. *)
Ltac blia :=
  first
    [ lia
    | apply eq_true_iff_eq;
      repeat rewrite ?andb_true_iff, ?orb_true_iff, ?negb_true_iff, ?andb_false_iff,
        ?orb_false_iff, ?Z.leb_le, ?Z.ltb_lt, ?Z.eqb_eq, ?Z.leb_gt, ?Z.ltb_ge, ?Z.eqb_neq;
      intuition lia ].

(** [case_if] destructs the scrutinee of the first conditional of the goal. *)
Ltac case_if :=
  match goal with
  | |- context [if ?b then _ else _] => let E := fresh "E" in destruct b eqn:E; bool_to_prop
  end.
Ltac case_if_in H :=
  match type of H with
  | context [if ?b then _ else _] => let E := fresh "E" in destruct b eqn:E; bool_to_prop
  end.
(** [cases] splits every conditional of the goal; [cases_in H] those of [H]. *)
Ltac cases := repeat case_if.
Ltac cases_in H := repeat case_if_in H.

(** ** Reachability

    The states a component reaches from [init] by [step]s, and the induction
    principle its safety theorems use. *)
Section Reachability.
Context {S E : Type} (init : S -> Prop) (step : S -> E -> S -> Prop).

Inductive reachable : S -> Prop :=
| reachable_init s : init s -> reachable s
| reachable_step s e s' : reachable s -> step s e s' -> reachable s'.

Lemma invariant_reachable (P : S -> Prop) :
  (forall s, init s -> P s) ->
  (forall s e s', P s -> step s e s' -> P s') ->
  forall s, reachable s -> P s.
Proof. intros Hi Hs s H. induction H; eauto. Qed.
End Reachability.

(** ** Record update

    [s <| f := v |>] is [s] with field [f] replaced, for a record whose eta
    expansion is declared [Settable]. *)
Class Settable (R : Type) := eta : R -> R.
Class Setter {R T : Type} (proj : R -> T) := set_field : (T -> T) -> R -> R.

Ltac derive_setter :=
  lazymatch goal with
  | |- @Setter ?R ?T ?proj =>
      let inst := constr:(_ : Settable R) in
      let e := eval hnf in inst in
      let p := eval pattern proj in e in
      lazymatch p with
      | ?f _ =>
          let body := eval cbv beta in (fun (g : T -> T) (r : R) => f (fun r' => g (proj r')) r) in
          exact body
      end
  end.
#[export] Hint Extern 0 (Setter _) => derive_setter : typeclass_instances.

Declare Scope record_scope.
Delimit Scope record_scope with record.
Notation "s <| f := v |>" := (set_field (proj := f) (fun _ => v) s)
  (at level 1, left associativity, format "s  <| f  :=  v |>") : record_scope.
#[global] Open Scope record_scope.
#[global] Arguments set_field {R T} proj {Setter} _ _ /.
