(* ===== verification/Sequence.v ===== *)
(** * Serial-number arithmetic and receive-window acceptability
    (core/include/router/tcp_sequence.hpp). *)

From S2P Require Import Prelude.

Module Sequence.

Definition half_space : Z := two31.

Definition before (left right : Z) : bool :=
  negb (left =? right) && (right ⊟ left <? half_space).

Definition before_or_equal (left right : Z) : bool :=
  (left =? right) || before left right.

Definition after (left right : Z) : bool := before right left.

Definition after_or_equal (left right : Z) : bool :=
  (left =? right) || after left right.

Definition segment_acceptable
    (segment_sequence segment_length receive_next receive_window : Z) : bool :=
  if (segment_length =? 0) && (receive_window =? 0)
  then segment_sequence =? receive_next
  else if receive_window =? 0 then false
  else
    let window_end := receive_next ⊞ receive_window in
    let first_inside := after_or_equal segment_sequence receive_next
                        && before segment_sequence window_end in
    if segment_length =? 0 then first_inside
    else
      let last_sequence := u32 (segment_sequence + segment_length - 1) in
      let last_inside := after_or_equal last_sequence receive_next
                         && before last_sequence window_end in
      first_inside || last_inside.

Definition acknowledgment_advances
    (acknowledgment send_unacknowledged send_next : Z) : bool :=
  after acknowledgment send_unacknowledged
  && before_or_equal acknowledgment send_next.

(** ** Reduction to offsets

    Every live value lies within 2^31 of a base [b]; there the serial order is
    the order of the offsets [x ⊟ b]. *)
Section Offsets.
Context (b : Z).

Lemma before_offset x y :
  is_u32 x -> is_u32 y -> x ⊟ b < two31 -> y ⊟ b < two31 ->
  before x y = (x ⊟ b <? y ⊟ b).
Proof.
  intros Hx Hy Hdx Hdy. unfold before, half_space.
  apply eq_true_iff_eq. rewrite andb_true_iff, negb_true_iff, Z.eqb_neq, !Z.ltb_lt.
  word.
Qed.

Lemma after_offset x y :
  is_u32 x -> is_u32 y -> x ⊟ b < two31 -> y ⊟ b < two31 ->
  after x y = (y ⊟ b <? x ⊟ b).
Proof. intros. now apply before_offset. Qed.

Lemma before_or_equal_offset x y :
  is_u32 x -> is_u32 y -> x ⊟ b < two31 -> y ⊟ b < two31 ->
  before_or_equal x y = (x ⊟ b <=? y ⊟ b).
Proof.
  intros Hx Hy Hdx Hdy. unfold before_or_equal.
  rewrite before_offset by done. apply eq_true_iff_eq.
  rewrite orb_true_iff, Z.eqb_eq, Z.ltb_lt, Z.leb_le. word.
Qed.
End Offsets.

(** ** Common cases *)

(** An octet or an empty segment at RCV.NXT is acceptable. *)
Lemma acceptable_at_next n len w :
  is_u32 n -> 0 <= w < two31 -> len = 0 \/ 0 < w -> 0 <= len ->
  segment_acceptable n len n w = true.
Proof.
  intros Hn Hw Hl Hl0. unfold segment_acceptable.
  assert (w <> 0 -> before n (n ⊞ w) = true) as Hb.
  { intros Hw0. unfold before, half_space. rewrite andb_true_iff, negb_true_iff, Z.eqb_neq, Z.ltb_lt. word. }
  assert (after_or_equal n n = true) as Ha by (unfold after_or_equal; now rewrite Z.eqb_refl).
  destruct (Z.eqb_spec len 0) as [->|]; destruct (Z.eqb_spec w 0) as [->|]; cbn [andb]; [apply Z.eqb_refl | | lia |];
    now rewrite Ha, Hb.
Qed.

Lemma after_succ n : is_u32 n -> after (n ⊞ 1) n = true.
Proof.
  intros Hn. unfold after, before, half_space. rewrite andb_true_iff, negb_true_iff, Z.eqb_neq, Z.ltb_lt. word.
Qed.

Lemma before_irrefl n : before n n = false.
Proof. unfold before. now rewrite Z.eqb_refl. Qed.

Lemma after_irrefl n : after n n = false.
Proof. apply before_irrefl. Qed.

Lemma before_or_equal_refl n : before_or_equal n n = true.
Proof. unfold before_or_equal. now rewrite Z.eqb_refl. Qed.

Lemma advances_succ n : is_u32 n -> acknowledgment_advances (n ⊞ 1) n (n ⊞ 1) = true.
Proof.
  intros Hn. unfold acknowledgment_advances. now rewrite after_succ, before_or_equal_refl.
Qed.

Lemma advances_none n m : acknowledgment_advances n n m = false.
Proof. unfold acknowledgment_advances, after. now rewrite before_irrefl. Qed.

(** Acceptability is the RFC 9293 window test.  For a segment at the signed
    distance [d] from RCV.NXT it holds exactly when an empty segment starts in
    the window (or at RCV.NXT when the window is closed) or the first or last
    octet of a nonempty one lies in it, wherever the window wraps; and an ACK
    advances exactly when it lies in (SND.UNA, SND.NXT]. *)
Theorem segment_acceptable_window nxt d len wnd una a f :
  is_u32 nxt -> - two31 < d < two31 -> 0 <= len -> d + len <= two31 -> 0 <= wnd < two31 ->
  is_u32 una -> - two31 < a < two31 -> 0 <= f < two31 -> f - a < two31 ->
  segment_acceptable (nxt ⊞ d) len nxt wnd
  = (if (len =? 0)%Z then (0 <=? d) && (d <? Z.max 1 wnd)
     else ((0 <=? d) && (d <? wnd)) || ((0 <=? d + len - 1) && (d + len - 1 <? wnd)))
  /\ acknowledgment_advances (una ⊞ a) una (una ⊞ f) = (0 <? a) && (a <=? f).
Proof.
  intros In Hd Hl Hdl Hw Iu Ha Hf Hfa.
  assert (In_window : forall x, - two31 < x < two31 -> wnd <> 0 ->
    after_or_equal (nxt ⊞ x) nxt && before (nxt ⊞ x) (nxt ⊞ wnd) = (0 <=? x) && (x <? wnd)).
  { intros x Hx Hw0. unfold after_or_equal, after, before, half_space. clear -In Hx Hw Hw0.
    apply eq_true_iff_eq.
    rewrite !andb_true_iff, orb_true_iff, !andb_true_iff, !negb_true_iff, !Z.eqb_eq, !Z.eqb_neq, !Z.ltb_lt, Z.leb_le.
    word. }
  split.
  - unfold segment_acceptable.
    destruct (Z.eqb_spec len 0) as [->|Hl0]; destruct (Z.eqb_spec wnd 0) as [->|Hw0]; cbn [andb].
    + clear -In Hd. apply eq_true_iff_eq. rewrite andb_true_iff, Z.eqb_eq, Z.leb_le, Z.ltb_lt. word.
    + rewrite In_window by lia. replace (Z.max 1 wnd) with wnd by lia. done.
    + symmetry. blia.
    + replace (u32 (nxt ⊞ d + len - 1)) with (nxt ⊞ (d + len - 1)) by (clear; word).
      now rewrite !In_window by lia.
  - unfold acknowledgment_advances, before_or_equal, after, before, half_space.
    clear -Iu Ha Hf Hfa. apply eq_true_iff_eq.
    rewrite !andb_true_iff, orb_true_iff, !andb_true_iff, !negb_true_iff, !Z.eqb_eq, !Z.eqb_neq, !Z.ltb_lt, Z.leb_le.
    word.
Qed.

Example segment_acceptable_window_witness :
  segment_acceptable (4294967290 ⊞ 2) 10 4294967290 20 = true
  /\ acknowledgment_advances (4294967290 ⊞ 9) 4294967290 (4294967290 ⊞ 12) = true.
Proof.
  apply (segment_acceptable_window 4294967290 2 10 20 4294967290 9 12);
    vm_compute; intuition congruence.
Defined.

End Sequence.
