(* ===== verification/Catalog.v ===== *)
(** * Profile constants of the transport
    (core/include/router/generated_device_catalog.hpp) and the protocol
    constants of core/include/router/tcp_packet.hpp.

    A duration is an integer count of nanoseconds, the resolution of the
    steady clock; [duration_cast] from it to nanoseconds is the identity. *)

From S2P Require Import Prelude.

Module Catalog.

Definition milliseconds (n : Z) : Z := n * 1000000.
Definition seconds (n : Z) : Z := n * 1000000000.

Definition tcp_rto_initial : Z := milliseconds 1000.
Definition tcp_rto_minimum : Z := milliseconds 1000.
Definition tcp_rto_maximum : Z := milliseconds 60000.
Definition tcp_rto_clock_granularity : Z := milliseconds 1.
Definition tcp_rto_after_syn_retransmission : Z := milliseconds 3000.
Definition tcp_delayed_ack : Z := milliseconds 200.
Definition tcp_sws_override : Z := milliseconds 200.
Definition tcp_persist_maximum : Z := milliseconds 60000.
Definition tcp_failure_r1_retransmissions : Z := 3.
Definition tcp_failure_data_r2 : Z := seconds 100.
Definition tcp_failure_syn_r2 : Z := seconds 180.
Definition maximum_ecmp_paths : Z := 128.
Definition maximum_ports_per_router : Z := 801.
Definition maximum_static_routes_per_router : Z := 64.
Definition maximum_fib_routes_per_router : Z := maximum_ports_per_router + maximum_static_routes_per_router.
Definition ipv6_reassembly_entries_per_endpoint : Z := 4.
Definition ipv6_reassembly_timeout : Z := seconds 60.
Definition ospf_work_budget_packets : Z := 64.
Definition ospf_min_ls_arrival : Z := seconds 1.
Definition ospf_min_lsa_interval : Z := seconds 5.
Definition ospf_spf_initial_wait : Z := milliseconds 1000.
Definition ospf_spf_second_wait : Z := milliseconds 1000.
Definition ospf_spf_maximum_wait : Z := milliseconds 10000.
Definition ospf_lsa_initial_wait : Z := milliseconds 5000.
Definition ospf_lsa_second_wait : Z := milliseconds 5000.
Definition ospf_lsa_maximum_wait : Z := milliseconds 5000.
Definition tcp_maximum_segment_lifetime : Z := seconds 120.

End Catalog.
