(* ===== verification/Checkpoint.v ===== *)
(** * The checkpoint contract

    Every transport component exposes [checkpoint(now)] and [restore(state,
    now)].  The owner that composes components relies on one law: what a live
    component saved is accepted by a component built over the same resources,
    which then continues in an equivalent state. *)

From S2P Require Import Prelude.

Class Checkpointed (S C : Type) := {
  (** the states a live component can be in, at the time it is saved *)
  ck_wf : S -> Z -> Prop;
  (** the restoring object has the saved one's resources *)
  ck_fits : S -> S -> Prop;
  ck_save : S -> Z -> C;
  (** [ck_load live state now] is the new state of [live], or [None] when
      [restore] returns false and leaves it unchanged *)
  ck_load : S -> C -> Z -> option S;
  (** the state the restored component continues in *)
  ck_norm : S -> Z -> S;
  ck_load_save live s now :
    ck_wf s now -> ck_fits live s -> ck_load live (ck_save s now) now = Some (ck_norm s now)
}.

(** A pair of components restored one after the other, as an owner does. *)
Section Pair.
Context {S1 C1 S2 C2 : Type} `{!Checkpointed S1 C1, !Checkpointed S2 C2}.

Definition load_both (live : S1 * S2) (c : C1 * C2) (now : Z) : option (S1 * S2) :=
  match ck_load live.1 c.1 now, ck_load live.2 c.2 now with
  | Some a, Some b => Some (a, b)
  | _, _ => None
  end.

Lemma load_both_save live s now :
  ck_wf s.1 now -> ck_wf s.2 now -> ck_fits live.1 s.1 -> ck_fits live.2 s.2 ->
  load_both live (ck_save s.1 now, ck_save s.2 now) now
  = Some (ck_norm s.1 now, ck_norm s.2 now).
Proof. intros. unfold load_both. cbn. now rewrite !ck_load_save. Qed.

#[export] Instance pair_checkpointed : Checkpointed (S1 * S2) (C1 * C2) := {
  ck_wf s now := ck_wf s.1 now /\ ck_wf s.2 now;
  ck_fits live s := ck_fits live.1 s.1 /\ ck_fits live.2 s.2;
  ck_save s now := (ck_save s.1 now, ck_save s.2 now);
  ck_load := load_both;
  ck_norm s now := (ck_norm s.1 now, ck_norm s.2 now);
  ck_load_save live s now H1 H2 :=
    load_both_save live s now (proj1 H1) (proj2 H1) (proj1 H2) (proj2 H2) }.
End Pair.
