(* ===== verification/Timers.v ===== *)
(** * Delayed acknowledgments and the persist timer
    (core/src/transport/tcp_timers.cpp). *)

From S2P Require Import Prelude Catalog Checkpoint.

Module DelayedAcknowledger.

Inductive AckSchedule := none | delayed | immediate.

Record t := mk {
  deadline_ : option Z;
  data_segments_since_ack_ : Z
}.
#[export] Instance t_settable : Settable t :=
  fun s => mk (deadline_ s) (data_segments_since_ack_ s).

Definition initial : t := mk None 0.

Definition on_segment (s : t) (in_order : bool) (data_octets : Z) (fin : bool) (now : Z)
    : AckSchedule * t :=
  if negb in_order || fin then
    (immediate, s <| deadline_ := Some now |> <| data_segments_since_ack_ := 0 |>)
  else if data_octets =? 0 then (none, s)
  else if negb (data_segments_since_ack_ s =? 0) then
    (immediate, s <| deadline_ := Some now |> <| data_segments_since_ack_ := 0 |>)
  else
    (delayed, s <| data_segments_since_ack_ := 1 |>
                <| deadline_ := Some (now + Catalog.tcp_delayed_ack) |>).

Definition request_immediate (s : t) (now : Z) : t :=
  s <| deadline_ := Some now |> <| data_segments_since_ack_ := 0 |>.

Definition due (s : t) (now : Z) : bool :=
  match deadline_ s with Some d => d <=? now | None => false end.

Definition acknowledge_committed (s : t) : t :=
  s <| deadline_ := None |> <| data_segments_since_ack_ := 0 |>.

Record Checkpoint := mkCheckpoint {
  remaining_nanoseconds : Z;
  ck_data_segments_since_ack : Z;
  deadline_present : bool
}.

Definition checkpoint (s : t) (now : Z) : Checkpoint :=
  let remaining := match deadline_ s with
                   | Some d => if now <? d then d - now else 0
                   | None => 0
                   end in
  mkCheckpoint remaining (data_segments_since_ack_ s) (has_value (deadline_ s)).

Definition restore (s : t) (state : Checkpoint) (now : Z) : option t :=
  if (remaining_nanoseconds state <? 0)
     || (1 <? ck_data_segments_since_ack state)
     || (negb (deadline_present state) && negb (ck_data_segments_since_ack state =? 0))
     || (negb (deadline_present state) && negb (remaining_nanoseconds state =? 0))
  then None
  else Some (s <| deadline_ := if deadline_present state
                               then Some (now + remaining_nanoseconds state) else None |>
               <| data_segments_since_ack_ := ck_data_segments_since_ack state |>).

(** At most one unacknowledged data segment is ever delayed, and it always
    has a deadline. *)
Definition wf (s : t) : Prop :=
  (data_segments_since_ack_ s = 0 \/ data_segments_since_ack_ s = 1)
  /\ (deadline_ s = None -> data_segments_since_ack_ s = 0).

Inductive event :=
| Segment (in_order : bool) (data_octets : Z) (fin : bool)
| RequestImmediate
| Committed.

Definition apply (s : t) (e : event) (now : Z) : t :=
  match e with
  | Segment o n f => snd (on_segment s o n f now)
  | RequestImmediate => request_immediate s now
  | Committed => acknowledge_committed s
  end.

Lemma delayed_ack_wf_apply s e now : wf s -> wf (apply s e now).
Proof.
  unfold wf. destruct s as [d n]; destruct e as [o k f| |]; cbn; [|naive_solver..].
  unfold on_segment. cases; cbn; naive_solver.
Qed.

(** A restored past deadline is due at once. *)
Definition norm (s : t) (now : Z) : t :=
  s <| deadline_ := (fun d => Z.max now d) <$> deadline_ s |>.

Lemma delayed_ack_restore_checkpoint live s now :
  wf s -> restore live (checkpoint s now) now = Some (norm s now).
Proof.
  destruct s as [[d|] n]; intros [Hn Hd]; cbn in *; unfold restore; cbn.
  - destruct (Z.ltb_spec now d); cases; try lia;
      unfold norm; cbn; repeat f_equal; lia.
  - rewrite Hd by done. reflexivity.
Qed.

#[export] Instance checkpointed : Checkpointed t Checkpoint := {
  ck_wf s _ := wf s;
  ck_fits _ _ := True;
  ck_save := checkpoint;
  ck_load := restore;
  ck_norm := norm;
  ck_load_save live s now H _ := delayed_ack_restore_checkpoint live s now H }.

(** ** Timed runs

    [owed] records that something arrived since the last committed ACK that has
    to be acknowledged; [latest] is the time of the last event. *)
Record run := mkRun { timer : t; owed : bool; latest : Z }.

Definition owes (e : event) : option bool :=
  match e with
  | Segment o n f => if negb o || f || negb (n =? 0) then Some true else None
  | RequestImmediate => Some true
  | Committed => Some false
  end.

Definition observe (r : run) (e : event) (now : Z) : run :=
  mkRun (apply (timer r) e now) (value_or (owed r) (owes e)) now.

Definition run_init (r : run) : Prop := timer r = initial /\ owed r = false.
Definition run_step (r : run) (te : Z * event) (r' : run) : Prop :=
  latest r <= te.1 /\ r' = observe r te.2 te.1.

Definition run_wf (r : run) : Prop :=
  wf (timer r) /\ owed r = has_value (deadline_ (timer r))
  /\ (forall d, deadline_ (timer r) = Some d -> d <= latest r + Catalog.tcp_delayed_ack).

Lemma delayed_ack_run_wf r : reachable run_init run_step r -> run_wf r.
Proof.
  apply invariant_reachable.
  - intros [s ow la] [E1 E2]. cbn in *. subst. unfold run_wf, wf; cbn. split_and!; auto; done.
  - intros r1 [now e] r2 (W & Ho & Hd) [Ht ->]. cbn in Ht.
    split; [now apply delayed_ack_wf_apply|]. destruct r1 as [[d n] ow la]; cbn in *.
    unfold Catalog.tcp_delayed_ack, Catalog.milliseconds in *.
    destruct e as [o k f| |]; cbn; [|split; [done|intros ? [= <-]; lia]|split; done].
    unfold on_segment. cbn. destruct (negb o || f); cbn; [split; [done|intros ? [= <-]; lia]|].
    destruct (k =? 0); cbn; [split; [done|]; intros d0 E; specialize (Hd d0 E); lia|].
    destruct (n =? 0); cbn; (split; [done|]); intros ? [= <-];
      unfold Catalog.tcp_delayed_ack, Catalog.milliseconds; lia.
Qed.

(** An acknowledgment is owed exactly while a deadline is armed, and whatever
    has happened the deadline is at most 200 ms away; a segment out of order, a
    FIN, an explicit request and the second in-order data segment in a row are
    due at once, and nothing but a committed ACK disarms the timer. *)
Theorem delayed_ack_bounded r :
  reachable run_init run_step r ->
  owed r = has_value (deadline_ (timer r))
  /\ (forall d, deadline_ (timer r) = Some d -> d <= latest r + Catalog.tcp_delayed_ack)
  /\ (forall o n f now, negb o || f || (negb (n =? 0) && (data_segments_since_ack_ (timer r) =? 1)) = true ->
        due (apply (timer r) (Segment o n f) now) now = true)
  /\ (forall now, due (apply (timer r) RequestImmediate now) now = true).
Proof.
  intros Hr. destruct (delayed_ack_run_wf r Hr) as (W & Ho & Hd).
  split_and!; try done.
  - intros o n f now H. cbn. unfold on_segment. destruct (negb o || f); cbn.
    { unfold due; cbn. lia. }
    cbn in H. bool_to_prop. replace (n =? 0) with false by lia.
    replace (data_segments_since_ack_ (timer r) =? 0) with false by lia. cbn.
    unfold due; cbn. lia.
  - intros now. unfold due; cbn. lia.
Qed.

Lemma delayed_ack_sample_reachable :
  reachable run_init run_step (observe (mkRun initial false 0) (Segment true 100 false) 5).
Proof.
  apply (reachable_step _ _ (mkRun initial false 0) (5, Segment true 100 false)).
  - now apply reachable_init.
  - now split.
Qed.

Example delayed_ack_bounded_witness :
  due (apply (apply initial (Segment true 100 false) 5) (Segment true 40 false) 9) 9 = true.
Proof. exact (proj1 (proj2 (proj2 (delayed_ack_bounded _ delayed_ack_sample_reachable))) true 40 false 9 eq_refl). Defined.

(** An acknowledgment that is due at once does not stay so.  When it could
    not be admitted to the next queue, the next in-order data segment moves its
    deadline 200 ms ahead, since only the count of delayed segments is looked
    at and an immediate request resets that count. *)
Theorem delayed_ack_postpones_immediate s n now later :
  0 < n ->
  due (apply s RequestImmediate now) now = true
  /\ deadline_ (apply (apply s RequestImmediate now) (Segment true n false) later)
     = Some (later + Catalog.tcp_delayed_ack).
Proof.
  intros Hn. unfold due; cbn. split; [lia|]. unfold on_segment; cbn.
  now replace (n =? 0) with false by lia.
Qed.

Example delayed_ack_postpones_immediate_witness :
  due (apply initial RequestImmediate 7) 7 = true
  /\ deadline_ (apply (apply initial RequestImmediate 7) (Segment true 10 false) 8)
     = Some (8 + Catalog.tcp_delayed_ack).
Proof. apply (delayed_ack_postpones_immediate initial 10 7 8). lia. Defined.

End DelayedAcknowledger.

Module PersistTimer.

Record t := mk { deadline_ : option Z; interval_ : Z }.
#[export] Instance t_settable : Settable t := fun s => mk (deadline_ s) (interval_ s).

Definition initial : t := mk None 0.

(** [std::clamp] *)
Definition clamp (v lo hi : Z) : Z := if v <? lo then lo else if hi <? v then hi else v.

Definition update (s : t) (zero_window queued_data : bool) (current_rto now : Z) : t :=
  if negb zero_window || negb queued_data then
    s <| deadline_ := None |> <| interval_ := 0 |>
  else match deadline_ s with
       | Some _ => s
       | None =>
           let i := clamp current_rto 1 Catalog.tcp_persist_maximum in
           s <| interval_ := i |> <| deadline_ := Some (now + i) |>
       end.

Definition due (s : t) (now : Z) : bool :=
  match deadline_ s with Some d => d <=? now | None => false end.

Definition probe_committed (s : t) (now : Z) : bool * t :=
  match deadline_ s with
  | None => (false, s)
  | Some d =>
      if now <? d then (false, s)
      else
        let maximum := Catalog.tcp_persist_maximum in
        let i := if maximum - interval_ s <? interval_ s then maximum else interval_ s * 2 in
        (true, s <| interval_ := i |> <| deadline_ := Some (now + i) |>)
  end.

Record Checkpoint := mkCheckpoint {
  remaining_nanoseconds : Z;
  interval_nanoseconds : Z;
  active : bool
}.

Definition checkpoint (s : t) (now : Z) : Checkpoint :=
  let remaining := match deadline_ s with
                   | Some d => if now <? d then d - now else 0
                   | None => 0
                   end in
  mkCheckpoint remaining (interval_ s) (has_value (deadline_ s)).

Definition restore (s : t) (state : Checkpoint) (now : Z) : option t :=
  if (remaining_nanoseconds state <? 0)
     || (interval_nanoseconds state <? 0)
     || (Catalog.tcp_persist_maximum <? interval_nanoseconds state)
     || negb (eqb (active state) (0 <? interval_nanoseconds state))
     || (negb (active state) && negb (remaining_nanoseconds state =? 0))
  then None
  else Some (s <| interval_ := interval_nanoseconds state |>
               <| deadline_ := if active state
                               then Some (now + remaining_nanoseconds state) else None |>).

(** The interval is positive exactly while the timer runs, and never exceeds
    the profile's ceiling. *)
Definition wf (s : t) : Prop :=
  match deadline_ s with
  | Some _ => 0 < interval_ s <= Catalog.tcp_persist_maximum
  | None => interval_ s = 0
  end.

Lemma persist_wf_initial : wf initial.
Proof. reflexivity. Qed.

Lemma persist_wf_update s z q rto now : wf s -> wf (update s z q rto now).
Proof.
  unfold update, wf. destruct (negb z || negb q); [done|].
  destruct s as [[d|] i]; cbn; [done|intros _]. unfold clamp.
  cases; unfold Catalog.tcp_persist_maximum, Catalog.milliseconds in *; lia.
Qed.

Lemma persist_wf_probe_committed s now : wf s -> wf (snd (probe_committed s now)).
Proof.
  unfold probe_committed, wf. destruct s as [[d|] i]; cbn; [|done].
  destruct (now <? d); cbn; [done|]. intros H. cases; lia.
Qed.

(** [update] leaves a running timer alone while the persist condition holds
    and stops it otherwise. *)
Lemma persist_update_running s rto now :
  has_value (deadline_ s) = true -> update s true true rto now = s.
Proof. unfold update. cbn. now destruct (deadline_ s). Qed.

Definition norm (s : t) (now : Z) : t :=
  s <| deadline_ := (fun d => Z.max now d) <$> deadline_ s |>.

Lemma persist_restore_checkpoint live s now :
  wf s -> restore live (checkpoint s now) now = Some (norm s now).
Proof.
  destruct s as [[d|] i]; unfold wf; cbn; intros Hi; unfold restore, norm; cbn.
  - replace (0 <? i) with true by lia. cbn.
    destruct (Z.ltb_spec now d); cases; try lia; cbn; repeat f_equal; lia.
  - subst i. reflexivity.
Qed.

#[export] Instance checkpointed : Checkpointed t Checkpoint := {
  ck_wf s _ := wf s;
  ck_fits _ _ := True;
  ck_save := checkpoint;
  ck_load := restore;
  ck_norm := norm;
  ck_load_save live s now H _ := persist_restore_checkpoint live s now H }.

(** The [n]-th successive probe interval, each probe committed when due. *)
Fixpoint probes (n : nat) (s : t) : t :=
  match n with
  | O => s
  | S n => let s' := probes n s in
           match deadline_ s' with
           | Some d => snd (probe_committed s' d)
           | None => s'
           end
  end.

Lemma persist_probes_interval n s d :
  wf s -> deadline_ s = Some d ->
  wf (probes n s) /\ has_value (deadline_ (probes n s)) = true
  /\ interval_ (probes n s) = Z.min Catalog.tcp_persist_maximum (interval_ s * 2 ^ Z.of_nat n).
Proof.
  intros Hwf Hd. pose proof Hwf as Hi. unfold wf in Hi. rewrite Hd in Hi.
  induction n as [|n (IHw & IHd & IHi)].
  - cbn [probes]. rewrite Hd. cbn. repeat split; [done|lia].
  - cbn [probes]. destruct (deadline_ (probes n s)) as [d'|] eqn:E; [|done].
    split; [now apply persist_wf_probe_committed|].
    unfold probe_committed. rewrite E. rewrite Z.ltb_irrefl. cbn -[Z.pow Z.of_nat].
    split; [done|]. rewrite IHi.
    rewrite Nat2Z.inj_succ, Z.pow_succ_r by lia.
    assert (0 < 2 ^ Z.of_nat n) by (apply Z.pow_pos_nonneg; lia).
    cases; lia.
Qed.

(** The persist timer starts after the current RTO, bounded by the 60 s
    ceiling, when the window is zero and data is queued; while that lasts the
    intervals of successive committed probes double up to the ceiling and stay
    there, and the timer never stops by itself; opening the window or emptying
    the queue stops it. *)
Theorem persist_backoff s rto now n :
  wf s -> 0 < rto -> deadline_ s = None ->
  let s0 := update s true true rto now in
  deadline_ s0 = Some (now + Z.min rto Catalog.tcp_persist_maximum)
  /\ has_value (deadline_ (probes n s0)) = true
  /\ interval_ (probes n s0)
     = Z.min Catalog.tcp_persist_maximum (Z.min rto Catalog.tcp_persist_maximum * 2 ^ Z.of_nat n)
  /\ (forall rto' now', update (probes n s0) true true rto' now' = probes n s0)
  /\ (forall z q rto' now', z && q = false -> update (probes n s0) z q rto' now' = initial).
Proof.
  intros W Hr Hd s0.
  assert (s0 = mk (Some (now + Z.min rto Catalog.tcp_persist_maximum))
                 (Z.min rto Catalog.tcp_persist_maximum)) as E0.
  { unfold s0, update. cbn. rewrite Hd. cbn. unfold clamp.
    assert (0 < Catalog.tcp_persist_maximum) by done.
    cases; try lia; do 2 f_equal; lia. }
  assert (wf s0) as W0 by now apply persist_wf_update.
  destruct (persist_probes_interval n s0 _ W0 ltac:(rewrite E0; reflexivity)) as (_ & H1 & H2).
  split_and!.
  - now rewrite E0.
  - done.
  - rewrite H2, E0. done.
  - intros. now apply persist_update_running.
  - intros z q rto' now' Hz. unfold update.
    replace (negb z || negb q) with true by (destruct z, q; done). done.
Qed.

Example persist_backoff_witness :
  interval_ (probes 3 (update initial true true (Catalog.seconds 2) 10)) = Catalog.seconds 16.
Proof. apply (persist_backoff initial (Catalog.seconds 2) 10 3); reflexivity. Defined.

End PersistTimer.
