(* ===== verification/Congestion.v ===== *)
(** * RFC 5681 congestion control (core/src/transport/tcp_congestion.cpp). *)

From S2P Require Import Prelude Checkpoint.

Module CongestionController.

Definition saturating_add (left right : Z) : Z :=
  if u32_max - left <? right then u32_max else left ⊞ right.

Definition saturating_multiply (value factor : Z) : Z :=
  if negb (value =? 0) && (u32_max / value <? factor) then u32_max else u32 (value * factor).

Inductive DuplicateAckAction := none | retransmit_oldest.

Record t := mk {
  sender_mss_ : Z;
  congestion_window_ : Z;
  slow_start_threshold_ : Z;
  duplicate_acknowledgments_ : Z;
  recovery_inflation_limit_ : Z;
  fast_recovery_ : bool;
  sack_recovery_ : bool
}.
#[export] Instance t_settable : Settable t := fun s =>
  mk (sender_mss_ s) (congestion_window_ s) (slow_start_threshold_ s)
     (duplicate_acknowledgments_ s) (recovery_inflation_limit_ s)
     (fast_recovery_ s) (sack_recovery_ s).

Definition initial_window (sender_mss : Z) : Z :=
  if sender_mss =? 0 then 0
  else if 2190 <? sender_mss then saturating_multiply sender_mss 2
  else if 1095 <? sender_mss then saturating_multiply sender_mss 3
  else saturating_multiply sender_mss 4.

Definition construct (sender_mss : Z) : t :=
  let m := Z.max sender_mss 1 in
  mk m (initial_window m) u32_max 0 0 false false.

Definition reduced_threshold (s : t) (flight_size : Z) : Z :=
  Z.max (flight_size / 2) (saturating_multiply (sender_mss_ s) 2).

Definition on_new_ack (s : t) (newly_acknowledged : Z) : t :=
  let s := s <| duplicate_acknowledgments_ := 0 |> <| recovery_inflation_limit_ := 0 |> in
  if sack_recovery_ s then s
  else if fast_recovery_ s then
    s <| congestion_window_ := slow_start_threshold_ s |> <| fast_recovery_ := false |>
  else if newly_acknowledged =? 0 then s
  else if congestion_window_ s <? slow_start_threshold_ s then
    s <| congestion_window_ :=
           saturating_add (congestion_window_ s) (Z.min newly_acknowledged (sender_mss_ s)) |>
  else
    let numerator := u64 (sender_mss_ s * sender_mss_ s) in
    let increment := Z.max (u32 (numerator / congestion_window_ s)) 1 in
    s <| congestion_window_ := saturating_add (congestion_window_ s) increment |>.

Definition on_duplicate_ack (s : t) (flight_size : Z) : DuplicateAckAction * t :=
  let s := s <| duplicate_acknowledgments_ := saturating_add (duplicate_acknowledgments_ s) 1 |> in
  if duplicate_acknowledgments_ s <? 3 then (none, s)
  else if duplicate_acknowledgments_ s =? 3 then
    let s := s <| slow_start_threshold_ := reduced_threshold s flight_size |> in
    let s := s <| congestion_window_ :=
                    saturating_add (slow_start_threshold_ s) (saturating_multiply (sender_mss_ s) 3) |> in
    let s := s <| recovery_inflation_limit_ :=
                    (if sender_mss_ s =? 0 then 0 else flight_size / sender_mss_ s) |> in
    (retransmit_oldest, s <| fast_recovery_ := true |>)
  else if fast_recovery_ s && (duplicate_acknowledgments_ s ⊟ 3 <? recovery_inflation_limit_ s) then
    (none, s <| congestion_window_ := saturating_add (congestion_window_ s) (sender_mss_ s) |>)
  else (none, s).

Definition on_retransmission_timeout (s : t) (flight_size : Z) : t :=
  s <| slow_start_threshold_ := reduced_threshold s flight_size |>
    <| congestion_window_ := sender_mss_ s |>
    <| duplicate_acknowledgments_ := 0 |>
    <| recovery_inflation_limit_ := 0 |>
    <| fast_recovery_ := false |>
    <| sack_recovery_ := false |>.

Definition enter_sack_recovery (s : t) (flight_size : Z) : t :=
  let s := s <| slow_start_threshold_ := reduced_threshold s flight_size |> in
  s <| congestion_window_ := slow_start_threshold_ s |>
    <| duplicate_acknowledgments_ := 0 |>
    <| recovery_inflation_limit_ := 0 |>
    <| fast_recovery_ := true |>
    <| sack_recovery_ := true |>.

Definition on_sack_ack (s : t) (recovery_complete : bool) : t :=
  let s := s <| duplicate_acknowledgments_ := 0 |> <| recovery_inflation_limit_ := 0 |> in
  if negb (sack_recovery_ s) || negb recovery_complete then s
  else s <| congestion_window_ := slow_start_threshold_ s |>
         <| fast_recovery_ := false |>
         <| sack_recovery_ := false |>.

Definition reduce_sender_mss (s : t) (sender_mss : Z) : t :=
  if (sender_mss =? 0) || (sender_mss_ s <=? sender_mss) then s
  else
    let scaled := u32 (u64 (congestion_window_ s * sender_mss) / sender_mss_ s) in
    let s := s <| congestion_window_ := Z.max sender_mss scaled |> in
    let s := s <| recovery_inflation_limit_ :=
                    u32 (u64 (recovery_inflation_limit_ s * sender_mss) / sender_mss_ s) |> in
    s <| sender_mss_ := sender_mss |>.

Definition send_allowance (s : t) (receiver_window flight_size : Z) : Z :=
  let usable_window := Z.min (congestion_window_ s) receiver_window in
  if usable_window <=? flight_size then 0 else usable_window - flight_size.

Record Checkpoint := mkCheckpoint {
  sender_mss : Z;
  congestion_window : Z;
  slow_start_threshold : Z;
  duplicate_acknowledgments : Z;
  recovery_inflation_limit : Z;
  fast_recovery : bool;
  sack_recovery : bool
}.

Definition checkpoint (s : t) : Checkpoint :=
  mkCheckpoint (sender_mss_ s) (congestion_window_ s) (slow_start_threshold_ s)
    (duplicate_acknowledgments_ s) (recovery_inflation_limit_ s)
    (fast_recovery_ s) (sack_recovery_ s).

Definition validate_checkpoint (state : Checkpoint) : bool :=
  if (sender_mss state =? 0) || (congestion_window state =? 0)
     || (slow_start_threshold state =? 0) then false
  else if negb (fast_recovery state)
          && ((3 <=? duplicate_acknowledgments state)
              || negb (recovery_inflation_limit state =? 0)) then false
  else if sack_recovery state
          && (negb (fast_recovery state) || negb (recovery_inflation_limit state =? 0)) then false
  else negb (fast_recovery state) || sack_recovery state
       || (3 <=? duplicate_acknowledgments state).

Definition restore (s : t) (state : Checkpoint) : option t :=
  if negb (validate_checkpoint state) then None
  else Some (s <| sender_mss_ := sender_mss state |>
               <| congestion_window_ := congestion_window state |>
               <| slow_start_threshold_ := slow_start_threshold state |>
               <| duplicate_acknowledgments_ := duplicate_acknowledgments state |>
               <| recovery_inflation_limit_ := recovery_inflation_limit state |>
               <| fast_recovery_ := fast_recovery state |>
               <| sack_recovery_ := sack_recovery state |>).

(** ** Saturating arithmetic *)

Lemma saturating_add_spec a b :
  is_u32 a -> is_u32 b -> saturating_add a b = Z.min u32_max (a + b).
Proof. intros. unfold saturating_add. case_if; word. Qed.

Lemma saturating_multiply_spec a b :
  is_u32 a -> is_u32 b -> saturating_multiply a b = Z.min u32_max (a * b).
Proof.
  intros Ha Hb. unfold saturating_multiply.
  destruct (Z.eqb_spec a 0) as [->|Hz]; cbn [negb andb]; [word|].
  unfold is_u32, u32_max in *. case_if.
  - assert (4294967295 < a * b) by (apply Z.div_lt_upper_bound in E || nia). lia.
  - unfold u32. nia.
Qed.

(** ** The operations as events *)

Inductive event :=
| NewAck (newly_acknowledged : Z)
| DuplicateAck (flight_size : Z)
| Timeout (flight_size : Z)
| EnterSackRecovery (flight_size : Z)
| SackAck (recovery_complete : bool)
| ReduceMss (sender_mss : Z).

Definition apply (s : t) (e : event) : t :=
  match e with
  | NewAck n => on_new_ack s n
  | DuplicateAck f => snd (on_duplicate_ack s f)
  | Timeout f => on_retransmission_timeout s f
  | EnterSackRecovery f => enter_sack_recovery s f
  | SackAck c => on_sack_ack s c
  | ReduceMss m => reduce_sender_mss s m
  end.

(** The sender counts Reno duplicate ACKs only outside SACK recovery and
    reports SACK progress only inside it. *)
Definition enabled (s : t) (e : event) : Prop :=
  match e with
  | NewAck n => is_u32 n
  | DuplicateAck f => is_u32 f /\ sack_recovery_ s = false
  | Timeout f | EnterSackRecovery f => is_u32 f
  | SackAck _ => sack_recovery_ s = true
  | ReduceMss m => is_u32 m
  end.

Definition wf (s : t) : Prop :=
  1 <= sender_mss_ s <= u32_max
  /\ 1 <= congestion_window_ s <= u32_max
  /\ 1 <= slow_start_threshold_ s <= u32_max
  /\ is_u32 (duplicate_acknowledgments_ s)
  /\ is_u32 (recovery_inflation_limit_ s)
  /\ validate_checkpoint (checkpoint s) = true.

Definition step (s : t) (e : event) (s' : t) : Prop := enabled s e /\ s' = apply s e.

(** ** The recovery flags and counters that a checkpoint may hold *)

Definition coherent (s : t) : Prop :=
  (fast_recovery_ s = false ->
     duplicate_acknowledgments_ s < 3 /\ recovery_inflation_limit_ s = 0 /\ sack_recovery_ s = false)
  /\ (sack_recovery_ s = true -> fast_recovery_ s = true /\ recovery_inflation_limit_ s = 0)
  /\ (fast_recovery_ s = true -> sack_recovery_ s = false -> 3 <= duplicate_acknowledgments_ s).

Lemma congestion_validate_coherent s :
  1 <= sender_mss_ s -> 1 <= congestion_window_ s -> 1 <= slow_start_threshold_ s ->
  validate_checkpoint (checkpoint s) = true <-> coherent s.
Proof.
  intros Hm Hc Ht. unfold validate_checkpoint, coherent.
  destruct s as [m c th d l f k]; cbn in *.
  replace (m =? 0) with false by lia. replace (c =? 0) with false by lia.
  replace (th =? 0) with false by lia. cbn [orb].
  destruct f, k; cbn; cases; cbn; naive_solver lia.
Qed.

Definition sized (s : t) : Prop :=
  1 <= sender_mss_ s <= u32_max
  /\ 1 <= congestion_window_ s <= u32_max
  /\ 1 <= slow_start_threshold_ s <= u32_max
  /\ is_u32 (duplicate_acknowledgments_ s)
  /\ is_u32 (recovery_inflation_limit_ s).

Lemma congestion_wf_iff s : wf s <-> sized s /\ coherent s.
Proof.
  unfold wf, sized. split.
  - intros (H1 & H2 & H3 & H4 & H5 & H6). rewrite congestion_validate_coherent in H6 by lia. tauto.
  - intros ((H1 & H2 & H3 & H4 & H5) & H6). rewrite congestion_validate_coherent by lia. tauto.
Qed.

Lemma initial_window_range m :
  1 <= m <= u32_max -> 1 <= initial_window m <= u32_max.
Proof.
  intros Hm. unfold initial_window.
  cases; rewrite ?saturating_multiply_spec by word; word.
Qed.

Lemma reduced_threshold_range s f :
  1 <= sender_mss_ s <= u32_max -> is_u32 f ->
  1 <= reduced_threshold s f <= u32_max
  /\ reduced_threshold s f = Z.max (f / 2) (Z.min u32_max (2 * sender_mss_ s)).
Proof.
  intros Hm Hf. unfold reduced_threshold. rewrite saturating_multiply_spec by word. word.
Qed.

(** ** Preservation *)

Lemma div_range a m : is_u32 a -> 1 <= m -> is_u32 (a / m).
Proof.
  intros Ha Hm. split; [apply Z.div_pos; word|].
  apply Z.div_lt_upper_bound; unfold is_u32 in *; nia.
Qed.

Lemma congestion_wf_construct m : is_u32 m -> wf (construct m).
Proof.
  intros Hm. apply congestion_wf_iff. unfold construct, sized, coherent; cbn.
  pose proof (initial_window_range (Z.max m 1)). word.
Qed.

Lemma congestion_sized_apply s e : sized s -> enabled s e -> sized (apply s e).
Proof.
  intros (Hm & Hc & Ht & Hd & Hl) He. destruct s as [m c th d l f k]; cbn in *.
  destruct e as [n|fl|fl|fl|b|m']; cbn in He |- *.
  - unfold on_new_ack; cbn. cases; unfold sized; cbn;
      rewrite ?saturating_add_spec by word; word.
  - destruct He as [He _]. unfold on_duplicate_ack; cbn.
    rewrite (saturating_add_spec d) by word.
    destruct (reduced_threshold_range (mk m c th (Z.min u32_max (d + 1)) l f k) fl Hm He)
      as [Hr _].
    pose proof (div_range fl m He ltac:(lia)). cbn in Hr.
    cases; unfold sized; cbn -[reduced_threshold];
      rewrite ?saturating_multiply_spec by word; rewrite ?saturating_add_spec by word;
      repeat split; word.
  - unfold on_retransmission_timeout, sized; cbn.
    pose proof (reduced_threshold_range (mk m c th d l f k) fl Hm He); cbn in *. word.
  - unfold enter_sack_recovery, sized; cbn.
    pose proof (reduced_threshold_range (mk m c th d l f k) fl Hm He); cbn in *. word.
  - unfold on_sack_ack, sized; cbn. cases; cbn; word.
  - unfold reduce_sender_mss, sized; cbn. cases; cbn; try word.
Qed.

(** Instantiates the implications of [coherent] whose premise is decided. *)
Ltac recovery_cases :=
  repeat match goal with
  | H : ?b = ?b -> _ |- _ => specialize (H eq_refl)
  | H : true = false -> _ |- _ => clear H
  | H : false = true -> _ |- _ => clear H
  end;
  destruct_and?; try discriminate;
  repeat split; intros; try discriminate; unfold u32_max in *; try lia.

Lemma congestion_coherent_apply s e : sized s -> coherent s -> enabled s e -> coherent (apply s e).
Proof.
  intros (Hm & Hc & Ht & Hd & Hl) (H1 & H2 & H3) He.
  destruct s as [m c th d l f k]; cbn in *.
  destruct e as [n|fl|fl|fl|b|m']; cbn in He |- *; unfold coherent.
  - unfold on_new_ack; cbn. destruct k, f; cbn; cases; cbn; recovery_cases.
  - destruct He as [He ->]. unfold on_duplicate_ack; cbn.
    rewrite saturating_add_spec by word. destruct f; cbn in *; cases; cbn; recovery_cases.
  - cbn. recovery_cases.
  - cbn. recovery_cases.
  - subst k. unfold on_sack_ack; cbn. destruct f, b; cbn; recovery_cases.
  - unfold reduce_sender_mss; cbn. case_if; cbn; [done|].
    destruct f, k; cbn; recovery_cases; subst; reflexivity.
Qed.

Lemma congestion_wf_apply s e : wf s -> enabled s e -> wf (apply s e).
Proof. rewrite !congestion_wf_iff. intros [??] ?. split; [now apply congestion_sized_apply|now apply congestion_coherent_apply]. Qed.

Definition init (s : t) : Prop := exists m, is_u32 m /\ s = construct m.

Lemma congestion_wf_reachable s : reachable init step s -> wf s.
Proof.
  apply invariant_reachable.
  - intros ? (m & Hm & ->). now apply congestion_wf_construct.
  - intros ??? H [He ->]. now apply congestion_wf_apply.
Qed.

Lemma congestion_restore_checkpoint live s : wf s -> restore live (checkpoint s) = Some s.
Proof. intros (_&_&_&_&_&H). unfold restore. rewrite H. now destruct s. Qed.

#[export] Instance checkpointed : Checkpointed t Checkpoint := {
  ck_wf s _ := wf s;
  ck_fits _ _ := True;
  ck_save s _ := checkpoint s;
  ck_load live c _ := restore live c;
  ck_norm s _ := s;
  ck_load_save live s now H _ := congestion_restore_checkpoint live s H }.

(** ** Properties *)

(** Every state the controller reaches from construction under the events
    its owner delivers keeps all its fields in range, and its checkpoint is
    accepted by [restore] and continues in exactly that state. *)
Theorem congestion_checkpoint_reachable live s :
  reachable init step s -> wf s /\ restore live (checkpoint s) = Some s.
Proof.
  intros Hs. apply congestion_wf_reachable in Hs.
  split; [done|now apply congestion_restore_checkpoint].
Qed.

(** Outside recovery an ACK of new data never shrinks the congestion window
    and grows it by at most one SMSS, whether in slow start or in congestion
    avoidance; with the window below 2^32-1 it grows by at least one octet. *)
Theorem congestion_ack_growth s n :
  wf s -> is_u32 n -> n <> 0 -> fast_recovery_ s = false ->
  sender_mss_ s <= congestion_window_ s ->
  let s' := on_new_ack s n in
  congestion_window_ s <= congestion_window_ s' <= congestion_window_ s + sender_mss_ s
  /\ (congestion_window_ s < u32_max -> congestion_window_ s < congestion_window_ s').
Proof.
  intros Hwf Hn Hn0 Hf Hmc. apply congestion_wf_iff in Hwf as [(Hm & Hc & Ht & _ & _) (H1 & _ & _)].
  destruct (H1 Hf) as (_ & _ & Hk). destruct s as [m c th d l f k]; cbn in *. subst f k.
  unfold on_new_ack; cbn. replace (n =? 0) with false by lia.
  case_if; cbn; [rewrite saturating_add_spec by word; word|].
  assert (Hq : 0 <= u64 (m * m) / c <= m).
  { unfold u64, u32_max in *. rewrite Z.mod_small by nia.
    split; [apply Z.div_pos; nia|]. apply Z.div_le_upper_bound; nia. }
  assert (u32 (u64 (m * m) / c) = u64 (m * m) / c) as -> by word.
  rewrite saturating_add_spec by word. word.
Qed.

(** [n] duplicate ACKs in a row, with the same data outstanding. *)
Fixpoint dup_acks (n : nat) (s : t) (flight_size : Z) : t :=
  match n with
  | O => s
  | S n => snd (on_duplicate_ack (dup_acks n s flight_size) flight_size)
  end.

Definition halved (m f : Z) : Z := Z.max (f / 2) (Z.min u32_max (2 * m)).

(** One duplicate ACK, with the saturation written out. *)
Lemma on_duplicate_ack_spec m c th d l fr sr f :
  sized (mk m c th d l fr sr) -> is_u32 f -> d < u32_max ->
  on_duplicate_ack (mk m c th d l fr sr) f =
    if d + 1 <? 3 then (none, mk m c th (d + 1) l fr sr)
    else if d + 1 =? 3 then
      (retransmit_oldest,
       mk m (Z.min u32_max (halved m f + Z.min u32_max (3 * m))) (halved m f) 3 (f / m) true sr)
    else if fr && (d - 2 <? l) then
      (none, mk m (Z.min u32_max (c + m)) th (d + 1) l fr sr)
    else (none, mk m c th (d + 1) l fr sr).
Proof.
  intros (Hm & Hc & Ht & Hd & Hl) Hf Hmax; cbn in *. unfold on_duplicate_ack; cbn.
  rewrite saturating_add_spec by word. replace (Z.min u32_max (d + 1)) with (d + 1) by lia.
  case_if; [done|]. case_if.
  - unfold reduced_threshold; cbn. rewrite !saturating_multiply_spec by word.
    replace (m * 3) with (3 * m) by lia. replace (m * 2) with (2 * m) by lia.
    fold (halved m f). rewrite saturating_add_spec by (unfold halved; word).
    replace (m =? 0) with false by lia. do 2 f_equal. lia.
  - replace ((d + 1) ⊟ 3) with (d - 2) by word.
    case_if; cbn; [|done]. now rewrite saturating_add_spec by word.
Qed.

(** The state of fast recovery after the third duplicate ACK and [k] more. *)
Lemma dup_acks_state k s f :
  wf s -> fast_recovery_ s = false -> duplicate_acknowledgments_ s = 0 ->
  is_u32 f -> Z.of_nat k + 3 < u32_max ->
  let m := sender_mss_ s in
  let inflation := Z.max 0 (Z.min (Z.of_nat k) (f / m - 1)) in
  dup_acks (3 + k) s f =
    mk m (Z.min u32_max (halved m f + Z.min u32_max (3 * m) + inflation * m)) (halved m f)
       (3 + Z.of_nat k) (f / m) true false.
Proof.
  intros Hwf Hf Hd Hfl Hk. cbv zeta.
  apply congestion_wf_iff in Hwf as [(Hm & Hc & Ht & _ & Hl) (H1 & _ & _)].
  destruct (H1 Hf) as (_ & _ & Hs). destruct s as [m c th d l fr sr]; cbn in *. subst.
  pose proof (div_range f m Hfl ltac:(lia)) as Hdiv.
  assert (1 <= halved m f <= u32_max) by (unfold halved; word).
  induction k as [|k IH].
  - cbn [Nat.add dup_acks].
    rewrite on_duplicate_ack_spec by (done || (unfold sized; cbn; word)).
    change (0 + 1 <? 3) with true. cbn [snd].
    rewrite on_duplicate_ack_spec by (done || (unfold sized; cbn; word)).
    change (0 + 1 + 1 <? 3) with true. cbn [snd].
    rewrite on_duplicate_ack_spec by (done || (unfold sized; cbn; word)).
    change (0 + 1 + 1 + 1 <? 3) with false. change (0 + 1 + 1 + 1 =? 3) with true. cbn [snd].
    f_equal; lia.
  - change (3 + S k)%nat with (S (3 + k)). cbn [dup_acks]. rewrite IH by lia. clear IH.
    rewrite on_duplicate_ack_spec
      by first [done|unfold sized; cbn -[Z.of_nat]; repeat split; word || nia | word].
    cases; cbn [snd]; try lia; f_equal; try lia; nia.
Qed.

(** Fast retransmit and fast recovery.  Of a run of duplicate ACKs outside
    recovery only the third asks for a retransmission; after [3 + k] of them
    ssthresh is half the flight, at least two SMSS, and cwnd is ssthresh plus
    three SMSS plus one SMSS for each further ACK, of which no more are counted
    than the segments that were outstanding. *)
Theorem congestion_fast_recovery k s f :
  wf s -> fast_recovery_ s = false -> duplicate_acknowledgments_ s = 0 ->
  is_u32 f -> Z.of_nat k + 3 < u32_max ->
  let m := sender_mss_ s in
  let s' := dup_acks (3 + k) s f in
  fst (on_duplicate_ack s f) = none
  /\ fst (on_duplicate_ack (dup_acks 1 s f) f) = none
  /\ fst (on_duplicate_ack (dup_acks 2 s f) f) = retransmit_oldest
  /\ fst (on_duplicate_ack s' f) = none
  /\ fast_recovery_ s' = true
  /\ slow_start_threshold_ s' = Z.max (f / 2) (Z.min u32_max (2 * m))
  /\ congestion_window_ s'
     = Z.min u32_max (slow_start_threshold_ s' + Z.min u32_max (3 * m)
                      + Z.max 0 (Z.min (Z.of_nat k) (f / m - 1)) * m).
Proof.
  intros Hwf Hf Hd Hfl Hk. cbv zeta.
  rewrite dup_acks_state by done. cbn [fast_recovery_ slow_start_threshold_ congestion_window_].
  apply congestion_wf_iff in Hwf as [(Hm & Hc & Ht & _ & Hl) (H1 & _ & _)].
  destruct s as [m c th d l fr sr]; cbn in Hf, Hd, Hm. subst d fr.
  repeat split.
  unfold on_duplicate_ack; cbn -[Z.of_nat].
  rewrite (saturating_add_spec (3 + _)) by word. cases; try reflexivity; lia.
Qed.

Definition sample : t := mk 1000 10000 8000 0 0 false false.

Lemma congestion_sample_wf : wf sample.
Proof. repeat split; vm_compute; congruence || reflexivity. Qed.

Example congestion_fast_recovery_witness :
  congestion_window_ (dup_acks 5 sample 10000) = 10000.
Proof.
  destruct (congestion_fast_recovery 2 sample 10000 congestion_sample_wf eq_refl eq_refl)
    as (_ & _ & _ & _ & _ & Ht & Hc).
  - vm_compute. split; congruence.
  - reflexivity.
  - etransitivity; [exact Hc|]. rewrite Ht. reflexivity.
Defined.

Example congestion_ack_growth_witness :
  congestion_window_ (on_new_ack sample 1000) <= 11000.
Proof.
  apply (congestion_ack_growth sample 1000 congestion_sample_wf).
  - vm_compute. split; congruence.
  - congruence.
  - reflexivity.
  - vm_compute. congruence.
Defined.

Example congestion_checkpoint_reachable_witness :
  restore sample (checkpoint (construct 1460)) = Some (construct 1460).
Proof.
  apply (congestion_checkpoint_reachable sample (construct 1460)).
  apply reachable_init. exists 1460. split; [vm_compute; split; congruence|reflexivity].
Defined.

End CongestionController.
