(* ===== verification/Retransmission.v ===== *)
(** * The RFC 6298 retransmission timeout
    (core/src/transport/tcp_retransmission.cpp).

    Durations are signed 64-bit counts in C++; [Z.quot] is their division. *)

From S2P Require Import Prelude Catalog Checkpoint.

Module RetransmissionEstimator.

Inductive RttSampleResult := accepted | ignored_retransmission_ambiguity | invalid.

Record t := mk {
  smoothed_rtt_ : Z;
  rtt_variation_ : Z;
  timeout_ : Z;
  measurement_present_ : bool;
  syn_retransmitted_ : bool
}.
#[export] Instance t_settable : Settable t := fun s =>
  mk (smoothed_rtt_ s) (rtt_variation_ s) (timeout_ s)
     (measurement_present_ s) (syn_retransmitted_ s).

Definition initial_timeout : Z := Catalog.tcp_rto_initial.
Definition minimum_timeout : Z := Catalog.tcp_rto_minimum.
Definition maximum_timeout : Z := Catalog.tcp_rto_maximum.
Definition clock_granularity : Z := Catalog.tcp_rto_clock_granularity.

Definition construct : t := mk 0 0 initial_timeout false false.

(** [std::clamp] *)
Definition clamp (v lo hi : Z) : Z := if v <? lo then lo else if hi <? v then hi else v.

Definition bounded_timeout (smoothed variation : Z) : Z :=
  let maximum := maximum_timeout in
  if maximum <=? smoothed then maximum
  else if cdiv (maximum - smoothed) 4 <? variation then maximum
  else
    let variance_term := Z.max clock_granularity (variation * 4) in
    if maximum - smoothed <? variance_term then maximum
    else clamp (smoothed + variance_term) minimum_timeout maximum.

Definition observe (s : t) (sample : Z)
    (segment_was_retransmitted timestamp_removes_ambiguity : bool) : RttSampleResult * t :=
  if sample <=? 0 then (invalid, s)
  else if segment_was_retransmitted && negb timestamp_removes_ambiguity then
    (ignored_retransmission_ambiguity, s)
  else
    let s :=
      if negb (measurement_present_ s) then
        s <| smoothed_rtt_ := sample |>
          <| rtt_variation_ := cdiv sample 2 |>
          <| measurement_present_ := true |>
      else
        let difference := if smoothed_rtt_ s <=? sample
                          then sample - smoothed_rtt_ s else smoothed_rtt_ s - sample in
        let s := s <| rtt_variation_ :=
                        rtt_variation_ s + cdiv (difference - rtt_variation_ s) 4 |> in
        s <| smoothed_rtt_ := smoothed_rtt_ s + cdiv (sample - smoothed_rtt_ s) 8 |> in
    (accepted, s <| timeout_ := bounded_timeout (smoothed_rtt_ s) (rtt_variation_ s) |>).

Definition on_timeout (s : t) (waiting_for_syn : bool) : Z * t :=
  let maximum := maximum_timeout in
  let s := s <| timeout_ := if cdiv maximum 2 <=? timeout_ s then maximum else timeout_ s * 2 |> in
  let s := s <| syn_retransmitted_ := syn_retransmitted_ s || waiting_for_syn |> in
  (timeout_ s, s).

Definition on_handshake_complete (s : t) : t :=
  let s := if syn_retransmitted_ s
           then s <| timeout_ := Z.max (timeout_ s) Catalog.tcp_rto_after_syn_retransmission |>
           else s in
  s <| syn_retransmitted_ := false |>.

Record Checkpoint := mkCheckpoint {
  smoothed_rtt_nanoseconds : Z;
  rtt_variation_nanoseconds : Z;
  timeout_nanoseconds : Z;
  measurement_present : bool;
  syn_retransmitted : bool
}.

Definition checkpoint (s : t) : Checkpoint :=
  mkCheckpoint (smoothed_rtt_ s) (rtt_variation_ s) (timeout_ s)
    (measurement_present_ s) (syn_retransmitted_ s).

Definition validate_checkpoint (state : Checkpoint) : bool :=
  if (timeout_nanoseconds state <? minimum_timeout)
     || (maximum_timeout <? timeout_nanoseconds state)
     || (smoothed_rtt_nanoseconds state <? 0)
     || (rtt_variation_nanoseconds state <? 0) then false
  else measurement_present state
       || ((smoothed_rtt_nanoseconds state =? 0) && (rtt_variation_nanoseconds state =? 0)).

Definition restore (s : t) (state : Checkpoint) : option t :=
  if negb (validate_checkpoint state) then None
  else Some (s <| smoothed_rtt_ := smoothed_rtt_nanoseconds state |>
               <| rtt_variation_ := rtt_variation_nanoseconds state |>
               <| timeout_ := timeout_nanoseconds state |>
               <| measurement_present_ := measurement_present state |>
               <| syn_retransmitted_ := syn_retransmitted state |>).

(** ** Invariant *)

Definition wf (s : t) : Prop :=
  minimum_timeout <= timeout_ s <= maximum_timeout
  /\ 0 <= smoothed_rtt_ s /\ 0 <= rtt_variation_ s
  /\ (measurement_present_ s = false -> smoothed_rtt_ s = 0 /\ rtt_variation_ s = 0).

Ltac constants :=
  unfold initial_timeout, minimum_timeout, maximum_timeout, clock_granularity,
    Catalog.tcp_rto_initial, Catalog.tcp_rto_minimum, Catalog.tcp_rto_maximum,
    Catalog.tcp_rto_clock_granularity, Catalog.tcp_rto_after_syn_retransmission,
    Catalog.milliseconds in *.

(** The guarded computation is the RFC 6298 formula
    [SRTT + max(G, 4 * RTTVAR)] clamped to the profile's bounds. *)
Lemma bounded_timeout_spec smoothed variation :
  0 <= smoothed -> 0 <= variation ->
  bounded_timeout smoothed variation
  = Z.max minimum_timeout
      (Z.min maximum_timeout (smoothed + Z.max clock_granularity (4 * variation))).
Proof.
  intros. unfold bounded_timeout, clamp. constants. cases; lia.
Qed.

Inductive event :=
| Observe (sample : Z) (retransmitted timestamped : bool)
| TimedOut (waiting_for_syn : bool)
| HandshakeComplete.

Definition apply (s : t) (e : event) : t :=
  match e with
  | Observe r x y => snd (observe s r x y)
  | TimedOut w => snd (on_timeout s w)
  | HandshakeComplete => on_handshake_complete s
  end.

(** The estimator after a first and after a later accepted sample. *)
Lemma observe_accepted s sample x y :
  fst (observe s sample x y) = accepted ->
  0 < sample /\
  let s' := snd (observe s sample x y) in
  timeout_ s' = bounded_timeout (smoothed_rtt_ s') (rtt_variation_ s')
  /\ measurement_present_ s' = true
  /\ if measurement_present_ s
     then smoothed_rtt_ s' = smoothed_rtt_ s + cdiv (sample - smoothed_rtt_ s) 8
          /\ rtt_variation_ s'
             = rtt_variation_ s + cdiv (Z.abs (sample - smoothed_rtt_ s) - rtt_variation_ s) 4
     else smoothed_rtt_ s' = sample /\ rtt_variation_ s' = cdiv sample 2.
Proof.
  unfold observe. destruct s as [r v o [|] sy]; cbn;
    case_if; try discriminate; case_if; try discriminate; cbn; intros _; repeat split;
    try lia; cases; f_equal; f_equal; lia.
Qed.

Lemma observe_ignored s sample x y :
  fst (observe s sample x y) <> accepted -> snd (observe s sample x y) = s.
Proof. unfold observe. cases; cbn; congruence. Qed.

Lemma estimator_wf_apply s e : wf s -> wf (apply s e).
Proof.
  intros (Ht & Hs & Hv & Hm). destruct e as [r x y|w|]; cbn [apply].
  - destruct (fst (observe s r x y)) eqn:E;
      [|rewrite observe_ignored by congruence; repeat split; tauto..].
    pose proof (observe_accepted s r x y E) as (Hr & Ho & Hp & Hcase).
    set (s' := snd (observe s r x y)) in *.
    assert (0 <= smoothed_rtt_ s' /\ 0 <= rtt_variation_ s') as [Hs' Hv'].
    { destruct (measurement_present_ s), Hcase as [-> ->]; lia. }
    unfold wf. rewrite Ho, bounded_timeout_spec, Hp by done. constants. repeat split; lia || done.
  - unfold on_timeout, wf. cbn. constants. cases; repeat split; lia || tauto.
  - unfold on_handshake_complete, wf. destruct (syn_retransmitted_ s); cbn; constants;
      repeat split; lia || tauto.
Qed.

Lemma estimator_wf_construct : wf construct.
Proof. repeat split; vm_compute; congruence. Qed.

Lemma estimator_restore_checkpoint live s : wf s -> restore live (checkpoint s) = Some s.
Proof.
  intros (Ht & Hs & Hv & Hm). unfold restore, validate_checkpoint. cbn.
  replace (timeout_ s <? minimum_timeout) with false by lia.
  replace (maximum_timeout <? timeout_ s) with false by lia.
  replace (smoothed_rtt_ s <? 0) with false by lia.
  replace (rtt_variation_ s <? 0) with false by lia. cbn [orb].
  destruct s as [r v o m sy]; cbn in *. destruct m; cbn; [done|].
  destruct (Hm eq_refl) as [-> ->]. done.
Qed.

#[export] Instance checkpointed : Checkpointed t Checkpoint := {
  ck_wf s _ := wf s;
  ck_fits _ _ := True;
  ck_save s _ := checkpoint s;
  ck_load live c _ := restore live c;
  ck_norm s _ := s;
  ck_load_save live s now H _ := estimator_restore_checkpoint live s H }.

(** [n] timer expiries in a row. *)
Fixpoint timeouts (n : nat) (s : t) : t :=
  match n with O => s | S n => snd (on_timeout (timeouts n s) false) end.

(** ** Properties *)

(** The overflow-guarded timeout computation agrees with the RFC 6298
    formula on every state, an accepted sample moves SRTT towards the sample by
    an eighth and RTTVAR towards the deviation by a quarter, and every quantity
    the C++ code computes on the way stays inside the signed 64-bit range when
    the sample does. *)
Theorem rto_observe_spec s sample x y :
  wf s -> smoothed_rtt_ s < 2 ^ 63 -> rtt_variation_ s < 2 ^ 63 -> sample < 2 ^ 63 ->
  fst (observe s sample x y) = accepted ->
  let s' := snd (observe s sample x y) in
  timeout_ s' = Z.max minimum_timeout (Z.min maximum_timeout
                  (smoothed_rtt_ s' + Z.max clock_granularity (4 * rtt_variation_ s')))
  /\ (measurement_present_ s = true ->
        Z.min (smoothed_rtt_ s) sample <= smoothed_rtt_ s' <= Z.max (smoothed_rtt_ s) sample
        /\ 8 * Z.abs (smoothed_rtt_ s' - smoothed_rtt_ s) <= Z.abs (sample - smoothed_rtt_ s)
           < 8 * Z.abs (smoothed_rtt_ s' - smoothed_rtt_ s) + 8)
  /\ 0 <= smoothed_rtt_ s' < 2 ^ 63 /\ 0 <= rtt_variation_ s' < 2 ^ 63
  /\ - 2 ^ 63 <= sample - smoothed_rtt_ s < 2 ^ 63
  /\ - 2 ^ 63 <= Z.abs (sample - smoothed_rtt_ s) - rtt_variation_ s < 2 ^ 63.
Proof.
  intros (Ht & Hs & Hv & Hm) Bs Bv Br E.
  pose proof (observe_accepted s sample x y E) as (Hr & Ho & Hp & Hcase). cbv zeta.
  set (s' := snd (observe s sample x y)) in *.
  assert (0 <= smoothed_rtt_ s' < 2 ^ 63 /\ 0 <= rtt_variation_ s' < 2 ^ 63) as [Hs' Hv'].
  { change (2 ^ 63) with 9223372036854775808 in *.
    destruct (measurement_present_ s), Hcase as [-> ->]; lia. }
  rewrite Ho, bounded_timeout_spec by tauto.
  change (2 ^ 63) with 9223372036854775808 in *.
  split; [done|]. split; [|lia].
  intros Hpres. rewrite Hpres in Hcase. destruct Hcase as [-> _]. lia.
Qed.

(** Every reachable timeout lies between the profile's minimum and maximum,
    and [n] expiries multiply it by [2^n] up to the maximum. *)
Theorem rto_backoff n s :
  wf s ->
  wf (timeouts n s) /\ timeout_ (timeouts n s) = Z.min maximum_timeout (timeout_ s * 2 ^ Z.of_nat n).
Proof.
  intros Hwf. induction n as [|n [IHw IH]].
  - cbn [timeouts]. split; [done|]. destruct Hwf as [Ht _]. cbn. lia.
  - split; [apply (estimator_wf_apply _ (TimedOut false)), IHw|].
    cbn [timeouts]. unfold on_timeout. cbn -[Z.pow Z.of_nat]. rewrite IH.
    rewrite Nat2Z.inj_succ, Z.pow_succ_r by lia.
    assert (0 < 2 ^ Z.of_nat n) by (apply Z.pow_pos_nonneg; lia).
    destruct Hwf as [Ht _]. constants. cases; nia.
Qed.

Example rto_backoff_witness : timeout_ (timeouts 4 construct) = Catalog.seconds 16.
Proof. destruct (rto_backoff 4 construct estimator_wf_construct) as [_ ->]. reflexivity. Defined.

Example rto_observe_spec_witness :
  timeout_ (snd (observe construct (Catalog.milliseconds 800) false false)) = Catalog.milliseconds 2400.
Proof.
  destruct (rto_observe_spec construct (Catalog.milliseconds 800) false false
              estimator_wf_construct) as [-> _]; reflexivity.
Defined.

End RetransmissionEstimator.
