(* ===== verification/Failure.v ===== *)
(** * The excessive-retransmission policy R1/R2
    (core/src/transport/tcp_failure.cpp). *)

From S2P Require Import Prelude Sequence Catalog Checkpoint.

Module FailureDetector.

Inductive FailureAction := none | negative_ip_advice | abort_connection.

#[export] Instance FailureAction_eq_dec : EqDecision FailureAction.
Proof. solve_decision. Defined.

Record t := mk {
  first_transmitted_at_ : Z;
  data_r2_ : option Z;
  segment_first_ : Z;
  segment_end_ : Z;
  retransmissions_ : Z;
  active_ : bool;
  syn_ : bool;
  negative_advice_reported_ : bool
}.
#[export] Instance t_settable : Settable t := fun s =>
  mk (first_transmitted_at_ s) (data_r2_ s) (segment_first_ s) (segment_end_ s)
     (retransmissions_ s) (active_ s) (syn_ s) (negative_advice_reported_ s).

Definition initial : t := mk 0 (Some Catalog.tcp_failure_data_r2) 0 0 0 false false false.

Definition set_data_r2 (s : t) (timeout : option Z) : bool * t :=
  match timeout with
  | Some d => if d <=? 0 then (false, s) else (true, s <| data_r2_ := timeout |>)
  | None => (true, s <| data_r2_ := timeout |>)
  end.

Definition begin_ (s : t) (first end_ : Z) (syn : bool) (now : Z) : bool * t :=
  let length := end_ ⊟ first in
  if (length =? 0) || (two30 <? length) then (false, s)
  else (true, s <| segment_first_ := first |>
                <| segment_end_ := end_ |>
                <| retransmissions_ := 0 |>
                <| first_transmitted_at_ := now |>
                <| active_ := true |>
                <| syn_ := syn |>
                <| negative_advice_reported_ := false |>).

Definition active_r2 (s : t) : option Z :=
  if negb (active_ s) then None
  else if syn_ s then Some Catalog.tcp_failure_syn_r2 else data_r2_ s.

Definition retransmitted (s : t) (first end_ now : Z) : FailureAction * t :=
  if negb (active_ s) || negb (first =? segment_first_ s) || negb (end_ =? segment_end_ s)
     || (now <? first_transmitted_at_ s)
  then (none, s)
  else
    let s := if negb (retransmissions_ s =? u32_max)
             then s <| retransmissions_ := retransmissions_ s + 1 |> else s in
    if match active_r2 s with
       | Some r2 => r2 <=? now - first_transmitted_at_ s
       | None => false
       end
    then (abort_connection, s)
    else if negb (negative_advice_reported_ s)
            && (Catalog.tcp_failure_r1_retransmissions <=? retransmissions_ s)
    then (negative_ip_advice, s <| negative_advice_reported_ := true |>)
    else (none, s).

Definition reset (s : t) : t :=
  s <| first_transmitted_at_ := 0 |>
    <| segment_first_ := 0 |>
    <| segment_end_ := 0 |>
    <| retransmissions_ := 0 |>
    <| active_ := false |>
    <| syn_ := false |>
    <| negative_advice_reported_ := false |>.

Definition acknowledge (s : t) (acknowledgment : Z) : t :=
  if negb (active_ s) then s
  else if Sequence.before_or_equal (segment_end_ s) acknowledgment then reset s
  else if Sequence.after acknowledgment (segment_first_ s)
       then s <| segment_first_ := acknowledgment |>
       else s.

Definition service (s : t) (now : Z) : FailureAction :=
  match active_r2 s with
  | Some r2 => if (first_transmitted_at_ s <=? now) && (r2 <=? now - first_transmitted_at_ s)
               then abort_connection else none
  | None => none
  end.

Definition deadline (s : t) : option Z :=
  match active_r2 s with Some r2 => Some (first_transmitted_at_ s + r2) | None => None end.

Record Checkpoint := mkCheckpoint {
  segment_first : Z;
  segment_end : Z;
  retransmissions : Z;
  segment_age_nanoseconds : Z;
  data_r2_nanoseconds : Z;
  active : bool;
  syn : bool;
  negative_advice_reported : bool;
  data_r2_infinite : bool
}.

Definition checkpoint (s : t) (now : Z) : Checkpoint :=
  let age := if active_ s && (first_transmitted_at_ s <? now)
             then now - first_transmitted_at_ s else 0 in
  let data_r2 := value_or 0 (data_r2_ s) in
  mkCheckpoint (segment_first_ s) (segment_end_ s) (retransmissions_ s) age data_r2
    (active_ s) (syn_ s) (negative_advice_reported_ s) (negb (has_value (data_r2_ s))).

Definition validate_checkpoint (state : Checkpoint) : bool :=
  if (segment_age_nanoseconds state <? 0) || (data_r2_nanoseconds state <? 0)
     || (data_r2_infinite state && negb (data_r2_nanoseconds state =? 0))
     || (negb (data_r2_infinite state) && (data_r2_nanoseconds state =? 0)) then false
  else if negb (active state) then
    (segment_first state =? 0) && (segment_end state =? 0) && (retransmissions state =? 0)
    && (segment_age_nanoseconds state =? 0) && negb (syn state)
    && negb (negative_advice_reported state)
  else
    let length := segment_end state ⊟ segment_first state in
    if (length =? 0) || (two30 <? length) then false
    else negb (negative_advice_reported state)
         || (Catalog.tcp_failure_r1_retransmissions <=? retransmissions state).

(** A time point counts nanoseconds since the clock's epoch. *)
Definition restore (s : t) (state : Checkpoint) (now : Z) : option t :=
  if negb (validate_checkpoint state) then None
  else
    let age := segment_age_nanoseconds state in
    if now <? age then None
    else Some (s <| data_r2_ := if data_r2_infinite state then None
                                else Some (data_r2_nanoseconds state) |>
                 <| segment_first_ := segment_first state |>
                 <| segment_end_ := segment_end state |>
                 <| retransmissions_ := retransmissions state |>
                 <| first_transmitted_at_ := now - age |>
                 <| active_ := active state |>
                 <| syn_ := syn state |>
                 <| negative_advice_reported_ := negative_advice_reported state |>).

(** ** Invariant *)

(** A tracked interval is non-empty and within the serial-arithmetic domain;
    an idle detector holds no per-segment evidence; advice was only reported
    after R1 retransmissions; a finite data R2 is positive. *)
Definition wf (s : t) (now : Z) : Prop :=
  (match data_r2_ s with Some d => 0 < d | None => True end)
  /\ 0 <= first_transmitted_at_ s <= now
  /\ if active_ s then
       is_u32 (segment_first_ s) /\ is_u32 (segment_end_ s)
       /\ 0 < segment_end_ s ⊟ segment_first_ s <= two30
       /\ is_u32 (retransmissions_ s)
       /\ (negative_advice_reported_ s = true ->
             Catalog.tcp_failure_r1_retransmissions <= retransmissions_ s)
     else segment_first_ s = 0 /\ segment_end_ s = 0 /\ retransmissions_ s = 0
          /\ syn_ s = false /\ negative_advice_reported_ s = false.

Lemma failure_wf_initial now : 0 <= now -> wf initial now.
Proof. intros. repeat split; cbn; lia || done. Qed.

Lemma failure_wf_reset s now : 0 <= now -> wf s now -> wf (reset s) now.
Proof. intros ? (H & _). repeat split; cbn; lia || done. Qed.

Lemma failure_wf_begin s first end_ syn now now' :
  wf s now' -> 0 <= now' <= now -> is_u32 first -> is_u32 end_ ->
  wf (snd (begin_ s first end_ syn now)) now.
Proof.
  intros (H & Ht & Hs) Hn Hf He. unfold begin_.
  case_if; cbn; [repeat split; [done|lia|lia|done]|].
  unfold wf; cbn. pose proof (u32_range (end_ - first)).
  split; [done|]. unfold is_u32 in *. repeat split; try lia.
Qed.

Lemma failure_wf_retransmitted s first end_ now now' :
  wf s now' -> now' <= now -> wf (snd (retransmitted s first end_ now)) now.
Proof.
  intros (H & Ht & Hs) Hn. unfold retransmitted.
  destruct (active_ s) eqn:Ea; cbn [negb orb]; [|unfold wf; cbn; rewrite Ea; intuition lia].
  destruct Hs as (Hf & He & Hl & Hr & Hng).
  case_if; [unfold wf; cbn; rewrite Ea; intuition lia|].
  set (s1 := if negb (retransmissions_ s =? u32_max) then _ else s).
  assert (wf s1 now /\ retransmissions_ s <= retransmissions_ s1) as [Hwf1 _].
  { unfold s1. case_if; unfold wf; cbn; rewrite Ea; repeat split; try tauto; try lia;
      try (specialize (Hng H0)); unfold is_u32, u32_max in *; lia. }
  cbv zeta. case_if; [done|]. case_if; [|done]. cbn [snd].
  destruct Hwf1 as (? & ? & H1). unfold wf. cbn.
  destruct (active_ s1); [intuition|].
  unfold Catalog.tcp_failure_r1_retransmissions in *; lia.
Qed.

(** The serial position of a cumulative ACK relative to the tracked segment. *)
Lemma tracked_ack first end_ ack :
  is_u32 first -> is_u32 end_ -> is_u32 ack -> 0 < end_ ⊟ first <= two30 ->
  Sequence.before_or_equal end_ ack = false -> Sequence.after ack first = true ->
  0 < ack ⊟ first < end_ ⊟ first.
Proof.
  unfold Sequence.before_or_equal, Sequence.after, Sequence.before, Sequence.half_space.
  intros. bool_to_prop. destruct (negb (end_ =? ack)) eqn:?; bool_to_prop; cbn [andb] in *; bool_to_prop; word.
Qed.

Lemma failure_wf_acknowledge s ack now :
  0 <= now -> is_u32 ack -> wf s now -> wf (acknowledge s ack) now.
Proof.
  intros Hnow Hack Hwf. unfold acknowledge.
  destruct (active_ s) eqn:Ea; cbn [negb]; [|done].
  destruct (Sequence.before_or_equal _ _) eqn:E1; [now apply failure_wf_reset|].
  destruct (Sequence.after _ _) eqn:E2; [|done].
  destruct Hwf as (H & Ht & Hs). rewrite Ea in Hs. destruct Hs as (Hf & He & Hl & Hr & Hng).
  pose proof (tracked_ack _ _ _ Hf He Hack Hl E1 E2).
  unfold wf; cbn. rewrite Ea. repeat split; try done; try lia; word.
Qed.

(** ** Checkpoints *)

Definition norm (s : t) (now : Z) : t :=
  s <| first_transmitted_at_ := if active_ s then first_transmitted_at_ s else now |>.

Lemma failure_restore_checkpoint live s now :
  wf s now -> restore live (checkpoint s now) now = Some (norm s now).
Proof.
  intros (H & Ht & Hs).
  unfold restore, norm, validate_checkpoint, checkpoint.
  destruct s as [ft r2 f e r a sy ng]; cbn in *.
  assert (Hage : 0 <= (if a && (ft <? now) then now - ft else 0) <= now) by (cases; lia).
  assert (Hft : a = true -> now - (if a && (ft <? now) then now - ft else 0) = ft)
    by (intros ->; cbn; cases; lia).
  set (age := if a && (ft <? now) then now - ft else 0) in *.
  assert (a = false -> age = 0) by (intros ->; reflexivity).
  replace (age <? 0) with false by lia. replace (now <? age) with false by lia.
  assert (0 <= value_or 0 r2 /\ (r2 <> None -> 0 < value_or 0 r2)) as [Hr2 Hr2']
    by (destruct r2; cbn; split; lia || done).
  replace (value_or 0 r2 <? 0) with false by lia.
  destruct a; cbn [negb andb] in *.
  - destruct Hs as (? & ? & ? & ? & Hng). rewrite Hft by done.
    replace (e ⊟ f =? 0) with false by lia. replace (two30 <? e ⊟ f) with false by lia.
    assert (negb ng || (Catalog.tcp_failure_r1_retransmissions <=? r) = true) as ->
      by (destruct ng; [specialize (Hng eq_refl); cbn; lia|done]).
    destruct r2; cbn in *; [|done].
    replace (z =? 0) with false by lia. done.
  - destruct Hs as (-> & -> & -> & -> & ->). rewrite H0 by done. rewrite Z.sub_0_r.
    destruct r2; cbn in *; [|done]. replace (z =? 0) with false by lia. done.
Qed.

#[export] Instance checkpointed : Checkpointed t Checkpoint := {
  ck_wf := wf;
  ck_fits _ _ := True;
  ck_save := checkpoint;
  ck_load := restore;
  ck_norm := norm;
  ck_load_save live s now H _ := failure_restore_checkpoint live s now H }.

(** ** Properties *)

(** The actions reported by successive retransmissions of the tracked segment
    at the given times. *)
Fixpoint retransmit_all (s : t) (times : list Z) : list FailureAction :=
  match times with
  | [] => []
  | now :: times =>
      let '(action, s) := retransmitted s (segment_first_ s) (segment_end_ s) now in
      action :: retransmit_all s times
  end.

Definition expected (t0 r2 : Z) (i : nat) (now : Z) : FailureAction :=
  if r2 <=? now - t0 then abort_connection
  else if (i =? 3)%nat then negative_ip_advice
  else none.

Lemma retransmit_all_counted times s t0 r2 k :
  active_ s = true -> first_transmitted_at_ s = t0 -> active_r2 s = Some r2 ->
  retransmissions_ s = Z.of_nat k ->
  (negative_advice_reported_ s = true <-> (3 <= k)%nat) ->
  Z.of_nat k + Z.of_nat (length times) < u32_max ->
  Forall (fun now => t0 <= now) times ->
  Forall (fun now => now - t0 < r2) (take (3 - k) times) ->
  retransmit_all s times = imap (fun i => expected t0 r2 (S (k + i))) times.
Proof.
  revert s k. induction times as [|now times IH]; intros s k Ha Ht Hr2 Hk Hn Hlen Hall Hpre; [done|].
  inversion Hall as [|? ? Hnow Hall']; subst. cbn [length] in Hlen.
  cbn [retransmit_all]. unfold retransmitted.
  rewrite Ha, !Z.eqb_refl. cbn [negb orb].
  replace (now <? first_transmitted_at_ s) with false by lia.
  replace (retransmissions_ s =? u32_max) with false by lia. cbn [negb]. cbv zeta.
  set (s1 := s <| retransmissions_ := retransmissions_ s + 1 |>).
  change (active_r2 s1) with (active_r2 s). rewrite Hr2.
  change (first_transmitted_at_ s1) with (first_transmitted_at_ s).
  change (negative_advice_reported_ s1) with (negative_advice_reported_ s).
  change (retransmissions_ s1) with (retransmissions_ s + 1). rewrite Hk.
  rewrite imap_cons. unfold expected at 1. rewrite Nat.add_0_r.
  replace (imap _ times) with
    (imap (fun i => expected (first_transmitted_at_ s) r2 (S (S k + i))) times)
    by (apply imap_ext; intros; unfold compose; f_equal; lia).
  assert (Hpre' : Forall (fun t => t - first_transmitted_at_ s < r2) (take (3 - S k) times)).
  { destruct (decide (k < 3)%nat) as [?|?].
    - replace (3 - k)%nat with (S (3 - S k)) in Hpre by lia. now inversion Hpre.
    - replace (3 - S k)%nat with 0%nat by lia. apply Forall_nil_2. }
  destruct (Z.leb_spec r2 (now - first_transmitted_at_ s)) as [Hab|Hab].
  - assert (3 <= k)%nat.
    { destruct (decide (k < 3)%nat) as [?|?]; [|lia].
      replace (3 - k)%nat with (S (3 - S k)) in Hpre by lia. inversion Hpre; subst; lia. }
    cbn [snd fst]. f_equal. apply IH; try done; unfold s1; cbn; try lia.
    rewrite Hn. lia.
  - unfold Catalog.tcp_failure_r1_retransmissions.
    destruct (decide (3 <= k)%nat) as [Hk3|Hk3].
    + assert (negative_advice_reported_ s = true) as En by now apply Hn.
      rewrite En. cbn [negb andb].
      replace (S k =? 3)%nat with false by (symmetry; apply Nat.eqb_neq; lia).
      f_equal. apply IH; try done; unfold s1; cbn; try lia. rewrite En. intuition lia.
    + assert (negative_advice_reported_ s = false) as En
        by (destruct (negative_advice_reported_ s); [exfalso; apply Hk3; now apply Hn|done]).
      rewrite En. cbn [negb andb].
      destruct (Nat.eqb_spec (S k) 3); destruct (Z.leb_spec 3 (Z.of_nat k + 1)); try lia;
        f_equal; apply IH; try done; unfold s1; cbn; try lia; rewrite ?En;
        split; intros; try done; lia.
Qed.

(** From the admission of a segment on, with retransmissions that reach R1
    before R2, the third retransmission alone gives the IP layer negative
    advice, every retransmission at or past the R2 horizon aborts the
    connection, and the others report nothing. *)
Theorem failure_thresholds s first end_ syn t0 r2 times :
  fst (begin_ s first end_ syn t0) = true ->
  (if syn then Some Catalog.tcp_failure_syn_r2 else data_r2_ s) = Some r2 ->
  Z.of_nat (length times) < u32_max ->
  Forall (fun now => t0 <= now) times ->
  Forall (fun now => now - t0 < r2) (take 3 times) ->
  retransmit_all (snd (begin_ s first end_ syn t0)) times
  = imap (fun i => expected t0 r2 (S i)) times.
Proof.
  intros Hb Hr2 Hlen Hall Hpre. unfold begin_ in *. case_if_in Hb; [done|]. cbn [snd].
  apply (retransmit_all_counted times _ t0 r2 0); try done; cbn.
  split; [done|lia].
Qed.

(** A cumulative ACK that covers the tracked segment clears the evidence; one
    that covers part of it moves the first outstanding octet to the ACK and
    keeps the R1 count and the R2 deadline, so partial progress never extends
    the failure horizon; any other ACK leaves the detector alone. *)
Theorem failure_partial_ack s ack now :
  wf s now -> active_ s = true -> is_u32 ack -> ack ⊟ segment_first_ s < two31 ->
  let s' := acknowledge s ack in
  wf s' now
  /\ (segment_end_ s ⊟ segment_first_ s <= ack ⊟ segment_first_ s ->
        active_ s' = false /\ deadline s' = None)
  /\ (ack ⊟ segment_first_ s < segment_end_ s ⊟ segment_first_ s ->
        segment_first_ s' = ack /\ segment_end_ s' = segment_end_ s
        /\ retransmissions_ s' = retransmissions_ s /\ deadline s' = deadline s).
Proof.
  intros Hwf Ha Hack Hd. cbv zeta.
  assert (0 <= now) by (destruct Hwf as (_ & ? & _); lia).
  split; [now apply failure_wf_acknowledge|].
  destruct Hwf as (_ & _ & Hs). rewrite Ha in Hs. destruct Hs as (Hf & He & Hl & _ & _).
  unfold acknowledge. rewrite Ha. cbn [negb].
  rewrite (Sequence.before_or_equal_offset (segment_first_ s)), (Sequence.after_offset (segment_first_ s))
    by (done || word || lia).
  rewrite wsub_diag. split; intros Hc.
  - replace (_ <=? _) with true by lia. done.
  - replace (_ <=? _) with false by lia. case_if; [done|].
    assert (ack = segment_first_ s) as -> by word. done.
Qed.

(** A detector saved at [now] is always accepted back at [now], in a state
    that answers every later call the same way. *)
Theorem failure_roundtrip live s now now' :
  wf s now -> now <= now' ->
  exists s', restore live (checkpoint s now) now = Some s'
    /\ service s' now' = service s now' /\ deadline s' = deadline s
    /\ forall first end_, fst (retransmitted s' first end_ now') = fst (retransmitted s first end_ now').
Proof.
  intros Hwf Hn. exists (norm s now). split; [now apply failure_restore_checkpoint|].
  unfold norm, service, deadline, active_r2, retransmitted.
  destruct s as [ft r2 f e r [|] sy ng]; cbn; done.
Qed.

Definition sample : t := snd (begin_ initial 1000 2000 false 5).

Example failure_thresholds_witness :
  retransmit_all sample [Catalog.seconds 1; Catalog.seconds 3; Catalog.seconds 7;
                         Catalog.seconds 15; Catalog.seconds 101]
  = [none; none; negative_ip_advice; none; abort_connection].
Proof.
  unfold sample. rewrite (failure_thresholds initial 1000 2000 false 5 (Catalog.seconds 100));
    try reflexivity; repeat constructor; vm_compute; congruence.
Defined.

Lemma failure_sample_wf : wf sample 10.
Proof. repeat split; vm_compute; congruence. Qed.

Example failure_partial_ack_witness : deadline (acknowledge sample 1500) = deadline sample.
Proof.
  destruct (failure_partial_ack sample 1500 10 failure_sample_wf eq_refl
              ltac:(vm_compute; split; congruence) eq_refl) as (_ & _ & H).
  apply H. reflexivity.
Defined.

Example failure_roundtrip_witness :
  exists s', restore initial (checkpoint sample 10) 10 = Some s' /\ deadline s' = deadline sample.
Proof.
  destruct (failure_roundtrip initial sample 10 20 failure_sample_wf ltac:(lia)) as (s' & H & _ & Hd & _).
  exists s'. split; assumption.
Defined.

End FailureDetector.
