(* ===== verification/ReceiveWindow.v ===== *)
(** * Receiver silly-window avoidance
    (core/src/transport/tcp_receive_window.cpp). *)

From S2P Require Import Prelude Checkpoint.

Module ReceiveWindow.

Record t := mk {
  capacity_ : Z;
  effective_send_mss_ : Z;
  advertised_ : Z;
  valid_ : bool
}.
#[export] Instance t_settable : Settable t := fun s =>
  mk (capacity_ s) (effective_send_mss_ s) (advertised_ s) (valid_ s).

Definition construct (capacity effective_send_mss : Z) : t :=
  mk capacity effective_send_mss capacity
     (negb (capacity =? 0) && (capacity <=? two30) && negb (effective_send_mss =? 0)).

Definition update_threshold (s : t) : Z :=
  let half := capacity_ s / 2 + capacity_ s mod 2 in
  Z.min half (effective_send_mss_ s).

Definition receive_next_advanced (s : t) (octets : Z) : t :=
  if negb (valid_ s) then s
  else s <| advertised_ := if advertised_ s <=? octets then 0 else advertised_ s - octets |>.

Definition application_space_available (s : t) (available : Z) : bool * t :=
  if negb (valid_ s) || (capacity_ s <? available) || (available <=? advertised_ s)
  then (false, s)
  else
    let reduction := available - advertised_ s in
    if reduction <? update_threshold s then (false, s)
    else (true, s <| advertised_ := available |>).

Definition advertised (s : t) : Z := if valid_ s then advertised_ s else 0.

Record Checkpoint := mkCheckpoint {
  capacity : Z;
  effective_send_mss : Z;
  ck_advertised : Z
}.

Definition checkpoint (s : t) : Checkpoint :=
  mkCheckpoint (capacity_ s) (effective_send_mss_ s) (advertised_ s).

Definition restore (s : t) (state : Checkpoint) : option t :=
  if negb (valid_ s) || negb (capacity state =? capacity_ s)
     || negb (effective_send_mss state =? effective_send_mss_ s)
     || (capacity_ s <? ck_advertised state)
  then None
  else Some (s <| advertised_ := ck_advertised state |>).

Definition wf (s : t) : Prop :=
  valid_ s = true /\ 0 < capacity_ s <= two30 /\ 0 < effective_send_mss_ s
  /\ 0 <= advertised_ s <= capacity_ s.

Lemma receive_window_wf_construct c m :
  0 < c <= two30 -> 0 < m -> wf (construct c m).
Proof.
  intros. unfold wf, construct; cbn. repeat split; lia.
Qed.

Inductive event := Advanced (octets : Z) | Space (available : Z).

Definition apply (s : t) (e : event) : t :=
  match e with
  | Advanced n => receive_next_advanced s n
  | Space a => snd (application_space_available s a)
  end.

Lemma receive_window_wf_apply s e :
  wf s -> match e with Advanced n => 0 <= n | Space a => 0 <= a end -> wf (apply s e).
Proof.
  intros (Hv & Hc & Hm & Ha) He. destruct s as [c m a v]; cbn in *; subst v.
  destruct e; cbn; unfold receive_next_advanced, application_space_available; cbn;
    cases; unfold wf; cbn; repeat split; lia.
Qed.

Lemma receive_window_restore_checkpoint live s :
  wf s -> capacity_ live = capacity_ s -> effective_send_mss_ live = effective_send_mss_ s ->
  valid_ live = true -> restore live (checkpoint s) = Some s.
Proof.
  intros (Hv & Hc & Hm & Ha) E1 E2 E3. unfold restore. cbn. rewrite E1, E2, E3.
  rewrite !Z.eqb_refl. replace (capacity_ s <? advertised_ s) with false by lia. cbn.
  destruct live as [c m a v], s as [c' m' a' v']; cbn in *. now subst.
Qed.

#[export] Instance checkpointed : Checkpointed t Checkpoint := {
  ck_wf s _ := wf s;
  ck_fits live s := capacity_ live = capacity_ s
    /\ effective_send_mss_ live = effective_send_mss_ s /\ valid_ live = true;
  ck_save s _ := checkpoint s;
  ck_load live c _ := restore live c;
  ck_norm s _ := s;
  ck_load_save live s now H F :=
    receive_window_restore_checkpoint live s H (proj1 F) (proj1 (proj2 F)) (proj2 (proj2 F)) }.

(** The absolute right edge of the advertised window, given RCV.NXT on an
    unbounded line. *)
Definition right_edge (receive_next : Z) (s : t) : Z := receive_next + advertised s.

(** The advertised right edge never retracts.  When RCV.NXT advances within
    the window the edge stays where it is; when the application frees space the
    edge only moves forward, by at least the smaller of half the arena and one
    segment, and never past the arena. *)
Theorem receive_window_right_edge s receive_next octets available :
  wf s -> 0 <= octets <= advertised s -> 0 <= available ->
  let s1 := receive_next_advanced s octets in
  let (moved, s2) := application_space_available s available in
  right_edge (receive_next + octets) s1 = right_edge receive_next s
  /\ 0 <= advertised s2 <= capacity_ s
  /\ (moved = false -> s2 = s)
  /\ (moved = true ->
        right_edge receive_next s2 = receive_next + available
        /\ right_edge receive_next s
           + Z.min ((capacity_ s + 1) / 2) (effective_send_mss_ s) <= right_edge receive_next s2).
Proof.
  intros (Hv & Hc & Hm & Ha) Ho Hav. destruct s as [c m a v]; cbn in *; subst v.
  unfold application_space_available, right_edge, receive_next_advanced, update_threshold; cbn.
  cases; cbn in *; repeat split; intros; try discriminate; try done; try lia.
Qed.

Definition sample : t := construct 1000 400.

Example receive_window_right_edge_witness :
  right_edge 5000 (receive_next_advanced sample 700) = right_edge 4300 sample.
Proof.
  apply (receive_window_right_edge sample 4300 700 0).
  - apply receive_window_wf_construct; lia.
  - vm_compute. split; congruence.
  - lia.
Defined.

End ReceiveWindow.
