(* ===== verification/Arena.v ===== *)
(** * Circular arenas

    The byte and record repositories of the transport address a caller-owned
    span through [physical(offset) = (head + offset) % size].  This file holds
    the facts about that addressing which all of them share.  A [std::span] is
    a list; indices are [Z]. *)

From S2P Require Import Prelude.

Module Arena.

Section Ring.
Context {A : Type} `{!Inhabited A}.
Implicit Types (l : list A) (x : A) (head offset i : Z).

Definition size l : Z := Z.of_nat (length l).
Definition get l i : A := l !!! Z.to_nat i.
Definition put l i x : list A := <[Z.to_nat i := x]> l.

Definition physical l head offset : Z := (head + offset) mod size l.

Definition ring_get l head offset : A := get l (physical l head offset).

(** [storage[physical(offset + k)] = bs[k]] for every [k], in order. *)
Fixpoint ring_write l head offset (bs : list A) : list A :=
  match bs with
  | [] => l
  | b :: bs => ring_write (put l (physical l head offset) b) head (offset + 1) bs
  end.

(** The [n] elements from [offset] on. *)
Definition ring_read l head offset (n : nat) : list A :=
  (fun k => ring_get l head (offset + Z.of_nat k)) <$> seq 0 n.

Lemma size_nonneg l : 0 <= size l.
Proof. unfold size. lia. Qed.

Lemma size_app l l' : size (l ++ l') = size l + size l'.
Proof. unfold size. rewrite length_app. lia. Qed.

Lemma size_put l i x : size (put l i x) = size l.
Proof. unfold size, put. now rewrite length_insert. Qed.

Lemma size_ring_write l head offset bs : size (ring_write l head offset bs) = size l.
Proof.
  revert l offset. induction bs as [|b bs IH]; intros l offset; cbn; [done|].
  now rewrite IH, size_put.
Qed.

Lemma physical_range l head offset :
  0 < size l -> 0 <= physical l head offset < size l.
Proof. intros. unfold physical. now apply Z.mod_pos_bound. Qed.

Lemma physical_inj l head a b :
  0 <= a < size l -> 0 <= b < size l -> physical l head a = physical l head b -> a = b.
Proof.
  unfold physical. intros Ha Hb E.
  assert (size l <> 0) by lia.
  apply (f_equal (fun z => (z - head) mod size l)) in E.
  rewrite !Zminus_mod_idemp_l in E.
  replace (head + a - head) with a in E by lia. replace (head + b - head) with b in E by lia.
  rewrite !Z.mod_small in E by lia. done.
Qed.

Lemma physical_shift l head n offset :
  physical l ((head + n) mod size l) offset = physical l head (n + offset).
Proof. unfold physical. rewrite Zplus_mod_idemp_l. f_equal. lia. Qed.

Lemma get_put l i j x :
  0 <= i < size l -> 0 <= j -> get (put l i x) j = if i =? j then x else get l j.
Proof.
  intros Hi Hj. unfold get, put. unfold size in Hi.
  destruct (Z.eqb_spec i j) as [->|Hne].
  - apply list_lookup_total_insert_eq. lia.
  - apply list_lookup_total_insert_ne. lia.
Qed.

(** Writing one slot changes that slot alone. *)
Lemma ring_get_put l head a b x :
  0 <= a < size l -> 0 <= b < size l ->
  ring_get (put l (physical l head a) x) head b = if a =? b then x else ring_get l head b.
Proof.
  intros Ha Hb. unfold ring_get.
  assert (physical (put l (physical l head a) x) head b = physical l head b) as ->
    by (unfold physical; now rewrite size_put).
  pose proof (physical_range l head a ltac:(lia)).
  pose proof (physical_range l head b ltac:(lia)).
  rewrite get_put by lia.
  destruct (Z.eqb_spec a b) as [->|Hne]; [now rewrite Z.eqb_refl|].
  destruct (Z.eqb_spec (physical l head a) (physical l head b)) as [E|]; [|done].
  now apply physical_inj in E.
Qed.

Lemma ring_get_write l head offset bs b :
  0 <= offset -> offset + Z.of_nat (length bs) <= size l -> 0 <= b < size l ->
  ring_get (ring_write l head offset bs) head b =
    if (offset <=? b) && (b <? offset + Z.of_nat (length bs))
    then bs !!! Z.to_nat (b - offset) else ring_get l head b.
Proof.
  revert l offset. induction bs as [|x bs IH]; intros l offset Ho Hl Hb.
  - cbn [ring_write length]. change (Z.of_nat 0) with 0. replace (_ && _) with false by blia. done.
  - cbn [ring_write length] in *.
    rewrite IH by (rewrite ?size_put; lia).
    rewrite ring_get_put by lia.
    destruct (Z.eqb_spec offset b) as [->|Hne].
    + replace (b + 1 <=? b) with false by blia. cbn [andb].
      replace (_ && _) with true by blia. now rewrite Z.sub_diag.
    + replace ((offset + 1 <=? b) && (b <? offset + 1 + Z.of_nat (length bs)))
        with ((offset <=? b) && (b <? offset + Z.of_nat (S (length bs)))) by blia.
      case_if; [|done]. replace (Z.to_nat (b - offset)) with (S (Z.to_nat (b - (offset + 1)))) by lia.
      done.
Qed.

Lemma ring_get_shift l head n offset :
  ring_get l ((head + n) mod size l) offset = ring_get l head (n + offset).
Proof. unfold ring_get. now rewrite physical_shift. Qed.

Lemma length_ring_read l head offset n : length (ring_read l head offset n) = n.
Proof. unfold ring_read. now rewrite length_fmap, length_seq. Qed.

Lemma lookup_ring_read l head offset n k :
  (k < n)%nat -> ring_read l head offset n !! k = Some (ring_get l head (offset + Z.of_nat k)).
Proof.
  intros Hk. unfold ring_read. rewrite list_lookup_fmap.
  rewrite lookup_seq_lt by done. done.
Qed.

(** Two reads are equal when their slots are. *)
Lemma ring_read_ext l l' head head' a b n :
  (forall k, (k < n)%nat -> ring_get l head (a + Z.of_nat k) = ring_get l' head' (b + Z.of_nat k)) ->
  ring_read l head a n = ring_read l' head' b n.
Proof.
  intros H. apply list_eq_same_length with n; rewrite ?length_ring_read; try done.
  intros k x y Hk. rewrite !lookup_ring_read by done. intros [= <-] [= <-]. now apply H.
Qed.

Lemma ring_read_app l head a n m :
  ring_read l head a (n + m) = ring_read l head a n ++ ring_read l head (a + Z.of_nat n) m.
Proof.
  unfold ring_read. rewrite seq_app, fmap_app. f_equal.
  replace (0 + n)%nat with (n + 0)%nat by lia. rewrite <- fmap_add_seq, <- list_fmap_compose.
  apply list_fmap_ext. intros i k _. unfold compose. f_equal. lia.
Qed.

Lemma ring_read_cons l head a n :
  ring_read l head a (S n) = ring_get l head a :: ring_read l head (a + 1) n.
Proof.
  change (S n) with (1 + n)%nat. rewrite ring_read_app. unfold ring_read at 1. cbn.
  now rewrite Z.add_0_r.
Qed.

(** Writing the slot just after a read extends it. *)
Lemma ring_read_snoc l head n x :
  Z.of_nat n < size l ->
  ring_read (put l (physical l head (Z.of_nat n)) x) head 0 (S n) = ring_read l head 0 n ++ [x].
Proof.
  intros Hn. replace (S n) with (n + 1)%nat by lia. rewrite ring_read_app. f_equal.
  - apply ring_read_ext. intros k Hk. rewrite ring_get_put by lia.
    replace (Z.of_nat n =? 0 + Z.of_nat k) with false by lia. done.
  - unfold ring_read. cbn. rewrite !Z.add_0_r, ring_get_put, Z.eqb_refl by lia. done.
Qed.

(** Writing a slot in front of a read leaves it alone. *)
Lemma ring_read_put_before l head a b n x :
  0 <= a < b -> b + Z.of_nat n <= size l ->
  ring_read (put l (physical l head a) x) head b n = ring_read l head b n.
Proof.
  intros Ha Hb. apply ring_read_ext. intros k Hk. rewrite ring_get_put by lia.
  replace (a =? b + Z.of_nat k) with false by lia. done.
Qed.

Lemma take_ring_read l head a n k :
  (k <= n)%nat -> take k (ring_read l head a n) = ring_read l head a k.
Proof.
  intros Hk. replace n with (k + (n - k))%nat by lia. rewrite ring_read_app.
  apply take_app_length'. now rewrite length_ring_read.
Qed.

Lemma drop_ring_read l head a n k :
  (k <= n)%nat -> drop k (ring_read l head a n) = ring_read l head (a + Z.of_nat k) (n - k).
Proof.
  intros Hk. replace n with (k + (n - k))%nat at 1 by lia. rewrite ring_read_app.
  apply drop_app_length'. now rewrite length_ring_read.
Qed.

(** From head zero a read is a prefix. *)
Lemma ring_read_take l n : (n <= length l)%nat -> ring_read l 0 0 n = take n l.
Proof.
  intros Hn. apply list_eq_same_length with n; rewrite ?length_ring_read, ?length_take; try lia.
  intros k x y Hk. rewrite lookup_ring_read, lookup_take_lt by done.
  unfold ring_get, physical, get, size. rewrite !Z.add_0_l, Z.mod_small, Nat2Z.id by lia.
  intros [= <-] Hy. now apply list_lookup_total_correct.
Qed.

(** What was just written reads back. *)
Lemma ring_read_write l head offset bs :
  0 <= offset -> offset + Z.of_nat (length bs) <= size l ->
  ring_read (ring_write l head offset bs) head offset (length bs) = bs.
Proof.
  intros Ho Hl. apply list_eq_same_length with (length bs); rewrite ?length_ring_read; try done.
  intros k x y Hk. rewrite lookup_ring_read by done. intros [= <-] Hy.
  rewrite ring_get_write by lia. replace (_ && _) with true by blia.
  replace (Z.to_nat (offset + Z.of_nat k - offset)) with k by lia.
  now apply list_lookup_total_correct.
Qed.

(** A write elsewhere does not disturb a read. *)
Lemma ring_read_write_before l head offset bs a n :
  0 <= a -> a + Z.of_nat n <= offset -> offset + Z.of_nat (length bs) <= size l ->
  ring_read (ring_write l head offset bs) head a n = ring_read l head a n.
Proof.
  intros Ha Hn Hl. apply ring_read_ext. intros k Hk.
  rewrite ring_get_write by lia. replace (_ && _) with false by blia. done.
Qed.

Lemma ring_read_write_after l head offset bs a n :
  0 <= offset -> offset + Z.of_nat (length bs) <= a -> a + Z.of_nat n <= size l ->
  ring_read (ring_write l head offset bs) head a n = ring_read l head a n.
Proof.
  intros Ho Ha Hn. apply ring_read_ext. intros k Hk.
  rewrite ring_get_write by lia. replace (_ && _) with false by blia. done.
Qed.

(** Advancing the head by [n] drops the first [n] slots from every read. *)
Lemma ring_read_shift l head n a m :
  ring_read l ((head + n) mod size l) a m = ring_read l head (n + a) m.
Proof.
  apply ring_read_ext. intros k Hk. rewrite ring_get_shift. f_equal. lia.
Qed.

End Ring.
End Arena.
