(* ===== verification/Blocks.v ===== *)
(** * The SACK block shared by the option codec, the receive repository and the
    sender's scoreboard (core/include/router/tcp_options.hpp). *)

From S2P Require Import Prelude.

Module Blocks.

Record SackBlock := mkBlock { left_edge : Z; right_edge : Z }.

#[export] Instance sack_block_eq_dec : EqDecision SackBlock.
Proof. solve_decision. Defined.

(** The defaulted [operator==] *)
Definition same_block (a b : SackBlock) : bool :=
  (left_edge a =? left_edge b) && (right_edge a =? right_edge b).

Lemma same_block_spec a b : same_block a b = true <-> a = b.
Proof.
  unfold same_block. rewrite andb_true_iff, !Z.eqb_eq.
  destruct a, b; cbn. split; [intros []; congruence|intros [=]; done].
Qed.

End Blocks.
