(* ===== verification/SendBuffer.v ===== *)
(** * The TCP send repository (core/src/transport/tcp_send_buffer.cpp).

    The circular arena that retains unsent and unacknowledged bytes, the
    two-phase prepared ranges, and its refinement of a FIFO byte stream. *)

From S2P Require Import Prelude Sequence Arena Checkpoint.
Import Arena.

Module SendBuffer.

Inductive SendAcknowledgeStatus := advanced | duplicate | beyond_sent | invalid.

Record PreparedSendRange := mkRange {
  sequence : Z;
  length : Z;
  generation : Z;
  retransmission : bool
}.

Definition no_range : PreparedSendRange := mkRange 0 0 0 false.

(** [PreparedSendRange::operator bool] *)
Definition range_present (r : PreparedSendRange) : bool := negb (length r =? 0).

Record t := mk {
  storage_ : list Z;
  send_unacknowledged_ : Z;
  send_next_ : Z;
  write_next_ : Z;
  head_ : Z;
  generation_ : Z;
  valid_ : bool
}.
#[export] Instance t_settable : Settable t := fun s =>
  mk (storage_ s) (send_unacknowledged_ s) (send_next_ s) (write_next_ s) (head_ s)
     (generation_ s) (valid_ s).

Definition construct (storage : list Z) (initial_data_sequence : Z) : t :=
  let valid := negb (size storage =? 0) && (size storage <=? two30) in
  mk (if valid then replicate (List.length storage) 0 else storage)
     initial_data_sequence initial_data_sequence initial_data_sequence 0 1 valid.

Definition flight_size (s : t) : Z :=
  if valid_ s then send_next_ s ⊟ send_unacknowledged_ s else 0.

Definition unsent_octets (s : t) : Z :=
  if valid_ s then write_next_ s ⊟ send_next_ s else 0.

Definition queued_octets (s : t) : Z :=
  if valid_ s then write_next_ s ⊟ send_unacknowledged_ s else 0.

Definition writable_octets (s : t) : Z :=
  if valid_ s then u32 (size (storage_ s)) ⊟ queued_octets s else 0.

Definition write (s : t) (input : list Z) : Z * t :=
  if negb (valid_ s) || (size input =? 0) then (0, s)
  else
    let accepted := Z.min (size input) (writable_octets s) in
    let tail_offset := queued_octets s in
    let s := s <| storage_ := ring_write (storage_ s) (head_ s) tail_offset
                                (take (Z.to_nat accepted) input) |> in
    let s := s <| write_next_ := write_next_ s ⊞ accepted |> in
    let s := if negb (accepted =? 0) then s <| generation_ := u64 (generation_ s + 1) |> else s in
    (accepted, s).

Definition prepare_new (s : t) (maximum_payload : Z) : PreparedSendRange :=
  if negb (valid_ s) || (maximum_payload =? 0) then no_range
  else mkRange (send_next_ s) (Z.min maximum_payload (unsent_octets s)) (generation_ s) false.

Definition prepare_retransmission (s : t) (maximum_payload : Z) : PreparedSendRange :=
  if negb (valid_ s) || (maximum_payload =? 0) then no_range
  else mkRange (send_unacknowledged_ s) (Z.min maximum_payload (flight_size s)) (generation_ s) true.

Definition prepare_retransmission_at (s : t) (seq maximum_payload : Z) : PreparedSendRange :=
  if negb (valid_ s) || (maximum_payload =? 0)
     || Sequence.before seq (send_unacknowledged_ s)
     || negb (Sequence.before seq (send_next_ s))
  then no_range
  else
    let retained := send_next_ s ⊟ seq in
    mkRange seq (Z.min maximum_payload retained) (generation_ s) true.

Definition range_is_current (s : t) (range : PreparedSendRange) : bool :=
  if negb (valid_ s) || (length range =? 0) || negb (generation range =? generation_ s) then false
  else
    let offset := sequence range ⊟ send_unacknowledged_ s in
    if (queued_octets s <=? offset) || (queued_octets s - offset <? length range) then false
    else if retransmission range then
      (offset <? flight_size s) && (length range <=? flight_size s - offset)
    else (sequence range =? send_next_ s) && (length range <=? unsent_octets s).

(** [copy] fills the first [length] octets of an output of the given size. *)
Definition copy (s : t) (range : PreparedSendRange) (output_size : Z) : option (list Z) :=
  if negb (range_is_current s range) || (output_size <? length range) then None
  else
    let offset := sequence range ⊟ send_unacknowledged_ s in
    Some (ring_read (storage_ s) (head_ s) offset (Z.to_nat (length range))).

Definition commit (s : t) (range : PreparedSendRange) : bool * t :=
  if negb (range_is_current s range) then (false, s)
  else
    let s := if negb (retransmission range)
             then s <| send_next_ := send_next_ s ⊞ length range |> else s in
    (true, s <| generation_ := u64 (generation_ s + 1) |>).

Definition acknowledge (s : t) (acknowledgment : Z) : SendAcknowledgeStatus * Z * t :=
  if negb (valid_ s) then (invalid, 0, s)
  else if Sequence.after acknowledgment (send_next_ s) then (beyond_sent, 0, s)
  else if negb (Sequence.after acknowledgment (send_unacknowledged_ s)) then (duplicate, 0, s)
  else
    let count := acknowledgment ⊟ send_unacknowledged_ s in
    let s := s <| storage_ := ring_write (storage_ s) (head_ s) 0
                                (replicate (Z.to_nat count) 0) |> in
    let s := s <| head_ := u32 ((head_ s + count) mod size (storage_ s)) |> in
    let s := s <| send_unacknowledged_ := acknowledgment |> in
    (advanced, count, s <| generation_ := u64 (generation_ s + 1) |>).

Record Checkpoint := mkCheckpoint {
  storage : list Z;
  send_unacknowledged : Z;
  send_next : Z;
  write_next : Z;
  head : Z;
  ck_generation : Z
}.

Definition checkpoint (s : t) : Checkpoint :=
  mkCheckpoint (storage_ s) (send_unacknowledged_ s) (send_next_ s) (write_next_ s) (head_ s)
    (generation_ s).

Definition restore (s : t) (state : Checkpoint) : option t :=
  if negb (valid_ s) || negb (size (storage state) =? size (storage_ s))
     || (size (storage_ s) <=? head state) || (ck_generation state =? 0) then None
  else
    let flight := send_next state ⊟ send_unacknowledged state in
    let queued := write_next state ⊟ send_unacknowledged state in
    if (queued <? flight) || (size (storage_ s) <? queued) then None
    else Some (s <| storage_ := storage state |>
                 <| send_unacknowledged_ := send_unacknowledged state |>
                 <| send_next_ := send_next state |>
                 <| write_next_ := write_next state |>
                 <| head_ := head state |>
                 <| generation_ := ck_generation state |>).

(** ** Invariant *)

(** The live ranges are nested and fit the arena:
    SND.UNA <= SND.NXT <= write_next <= SND.UNA + capacity, as serial numbers. *)
Definition wf (s : t) : Prop :=
  valid_ s = true
  /\ 0 < size (storage_ s) <= two30
  /\ is_u32 (send_unacknowledged_ s) /\ is_u32 (send_next_ s) /\ is_u32 (write_next_ s)
  /\ send_next_ s ⊟ send_unacknowledged_ s <= write_next_ s ⊟ send_unacknowledged_ s
     <= size (storage_ s)
  /\ 0 <= head_ s < size (storage_ s)
  /\ is_u64 (generation_ s).

Lemma send_wf_construct storage isn :
  0 < size storage <= two30 -> is_u32 isn -> wf (construct storage isn).
Proof.
  intros Hs Hi. unfold construct.
  replace (negb (size storage =? 0) && (size storage <=? two30)) with true by blia.
  assert (size (replicate (List.length storage) 0) = size storage) as E
    by (unfold size; now rewrite length_replicate).
  unfold wf; cbn. rewrite E, wsub_diag. repeat split; try done; word.
Qed.

Section Queues.
Context (s : t) (W : wf s).

Lemma send_flight : flight_size s = send_next_ s ⊟ send_unacknowledged_ s.
Proof. destruct W as (V & _). unfold flight_size. now rewrite V. Qed.

Lemma send_queued : queued_octets s = write_next_ s ⊟ send_unacknowledged_ s.
Proof. destruct W as (V & _). unfold queued_octets. now rewrite V. Qed.

(** The three counters are differences on one line, without wrap. *)
Lemma send_counters :
  0 <= flight_size s <= queued_octets s /\ queued_octets s <= size (storage_ s) <= two30
  /\ unsent_octets s = queued_octets s - flight_size s
  /\ writable_octets s = size (storage_ s) - queued_octets s
  /\ send_next_ s = send_unacknowledged_ s ⊞ flight_size s
  /\ write_next_ s = send_unacknowledged_ s ⊞ queued_octets s.
Proof.
  destruct W as (V & Hs & Hu & Hn & Hw & Hq & Hh & Hg).
  rewrite send_flight, send_queued.
  unfold unsent_octets, writable_octets. rewrite V, send_queued, !wadd_wsub by done.
  repeat split; try lia; word.
Qed.
End Queues.

(** ** The FIFO specification *)

(** What the repository promises: a bounded queue of octets whose first [sent]
    octets are in flight. *)
Record fifo := mkFifo { capacity : Z; base : Z; sent : list Z; pending : list Z }.

Definition fifo_write (q : fifo) (input : list Z) : Z * fifo :=
  let room := capacity q - size (sent q) - size (pending q) in
  let accepted := take (Z.to_nat room) input in
  (size accepted, mkFifo (capacity q) (base q) (sent q) (pending q ++ accepted)).

(** The next [n] pending octets enter the network *)
Definition fifo_send (q : fifo) (n : Z) : fifo :=
  mkFifo (capacity q) (base q) (sent q ++ take (Z.to_nat n) (pending q))
    (drop (Z.to_nat n) (pending q)).

(** The peer has received [n] octets *)
Definition fifo_release (q : fifo) (n : Z) : fifo :=
  mkFifo (capacity q) (base q ⊞ n) (drop (Z.to_nat n) (sent q)) (pending q).

Definition fifo_slice (q : fifo) (offset n : Z) : list Z :=
  take (Z.to_nat n) (drop (Z.to_nat offset) (sent q ++ pending q)).

Definition retained (s : t) : list Z :=
  ring_read (storage_ s) (head_ s) 0 (Z.to_nat (queued_octets s)).

Definition abs (s : t) : fifo :=
  mkFifo (size (storage_ s)) (send_unacknowledged_ s)
    (ring_read (storage_ s) (head_ s) 0 (Z.to_nat (flight_size s)))
    (ring_read (storage_ s) (head_ s) (flight_size s) (Z.to_nat (unsent_octets s))).

Lemma send_abs_retained s : wf s -> sent (abs s) ++ pending (abs s) = retained s.
Proof.
  intros W. destruct (send_counters s W) as (? & ? & Hu & _).
  unfold abs, retained; cbn. rewrite Hu.
  replace (Z.to_nat (queued_octets s))
    with (Z.to_nat (flight_size s) + Z.to_nat (queued_octets s - flight_size s))%nat by lia.
  rewrite ring_read_app. do 2 f_equal. lia.
Qed.

(** [write] in the abstract: the accepted prefix and the counters after it. *)
Lemma send_write_counters s input (W : wf s) :
  let (n, s') := write s input in
  wf s' /\ n = Z.min (size input) (writable_octets s)
  /\ storage_ s' = ring_write (storage_ s) (head_ s) (queued_octets s) (take (Z.to_nat n) input)
  /\ head_ s' = head_ s /\ send_unacknowledged_ s' = send_unacknowledged_ s
  /\ send_next_ s' = send_next_ s
  /\ flight_size s' = flight_size s /\ queued_octets s' = queued_octets s + n
  /\ generation_ s' = if n =? 0 then generation_ s else u64 (generation_ s + 1).
Proof.
  destruct (send_counters s W) as (Hf & Hq & Hu & Hr & Hsn & Hwn).
  destruct W as (V & Hs & Iu & In & Iw & Hb & Hh & Hg) eqn:EW. clear EW.
  unfold write. rewrite V. cbn [negb orb].
  assert (0 <= size input) by (unfold size; lia).
  destruct (Z.eqb_spec (size input) 0) as [E0|N0].
  { split; [done|]. rewrite E0. cbn. replace (Z.to_nat (Z.min 0 (writable_octets s))) with 0%nat by lia.
    destruct input; [|unfold size in E0; cbn in E0; lia]. cbn.
    repeat split; try done; lia. }
  set (n := Z.min (size input) (writable_octets s)).
  assert (0 <= n <= size (storage_ s) - queued_octets s) by lia.
  assert (write_next_ s ⊞ n ⊟ send_unacknowledged_ s = queued_octets s + n) as Hqn
    by (rewrite send_queued in * by done; clear -H0 Hq Iu Iw; word).
  cbn. rewrite V. destruct (Z.eqb_spec n 0) as [E|E]; cbn; rewrite Hqn, <- send_flight by done.
  all: split; [|repeat split; try done; lia].
  all: rewrite send_flight, send_queued in * by done.
  all: unfold wf; cbn; rewrite size_ring_write, Hqn; repeat split; try done; try lia; try word.
Qed.

(** Which ranges are current, in offsets. *)
Lemma send_range_current s r (W : wf s) :
  range_is_current s r = true -> is_u32 (sequence r) -> is_u32 (length r) ->
  let o := sequence r ⊟ send_unacknowledged_ s in
  0 < length r /\ generation r = generation_ s
  /\ 0 <= o /\ o + length r <= queued_octets s
  /\ (retransmission r = true -> o + length r <= flight_size s)
  /\ (retransmission r = false ->
        o = flight_size s /\ sequence r = send_next_ s /\ length r <= unsent_octets s).
Proof.
  destruct (send_counters s W) as (Hf & Hq & Hu & _).
  intros Hr Is Il. unfold range_is_current in Hr.
  destruct W as (V & _). rewrite V in Hr. cbn [negb orb] in Hr.
  destruct (_ || _) eqn:E1 in Hr; [done|]. case_if_in Hr; [done|]. bool_to_prop.
  destruct (retransmission r) eqn:Er; bool_to_prop; repeat split; try done; try word.
  unfold flight_size. rewrite V. congruence.
Qed.

Lemma send_commit_counters s r (W : wf s) :
  range_is_current s r = true -> is_u32 (sequence r) -> is_u32 (length r) ->
  let (ok, s') := commit s r in
  let n := if retransmission r then 0 else length r in
  ok = true /\ wf s' /\ storage_ s' = storage_ s /\ head_ s' = head_ s
  /\ send_unacknowledged_ s' = send_unacknowledged_ s
  /\ queued_octets s' = queued_octets s /\ flight_size s' = flight_size s + n
  /\ 0 <= n <= unsent_octets s
  /\ generation_ s' = u64 (generation_ s + 1).
Proof.
  intros Hr Is Il. pose proof (send_range_current s r W Hr Is Il) as (Hl & _ & _ & Ho & _ & Hnew).
  destruct (send_counters s W) as (Hf & Hq & Hu & _).
  unfold commit. rewrite Hr. cbn [negb].
  destruct W as (V & Hs & Iu & In & Iw & Hb & Hh & Hg) eqn:EW; clear EW.
  destruct (retransmission r) eqn:Er; cbn.
  - split; [done|]. split; [unfold wf; cbn; repeat split; try done; word|].
    repeat split; try done; try (unfold queued_octets, flight_size; cbn; rewrite V; lia); try lia.
  - destruct (Hnew eq_refl) as (_ & _ & Hm).
    assert (send_next_ s ⊞ length r ⊟ send_unacknowledged_ s = flight_size s + length r) as Hn
      by (rewrite send_flight, send_queued in * by done; clear -Hm Hu Hf Hl Hq Iu In Iw; word).
    split; [done|].
    assert (wf (s <| send_next_ := send_next_ s ⊞ length r |>
                  <| generation_ := u64 (generation_ s + 1) |>)) as W'.
    { unfold wf; cbn. rewrite Hn. rewrite send_queued in * by done.
      repeat split; try done; try lia; try word. }
    split; [exact W'|]. rewrite send_queued, send_flight by done. cbn. rewrite Hn, send_queued by done.
    repeat split; try done; lia.
Qed.

Lemma send_acknowledge_counters s ack (W : wf s) :
  is_u32 ack ->
  let '(st, n, s') := acknowledge s ack in
  let o := ack ⊟ send_unacknowledged_ s in
  wf s'
  /\ (0 < o <= flight_size s ->
       st = advanced /\ n = o
       /\ storage_ s' = ring_write (storage_ s) (head_ s) 0 (replicate (Z.to_nat n) 0)
       /\ head_ s' = (head_ s + n) mod size (storage_ s)
       /\ send_unacknowledged_ s' = ack
       /\ queued_octets s' = queued_octets s - n /\ flight_size s' = flight_size s - n
       /\ generation_ s' = u64 (generation_ s + 1))
  /\ (~ 0 < o <= flight_size s -> n = 0 /\ s' = s /\ (st = duplicate \/ st = beyond_sent)).
Proof.
  intros Ia. destruct (send_counters s W) as (Hf & Hq & Hu & _).
  destruct W as (V & Hs & Iu & In & Iw & Hb & Hh & Hg) eqn:EW; clear EW.
  rewrite send_flight, send_queued in * by done.
  unfold acknowledge. rewrite V. cbn [negb].
  destruct (Sequence.after ack (send_next_ s)) eqn:E1.
  { split; [done|]. split; [|auto]. intros Ho.
    rewrite (Sequence.after_offset (send_unacknowledged_ s)) in E1 by (done || lia). lia. }
  destruct (Sequence.after ack (send_unacknowledged_ s)) eqn:E2; cbn [negb].
  2: { split; [done|]. split; [|auto]. intros Ho.
    rewrite (Sequence.after_offset (send_unacknowledged_ s)), wsub_diag in E2
      by (done || lia || word). lia. }
  assert (0 < ack ⊟ send_unacknowledged_ s <= send_next_ s ⊟ send_unacknowledged_ s) as Ho.
  { unfold Sequence.after, Sequence.before, Sequence.half_space in E1, E2. bool_to_prop.
    apply andb_false_iff in E1. destruct E1 as [E1|E1]; bool_to_prop; clear -E E0 E1 Hq Hb Ia Iu In Iw; word. }
  set (n := ack ⊟ send_unacknowledged_ s) in *. cbn.
  set (st' := ring_write _ _ _ _).
  assert (size st' = size (storage_ s)) as Est by apply size_ring_write.
  assert (u32 ((head_ s + n) mod size st') = (head_ s + n) mod size (storage_ s)) as Eh.
  { rewrite Est. apply u32_id.
    pose proof (Z.mod_pos_bound (head_ s + n) (size (storage_ s))). word. }
  assert (send_next_ s ⊟ ack = send_next_ s ⊟ send_unacknowledged_ s - n) as En
    by (unfold n in *; clear -Ho Ia Iu In; word).
  assert (write_next_ s ⊟ ack = write_next_ s ⊟ send_unacknowledged_ s - n) as Ew
    by (unfold n in *; clear -Ho Hb Ia Iu In Iw; word).
  split; [|split; [|lia]].
  - unfold wf; cbn. rewrite Eh, Est, En, Ew.
    pose proof (Z.mod_pos_bound (head_ s + n) (size (storage_ s))).
    repeat split; try done; try lia; word.
  - intros _. unfold queued_octets, flight_size; cbn. rewrite V, En, Ew, Eh. done.
Qed.

(** ** Refinement *)

Lemma send_size_sent s : wf s -> size (sent (abs s)) = flight_size s.
Proof. intros W. destruct (send_counters s W). unfold size, abs; cbn. rewrite length_ring_read. lia. Qed.

Lemma send_size_pending s : wf s -> size (pending (abs s)) = unsent_octets s.
Proof.
  intros W. destruct (send_counters s W) as (? & ? & ? & _).
  unfold size, abs; cbn. rewrite length_ring_read. lia.
Qed.

Lemma send_write_refines s input :
  wf s -> let (n, s') := write s input in wf s' /\ (n, abs s') = fifo_write (abs s) input.
Proof.
  intros W. pose proof (send_write_counters s input W) as H.
  destruct (write s input) as [n s'].
  destruct H as (W' & Hn & Hst & Hh & Hb & _ & Hf & Hq & _).
  destruct (send_counters s W) as (Cf & Cq & Cu & Cr & _).
  destruct (send_counters s' W') as (_ & _ & Cu' & _).
  split; [done|]. unfold fifo_write. rewrite send_size_sent, send_size_pending by done.
  replace (capacity (abs s) - flight_size s - unsent_octets s) with (writable_octets s)
    by (unfold abs; cbn; lia).
  assert (take (Z.to_nat n) input = take (Z.to_nat (writable_octets s)) input) as Et.
  { subst n. unfold size. destruct (Z.min_spec (Z.of_nat (List.length input)) (writable_octets s)) as [[? ->]|[? ->]].
    - rewrite !take_ge by lia. done.
    - done. }
  rewrite <- Et.
  assert (List.length (take (Z.to_nat n) input) = Z.to_nat n) as El
    by (rewrite length_take; unfold size in Hn; lia).
  assert (0 <= n) by (unfold size in Hn; lia).
  f_equal; [unfold size; rewrite El; lia|].
  unfold abs; cbn. rewrite Hst, Hh, Hf, Hb, size_ring_write. f_equal.
  - apply ring_read_write_before; lia.
  - replace (Z.to_nat (unsent_octets s')) with (Z.to_nat (unsent_octets s) + Z.to_nat n)%nat by lia.
    rewrite ring_read_app. f_equal.
    + apply ring_read_write_before; lia.
    + replace (flight_size s + Z.of_nat (Z.to_nat (unsent_octets s))) with (queued_octets s) by lia.
      pose proof (ring_read_write (storage_ s) (head_ s) (queued_octets s) (take (Z.to_nat n) input)) as R.
      rewrite El in R. apply R; lia.
Qed.

Lemma send_copy_refines s r out :
  wf s -> range_is_current s r = true -> is_u32 (sequence r) -> is_u32 (length r) ->
  length r <= out ->
  copy s r out = Some (fifo_slice (abs s) (sequence r ⊟ send_unacknowledged_ s) (length r)).
Proof.
  intros W Hr Is Il Ho. pose proof (send_range_current s r W Hr Is Il) as (Hl & _ & H0 & Hq & _).
  unfold copy, fifo_slice. rewrite Hr, send_abs_retained by done.
  replace (out <? length r) with false by lia. cbn [negb orb]. f_equal.
  unfold retained. rewrite drop_ring_read, take_ring_read by lia.
  f_equal. lia.
Qed.

Lemma send_commit_refines s r :
  wf s -> range_is_current s r = true -> is_u32 (sequence r) -> is_u32 (length r) ->
  let (ok, s') := commit s r in
  ok = true /\ wf s' /\ abs s' = fifo_send (abs s) (if retransmission r then 0 else length r).
Proof.
  intros W Hr Is Il. pose proof (send_commit_counters s r W Hr Is Il) as H.
  destruct (commit s r) as [ok s']. cbv zeta in H. set (n := if retransmission r then _ else _) in *.
  destruct H as (Hok & W' & Hst & Hh & Hb & Hq & Hf & Hn & _).
  destruct (send_counters s W) as (Cf & Cq & Cu & _).
  destruct (send_counters s' W') as (Cf' & _ & Cu' & _).
  split; [done|]. split; [done|]. unfold abs, fifo_send; cbn. rewrite Hst, Hh, Hb, Hf.
  rewrite take_ring_read, drop_ring_read by lia. f_equal.
  - replace (Z.to_nat (flight_size s + n)) with (Z.to_nat (flight_size s) + Z.to_nat n)%nat by lia.
    rewrite ring_read_app. do 2 f_equal. lia.
  - f_equal; lia.
Qed.

Lemma send_acknowledge_refines s ack :
  wf s -> is_u32 ack ->
  let '(_, n, s') := acknowledge s ack in
  wf s' /\ abs s' = fifo_release (abs s) n
  /\ let o := ack ⊟ base (abs s) in
     n = if (0 <? o) && (o <=? size (sent (abs s))) then o else 0.
Proof.
  intros W Ia. pose proof (send_acknowledge_counters s ack W Ia) as H.
  destruct (acknowledge s ack) as [[st n] s']. cbv zeta in *.
  rewrite send_size_sent by done. cbn [abs base]. destruct H as (W' & Hin & Hout).
  destruct (send_counters s W) as (Cf & Cq & Cu & _).
  destruct (send_counters s' W') as (Cf' & _ & Cu' & _).
  assert (is_u32 (send_unacknowledged_ s)) by apply W.
  split; [done|]. destruct (_ && _) eqn:E.
  - bool_to_prop. destruct Hin as (_ & Hn & Hst & Hh & Hb & Hq & Hf & _); [lia|]. split; [|done].
    unfold abs, fifo_release; cbn.
    assert (size (storage_ s') = size (storage_ s)) as Es by (rewrite Hst; apply size_ring_write).
    assert (forall a m, 0 <= a -> n + a + Z.of_nat m <= size (storage_ s) ->
              ring_read (storage_ s') (head_ s') a m = ring_read (storage_ s) (head_ s) (n + a) m) as Hrd.
    { intros a m Ha Hm. rewrite Hh, <- Es, ring_read_shift, Hst.
      apply ring_read_write_after; rewrite ?length_replicate; lia. }
    rewrite Es, Hb, drop_ring_read, !Hrd by lia. f_equal.
    + rewrite Hn, wadd_wsub by done. done.
    + f_equal; lia.
    + f_equal; lia.
  - destruct Hout as (-> & -> & _); [blia|]. split; [|done].
    unfold fifo_release. cbn. rewrite Z.add_0_r, u32_id, drop_0 by done. done.
Qed.

(** C15: the circular arena implements a bounded FIFO of octets.  [write] appends
    the longest prefix that fits, [copy] of a current range is the slice of the
    queue at the range's offset, committing a new range moves exactly its octets
    from pending to in flight and committing a retransmission moves nothing, and
    an acknowledgment inside (SND.UNA, SND.NXT] removes exactly the octets it
    covers while any other one removes nothing. *)
Theorem send_buffer_refines_fifo s :
  wf s ->
  (forall input, let (n, s') := write s input in wf s' /\ (n, abs s') = fifo_write (abs s) input)
  /\ (forall r, range_is_current s r = true -> is_u32 (sequence r) -> is_u32 (length r) ->
        copy s r (length r) = Some (fifo_slice (abs s) (sequence r ⊟ base (abs s)) (length r))
        /\ let (ok, s') := commit s r in
           ok = true /\ wf s' /\ abs s' = fifo_send (abs s) (if retransmission r then 0 else length r))
  /\ (forall r out, range_is_current s r = false -> copy s r out = None /\ commit s r = (false, s))
  /\ (forall ack, is_u32 ack ->
        let '(_, n, s') := acknowledge s ack in
        wf s' /\ abs s' = fifo_release (abs s) n
        /\ let o := ack ⊟ base (abs s) in
           n = if (0 <? o) && (o <=? size (sent (abs s))) then o else 0).
Proof.
  intros W. split; [|split; [|split]].
  - intros. now apply send_write_refines.
  - intros r Hr Is Il. split; [|now apply send_commit_refines].
    apply send_copy_refines; try done; lia.
  - intros r out Hr. unfold copy, commit. rewrite Hr. done.
  - intros. now apply send_acknowledge_refines.
Qed.

Definition sample : t := snd (write (construct (replicate 8 7) (two32 - 3)) [11; 12; 13; 14; 15]).

Lemma send_wf_sample : wf sample.
Proof. unfold wf. vm_compute. intuition congruence. Qed.

Example send_buffer_refines_fifo_witness :
  snd (write sample [21; 22; 23; 24]) = snd (write sample [21; 22; 23])
  /\ fst (write sample [21; 22; 23; 24]) = fst (fifo_write (abs sample) [21; 22; 23; 24]).
Proof.
  split; [reflexivity|].
  pose proof (proj1 (send_buffer_refines_fifo sample send_wf_sample) [21; 22; 23; 24]) as H.
  destruct (write sample [21; 22; 23; 24]) as [n s'] eqn:E. destruct H as [_ H].
  exact (f_equal fst H).
Defined.

(** The converse of [send_range_current]. *)
Lemma send_range_current_intro s seq len ret (W : wf s) :
  let o := seq ⊟ send_unacknowledged_ s in
  0 < len -> o + len <= queued_octets s ->
  (if ret : bool then o + len <= flight_size s else seq = send_next_ s) ->
  range_is_current s (mkRange seq len (generation_ s) ret) = true.
Proof.
  cbv zeta. intros Hl Hq Hr. destruct (send_counters s W) as (Cf & Cq & Cu & _).
  unfold range_is_current; cbn. rewrite Z.eqb_refl. destruct W as (V & _). rewrite V.
  replace (len =? 0) with false by lia. cbn.
  replace (_ || _) with false by blia. destruct ret; [blia|].
  subst seq. rewrite Z.eqb_refl. unfold flight_size in *. rewrite V in *. blia.
Qed.

Lemma send_prepare_current s r maximum at_ :
  wf s -> is_u32 maximum -> is_u32 at_ ->
  r = prepare_new s maximum \/ r = prepare_retransmission s maximum
    \/ r = prepare_retransmission_at s at_ maximum ->
  range_present r = true ->
  range_is_current s r = true /\ length r <= maximum /\ is_u32 (sequence r) /\ is_u32 (length r).
Proof.
  intros W Im Ia Hr Hp. destruct (send_counters s W) as (Cf & Cq & Cu & _).
  pose proof (send_flight s W) as Ef.
  pose proof W as (V & Hs & Iu & In & Iw & _).
  unfold prepare_new, prepare_retransmission, prepare_retransmission_at in Hr. rewrite V in Hr.
  destruct Hr as [->|[->| ->]]; case_if; try done; unfold range_present in Hp; cbn in Hp; bool_to_prop;
    cbn; (split; [apply send_range_current_intro; try done|]); rewrite ?wsub_diag, <- ?Ef; try lia;
    try (repeat split; done || word).
  - unfold Sequence.before, Sequence.half_space in *. bool_to_prop. word.
  - unfold Sequence.before, Sequence.half_space in *. bool_to_prop. word.
Qed.

(** Preparing changes nothing and a prepared range is an intent for the state
    it was prepared in: a nonempty one is current there, and every write that
    accepts octets, every commit and every ACK that advances SND.UNA makes it
    stale, so no range is ever committed twice. *)
Theorem send_two_phase s r maximum at_ :
  wf s -> is_u32 maximum -> is_u32 at_ ->
  r = prepare_new s maximum \/ r = prepare_retransmission s maximum
    \/ r = prepare_retransmission_at s at_ maximum ->
  range_present r = true ->
  range_is_current s r = true /\ length r <= maximum
  /\ range_is_current (snd (commit s r)) r = false
  /\ (forall input, fst (write s input) <> 0 -> range_is_current (snd (write s input)) r = false)
  /\ (forall ack, is_u32 ack -> fst (fst (acknowledge s ack)) = advanced ->
        range_is_current (snd (acknowledge s ack)) r = false).
Proof.
  intros W Im Ia Hr Hp.
  destruct (send_prepare_current s r maximum at_ W Im Ia Hr Hp) as (Hc & Hl & Is & Il).
  pose proof (send_range_current s r W Hc Is Il) as (_ & Hgen & _).
  assert (is_u64 (generation_ s)) as Ig by apply W.
  assert (forall s', generation_ s' = u64 (generation_ s + 1) -> range_is_current s' r = false) as Stale.
  { intros s' Es. unfold range_is_current. rewrite Es, Hgen.
    replace (generation_ s =? u64 (generation_ s + 1)) with false by word.
    cbn. now rewrite orb_true_r. }
  repeat split; try done.
  - apply Stale. pose proof (send_commit_counters s r W Hc Is Il) as H.
    destruct (commit s r). cbn. apply H.
  - intros input Hn. apply Stale. pose proof (send_write_counters s input W) as H.
    destruct (write s input) as [n s']. cbn in *. destruct H as (_ & _ & _ & _ & _ & _ & _ & _ & ->).
    now replace (n =? 0) with false by lia.
  - intros ack Ik Ha. apply Stale. pose proof (send_acknowledge_counters s ack W Ik) as H.
    destruct (acknowledge s ack) as [[st n] s']. cbn in *. subst st. destruct H as (_ & Hi & Ho).
    destruct (decide (0 < ack ⊟ send_unacknowledged_ s <= flight_size s)) as [D|D].
    + now apply Hi.
    + destruct (Ho D) as (_ & _ & [?|?]); done.
Qed.

Example send_two_phase_witness :
  range_is_current (snd (commit sample (prepare_new sample 4))) (prepare_new sample 4) = false.
Proof.
  apply (send_two_phase sample (prepare_new sample 4) 4 0).
  - exact send_wf_sample.
  - vm_compute. split; congruence.
  - vm_compute. split; congruence.
  - now left.
  - reflexivity.
Defined.

(** ** The stream behind the queue

    [written] is every octet [write] ever accepted and [released] the number the
    peer has acknowledged, both unbounded.  The repository holds the rest. *)
Record history := mkHistory { buffer : t; written : list Z; released : Z }.

Definition consistent (isn : Z) (h : history) : Prop :=
  wf (buffer h) /\ is_u32 isn
  /\ 0 <= released h
  /\ send_unacknowledged_ (buffer h) = isn ⊞ released h
  /\ released h + queued_octets (buffer h) = size (written h)
  /\ retained (buffer h) = drop (Z.to_nat (released h)) (written h).

Inductive event :=
| Write (input : list Z)
| Commit (r : PreparedSendRange)
| Acknowledge (ack : Z).

Definition well_typed (e : event) : Prop :=
  match e with
  | Write _ => True
  | Commit r => is_u32 (sequence r) /\ is_u32 (length r)
  | Acknowledge ack => is_u32 ack
  end.

Definition advance (h : history) (e : event) : history :=
  match e with
  | Write input =>
      let (n, b) := write (buffer h) input in
      mkHistory b (written h ++ take (Z.to_nat n) input) (released h)
  | Commit r => mkHistory (snd (commit (buffer h) r)) (written h) (released h)
  | Acknowledge ack =>
      let '(_, n, b) := acknowledge (buffer h) ack in mkHistory b (written h) (released h + n)
  end.

Lemma send_retained_size s : wf s -> List.length (retained s) = Z.to_nat (queued_octets s).
Proof. intros W. unfold retained. now rewrite length_ring_read. Qed.

Lemma send_consistent_init storage isn :
  0 < size storage <= two30 -> is_u32 isn -> consistent isn (mkHistory (construct storage isn) [] 0).
Proof.
  intros Hs Hi. assert (W := send_wf_construct storage isn Hs Hi).
  assert (queued_octets (construct storage isn) = 0) as E
    by (rewrite send_queued by done; apply wsub_diag).
  unfold consistent; cbn [buffer written released]. unfold retained. rewrite E.
  split; [done|]. split; [done|]. split; [lia|]. split; [|done].
  change (isn = isn ⊞ 0). now rewrite Z.add_0_r, u32_id.
Qed.

Lemma send_consistent_advance isn h e :
  consistent isn h -> well_typed e -> consistent isn (advance h e).
Proof.
  destruct h as [s w n0]. intros (W & Hi & H0 & Hu & Hw & Hr) He; cbn in *.
  destruct (send_counters s W) as (Cf & Cq & _).
  destruct e as [input|r|ack]; cbn in He.
  - unfold advance; cbn. pose proof (send_write_counters s input W) as H.
    pose proof (send_write_refines s input W) as R.
    destruct (write s input) as [n s'] eqn:Ew. destruct R as [_ R].
    destruct H as (W' & Hn & Hst & Hh & Hb & _ & _ & Hq & _).
    assert (List.length (take (Z.to_nat n) input) = Z.to_nat n) as El
      by (rewrite length_take; unfold size in Hn; lia).
    destruct (send_counters s' W') as (Cf' & Cq' & _).
    assert (0 <= n) by (unfold size in Hn; destruct (send_counters s W) as (_ & _ & _ & Cr & _); lia).
    split; [done|]. cbn. rewrite Hb, Hq. split_and!; try done.
    + unfold size in Hw |- *. rewrite length_app, El. lia.
    + rewrite drop_app_le by (unfold size in Hw; lia). rewrite <- Hr.
      unfold retained. rewrite Hst, Hh, Hq.
      replace (Z.to_nat (queued_octets s + n)) with (Z.to_nat (queued_octets s) + Z.to_nat n)%nat by lia.
      assert (size (storage_ s') = size (storage_ s)) as Es by (rewrite Hst; apply size_ring_write).
      rewrite ring_read_app. f_equal; [apply ring_read_write_before; lia|].
      replace (0 + Z.of_nat (Z.to_nat (queued_octets s))) with (queued_octets s) by lia.
      pose proof (ring_read_write (storage_ s) (head_ s) (queued_octets s) (take (Z.to_nat n) input)) as RW.
      rewrite El in RW. apply RW; lia.
  - unfold advance; cbn. destruct (range_is_current s r) eqn:Ec.
    + pose proof (send_commit_counters s r W Ec (proj1 He) (proj2 He)) as H.
      destruct (commit s r) as [ok s']. destruct H as (_ & W' & Hst & Hh & Hb & Hq & _).
      split; [done|]; cbn. unfold retained. rewrite Hb, Hq, Hst, Hh. split_and!; done.
    + unfold commit. rewrite Ec. split; done.
  - unfold advance; cbn. pose proof (send_acknowledge_refines s ack W He) as R.
    pose proof (send_acknowledge_counters s ack W He) as H.
    destruct (acknowledge s ack) as [[st n] s']. cbv zeta in *.
    destruct R as (W' & R & Hn). rewrite send_size_sent in Hn by done. cbn [abs base] in Hn.
    assert (0 <= n <= flight_size s) as Hn' by (destruct (_ && _) eqn:E in Hn; bool_to_prop; lia).
    assert (queued_octets s' = queued_octets s - n) as Hq.
    { destruct H as (_ & Hin & Hout).
      destruct (decide (0 < ack ⊟ send_unacknowledged_ s <= flight_size s)) as [D|D].
      - now apply Hin.
      - destruct (Hout D) as (-> & -> & _). lia. }
    split; [done|]. cbn. split; [done|]. split; [lia|]. split; [|split; [lia|]].
    + apply (f_equal base) in R. cbn in R. rewrite R, Hu. clear. word.
    + rewrite <- send_abs_retained, R by done. unfold fifo_release; cbn [sent pending].
      rewrite <- drop_app_le.
      * rewrite send_abs_retained, Hr, drop_drop by done. f_equal. lia.
      * pose proof (send_size_sent s W) as Es. unfold size in Es. lia.
Qed.

Definition run (h : history) (es : list event) : history := fold_left advance es h.

Lemma send_consistent_run isn h es :
  consistent isn h -> Forall well_typed es -> consistent isn (run h es).
Proof.
  intros Hc Hes. revert h Hc. induction Hes as [|e es He Hes IH]; intros h Hc; cbn; [done|].
  apply IH. now apply send_consistent_advance.
Qed.

(** Every range a consistent history can copy is a slice of the stream. *)
Lemma send_copy_stream isn h r out :
  consistent isn h -> range_is_current (buffer h) r = true ->
  is_u32 (sequence r) -> is_u32 (length r) -> length r <= out ->
  let p := released h + (sequence r ⊟ send_unacknowledged_ (buffer h)) in
  released h <= p /\ p + length r <= size (written h) /\ sequence r = isn ⊞ p
  /\ copy (buffer h) r out
     = Some (take (Z.to_nat (length r)) (drop (Z.to_nat p) (written h))).
Proof.
  intros (W & Hi & H0 & Hu & Hw & Hr) Hc Is Il Ho. cbv zeta.
  pose proof (send_range_current _ r W Hc Is Il) as (Hl & _ & Ho0 & Hoq & _).
  split_and!; [lia|lia| |].
  - rewrite Hu. clear -Is. word.
  - rewrite send_copy_refines by done. unfold fifo_slice.
    rewrite send_abs_retained, Hr, drop_drop by done. do 3 f_equal. lia.
Qed.

(** Whatever is written, sent, acknowledged and retransmitted, in any order
    and across any number of sequence wraps, the octets copied for a current
    range with sequence number [isn + p] are the octets of the written stream
    from position [p] on, and [p] is not yet acknowledged. *)
Theorem send_stream storage isn es r out :
  0 < size storage <= two30 -> is_u32 isn -> Forall well_typed es ->
  let h := run (mkHistory (construct storage isn) [] 0) es in
  range_is_current (buffer h) r = true -> is_u32 (sequence r) -> is_u32 (length r) ->
  length r <= out ->
  exists p, released h <= p /\ p + length r <= size (written h) /\ sequence r = isn ⊞ p
    /\ copy (buffer h) r out
       = Some (take (Z.to_nat (length r)) (drop (Z.to_nat p) (written h))).
Proof.
  intros Hs Hi Hes h Hc Is Il Ho. eexists. apply (send_copy_stream isn); try done.
  apply send_consistent_run; [|done]. now apply send_consistent_init.
Qed.

Definition sample_events : list event :=
  [Write [1; 2; 3; 4; 5; 6; 7]; Commit (mkRange (two32 - 2) 4 2 false); Acknowledge 1;
   Write [8; 9; 10]].

Example send_stream_witness :
  exists p, released (run (mkHistory (construct (replicate 8 0) (two32 - 2)) [] 0) sample_events) <= p
    /\ p + 1 <= 10 /\ 1 = (two32 - 2) ⊞ p
    /\ copy (buffer (run (mkHistory (construct (replicate 8 0) (two32 - 2)) [] 0) sample_events))
         (mkRange 1 1 5 true) 1 = Some (take 1 (drop (Z.to_nat p) [1; 2; 3; 4; 5; 6; 7; 8; 9; 10])).
Proof.
  apply (send_stream (replicate 8 0) (two32 - 2) sample_events (mkRange 1 1 5 true) 1).
  - vm_compute. split; congruence.
  - vm_compute. split; congruence.
  - repeat constructor; vm_compute; congruence.
  - vm_compute. reflexivity.
  - vm_compute. split; congruence.
  - vm_compute. split; congruence.
  - vm_compute. congruence.
Defined.

(** ** Checkpoints *)

Lemma send_restore_checkpoint live s :
  wf s -> generation_ s <> 0 -> valid_ live = true -> size (storage_ live) = size (storage_ s) ->
  restore live (checkpoint s) = Some s.
Proof.
  intros (V & Hs & _ & _ & _ & Hb & Hh & _) Hg Vl El. unfold restore; cbn.
  rewrite El, Vl, Z.eqb_refl. cbn.
  replace (size (storage_ s) <=? head_ s) with false by lia.
  replace (generation_ s =? 0) with false by lia. cbn.
  replace (_ || _) with false by blia.
  destruct live, s; cbn in *. now subst.
Qed.

#[export] Instance checkpointed : Checkpointed t Checkpoint := {
  ck_wf s _ := wf s /\ generation_ s <> 0;
  ck_fits live s := valid_ live = true /\ size (storage_ live) = size (storage_ s);
  ck_save s _ := checkpoint s;
  ck_load live c _ := restore live c;
  ck_norm s _ := s;
  ck_load_save live s now H F :=
    send_restore_checkpoint live s (proj1 H) (proj2 H) (proj1 F) (proj2 F) }.

(** Restoring is sound and complete.  Whatever checkpoint [restore] accepts
    into a live repository leaves a state in which every operation is correct
    ([wf]) and which saves back as that checkpoint, and the checkpoint of a live
    state is accepted by any repository of the same capacity. *)
Theorem send_checkpoint s live c :
  wf s -> wf live ->
  (is_u32 (send_unacknowledged c) -> is_u32 (send_next c) -> is_u32 (write_next c) ->
   is_u32 (head c) -> is_u64 (ck_generation c) ->
   forall s', restore live c = Some s' -> wf s' /\ checkpoint s' = c)
  /\ (generation_ s <> 0 -> size (storage_ live) = size (storage_ s) ->
      restore live (checkpoint s) = Some s).
Proof.
  intros W (V & Hs & _). split.
  - intros Iu In Iw Ih Ig s' Hr. unfold restore in Hr.
    case_if_in Hr; [done|]. case_if_in Hr; [done|]. injection Hr as <-. bool_to_prop.
    destruct live as [st u n w h g v], c as [cs cu cn cw ch cg]. cbn in *.
    split; [|done]. unfold wf; cbn in *. rewrite E3. split_and!; try done; try lia; word.
  - intros Hg El. now apply send_restore_checkpoint.
Qed.

Example send_checkpoint_witness :
  restore (construct (replicate 8 3) 77) (checkpoint sample) = Some sample.
Proof.
  apply (send_checkpoint sample (construct (replicate 8 3) 77) (checkpoint sample) send_wf_sample).
  - apply send_wf_construct; [vm_compute; split; congruence|vm_compute; split; congruence].
  - vm_compute. congruence.
  - reflexivity.
Defined.

End SendBuffer.
