(* ===== verification/ReceiveBuffer.v ===== *)
(** * The TCP receive repository (core/src/transport/tcp_receive_buffer.cpp).

    The circular reassembly arena with its receipt bitmap: acceptance of
    segments in any order, the contiguous prefix RCV.NXT, application reads,
    SACK block generation, checkpoints. *)

From S2P Require Import Prelude Sequence Arena Blocks Checkpoint.
Import Arena Blocks.

Module ReceiveBuffer.

Inductive ReceiveInsertStatus := accepted | duplicate | outside_window | invalid.

#[export] Instance receive_status_eq_dec : EqDecision ReceiveInsertStatus.
Proof. solve_decision. Defined.

Record ReceiveInsertResult := mkResult {
  status : ReceiveInsertStatus;
  result_receive_next : Z;
  newly_stored : Z
}.

Record t := mk {
  storage_ : list Z;
  received_bitmap_ : list Z;
  read_sequence_ : Z;
  receive_next_ : Z;
  head_ : Z;
  valid_ : bool;
  recent_sequence_ : Z;
  recent_sequence_present_ : bool
}.
#[export] Instance t_settable : Settable t := fun s =>
  mk (storage_ s) (received_bitmap_ s) (read_sequence_ s) (receive_next_ s) (head_ s) (valid_ s)
     (recent_sequence_ s) (recent_sequence_present_ s).

Definition construct (storage received_bitmap : list Z) (initial_receive_sequence : Z) : t :=
  let valid := negb (size storage =? 0) && (size storage <=? two30)
               && (size received_bitmap =? (size storage + 7) / 8) in
  mk (if valid then replicate (length storage) 0 else storage)
     (if valid then replicate (length received_bitmap) 0 else received_bitmap)
     initial_receive_sequence initial_receive_sequence 0 valid 0 false.

(** The bit test and update of one receipt bitmap. *)
Definition bit_set (bitmap : list Z) (index : Z) : bool :=
  negb (Z.land (get bitmap (index / 8)) (u8 (Z.shiftl 1 (index mod 8))) =? 0).

Definition received (s : t) (physical_index : Z) : bool :=
  bit_set (received_bitmap_ s) physical_index.

Definition set_received (s : t) (physical_index : Z) (value : bool) : t :=
  let byte := get (received_bitmap_ s) (physical_index / 8) in
  let mask := u8 (Z.shiftl 1 (physical_index mod 8)) in
  s <| received_bitmap_ := put (received_bitmap_ s) (physical_index / 8)
         (if value then u8 (Z.lor byte mask) else u8 (Z.land byte (Z.lnot mask))) |>.

Definition physical (s : t) (offset : Z) : Z := Arena.physical (storage_ s) (head_ s) offset.

(** [fuel] bounds the iterations; the capacity is enough
    ([receive_advance_spec]). *)
Fixpoint advance_contiguous (fuel : nat) (s : t) : t :=
  match fuel with
  | O => s
  | S fuel =>
      let offset := receive_next_ s ⊟ read_sequence_ s in
      if offset <? size (storage_ s) then
        if negb (received s (physical s offset)) then s
        else advance_contiguous fuel (s <| receive_next_ := receive_next_ s ⊞ 1 |>)
      else s
  end.

(** The loop of [accept] over the admitted prefix of the payload. *)
Fixpoint store (s : t) (sequence offset : Z) (index : Z) (payload : list Z)
    (newly first_new : Z) : t * Z * Z :=
  match payload with
  | [] => (s, newly, first_new)
  | b :: payload =>
      let position := physical s (offset ⊞ index) in
      if received s position then store s sequence offset (index + 1) payload newly first_new
      else
        let s := s <| storage_ := put (storage_ s) position b |> in
        let s := set_received s position true in
        let first_new := if newly =? 0 then sequence ⊞ index else first_new in
        store s sequence offset (index + 1) payload (newly + 1) first_new
  end.

(** The second half of [accept]: what is left of the segment after trimming
    starts inside the window. *)
Definition place (s : t) (sequence offset : Z) (payload : list Z) : ReceiveInsertResult * t :=
  let admitted := Z.min (size payload) (size (storage_ s) - offset) in
  let '(s, newly_stored, first_new_sequence) :=
    store s sequence offset 0 (take (Z.to_nat admitted) payload) 0 0 in
  let s := if negb (newly_stored =? 0)
           then s <| recent_sequence_ := first_new_sequence |>
                  <| recent_sequence_present_ := true |>
           else s in
  let s := advance_contiguous (length (storage_ s)) s in
  (mkResult (if newly_stored =? 0 then duplicate else accepted) (receive_next_ s) newly_stored, s).

Definition accept (s : t) (sequence : Z) (payload : list Z) : ReceiveInsertResult * t :=
  if negb (valid_ s) then (mkResult invalid 0 0, s)
  else if size payload =? 0 then (mkResult duplicate (receive_next_ s) 0, s)
  else
    let old := if Sequence.before sequence (receive_next_ s) then receive_next_ s ⊟ sequence else 0 in
    if Sequence.before sequence (receive_next_ s) && (size payload <=? old)
    then (mkResult duplicate (receive_next_ s) 0, s)
    else
      let payload := drop (Z.to_nat old) payload in
      let sequence := if Sequence.before sequence (receive_next_ s) then receive_next_ s else sequence in
      let offset := sequence ⊟ read_sequence_ s in
      if size (storage_ s) <=? offset
      then (mkResult outside_window (receive_next_ s) 0, s)
      else
        place s sequence offset payload.

Definition readable_octets (s : t) : Z :=
  if valid_ s then receive_next_ s ⊟ read_sequence_ s else 0.

Definition advertised_window (s : t) : Z :=
  if negb (valid_ s) then 0
  else u32 (size (storage_ s)) ⊟ (receive_next_ s ⊟ read_sequence_ s).

(** The loop of [read]: octets come out in order as their bits are cleared. *)
Fixpoint take_out (s : t) (index : Z) (count : nat) : list Z * t :=
  match count with
  | O => ([], s)
  | S count =>
      let position := physical s index in
      let b := get (storage_ s) position in
      let (bs, s) := take_out (set_received s position false) (index + 1) count in
      (b :: bs, s)
  end.

(** [read] fills a prefix of an output of [output_size] octets. *)
Definition read (s : t) (output_size : Z) : list Z * t :=
  if negb (valid_ s) then ([], s)
  else
    let count := Z.min output_size (readable_octets s) in
    let (bs, s) := take_out s 0 (Z.to_nat count) in
    let s := s <| head_ := u32 ((head_ s + count) mod size (storage_ s)) |> in
    (bs, s <| read_sequence_ := read_sequence_ s ⊞ count |>).

(** *** SACK blocks *)

(** The scans of [block_at]; the capacity is enough fuel. *)
Fixpoint scan_left (fuel : nat) (s : t) (first_offset left : Z) : Z :=
  match fuel with
  | O => left
  | S fuel =>
      if (first_offset <? left) && received s (physical s (left - 1))
      then scan_left fuel s first_offset (left - 1) else left
  end.

Fixpoint scan_right (fuel : nat) (s : t) (right : Z) : Z :=
  match fuel with
  | O => right
  | S fuel =>
      if (right <? size (storage_ s)) && received s (physical s right)
      then scan_right fuel s (right + 1) else right
  end.

Definition block_at (s : t) (first_offset offset : Z) : option SackBlock :=
  if (offset <? first_offset) || (size (storage_ s) <=? offset)
     || negb (received s (physical s offset))
  then None
  else
    let left := scan_left (length (storage_ s)) s first_offset offset in
    let right := scan_right (length (storage_ s)) s (offset + 1) in
    Some (mkBlock (read_sequence_ s ⊞ left) (read_sequence_ s ⊞ right)).

(** The downward scan; [count] octets of the output are already written. *)
Fixpoint scan_blocks (fuel : nat) (s : t) (first_offset : Z) (recent : option SackBlock)
    (cursor count output_size : Z) : list SackBlock :=
  match fuel with
  | O => []
  | S fuel =>
      if (first_offset <? cursor) && (count <? output_size) then
        let cursor := cursor - 1 in
        if negb (received s (physical s cursor))
        then scan_blocks fuel s first_offset recent cursor count output_size
        else match block_at s first_offset cursor with
             | None => scan_blocks fuel s first_offset recent cursor count output_size
             | Some block =>
                 let cursor := left_edge block ⊟ read_sequence_ s in
                 if match recent with Some r => same_block block r | None => false end
                 then scan_blocks fuel s first_offset recent cursor count output_size
                 else block :: scan_blocks fuel s first_offset recent cursor (count + 1) output_size
             end
      else []
  end.

Definition sack_blocks (s : t) (output_size : Z) : list SackBlock :=
  if negb (valid_ s) || (output_size =? 0) then []
  else
    let first_offset := receive_next_ s ⊟ read_sequence_ s in
    if size (storage_ s) <=? first_offset then []
    else
      let recent := if recent_sequence_present_ s
                    then block_at s first_offset (recent_sequence_ s ⊟ read_sequence_ s)
                    else None in
      let count := if has_value recent then 1 else 0 in
      option_list recent
      ++ scan_blocks (length (storage_ s)) s first_offset recent (size (storage_ s)) count output_size.

(** *** Checkpoints *)

Record Checkpoint := mkCheckpoint {
  storage : list Z;
  ck_received : list Z;
  read_sequence : Z;
  receive_next : Z;
  head : Z;
  recent_sequence : Z;
  recent_sequence_present : bool
}.

Definition checkpoint (s : t) : Checkpoint :=
  mkCheckpoint (storage_ s) (received_bitmap_ s) (read_sequence_ s) (receive_next_ s) (head_ s)
    (recent_sequence_ s) (recent_sequence_present_ s).

(** Every bit of [first, first + n) *)
Definition all_bits (n : nat) (first : Z) (P : Z -> bool) : bool :=
  forallb (fun k => P (first + Z.of_nat k)) (seq 0 n).

Definition restore (s : t) (state : Checkpoint) : option t :=
  if negb (valid_ s) || negb (size (storage state) =? size (storage_ s))
     || negb (size (ck_received state) =? size (received_bitmap_ s))
     || (size (storage_ s) <=? head state)
     || (size (storage_ s) <? receive_next state ⊟ read_sequence state)
  then None
  else if negb (all_bits (Z.to_nat (receive_next state ⊟ read_sequence state)) 0
                  (fun offset => bit_set (ck_received state)
                                   ((head state + offset) mod size (storage state))))
  then None
  else if negb (all_bits (Z.to_nat (size (received_bitmap_ s) * 8 - size (storage_ s)))
                  (size (storage_ s)) (fun bit => negb (bit_set (ck_received state) bit)))
  then None
  else Some (s <| storage_ := storage state |>
               <| received_bitmap_ := ck_received state |>
               <| read_sequence_ := read_sequence state |>
               <| receive_next_ := receive_next state |>
               <| head_ := head state |>
               <| recent_sequence_ := recent_sequence state |>
               <| recent_sequence_present_ := recent_sequence_present state |>).

(** ** The receipt bitmap *)

Lemma bit_mask k : 0 <= k < 8 -> u8 (Z.shiftl 1 k) = 2 ^ k.
Proof.
  intros Hk. rewrite Z.shiftl_1_l. unfold u8. apply Z.mod_small.
  split; [lia|]. change 256 with (2 ^ 8). now apply Z.pow_lt_mono_r.
Qed.

(** The masked test is the test of one bit. *)
Lemma bit_set_testbit bitmap i :
  0 <= i -> bit_set bitmap i = Z.testbit (get bitmap (i / 8)) (i mod 8).
Proof.
  intros Hi. unfold bit_set. pose proof (Z.mod_pos_bound i 8).
  rewrite bit_mask by lia. set (b := get _ _). set (k := i mod 8) in *.
  destruct (Z.testbit b k) eqn:E.
  - replace (Z.land b (2 ^ k) =? 0) with false; [done|]. symmetry. apply Z.eqb_neq. intros C.
    apply (f_equal (fun z => Z.testbit z k)) in C.
    rewrite Z.land_spec, E, Z.pow2_bits_true, Z.bits_0 in C by lia. done.
  - replace (Z.land b (2 ^ k)) with 0; [done|]. symmetry. apply Z.bits_inj'. intros n Hn.
    rewrite Z.land_spec, Z.bits_0. destruct (Z.eq_dec n k) as [->|].
    + now rewrite E.
    + rewrite Z.pow2_bits_false by lia. apply andb_false_r.
Qed.

Lemma testbit_u8 z k : 0 <= k < 8 -> Z.testbit (u8 z) k = Z.testbit z k.
Proof.
  intros. unfold u8. change 256 with (2 ^ 8). rewrite Z.mod_pow2_bits_low by lia. done.
Qed.

Lemma testbit_update byte k j (v : bool) :
  0 <= k < 8 -> 0 <= j < 8 ->
  Z.testbit (if v then u8 (Z.lor byte (2 ^ k)) else u8 (Z.land byte (Z.lnot (2 ^ k)))) j
  = if k =? j then v else Z.testbit byte j.
Proof.
  intros Hk Hj. destruct v; rewrite testbit_u8 by lia.
  - rewrite Z.lor_spec, Z.pow2_bits_eqb by lia. destruct (k =? j); [apply orb_true_r|apply orb_false_r].
  - rewrite Z.land_spec, Z.lnot_spec, Z.pow2_bits_eqb by lia.
    destruct (k =? j); [apply andb_false_r|apply andb_true_r].
Qed.

(** Setting or clearing one receipt bit changes that bit alone. *)
Lemma received_set_received s i j v :
  0 <= i < 8 * size (received_bitmap_ s) -> 0 <= j ->
  received (set_received s i v) j = if i =? j then v else received s j.
Proof.
  intros Hi Hj. unfold received, set_received; cbn.
  rewrite !bit_set_testbit by lia. pose proof (Z.mod_pos_bound i 8). pose proof (Z.mod_pos_bound j 8).
  rewrite bit_mask by lia.
  rewrite get_put by lia. destruct (Z.eqb_spec (i / 8) (j / 8)) as [E|E].
  - rewrite testbit_update by lia. rewrite E.
    replace (i mod 8 =? j mod 8) with (i =? j) by blia. done.
  - replace (i =? j) with false by lia. done.
Qed.

(** ** The window as a partial map

    [slot s o] is the octet received at offset [o] above the read sequence. *)
Definition slot (s : t) (o : Z) : option Z :=
  if received s (physical s o) then Some (ring_get (storage_ s) (head_ s) o) else None.

Definition sized (s : t) : Prop :=
  valid_ s = true /\ 0 < size (storage_ s) <= two30
  /\ size (received_bitmap_ s) = (size (storage_ s) + 7) / 8
  /\ 0 <= head_ s < size (storage_ s) /\ is_u32 (read_sequence_ s) /\ is_u32 (receive_next_ s).

(** Everything below RCV.NXT is present and lies in the arena. *)
Definition wf (s : t) : Prop :=
  sized s
  /\ receive_next_ s ⊟ read_sequence_ s <= size (storage_ s)
  /\ forall o, 0 <= o < receive_next_ s ⊟ read_sequence_ s -> slot s o <> None.

(** RCV.NXT stands at the first hole. *)
Definition settled (s : t) : Prop :=
  let k := receive_next_ s ⊟ read_sequence_ s in
  k < size (storage_ s) -> slot s k = None.

Lemma receive_bitmap_covers s i :
  sized s -> 0 <= i < size (storage_ s) -> 0 <= i < 8 * size (received_bitmap_ s).
Proof. intros (_ & _ & -> & _). lia. Qed.

Lemma receive_physical_range s o :
  sized s -> 0 <= physical s o < size (storage_ s).
Proof. intros (_ & H & _). apply physical_range. lia. Qed.

Lemma slot_none s o : slot s o = None <-> received s (physical s o) = false.
Proof. unfold slot. destruct (received _ _); split; congruence. Qed.

(** The parts of the state that [accept] never touches. *)
Definition frame (s : t) := (size (storage_ s), read_sequence_ s, head_ s, valid_ s).

Lemma frame_inv s s' :
  frame s' = frame s ->
  size (storage_ s') = size (storage_ s) /\ read_sequence_ s' = read_sequence_ s
  /\ head_ s' = head_ s /\ valid_ s' = valid_ s.
Proof. unfold frame. intros [= -> -> -> ->]. done. Qed.

Lemma slot_put s a b o :
  sized s -> 0 <= a < size (storage_ s) -> 0 <= o < size (storage_ s) ->
  let s' := set_received (s <| storage_ := put (storage_ s) (physical s a) b |>) (physical s a) true in
  sized s' /\ frame s' = frame s /\ slot s' o = if a =? o then Some b else slot s o.
Proof.
  intros Hs Ha Ho. pose proof (receive_physical_range s a Hs) as Pa.
  pose proof (receive_physical_range s o Hs) as Po.
  pose proof (receive_bitmap_covers s _ Hs Pa) as Ba. cbv zeta.
  set (s1 := s <| storage_ := _ |>).
  assert (size (storage_ s1) = size (storage_ s)) as E1 by (cbn; apply size_put).
  assert (forall x, physical (set_received s1 (physical s a) true) x = physical s x) as Ep.
  { intros x. unfold physical, Arena.physical. cbn. now rewrite size_put. }
  split; [|split].
  - destruct Hs as (? & ? & ? & ?). unfold sized; cbn. rewrite !size_put. done.
  - unfold frame; cbn. now rewrite size_put.
  - unfold slot. rewrite Ep, received_set_received by (done || lia).
    change (storage_ (set_received s1 _ true)) with (put (storage_ s) (physical s a) b).
    change (head_ (set_received s1 _ true)) with (head_ s). unfold physical.
    rewrite ring_get_put by done. change (received s1) with (received s).
    destruct (Z.eqb_spec a o) as [->|Hne]; [now rewrite Z.eqb_refl|].
    destruct (Z.eqb_spec (Arena.physical (storage_ s) (head_ s) a)
                (Arena.physical (storage_ s) (head_ s) o)) as [E|]; [|done].
    apply physical_inj in E; done.
Qed.

Lemma slot_clear s a o :
  sized s -> 0 <= a < size (storage_ s) -> 0 <= o < size (storage_ s) ->
  let s' := set_received s (physical s a) false in
  sized s' /\ frame s' = frame s /\ slot s' o = if a =? o then None else slot s o.
Proof.
  intros Hs Ha Ho. pose proof (receive_physical_range s a Hs) as Pa.
  pose proof (receive_physical_range s o Hs) as Po.
  pose proof (receive_bitmap_covers s _ Hs Pa) as Ba. cbv zeta.
  split; [|split; [done|]].
  - destruct Hs as (? & ? & ? & ?). unfold sized; cbn. now rewrite size_put.
  - unfold slot. change (physical (set_received s (physical s a) false)) with (physical s).
    rewrite received_set_received by lia.
    destruct (Z.eqb_spec a o) as [->|Hne]; [now rewrite Z.eqb_refl|].
    destruct (Z.eqb_spec (physical s a) (physical s o)) as [E|]; [|done].
    apply physical_inj in E; done.
Qed.

(** What arrives fills holes and never overwrites. *)
Definition overlay (have : option Z) (payload : list Z) (start o : Z) : option Z :=
  match have with
  | Some b => Some b
  | None => if start <=? o then payload !! Z.to_nat (o - start) else None
  end.

Lemma overlay_cons b payload have start o :
  overlay have (b :: payload) start o
  = overlay (if start =? o then overlay have [b] start o else have) payload (start + 1) o.
Proof.
  unfold overlay. destruct have; [now destruct (start =? o)|].
  destruct (Z.eqb_spec start o) as [->|Hne].
  - rewrite Z.sub_diag, Z.leb_refl. done.
  - destruct (Z.leb_spec start o); destruct (Z.leb_spec (start + 1) o); try lia; try done.
    replace (Z.to_nat (o - start)) with (S (Z.to_nat (o - (start + 1)))) by lia. done.
Qed.

Lemma receive_store_spec s sequence offset index payload newly first_new :
  sized s -> 0 <= offset -> 0 <= index -> 0 <= newly ->
  offset + index + Z.of_nat (length payload) <= size (storage_ s) ->
  let '(s', n, f) := store s sequence offset index payload newly first_new in
  sized s' /\ frame s' = frame s /\ receive_next_ s' = receive_next_ s
  /\ recent_sequence_ s' = recent_sequence_ s
  /\ recent_sequence_present_ s' = recent_sequence_present_ s
  /\ (forall o, 0 <= o < size (storage_ s) ->
        slot s' o = overlay (slot s o) payload (offset + index) o)
  /\ newly <= n /\ (n = newly -> s' = s)
  /\ (newly <> 0 -> f = first_new)
  /\ (newly = 0 -> n <> 0 -> exists j, index <= j < index + Z.of_nat (length payload)
        /\ f = sequence ⊞ j /\ slot s (offset + j) = None).
Proof.
  revert s index newly first_new.
  induction payload as [|b payload IH]; intros s index newly first_new Hs Ho Hi Hn Hl.
  - cbn. split_and!; try done; try lia.
    intros o _. unfold overlay. destruct (slot s o); [done|]. case_if; [now rewrite lookup_nil|done].
  - cbn [store length] in *.
    assert (offset ⊞ index = offset + index) as Ew
      by (apply u32_id; destruct Hs as (_ & ? & _); unfold is_u32; lia).
    rewrite Ew. set (a := offset + index) in *.
    destruct (received s (physical s a)) eqn:Er.
    + specialize (IH s (index + 1) newly first_new Hs Ho ltac:(lia) Hn ltac:(lia)).
      destruct (store s sequence offset (index + 1) payload newly first_new) as [[s' n] f].
      destruct IH as (H1 & H2 & H3 & H4 & H5 & H6 & H7 & H8 & H9 & H10).
      split_and!; try done.
      * intros o Hoo. rewrite H6 by done. rewrite overlay_cons.
        replace (offset + (index + 1)) with (a + 1) by lia. f_equal.
        destruct (Z.eqb_spec a o) as [<-|]; [|done]. unfold slot. now rewrite Er.
      * intros E0 En. destruct (H10 E0 En) as (j & ? & ? & ?). exists j. split_and!; try done; lia.
    + assert (0 <= a < size (storage_ s)) as Ha by lia.
      set (s1 := set_received _ _ _).
      assert (forall o, 0 <= o < size (storage_ s) ->
        sized s1 /\ frame s1 = frame s /\ slot s1 o = if a =? o then Some b else slot s o) as Hput
        by (intros; now apply slot_put).
      destruct (Hput a Ha) as (Hs1 & Hf1 & _).
      assert (size (storage_ s1) = size (storage_ s)) as Es1 by apply (frame_inv _ _ Hf1).
      set (f1 := if newly =? 0 then _ else _).
      specialize (IH s1 (index + 1) (newly + 1) f1 Hs1 Ho ltac:(lia) ltac:(lia) ltac:(lia)).
      destruct (store s1 sequence offset (index + 1) payload (newly + 1) f1) as [[s' n] f].
      destruct IH as (H1 & H2 & H3 & H4 & H5 & H6 & H7 & H8 & H9 & H10).
      split_and!; try done; try lia.
      * congruence.
      * intros o Hoo. rewrite H6 by lia. rewrite overlay_cons.
        replace (offset + (index + 1)) with (a + 1) by lia. f_equal.
        destruct (Hput o Hoo) as (_ & _ & ->). destruct (Z.eqb_spec a o) as [<-|]; [|done].
        assert (slot s a = None) as -> by now apply slot_none.
        unfold overlay. now rewrite Z.leb_refl, Z.sub_diag.
      * intros Hne. rewrite H9 by lia. unfold f1. now replace (newly =? 0) with false by lia.
      * intros E0 _. exists index. split_and!; [lia|lia| |].
        -- rewrite H9 by lia. unfold f1. now rewrite E0.
        -- now apply slot_none.
Qed.

(** The offset of RCV.NXT, that is, the number of readable octets. *)
Definition prefix (s : t) : Z := receive_next_ s ⊟ read_sequence_ s.

Lemma receive_next_prefix s : sized s -> receive_next_ s = read_sequence_ s ⊞ prefix s.
Proof. intros (_ & _ & _ & _ & H1 & H2). unfold prefix. word. Qed.

Lemma receive_advance_spec fuel s :
  sized s -> prefix s <= size (storage_ s) -> size (storage_ s) - prefix s <= Z.of_nat fuel ->
  let s' := advance_contiguous fuel s in
  sized s' /\ frame s' = frame s /\ (forall o, slot s' o = slot s o)
  /\ recent_sequence_ s' = recent_sequence_ s
  /\ recent_sequence_present_ s' = recent_sequence_present_ s
  /\ prefix s <= prefix s' <= size (storage_ s)
  /\ (forall o, prefix s <= o < prefix s' -> slot s o <> None)
  /\ settled s'.
Proof.
  revert s. induction fuel as [|fuel IH]; intros s Hs Hk Hf; cbn zeta.
  - cbn [advance_contiguous]. split_and!; try done; try lia. intros C; fold (prefix s) in C; lia.
  - cbn [advance_contiguous]. fold (prefix s). case_if; [case_if|].
    + split_and!; try done; try lia. intros _. now apply slot_none.
    + set (s1 := s <| receive_next_ := _ |>).
      assert (prefix s1 = prefix s + 1) as Ek.
      { destruct Hs as (_ & ? & _ & _ & ? & ?). unfold s1, prefix in *; cbn. word. }
      assert (sized s1) as Hs1.
      { destruct Hs as (?&?&?&?&?&?). pose proof (u32_range (receive_next_ s + 1)). unfold sized; cbn. tauto. }
      specialize (IH s1 Hs1).
      assert (size (storage_ s1) = size (storage_ s)) as Es by done. rewrite Es, Ek in IH.
      destruct IH as (H1 & H2 & H3 & H4 & H5 & H6 & H7 & H8); [lia|lia|].
      split_and!; try done; try lia.
      intros o Ho. destruct (Z.eq_dec o (prefix s)) as [->|].
      * rewrite slot_none. congruence.
      * apply (H7 o). lia.
    + split_and!; try done; try lia. intros C; fold (prefix s) in C; lia.
Qed.

Lemma lookup_drop_Z (l : list Z) a i : 0 <= a -> 0 <= i ->
  drop (Z.to_nat a) l !! Z.to_nat i = l !! Z.to_nat (a + i).
Proof. intros. rewrite lookup_drop. f_equal. lia. Qed.

(** What a segment that starts at offset [d] does to the state. *)
Definition laid_over (s : t) (d : Z) (payload : list Z) (r : ReceiveInsertResult) (s' : t) : Prop :=
  wf s' /\ settled s' /\ frame s' = frame s
  /\ (forall o, 0 <= o < size (storage_ s) -> slot s' o = overlay (slot s o) payload d o)
  /\ prefix s <= prefix s'
  /\ result_receive_next r = receive_next_ s'
  /\ status r <> invalid
  /\ (status r = accepted <-> newly_stored r <> 0)
  /\ (status r <> accepted -> s' = s)
  /\ (status r = accepted -> recent_sequence_present_ s' = true
        /\ exists o, 0 <= o < size (storage_ s) /\ d <= o < d + size payload
             /\ slot s o = None /\ recent_sequence_ s' = read_sequence_ s ⊞ o).

(** The slots below RCV.NXT and those outside the segment keep their octets. *)
Lemma receive_overlay_skip s d payload o :
  wf s -> 0 <= o -> o < prefix s \/ o < d \/ d + size payload <= o ->
  overlay (slot s o) payload d o = slot s o.
Proof.
  intros (_ & _ & Hp) Ho H. unfold overlay. specialize (Hp o). fold (prefix s) in Hp.
  destruct (slot s o); [done|]. destruct H as [H|H]; [exfalso; apply Hp; [lia|done]|].
  case_if; [|done]. rewrite lookup_ge_None_2; [done|]. unfold size in H. lia.
Qed.

Lemma receive_laid_over_refl s d payload st :
  wf s -> settled s -> st = duplicate \/ st = outside_window ->
  (forall o, 0 <= o < size (storage_ s) -> o < prefix s \/ o < d \/ d + size payload <= o) ->
  laid_over s d payload (mkResult st (receive_next_ s) 0) s.
Proof.
  intros W Hset Hst Hd. unfold laid_over; cbn.
  split_and!; try done; try lia; try (now destruct Hst; subst).
  - intros o Ho. symmetry. apply receive_overlay_skip; try done; [lia|]. now apply Hd.
Qed.

Lemma receive_advance_settled fuel s : settled s -> advance_contiguous fuel s = s.
Proof.
  intros Hs. destruct fuel as [|fuel]; [done|]. cbn [advance_contiguous]. fold (prefix s).
  case_if; [|done]. assert (received s (physical s (prefix s)) = false) as ->; [|done].
  apply slot_none. now apply Hs.
Qed.

Lemma receive_place_spec s a payload :
  wf s -> settled s -> 0 <= a < size (storage_ s) ->
  let (r, s') := place s (read_sequence_ s ⊞ a) a payload in
  laid_over s a payload r s' /\ status r <> outside_window.
Proof.
  intros (Hs & Hk & Hp) Hset Ha. fold (prefix s) in Hk, Hp. unfold place.
  set (m := Z.min (size payload) (size (storage_ s) - a)).
  assert (length (take (Z.to_nat m) payload) = Z.to_nat m) as Em
    by (rewrite length_take; unfold size in *; lia).
  pose proof (receive_store_spec s (read_sequence_ s ⊞ a) a 0 (take (Z.to_nat m) payload) 0 0 Hs) as St.
  destruct (store _ _ _ _ _ _ _) as [[s1 n] f].
  destruct St as (H1 & H2 & H3 & H4 & H5 & H6 & H7 & H8 & _ & H10); [lia..|].
  destruct (frame_inv _ _ H2) as (F1 & F2 & F3 & F4).
  assert (forall o, 0 <= o < size (storage_ s) -> slot s1 o = overlay (slot s o) payload a o) as Hov.
  { intros o Ho. rewrite H6 by done. unfold overlay. destruct (slot s o); [done|]. rewrite Z.add_0_r.
    case_if; [|done]. destruct (decide (o - a < m)); [rewrite lookup_take_lt by lia; done|].
    rewrite !lookup_ge_None_2 by (rewrite ?Em; unfold size in *; lia). done. }
  set (s2 := if negb (n =? 0) then _ else s1).
  assert (sized s2 /\ frame s2 = frame s1 /\ (forall o, slot s2 o = slot s1 o)
    /\ receive_next_ s2 = receive_next_ s1) as (G1 & G2 & G3 & G4) by (unfold s2; destruct (n =? 0); done).
  destruct (frame_inv _ _ G2) as (F1' & F2' & _).
  assert (prefix s2 = prefix s) as K by (unfold prefix; now rewrite G4, F2', F2, H3).
  pose proof (receive_advance_spec (length (storage_ s2)) s2 G1) as Ad.
  destruct Ad as (A1 & A2 & A3 & A4 & A5 & A6 & A7 & A8); [rewrite K, F1', F1; lia|rewrite K, F1', F1; pose proof (u32_range (receive_next_ s - read_sequence_ s)) as [? _]; fold (prefix s) in *; unfold size in *; lia|].
  set (s3 := advance_contiguous _ s2) in *.
  assert (forall o, slot s3 o = slot s1 o) as Sl by (intros; now rewrite A3).
  assert (frame s3 = frame s) as F by congruence.
  destruct (frame_inv _ _ F) as (F1'' & F2'' & _).
  split; [|destruct (n =? 0); done].
  unfold laid_over; cbn [status newly_stored result_receive_next]. split_and!; try done; try lia.
  - unfold wf. fold (prefix s3). rewrite F1''. split_and!; [done|lia|]. intros o Ho.
    rewrite Sl. destruct (decide (o < prefix s)).
    + rewrite Hov by lia. specialize (Hp o). unfold overlay. destruct (slot s o); [done|].
      exfalso. apply Hp; [lia|done].
    + rewrite <- G3. apply A7. lia.
  - intros o Ho. rewrite Sl. now apply Hov.
  - destruct (n =? 0); done.
  - destruct (Z.eqb_spec n 0); split; try done; lia.
  - destruct (Z.eqb_spec n 0) as [->|]; [|done]. intros _.
    unfold s3. rewrite receive_advance_settled; unfold s2; cbn; rewrite H8; done.
  - destruct (Z.eqb_spec n 0) as [->|Hn]; [done|]. intros _. rewrite A5, A4.
    assert (s2 = s1 <| recent_sequence_ := f |> <| recent_sequence_present_ := true |>) as E2
      by (unfold s2; now replace (n =? 0) with false by lia).
    rewrite E2. cbn. split; [done|].
    destruct H10 as (j & Hj & -> & Hsl); [done|done|]. rewrite Em in Hj. exists (a + j).
    split_and!; try lia; try done. clear. word.
Qed.

(** The signed distance of a segment from the read sequence determines both
    the trimming and the insertion. *)
Lemma receive_accept_spec s d payload :
  wf s -> settled s -> prefix s - two31 < d < prefix s + two31 ->
  let (r, s') := accept s (read_sequence_ s ⊞ d) payload in
  laid_over s d payload r s'
  /\ (status r = outside_window <->
        payload <> [] /\ prefix s < d + size payload /\ size (storage_ s) <= Z.max d (prefix s)).
Proof.
  intros W Hset Hd. pose proof W as (Hs & Hk & Hp). pose proof Hs as (V & Hsz & Hbm & Hh & Ir & In).
  fold (prefix s) in Hk, Hp. assert (0 <= prefix s) as Hk0 by apply u32_range.
  unfold accept. rewrite V. cbn [negb].
  destruct (Z.eqb_spec (size payload) 0) as [E0|N0].
  { assert (payload = []) as -> by (destruct payload; [done|unfold size in E0; cbn in E0; lia]).
    split; [|split; [done|intros (? & _); done]].
    apply receive_laid_over_refl; [done|done|tauto|]. intros. unfold size; cbn. lia. }
  assert (payload <> []) as Np by (intros ->; now apply N0).
  assert (0 < size payload) as Hlen by (unfold size in *; lia).
  set (q := read_sequence_ s) in *. set (k := prefix s) in *.
  assert (receive_next_ s = q ⊞ k) as Eq by now apply receive_next_prefix.
  assert (Sequence.before (q ⊞ d) (receive_next_ s) = (d <? k)) as ->.
  { rewrite Eq. unfold Sequence.before, Sequence.half_space. clear -Ir Hd Hk0 Hk Hsz.
    apply eq_true_iff_eq. rewrite andb_true_iff, negb_true_iff, Z.eqb_neq, !Z.ltb_lt. word. }
  assert (receive_next_ s ⊟ (q ⊞ d) = (k - d) mod two32) as -> by (rewrite Eq; clear; word).
  set (old := if d <? k then (k - d) mod two32 else 0).
  assert (old = Z.max 0 (k - d)) as Hold by (unfold old; destruct (Z.ltb_spec d k); lia).
  destruct (_ && (size payload <=? old)) eqn:Edup; bool_to_prop.
  { split; [apply receive_laid_over_refl; try done; [tauto|lia]|split; [done|lia]]. }
  set (a := d + old). assert (a = Z.max d k) as Ha by lia.
  assert ((if d <? k then receive_next_ s else q ⊞ d) = q ⊞ a) as ->
    by (rewrite Eq; unfold a; destruct (Z.ltb_spec d k); f_equal; lia).
  assert (q ⊞ a ⊟ q = a) as -> by (apply wsub_wadd; unfold is_u32; lia).
  assert (old < size payload) as Hold' by (destruct (Z.ltb_spec d k); cbn in Edup; lia).
  destruct (Z.leb_spec (size (storage_ s)) a) as [Hout|Hin].
  { split; [apply receive_laid_over_refl; try done; [tauto|lia]|].
    split; [intros _; split_and!; try done; lia|done]. }
  pose proof (receive_place_spec s a (drop (Z.to_nat old) payload) W Hset ltac:(lia)) as Pl.
  fold q in Pl. destruct (place _ _ _ _) as [r s'].
  destruct Pl as ((L1 & L2 & L3 & L4 & L5 & L6 & L7 & L8 & L9 & L10) & Lo).
  split; [|split; [done|lia]].
  assert (size (drop (Z.to_nat old) payload) = size payload - old) as Ep
    by (unfold size in *; rewrite length_drop; lia).
  unfold laid_over. split_and!; try done.
  - intros o Ho. rewrite L4 by done. destruct (decide (o < k)).
    { rewrite !receive_overlay_skip by (done || lia || (left; done)). done. }
    unfold overlay. destruct (slot s o); [done|].
    destruct (Z.leb_spec a o); destruct (Z.leb_spec d o); try lia; try done.
    rewrite lookup_drop. f_equal. lia.
  - intros Hac. destruct (L10 Hac) as (? & o & ? & ? & ? & ?). split; [done|].
    exists o. split_and!; try done; lia.
Qed.

(** ** Reading *)

Lemma receive_take_out_spec s index count :
  sized s -> 0 <= index -> index + Z.of_nat count <= size (storage_ s) ->
  let (bs, s') := take_out s index count in
  sized s' /\ frame s' = frame s /\ storage_ s' = storage_ s
  /\ receive_next_ s' = receive_next_ s
  /\ bs = ring_read (storage_ s) (head_ s) index count
  /\ (forall o, 0 <= o < size (storage_ s) ->
        slot s' o = if (index <=? o) && (o <? index + Z.of_nat count) then None else slot s o).
Proof.
  revert s index. induction count as [|count IH]; intros s index Hs Hi Hl; cbn [take_out].
  - split_and!; try done. intros o Ho. replace (_ && _) with false by (cbn; blia). done.
  - set (s1 := set_received s (physical s index) false).
    assert (forall o, 0 <= o < size (storage_ s) ->
      sized s1 /\ frame s1 = frame s /\ slot s1 o = if index =? o then None else slot s o) as Hc
      by (intros o Ho; apply slot_clear; done || lia).
    destruct (Hc index ltac:(lia)) as (Hs1 & F1 & _).
    assert (storage_ s1 = storage_ s) as E1 by done.
    specialize (IH s1 (index + 1) Hs1 ltac:(lia) ltac:(rewrite E1; lia)).
    destruct (take_out s1 (index + 1) count) as [bs s'].
    destruct IH as (H1 & H2 & H3 & H4 & H5 & H6).
    split_and!; try done; try congruence.
    + rewrite H5, E1. replace (S count) with (1 + count)%nat by lia. rewrite ring_read_app.
      cbn. unfold ring_get. rewrite Z.add_0_r. done.
    + intros o Ho. rewrite H6 by now rewrite E1. destruct (Hc o Ho) as (_ & _ & ->).
      destruct (Z.eqb_spec index o) as [->|Hne].
      * replace (_ && _) with false by blia. replace (_ && _) with true by blia. done.
      * replace ((index <=? o) && (o <? index + Z.of_nat (S count)))
          with ((index + 1 <=? o) && (o <? index + 1 + Z.of_nat count)) by blia. done.
Qed.

Lemma receive_slot_present s o : slot s o <> None -> slot s o = Some (ring_get (storage_ s) (head_ s) o).
Proof. unfold slot. destruct (received _ _); done. Qed.

Lemma receive_read_spec s out :
  wf s -> settled s -> 0 <= out ->
  let (bs, s') := read s out in
  let n := Z.min out (prefix s) in
  wf s' /\ settled s' /\ size (storage_ s') = size (storage_ s)
  /\ read_sequence_ s' = read_sequence_ s ⊞ n /\ receive_next_ s' = receive_next_ s
  /\ prefix s' = prefix s - n
  /\ size bs = n
  /\ (forall i, 0 <= i < n -> slot s i = bs !! Z.to_nat i)
  /\ (forall o, 0 <= o < size (storage_ s) ->
        slot s' o = if o <? size (storage_ s) - n then slot s (n + o) else None).
Proof.
  intros W Hset Hout. pose proof W as (Hs & Hk & Hp). fold (prefix s) in Hk, Hp.
  pose proof Hs as (V & Hsz & Hbm & Hh & Ir & In).
  unfold read, readable_octets. rewrite V. cbn [negb]. fold (prefix s). set (n := Z.min out (prefix s)).
  assert (0 <= prefix s) by apply u32_range.
  pose proof (receive_take_out_spec s 0 (Z.to_nat n) Hs ltac:(lia) ltac:(lia)) as Tk.
  destruct (take_out s 0 (Z.to_nat n)) as [bs s1]. destruct Tk as (T1 & T2 & T3 & T4 & T5 & T6).
  destruct (frame_inv _ _ T2) as (F1 & F2 & F3 & F4). cbn zeta.
  set (s' := (s1 <| head_ := _ |>) <| read_sequence_ := _ |>).
  assert (head_ s' = (head_ s + n) mod size (storage_ s)) as Eh.
  { unfold s'. cbn. rewrite T3, F3. apply u32_id.
    pose proof (Z.mod_pos_bound (head_ s + n) (size (storage_ s))). unfold is_u32. lia. }
  assert (storage_ s' = storage_ s) as Est by done.
  assert (received_bitmap_ s' = received_bitmap_ s1) as Ebm by done.
  assert (read_sequence_ s' = read_sequence_ s ⊞ n) as Erd by (unfold s'; cbn; now rewrite F2).
  assert (receive_next_ s' = receive_next_ s) as Enx by done.
  assert (prefix s' = prefix s - n) as Epx.
  { unfold prefix in *. rewrite Erd, Enx. clear -Ir In H Hout. subst n. word. }
  assert (sized s') as Hs'.
  { destruct T1 as (V1 & Hz1 & Hb1 & _ & _ & _). unfold sized. rewrite Est, Ebm, Eh, Erd, Enx.
    pose proof (Z.mod_pos_bound (head_ s + n) (size (storage_ s))).
    split_and!; try done; try lia. all: apply u32_range. }
  assert (forall o, 0 <= o < size (storage_ s) ->
     slot s' o = if o <? size (storage_ s) - n then slot s (n + o) else None) as Hsl.
  { intros o Ho.
    assert (slot s' o = slot s1 ((n + o) mod size (storage_ s))) as ->.
    { unfold slot, received, physical. rewrite Ebm, Est, T3, Eh, F3.
      unfold ring_get, Arena.physical. rewrite Zplus_mod_idemp_l, Zplus_mod_idemp_r.
      replace (head_ s + n + o) with (head_ s + (n + o)) by lia. done. }
    rewrite T6 by (apply Z.mod_pos_bound; lia).
    destruct (Z.ltb_spec o (size (storage_ s) - n)).
    - rewrite Z.mod_small by lia. replace (_ && _) with false by blia. done.
    - replace ((n + o) mod size (storage_ s)) with (n + o - size (storage_ s))
        by (rewrite <- (Z.mod_small (n + o - size (storage_ s)) (size (storage_ s))) by lia;
            rewrite <- (Z.mod_add _ 1) by lia; f_equal; lia).
      replace (_ && _) with true by blia. done. }
  split_and!; try done.
  - unfold wf. fold (prefix s'). rewrite Est, Epx. split; [done|]. split; [lia|].
    intros o Ho. rewrite Hsl by lia. replace (_ <? _) with true by lia. apply Hp. lia.
  - unfold settled. fold (prefix s'). rewrite Est, Epx. intros Hlt. rewrite Hsl by lia.
    case_if; [|done]. replace (n + (prefix s - n)) with (prefix s) by lia. apply Hset. fold (prefix s). lia.
  - rewrite T5. unfold size. rewrite length_ring_read. lia.
  - intros i Hi. rewrite receive_slot_present by (apply Hp; lia). rewrite T5, lookup_ring_read by lia.
    do 2 f_equal. lia.
Qed.

(** ** Refinement of a sliding window

    The specification is a list with one entry per free or filled slot; the
    window starts at the first octet the application has not read. *)
Definition window (s : t) : list (option Z) :=
  (fun k => slot s (Z.of_nat k)) <$> seq 0 (length (storage_ s)).

Definition lay (w : list (option Z)) (d : Z) (payload : list Z) : list (option Z) :=
  imap (fun k have => overlay have payload d (Z.of_nat k)) w.

Fixpoint leading (w : list (option Z)) : nat :=
  match w with Some _ :: w => S (leading w) | _ => 0%nat end.

Definition slide (w : list (option Z)) (n : nat) : list (option Z) :=
  drop n w ++ replicate n None.

Lemma receive_length_window s : length (window s) = length (storage_ s).
Proof. unfold window. now rewrite length_fmap, length_seq. Qed.

Lemma receive_lookup_window s k :
  (k < length (storage_ s))%nat -> window s !! k = Some (slot s (Z.of_nat k)).
Proof. intros Hk. unfold window. rewrite list_lookup_fmap, lookup_seq_lt by done. done. Qed.

Lemma leading_unique w k :
  (forall i, (i < k)%nat -> exists b, w !! i = Some (Some b)) ->
  (forall b, w !! k <> Some (Some b)) -> leading w = k.
Proof.
  revert w. induction k as [|k IH]; intros w Hlt Hk.
  - destruct w as [|[b|] w]; [done| |done]. now destruct (Hk b).
  - destruct (Hlt 0%nat ltac:(lia)) as [b Hb]. destruct w as [|x w]; [done|]. injection Hb as ->.
    cbn. f_equal. apply IH; [|done]. intros i Hi. apply (Hlt (S i)). lia.
Qed.

Lemma receive_leading s : wf s -> settled s -> leading (window s) = Z.to_nat (prefix s).
Proof.
  intros (Hs & Hk & Hp) Hset. fold (prefix s) in *. assert (0 <= prefix s) by apply u32_range.
  apply leading_unique.
  - intros i Hi. rewrite receive_lookup_window by (unfold size in *; lia).
    rewrite receive_slot_present by (apply Hp; lia). eauto.
  - intros b. destruct (decide (prefix s < size (storage_ s))) as [Hlt|Hge].
    + rewrite receive_lookup_window by (unfold size in *; lia). rewrite Z2Nat.id by lia.
      unfold settled in Hset. fold (prefix s) in Hset. now rewrite Hset.
    + rewrite lookup_ge_None_2; [done|]. rewrite receive_length_window. unfold size in *. lia.
Qed.

Lemma receive_window_lay s s' d payload :
  size (storage_ s') = size (storage_ s) ->
  (forall o, 0 <= o < size (storage_ s) -> slot s' o = overlay (slot s o) payload d o) ->
  window s' = lay (window s) d payload.
Proof.
  intros Hsz Hsl. assert (length (storage_ s') = length (storage_ s)) as El by (unfold size in Hsz; lia).
  apply (list_eq_same_length _ _ (length (storage_ s)));
    unfold lay; rewrite ?length_imap, ?receive_length_window; try done.
  intros k x y Hk. rewrite list_lookup_imap, !receive_lookup_window by lia. cbn.
  rewrite Hsl by (unfold size; lia). congruence.
Qed.

(** The window moves exactly when a hole is filled. *)
Lemma receive_window_changes s d payload r s' :
  laid_over s d payload r s' -> status r = accepted <-> window s' <> window s.
Proof.
  intros (_ & _ & F & Hsl & _ & _ & _ & _ & Hsame & Hacc). split.
  - intros Ha E. destruct (Hacc Ha) as (_ & o & Ho & Hd & Hn & _).
    apply (f_equal (fun w => w !! Z.to_nat o)) in E. destruct (frame_inv _ _ F) as (F1 & _).
    rewrite !receive_lookup_window in E by (unfold size in *; lia).
    rewrite Z2Nat.id, Hsl, Hn in E by lia. unfold overlay in E.
    replace (d <=? o) with true in E by lia.
    destruct (payload !! Z.to_nat (o - d)) eqn:Eb; [done|].
    apply lookup_ge_None in Eb. unfold size in *. lia.
  - intros Hne. destruct (decide (status r = accepted)) as [|Hna]; [done|].
    exfalso. apply Hne. now rewrite Hsame.
Qed.

(** C14: reassembly implements a sliding window.  RCV.NXT stands at the first hole;
    a segment at any serial distance below 2^31 is laid over the window, filling
    holes inside it and never changing an octet that is there, and is reported
    accepted exactly when it fills one; [read] returns the octets before the
    first hole in order and slides the window over them. *)
Theorem receive_buffer_refines_window s :
  wf s -> settled s ->
  prefix s = Z.of_nat (leading (window s))
  /\ (forall d payload, prefix s - two31 < d < prefix s + two31 ->
        let (r, s') := accept s (read_sequence_ s ⊞ d) payload in
        wf s' /\ settled s' /\ window s' = lay (window s) d payload
        /\ read_sequence_ s' = read_sequence_ s /\ result_receive_next r = receive_next_ s'
        /\ (status r = accepted <-> window s' <> window s))
  /\ (forall out, 0 <= out ->
        let (bs, s') := read s out in
        let n := Z.to_nat (Z.min out (prefix s)) in
        wf s' /\ settled s' /\ Some <$> bs = take n (window s)
        /\ window s' = slide (window s) n
        /\ read_sequence_ s' = read_sequence_ s ⊞ Z.of_nat n).
Proof.
  intros W Hset. assert (0 <= prefix s) as Hk0 by apply u32_range.
  split; [rewrite receive_leading by done; lia|split].
  - intros d payload Hd. pose proof (receive_accept_spec s d payload W Hset Hd) as A.
    destruct (accept _ _ _) as [r s']. destruct A as [L _].
    pose proof (receive_window_changes _ _ _ _ _ L) as Hch.
    destruct L as (L1 & L2 & L3 & L4 & L5 & L6 & L7). destruct (frame_inv _ _ L3) as (F1 & F2 & _).
    split_and!; try done. now apply receive_window_lay.
  - intros out Ho. pose proof (receive_read_spec s out W Hset Ho) as R.
    destruct (read s out) as [bs s']. destruct R as (R1 & R2 & R3 & R4 & R5 & R6 & R7 & R8 & R9).
    pose proof (proj1 (proj2 W)) as Hk. fold (prefix s) in Hk.
    assert (length (storage_ s') = length (storage_ s)) as El by (unfold size in R3; lia).
    split_and!; try done; [| |now rewrite Z2Nat.id by lia].
    + apply (list_eq_same_length _ _ (length bs));
        rewrite ?length_fmap, ?length_take, ?receive_length_window; try (unfold size in *; lia).
      intros i x y Hi. assert (Z.of_nat i < Z.min out (prefix s)) by (unfold size in *; lia).
        rewrite list_lookup_fmap, lookup_take_lt, receive_lookup_window by (unfold size in *; lia).
        rewrite (R8 (Z.of_nat i)), Nat2Z.id by lia.
        destruct (bs !! i) eqn:Eb; cbn; [congruence|]. apply lookup_ge_None in Eb. lia.
    + set (n := Z.min out (prefix s)) in *.
      apply (list_eq_same_length _ _ (length (storage_ s))); unfold slide;
        rewrite ?length_app, ?length_drop, ?length_replicate, ?receive_length_window;
        try (unfold size in *; lia).
      intros i x y Hi. rewrite receive_lookup_window, R9 by (unfold size; lia).
        destruct (Z.ltb_spec (Z.of_nat i) (size (storage_ s) - n)) as [Hlt|Hge].
        -- rewrite lookup_app_l by (rewrite length_drop, receive_length_window; unfold size in *; lia).
           rewrite lookup_drop, receive_lookup_window by (unfold size in *; lia).
           replace (Z.of_nat (Z.to_nat n + i)) with (n + Z.of_nat i) by lia. congruence.
        -- rewrite lookup_app_r by (rewrite length_drop, receive_length_window; unfold size in *; lia).
           rewrite lookup_replicate. intros [= <-] [-> _]. done.
Qed.

Definition sample : t :=
  snd (accept (construct (replicate 8 0) [0] (two32 - 2)) 1 [13; 14]).

Lemma receive_wf_construct storage bitmap isn :
  0 < size storage <= two30 -> size bitmap = (size storage + 7) / 8 -> is_u32 isn ->
  wf (construct storage bitmap isn) /\ settled (construct storage bitmap isn)
  /\ prefix (construct storage bitmap isn) = 0
  /\ forall o, 0 <= o < size storage -> slot (construct storage bitmap isn) o = None.
Proof.
  intros Hs Hb Hi. set (s := construct _ _ _).
  assert (negb (size storage =? 0) && (size storage <=? two30)
          && (size bitmap =? (size storage + 7) / 8) = true) as Ev by (rewrite Hb; blia).
  assert (s = mk (replicate (length storage) 0) (replicate (length bitmap) 0) isn isn 0 true 0 false) as Es
    by (unfold s, construct; now rewrite Ev).
  assert (size (storage_ s) = size storage) as E1
    by (rewrite Es; cbn; unfold size; now rewrite length_replicate).
  assert (prefix s = 0) as Ek by (rewrite Es; apply wsub_diag).
  assert (sized s) as Hsz.
  { unfold sized. rewrite E1, Es; cbn. unfold size in *. rewrite length_replicate.
    unfold is_u32 in *. split_and!; try done; lia. }
  assert (forall o, 0 <= o < size storage -> slot s o = None) as Hn.
  { intros o Ho. apply slot_none. pose proof (receive_physical_range s o Hsz) as Hp.
    unfold received. set (p := physical s o) in *. rewrite E1 in Hp.
    rewrite Es; cbn. rewrite bit_set_testbit by lia. unfold get.
    rewrite list_lookup_total_alt, lookup_replicate_2 by (unfold size in *; lia). cbn. apply Z.bits_0. }
  split_and!; try done.
  - unfold wf. fold (prefix s). rewrite Ek. split; [done|]. split; [lia|]. lia.
  - unfold settled. fold (prefix s). rewrite Ek, E1. intros. apply Hn. lia.
Qed.

Lemma receive_wf_sample : wf sample /\ settled sample.
Proof.
  destruct (receive_wf_construct (replicate 8 0) [0] (two32 - 2)) as (W & Hset & Hk & _);
    [vm_compute; split; congruence|reflexivity|vm_compute; split; congruence|].
  pose proof (receive_accept_spec _ 3 [13; 14] W Hset) as A.
  unfold sample. replace (accept _ 1 _)
    with (accept (construct (replicate 8 0) [0] (two32 - 2))
            (read_sequence_ (construct (replicate 8 0) [0] (two32 - 2)) ⊞ 3) [13; 14]) by reflexivity.
  destruct (accept _ _ _) as [r s']. rewrite Hk in A. destruct A as ((? & ? & _) & _); [lia|done].
Qed.

Example receive_buffer_refines_window_witness :
  window (snd (accept sample (two32 - 2) [10; 11; 12; 99]))
  = [Some 10; Some 11; Some 12; Some 13; Some 14; None; None; None].
Proof.
  destruct receive_wf_sample as [W Hset].
  pose proof (proj1 (proj2 (receive_buffer_refines_window sample W Hset)) 0 [10; 11; 12; 99]) as H.
  replace (read_sequence_ sample ⊞ 0) with (two32 - 2) in H by reflexivity.
  destruct (accept sample (two32 - 2) [10; 11; 12; 99]) as [r s'].
  destruct H as (_ & _ & E & _); [vm_compute; split; congruence|]. exact (eq_trans E eq_refl).
Defined.

(** ** SACK generation *)

Definition present (s : t) (o : Z) : bool := received s (physical s o).

(** [l, r) is a maximal run of received octets above offset [first]. *)
Definition is_run (s : t) (first l r : Z) : Prop :=
  first <= l < r /\ r <= size (storage_ s)
  /\ (forall o, l <= o < r -> present s o = true)
  /\ (l = first \/ present s (l - 1) = false)
  /\ (r = size (storage_ s) \/ present s r = false).

Definition run_block (s : t) (l r : Z) : SackBlock :=
  mkBlock (read_sequence_ s ⊞ l) (read_sequence_ s ⊞ r).

Lemma scan_left_spec fuel s first left :
  first <= left -> left - first <= Z.of_nat fuel ->
  let l := scan_left fuel s first left in
  first <= l <= left /\ (forall o, l <= o < left -> present s o = true)
  /\ (l = first \/ present s (l - 1) = false).
Proof.
  revert left. induction fuel as [|fuel IH]; intros left Hl Hf; cbn zeta; cbn [scan_left].
  - repeat split; try lia.
  - fold (present s (left - 1)). destruct (Z.ltb_spec first left); cbn [andb].
    + destruct (present s (left - 1)) eqn:E.
      * destruct (IH (left - 1)) as (H1 & H2 & H3); [lia|lia|]. split_and!; try done; try lia.
        intros o Ho. destruct (Z.eq_dec o (left - 1)) as [->|]; [done|]. apply H2. lia.
      * split_and!; try lia; auto.
    + split_and!; try lia.
Qed.

Lemma scan_right_spec fuel s right :
  right <= size (storage_ s) -> size (storage_ s) - right <= Z.of_nat fuel ->
  let r := scan_right fuel s right in
  right <= r <= size (storage_ s) /\ (forall o, right <= o < r -> present s o = true)
  /\ (r = size (storage_ s) \/ present s r = false).
Proof.
  revert right. induction fuel as [|fuel IH]; intros right Hr Hf; cbn zeta; cbn [scan_right].
  - repeat split; try lia.
  - fold (present s right). destruct (Z.ltb_spec right (size (storage_ s))); cbn [andb].
    + destruct (present s right) eqn:E.
      * destruct (IH (right + 1)) as (H1 & H2 & H3); [lia|lia|]. split_and!; try done; try lia.
        intros o Ho. destruct (Z.eq_dec o right) as [->|]; [done|]. apply H2. lia.
      * split_and!; try lia; auto.
    + split_and!; try lia.
Qed.

Lemma block_at_spec s first o :
  0 <= first ->
  match block_at s first o with
  | Some b => exists l r, is_run s first l r /\ l <= o < r /\ b = run_block s l r
  | None => o < first \/ size (storage_ s) <= o \/ present s o = false
  end.
Proof.
  intros Hf. unfold block_at. fold (present s o).
  destruct (_ || _) eqn:E.
  - rewrite !orb_true_iff, negb_true_iff, Z.ltb_lt, Z.leb_le in E. tauto.
  - bool_to_prop.
    destruct (scan_left_spec (length (storage_ s)) s first o) as (L1 & L2 & L3);
      [lia|unfold size in *; lia|].
    destruct (scan_right_spec (length (storage_ s)) s (o + 1)) as (R1 & R2 & R3);
      [lia|unfold size in *; lia|].
    eexists _, _. split; [|split; [|reflexivity]; lia]. unfold is_run.
    split_and!; try done; try lia.
    intros x Hx. destruct (Z.lt_total x o) as [|[->|]]; [apply L2; lia|done|apply R2; lia].
Qed.

(** Runs are determined by any of their octets. *)
Lemma is_run_unique s first l r l' r' o :
  is_run s first l r -> is_run s first l' r' -> l <= o < r -> l' <= o < r' -> l = l' /\ r = r'.
Proof.
  intros (H1 & H2 & H3 & H4 & H5) (G1 & G2 & G3 & G4 & G5) Ho Ho'. split.
  - destruct (Z.lt_total l l') as [Hlt|[|Hlt]]; [|done|]; exfalso.
    + destruct G4 as [|G4]; [lia|]. rewrite H3 in G4 by lia. done.
    + destruct H4 as [|H4]; [lia|]. rewrite G3 in H4 by lia. done.
  - destruct (Z.lt_total r r') as [Hlt|[|Hlt]]; [|done|]; exfalso.
    + destruct H5 as [|H5]; [lia|]. rewrite G3 in H5 by lia. done.
    + destruct G5 as [|G5]; [lia|]. rewrite H3 in G5 by lia. done.
Qed.

Lemma run_block_inj s first l r l' r' :
  sized s -> 0 <= first -> is_run s first l r -> is_run s first l' r' ->
  run_block s l r = run_block s l' r' -> l = l' /\ r = r'.
Proof.
  intros (_ & Hs & _) Hf (H1 & H2 & _) (G1 & G2 & _) [= E1 E2]. split.
  - rewrite <- (wsub_wadd (read_sequence_ s) l), <- (wsub_wadd (read_sequence_ s) l'), E1
      by (unfold is_u32; lia). done.
  - rewrite <- (wsub_wadd (read_sequence_ s) r), <- (wsub_wadd (read_sequence_ s) r'), E2
      by (unfold is_u32; lia). done.
Qed.

(** What the downward scan has to produce below [cursor]. *)
Definition scanned (s : t) (first : Z) (recent : option SackBlock) (cursor count out : Z)
    (bs : list SackBlock) : Prop :=
  (forall b, b ∈ bs -> exists l r, is_run s first l r /\ r <= cursor /\ b = run_block s l r
                                 /\ recent <> Some b)
  /\ NoDup bs
  /\ count + Z.of_nat (length bs) <= Z.max count out
  /\ (count + Z.of_nat (length bs) < out ->
        forall o, first <= o < cursor -> present s o = true ->
        exists l r, is_run s first l r /\ l <= o < r
          /\ (run_block s l r ∈ bs \/ recent = Some (run_block s l r))).

Lemma scan_blocks_spec fuel s first recent cursor count out :
  sized s -> 0 <= first -> first <= cursor <= size (storage_ s) ->
  cursor - first <= Z.of_nat fuel ->
  cursor = size (storage_ s) \/ present s cursor = false
    \/ cursor = first \/ present s (cursor - 1) = false ->
  scanned s first recent cursor count out (scan_blocks fuel s first recent cursor count out).
Proof.
  intros Hs Hf. revert cursor count.
  assert (Done : forall cursor count, cursor = first \/ out <= count ->
    scanned s first recent cursor count out []).
  { intros cursor count H. unfold scanned. split_and!; [intros b Hb; now apply elem_of_nil in Hb|constructor|cbn; lia|].
    cbn. intros ? o Ho. lia. }
  induction fuel as [|fuel IH]; intros cursor count Hc Hfu Hb; cbn [scan_blocks].
  { apply Done. lia. }
  destruct (_ && _) eqn:E; [|apply Done; destruct (Z.ltb_spec first cursor); cbn in E; lia].
  bool_to_prop. fold (present s (cursor - 1)).
  destruct (present s (cursor - 1)) eqn:Ep; cbn [negb].
  2: { destruct (IH (cursor - 1) count) as (S1 & S2 & S3 & S4); [lia|lia|auto|].
    split_and!; try done.
    - intros b Hin. destruct (S1 b Hin) as (l & r & ? & ? & ? & ?). exists l, r. split_and!; try done. lia.
    - intros Hlt o Ho Hpo. apply S4; try done. destruct (Z.eq_dec o (cursor - 1)) as [->|]; [congruence|lia]. }
  pose proof (block_at_spec s first (cursor - 1) Hf) as B.
  destruct (block_at s first (cursor - 1)) as [b|]; [|destruct B as [B|[B|B]]; [lia|lia|congruence]].
  destruct B as (l & r & Hrun & Hin & ->).
  assert (r = cursor) as ->.
  { destruct Hrun as (R1 & R2 & R3 & R4 & R5).
    destruct (Z.eq_dec r cursor) as [|Hne]; [done|exfalso].
    destruct Hb as [->|[Hb|[->|Hb]]]; [lia| |lia|congruence]. rewrite R3 in Hb by lia. done. }
  assert (left_edge (run_block s l cursor) ⊟ read_sequence_ s = l) as ->
    by (apply wsub_wadd; destruct Hrun, Hs as (_ & ? & _); unfold is_u32; lia).
  assert (first <= l < cursor) as Hl by apply Hrun.
  assert (l = size (storage_ s) \/ present s l = false \/ l = first \/ present s (l - 1) = false) as Hbl
    by (destruct Hrun as (_ & _ & _ & ? & _); tauto).
  assert (forall o, first <= o < cursor -> l <= o \/ o < l) as Hsplit by lia.
  destruct (match recent with Some _ => _ | None => _ end) eqn:Er.
  - assert (recent = Some (run_block s l cursor)) as ->
      by (destruct recent as [x|]; [|done]; apply same_block_spec in Er; congruence).
    destruct (IH l count) as (S1 & S2 & S3 & S4); [lia|lia|done|].
    split_and!; try done.
    + intros b Hb'. destruct (S1 b Hb') as (l' & r' & ? & ? & ? & ?). exists l', r'. split_and!; try done. lia.
    + intros Hlt o Ho Hpo. destruct (Hsplit o Ho); [|apply S4; done || lia].
      exists l, cursor. split_and!; try done; try lia. now right.
  - destruct (IH l (count + 1)) as (S1 & S2 & S3 & S4); [lia|lia|done|].
    split_and!.
    + intros b Hb'. apply elem_of_cons in Hb' as [->|Hb'].
      * exists l, cursor. split_and!; try done. intros ->.
        rewrite (proj2 (same_block_spec _ _)) in Er; done.
      * destruct (S1 b Hb') as (l' & r' & ? & ? & ? & ?). exists l', r'. split_and!; try done. lia.
    + constructor; [|done]. intros Hb'. destruct (S1 _ Hb') as (l' & r' & Hr' & Hle & Heq & _).
      apply (run_block_inj s first) in Heq as [-> ->]; try done. lia.
    + cbn [length]. lia.
    + cbn [length]. intros Hlt o Ho Hpo. destruct (Hsplit o Ho).
      * exists l, cursor. split_and!; try done; try lia. left. apply elem_of_cons. now left.
      * destruct (S4 ltac:(lia) o ltac:(lia) Hpo) as (l' & r' & ? & ? & [?|?]); exists l', r'; split_and!; try done; try lia.
        -- left. apply elem_of_cons. now right.
        -- now right.
Qed.

(** The SACK report is exact.  It holds at most as many blocks as fit, all
    different, each one a maximal run of octets above RCV.NXT; while it has
    room left it covers every such octet; and when the octet of the most recent
    arrival is still buffered there, its run is the first block. *)
Theorem receive_sack_blocks s out :
  wf s -> 0 <= out ->
  let bs := sack_blocks s out in
  Z.of_nat (length bs) <= out /\ NoDup bs
  /\ (forall b, b ∈ bs -> exists l r, is_run s (prefix s) l r /\ b = run_block s l r)
  /\ (Z.of_nat (length bs) < out -> forall o, prefix s <= o < size (storage_ s) ->
        slot s o <> None ->
        exists l r, is_run s (prefix s) l r /\ l <= o < r /\ run_block s l r ∈ bs)
  /\ (forall o, prefix s <= o < size (storage_ s) -> slot s o <> None -> 0 < out ->
        recent_sequence_present_ s = true -> recent_sequence_ s = read_sequence_ s ⊞ o ->
        exists l r, is_run s (prefix s) l r /\ l <= o < r /\ bs !! 0%nat = Some (run_block s l r)).
Proof.
  intros (Hs & Hk & Hp) Hout. fold (prefix s) in Hk. assert (0 <= prefix s) as Hk0 by apply u32_range.
  cbv zeta. unfold sack_blocks. pose proof Hs as (V & Hsz & _). rewrite V. cbn [negb orb].
  destruct (Z.eqb_spec out 0) as [->|Hne].
  { cbn. split_and!; [lia|constructor|intros b Hb; now apply elem_of_nil in Hb|lia|lia]. }
  fold (prefix s). destruct (Z.leb_spec (size (storage_ s)) (prefix s)) as [Hfull|Hroom].
  { cbn. split_and!; [lia|constructor|intros b Hb; now apply elem_of_nil in Hb|intros; lia|intros; lia]. }
  assert (forall o, slot s o <> None -> present s o = true) as Hpr
    by (intros o Ho; unfold slot, present in *; destruct (received _ _); done).
  set (recent := if recent_sequence_present_ s then _ else None).
  assert (match recent with
          | Some b => exists l r, is_run s (prefix s) l r /\ b = run_block s l r
          | None => True end) as Hrecent.
  { unfold recent. destruct (recent_sequence_present_ s); [|done].
    pose proof (block_at_spec s (prefix s) (recent_sequence_ s ⊟ read_sequence_ s) Hk0) as B.
    destruct (block_at _ _ _); [|done]. destruct B as (l & r & ? & _ & ?). eauto. }
  pose proof (scan_blocks_spec (length (storage_ s)) s (prefix s) recent (size (storage_ s))
    (if has_value recent then 1 else 0) out Hs Hk0 ltac:(lia) ltac:(unfold size in *; lia) ltac:(now left))
    as (S1 & S2 & S3 & S4).
  set (bs := scan_blocks _ _ _ _ _ _ _) in *. split_and!.
  - destruct recent; cbn in *; lia.
  - destruct recent as [b|]; cbn; [|done]. constructor; [|done]. intros Hb.
    destruct (S1 b Hb) as (_ & _ & _ & _ & _ & ?). done.
  - intros b Hb. apply elem_of_app in Hb as [Hb|Hb].
    + destruct recent as [x|]; cbn in Hb; [|now apply elem_of_nil in Hb].
      apply list_elem_of_singleton in Hb as ->. done.
    + destruct (S1 b Hb) as (l & r & ? & _ & ? & _). eauto.
  - intros Hlt o Ho Hsl. rewrite length_app in Hlt.
    destruct (S4 ltac:(destruct recent; cbn in *; lia) o Ho (Hpr o Hsl)) as (l & r & Hr & Hin & [Hb|Hb]);
      exists l, r; split_and!; try done; try lia; apply elem_of_app; [now right|left].
    rewrite Hb. apply list_elem_of_singleton. done.
  - intros o Ho Hsl Hpos Hrp Hrs. unfold recent. rewrite Hrp, Hrs, wsub_wadd by (unfold is_u32; lia).
    pose proof (block_at_spec s (prefix s) o Hk0) as B. specialize (Hpr o Hsl).
    destruct (block_at s (prefix s) o); [|destruct B as [?|[?|?]]; try lia; congruence].
    destruct B as (l & r & ? & ? & ->). exists l, r. done.
Qed.

Example receive_sack_blocks_witness :
  sack_blocks sample 3 = [mkBlock 1 3]
  /\ exists l r, is_run sample (prefix sample) l r /\ l <= 3 < r
       /\ sack_blocks sample 3 !! 0%nat = Some (run_block sample l r).
Proof.
  split; [reflexivity|].
  apply (receive_sack_blocks sample 3 (proj1 receive_wf_sample)); try reflexivity.
  - lia.
  - vm_compute. split; congruence.
  - vm_compute. congruence.
Defined.

(** ** Checkpoints *)

(** The padding bits past the arena stay clear. *)
Definition padding_clear (s : t) : Prop :=
  forall i, size (storage_ s) <= i < 8 * size (received_bitmap_ s) -> received s i = false.

Lemma receive_padding_set s i v :
  sized s -> 0 <= i < size (storage_ s) -> padding_clear s -> padding_clear (set_received s i v).
Proof.
  intros Hs Hi Hp j Hj.
  assert (size (received_bitmap_ (set_received s i v)) = size (received_bitmap_ s)) as E
    by (cbn; now rewrite size_put).
  rewrite E in Hj. change (storage_ (set_received s i v)) with (storage_ s) in Hj.
  rewrite received_set_received by (lia || now apply receive_bitmap_covers).
  replace (i =? j) with false by lia. apply Hp. lia.
Qed.

Lemma receive_store_padding s sequence offset index payload newly first_new :
  sized s -> padding_clear s -> padding_clear (fst (fst (store s sequence offset index payload newly first_new))).
Proof.
  revert s index newly first_new. induction payload as [|b payload IH]; intros s index newly f Hs Hp; [done|].
  cbn [store]. case_if; [now apply IH|]. set (a := physical s _) in *.
  pose proof (receive_physical_range s (offset ⊞ index) Hs) as Ha. fold a in Ha.
  assert (sized (s <| storage_ := put (storage_ s) a b |>)) as Hs1
    by (unfold sized in *; cbn; now rewrite size_put).
  assert (padding_clear (s <| storage_ := put (storage_ s) a b |>)) as Hp1
    by (intros j Hj; apply Hp; cbn in Hj; now rewrite size_put in Hj).
  apply IH.
  - unfold sized in *. cbn in *. now rewrite !size_put in *.
  - apply receive_padding_set; try done. cbn. now rewrite size_put.
Qed.

Lemma receive_take_out_padding s index count :
  sized s -> padding_clear s -> padding_clear (snd (take_out s index count)).
Proof.
  revert s index. induction count as [|count IH]; intros s index Hs Hp; cbn [take_out]; [done|].
  pose proof (receive_physical_range s index Hs) as Ha.
  specialize (IH (set_received s (physical s index) false) (index + 1)).
  destruct (take_out _ (index + 1) count) as [bs s']. cbn in *. apply IH.
  - unfold sized in *. cbn. now rewrite size_put.
  - now apply receive_padding_set.
Qed.

Lemma receive_advance_padding fuel s : padding_clear s -> padding_clear (advance_contiguous fuel s).
Proof.
  revert s. induction fuel as [|fuel IH]; intros s Hp; cbn [advance_contiguous]; [done|].
  case_if; [|done]. case_if; [done|]. now apply IH.
Qed.

(** The one serial number that is neither before nor after RCV.NXT. *)
Lemma receive_accept_antipode s payload :
  wf s -> snd (accept s (receive_next_ s ⊞ two31) payload) = s.
Proof.
  intros ((V & Hs & _ & _ & Ir & In) & Hk & _). unfold accept. rewrite V. cbn [negb].
  case_if; [done|].
  assert (Sequence.before (receive_next_ s ⊞ two31) (receive_next_ s) = false) as ->
    by (unfold Sequence.before, Sequence.half_space; word).
  cbn [andb]. replace (size (storage_ s) <=? _) with true; [done|]. symmetry. word.
Qed.

(** Every sequence number is at some signed distance below 2^31, but for that one. *)
Lemma receive_distance s seq :
  wf s -> is_u32 seq ->
  seq = receive_next_ s ⊞ two31
  \/ exists d, prefix s - two31 < d < prefix s + two31 /\ seq = read_sequence_ s ⊞ d.
Proof.
  intros ((_ & Hs & _ & _ & Ir & In) & Hk & _) Iq. fold (prefix s) in Hk.
  destruct (Z.lt_total (seq ⊟ read_sequence_ s) (prefix s + two31)) as [Hlt|[Heq|Hgt]].
  - right. exists (seq ⊟ read_sequence_ s). unfold prefix in *. split; word.
  - left. unfold prefix in *. word.
  - right. exists (seq ⊟ read_sequence_ s - two32). unfold prefix in *. split; word.
Qed.

Inductive event := Accept (sequence : Z) (payload : list Z) | Read (output_size : Z).

Definition well_typed (e : event) : Prop :=
  match e with Accept q _ => is_u32 q | Read n => 0 <= n end.

Definition apply (s : t) (e : event) : t :=
  match e with
  | Accept q p => snd (accept s q p)
  | Read n => snd (read s n)
  end.

Definition live (s : t) : Prop := wf s /\ settled s /\ padding_clear s.

Lemma receive_accept_padding s q payload : wf s -> padding_clear s -> padding_clear (snd (accept s q payload)).
Proof.
  intros (Hs & _) Hp. unfold accept. repeat (case_if; [done|]). unfold place.
  pose proof (receive_store_padding s
    (if Sequence.before q (receive_next_ s) then receive_next_ s else q)) as St.
  match goal with |- context [store s ?q ?o 0 ?p 0 0] => specialize (St o 0 p 0 0 Hs Hp) end.
  destruct (store _ _ _ _ _ _ _) as [[s1 n] f]. cbn in St |- *. apply receive_advance_padding.
  destruct (n =? 0); done.
Qed.

Lemma receive_live_apply s e : live s -> well_typed e -> live (apply s e).
Proof.
  intros (W & Hset & Hpad) He. destruct e as [q p|n]; cbn in *.
  - pose proof (receive_accept_padding s q p W Hpad) as Hp'.
    destruct (receive_distance s q W He) as [->|(d & Hd & ->)].
    + rewrite receive_accept_antipode by done. done.
    + pose proof (receive_accept_spec s d p W Hset Hd) as A.
      destruct (accept _ _ _) as [r s']. destruct A as ((? & ? & _) & _). done.
  - pose proof (receive_read_spec s n W Hset He) as R.
    assert (padding_clear (snd (read s n))) as Hp';
      [|destruct (read s n) as [bs s']; destruct R as (? & ? & _); done].
    unfold read. case_if; [done|].
    pose proof (receive_take_out_padding s 0 (Z.to_nat (Z.min n (readable_octets s))) (proj1 W) Hpad) as T.
    destruct (take_out _ _ _) as [bs s']. exact T.
Qed.

Definition init (s : t) : Prop :=
  exists storage bitmap isn, 0 < size storage <= two30
    /\ size bitmap = (size storage + 7) / 8 /\ is_u32 isn /\ s = construct storage bitmap isn.

Definition step (s : t) (e : event) (s' : t) : Prop := well_typed e /\ s' = apply s e.

Lemma receive_live_construct storage bitmap isn :
  0 < size storage <= two30 -> size bitmap = (size storage + 7) / 8 -> is_u32 isn ->
  live (construct storage bitmap isn).
Proof.
  intros Hs Hb Hi. destruct (receive_wf_construct storage bitmap isn Hs Hb Hi) as (W & Hset & _).
  split_and!; try done. intros i. unfold construct.
  replace (_ && _) with true by (rewrite Hb; blia). cbn. intros Hj. unfold received; cbn.
  unfold size in Hj. rewrite !length_replicate in Hj.
  rewrite bit_set_testbit by lia. unfold get.
  rewrite list_lookup_total_alt, lookup_replicate_2 by lia. cbn. apply Z.bits_0.
Qed.

Lemma receive_live_reachable s : reachable init step s -> live s.
Proof.
  apply invariant_reachable.
  - intros s' (st & bm & isn & H1 & H2 & H3 & ->). now apply receive_live_construct.
  - intros s1 e s2 H [He ->]. now apply receive_live_apply.
Qed.

Lemma all_bits_spec n first P :
  all_bits n first P = true <-> forall i, first <= i < first + Z.of_nat n -> P i = true.
Proof.
  unfold all_bits. rewrite forallb_forall. split.
  - intros H i Hi. specialize (H (Z.to_nat (i - first))). rewrite in_seq in H.
    replace (first + Z.of_nat (Z.to_nat (i - first))) with i in H by lia. apply H. lia.
  - intros H k Hk. apply in_seq in Hk. apply H. lia.
Qed.

Lemma receive_restore_checkpoint s0 s :
  live s -> valid_ s0 = true -> size (storage_ s0) = size (storage_ s) ->
  size (received_bitmap_ s0) = size (received_bitmap_ s) ->
  restore s0 (checkpoint s) = Some s.
Proof.
  intros ((Hs & Hk & Hp) & _ & Hpad) V0 E1 E2. pose proof Hs as (V & Hsz & Hbm & Hh & Ir & In).
  unfold restore; cbn. rewrite V0, E1, E2, !Z.eqb_refl. cbn.
  replace (_ || _) with false by blia.
  rewrite (proj2 (all_bits_spec _ _ _)); cbn.
  - rewrite (proj2 (all_bits_spec _ _ _)); cbn.
    + destruct s0, s; cbn in *. now subst.
    + intros i Hi. apply negb_true_iff. apply Hpad. lia.
  - intros i Hi. assert (slot s i <> None) as Hsl by (apply Hp; lia).
    unfold slot in Hsl. unfold physical, Arena.physical in Hsl.
    unfold received in Hsl. destruct (bit_set _ _); done.
Qed.

#[export] Instance checkpointed : Checkpointed t Checkpoint := {
  ck_wf s _ := live s;
  ck_fits s0 s := valid_ s0 = true /\ size (storage_ s0) = size (storage_ s)
    /\ size (received_bitmap_ s0) = size (received_bitmap_ s);
  ck_save s _ := checkpoint s;
  ck_load s0 c _ := restore s0 c;
  ck_norm s _ := s;
  ck_load_save s0 s now H F :=
    receive_restore_checkpoint s0 s H (proj1 F) (proj1 (proj2 F)) (proj2 (proj2 F)) }.

(** After any sequence of segment arrivals and reads the checkpoint of the
    repository is accepted by any repository of the same capacity, which then
    continues in the very same state; and a checkpoint that is accepted leaves
    every octet below RCV.NXT present and every padding bit clear, so a corrupt
    image can neither make [read] return octets that never arrived nor hide
    state past the arena. *)
Theorem receive_checkpoint s s0 c :
  reachable init step s -> sized s0 ->
  size (storage_ s0) = size (storage_ s) -> size (received_bitmap_ s0) = size (received_bitmap_ s) ->
  restore s0 (checkpoint s) = Some s
  /\ (is_u32 (read_sequence c) -> is_u32 (receive_next c) -> 0 <= head c ->
      forall s', restore s0 c = Some s' -> wf s' /\ padding_clear s' /\ checkpoint s' = c).
Proof.
  intros Hr (V0 & Hs0 & Hb0 & _) E1 E2.
  split; [apply receive_restore_checkpoint; try done; now apply receive_live_reachable|].
  intros Ir In Ih s' Hs'. unfold restore in Hs'.
  repeat (case_if_in Hs'; [done|]). injection Hs' as <-. bool_to_prop.
  repeat match goal with
  | H : all_bits _ _ _ = true |- _ => let H1 := fresh "B" in pose proof (proj1 (all_bits_spec _ _ _) H) as H1; clear H
  end. cbn in *.
  split_and!; [|intros i Hi; cbn in *; apply negb_true_iff, B; lia|now destruct c].
  unfold wf, sized; cbn. unfold is_u32 in *.
  split_and!; try done; try lia.
  intros o Ho. specialize (B0 o ltac:(lia)).
  unfold slot, received, physical, Arena.physical; cbn. now rewrite B0.
Qed.

Example receive_checkpoint_witness :
  restore (construct [9; 9; 9; 9; 9; 9; 9; 9] [255] 5) (checkpoint sample) = Some sample.
Proof.
  apply (receive_checkpoint sample _ (checkpoint sample)).
  - apply (reachable_step init step (construct (replicate 8 0) [0] (two32 - 2)) (Accept 1 [13; 14])).
    + apply reachable_init. exists (replicate 8 0), [0], (two32 - 2). vm_compute. intuition congruence.
    + split; [vm_compute; split; congruence|reflexivity].
  - vm_compute. intuition congruence.
  - reflexivity.
  - reflexivity.
Defined.

End ReceiveBuffer.
