(* ===== verification/Stream.v ===== *)
(** * One direction of a connection, end to end.

    The send repository, a network that loses, duplicates and reorders, and the
    receive repository, composed.  The only thing asked of the network is the
    maximum segment lifetime: nothing is delivered that is 2^31 octets old. *)

From stdpp Require Import relations.
From S2P Require Import Prelude Arena Sequence SendBuffer ReceiveBuffer.
Import Arena.

Module Stream.

Module S := SendBuffer.SendBuffer.
Module R := ReceiveBuffer.ReceiveBuffer.

(** A packet on the wire: the code's sequence number and payload, with the
    stream position it was copied from (not visible to the code). *)
Record packet := mkPacket { position : Z; wire_sequence : Z; octets : list Z }.
Record ack := mkAck { ack_position : Z; wire_ack : Z }.

Record world := mkWorld {
  sender : S.history;
  receiver : R.t;
  consumed : list Z;
  data : list packet;
  acks : list ack
}.
#[export] Instance world_settable : Settable world := fun w =>
  mkWorld (sender w) (receiver w) (consumed w) (data w) (acks w).

(** The stream positions of SND.UNA, SND.NXT and RCV.NXT. *)
Definition snd_una (w : world) : Z := S.released (sender w).
Definition snd_nxt (w : world) : Z := snd_una w + S.flight_size (S.buffer (sender w)).
Definition rcv_nxt (w : world) : Z := size (consumed w) + R.prefix (receiver w).
Definition written (w : world) : list Z := S.written (sender w).

Inductive step (w : world) : world -> Prop :=
| write_step input :
    step w (w <| sender := S.advance (sender w) (S.Write input) |>)
| transmit_step r bytes :
    is_u32 (S.sequence r) -> is_u32 (S.length r) ->
    S.copy (S.buffer (sender w)) r (S.length r) = Some bytes ->
    step w (w <| sender := S.advance (sender w) (S.Commit r) |>
              <| data := mkPacket (snd_una w + (S.sequence r ⊟ S.send_unacknowledged_ (S.buffer (sender w))))
                           (S.sequence r) bytes :: data w |>)
| deliver_step p :
    p ∈ data w -> rcv_nxt w - two31 < position p ->
    step w (w <| receiver := snd (R.accept (receiver w) (wire_sequence p) (octets p)) |>)
| read_step n :
    0 <= n ->
    step w (w <| receiver := snd (R.read (receiver w) n) |>
              <| consumed := consumed w ++ fst (R.read (receiver w) n) |>)
| acknowledge_step :
    step w (w <| acks := mkAck (rcv_nxt w) (R.receive_next_ (receiver w)) :: acks w |>)
| deliver_ack_step a :
    a ∈ acks w -> snd_una w - two31 < ack_position a ->
    step w (w <| sender := S.advance (sender w) (S.Acknowledge (wire_ack a)) |>).

Definition init (isn : Z) (w : world) : Prop :=
  exists send_storage receive_storage bitmap,
    0 < size send_storage <= two30 /\ 0 < size receive_storage <= two30
    /\ size bitmap = (size receive_storage + 7) / 8 /\ is_u32 isn
    /\ w = mkWorld (S.mkHistory (S.construct send_storage isn) [] 0)
             (R.construct receive_storage bitmap isn) [] [] [].

(** What the receiver holds is what the sender sent, at the right place. *)
Definition faithful (isn : Z) (w : world) : Prop :=
  S.consistent isn (sender w) /\ R.wf (receiver w) /\ R.settled (receiver w)
  /\ R.read_sequence_ (receiver w) = isn ⊞ size (consumed w)
  /\ consumed w = take (length (consumed w)) (written w)
  /\ (forall o b, 0 <= o < size (R.storage_ (receiver w)) -> R.slot (receiver w) o = Some b ->
        written w !! Z.to_nat (size (consumed w) + o) = Some b /\ size (consumed w) + o < snd_nxt w)
  /\ snd_una w <= rcv_nxt w /\ size (consumed w) <= snd_nxt w
  /\ Forall (fun p => wire_sequence p = isn ⊞ position p /\ 0 <= position p
        /\ position p + size (octets p) <= snd_nxt w
        /\ octets p = take (length (octets p)) (drop (Z.to_nat (position p)) (written w))) (data w)
  /\ Forall (fun a => wire_ack a = isn ⊞ ack_position a /\ ack_position a <= rcv_nxt w) (acks w).

Section Steps.
Context (isn : Z) (w : world) (F : faithful isn w).

Lemma stream_rcv_nxt_sent : rcv_nxt w <= snd_nxt w.
Proof.
  destruct F as (_ & (Hs & Hk & Hp) & _ & _ & _ & Hsl & _ & Hc & _).
  unfold rcv_nxt. fold (R.prefix (receiver w)) in Hk, Hp.
  destruct (decide (R.prefix (receiver w) <= 0)); [lia|].
  specialize (Hp (R.prefix (receiver w) - 1) ltac:(lia)).
  destruct (R.slot _ _) as [b|] eqn:E; [|done].
  apply Hsl in E; [lia|lia].
Qed.

Lemma stream_sent_written :
  snd_nxt w <= size (written w) /\ 0 <= snd_una w <= snd_nxt w
  /\ snd_nxt w <= snd_una w + two30.
Proof.
  destruct F as ((W & _ & H0 & _ & Hw & _) & _).
  destruct (S.send_counters _ W) as (? & ? & _). unfold snd_nxt, snd_una, written. lia.
Qed.
End Steps.

(** The sender's steps keep the written stream growing and SND.NXT monotone. *)
Lemma stream_sender_step isn w e :
  S.consistent isn (sender w) -> S.well_typed e ->
  let h' := S.advance (sender w) e in
  S.consistent isn h'
  /\ (exists more, S.written h' = written w ++ more)
  /\ snd_nxt w <= S.released h' + S.flight_size (S.buffer h').
Proof.
  intros C He. pose proof (S.send_consistent_advance isn _ e C He) as C'. cbv zeta.
  split; [done|]. destruct C as (W & _). unfold snd_nxt, snd_una, written.
  destruct (sender w) as [s wr n0]; cbn in *. destruct e as [input|r|a]; cbn in *.
  - pose proof (S.send_write_counters s input W) as H. destruct (S.write s input) as [n s'].
    destruct H as (_ & _ & _ & _ & _ & _ & Hf & _). cbn. split; [eauto|]. lia.
  - split; [exists []; now rewrite app_nil_r|].
    destruct (S.range_is_current s r) eqn:E.
    + pose proof (S.send_commit_counters s r W E (proj1 He) (proj2 He)) as H.
      destruct (S.commit s r) as [ok s']. destruct H as (_ & _ & _ & _ & _ & _ & Hf & Hn & _).
      cbn. lia.
    + unfold S.commit. rewrite E. cbn. lia.
  - pose proof (S.send_acknowledge_counters s a W He) as H.
    destruct (S.acknowledge s a) as [[st n] s']. cbv zeta in H. destruct H as (_ & Hin & Hout).
    cbn. split; [exists []; now rewrite app_nil_r|].
    destruct (decide (0 < a ⊟ S.send_unacknowledged_ s <= S.flight_size s)) as [D|D].
    + destruct (Hin D) as (_ & _ & _ & _ & _ & _ & Hf & _). lia.
    + destruct (Hout D) as (-> & -> & _). lia.
Qed.

(** Growing the stream and SND.NXT keeps everything already sent valid. *)
Lemma stream_faithful_grow isn w h' :
  faithful isn w -> S.consistent isn h' ->
  (exists more, S.written h' = written w ++ more) ->
  snd_nxt w <= S.released h' + S.flight_size (S.buffer h') ->
  S.released h' <= rcv_nxt w ->
  faithful isn (w <| sender := h' |>).
Proof.
  intros F C' [more Hmore] Hn Hu. pose proof (stream_sent_written isn w F) as (Hsw & _).
  destruct F as (C & W & Hset & Hrd & Hcs & Hsl & Hun & Hc & Hd & Ha).
  unfold faithful, snd_nxt, snd_una, rcv_nxt, written in *; cbn in *. rewrite Hmore.
  split_and!; try done.
  - rewrite take_app_le; [done|]. unfold size in *. lia.
  - intros o b Ho Hb. destruct (Hsl o b Ho Hb) as [H1 H2]. split; [|lia].
    rewrite lookup_app_l; [done|]. now apply lookup_lt_Some in H1.
  - lia.
  - revert Hd. apply Forall_impl. intros p (P1 & P2 & P3 & P4). split_and!; try done; [lia|].
    rewrite drop_app_le by (unfold size in *; lia).
    rewrite take_app_le; [done|]. rewrite length_drop. unfold size in *. lia.
Qed.

(** The receiver's steps. *)
Lemma stream_faithful_deliver isn w p :
  faithful isn w -> p ∈ data w -> rcv_nxt w - two31 < position p ->
  faithful isn (w <| receiver := snd (R.accept (receiver w) (wire_sequence p) (octets p)) |>).
Proof.
  intros F Hp Hage. pose proof (stream_rcv_nxt_sent isn w F) as Hrs.
  destruct (stream_sent_written isn w F) as (Hsw & Hu0 & Hcap).
  destruct F as (C & W & Hset & Hrd & Hcs & Hsl & Hun & Hc & Hd & Ha).
  pose proof (proj1 (list.Forall_forall _ _) Hd p Hp) as (P1 & P2 & P3 & P4).
  set (d := position p - size (consumed w)).
  assert (wire_sequence p = R.read_sequence_ (receiver w) ⊞ d) as ->
    by (rewrite P1, Hrd; unfold d; clear; word).
  assert (0 <= size (octets p)) by (unfold size; lia).
  pose proof (R.receive_accept_spec (receiver w) d (octets p) W Hset) as A.
  destruct (R.accept _ _ _) as [r s']. destruct A as ((L1 & L2 & L3 & L4 & L5 & _) & _).
  { unfold rcv_nxt in *. lia. }
  destruct (R.frame_inv _ _ L3) as (F1 & F2 & _).
  unfold faithful, snd_nxt, snd_una, rcv_nxt, written in *; cbn in *.
  split_and!; try done; try congruence; try lia.
  - intros o b Ho Hb. rewrite F1 in Ho. rewrite L4 in Hb by done.
    destruct (R.slot (receiver w) o) as [b'|] eqn:Eo; cbn in Hb.
    { injection Hb as ->. now apply Hsl. }
    case_if_in Hb; [|done]. pose proof (lookup_lt_Some _ _ _ Hb) as Hlt.
    rewrite P4 in Hb. rewrite lookup_take_lt, lookup_drop in Hb by done.
    replace (Z.to_nat (position p) + Z.to_nat (o - d))%nat with (Z.to_nat (size (consumed w) + o)) in Hb
      by (unfold d in *; lia).
    split; [done|]. unfold size in *. lia.
  - revert Ha. apply Forall_impl. intros a (A1 & A2). split; [done|lia].
Qed.

Lemma stream_faithful_read isn w n :
  faithful isn w -> 0 <= n ->
  faithful isn (w <| receiver := snd (R.read (receiver w) n) |>
                  <| consumed := consumed w ++ fst (R.read (receiver w) n) |>).
Proof.
  intros F Hn. pose proof (stream_rcv_nxt_sent isn w F) as Hrs.
  destruct (stream_sent_written isn w F) as (Hsw & Hu0 & Hcap).
  destruct F as (C & W & Hset & Hrd & Hcs & Hsl & Hun & Hc & Hd & Ha).
  pose proof (proj1 (proj2 W)) as Hk. fold (R.prefix (receiver w)) in Hk.
  assert (0 <= R.prefix (receiver w)) as Hk0 by apply u32_range.
  pose proof (R.receive_read_spec (receiver w) n W Hset Hn) as Rd.
  destruct (R.read (receiver w) n) as [bs s'].
  destruct Rd as (R1 & R2 & R3 & R4 & R5 & R6 & R7 & R8 & R9).
  set (m := Z.min n (R.prefix (receiver w))) in *.
  assert (0 <= size (consumed w)) by (unfold size; lia).
  assert (size (consumed w ++ bs) = size (consumed w) + m) as Esz
    by (unfold size in *; rewrite length_app; lia).
  unfold faithful, snd_nxt, snd_una, rcv_nxt, written in *; cbn in *. rewrite Esz.
  split_and!; try done; try lia.
  - rewrite R4, Hrd. clear. word.
  - rewrite length_app. symmetry. apply (list_eq_same_length _ _ (length (consumed w) + length bs));
      rewrite ?length_app, ?length_take; try (unfold size in *; lia).
    intros i x y Hi. rewrite lookup_take_lt by lia. intros Hx.
    destruct (decide (i < length (consumed w))%nat).
    + rewrite lookup_app_l by lia. rewrite Hcs, lookup_take_lt by lia. congruence.
    + rewrite lookup_app_r by lia. set (j := (i - length (consumed w))%nat).
      specialize (R8 (Z.of_nat j) ltac:(unfold size in *; lia)). rewrite Nat2Z.id in R8. rewrite <- R8.
      intros Hb. apply Hsl in Hb as [Hb _]; [|unfold size in *; lia].
      replace (Z.to_nat (size (consumed w) + Z.of_nat j)) with i in Hb by (unfold size in *; lia). congruence.
  - intros o b Ho Hb. rewrite R3 in Ho. rewrite R9 in Hb by done. case_if_in Hb; [|done].
    apply Hsl in Hb; [|lia]. replace (size (consumed w) + m + o) with (size (consumed w) + (m + o)) by lia. done.
  - revert Ha. apply Forall_impl. intros a (A1 & A2). split; [done|lia].
Qed.

Lemma stream_faithful_step isn w w' : faithful isn w -> step w w' -> faithful isn w'.
Proof.
  intros F Hs. pose proof (stream_rcv_nxt_sent isn w F) as Hrs.
  destruct (stream_sent_written isn w F) as (Hsw & Hu0 & Hcap).
  pose proof F as (C & W & Hset & Hrd & Hcs & Hsl & Hun & Hc & Hd & Ha).
  destruct Hs as [input|r bytes Is Il Hcopy|p Hp Hage|n Hn| |a Hin Hage].
  - destruct (stream_sender_step isn w (S.Write input) C I) as (C' & Hm & Hn).
    apply stream_faithful_grow; try done. cbn. destruct (S.write _ _). done.
  - destruct (stream_sender_step isn w (S.Commit r) C (conj Is Il)) as (C' & Hm & Hn).
    assert (faithful isn (w <| sender := S.advance (sender w) (S.Commit r) |>)) as F'
      by (apply stream_faithful_grow; done).
    assert (S.range_is_current (S.buffer (sender w)) r = true) as Hcur
      by (unfold S.copy in Hcopy; destruct (S.range_is_current _ r); done).
    destruct (S.send_copy_stream isn (sender w) r (S.length r) C Hcur Is Il ltac:(lia)) as (Q1 & Q2 & Q3 & Q4).
    rewrite Hcopy in Q4. injection Q4 as Q4.
    destruct F' as (G1 & G2 & G3 & G4 & G5 & G6 & G7 & G8 & G9 & G10).
    split_and!; try done. constructor; [|done].
    unfold snd_una in *; cbn in *.
    pose proof (proj1 C) as Ws.
    pose proof (S.send_commit_counters _ r Ws Hcur Is Il) as H.
    pose proof (S.send_range_current _ r Ws Hcur Is Il) as (Hl & _ & _ & _ & Hre & Hnw).
    assert (length bytes = Z.to_nat (S.length r)) as El
      by (rewrite Q4, length_take, length_drop; unfold size in *; lia).
    unfold snd_nxt, snd_una; cbn. unfold written; cbn.
    destruct (S.commit _ r) as [ok s']. destruct H as (_ & _ & _ & _ & _ & _ & Hf & _).
    cbn. rewrite Hf. split_and!; try done; [lia| |rewrite El; done].
    unfold size. rewrite El. destruct (S.retransmission r); [specialize (Hre eq_refl); lia|].
    destruct (Hnw eq_refl). lia.
  - now apply stream_faithful_deliver.
  - now apply stream_faithful_read.
  - unfold faithful, snd_nxt, snd_una, rcv_nxt, written in *; cbn in *. split_and!; try done.
    constructor; [|done]. cbn. split; [|lia].
    rewrite (R.receive_next_prefix _ (proj1 W)), Hrd. clear. word.
  - pose proof (proj1 (list.Forall_forall _ _) Ha a Hin) as (A1 & A2).
    destruct (stream_sender_step isn w (S.Acknowledge (wire_ack a)) C) as (C' & Hm & Hn).
    { cbn. rewrite A1. apply u32_range. }
    apply stream_faithful_grow; try done.
    destruct C as (Ws & Hi & H0 & Hu & _). unfold snd_una in *. cbn.
    pose proof (S.send_acknowledge_refines (S.buffer (sender w)) (wire_ack a) Ws) as H.
    destruct (S.acknowledge _ _) as [[st m] s']. destruct H as (_ & _ & H); [rewrite A1; apply u32_range|].
    rewrite S.send_size_sent in H by done. cbn in *. rewrite A1, Hu in H.
    unfold snd_nxt, snd_una in *. clear -H A2 Hun Hrs Hcap Hage.
    destruct (_ && _) eqn:E in H; bool_to_prop; [|lia]. unfold u32 in *. lia.
Qed.

Lemma stream_faithful_init isn w : init isn w -> faithful isn w.
Proof.
  intros (ss & rs & bm & H1 & H2 & H3 & H4 & ->).
  pose proof (S.send_consistent_init ss isn H1 H4) as C.
  destruct (R.receive_wf_construct rs bm isn H2 H3 H4) as (W & Hset & Hk & Hn).
  assert (S.flight_size (S.construct ss isn) = 0) as Ef
    by (rewrite S.send_flight by apply C; apply wsub_diag).
  assert (size (R.storage_ (R.construct rs bm isn)) = size rs) as Es
    by (unfold R.construct, size; cbn; case_if; rewrite ?length_replicate; done).
  unfold faithful, snd_nxt, snd_una, rcv_nxt, written; cbn. rewrite Hk, Ef.
  split; [exact C|]. split; [exact W|]. split; [exact Hset|].
  split; [change (isn = isn ⊞ 0); now rewrite Z.add_0_r, u32_id|]. split; [done|].
  split; [|split_and!; done || constructor].
  intros o b Ho. cbn in Es. rewrite Es in Ho. rewrite Hn by done. done.
Qed.

Definition stream_step (w : world) (_ : unit) (w' : world) : Prop := step w w'.

Lemma stream_faithful_reachable isn w : reachable (init isn) stream_step w -> faithful isn w.
Proof.
  apply invariant_reachable; [apply stream_faithful_init|].
  intros s e s' F Hs. eapply stream_faithful_step; done.
Qed.

(** C1: reliable in-order delivery.  Whatever is written, in whatever order the
    network loses, duplicates and reorders segments and acknowledgments, and
    however often sequence numbers wrap, the octets the application has read are
    a prefix of the octets written; the sender never releases an octet the
    receiver has not got; and the receiver never passes what was sent. *)
Theorem stream_reliable isn w :
  reachable (init isn) stream_step w ->
  consumed w `prefix_of` written w
  /\ snd_una w <= rcv_nxt w <= snd_nxt w
  /\ snd_nxt w <= size (written w).
Proof.
  intros Hr. pose proof (stream_faithful_reachable isn w Hr) as F.
  pose proof (stream_rcv_nxt_sent isn w F). destruct (stream_sent_written isn w F) as (? & ? & _).
  destruct F as (_ & _ & _ & _ & Hcs & _ & ? & _).
  split; [|lia]. exists (drop (length (consumed w)) (written w)).
  rewrite Hcs at 1. now rewrite take_drop.
Qed.

(** ** Progress *)

Lemma stream_read_all isn w :
  faithful isn w ->
  exists w', rtc step w w' /\ faithful isn w' /\ written w' = written w /\ snd_una w' = snd_una w
    /\ R.prefix (receiver w') = 0 /\ rcv_nxt w' = rcv_nxt w.
Proof.
  intros F. pose proof F as (_ & W & Hset & _).
  assert (0 <= R.prefix (receiver w)) as Hk0 by apply u32_range.
  assert (step w _) as Hs by exact (read_step w (R.prefix (receiver w)) Hk0).
  eexists. split; [apply rtc_once; exact Hs|]. split; [exact (stream_faithful_step isn w _ F Hs)|].
  pose proof (R.receive_read_spec _ _ W Hset Hk0) as Rd. unfold rcv_nxt, snd_una, written; cbn.
  destruct (R.read _ _) as [bs s']. rewrite Z.min_id in Rd.
  destruct Rd as (_ & _ & _ & _ & _ & Hp & Hb & _). cbn.
  unfold size in *. rewrite length_app. repeat split; lia.
Qed.

Lemma stream_ack_all isn w :
  faithful isn w ->
  exists w', rtc step w w' /\ faithful isn w' /\ written w' = written w
    /\ receiver w' = receiver w /\ consumed w' = consumed w /\ snd_una w' = rcv_nxt w.
Proof.
  intros F. pose proof (stream_rcv_nxt_sent isn w F) as Hrs.
  destruct (stream_sent_written isn w F) as (Hsw & Hu0 & Hcap).
  pose proof (acknowledge_step w) as H1. set (w1 := w <| acks := _ |>) in H1.
  pose proof (stream_faithful_step isn w w1 F H1) as F1.
  set (a := mkAck (rcv_nxt w) (R.receive_next_ (receiver w))).
  assert (a ∈ acks w1) as Hin by (apply elem_of_cons; now left).
  pose proof F as (C & W & _ & Hrd & _ & _ & Hun & _).
  assert (step w1 _) as H2 by (apply (deliver_ack_step w1 a Hin); cbn; unfold snd_una in *; cbn in *; lia).
  eexists. split; [eapply rtc_l; [exact H1|apply rtc_once; exact H2]|].
  split; [exact (stream_faithful_step isn w1 _ F1 H2)|].
  destruct C as (Ws & Hi & H0 & Hu & _). pose proof F1 as (_ & _ & _ & _ & _ & _ & _ & _ & _ & Ha).
  apply (proj1 (list.Forall_forall _ _)) with (2 := Hin) in Ha. destruct Ha as [Ea _]. cbn in Ea.
  unfold written, snd_una, snd_nxt in *; cbn.
  pose proof (S.send_acknowledge_refines (S.buffer (sender w)) (R.receive_next_ (receiver w)) Ws) as H.
  destruct (S.acknowledge _ _) as [[st m] s']. destruct H as (_ & _ & H); [apply W|].
  rewrite S.send_size_sent in H by done. cbn in *. rewrite Ea, Hu in H.
  repeat split. unfold snd_una, snd_nxt in *. clear -H Hun Hrs Hcap.
  destruct (_ && _) eqn:E in H; bool_to_prop; [unfold u32 in *; lia|].
  assert ((isn ⊞ rcv_nxt w) ⊟ (isn ⊞ S.released (sender w)) = rcv_nxt w - S.released (sender w)) as Eo
    by (unfold u32; lia).
  rewrite Eo in E. destruct (Z.ltb_spec 0 (rcv_nxt w - S.released (sender w))); cbn in E; lia.
Qed.

(** With everything received acknowledged and read, the oldest octet the
    receiver lacks can be sent, and then it is there. *)
Lemma stream_send_one isn w :
  faithful isn w -> R.prefix (receiver w) = 0 -> snd_una w = size (consumed w) ->
  size (consumed w) < size (written w) ->
  exists w', rtc step w w' /\ faithful isn w' /\ written w' = written w /\ rcv_nxt w < rcv_nxt w'.
Proof.
  intros F Hk Hu Hlt. pose proof F as (C & W & Hset & Hrd & _). pose proof C as (Ws & Hi & H0 & Hb & Hq & _).
  set (b := S.buffer (sender w)) in *. destruct (S.send_counters b Ws) as (Cf & Cq & Cu & _).
  set (r := if S.flight_size b =? 0 then S.prepare_new b 1 else S.prepare_retransmission b 1).
  unfold snd_una, written in *.
  assert (S.sequence r = S.send_unacknowledged_ b /\ S.length r = 1) as [Er El].
  { pose proof Ws as (V & _). unfold r, S.prepare_new, S.prepare_retransmission. rewrite V. cbn [negb orb].  change (1 =? 0) with false. cbn match.
    destruct (Z.eqb_spec (S.flight_size b) 0) as [E|E]; cbn [S.sequence S.length];
      [|split; [done|lia]].
    split; [|lia]. rewrite S.send_flight in E by done. destruct Ws as (_ & _ & Iu & In & _).
    clear -E Iu In. word. }
  assert (S.range_is_current b r = true /\ S.length r <= 1 /\ is_u32 (S.sequence r) /\ is_u32 (S.length r))
    as (Hcur & _ & Is & Il).
  { apply (S.send_prepare_current b r 1 0 Ws); [done|done|unfold r; destruct (_ =? 0); auto|].
    unfold S.range_present. now rewrite El. }
  destruct (S.send_copy_stream isn (sender w) r (S.length r) C Hcur Is Il ltac:(lia)) as (_ & Q2 & Q3 & Q4).
  pose proof (transmit_step w r _ Is Il Q4) as H1. fold b in H1, Q2, Q3, Q4.
  rewrite Er, wsub_diag in *. set (bytes := take _ _) in H1. set (p := mkPacket _ _ bytes) in H1.
  set (w1 := _ <| data := _ |>) in H1.
  pose proof (stream_faithful_step isn w w1 F H1) as F1.
  assert (p ∈ data w1) as Hin by (apply elem_of_cons; now left).
  assert (rcv_nxt w1 - two31 < position p) as Hage
    by (unfold rcv_nxt, p, snd_una; cbn; rewrite Hk, Hu; lia).
  pose proof (deliver_step w1 p Hin Hage) as H2.
  eexists. split; [eapply rtc_l; [exact H1|apply rtc_once; exact H2]|].
  split; [exact (stream_faithful_step isn w1 _ F1 H2)|]. split; [done|].
  unfold rcv_nxt. cbn. rewrite Hk.
  assert (S.send_unacknowledged_ b = R.read_sequence_ (receiver w) ⊞ 0) as Eq
    by (rewrite Hrd, <- Hu, Hb; clear; word).
  rewrite Eq. pose proof (R.receive_accept_spec (receiver w) 0 bytes W Hset ltac:(lia)) as A.
  clear H2. destruct (R.accept _ _ _) as [res s']. destruct A as ((L1 & L2 & L3 & L4 & L5 & _) & _). cbn.
  destruct (R.frame_inv _ _ L3) as (F2 & _).
  assert (0 < size (R.storage_ (receiver w))) as Hsz by apply W.
  destruct (Z.eq_dec (R.prefix s') 0) as [E|]; [|lia]. exfalso.
  unfold R.settled in L2. fold (R.prefix s') in L2. rewrite E, F2 in L2. specialize (L2 Hsz).
  rewrite L4 in L2 by lia. rewrite Hk in *.
  assert (R.slot (receiver w) 0 = None) as En
    by (unfold R.settled in Hset; fold (R.prefix (receiver w)) in Hset; rewrite Hk in Hset; now apply Hset).
  rewrite En in L2. cbn in L2. unfold bytes in L2. rewrite El in L2. cbn in L2.
  rewrite Z.add_0_r in L2. unfold size in *.
  destruct (drop _ _) eqn:Ed in L2; [|done].
  apply (f_equal length) in Ed. rewrite length_drop in Ed. cbn in Ed. lia.
Qed.

(** C2: no deadlock.  From every reachable state the system can, without writing
    anything new, reach one where the application has read everything written
    and the sender holds nothing unacknowledged; no buffer size, window
    position or loss pattern can wedge the transfer. *)
Theorem stream_progress isn w :
  reachable (init isn) stream_step w ->
  exists w', rtc step w w' /\ written w' = written w /\ consumed w' = written w
    /\ snd_una w' = size (written w).
Proof.
  intros Hr. pose proof (stream_faithful_reachable isn w Hr) as F. clear Hr.
  remember (Z.to_nat (size (written w) - rcv_nxt w)) as n eqn:En.
  revert w F En. induction n as [n IH] using lt_wf_ind. intros w F En.
  destruct (stream_read_all isn w F) as (w1 & S1 & F1 & E1 & U1 & K1 & N1).
  destruct (stream_ack_all isn w1 F1) as (w2 & S2 & F2 & E2 & R2 & C2 & U2).
  assert (rcv_nxt w2 = rcv_nxt w) as N2 by (rewrite <- N1; unfold rcv_nxt; now rewrite R2, C2).
  assert (R.prefix (receiver w2) = 0) as K2 by now rewrite R2.
  assert (rcv_nxt w2 = size (consumed w2)) as N2' by (unfold rcv_nxt; rewrite K2; lia).
  pose proof (stream_rcv_nxt_sent isn w2 F2). destruct (stream_sent_written isn w2 F2) as (? & _).
  destruct (decide (size (consumed w2) < size (written w2))) as [Hlt|Hge].
  - destruct (stream_send_one isn w2 F2 K2 ltac:(congruence) Hlt) as (w3 & S3 & F3 & E3 & N3).
    destruct (stream_sent_written isn w3 F3) as (? & _). pose proof (stream_rcv_nxt_sent isn w3 F3).
    assert (written w3 = written w) as Ew by congruence.
    destruct (IH (Z.to_nat (size (written w3) - rcv_nxt w3))) with (w := w3)
      as (w' & S' & E' & C' & U'); try done.
    { rewrite Ew in *. lia. }
    exists w'. rewrite <- Ew. split; [|done]. etrans; [exact S1|]. etrans; [exact S2|]. etrans; [exact S3|done].
  - exists w2. assert (written w2 = written w) as Ew by congruence.
    split; [etrans; done|]. split; [done|].
    assert (size (consumed w2) = size (written w2)) as Es by lia.
    destruct F2 as (_ & _ & _ & _ & Hc & _). split; [|rewrite <- Ew; congruence].
    rewrite Hc, Ew. apply take_ge. rewrite Ew in *. unfold size in *. lia.
Qed.

(** A concrete run: five octets written across a sequence wrap, the second
    segment overtakes the first, one octet is read. *)
Definition isn0 : Z := two32 - 2.
Definition w0 : world :=
  mkWorld (S.mkHistory (S.construct (replicate 8 0) isn0) [] 0)
    (R.construct (replicate 4 0) [0] isn0) [] [] [].
Definition w1 : world := w0 <| sender := S.advance (sender w0) (S.Write [1; 2; 3; 4; 5]) |>.
Definition send (w : world) (r : S.PreparedSendRange) (bytes : list Z) : world :=
  w <| sender := S.advance (sender w) (S.Commit r) |>
    <| data := mkPacket (snd_una w + (S.sequence r ⊟ S.send_unacknowledged_ (S.buffer (sender w))))
                 (S.sequence r) bytes :: data w |>.
Definition w2 : world := send w1 (S.prepare_new (S.buffer (sender w1)) 2) [1; 2].
Definition w3 : world := send w2 (S.prepare_new (S.buffer (sender w2)) 2) [3; 4].
Definition arrive (w : world) (p : packet) : world :=
  w <| receiver := snd (R.accept (receiver w) (wire_sequence p) (octets p)) |>.
Definition w4 : world := arrive w3 (mkPacket 2 0 [3; 4]).
Definition w5 : world := arrive w4 (mkPacket 0 isn0 [1; 2]).
Definition w6 : world :=
  w5 <| receiver := snd (R.read (receiver w5) 3) |>
     <| consumed := consumed w5 ++ fst (R.read (receiver w5) 3) |>.

Lemma stream_sample_reachable : reachable (init isn0) stream_step w6.
Proof.
  apply (reachable_step _ _ w5 tt); [|apply read_step; lia].
  apply (reachable_step _ _ w4 tt).
  2: { apply (deliver_step w4 (mkPacket 0 isn0 [1; 2])); [|vm_compute; congruence].
       apply elem_of_cons; right; apply elem_of_cons; left; reflexivity. }
  apply (reachable_step _ _ w3 tt).
  2: { apply (deliver_step w3 (mkPacket 2 0 [3; 4])); [|vm_compute; congruence].
       apply elem_of_cons; left; reflexivity. }
  apply (reachable_step _ _ w2 tt);
    [|apply transmit_step; [vm_compute; split; congruence..|reflexivity]].
  apply (reachable_step _ _ w1 tt);
    [|apply transmit_step; [vm_compute; split; congruence..|reflexivity]].
  apply (reachable_step _ _ w0 tt); [|apply write_step].
  apply reachable_init. exists (replicate 8 0), (replicate 4 0), [0].
  split_and!; try reflexivity; vm_compute; intuition congruence.
Qed.

Example stream_reliable_witness :
  consumed w6 = [1; 2; 3] /\ consumed w6 `prefix_of` written w6.
Proof. split; [reflexivity|]. apply (stream_reliable isn0 w6 stream_sample_reachable). Defined.

Example stream_progress_witness :
  exists w', rtc step w6 w' /\ consumed w' = [1; 2; 3; 4; 5].
Proof.
  destruct (stream_progress isn0 w6 stream_sample_reachable) as (w' & H1 & _ & H2 & _).
  exists w'. split; [exact H1|]. exact (eq_trans H2 eq_refl).
Defined.

End Stream.
