(* ===== verification/Checksum.v ===== *)
(** * The Internet checksum (core/src/forwarding/packet.cpp): RFC 1071 sums over
    a header, and over a payload with its IPv4 or IPv6 pseudo-header. *)

From S2P Require Import Prelude.

Module Checksum.

Definition word (high low : Z) : Z := u16 (Z.lor (Z.shiftl high 8) low).

(** The accumulation loops; [sum] is a [std::uint32_t]. *)
Fixpoint add_words (sum : Z) (bytes : list Z) : Z :=
  match bytes with
  | high :: low :: rest => add_words (u32 (sum + word high low)) rest
  | [last] => u32 (sum + u16 (Z.shiftl last 8))
  | [] => sum
  end.

(** [while (sum >> 16) sum = (sum & 0xffff) + (sum >> 16)]; three rounds are
    enough for any 32-bit sum ([fold_spec]). *)
Fixpoint fold_carries (fuel : nat) (sum : Z) : Z :=
  match fuel with
  | O => sum
  | S fuel =>
      if Z.shiftr sum 16 =? 0 then sum
      else fold_carries fuel (u32 (Z.land sum 65535 + Z.shiftr sum 16))
  end.

Definition finish (sum : Z) : Z := u16 (Z.lnot (fold_carries 3 sum)).

Definition checksum (bytes : list Z) : Z := finish (add_words 0 bytes).

Definition ipv6_upper_layer_checksum
    (source destination : list Z) (next_header : Z) (payload : list Z) : Z :=
  let sum := add_words 0 source in
  let sum := add_words sum destination in
  let length := u32 (Z.of_nat (length payload)) in
  let sum := u32 (sum + u16 (Z.shiftr length 16)) in
  let sum := u32 (sum + u16 length) in
  let sum := u32 (sum + next_header) in
  finish (add_words sum payload).

Definition ipv4_upper_layer_checksum
    (source destination : list Z) (protocol : Z) (payload : list Z) : Z :=
  let sum := add_words 0 source in
  let sum := add_words sum destination in
  let sum := u32 (sum + protocol) in
  let sum := u32 (sum + u16 (Z.of_nat (length payload))) in
  finish (add_words sum payload).

(** ** The one's-complement sum *)

Definition bytes_ok (bytes : list Z) : Prop := Forall is_u8 bytes.

(** The sum of the 16-bit words, without any bound. *)
Fixpoint words (bytes : list Z) : Z :=
  match bytes with
  | high :: low :: rest => 256 * high + low + words rest
  | [last] => 256 * last
  | [] => 0
  end.

(** The residue a one's-complement accumulator holds for a sum. *)
Definition residue (s : Z) : Z := if s =? 0 then 0 else (s - 1) mod 65535 + 1.

(** Two-step list induction. *)
Lemma list_pair_ind (P : list Z -> Prop) :
  P [] -> (forall x, P [x]) -> (forall x y l, P l -> P (x :: y :: l)) -> forall l, P l.
Proof.
  intros H0 H1 H2. fix IH 1. intros [|x [|y l]]; [done|apply H1|apply H2, IH].
Qed.

Lemma word_spec high low : is_u8 high -> is_u8 low -> word high low = 256 * high + low.
Proof.
  intros Hh Hl. unfold word.
  rewrite lor_shiftl by (unfold is_u8 in *; lia). Prelude.word.
Qed.

Lemma words_range bytes :
  bytes_ok bytes -> 0 <= words bytes <= 65535 * ((Z.of_nat (length bytes) + 1) / 2).
Proof.
  induction bytes as [|x|x y l IH] using list_pair_ind; intros Hb; cbn [words length].
  - cbn. lia.
  - apply list.Forall_cons in Hb as [Hx _]. unfold is_u8 in Hx. cbn. lia.
  - apply list.Forall_cons in Hb as [Hx Hb]. apply list.Forall_cons in Hb as [Hy Hb].
    specialize (IH Hb). unfold is_u8 in *. lia.
Qed.

Lemma add_words_spec sum bytes :
  bytes_ok bytes -> 0 <= sum -> sum + words bytes < two32 ->
  add_words sum bytes = sum + words bytes.
Proof.
  revert sum. induction bytes as [|x|x y l IH] using list_pair_ind;
    intros sum Hb Hs Hlt; cbn [words add_words] in *.
  - lia.
  - apply list.Forall_cons in Hb as [Hx _]. rewrite Z.shiftl_mul_pow2 by lia. unfold is_u8 in Hx. Prelude.word.
  - apply list.Forall_cons in Hb as [Hx Hb]. apply list.Forall_cons in Hb as [Hy Hb].
    pose proof (words_range l Hb). rewrite word_spec by done.
    rewrite u32_id by (unfold is_u32, is_u8 in *; lia).
    unfold is_u8 in *. rewrite IH by (done || lia). lia.
Qed.

Lemma fold_spec s : is_u32 s -> fold_carries 3 s = residue s.
Proof.
  intros Hs.
  assert (Step : forall n z, is_u32 z ->
    fold_carries (S n) z = if z <? 65536 then z else fold_carries n (z mod 65536 + z / 65536)).
  { intros n z Hz. cbn [fold_carries]. rewrite Z.shiftr_div_pow2 by lia. change (2 ^ 16) with 65536.
    change 65535 with (Z.ones 16). rewrite Z.land_ones by lia. change (2 ^ 16) with 65536.
    rewrite u32_id by Prelude.word.
    destruct (Z.ltb_spec z 65536).
    - replace (z / 65536 =? 0) with true by Prelude.word. done.
    - replace (z / 65536 =? 0) with false by Prelude.word. done. }
  unfold residue. rewrite Step by done. case_if; [case_if; Prelude.word|].
  rewrite Step by Prelude.word. case_if; [case_if; Prelude.word|].
  rewrite Step by Prelude.word. case_if; [case_if; Prelude.word|Prelude.word].
Qed.

Lemma residue_range s : 0 <= s -> 0 <= residue s <= 65535.
Proof. intros. unfold residue. case_if; lia. Qed.

Lemma finish_spec s : is_u32 s -> finish s = 65535 - residue s.
Proof.
  intros Hs. unfold finish. rewrite fold_spec by done.
  pose proof (residue_range s (proj1 Hs)). unfold Z.lnot. Prelude.word.
Qed.

(** A sum completed with its own checksum verifies. *)
Lemma finish_complete s c :
  0 <= s -> s + 65535 < two32 -> c = finish s -> finish (s + c) = 0.
Proof.
  intros Hs Hb ->. rewrite (finish_spec s) by (unfold is_u32; lia).
  pose proof (residue_range s Hs). rewrite finish_spec by (unfold is_u32; lia).
  unfold residue in *. destruct (Z.eqb_spec s 0) as [->|]; [done|].
  case_if; lia.
Qed.

(** A sum verifies exactly when it is a positive multiple of 65535. *)
Lemma finish_zero s : is_u32 s -> finish s = 0 <-> 0 < s /\ s mod 65535 = 0.
Proof.
  intros Hs. rewrite finish_spec by done. unfold residue, is_u32 in *. case_if; lia.
Qed.

(** ** The contract the codecs rely on

    A checksum of a payload of [n] octets is the complement of the payload's
    word sum plus a constant of the pseudo-header. *)
Class Additive (cks : list Z -> Z) (maximum : Z) : Prop :=
  additive : forall n, 0 <= n <= maximum ->
    exists k, 0 <= k <= 2097152
      /\ forall p, bytes_ok p -> Z.of_nat (length p) = n -> cks p = finish (k + words p).

Lemma words_bound p : bytes_ok p -> Z.of_nat (length p) <= 65535 -> 0 <= words p <= 2147450880.
Proof. intros Hp Hl. pose proof (words_range p Hp). lia. Qed.

Lemma ipv4_checksum_additive src dst proto :
  bytes_ok src -> bytes_ok dst -> length src = 4%nat -> length dst = 4%nat -> is_u8 proto ->
  Additive (ipv4_upper_layer_checksum src dst proto) 65535.
Proof.
  intros Hs Hd Ls Ld Hp n Hn.
  pose proof (words_range src Hs). pose proof (words_range dst Hd). rewrite Ls, Ld in *.
  exists (words src + words dst + proto + n). unfold is_u8 in *. split; [lia|].
  intros p Hpb Hl. pose proof (words_bound p Hpb ltac:(lia)).
  unfold ipv4_upper_layer_checksum.
  rewrite (add_words_spec 0 src), (add_words_spec _ dst) by (done || lia).
  rewrite !(u32_id) by Prelude.word.
  rewrite add_words_spec by (done || Prelude.word). f_equal. Prelude.word.
Qed.

Lemma ipv6_checksum_additive src dst nh :
  bytes_ok src -> bytes_ok dst -> length src = 16%nat -> length dst = 16%nat -> is_u8 nh ->
  Additive (ipv6_upper_layer_checksum src dst nh) 65535.
Proof.
  intros Hs Hd Ls Ld Hp n Hn.
  pose proof (words_range src Hs). pose proof (words_range dst Hd). rewrite Ls, Ld in *.
  exists (words src + words dst + nh + n). unfold is_u8 in *. split; [lia|].
  intros p Hpb Hl. pose proof (words_bound p Hpb ltac:(lia)).
  unfold ipv6_upper_layer_checksum.
  rewrite (add_words_spec 0 src), (add_words_spec _ dst) by (done || lia).
  rewrite Z.shiftr_div_pow2 by lia. change (2 ^ 16) with 65536.
  rewrite (u32_id (Z.of_nat (length p))) by Prelude.word.
  replace (u16 (Z.of_nat (length p) / 65536)) with 0 by Prelude.word.
  rewrite !u32_id by Prelude.word.
  rewrite add_words_spec by (done || Prelude.word). f_equal. Prelude.word.
Qed.

(** An even prefix separates word sums. *)
Lemma words_app a b : Nat.Even (length a) -> words (a ++ b) = words a + words b.
Proof.
  intros [n Hn]. revert a Hn. induction n as [|n IH]; intros a Hn.
  - destruct a; [done|cbn in Hn; lia].
  - destruct a as [|x [|y a]]; cbn in Hn; [lia|lia|]. cbn [app words]. rewrite IH by lia. lia.
Qed.

(** Any corruption confined to one aligned 16-bit word is caught, except that
    one's-complement arithmetic cannot tell 0x0000 from 0xffff.  For every
    pseudo-header and length, a segment that verifies no longer does once the
    word at an even offset is replaced by another one. *)
Theorem checksum_detects_word_change cks maximum pre hi lo hi' lo' post :
  Additive cks maximum -> maximum <= 65535 ->
  bytes_ok (pre ++ [hi; lo] ++ post) -> is_u8 hi' -> is_u8 lo' ->
  Nat.Even (length pre) -> Z.of_nat (length (pre ++ [hi; lo] ++ post)) <= maximum ->
  cks (pre ++ [hi; lo] ++ post) = 0 ->
  (256 * hi + lo) mod 65535 <> (256 * hi' + lo') mod 65535 ->
  cks (pre ++ [hi'; lo'] ++ post) <> 0.
Proof.
  intros A Hm Hb Hh Hl He Hlen Hz Hne.
  destruct (A _ (conj (Nat2Z.is_nonneg _) Hlen)) as (k & Hk & Hck).
  pose proof (words_bound _ Hb ltac:(lia)) as Wb.
  assert (bytes_ok (pre ++ [hi'; lo'] ++ post)) as Hb'.
  { unfold bytes_ok in *. apply list.Forall_app in Hb as [? Hb]. apply list.Forall_app in Hb as [_ ?].
    apply list.Forall_app; split; [done|]. now repeat (apply list.Forall_cons; split). }
  assert (Z.of_nat (length (pre ++ [hi'; lo'] ++ post)) = Z.of_nat (length (pre ++ [hi; lo] ++ post))) as Hlen'
    by (rewrite !length_app; done).
  pose proof (words_bound _ Hb' ltac:(lia)) as Wb'.
  rewrite Hck in Hz by done. rewrite Hck by done. intros Hz'.
  apply finish_zero in Hz; [|unfold is_u32; lia]. apply finish_zero in Hz'; [|unfold is_u32; lia].
  rewrite words_app in Hz, Hz' by done. cbn [app words] in Hz, Hz'. lia.
Qed.

Example checksum_detects_word_change_witness :
  ipv4_upper_layer_checksum [10; 0; 0; 1] [10; 0; 0; 2] 6 ([] ++ [235; 241] ++ [0; 0]) <> 0.
Proof.
  apply (checksum_detects_word_change (ipv4_upper_layer_checksum [10; 0; 0; 1] [10; 0; 0; 2] 6) 65535
    [] 235 242 235 241 [0; 0]).
  - apply ipv4_checksum_additive; try reflexivity; try (repeat constructor; vm_compute; congruence).
  - lia.
  - repeat constructor; vm_compute; congruence.
  - vm_compute; intuition congruence.
  - vm_compute; intuition congruence.
  - now exists 0%nat.
  - vm_compute. congruence.
  - reflexivity.
  - vm_compute. congruence.
Defined.

End Checksum.
