(* ===== verification/Packet.v ===== *)
(** * TCP segments on the wire (core/src/transport/tcp_packet.cpp): header
    fields, option validation, encoding and parsing with the mandatory checksum. *)

From S2P Require Import Prelude Arena Checksum.
Import Arena.

Module Packet.

Definition minimum_header_octets : Z := 20.
Definition maximum_header_octets : Z := 60.
Definition maximum_option_octets : Z := 40.
Definition maximum_ipv4_segment_octets : Z := 65535 - 20.
Definition maximum_ipv6_segment_octets : Z := 65535.
Definition next_header_tcp : Z := 6.

(** *** [enum Flag] *)
Definition fin : Z := 1.
Definition syn : Z := 2.
Definition rst : Z := 4.
Definition psh : Z := 8.
Definition ack : Z := 16.

Record Fields := mkFields {
  source_port : Z;
  destination_port : Z;
  sequence : Z;
  acknowledgment : Z;
  flags : Z;
  window : Z;
  urgent_pointer : Z
}.

(** A parsed segment; the two spans are the octets they borrow. *)
Record View := mkView {
  fields : Fields;
  view_checksum : Z;
  options : list Z;
  payload : list Z
}.

Record OptionView := mkOption { kind : Z; raw : list Z }.

(** *** Network byte order *)

Definition read16 (bytes : list Z) (offset : Z) : Z :=
  u16 (Z.lor (Z.shiftl (get bytes offset) 8) (get bytes (offset + 1))).

Definition read32 (bytes : list Z) (offset : Z) : Z :=
  Z.lor (Z.lor (Z.lor (Z.shiftl (get bytes offset) 24) (Z.shiftl (get bytes (offset + 1)) 16))
               (Z.shiftl (get bytes (offset + 2)) 8))
        (get bytes (offset + 3)).

Definition write16 (bytes : list Z) (offset value : Z) : list Z :=
  put (put bytes offset (u8 (Z.shiftr value 8))) (offset + 1) (u8 value).

Definition write32 (bytes : list Z) (offset value : Z) : list Z :=
  put (put (put (put bytes offset (u8 (Z.shiftr value 24)))
                (offset + 1) (u8 (Z.shiftr value 16)))
           (offset + 2) (u8 (Z.shiftr value 8)))
      (offset + 3) (u8 value).

(** [std::copy(bs, ..., bytes.begin() + offset)] *)
Definition copy_at (bytes : list Z) (offset : Z) (bs : list Z) : list Z :=
  take (Z.to_nat offset) bytes ++ bs ++ drop (Z.to_nat offset + length bs) bytes.

(** *** Options *)

Definition standard_length_is_valid (kind length : Z) : bool :=
  if kind =? 2 then length =? 4
  else if kind =? 3 then length =? 3
  else if kind =? 4 then length =? 2
  else if kind =? 5 then (10 <=? length) && ((length - 2) mod 8 =? 0)
  else if kind =? 8 then length =? 10
  else 2 <=? length.

(** The loop of [validate_options]; [rest] is the span from the cursor on, and
    every iteration consumes at least one octet. *)
Fixpoint validate_from (fuel : nat) (rest : list Z) : bool :=
  match fuel, rest with
  | _, [] => true
  | O, _ => true
  | S fuel, kind :: tail =>
      if kind =? 0 then forallb (fun value => value =? 0) rest
      else if kind =? 1 then validate_from fuel tail
      else match tail with
           | [] => false
           | length :: _ =>
               if negb (standard_length_is_valid kind length) || (size rest <? length) then false
               else validate_from fuel (drop (Z.to_nat length) rest)
           end
  end.

Definition validate_options (options : list Z) : bool := validate_from (length options) options.

(** [next_option] at the cursor whose suffix is [rest]: the option and the
    suffix at the new cursor. *)
Definition next_option (rest : list Z) : option (OptionView * list Z) :=
  match rest with
  | [] => None
  | kind :: tail =>
      if kind =? 0 then Some (mkOption kind [kind], [])
      else if kind =? 1 then Some (mkOption kind [kind], tail)
      else match tail with
           | [] => None
           | length :: _ =>
               if negb (standard_length_is_valid kind length) || (size rest <? length) then None
               else Some (mkOption kind (take (Z.to_nat length) rest), drop (Z.to_nat length) rest)
           end
  end.

(** *** Encoding *)

(** The number of octets written and the output buffer afterwards. *)
Definition encode_shape (output : list Z) (f : Fields) (options payload : list Z)
    (maximum_segment_octets : Z) : option (Z * list Z) :=
  if negb (validate_options options) || (maximum_option_octets <? size options) then None
  else
    let padded_options := Z.land (size options + 3) (Z.lnot 3) in
    if maximum_option_octets <? padded_options then None
    else
      let header := minimum_header_octets + padded_options in
      if maximum_segment_octets - header <? size payload then None
      else
        let length := header + size payload in
        if size output <? length then None
        else
          let bytes := take (Z.to_nat length) output in
          let bytes := write16 bytes 0 (source_port f) in
          let bytes := write16 bytes 2 (destination_port f) in
          let bytes := write32 bytes 4 (sequence f) in
          let bytes := write32 bytes 8 (acknowledgment f) in
          let bytes := put bytes 12 (u8 (Z.shiftl (header / 4) 4)) in
          let bytes := put bytes 13 (flags f) in
          let bytes := write16 bytes 14 (window f) in
          let bytes := write16 bytes 16 0 in
          let bytes := write16 bytes 18 (urgent_pointer f) in
          let bytes := copy_at bytes minimum_header_octets options in
          let bytes := copy_at bytes (minimum_header_octets + size options)
                         (replicate (Z.to_nat (header - minimum_header_octets - size options)) 0) in
          let bytes := copy_at bytes header payload in
          Some (length, bytes ++ drop (Z.to_nat length) output).

Definition encode_with (checksum : list Z -> Z) (maximum : Z)
    (output : list Z) (f : Fields) (options payload : list Z) : option (Z * list Z) :=
  match encode_shape output f options payload maximum with
  | None => None
  | Some (length, output) =>
      let value := checksum (take (Z.to_nat length) output) in
      Some (length, write16 output 16 value)
  end.

Definition encode_ipv4 (output source destination : list Z) (f : Fields) (options payload : list Z) :=
  encode_with (Checksum.ipv4_upper_layer_checksum source destination next_header_tcp)
    maximum_ipv4_segment_octets output f options payload.

Definition encode_ipv6 (output source destination : list Z) (f : Fields) (options payload : list Z) :=
  encode_with (Checksum.ipv6_upper_layer_checksum source destination next_header_tcp)
    maximum_ipv6_segment_octets output f options payload.

(** *** Parsing *)

Definition parse_shape (bytes : list Z) : option View :=
  if size bytes <? minimum_header_octets then None
  else
    let header := Z.shiftr (get bytes 12) 4 * 4 in
    if (header <? minimum_header_octets) || (maximum_header_octets <? header) || (size bytes <? header)
    then None
    else
      let options := take (Z.to_nat (header - minimum_header_octets))
                       (drop (Z.to_nat minimum_header_octets) bytes) in
      if negb (validate_options options) then None
      else Some (mkView
        (mkFields (read16 bytes 0) (read16 bytes 2) (read32 bytes 4) (read32 bytes 8)
           (get bytes 13) (read16 bytes 14) (read16 bytes 18))
        (read16 bytes 16) options (drop (Z.to_nat header) bytes)).

Definition parse_with (checksum : list Z -> Z) (maximum : Z) (bytes : list Z) : option View :=
  if (maximum <? size bytes) || negb (checksum bytes =? 0) then None else parse_shape bytes.

Definition parse_ipv4 (bytes source destination : list Z) : option View :=
  parse_with (Checksum.ipv4_upper_layer_checksum source destination next_header_tcp)
    maximum_ipv4_segment_octets bytes.

Definition parse_ipv6 (bytes source destination : list Z) : option View :=
  parse_with (Checksum.ipv6_upper_layer_checksum source destination next_header_tcp)
    maximum_ipv6_segment_octets bytes.

(** ** The layout of an encoded segment *)

(** The fixed header with a given checksum field; [offset] is the octet that
    holds the data offset. *)
Definition header_bytes (f : Fields) (offset cs : Z) : list Z :=
  be16 (source_port f) ++ be16 (destination_port f) ++ be32 (sequence f)
  ++ be32 (acknowledgment f) ++ [offset; flags f] ++ be16 (window f) ++ be16 cs
  ++ be16 (urgent_pointer f).

Definition typed (f : Fields) : Prop :=
  is_u16 (source_port f) /\ is_u16 (destination_port f) /\ is_u32 (sequence f)
  /\ is_u32 (acknowledgment f) /\ is_u8 (flags f) /\ is_u16 (window f) /\ is_u16 (urgent_pointer f).

Lemma split20 (l : list Z) :
  (20 <= length l)%nat ->
  exists a0 a1 a2 a3 a4 a5 a6 a7 a8 a9 a10 a11 a12 a13 a14 a15 a16 a17 a18 a19 r,
    l = a0 :: a1 :: a2 :: a3 :: a4 :: a5 :: a6 :: a7 :: a8 :: a9 :: a10 :: a11 :: a12 :: a13
        :: a14 :: a15 :: a16 :: a17 :: a18 :: a19 :: r.
Proof.
  intros H. do 20 (destruct l as [|? l]; [cbn in H; lia|]). do 21 eexists. reflexivity.
Qed.

(** The writes of [encode_shape] fill the whole fixed header. *)
Lemma packet_header_writes bytes f offset :
  (20 <= length bytes)%nat ->
  write16 (write16 (write16 (put (put (write32 (write32 (write16 (write16 bytes
    0 (source_port f)) 2 (destination_port f)) 4 (sequence f)) 8 (acknowledgment f))
    12 offset) 13 (flags f)) 14 (window f)) 16 0) 18 (urgent_pointer f)
  = header_bytes f offset 0 ++ drop 20 bytes.
Proof.
  intros H. apply split20 in H.
  destruct H as (?&?&?&?&?&?&?&?&?&?&?&?&?&?&?&?&?&?&?&?&r&->). reflexivity.
Qed.

Lemma packet_checksum_write f offset cs rest :
  write16 (header_bytes f offset 0 ++ rest) 16 cs = header_bytes f offset cs ++ rest.
Proof. reflexivity. Qed.

Lemma length_header f offset cs : length (header_bytes f offset cs) = 20%nat.
Proof. reflexivity. Qed.

Lemma copy_at_prefix pre bs rest k bs' :
  k = Z.of_nat (length pre) -> length bs' = length bs ->
  copy_at (pre ++ bs ++ rest) k bs' = pre ++ bs' ++ rest.
Proof.
  intros -> Hl. unfold copy_at. rewrite Nat2Z.id, take_app_length. f_equal. f_equal.
  rewrite Hl, app_assoc, <- length_app, drop_app_length. done.
Qed.

Definition padding (options : list Z) : list Z :=
  replicate (Z.to_nat (Z.land (size options + 3) (Z.lnot 3) - size options)) 0.

(** Alignment to 32 bits. *)
Lemma align4 n : 0 <= n -> Z.land (n + 3) (Z.lnot 3) = 4 * ((n + 3) / 4).
Proof.
  intros Hn. change 3 with (Z.ones 2) at 2. rewrite <- Z.ldiff_land, Z.ldiff_ones_r by lia.
  rewrite Z.shiftl_mul_pow2, Z.shiftr_div_pow2 by lia. lia.
Qed.

Lemma packet_encode_shape out f options payload maximum n out' :
  encode_shape out f options payload maximum = Some (n, out') ->
  validate_options options = true
  /\ size options + size (padding options) = 4 * ((size options + 3) / 4)
  /\ size options + size (padding options) <= 40
  /\ n = 20 + size options + size (padding options) + size payload
  /\ n <= maximum /\ n <= size out
  /\ out' = (header_bytes f (u8 (Z.shiftl ((20 + size options + size (padding options)) / 4) 4)) 0
             ++ options ++ padding options ++ payload) ++ drop (Z.to_nat n) out.
Proof.
  unfold encode_shape. destruct (validate_options options); [|done]. cbn [negb orb].
  case_if; [done|]. assert (0 <= size options) by (unfold size; lia).
  assert (size (padding options) = 4 * ((size options + 3) / 4) - size options) as Ep.
  { unfold padding. rewrite align4 by done. unfold size at 1. rewrite length_replicate. lia. }
  assert (Z.land (size options + 3) (Z.lnot 3) = size options + size (padding options)) as ->
    by (rewrite align4; lia).
  unfold minimum_header_octets, maximum_option_octets.
  case_if; [done|]. case_if; [done|]. case_if; [done|]. intros [= <- <-].
  set (h := 20 + (size options + size (padding options))) in *.
  assert (0 <= size payload) by (unfold size; lia).
  split_and!; try done; try lia. f_equal.
  rewrite packet_header_writes by (rewrite length_take; unfold size in *; lia).
  replace (20 + size options + size (padding options)) with h by lia.
  set (hb := header_bytes _ _ _). assert (length hb = 20%nat) as Lh by apply length_header.
  set (rest := drop 20 _).
  assert (Z.of_nat (length rest) = size options + size (padding options) + size payload) as Lr.
  { unfold rest. rewrite length_drop, length_take. unfold size in *. lia. }
  rewrite <- (take_drop (length options) rest). set (r1 := drop (length options) rest).
  assert (Z.of_nat (length r1) = size (padding options) + size payload) as L1
    by (unfold r1; rewrite length_drop; unfold size in *; lia).
  rewrite copy_at_prefix by (rewrite ?length_take, ?Lh; unfold size in *; lia).
  rewrite <- (take_drop (length (padding options)) r1).
  set (r2 := drop _ r1).
  assert (Z.of_nat (length r2) = size payload) as L2
    by (unfold r2; rewrite length_drop; unfold size in *; lia).
  rewrite !app_assoc, <- (app_assoc _ _ r2).
  replace (replicate _ 0) with (padding options)
    by (unfold padding, h; rewrite align4 by done; f_equal; lia).
  rewrite copy_at_prefix
    by (rewrite ?length_app, ?length_take, ?Lh; unfold size in *; lia).
  pose proof (copy_at_prefix ((hb ++ options) ++ padding options) r2 [] h payload) as C.
  rewrite !app_nil_r, <- (app_assoc _ _ r2) in C. rewrite C; [now rewrite <- !app_assoc| |].
  - rewrite !length_app, Lh. unfold h, size. lia.
  - unfold size in *. lia.
Qed.

(** ** Option validation *)

Lemma standard_length_positive k n : standard_length_is_valid k n = true -> 2 <= n.
Proof. unfold standard_length_is_valid. cases; intros; bool_to_prop; lia. Qed.

(** As much fuel as octets is enough. *)
Lemma validate_from_fuel n m rest :
  (length rest <= n)%nat -> (length rest <= m)%nat -> validate_from n rest = validate_from m rest.
Proof.
  revert m rest. induction n as [|n IH]; intros m rest Hn Hm.
  - destruct rest; [|cbn in Hn; lia]. now destruct m.
  - destruct m as [|m]; [destruct rest; [done|cbn in Hm; lia]|].
    destruct rest as [|k [|len tail]]; cbn [validate_from]; [done| |].
    + case_if; [done|]. case_if; [|done]. now apply IH; cbn in *; lia.
    + case_if; [done|]. cbn [length] in *. case_if; [apply IH; cbn [length]; lia|].
      destruct (standard_length_is_valid k len) eqn:Ev; [|done]. cbn [negb orb].
      case_if; [done|]. apply standard_length_positive in Ev.
      apply IH; rewrite length_drop; cbn [length]; lia.
Qed.

Lemma forallb_zero_app l n :
  forallb (fun v => v =? 0) (l ++ replicate n 0) = forallb (fun v => v =? 0) l.
Proof.
  rewrite forallb_app. replace (forallb _ (replicate n 0)) with true; [apply andb_true_r|].
  induction n; cbn; congruence.
Qed.

(** Zero padding after a well-formed option list is an EOL with its padding. *)
Lemma validate_from_padded fuel o n :
  (length (o ++ replicate n 0%Z) <= fuel)%nat -> validate_from fuel o = true ->
  validate_from fuel (o ++ replicate n 0) = true.
Proof.
  revert o. induction fuel as [|fuel IH]; intros o Hl Hv.
  - destruct o; [|cbn in Hl; lia]. now destruct n.
  - destruct o as [|k tail].
    { destruct n as [|n]; [done|]. cbn. clear. induction n; cbn; congruence. }
    cbn [validate_from app] in *. destruct (k =? 0).
    { change (k :: tail ++ replicate n 0) with ((k :: tail) ++ replicate n 0).
      now rewrite forallb_zero_app. }
    cbn [length] in Hl. destruct (k =? 1); [apply IH; [lia|done]|].
    destruct tail as [|len tail]; [done|]. cbn [app].
    destruct (standard_length_is_valid k len) eqn:Ev; [|done].
    pose proof (standard_length_positive _ _ Ev). cbn [negb orb] in *.
    destruct (Z.ltb_spec (size (k :: len :: tail)) len) as [|Hlen]; [done|].
    change (k :: len :: tail ++ replicate n 0) with ((k :: len :: tail) ++ replicate n 0).
    assert (size ((k :: len :: tail) ++ replicate n 0) <? len = false) as ->
      by (apply Z.ltb_ge; unfold size in *; rewrite length_app, Nat2Z.inj_add; lia).
    assert (Z.to_nat len <= length (k :: len :: tail))%nat as Hd by (unfold size in Hlen; lia).
    rewrite drop_app_le by done. apply IH; [|done].
    rewrite length_app, length_drop in *. cbn [length] in *. lia.
Qed.

Lemma packet_padded_valid o : validate_options o = true -> validate_options (o ++ padding o) = true.
Proof.
  intros Hv. unfold validate_options in *. apply validate_from_padded; [done|].
  rewrite (validate_from_fuel _ (length o)); [done|rewrite length_app; lia|lia].
Qed.

(** ** Reading back *)

Lemma packet_parse_shape f offset cs opts pay :
  typed f -> is_u16 cs -> Z.shiftr offset 4 * 4 = 20 + size opts -> size opts <= 40 ->
  validate_options opts = true ->
  parse_shape (header_bytes f offset cs ++ opts ++ pay) = Some (mkView f cs opts pay).
Proof.
  intros (T1 & T2 & T3 & T4 & T5 & T6 & T7) Hc Ho Hl Hv. unfold parse_shape.
  set (hb := header_bytes f offset cs). assert (length hb = 20%nat) as Lh by apply length_header.
  change (get (hb ++ opts ++ pay) 12) with offset. rewrite Ho.
  unfold minimum_header_octets, maximum_header_octets.
  assert (size (hb ++ opts ++ pay) = 20 + size opts + size pay) as ->
    by (unfold size; rewrite !length_app, Lh; lia).
  assert (0 <= size opts) by (unfold size; lia). assert (0 <= size pay) by (unfold size; lia).
  replace (20 + size opts + size pay <? 20) with false by lia.
  replace (_ || _) with false by blia.
  replace (Z.to_nat (20 + size opts - 20)) with (length opts) by (unfold size; lia).
  rewrite (drop_app_length' hb) by (rewrite Lh; lia).
  rewrite take_app_length, Hv. cbn [negb].
  rewrite app_assoc, drop_app_length' by (rewrite length_app, Lh; unfold size; lia).
  rewrite <- app_assoc. f_equal. f_equal; [|exact (be16_read cs Hc)].
  destruct f as [sp dp sq ak fl wn ug]; cbn in *.
  f_equal; [exact (be16_read sp T1)|exact (be16_read dp T2)|exact (be32_read sq T3)
    |exact (be32_read ak T4)|exact (be16_read wn T6)|exact (be16_read ug T7)].
Qed.

(** ** Round trip *)

Section Codec.
Context (cks : list Z -> Z) (maximum : Z) `{A : !Checksum.Additive cks 65535}.

(** A segment written with its checksum verifies and parses back. *)
Lemma packet_parse_encode out f options payload n out' :
  typed f -> Checksum.bytes_ok options -> Checksum.bytes_ok payload -> maximum <= 65535 ->
  encode_with cks maximum out f options payload = Some (n, out') ->
  n = 20 + size options + size (padding options) + size payload
  /\ drop (Z.to_nat n) out' = drop (Z.to_nat n) out
  /\ exists c, parse_with cks maximum (take (Z.to_nat n) out')
       = Some (mkView f c (options ++ padding options) payload).
Proof.
  intros Tf Bo Bp Hm He. unfold encode_with in He.
  destruct (encode_shape _ _ _ _ _) as [[n1 out1]|] eqn:Es; [|done]. injection He as <- <-.
  apply packet_encode_shape in Es as (Hv & Hp & Hp40 & Hn & Hmax & Hout & ->).
  set (opts := options ++ padding options).
  assert (size opts = size options + size (padding options)) as So
    by apply size_app.
  pose proof (size_nonneg options). pose proof (size_nonneg payload).
  set (off := u8 _) in *.
  assert (Z.shiftr off 4 * 4 = 20 + size opts) as Hoff.
  { unfold off. rewrite Z.shiftl_mul_pow2, Z.shiftr_div_pow2 by lia.
    change (2 ^ 4) with 16. rewrite So. unfold u8. lia. }
  set (tail := opts ++ payload).
  replace (options ++ padding options ++ payload) with tail by (unfold tail, opts; now rewrite <- app_assoc).
  assert (length (header_bytes f off 0 ++ tail) = Z.to_nat n1) as L0
    by (rewrite length_app, length_header; unfold tail; rewrite length_app; unfold size in *; lia).
  rewrite (take_app_length' (header_bytes f off 0 ++ tail)) by done.
  set (c := cks _).
  assert (Checksum.bytes_ok (header_bytes f off 0 ++ tail)) as Hbytes.
  { destruct Tf as (_ & _ & _ & _ & Tfl & _). apply list.Forall_app. split.
    - unfold header_bytes, be16, be32. cbn [app].
      repeat (apply list.Forall_cons; split); try apply u8_range; [exact Tfl|constructor].
    - unfold tail, opts. rewrite !list.Forall_app. split_and!; try done.
      apply Forall_replicate. unfold is_u8; lia. }
  destruct (A n1 ltac:(lia)) as (k & Hk & Hck).
  pose proof (Checksum.words_bound _ Hbytes ltac:(lia)) as Wb.
  assert (c = Checksum.finish (k + Checksum.words (header_bytes f off 0 ++ tail))) as Ec
    by (apply Hck; [done|lia]).
  assert (is_u16 c) as Hc.
  { rewrite Ec, Checksum.finish_spec by (unfold is_u32; lia).
    pose proof (Checksum.residue_range (k + Checksum.words (header_bytes f off 0 ++ tail)) ltac:(lia)).
    unfold is_u16; lia. }
  assert (write16 ((header_bytes f off 0 ++ tail) ++ drop (Z.to_nat n1) out) 16 c
          = (header_bytes f off c ++ tail) ++ drop (Z.to_nat n1) out) as -> by reflexivity.
  assert (length (header_bytes f off c ++ tail) = Z.to_nat n1) as L1 by exact L0.
  split; [done|]. split; [now rewrite drop_app_length'|]. exists c.
  rewrite take_app_length' by done. unfold parse_with.
  assert (size (header_bytes f off c ++ tail) = n1) as Sz by (unfold size; lia). rewrite Sz.
  replace (maximum <? n1) with false by lia.
  assert (Checksum.words (header_bytes f off c ++ tail)
          = Checksum.words (header_bytes f off 0 ++ tail) + c) as Ew.
  { cbn [app header_bytes be16 be32 Checksum.words].
    change (u8 (Z.shiftr 0 8)) with 0. change (u8 0) with 0.
    rewrite (Z.shiftr_div_pow2 c) by lia. change (2 ^ 8) with 256. clear -Hc. word. }
  assert (Checksum.bytes_ok (header_bytes f off c ++ tail)) as Hbytes'.
  { apply list.Forall_app in Hbytes as [Hb1 Hb2]. apply list.Forall_app; split; [|done].
    destruct Tf as (_ & _ & _ & _ & Tfl & _). unfold header_bytes, be16, be32. cbn [app].
    repeat (apply list.Forall_cons; split); try apply u8_range; [exact Tfl|constructor]. }
  rewrite Hck by (done || lia). rewrite Ew, Z.add_assoc.
  rewrite (Checksum.finish_complete _ c); [|lia|lia|done]. cbn [orb negb Z.eqb].
  apply packet_parse_shape; try done; [lia|]. now apply packet_padded_valid.
Qed.
(** The encoder succeeds on every well-formed input that fits. *)
Lemma packet_encode_total out f options payload :
  validate_options options = true -> size options <= 40 ->
  20 + 4 * ((size options + 3) / 4) + size payload <= maximum ->
  20 + 4 * ((size options + 3) / 4) + size payload <= size out ->
  exists out', encode_with cks maximum out f options payload
    = Some (20 + 4 * ((size options + 3) / 4) + size payload, out').
Proof.
  intros Hv Ho Hm Hl. pose proof (size_nonneg options).
  unfold encode_with, encode_shape. rewrite Hv, align4 by done.
  unfold maximum_option_octets, minimum_header_octets. cbn [negb orb].
  replace (40 <? size options) with false by lia.
  replace (40 <? 4 * ((size options + 3) / 4)) with false by lia.
  replace (maximum - _ <? size payload) with false by lia.
  replace (size out <? _) with false by lia. cbv zeta. eauto.
Qed.

Lemma packet_roundtrip out f options payload :
  typed f -> Checksum.bytes_ok options -> Checksum.bytes_ok payload -> maximum <= 65535 ->
  validate_options options = true -> size options <= 40 ->
  let n := 20 + 4 * ((size options + 3) / 4) + size payload in
  n <= maximum -> n <= size out ->
  exists out' c, encode_with cks maximum out f options payload = Some (n, out')
    /\ parse_with cks maximum (take (Z.to_nat n) out')
       = Some (mkView f c (options ++ padding options) payload)
    /\ drop (Z.to_nat n) out' = drop (Z.to_nat n) out.
Proof.
  intros Tf Bo Bp Hmx Hv Ho n Hm Hl.
  destruct (packet_encode_total out f options payload Hv Ho Hm Hl) as [out' He].
  destruct (packet_parse_encode out f options payload n out' Tf Bo Bp Hmx He) as (_ & Hd & c & Hp).
  exists out', c. done.
Qed.
End Codec.

(** C40: every segment survives the wire.  For all header fields, all well-formed
    options, every payload that fits and both address families, encoding
    succeeds, writes exactly the computed number of octets, leaves the rest of
    the buffer alone, and parsing those octets yields the same fields and
    payload and the options followed only by zero padding. *)
Theorem tcp_segment_roundtrip out s4 d4 s6 d6 f options payload :
  typed f -> Checksum.bytes_ok options -> Checksum.bytes_ok payload ->
  Checksum.bytes_ok (s4 ++ d4) -> length s4 = 4%nat -> length d4 = 4%nat ->
  Checksum.bytes_ok (s6 ++ d6) -> length s6 = 16%nat -> length d6 = 16%nat ->
  validate_options options = true -> size options <= 40 ->
  let n := 20 + 4 * ((size options + 3) / 4) + size payload in
  n <= size out ->
  (n <= maximum_ipv4_segment_octets -> exists out' c,
     encode_ipv4 out s4 d4 f options payload = Some (n, out')
     /\ parse_ipv4 (take (Z.to_nat n) out') s4 d4
        = Some (mkView f c (options ++ padding options) payload)
     /\ drop (Z.to_nat n) out' = drop (Z.to_nat n) out)
  /\ (n <= maximum_ipv6_segment_octets -> exists out' c,
     encode_ipv6 out s6 d6 f options payload = Some (n, out')
     /\ parse_ipv6 (take (Z.to_nat n) out') s6 d6
        = Some (mkView f c (options ++ padding options) payload)
     /\ drop (Z.to_nat n) out' = drop (Z.to_nat n) out).
Proof.
  intros Tf Bo Bp B4 Ls4 Ld4 B6 Ls6 Ld6 Hv Ho n Hl.
  apply list.Forall_app in B4 as [Bs4 Bd4]. apply list.Forall_app in B6 as [Bs6 Bd6].
  assert (is_u8 next_header_tcp) as Ip by done.
  pose proof (Checksum.ipv4_checksum_additive s4 d4 _ Bs4 Bd4 Ls4 Ld4 Ip).
  pose proof (Checksum.ipv6_checksum_additive s6 d6 _ Bs6 Bd6 Ls6 Ld6 Ip).
  split; intros Hm; apply packet_roundtrip; try done.
Qed.

Example tcp_segment_roundtrip_witness :
  exists out' c, encode_ipv4 (replicate 40 7) [10; 0; 0; 1] [10; 0; 0; 2]
      (mkFields 80 49152 1 2 24 512 0) [2; 4; 5; 180; 1] [72; 105; 33] = Some (31, out')
    /\ parse_ipv4 (take 31 out') [10; 0; 0; 1] [10; 0; 0; 2]
      = Some (mkView (mkFields 80 49152 1 2 24 512 0) c [2; 4; 5; 180; 1; 0; 0; 0] [72; 105; 33])
    /\ drop 31 out' = replicate 9 7.
Proof.
  refine (proj1 (tcp_segment_roundtrip (replicate 40 7) [10; 0; 0; 1] [10; 0; 0; 2]
    (replicate 16 1) (replicate 16 2) (mkFields 80 49152 1 2 24 512 0) [2; 4; 5; 180; 1] [72; 105; 33]
    _ _ _ _ _ _ _ _ _ _ _ _) _);
    try reflexivity; try (repeat constructor; vm_compute; congruence); vm_compute; intuition congruence.
Defined.

End Packet.
