(* ===== verification/Options.v ===== *)
(** * TCP options (core/src/transport/tcp_options.cpp): typed parsing, SYN offers
    and negotiation, window scaling, SACK and timestamp encoding, PAWS. *)

From S2P Require Import Prelude Arena Sequence Blocks Packet.
Import Arena Blocks.

Module Options.

Inductive InternetFamily := ipv4 | ipv6.

(** [sack_blocks] is the first [sack_block_count] entries of the array of 4. *)
Record TypedOptions := mkTyped {
  maximum_segment_size : option Z;
  window_scale : option Z;
  timestamp_value_ : option Z;
  timestamp_echo_reply : option Z;
  sack_blocks : list SackBlock;
  sack_permitted : bool
}.
#[export] Instance typed_settable : Settable TypedOptions := fun o =>
  mkTyped (maximum_segment_size o) (window_scale o) (timestamp_value_ o) (timestamp_echo_reply o)
    (sack_blocks o) (sack_permitted o).

Definition no_options : TypedOptions := mkTyped None None None None [] false.

(** The SACK loop from [offset] on; one round per block. *)
Fixpoint read_blocks (fuel : nat) (raw : list Z) (offset : Z) (blocks : list SackBlock)
    : option (list SackBlock) :=
  match fuel with
  | O => Some blocks
  | S fuel =>
      if size raw <=? offset then Some blocks
      else if 4 <=? size blocks then None
      else
        let left := Packet.read32 raw offset in
        let right := Packet.read32 raw (offset + 4) in
        if negb (Sequence.after right left) then None
        else read_blocks fuel raw (offset + 8) (blocks ++ [mkBlock left right])
  end.

(** The body of the [switch]. *)
Definition apply_option (o : Packet.OptionView) (parsed : TypedOptions) : option TypedOptions :=
  let raw := Packet.raw o in
  let kind := Packet.kind o in
  if (kind =? 0) || (kind =? 1) then Some parsed
  else if kind =? 2 then
    if has_value (maximum_segment_size parsed) then Some parsed
    else
      let value := Packet.read16 raw 2 in
      Some (if negb (value =? 0) then parsed <| maximum_segment_size := Some value |> else parsed)
  else if kind =? 3 then
    Some (if has_value (window_scale parsed) then parsed
          else parsed <| window_scale := Some (get raw 2) |>)
  else if kind =? 4 then Some (parsed <| sack_permitted := true |>)
  else if kind =? 5 then
    match read_blocks (length raw) raw 2 (sack_blocks parsed) with
    | None => None
    | Some blocks => Some (parsed <| sack_blocks := blocks |>)
    end
  else if kind =? 8 then
    Some (if has_value (timestamp_value_ parsed) then parsed
          else parsed <| timestamp_value_ := Some (Packet.read32 raw 2) |>
                      <| timestamp_echo_reply := Some (Packet.read32 raw 6) |>)
  else Some parsed.

Fixpoint parse_from (fuel : nat) (rest : list Z) (parsed : TypedOptions) : option TypedOptions :=
  match fuel with
  | O => Some parsed
  | S fuel =>
      match Packet.next_option rest with
      | None => Some parsed
      | Some (o, rest) =>
          match apply_option o parsed with
          | None => None
          | Some parsed => parse_from fuel rest parsed
          end
      end
  end.

Definition parse_typed_options (options : list Z) : option TypedOptions :=
  if negb (Packet.validate_options options) then None
  else parse_from (length options) options no_options.

(** *** SYN offers *)

Record SynOptionOffer := mkOffer {
  receive_mss : Z;
  offer_receive_window_shift : Z;
  offer_window_scale : bool;
  offer_timestamps : bool;
  offer_sack : bool;
  offer_timestamp_value : Z;
  offer_timestamp_echo_reply : Z
}.

(** [while (shift < 14 && (capacity >> shift) > 65535) ++shift]; 14 rounds. *)
Fixpoint choose_shift (fuel : nat) (receive_capacity shift : Z) : Z :=
  match fuel with
  | O => shift
  | S fuel =>
      if (shift <? 14) && (65535 <? Z.shiftr receive_capacity shift)
      then choose_shift fuel receive_capacity (shift + 1) else shift
  end.

Definition make_syn_offer (maximum_transport_message receive_capacity : Z)
    (window_scale timestamps sack : bool) (timestamp : Z) : option SynOptionOffer :=
  if (maximum_transport_message <=? Packet.minimum_header_octets)
     || (receive_capacity =? 0) || (two30 <? receive_capacity)
  then None
  else
    let raw_mss := maximum_transport_message - Packet.minimum_header_octets in
    let mss := Z.min raw_mss 65535 in
    let shift := if window_scale then choose_shift 14 receive_capacity 0 else 0 in
    Some (mkOffer mss shift window_scale timestamps sack timestamp 0).

(** [std::array<std::uint8_t, 10> bytes{8, 10}] and the two stores. *)
Definition encode_timestamp_option (value echo : Z) : list Z :=
  Packet.write32 (Packet.write32 [8; 10; 0; 0; 0; 0; 0; 0; 0; 0] 2 value) 6 echo.

(** The octets written at the start of an output of [output_size] octets. *)
Definition encode_syn_options (output_size : Z) (offer : SynOptionOffer) : option (list Z) :=
  if (receive_mss offer =? 0) || (14 <? offer_receive_window_shift offer) then None
  else
    let required := 4 + (if offer_sack offer then 2 else 0)
                    + (if offer_timestamps offer then 10 else 0)
                    + (if offer_window_scale offer then 3 else 0) in
    if (output_size <? required) || (Packet.maximum_option_octets <? required) then None
    else Some
      ([2; 4; u8 (Z.shiftr (receive_mss offer) 8); u8 (receive_mss offer)]
       ++ (if offer_sack offer then [4; 2] else [])
       ++ (if offer_timestamps offer
           then encode_timestamp_option (offer_timestamp_value offer) (offer_timestamp_echo_reply offer)
           else [])
       ++ (if offer_window_scale offer then [3; 3; offer_receive_window_shift offer] else [])).

Record NegotiatedOptions := mkNegotiated {
  send_mss : Z;
  send_window_shift : Z;
  receive_window_shift : Z;
  window_scaling : bool;
  timestamps : bool;
  sack : bool
}.

Definition default_send_mss (family : InternetFamily) : Z :=
  match family with ipv4 => 536 | ipv6 => 1220 end.

Definition negotiate_options (family : InternetFamily) (local_offer : SynOptionOffer)
    (peer_syn : TypedOptions) : NegotiatedOptions :=
  let peer_shift := Z.min (value_or 0 (window_scale peer_syn)) 14 in
  let scaling := offer_window_scale local_offer && has_value (window_scale peer_syn) in
  mkNegotiated
    (value_or (default_send_mss family) (maximum_segment_size peer_syn))
    (if scaling then peer_shift else 0)
    (if scaling then offer_receive_window_shift local_offer else 0)
    scaling
    (offer_timestamps local_offer && has_value (timestamp_value_ peer_syn))
    (offer_sack local_offer && sack_permitted peer_syn).

Definition effective_send_mss (negotiated_send_mss maximum_transport_message
    tcp_header_octets ip_option_octets : Z) : Z :=
  if (negotiated_send_mss =? 0) || (tcp_header_octets <? Packet.minimum_header_octets) then 0
  else
    let peer_limit := negotiated_send_mss + Packet.minimum_header_octets in
    let transport_limit := Z.min peer_limit maximum_transport_message in
    let overhead := tcp_header_octets + ip_option_octets in
    if transport_limit <=? overhead then 0 else transport_limit - overhead.

Definition decode_peer_window (wire_window : Z) (syn_segment : bool) (options : NegotiatedOptions) : Z :=
  if syn_segment || negb (window_scaling options) then wire_window
  else u32 (Z.shiftl wire_window (send_window_shift options)).

Definition encode_receive_window (receive_window : Z) (syn_segment : bool)
    (options : NegotiatedOptions) : Z :=
  let scaled := if syn_segment || negb (window_scaling options) then receive_window
                else Z.shiftr receive_window (receive_window_shift options) in
  Z.min scaled 65535.

(** The octets of a SACK option, at the start of the output. *)
Fixpoint encode_blocks (blocks : list SackBlock) : option (list Z) :=
  match blocks with
  | [] => Some []
  | b :: blocks =>
      if negb (Sequence.after (right_edge b) (left_edge b)) then None
      else match encode_blocks blocks with
           | None => None
           | Some bytes => Some (be32 (left_edge b) ++ be32 (right_edge b) ++ bytes)
           end
  end.

Definition encode_sack_option (output_size : Z) (blocks : list SackBlock) : option (list Z) :=
  if (size blocks =? 0) || (4 <? size blocks) then None
  else
    let length := 2 + size blocks * 8 in
    if output_size <? length then None
    else match encode_blocks blocks with
         | None => None
         | Some bytes => Some (5 :: length :: bytes)
         end.

(** ** Round trips *)

Definition offer_typed (o : SynOptionOffer) : Prop :=
  0 < receive_mss o < 65536 /\ 0 <= offer_receive_window_shift o <= 14
  /\ is_u32 (offer_timestamp_value o) /\ is_u32 (offer_timestamp_echo_reply o).

(** What a peer reads out of an offer. *)
Definition offered (o : SynOptionOffer) : TypedOptions :=
  mkTyped (Some (receive_mss o))
    (if offer_window_scale o then Some (offer_receive_window_shift o) else None)
    (if offer_timestamps o then Some (offer_timestamp_value o) else None)
    (if offer_timestamps o then Some (offer_timestamp_echo_reply o) else None)
    [] (offer_sack o).

Definition syn_octets (o : SynOptionOffer) : Z :=
  4 + (if offer_sack o then 2 else 0) + (if offer_timestamps o then 10 else 0)
  + (if offer_window_scale o then 3 else 0).

(** The options this module encodes, as it lays them out. *)
Definition syn_bytes (o : SynOptionOffer) : list Z :=
  [2; 4] ++ be16 (receive_mss o)
  ++ (if offer_sack o then [4; 2] else [])
  ++ (if offer_timestamps o
      then [8; 10] ++ be32 (offer_timestamp_value o) ++ be32 (offer_timestamp_echo_reply o)
      else [])
  ++ (if offer_window_scale o then [3; 3; offer_receive_window_shift o] else []).

Lemma options_encode_syn output_size o :
  offer_typed o -> syn_octets o <= output_size -> encode_syn_options output_size o = Some (syn_bytes o).
Proof.
  intros (Hm & Hs & _) Hl. unfold encode_syn_options. fold (syn_octets o).
  replace (receive_mss o =? 0) with false by lia.
  replace (14 <? offer_receive_window_shift o) with false by lia. cbn [orb].
  replace (output_size <? syn_octets o) with false by lia.
  replace (Packet.maximum_option_octets <? syn_octets o) with false
    by (unfold syn_octets, Packet.maximum_option_octets; cases; lia).
  reflexivity.
Qed.

(** *** Option lists as kind, length and value *)
Definition tlv (o : Z * list Z) : list Z := o.1 :: 2 + size o.2 :: o.2.

Definition tlv_ok (o : Z * list Z) : Prop :=
  o.1 <> 0 /\ o.1 <> 1 /\ Packet.standard_length_is_valid o.1 (2 + size o.2) = true.

Definition tlvs (os : list (Z * list Z)) : list Z := flat_map tlv os.

Fixpoint apply_all (os : list (Z * list Z)) (p : TypedOptions) : option TypedOptions :=
  match os with
  | [] => Some p
  | o :: os => match apply_option (Packet.mkOption o.1 (tlv o)) p with
               | None => None
               | Some p => apply_all os p
               end
  end.

Lemma size_tlv o : size (tlv o) = 2 + size o.2.
Proof. unfold size, tlv. cbn [length]. lia. Qed.

Lemma next_option_tlv o rest :
  tlv_ok o -> Packet.next_option (tlv o ++ rest) = Some (Packet.mkOption o.1 (tlv o), rest).
Proof.
  intros (H0 & H1 & Hv). pose proof (size_nonneg o.2). pose proof (size_nonneg rest).
  unfold Packet.next_option, tlv at 1. cbn [app].
  replace (o.1 =? 0) with false by lia. replace (o.1 =? 1) with false by lia. rewrite Hv.
  change (o.1 :: 2 + size o.2 :: o.2 ++ rest) with (tlv o ++ rest).
  assert (Z.to_nat (2 + size o.2) = length (tlv o)) as El
    by (unfold tlv, size in *; cbn [length]; lia).
  rewrite size_app, size_tlv. replace (_ <? _) with false by lia. cbn [negb orb].
  rewrite El, take_app_length, drop_app_length. done.
Qed.

Lemma validate_tlv fuel o rest :
  tlv_ok o -> Packet.validate_from (S fuel) (tlv o ++ rest) = Packet.validate_from fuel rest.
Proof.
  intros (H0 & H1 & Hv). pose proof (size_nonneg o.2). pose proof (size_nonneg rest).
  unfold tlv at 1. cbn [app Packet.validate_from].
  replace (o.1 =? 0) with false by lia. replace (o.1 =? 1) with false by lia. rewrite Hv.
  change (o.1 :: 2 + size o.2 :: o.2 ++ rest) with (tlv o ++ rest).
  assert (Z.to_nat (2 + size o.2) = length (tlv o)) as El
    by (unfold tlv, size in *; cbn [length]; lia).
  rewrite size_app, size_tlv. replace (_ <? _) with false by lia. cbn [negb orb].
  rewrite El, drop_app_length. done.
Qed.

Lemma length_tlvs os : (length os <= length (tlvs os))%nat.
Proof. unfold tlvs. induction os as [|o os IH]; cbn; [lia|]. rewrite length_app. lia. Qed.

Lemma validate_tlvs fuel os n :
  Forall tlv_ok os -> (length os <= fuel)%nat ->
  Packet.validate_from fuel (tlvs os ++ replicate n 0) = true.
Proof.
  intros Hos. revert fuel. induction Hos as [|o os Ho Hos IH]; intros fuel Hf.
  - cbn [tlvs flat_map app]. destruct n as [|n]; [now destruct fuel|].
    destruct fuel as [|fuel]; [done|]. cbn. clear. induction n; cbn; congruence.
  - destruct fuel as [|fuel]; [cbn in Hf; lia|]. cbn [tlvs flat_map]. rewrite <- app_assoc.
    rewrite validate_tlv by done. apply IH. cbn in Hf. lia.
Qed.

Lemma parse_tlvs_from fuel os n p :
  Forall tlv_ok os -> (length os <= fuel)%nat ->
  parse_from fuel (tlvs os ++ replicate n 0) p = apply_all os p.
Proof.
  intros Hos. revert fuel p. induction Hos as [|o os Ho Hos IH]; intros fuel p Hf.
  - cbn [tlvs flat_map app apply_all]. destruct fuel as [|fuel]; [done|].
    destruct n as [|n]; [done|]. cbn. now destruct fuel.
  - destruct fuel as [|fuel]; [cbn in Hf; lia|]. cbn [tlvs flat_map parse_from apply_all].
    rewrite <- app_assoc, next_option_tlv by done.
    destruct (apply_option _ p); [|done]. apply IH. cbn in Hf. lia.
Qed.

(** Well-formed options followed by header padding parse one by one. *)
Lemma parse_tlvs os n :
  Forall tlv_ok os -> parse_typed_options (tlvs os ++ replicate n 0) = apply_all os no_options.
Proof.
  intros Hos. unfold parse_typed_options, Packet.validate_options.
  pose proof (length_tlvs os). rewrite validate_tlvs by (done || (rewrite length_app; lia)).
  cbn [negb]. apply parse_tlvs_from; [done|]. rewrite length_app. lia.
Qed.

(** *** SYN options *)
Definition syn_tlvs (o : SynOptionOffer) : list (Z * list Z) :=
  [(2, be16 (receive_mss o))]
  ++ (if offer_sack o then [(4, [])] else [])
  ++ (if offer_timestamps o
      then [(8, be32 (offer_timestamp_value o) ++ be32 (offer_timestamp_echo_reply o))]
      else [])
  ++ (if offer_window_scale o then [(3, [offer_receive_window_shift o])] else []).

Lemma syn_bytes_tlvs o : syn_bytes o = tlvs (syn_tlvs o).
Proof.
  unfold syn_bytes, syn_tlvs. destruct (offer_sack o), (offer_timestamps o), (offer_window_scale o); reflexivity.
Qed.

Lemma syn_tlvs_ok o : Forall tlv_ok (syn_tlvs o).
Proof.
  unfold syn_tlvs. destruct (offer_sack o), (offer_timestamps o), (offer_window_scale o);
    cbn [app]; repeat (apply list.Forall_cons; split); try constructor; done.
Qed.

Lemma apply_mss v p :
  0 < v < 65536 -> maximum_segment_size p = None ->
  apply_option (Packet.mkOption 2 (tlv (2, be16 v))) p = Some (p <| maximum_segment_size := Some v |>).
Proof.
  intros Hv Hp. unfold apply_option. cbn [Packet.kind Packet.raw Z.eqb Pos.eqb orb]. rewrite Hp. cbn [has_value].
  change (Packet.read16 _ 2) with (u16 (Z.lor (Z.shiftl (u8 (Z.shiftr v 8)) 8) (u8 v))).
  rewrite be16_read by (unfold is_u16; lia). now replace (v =? 0) with false by lia.
Qed.

Lemma apply_timestamps v e p :
  is_u32 v -> is_u32 e -> timestamp_value_ p = None ->
  apply_option (Packet.mkOption 8 (tlv (8, be32 v ++ be32 e))) p
  = Some (p <| timestamp_value_ := Some v |> <| timestamp_echo_reply := Some e |>).
Proof.
  intros Hv He Hp. unfold apply_option. cbn [Packet.kind Packet.raw Z.eqb Pos.eqb orb]. rewrite Hp. cbn [has_value].
  assert (Packet.read32 (tlv (8, be32 v ++ be32 e)) 2 = v) as -> by exact (be32_read v Hv).
  assert (Packet.read32 (tlv (8, be32 v ++ be32 e)) 6 = e) as -> by exact (be32_read e He).
  done.
Qed.

Lemma apply_sack_permitted p :
  apply_option (Packet.mkOption 4 (tlv (4, []))) p = Some (p <| sack_permitted := true |>).
Proof. reflexivity. Qed.

Lemma apply_window_scale v p :
  window_scale p = None ->
  apply_option (Packet.mkOption 3 (tlv (3, [v]))) p = Some (p <| window_scale := Some v |>).
Proof. intros Hp. unfold apply_option. cbn. rewrite Hp. done. Qed.

Lemma syn_apply o : offer_typed o -> apply_all (syn_tlvs o) no_options = Some (offered o).
Proof.
  intros (Hm & Hs & Hv & He). unfold syn_tlvs. cbn [app apply_all fst]. rewrite apply_mss by done.
  unfold offered. destruct (offer_sack o), (offer_timestamps o), (offer_window_scale o);
    cbn [app apply_all fst]; rewrite ?apply_sack_permitted; rewrite ?apply_timestamps by done;
    rewrite ?apply_window_scale by done; reflexivity.
Qed.

(** *** SACK options *)
Definition block_ok (b : SackBlock) : Prop :=
  is_u32 (left_edge b) /\ is_u32 (right_edge b) /\ Sequence.after (right_edge b) (left_edge b) = true.

Definition block_bytes (bs : list SackBlock) : list Z :=
  flat_map (fun b => be32 (left_edge b) ++ be32 (right_edge b)) bs.

Lemma size_block_bytes bs : size (block_bytes bs) = 8 * size bs.
Proof.
  unfold size. induction bs as [|b bs IH]; [done|]. cbn [block_bytes flat_map].
  rewrite !length_app. fold (block_bytes bs). cbn [be32 length]. lia.
Qed.

Lemma get_app_r (pre l : list Z) k : 0 <= k -> get (pre ++ l) (size pre + k) = get l k.
Proof.
  intros Hk. unfold get. rewrite lookup_total_app_r by (unfold size; lia). f_equal. unfold size. lia.
Qed.

Lemma read32_app pre v rest :
  is_u32 v -> Packet.read32 (pre ++ be32 v ++ rest) (size pre) = v.
Proof.
  intros Hv. unfold Packet.read32. rewrite <- (Z.add_0_r (size pre)) at 1.
  rewrite !get_app_r by lia. exact (be32_read v Hv).
Qed.

Lemma options_encode_blocks bs : Forall block_ok bs -> encode_blocks bs = Some (block_bytes bs).
Proof.
  induction 1 as [|b bs (_ & _ & Hb) Hbs IH]; [done|]. cbn [encode_blocks block_bytes flat_map].
  rewrite Hb, IH. cbn [negb]. now rewrite <- app_assoc.
Qed.

Lemma options_read_blocks fuel pre bs acc :
  Forall block_ok bs -> size acc + size bs <= 4 -> (length bs <= fuel)%nat ->
  read_blocks fuel (pre ++ block_bytes bs) (size pre) acc = Some (acc ++ bs).
Proof.
  intros Hbs. revert fuel pre acc. induction Hbs as [|b bs (Hl & Hr & Ha) Hbs IH]; intros fuel pre acc Hs Hf.
  - cbn [block_bytes flat_map]. rewrite !app_nil_r. destruct fuel; [done|]. cbn [read_blocks].
    now rewrite Z.leb_refl.
  - destruct fuel as [|fuel]; [cbn in Hf; lia|]. cbn [read_blocks].
    rewrite size_app, size_block_bytes.
    pose proof (size_nonneg pre). pose proof (size_nonneg acc). pose proof (size_nonneg bs).
    assert (size (b :: bs) = 1 + size bs) as Ec by (unfold size; cbn [length]; lia). rewrite Ec in *.
    replace (_ <=? size pre) with false by lia. replace (4 <=? size acc) with false by lia.
    cbn [block_bytes flat_map]. rewrite <- app_assoc. fold (block_bytes bs).
    rewrite read32_app by done.
    assert (size pre + 4 = size (pre ++ be32 (left_edge b))) as ->
      by (rewrite size_app; done).
    rewrite (app_assoc pre), read32_app by done. rewrite Ha. cbn [negb].
    rewrite (app_assoc (pre ++ _)).
    replace (size pre + 8) with (size ((pre ++ be32 (left_edge b)) ++ be32 (right_edge b)))
      by (rewrite !size_app; change (size (be32 _)) with 4; lia).
    rewrite IH; [|rewrite size_app; change (size [mkBlock (left_edge b) (right_edge b)]) with 1; lia|cbn in Hf; lia].
    rewrite <- app_assoc. destruct b. done.
Qed.

(** What an endpoint puts in its options is what the peer reads.  Every SYN
    offer of a well-formed endpoint encodes, and parsing it, whatever header
    padding follows, gives exactly the offered MSS, shift, timestamps and SACK
    permission; and every list of one to four SACK blocks encodes and parses
    back to itself, in order. *)
Theorem tcp_options_roundtrip offer blocks output_size n :
  offer_typed offer -> syn_octets offer <= output_size ->
  Forall block_ok blocks -> 1 <= size blocks <= 4 -> 2 + 8 * size blocks <= output_size ->
  (exists bytes, encode_syn_options output_size offer = Some bytes
     /\ size bytes = syn_octets offer
     /\ parse_typed_options (bytes ++ replicate n 0) = Some (offered offer))
  /\ (exists bytes, encode_sack_option output_size blocks = Some bytes
     /\ size bytes = 2 + 8 * size blocks
     /\ parse_typed_options (bytes ++ replicate n 0) = Some (no_options <| sack_blocks := blocks |>)).
Proof.
  intros Ho Hl Hb Hs Hl'. split.
  - exists (syn_bytes offer). split; [now apply options_encode_syn|]. split.
    + unfold syn_bytes, syn_octets. destruct (offer_sack offer), (offer_timestamps offer), (offer_window_scale offer); reflexivity.
    + rewrite syn_bytes_tlvs, parse_tlvs by apply syn_tlvs_ok. now apply syn_apply.
  - pose proof (size_block_bytes blocks) as Eb.
    assert (tlv_ok (5, block_bytes blocks)) as Hok.
    { unfold tlv_ok; cbn [fst snd]. rewrite Eb. split; [done|]. split; [done|].
      unfold Packet.standard_length_is_valid. cbn [Z.eqb Pos.eqb]. blia. }
    exists (tlvs [(5, block_bytes blocks)]). split; [|split].
    + unfold encode_sack_option. replace (size blocks =? 0) with false by lia.
      replace (4 <? size blocks) with false by lia. cbn [orb].
      replace (output_size <? _) with false by lia. rewrite options_encode_blocks by done.
      unfold tlvs, tlv; cbn [flat_map fst snd]. rewrite app_nil_r, Eb. do 3 f_equal. lia.
    + unfold tlvs. cbn [flat_map]. rewrite app_nil_r, size_tlv. cbn [snd]. lia.
    + rewrite parse_tlvs by (now constructor). cbn [apply_all fst].
      unfold apply_option. cbn [Packet.kind Packet.raw Z.eqb Pos.eqb orb].
      pose proof (options_read_blocks (length (tlv (5, block_bytes blocks)))
        [5; 2 + size (block_bytes blocks)] blocks (sack_blocks no_options) Hb) as Rd.
      cbn [app] in Rd. change (size [5; _]) with 2 in Rd.
      change (5 :: 2 + size (block_bytes blocks) :: block_bytes blocks) with (tlv (5, block_bytes blocks)) in Rd.
      rewrite Rd; [done|change (size (sack_blocks no_options)) with 0; lia|].
      unfold size, tlv in *. cbn [length fst snd]. lia.
Qed.

Example tcp_options_roundtrip_witness :
  exists bytes, encode_sack_option 40 [mkBlock (two32 - 5) 3; mkBlock 10 20] = Some bytes
     /\ size bytes = 18
     /\ parse_typed_options (bytes ++ replicate 2 0)
        = Some (no_options <| sack_blocks := [mkBlock (two32 - 5) 3; mkBlock 10 20] |>).
Proof.
  apply (tcp_options_roundtrip (mkOffer 1460 7 true true true 99 0) [mkBlock (two32 - 5) 3; mkBlock 10 20] 40 2).
  - vm_compute. intuition congruence.
  - vm_compute. congruence.
  - repeat constructor; vm_compute; congruence.
  - vm_compute. intuition congruence.
  - vm_compute. congruence.
Defined.

(** ** Negotiation and window scaling *)

Lemma choose_shift_spec fuel c s :
  0 <= s <= 14 -> 14 - s <= Z.of_nat fuel ->
  let r := choose_shift fuel c s in
  s <= r <= 14 /\ (Z.shiftr c r <= 65535 \/ r = 14).
Proof.
  revert s. induction fuel as [|fuel IH]; intros s Hs Hf; cbn zeta; cbn [choose_shift]; [lia|].
  destruct (_ && _) eqn:E.
  - bool_to_prop. destruct (IH (s + 1)) as (H1 & H2); [lia|lia|]. split; [lia|done].
  - apply andb_false_iff in E. destruct E as [E|E]; bool_to_prop; lia.
Qed.

(** A window below 2^30 fits the wire field at the chosen shift. *)
Lemma scaled_window_fits c s w :
  0 <= w <= c -> w < two30 -> 0 <= s <= 14 -> Z.shiftr c s <= 65535 \/ s = 14 ->
  let heard := u32 (Z.shiftl (Z.min (Z.shiftr w s) 65535) s) in
  heard <= w /\ w - heard < 2 ^ s.
Proof.
  intros Hw Hw30 Hs Hc. cbv zeta. rewrite Z.shiftr_div_pow2 in * by lia.
  assert (0 < 2 ^ s) by (apply Z.pow_pos_nonneg; lia).
  assert (w / 2 ^ s <= 65535).
  { destruct Hc as [Hc| ->]; [|change (2 ^ 14) with 16384; lia].
    assert (w / 2 ^ s <= c / 2 ^ s) by (apply Z.div_le_mono; lia). lia. }
  rewrite Z.min_l, Z.shiftl_mul_pow2 by lia.
  pose proof (Z.mul_div_le w (2 ^ s)). pose proof (Z.div_pos w (2 ^ s)).
  pose proof (Z.mod_pos_bound w (2 ^ s)). pose proof (Z.div_mod w (2 ^ s)).
  rewrite u32_id by (unfold is_u32; nia). nia.
Qed.

(** The two ends agree on what they negotiated and windows are exact to one
    unit of the scale.  Whatever each side offers, after the exchange of SYNs
    they agree on scaling, on each direction's shift, on timestamps and on SACK,
    each sends at most the other's MSS, and a window the receiver can advertise
    is understood by the peer as at most that window and less than one scale
    unit below it (65535 at most when scaling is off), for the shift that
    [make_syn_offer] picks for the receive arena. *)
Theorem tcp_negotiation_agrees family a b mms capacity ws ts sk now w :
  make_syn_offer mms capacity ws ts sk now = Some a -> offer_typed a -> offer_typed b ->
  0 <= w <= capacity -> w < two30 ->
  let na := negotiate_options family a (offered b) in
  let nb := negotiate_options family b (offered a) in
  window_scaling na = window_scaling nb
  /\ receive_window_shift na = send_window_shift nb /\ receive_window_shift nb = send_window_shift na
  /\ timestamps na = timestamps nb /\ sack na = sack nb
  /\ send_mss na = receive_mss b /\ send_mss nb = receive_mss a
  /\ let heard := decode_peer_window (encode_receive_window w false na) false nb in
     heard <= w
     /\ (window_scaling na = true -> w - heard < 2 ^ receive_window_shift na)
     /\ (window_scaling na = false -> heard = Z.min w 65535).
Proof.
  intros Hm Ta Tb Hw Hw30 na nb. unfold make_syn_offer in Hm. case_if_in Hm; [done|]. bool_to_prop.
  injection Hm as <-. set (shift := if ws then _ else 0) in *.
  destruct Ta as (_ & Hsa & _). destruct Tb as (Hmb & Hsb & _). cbn [offer_receive_window_shift] in Hsa.
  assert (ws = true -> Z.shiftr capacity shift <= 65535 \/ shift = 14) as Hsh
    by (intros ->; exact (proj2 (choose_shift_spec 14 capacity 0 ltac:(lia) ltac:(lia)))).
  clearbody shift.
  unfold na, nb, negotiate_options; cbn [offered offer_window_scale offer_receive_window_shift
    offer_timestamps offer_sack receive_mss window_scaling receive_window_shift send_window_shift
    timestamps sack send_mss window_scale timestamp_value_ sack_permitted maximum_segment_size value_or].
  destruct (offer_window_scale b) eqn:Eb, ws; cbn [has_value andb value_or];
    (split_and!; [done|try lia|try lia|now destruct ts, (offer_timestamps b)|now destruct sk, (offer_sack b)|done|done|..]);
    unfold encode_receive_window, decode_peer_window; cbn [window_scaling receive_window_shift
      send_window_shift negb orb]; try (intros; discriminate); try (intros; lia); try lia.
  - rewrite (Z.min_l shift) by lia. now apply (scaled_window_fits capacity); auto.
  - intros _. rewrite (Z.min_l shift) by lia. now apply (scaled_window_fits capacity); auto.
Qed.

Example tcp_negotiation_agrees_witness :
  let a := mkOffer 1460 2 true true false 99 0 in
  let b := mkOffer 1400 7 true false true 5 0 in
  decode_peer_window
    (encode_receive_window 250001 false (negotiate_options ipv4 a (offered b))) false
    (negotiate_options ipv4 b (offered a)) = 250000
  /\ send_mss (negotiate_options ipv4 a (offered b)) = 1400.
Proof.
  intros a b. split; [reflexivity|].
  apply (tcp_negotiation_agrees ipv4 a b 1480 262140 true true false 99 250001);
    try reflexivity; vm_compute; intuition congruence.
Defined.

End Options.
(** *** PAWS *)
Module TimestampState.

Inductive TimestampAccept := accepted | missing_required | stale.

Definition maximum_recent_age : Z := 24 * 24 * 3600 * 1000000000.

Record t := mk {
  recent_ : Z;
  last_ack_sent_ : Z;
  recent_updated_at_ : Z;
  negotiated_ : bool;
  recent_present_ : bool
}.
#[export] Instance t_settable : Settable t := fun s =>
  mk (recent_ s) (last_ack_sent_ s) (recent_updated_at_ s) (negotiated_ s) (recent_present_ s).

Definition construct (negotiated : bool) : t := mk 0 0 0 negotiated false.

Definition accept (s : t) (rst : bool) (timestamp : option Z) (segment_sequence now : Z)
    : TimestampAccept * t :=
  if negb (negotiated_ s) || rst then (accepted, s)
  else match timestamp with
  | None => (missing_required, s)
  | Some timestamp =>
      let old := recent_present_ s && Sequence.before timestamp (recent_ s) in
      if old && (now - recent_updated_at_ s <=? maximum_recent_age) then (stale, s)
      else
        let s := if old then s <| recent_present_ := false |> else s in
        if negb (recent_present_ s)
           || (negb (Sequence.before timestamp (recent_ s))
               && negb (Sequence.after segment_sequence (last_ack_sent_ s)))
        then (accepted, s <| recent_ := timestamp |> <| recent_updated_at_ := now |>
                          <| recent_present_ := true |>)
        else (accepted, s)
  end.

Definition acknowledge_sent (s : t) (acknowledgment : Z) : t :=
  s <| last_ack_sent_ := acknowledgment |>.

Definition echo_reply (s : t) : Z := if recent_present_ s then recent_ s else 0.

Record Checkpoint := mkCheckpoint {
  recent : Z;
  last_ack_sent : Z;
  recent_age_nanoseconds : Z;
  negotiated : bool;
  recent_present : bool
}.

Definition checkpoint (s : t) (now : Z) : Checkpoint :=
  let age := if recent_present_ s && (recent_updated_at_ s <=? now)
             then now - recent_updated_at_ s else 0 in
  mkCheckpoint (recent_ s) (last_ack_sent_ s) age (negotiated_ s) (recent_present_ s).

Definition restore (s : t) (state : Checkpoint) (now : Z) : option t :=
  if (recent_age_nanoseconds state <? 0)
     || (negb (recent_present state) && negb (recent_age_nanoseconds state =? 0))
  then None
  else if now <? recent_age_nanoseconds state then None
  else Some (mk (recent state) (last_ack_sent state) (now - recent_age_nanoseconds state)
               (negotiated state) (recent_present state)).

(** [timestamp_value] of tcp_options.cpp *)
Definition timestamp_value (now origin connection_offset : Z) : Z :=
  if now <? origin then connection_offset
  else u32 (connection_offset + u32 (cdiv (now - origin) 1000000)).

(** ** PAWS against an unbounded clock

    The peer's timestamps are the low 32 bits of a clock that never wraps.  A
    segment is (clock value, sequence number, arrival time). *)
Record arrival := mkArrival { clock : Z; segment : Z; time : Z }.

(** RFC 7323 on the unbounded clock: reject what is older than the newest value
    taken from a segment at or below the last ACK. *)
Definition ideal (last_ack newest : Z) (a : arrival) : TimestampAccept * Z :=
  if clock a <? newest then (stale, newest)
  else (accepted, if Sequence.after (segment a) last_ack then newest else clock a).

Fixpoint run_ideal (last_ack newest : Z) (l : list arrival) : list TimestampAccept :=
  match l with
  | [] => []
  | a :: l => let (r, newest) := ideal last_ack newest a in r :: run_ideal last_ack newest l
  end.

Fixpoint run (s : t) (l : list arrival) : list TimestampAccept :=
  match l with
  | [] => []
  | a :: l => let (r, s) := accept s false (Some (u32 (clock a))) (segment a) (time a) in r :: run s l
  end.

Lemma before_unwrapped a b :
  - two31 < b - a < two31 -> Sequence.before (u32 a) (u32 b) = (a <? b).
Proof.
  intros H. unfold Sequence.before, Sequence.half_space. apply eq_true_iff_eq.
  rewrite andb_true_iff, negb_true_iff, Z.eqb_neq, !Z.ltb_lt. word.
Qed.

Lemma paws_step s newest a :
  negotiated_ s = true -> recent_present_ s = true -> recent_ s = u32 newest ->
  - two31 < newest - clock a < two31 -> time a - recent_updated_at_ s <= maximum_recent_age ->
  let (r, s') := accept s false (Some (u32 (clock a))) (segment a) (time a) in
  let (r', newest') := ideal (last_ack_sent_ s) newest a in
  r = r' /\ recent_ s' = u32 newest' /\ recent_present_ s' = true /\ negotiated_ s' = true
  /\ last_ack_sent_ s' = last_ack_sent_ s
  /\ (recent_updated_at_ s' = recent_updated_at_ s \/ recent_updated_at_ s' = time a).
Proof.
  intros Hn Hp Hr Hc Ht. unfold accept, ideal. rewrite Hn, Hp, Hr, before_unwrapped by lia. cbn [negb orb andb].
  replace (time a - recent_updated_at_ s <=? maximum_recent_age) with true by lia. rewrite andb_true_r.
  destruct (clock a <? newest) eqn:E; [tauto|]. cbn [negb andb].
  rewrite Hp, Hr, before_unwrapped, E by lia. cbn [negb andb orb].
  destruct (Sequence.after (segment a) (last_ack_sent_ s)); cbn; tauto.
Qed.

(** PAWS is right across timestamp wraps.  As long as the peer's clock spans
    less than 2^31 ticks and the connection is not idle for 24 days, the
    verdicts on any sequence of segments are those of the rule applied to a
    clock that never wraps; in particular nothing older than the newest
    timestamp taken in is accepted and nothing newer is refused. *)
Theorem paws_unwrapped s l newest lo t0 :
  negotiated_ s = true -> recent_present_ s = true -> recent_ s = u32 newest ->
  lo <= newest < lo + two31 -> t0 <= recent_updated_at_ s ->
  Forall (fun a => lo <= clock a < lo + two31 /\ t0 <= time a <= t0 + maximum_recent_age) l ->
  run s l = run_ideal (last_ack_sent_ s) newest l.
Proof.
  intros Hn Hp Hr Hnew Ht0 Hl. revert s newest Hn Hp Hr Hnew Ht0.
  induction Hl as [|a l [Hc Ht] Hl IH]; intros s newest Hn Hp Hr Hnew Ht0; [done|].
  cbn [run run_ideal]. pose proof (paws_step s newest a Hn Hp Hr ltac:(lia) ltac:(lia)) as St.
  assert (lo <= (ideal (last_ack_sent_ s) newest a).2 < lo + two31) as Hnew'
    by (unfold ideal; destruct (_ <? _); cbn; [lia|]; destruct (Sequence.after _ _); lia).
  destruct (accept _ _ _ _ _) as [r s']. destruct (ideal _ _ _) as [r' newest'].
  destruct St as (-> & H1 & H2 & H3 & H4 & H5). f_equal. rewrite <- H4. apply IH; try done.
  destruct H5 as [->| ->]; lia.
Qed.

Example paws_unwrapped_witness :
  run (mk (u32 (two32 - 3)) 100 5 true true)
    [mkArrival (two32 + 2) 90 10; mkArrival (two32 - 1) 90 20; mkArrival (two32 + 2) 200 30]
  = [accepted; stale; accepted].
Proof.
  etransitivity; [apply (paws_unwrapped (mk (u32 (two32 - 3)) 100 5 true true) _ (two32 - 3) (two32 - 10) 5)|].
  - reflexivity.
  - reflexivity.
  - reflexivity.
  - lia.
  - cbn. lia.
  - unfold maximum_recent_age. repeat constructor; cbn [clock time]; lia.
  - vm_compute. reflexivity.
Defined.

End TimestampState.
