(* ===== verification/ControlBlock.v ===== *)
(** * The TCP control block (core/src/transport/tcp_control_block.cpp).

    The RFC 9293 connection state machine: OPEN, the SYN exchange, ACK and RST
    processing, CLOSE, FIN, TIME-WAIT, control retransmission, checkpoints. *)

From S2P Require Import Prelude Catalog Sequence Checkpoint Retransmission Congestion Packet.

Module ControlBlock.

Module Estimator := Retransmission.RetransmissionEstimator.
Module Congestion := Congestion.CongestionController.

Inductive State :=
| closed | listen | syn_sent | syn_received | established | fin_wait_1 | fin_wait_2
| close_wait | closing | last_ack | time_wait.

(** The encoding of the enumeration, and comparison. *)
Definition index (s : State) : nat :=
  match s with
  | closed => 0 | listen => 1 | syn_sent => 2 | syn_received => 3 | established => 4
  | fin_wait_1 => 5 | fin_wait_2 => 6 | close_wait => 7 | closing => 8 | last_ack => 9 | time_wait => 10
  end.
Definition state_is (a b : State) : bool := (index a =? index b)%nat.

Lemma state_is_spec a b : state_is a b = true <-> a = b.
Proof. unfold state_is. destruct a, b; cbn; split; congruence. Qed.

Module Event.
Inductive t := none | established | peer_closed | connection_reset | connection_closed
             | data_requires_stream_owner.
End Event.

Record ControlResult := mkResult {
  segment : Packet.Fields;
  event : Event.t;
  emit : bool
}.

Definition no_segment : Packet.Fields := Packet.mkFields 0 0 0 0 0 0 0.
(** [return {};] *)
Definition nothing : ControlResult := mkResult no_segment Event.none false.
(** [return {.event = e};] *)
Definition only (e : Event.t) : ControlResult := mkResult no_segment e false.
(** [return {.segment = s, .emit = true};] *)
Definition send (s : Packet.Fields) : ControlResult := mkResult s Event.none true.

Record t := mk {
  retransmission_ : Estimator.t;
  congestion_ : Congestion.t;
  outstanding_control_ : Packet.Fields;
  retransmission_deadline_ : Z;
  time_wait_deadline_ : Z;
  send_unacknowledged_ : Z;
  send_next_ : Z;
  send_window_ : Z;
  send_window_sequence_ : Z;
  send_window_acknowledgment_ : Z;
  receive_next_ : Z;
  receive_window_ : Z;
  initial_send_sequence_ : Z;
  initial_receive_sequence_ : Z;
  local_port_ : Z;
  remote_port_ : Z;
  state_ : State;
  passive_open_ : bool;
  outstanding_control_present_ : bool;
  local_fin_sent_ : bool
}.
#[export] Instance t_settable : Settable t := fun s =>
  mk (retransmission_ s) (congestion_ s) (outstanding_control_ s) (retransmission_deadline_ s)
     (time_wait_deadline_ s) (send_unacknowledged_ s) (send_next_ s) (send_window_ s)
     (send_window_sequence_ s) (send_window_acknowledgment_ s) (receive_next_ s)
     (receive_window_ s) (initial_send_sequence_ s) (initial_receive_sequence_ s)
     (local_port_ s) (remote_port_ s) (state_ s) (passive_open_ s)
     (outstanding_control_present_ s) (local_fin_sent_ s).

(** *** Fields of an arriving segment *)
Definition seq (v : Packet.View) : Z := Packet.sequence (Packet.fields v).
Definition ackn (v : Packet.View) : Z := Packet.acknowledgment (Packet.fields v).
Definition has (flags flag : Z) : bool := negb (Z.land flags flag =? 0).
Definition flagged (v : Packet.View) (flag : Z) : bool := has (Packet.flags (Packet.fields v)) flag.
Definition empty (v : Packet.View) : bool := match Packet.payload v with [] => true | _ => false end.

Definition segment_length (v : Packet.View) : Z :=
  u32 (u32 (u32 (Z.of_nat (length (Packet.payload v)))
            + (if flagged v Packet.syn then 1 else 0))
       + (if flagged v Packet.fin then 1 else 0)).

Definition wire_window (window : Z) : Z := Z.min window 65535.

Definition construct (local_port remote_port receive_window sender_mss : Z) : t :=
  mk Estimator.construct (Congestion.construct sender_mss) no_segment 0 0 0 0 0 0 0 0
     receive_window 0 0 local_port remote_port closed false false false.

Definition passive_open (s : t) : ControlResult * t :=
  if negb (state_is (state_ s) closed) || (local_port_ s =? 0) then (nothing, s)
  else (nothing, s <| remote_port_ := 0 |> <| state_ := listen |> <| passive_open_ := true |>).

Definition track_control (s : t) (seg : Packet.Fields) (now : Z) : t :=
  s <| outstanding_control_ := seg |> <| outstanding_control_present_ := true |>
    <| retransmission_deadline_ := now + Estimator.timeout_ (retransmission_ s) |>.

Definition acknowledge_control (s : t) (now : Z) : t :=
  if negb (outstanding_control_present_ s) then s
  else s <| outstanding_control_present_ := false |>
         <| retransmission_ := Estimator.on_handshake_complete (retransmission_ s) |>.

Definition active_open (s : t) (initial_sequence now : Z) : ControlResult * t :=
  if (negb (state_is (state_ s) closed) && negb (state_is (state_ s) listen))
     || (local_port_ s =? 0) || (remote_port_ s =? 0) then (nothing, s)
  else
    let s := s <| initial_send_sequence_ := initial_sequence |>
               <| send_unacknowledged_ := initial_sequence |>
               <| send_next_ := initial_sequence ⊞ 1 |>
               <| passive_open_ := false |> <| state_ := syn_sent |> in
    let syn_segment := Packet.mkFields (local_port_ s) (remote_port_ s) initial_sequence 0
                         Packet.syn (wire_window (receive_window_ s)) 0 in
    (send syn_segment, track_control s syn_segment now).

Definition acknowledgment (s : t) : ControlResult :=
  send (Packet.mkFields (local_port_ s) (remote_port_ s) (send_next_ s) (receive_next_ s)
          Packet.ack (wire_window (receive_window_ s)) 0).

Definition reset_for (s : t) (v : Packet.View) : ControlResult :=
  if flagged v Packet.ack
  then send (Packet.mkFields (local_port_ s) (Packet.source_port (Packet.fields v))
               (ackn v) 0 Packet.rst 0 0)
  else send (Packet.mkFields (local_port_ s) (Packet.source_port (Packet.fields v))
               0 (seq v ⊞ segment_length v) (Z.lor Packet.rst Packet.ack) 0 0).

Definition synchronized (s : t) : bool :=
  match state_ s with
  | syn_received | established | fin_wait_1 | fin_wait_2 | close_wait | closing | last_ack
  | time_wait => true
  | closed | listen | syn_sent => false
  end.

Definition enter_time_wait (s : t) (now : Z) : t :=
  s <| state_ := time_wait |> <| outstanding_control_present_ := false |>
    <| time_wait_deadline_ := now + Catalog.tcp_maximum_segment_lifetime * 2 |>.

Definition local_fin_acknowledged (s : t) : bool :=
  local_fin_sent_ s && (send_unacknowledged_ s =? send_next_ s).

Definition accept_peer_fin (s : t) (now : Z) : ControlResult * t :=
  let s := s <| receive_next_ := receive_next_ s ⊞ 1 |> in
  let result := mkResult (segment (acknowledgment s)) Event.peer_closed true in
  (result,
   match state_ s with
   | established | syn_received => s <| state_ := close_wait |>
   | fin_wait_1 => if local_fin_acknowledged s then enter_time_wait s now
                   else s <| state_ := closing |>
   | fin_wait_2 | time_wait => enter_time_wait s now
   | _ => s
   end).

(** *** [on_segment], by state *)

Definition syn_ack (s : t) : Packet.Fields :=
  Packet.mkFields (local_port_ s) (remote_port_ s) (initial_send_sequence_ s) (receive_next_ s)
    (Z.lor Packet.syn Packet.ack) (wire_window (receive_window_ s)) 0.

(** The peer's SYN fixes IRS and the first send window. *)
Definition take_syn (s : t) (v : Packet.View) (advertised_window : Z) : t :=
  s <| initial_receive_sequence_ := seq v |> <| receive_next_ := seq v ⊞ 1 |>
    <| send_window_ := advertised_window |> <| send_window_sequence_ := seq v |>
    <| send_window_acknowledgment_ := ackn v |>.

Definition on_listen (s : t) (v : Packet.View) (passive_initial_sequence now advertised_window : Z)
    : ControlResult * t :=
  if flagged v Packet.rst then (nothing, s)
  else if flagged v Packet.ack then (reset_for s v, s)
  else if negb (flagged v Packet.syn) then (nothing, s)
  else
    let s := take_syn (s <| remote_port_ := Packet.source_port (Packet.fields v) |>) v advertised_window in
    let s := s <| initial_send_sequence_ := passive_initial_sequence |>
               <| send_unacknowledged_ := passive_initial_sequence |>
               <| send_next_ := passive_initial_sequence ⊞ 1 |> <| state_ := syn_received |> in
    (send (syn_ack s), track_control s (syn_ack s) now).

Definition on_syn_sent (s : t) (v : Packet.View) (now advertised_window : Z) : ControlResult * t :=
  let ack_set := flagged v Packet.ack in
  let acceptable_ack := ack_set && Sequence.after (ackn v) (initial_send_sequence_ s)
                        && Sequence.before_or_equal (ackn v) (send_next_ s) in
  if ack_set && negb acceptable_ack then
    (if flagged v Packet.rst then nothing else reset_for s v, s)
  else if flagged v Packet.rst then
    if acceptable_ack
    then (only Event.connection_reset,
          s <| state_ := closed |> <| outstanding_control_present_ := false |>)
    else (nothing, s)
  else if negb (flagged v Packet.syn) then (nothing, s)
  else
    let s := take_syn s v advertised_window in
    if acceptable_ack then
      let s := acknowledge_control (s <| send_unacknowledged_ := ackn v |>) now in
      let s := s <| state_ := established |> in
      (mkResult (segment (acknowledgment s)) Event.established true, s)
    else
      let s := s <| state_ := syn_received |> in
      (send (syn_ack s), track_control s (syn_ack s) now).

Definition update_send_window (s : t) (v : Packet.View) (advertised_window : Z) : t :=
  s <| send_window_ := advertised_window |> <| send_window_sequence_ := seq v |>
    <| send_window_acknowledgment_ := ackn v |>.

(** The ACK field: an early answer, or the new state and whether this ACK
    completed the handshake. *)
Definition process_ack (s : t) (v : Packet.View) (now advertised_window : Z)
    : ControlResult + (t * bool) :=
  if state_is (state_ s) syn_received then
    if negb (Sequence.acknowledgment_advances (ackn v) (send_unacknowledged_ s) (send_next_ s))
    then inl (reset_for s v)
    else
      let s := update_send_window (s <| send_unacknowledged_ := ackn v |>) v advertised_window in
      inr ((acknowledge_control s now) <| state_ := established |>, true)
  else if Sequence.after (ackn v) (send_next_ s) then inl (acknowledgment s)
  else
    let s := if Sequence.acknowledgment_advances (ackn v) (send_unacknowledged_ s) (send_next_ s)
             then
               let s := s <| send_unacknowledged_ := ackn v |> in
               if send_unacknowledged_ s =? send_next_ s then acknowledge_control s now else s
             else s in
    let s := if Sequence.before (send_window_sequence_ s) (seq v)
                || ((send_window_sequence_ s =? seq v)
                    && Sequence.before_or_equal (send_window_acknowledgment_ s) (ackn v))
             then update_send_window s v advertised_window else s in
    inr (s, false).

(** What remains of an acceptable segment: text and FIN. *)
Definition process_text (s : t) (v : Packet.View) (became_established : bool) (now : Z)
    : ControlResult * t :=
  if negb (empty v) then (only Event.data_requires_stream_owner, s)
  else if negb (flagged v Packet.fin)
  then (only (if became_established then Event.established else Event.none), s)
  else if negb (seq v =? receive_next_ s) then (acknowledgment s, s)
  else accept_peer_fin s now.

Definition after_ack (s : t) (v : Packet.View) (became_established : bool) (now : Z)
    : ControlResult * t :=
  if state_is (state_ s) fin_wait_1 && local_fin_acknowledged s
  then process_text (s <| state_ := fin_wait_2 |>) v became_established now
  else if state_is (state_ s) closing && local_fin_acknowledged s then (nothing, enter_time_wait s now)
  else if state_is (state_ s) last_ack && local_fin_acknowledged s
  then (only Event.connection_closed, s <| state_ := closed |>)
  else process_text s v became_established now.

(** A retransmitted FIN is answered again in TIME-WAIT. *)
Definition repeated_fin (s : t) (v : Packet.View) : bool :=
  state_is (state_ s) time_wait && flagged v Packet.fin && empty v && (seq v ⊞ 1 =? receive_next_ s).

Definition repeated_simultaneous_syn (s : t) (v : Packet.View) : bool :=
  state_is (state_ s) syn_received && negb (passive_open_ s) && flagged v Packet.syn
  && flagged v Packet.ack && empty v && (seq v ⊞ 1 =? receive_next_ s).

Definition on_synchronized (s : t) (v : Packet.View) (now advertised_window : Z) : ControlResult * t :=
  let length := segment_length v in
  if repeated_fin s v then (acknowledgment (enter_time_wait s now), enter_time_wait s now)
  else if negb (repeated_simultaneous_syn s v)
          && negb (Sequence.segment_acceptable (seq v) length (receive_next_ s) (receive_window_ s))
  then (if flagged v Packet.rst then nothing else acknowledgment s, s)
  else if flagged v Packet.rst then
    if negb (seq v =? receive_next_ s) then (acknowledgment s, s)
    else if state_is (state_ s) syn_received && passive_open_ s
    then (nothing, s <| state_ := listen |> <| remote_port_ := 0 |>
                     <| outstanding_control_present_ := false |>)
    else (only Event.connection_reset,
          s <| state_ := closed |> <| outstanding_control_present_ := false |>)
  else if flagged v Packet.syn && negb (repeated_simultaneous_syn s v) then (acknowledgment s, s)
  else if negb (flagged v Packet.ack) then (nothing, s)
  else match process_ack s v now advertised_window with
       | inl result => (result, s)
       | inr (s, became_established) => after_ack s v became_established now
       end.

Definition on_segment (s : t) (v : Packet.View) (passive_initial_sequence now : Z)
    (decoded_peer_window : option Z) : ControlResult * t :=
  if negb (Packet.destination_port (Packet.fields v) =? local_port_ s) then (nothing, s)
  else
    let advertised_window := value_or (Packet.window (Packet.fields v)) decoded_peer_window in
    match state_ s with
    | closed => (if flagged v Packet.rst then nothing else reset_for s v, s)
    | listen => on_listen s v passive_initial_sequence now advertised_window
    | syn_sent => on_syn_sent s v now advertised_window
    | _ => on_synchronized s v now advertised_window
    end.

Definition commit_sent_data (s : t) (sequence octets : Z) : bool * t :=
  if (negb (state_is (state_ s) established) && negb (state_is (state_ s) close_wait))
     || local_fin_sent_ s || negb (sequence =? send_next_ s) || (two30 <? octets)
  then (false, s)
  else (true, s <| send_next_ := send_next_ s ⊞ octets |>).

Definition commit_received_data (s : t) (next window : Z) (fin_sequence : option Z) (now : Z)
    : option ControlResult * t :=
  if negb (synchronized s) || state_is (state_ s) time_wait || Sequence.before next (receive_next_ s)
     || (receive_window_ s <? next ⊟ receive_next_ s)
  then (None, s)
  else
    let s := s <| receive_next_ := next |> <| receive_window_ := window |> in
    if match fin_sequence with Some f => f =? receive_next_ s | None => false end
    then let (result, s) := accept_peer_fin s now in (Some result, s)
    else (Some (acknowledgment s), s).

Definition set_receive_window (s : t) (window : Z) : bool * t :=
  if negb (synchronized s) then (false, s) else (true, s <| receive_window_ := window |>).

Definition close (s : t) (now : Z) : ControlResult * t :=
  if state_is (state_ s) listen || state_is (state_ s) syn_sent then
    (only Event.connection_closed,
     s <| state_ := closed |> <| outstanding_control_present_ := false |>)
  else if negb (state_is (state_ s) established) && negb (state_is (state_ s) close_wait) then (nothing, s)
  else
    let fin_ack := Packet.mkFields (local_port_ s) (remote_port_ s) (send_next_ s) (receive_next_ s)
                     (Z.lor Packet.fin Packet.ack) (wire_window (receive_window_ s)) 0 in
    let s := s <| send_next_ := send_next_ s ⊞ 1 |> <| local_fin_sent_ := true |>
               <| state_ := if state_is (state_ s) established then fin_wait_1 else last_ack |> in
    (send fin_ack, track_control s fin_ack now).

Definition service_deadline (s : t) (now : Z) : ControlResult * t :=
  if state_is (state_ s) time_wait && (time_wait_deadline_ s <=? now)
  then (only Event.connection_closed, s <| state_ := closed |>)
  else if negb (outstanding_control_present_ s) || (now <? retransmission_deadline_ s)
  then (nothing, s)
  else
    let waiting_for_syn := state_is (state_ s) syn_sent || state_is (state_ s) syn_received in
    let (next_timeout, estimator) := Estimator.on_timeout (retransmission_ s) waiting_for_syn in
    let s := s <| retransmission_ := estimator |>
               <| retransmission_deadline_ := now + next_timeout |> in
    (send (outstanding_control_ s), s).

Definition next_deadline (s : t) : option Z :=
  if state_is (state_ s) time_wait then Some (time_wait_deadline_ s)
  else if outstanding_control_present_ s then Some (retransmission_deadline_ s) else None.

(** *** Checkpoints *)

Record Checkpoint := mkCheckpoint {
  retransmission : Estimator.Checkpoint;
  congestion : Congestion.Checkpoint;
  outstanding_control : Packet.Fields;
  retransmission_remaining_nanoseconds : Z;
  time_wait_remaining_nanoseconds : Z;
  send_unacknowledged : Z;
  send_next : Z;
  send_window : Z;
  send_window_sequence : Z;
  send_window_acknowledgment : Z;
  receive_next : Z;
  receive_window : Z;
  initial_send_sequence : Z;
  initial_receive_sequence : Z;
  local_port : Z;
  remote_port : Z;
  ck_state : State;
  ck_passive_open : bool;
  outstanding_control_present : bool;
  local_fin_sent : bool
}.

Definition remaining (now : Z) (active : bool) (deadline : Z) : Z :=
  if active && (now <? deadline) then deadline - now else 0.

Definition checkpoint (s : t) (now : Z) : Checkpoint :=
  mkCheckpoint (Estimator.checkpoint (retransmission_ s)) (Congestion.checkpoint (congestion_ s))
    (outstanding_control_ s)
    (remaining now (outstanding_control_present_ s) (retransmission_deadline_ s))
    (remaining now (state_is (state_ s) time_wait) (time_wait_deadline_ s))
    (send_unacknowledged_ s) (send_next_ s) (send_window_ s) (send_window_sequence_ s)
    (send_window_acknowledgment_ s) (receive_next_ s) (receive_window_ s)
    (initial_send_sequence_ s) (initial_receive_sequence_ s) (local_port_ s) (remote_port_ s)
    (state_ s) (passive_open_ s) (outstanding_control_present_ s) (local_fin_sent_ s).

(** [State] is an enumeration, so the range test on its encoding always holds. *)
Definition validate_checkpoint (value : Checkpoint) : bool :=
  if negb (Estimator.validate_checkpoint (retransmission value))
     || negb (Congestion.validate_checkpoint (congestion value)) || (local_port value =? 0)
  then false
  else if negb (eqb (outstanding_control_present value)
                  (0 <? retransmission_remaining_nanoseconds value)) then false
  else if negb (eqb (state_is (ck_state value) time_wait)
                  (0 <? time_wait_remaining_nanoseconds value)) then false
  else if state_is (ck_state value) listen && negb (remote_port value =? 0) then false
  else state_is (ck_state value) closed || state_is (ck_state value) listen || negb (remote_port value =? 0).

Definition restore (s : t) (value : Checkpoint) (now : Z) : option t :=
  if negb (validate_checkpoint value) then None
  else match Estimator.restore (retransmission_ s) (retransmission value),
             Congestion.restore (congestion_ s) (congestion value) with
       | Some estimator, Some controller =>
           Some (mk estimator controller (outstanding_control value)
                   (now + retransmission_remaining_nanoseconds value)
                   (now + time_wait_remaining_nanoseconds value)
                   (send_unacknowledged value) (send_next value) (send_window value)
                   (send_window_sequence value) (send_window_acknowledgment value)
                   (receive_next value) (receive_window value) (initial_send_sequence value)
                   (initial_receive_sequence value) (local_port value) (remote_port value)
                   (ck_state value) (ck_passive_open value) (outstanding_control_present value)
                   (local_fin_sent value))
       | _, _ => None
       end.

(** ** Operations as steps *)

Inductive operation :=
| PassiveOpen
| ActiveOpen (initial_sequence now : Z)
| Segment (v : Packet.View) (passive_initial_sequence now : Z) (window : option Z)
| CommitSent (sequence octets : Z)
| CommitReceived (next window : Z) (fin_sequence : option Z) (now : Z)
| SetWindow (window : Z)
| Close (now : Z)
| Service (now : Z).

Definition perform (s : t) (o : operation) : t :=
  match o with
  | PassiveOpen => (passive_open s).2
  | ActiveOpen iss now => (active_open s iss now).2
  | Segment v iss now w => (on_segment s v iss now w).2
  | CommitSent q n => (commit_sent_data s q n).2
  | CommitReceived next w f now => (commit_received_data s next w f now).2
  | SetWindow w => (set_receive_window s w).2
  | Close now => (close s now).2
  | Service now => (service_deadline s now).2
  end.

(** *** The RFC 9293 state diagram

    The edges of figure 5, the abort edges of a RST, and the two edges an
    acceptable segment takes at once: an ACK that completes the handshake with
    a FIN, and an ACK of our FIN with the peer's FIN. *)
Definition edge (a b : State) : bool :=
  match a, b with
  | closed, (listen | syn_sent)
  | listen, (syn_sent | syn_received | closed)
  | syn_sent, (syn_received | established | closed)
  | syn_received, (established | close_wait | listen | closed)
  | established, (fin_wait_1 | close_wait | closed)
  | fin_wait_1, (fin_wait_2 | closing | time_wait | closed)
  | fin_wait_2, (time_wait | closed)
  | close_wait, (last_ack | closed)
  | closing, (time_wait | closed)
  | last_ack, closed
  | time_wait, closed => true
  | _, _ => state_is a b
  end.

(** *** What each step of [on_segment] changes *)

Lemma acknowledge_control_spec s now :
  acknowledge_control s now
  = if outstanding_control_present_ s
    then s <| outstanding_control_present_ := false |>
           <| retransmission_ := Estimator.on_handshake_complete (retransmission_ s) |>
    else s.
Proof. unfold acknowledge_control. now destruct (outstanding_control_present_ s). Qed.

(** The fields ACK processing leaves alone. *)
Record kept (s s' : t) : Prop := mkKept {
  kept_next : send_next_ s' = send_next_ s;
  kept_receive_next : receive_next_ s' = receive_next_ s;
  kept_receive_window : receive_window_ s' = receive_window_ s;
  kept_initial : initial_send_sequence_ s' = initial_send_sequence_ s;
  kept_fin : local_fin_sent_ s' = local_fin_sent_ s;
  kept_outstanding : outstanding_control_ s' = outstanding_control_ s;
  kept_local : local_port_ s' = local_port_ s;
  kept_remote : remote_port_ s' = remote_port_ s;
  kept_congestion : congestion_ s' = congestion_ s;
  kept_estimator : Estimator.wf (retransmission_ s) -> Estimator.wf (retransmission_ s')
}.

Lemma kept_refl s : kept s s.
Proof. now constructor. Qed.

Lemma kept_trans a b c : kept a b -> kept b c -> kept a c.
Proof. intros [] []. constructor; first [congruence|auto]. Qed.

Lemma kept_acknowledge_control s now : kept s (acknowledge_control s now).
Proof.
  rewrite acknowledge_control_spec. case_if; [|apply kept_refl]. constructor; try reflexivity.
  intros H. exact (Estimator.estimator_wf_apply _ Estimator.HandshakeComplete H).
Qed.

(** Whether the segment acknowledges something new. *)
Definition advances (s : t) (v : Packet.View) : bool :=
  Sequence.acknowledgment_advances (ackn v) (send_unacknowledged_ s) (send_next_ s).

Definition take_ack (s : t) (v : Packet.View) (now : Z) : t :=
  let s := s <| send_unacknowledged_ := ackn v |> in
  if send_unacknowledged_ s =? send_next_ s then acknowledge_control s now else s.

Lemma kept_take_ack s v now :
  let s' := take_ack s v now in
  kept s s' /\ state_ s' = state_ s /\ send_unacknowledged_ s' = ackn v
  /\ outstanding_control_present_ s'
     = outstanding_control_present_ s && negb (ackn v =? send_next_ s).
Proof.
  assert (kept s (s <| send_unacknowledged_ := ackn v |>)) as K by now constructor.
  cbv zeta. unfold take_ack. change (send_unacknowledged_ (s <| send_unacknowledged_ := ackn v |>)) with (ackn v).
  change (send_next_ (s <| send_unacknowledged_ := ackn v |>)) with (send_next_ s).
  destruct (ackn v =? send_next_ s); [|now rewrite andb_true_r].
  split; [exact (kept_trans _ _ _ K (kept_acknowledge_control _ _))|].
  rewrite acknowledge_control_spec, andb_false_r. cbn. case_if; cbn; now split_and!.
Qed.

Lemma kept_update_send_window (c : bool) s v w :
  let s' := if c then update_send_window s v w else s in
  kept s s' /\ state_ s' = state_ s /\ send_unacknowledged_ s' = send_unacknowledged_ s
  /\ outstanding_control_present_ s' = outstanding_control_present_ s.
Proof. destruct c; split_and!; try done. Qed.

(** The state after the ACK field was processed. *)
Lemma process_ack_spec s v now w s' b :
  process_ack s v now w = inr (s', b) ->
  kept s s'
  /\ b = state_is (state_ s) syn_received
  /\ state_ s' = (if b then established else state_ s)
  /\ send_unacknowledged_ s' = (if advances s v then ackn v else send_unacknowledged_ s)
  /\ (b = true -> advances s v = true)
  /\ outstanding_control_present_ s'
     = outstanding_control_present_ s && negb (b || (advances s v && (ackn v =? send_next_ s))).
Proof.
  unfold process_ack, advances. destruct (state_is (state_ s) syn_received) eqn:Es.
  - destruct (Sequence.acknowledgment_advances _ _ _) eqn:Ea; cbn [negb]; [|discriminate].
    intros [= <- <-]. cbn zeta. split.
    { eapply kept_trans; [|].
      - instantiate (1 := update_send_window (s <| send_unacknowledged_ := ackn v |>) v w).
        now constructor.
      - destruct (kept_acknowledge_control (update_send_window (s <| send_unacknowledged_ := ackn v |>) v w) now).
        constructor; assumption. }
    rewrite acknowledge_control_spec. split_and!; try done; cbn; case_if; try done; cbn; now rewrite ?E.
  - destruct (Sequence.after (ackn v) (send_next_ s)); [discriminate|]. intros [= <- <-].
    cbv zeta. fold (take_ack s v now). 
    match goal with |- context [if ?c then update_send_window ?x v w else _] =>
      destruct (kept_update_send_window c x v w) as (K1 & -> & -> & ->) end.
    destruct (Sequence.acknowledgment_advances _ _ _); cbn [andb orb negb].
    + destruct (kept_take_ack s v now) as (K2 & E1 & E2 & E3).
      split_and!; try done. exact (kept_trans _ _ _ K2 K1).
    + rewrite andb_true_r. now split_and!.
Qed.

Lemma accept_peer_fin_spec s now :
  let s' := (accept_peer_fin s now).2 in
  kept (s <| receive_next_ := receive_next_ s ⊞ 1 |>) s'
  /\ send_unacknowledged_ s' = send_unacknowledged_ s
  /\ state_ s' = match state_ s with
                  | established | syn_received => close_wait
                  | fin_wait_1 => if local_fin_acknowledged s then time_wait else closing
                  | fin_wait_2 | time_wait => time_wait
                  | x => x
                  end
  /\ outstanding_control_present_ s'
     = outstanding_control_present_ s && negb (state_is (state_ s') time_wait).
Proof.
  unfold accept_peer_fin, local_fin_acknowledged. cbn.
  destruct (state_ s) eqn:E; cbn; cases; cbn; rewrite ?E, ?andb_true_r, ?andb_false_r; cbn;
    rewrite ?andb_true_r; split_and!; now constructor || done.
Qed.

(** *** Case analysis of the handlers *)

(** The segment is the peer's FIN, at RCV.NXT. *)
Definition fin_in_sequence (s : t) (v : Packet.View) : bool :=
  empty v && flagged v Packet.fin && (seq v =? receive_next_ s).

Lemma process_text_elim (P : t -> Prop) s v b now :
  P s -> (fin_in_sequence s v = true -> P (accept_peer_fin s now).2) -> P (process_text s v b now).2.
Proof.
  intros H1 H2. unfold process_text, fin_in_sequence in *. destruct (empty v); [|exact H1].
  destruct (flagged v Packet.fin); [|exact H1]. cbn in *.
  destruct (seq v =? receive_next_ s); [now apply H2|exact H1].
Qed.

Lemma after_ack_elim (P : t -> Prop) s v b now :
  (local_fin_acknowledged s = true -> state_ s = fin_wait_1 ->
     P (s <| state_ := fin_wait_2 |>)
     /\ (fin_in_sequence s v = true -> P (accept_peer_fin (s <| state_ := fin_wait_2 |>) now).2)) ->
  (local_fin_acknowledged s = true -> state_ s = closing -> P (enter_time_wait s now)) ->
  (local_fin_acknowledged s = true -> state_ s = last_ack -> P (s <| state_ := closed |>)) ->
  (local_fin_acknowledged s = false \/ ~ (state_ s = fin_wait_1 \/ state_ s = closing \/ state_ s = last_ack) ->
     P s /\ (fin_in_sequence s v = true -> P (accept_peer_fin s now).2)) ->
  P (after_ack s v b now).2.
Proof.
  intros H1 H2 H3 H4. unfold after_ack.
  destruct (local_fin_acknowledged s); rewrite ?andb_true_r, ?andb_false_r.
  - destruct (state_ s); cbn; try (destruct H4; [right; intuition congruence|]);
      try apply process_text_elim; auto; now apply H1.
  - destruct H4; [now left|]. now apply process_text_elim.
Qed.

Lemma on_synchronized_elim (P : t -> Prop) s v now w :
  P s ->
  (state_ s = time_wait -> P (enter_time_wait s now)) ->
  (flagged v Packet.rst = true -> seq v = receive_next_ s ->
     (state_ s = syn_received -> passive_open_ s = true ->
        P (s <| state_ := listen |> <| remote_port_ := 0 |> <| outstanding_control_present_ := false |>))
     /\ P (s <| state_ := closed |> <| outstanding_control_present_ := false |>)) ->
  (forall s' b, flagged v Packet.ack = true -> process_ack s v now w = inr (s', b) ->
     P (after_ack s' v b now).2) ->
  P (on_synchronized s v now w).2.
Proof.
  intros H1 H2 H3 H4. unfold on_synchronized.
  destruct (repeated_fin s v) eqn:Ef.
  { apply H2. unfold repeated_fin in Ef. rewrite !andb_true_iff in Ef. now apply state_is_spec. }
  case_if; [exact H1|]. case_if.
  { destruct (Z.eqb_spec (seq v) (receive_next_ s)) as [Eq|]; [|exact H1]. cbn [negb].
    destruct (H3 eq_refl Eq) as [Hl Hc]. case_if; [|exact Hc]. apply Hl; [now apply state_is_spec|done]. }
  case_if; [exact H1|]. destruct (flagged v Packet.ack) eqn:Ea; [|exact H1]. cbn [negb].
  destruct (process_ack s v now w) as [r|[s' b]] eqn:Ep; [exact H1|]. now apply H4.
Qed.

(** The state after SYN-SENT processed a segment. *)
Lemma on_syn_sent_elim (P : t -> Prop) s v now w :
  let acceptable := flagged v Packet.ack && Sequence.after (ackn v) (initial_send_sequence_ s)
                    && Sequence.before_or_equal (ackn v) (send_next_ s) in
  P s ->
  (acceptable = true -> P (s <| state_ := closed |> <| outstanding_control_present_ := false |>)) ->
  (acceptable = true -> flagged v Packet.syn = true ->
     P ((acknowledge_control ((take_syn s v w) <| send_unacknowledged_ := ackn v |>) now)
          <| state_ := established |>)) ->
  (acceptable = false -> flagged v Packet.syn = true ->
     let s' := (take_syn s v w) <| state_ := syn_received |> in P (track_control s' (syn_ack s') now)) ->
  P (on_syn_sent s v now w).2.
Proof.
  intros acc H1 H2 H3 H4. unfold on_syn_sent. fold acc.
  case_if; [exact H1|]. case_if; [destruct acc; [now apply H2|exact H1]|].
  destruct (flagged v Packet.syn); cbn [negb]; [|exact H1].
  destruct acc; [now apply H3|now apply H4].
Qed.

Lemma on_segment_elim (P : t -> Prop) s v iss now w :
  P s ->
  (state_ s = listen -> flagged v Packet.syn = true ->
     let s' := (take_syn (s <| remote_port_ := Packet.source_port (Packet.fields v) |>) v
                  (value_or (Packet.window (Packet.fields v)) w))
               <| initial_send_sequence_ := iss |> <| send_unacknowledged_ := iss |>
               <| send_next_ := iss ⊞ 1 |> <| state_ := syn_received |> in
     P (track_control s' (syn_ack s') now)) ->
  (state_ s = syn_sent ->
     P (on_syn_sent s v now (value_or (Packet.window (Packet.fields v)) w)).2) ->
  (synchronized s = true ->
     P (on_synchronized s v now (value_or (Packet.window (Packet.fields v)) w)).2) ->
  P (on_segment s v iss now w).2.
Proof.
  intros H1 H2 H3 H4. unfold on_segment. case_if; [exact H1|].
  unfold synchronized in H4.
  destruct (state_ s) eqn:Es; auto.
  unfold on_listen. case_if; [exact H1|]. case_if; [exact H1|].
  destruct (flagged v Packet.syn); [|exact H1]. now apply H2.
Qed.

(** *** Transitions *)

Lemma edge_refl a : edge a a = true.
Proof. now destruct a. Qed.

Lemma on_synchronized_edge s v now w :
  synchronized s = true -> edge (state_ s) (state_ (on_synchronized s v now w).2) = true.
Proof.
  intros Hs. unfold synchronized in Hs. apply on_synchronized_elim.
  - apply edge_refl.
  - now intros ->.
  - intros _ _. split; [now intros -> _|]. now destruct (state_ s).
  - intros s' b _ H. apply process_ack_spec in H as (_ & Eb & Es & _).
    assert (b = true -> state_ s = syn_received) as Hsy
      by (intros ->; now apply state_is_spec).
    destruct (accept_peer_fin_spec s' now) as (_ & _ & Ea & _).
    destruct (accept_peer_fin_spec (s' <| state_ := fin_wait_2 |>) now) as (_ & _ & Ea2 & _).
    apply after_ack_elim.
    1,2,3: intros _ E; rewrite E in Es; destruct b; [discriminate|];
      rewrite <- Es, ?Ea2; done.
    intros _. rewrite Ea, Es. clear -Hs Hsy Eb.
    destruct b; [rewrite Hsy by done; done|].
    destruct (state_ s); try discriminate; cbn; cases; done.
Qed.

(** The ACK that ends the handshake: of our SYN, from the state that waits for it. *)
Definition completes_handshake (s : t) (v : Packet.View) : bool :=
  flagged v Packet.ack &&
  match state_ s with
  | syn_sent => flagged v Packet.syn && Sequence.after (ackn v) (initial_send_sequence_ s)
                && Sequence.before_or_equal (ackn v) (send_next_ s)
  | syn_received => advances s v
  | _ => false
  end.

Lemma commit_received_data_elim (P : t -> Prop) s next w f now :
  P s ->
  (synchronized s = true -> state_ s <> time_wait -> Sequence.before next (receive_next_ s) = false ->
     let s' := s <| receive_next_ := next |> <| receive_window_ := w |> in
     P s' /\ P (accept_peer_fin s' now).2) ->
  P (commit_received_data s next w f now).2.
Proof.
  intros H1 H2. unfold commit_received_data. case_if; [exact H1|].
  destruct H2 as [Ha Hb]; [done| |done|].
  { intros Et. rewrite Et in *. done. }
  match goal with |- context [accept_peer_fin ?x now] => destruct (accept_peer_fin x now) eqn:Eq end.
  destruct f; [|exact Ha]. case_if; [exact Hb|exact Ha].
Qed.

Lemma on_segment_edge s v iss now w : edge (state_ s) (state_ (on_segment s v iss now w).2) = true.
Proof.
  apply on_segment_elim.
  - apply edge_refl.
  - now intros ->.
  - intros E. apply on_syn_sent_elim; rewrite E; [done..|]. intros. done.
  - apply on_synchronized_edge.
Qed.

Lemma perform_edge s o : edge (state_ s) (state_ (perform s o)) = true.
Proof.
  destruct o; cbn [perform]; [| |apply on_segment_edge|..].
  - unfold passive_open. case_if; [apply edge_refl|]. apply state_is_spec in E0.
    cbn -[edge]. now rewrite E0.
  - unfold active_open. case_if; [apply edge_refl|]. cbn -[edge]. destruct (state_ s); done.
  - unfold commit_sent_data. case_if; apply edge_refl.
  - apply commit_received_data_elim; [apply edge_refl|]. intros Hs Ht _ s'.
    destruct (accept_peer_fin_spec s' now) as (_ & _ & -> & _). cbn [state_ set_field].
    split; [apply edge_refl|]. unfold synchronized in Hs. cbn -[edge local_fin_acknowledged].
    destruct (state_ s); try done. now case_if.
  - unfold set_receive_window. case_if; apply edge_refl.
  - unfold close. destruct (state_ s) eqn:E; cbn -[edge]; now rewrite ?E.
  - unfold service_deadline. case_if; [apply state_is_spec in E0 as ->; reflexivity|].
    case_if; apply edge_refl.
Qed.

Lemma on_segment_established s v iss now w :
  state_ (on_segment s v iss now w).2 = established -> state_ s <> established ->
  completes_handshake s v = true.
Proof.
  pattern (on_segment s v iss now w).2. apply on_segment_elim.
  - congruence.
  - done.
  - intros E. unfold completes_handshake. rewrite E.
    
    match goal with |- context [(on_syn_sent s v now ?x).2] => pattern (on_syn_sent s v now x).2 end.
    apply on_syn_sent_elim; rewrite ?E; try done.
    intros H -> _ _. rewrite !andb_true_iff in H. destruct H as [[-> ->] ->]. done.
  - intros _. 
    match goal with |- context [(on_synchronized s v now ?x).2] => pattern (on_synchronized s v now x).2 end.
    apply on_synchronized_elim; try done.
    intros s' b Ha H. apply process_ack_spec in H as (_ & Eb & Es & _ & Hb & _).
    unfold completes_handshake. rewrite Ha.
    assert (b = true -> state_ s <> established ->
      true && match state_ s with syn_sent => flagged v Packet.syn && Sequence.after (ackn v) (initial_send_sequence_ s)
                && Sequence.before_or_equal (ackn v) (send_next_ s) | syn_received => advances s v | _ => false end = true) as Hyes.
    { intros -> _. symmetry in Eb. apply state_is_spec in Eb. rewrite Eb. now apply Hb. }
    assert (b = false -> state_ s' = state_ s) as Hno by now intros ->.
    destruct (accept_peer_fin_spec s' now) as (_ & _ & Ea & _).
    destruct (accept_peer_fin_spec (s' <| state_ := fin_wait_2 |>) now) as (_ & _ & Ea2 & _).
    pattern (after_ack s' v b now).2. apply after_ack_elim.
    + intros _ _. rewrite Ea2. done.
    + done.
    + done.
    + intros _. destruct b; [split; intros; now apply Hyes|].
      rewrite Hno in Ea by done. rewrite Ea, Hno by done.
      destruct (state_ s); cbn; try (split; congruence). split; [congruence|]. case_if; congruence.
Qed.

Lemma perform_established s o :
  state_ (perform s o) = established -> state_ s <> established ->
  match o with Segment v _ _ _ => completes_handshake s v = true | _ => False end.
Proof.
  destruct o; cbn [perform]; [| |apply on_segment_established|..].
  - unfold passive_open. now case_if.
  - unfold active_open. now case_if.
  - unfold commit_sent_data. now case_if.
  - pattern (commit_received_data s next window fin_sequence now).2.
    apply commit_received_data_elim; [congruence|]. intros _ _ _ s'.
    destruct (accept_peer_fin_spec s' now) as (_ & _ & -> & _). split; [cbn; congruence|].
    cbn [state_ s' set_field]. cbn. destruct (state_ s); try congruence. case_if; congruence.
  - unfold set_receive_window. now case_if.
  - unfold close. destruct (state_ s) eqn:E; cbn; congruence.
  - unfold service_deadline. case_if; [done|]. now case_if.
Qed.

(** ** Invariant of one connection's life *)

(** The states that wait for the peer to acknowledge a SYN or a FIN. *)
Definition awaiting (a : State) : bool :=
  match a with syn_sent | syn_received | fin_wait_1 | closing | last_ack => true | _ => false end.

(** Octets and control flags sent and not yet acknowledged. *)
Definition flight (s : t) : Z := send_next_ s ⊟ send_unacknowledged_ s.

(** What the sequence variables and the tracked control segment say in each state. *)
Definition phase (s : t) : Prop :=
  match state_ s with
  | closed => True
  | listen => local_fin_sent_ s = false
  | syn_sent | syn_received =>
      local_fin_sent_ s = false /\ send_unacknowledged_ s = initial_send_sequence_ s
      /\ send_next_ s = initial_send_sequence_ s ⊞ 1
      /\ Packet.sequence (outstanding_control_ s) = initial_send_sequence_ s
      /\ has (Packet.flags (outstanding_control_ s)) Packet.syn = true
  | established | close_wait => local_fin_sent_ s = false /\ flight s <= two30
  | fin_wait_1 | closing | last_ack =>
      local_fin_sent_ s = true /\ 0 < flight s <= two30 + 1
      /\ Packet.sequence (outstanding_control_ s) = send_next_ s ⊟ 1
      /\ Packet.flags (outstanding_control_ s) = Z.lor Packet.fin Packet.ack
  | fin_wait_2 | time_wait => local_fin_sent_ s = true /\ flight s = 0
  end.

Record wf (s : t) : Prop := mkWf {
  wf_una : is_u32 (send_unacknowledged_ s);
  wf_next : is_u32 (send_next_ s);
  wf_receive_next : is_u32 (receive_next_ s);
  wf_present : outstanding_control_present_ s = awaiting (state_ s);
  wf_phase : phase s;
  wf_estimator : Estimator.wf (retransmission_ s);
  wf_congestion : Congestion.wf (congestion_ s)
}.

(** What the owner guarantees: 32-bit words, an object opened once, at most 2^30
    octets in flight, and received data committed only after the handshake. *)
Definition enabled (s : t) (o : operation) : Prop :=
  match o with
  | PassiveOpen => local_fin_sent_ s = false
  | ActiveOpen iss _ => local_fin_sent_ s = false /\ is_u32 iss
  | Segment v iss _ _ => is_u32 (ackn v) /\ is_u32 iss
  | CommitSent _ octets => 0 <= octets /\ flight s + octets <= two30
  | CommitReceived next _ _ _ => is_u32 next /\ state_ s <> syn_received
  | SetWindow _ | Close _ | Service _ => True
  end.

Definition step (s : t) (o : operation) (s' : t) : Prop := enabled s o /\ s' = perform s o.

Definition init (s : t) : Prop :=
  exists local remote window mss, is_u32 mss /\ s = construct local remote window mss.

Lemma control_wf_construct local remote window mss : is_u32 mss -> wf (construct local remote window mss).
Proof.
  intros. constructor; cbn; try done.
  now apply Congestion.congestion_wf_construct.
Qed.

(** An acknowledgment that advances consumes part of the flight. *)
Lemma advances_flight s v :
  is_u32 (send_unacknowledged_ s) -> is_u32 (send_next_ s) -> is_u32 (ackn v) -> flight s < two31 ->
  advances s v = true ->
  0 <= send_next_ s ⊟ ackn v < flight s.
Proof.
  unfold advances, flight, Sequence.acknowledgment_advances, Sequence.after,
    Sequence.before_or_equal, Sequence.before, Sequence.half_space.
  intros Hu Hn Ha Hf H. rewrite !andb_true_iff, orb_true_iff, !andb_true_iff, !negb_true_iff in H.
  rewrite !Z.eqb_eq, !Z.eqb_neq, !Z.ltb_lt in H. word.
Qed.

Lemma phase_flight s : phase s -> synchronized s = true -> 0 <= flight s <= two30 + 1.
Proof.
  unfold phase, synchronized, flight. intros H Hs. destruct (state_ s); try discriminate Hs.
  all: destruct H as (H0 & H); try destruct H as (H & H1); try (rewrite H, (proj1 H1)); word.
Qed.

Lemma flight_zero s :
  is_u32 (send_unacknowledged_ s) -> is_u32 (send_next_ s) ->
  flight s = 0 <-> send_unacknowledged_ s = send_next_ s.
Proof. unfold flight. word. Qed.

Lemma phase_acknowledged s :
  wf s -> local_fin_acknowledged s = true ->
  state_ s <> fin_wait_1 /\ state_ s <> closing /\ state_ s <> last_ack.
Proof.
  intros [Hu Hn _ _ Hp _ _]. unfold local_fin_acknowledged. rewrite andb_true_iff, Z.eqb_eq.
  intros [_ H]. apply flight_zero in H; [|done..]. unfold phase in Hp.
  destruct (state_ s); try (now split_and!); lia.
Qed.

Lemma wf_accept_peer_fin s now :
  wf s -> state_ s <> syn_received -> wf (accept_peer_fin s now).2.
Proof.
  intros W Hs. pose proof W as [Hu Hn Hr Hp Hph He Hc].
  destruct (accept_peer_fin_spec s now) as ([Kn Kr _ Ki Kf Ko _ _ Kc Ke] & Eu & Es & Ep).
  pose proof (phase_acknowledged s W) as Ha.
  unfold phase, flight in Hph. constructor; rewrite ?Eu, ?Kn, ?Kr, ?Kc; auto.
  - apply u32_range.
  - rewrite Ep, Es, Hp. destruct (state_ s); try done. destruct (local_fin_acknowledged s); [|done].
    now destruct Ha.
  - unfold phase, flight. rewrite Es, Eu, Kn, Ki, Kf, Ko. cbn.
    destruct (state_ s); try done. destruct (local_fin_acknowledged s); [|done]. now destruct Ha.
Qed.

(** The state ACK processing leaves, before its FIN states move on. *)
Lemma process_ack_wf s v now w s' b :
  wf s -> synchronized s = true -> is_u32 (ackn v) -> process_ack s v now w = inr (s', b) ->
  state_ s' <> syn_received /\ is_u32 (send_unacknowledged_ s') /\ is_u32 (send_next_ s')
  /\ is_u32 (receive_next_ s') /\ Estimator.wf (retransmission_ s') /\ Congestion.wf (congestion_ s')
  /\ (local_fin_acknowledged s' = true ->
      local_fin_sent_ s' = true /\ flight s' = 0 /\ outstanding_control_present_ s' = false)
  /\ (local_fin_acknowledged s' = false
      \/ ~ (state_ s' = fin_wait_1 \/ state_ s' = closing \/ state_ s' = last_ack) -> wf s').
Proof.
  intros W Hs Ha H. pose proof W as [Hu Hn Hr Hp Hph He Hc].
  apply process_ack_spec in H as ([Kn Kr _ Ki Kf Ko _ _ Kc Ke] & Eb & Es & Eu & Hb & Ep).
  pose proof (phase_flight s Hph Hs) as Hfl.
  pose proof (advances_flight s v Hu Hn Ha ltac:(lia)) as Hadv.
  assert (is_u32 (send_unacknowledged_ s')) as Hu' by (rewrite Eu; now case_if).
  assert (flight s' = if advances s v then send_next_ s ⊟ ackn v else flight s) as Ef
    by (unfold flight; rewrite Eu, Kn; now case_if).
  split_and!; rewrite ?Kn, ?Kr, ?Kc; auto.
  - rewrite Es, Eb. destruct (state_ s); cbn; congruence.
  - unfold local_fin_acknowledged. rewrite andb_true_iff, Z.eqb_eq. intros [Hf H].
    split_and!; [done| |].
    + unfold flight. rewrite H. apply wsub_diag.
    + rewrite Kf in Hf. rewrite Eu, Kn in H. rewrite Ep, Hp.
      unfold phase, flight in Hph. rewrite Hf in Hph.
      destruct (state_ s); try done; try (now destruct Hph).
      all: destruct Hph as (_ & Hfl' & _); destruct (advances s v); [|rewrite H, wsub_diag in Hfl'; lia].
      all: rewrite H, Z.eqb_refl, orb_true_r; done.
  - intros Hno.
    assert (state_ s = fin_wait_1 \/ state_ s = closing \/ state_ s = last_ack ->
            local_fin_sent_ s = true -> send_unacknowledged_ s' <> send_next_ s) as Hnz.
    { intros Hst Hf H. destruct Hno as [Hno|[]].
      - unfold local_fin_acknowledged in Hno. rewrite Kf, Hf, Kn, H, Z.eqb_refl in Hno. discriminate.
      - rewrite Es, Eb. destruct Hst as [->|[->| ->]]; auto. }
    unfold phase in Hph. unfold synchronized in Hs.
    constructor; rewrite ?Kn, ?Kr, ?Kc; auto.
    + rewrite Ep, Hp, Es, Eb. clear Es Ep Eb Hp.
      destruct (state_ s); try discriminate Hs; cbn; try done.
      all: destruct Hph as (Hf & _); rewrite Eu in Hnz; destruct (advances s v); [|done]; cbn.
      all: apply negb_true_iff, Z.eqb_neq, Hnz; auto.
    + unfold phase. rewrite Ef, Es, Eb, Kf, Ki, Ko, Kn. clear Es Ep.
      assert (flight s' <> 0 \/ ~ (state_ s = fin_wait_1 \/ state_ s = closing \/ state_ s = last_ack)
              \/ local_fin_sent_ s = false) as Hf'. { rewrite flight_zero, Kn by (rewrite ?Kn; auto).
        destruct (local_fin_sent_ s); [|auto]. destruct (state_ s);
          first [left; apply Hnz; now auto | right; left; intros [?|[?|?]]; discriminate]. }
      rewrite Ef in Hf'. subst b.
      destruct (state_ s); try discriminate Hs; cbn in *; try (now split_and!).
      all: destruct (advances s v); [specialize (Hadv eq_refl)|try discriminate (Hb eq_refl)].
      all: destruct_and? Hph; split_and!; try assumption; try lia.
      all: destruct Hf' as [Hf'|[[]|Hf']]; [lia|auto|congruence].
Qed.

Lemma wf_enter_time_wait s now :
  is_u32 (send_unacknowledged_ s) -> is_u32 (send_next_ s) -> is_u32 (receive_next_ s) ->
  local_fin_sent_ s = true -> flight s = 0 -> Estimator.wf (retransmission_ s) ->
  Congestion.wf (congestion_ s) -> wf (enter_time_wait s now).
Proof. intros. now constructor. Qed.

Lemma wf_after_ack s v b now w s' :
  wf s -> synchronized s = true -> is_u32 (ackn v) -> process_ack s v now w = inr (s', b) ->
  wf (after_ack s' v b now).2.
Proof.
  intros W Hs Ha H.
  destruct (process_ack_wf _ _ _ _ _ _ W Hs Ha H) as (Hsr & Hu & Hn & Hr & He & Hc & Hack & Hwf).
  apply after_ack_elim.
  - intros Hl _. destruct (Hack Hl) as (Hf & Hfl & Hp).
    assert (wf (s' <| state_ := fin_wait_2 |>)) as W2 by now constructor.
    split; [exact W2|]. intros _. now apply wf_accept_peer_fin.
  - intros Hl _. destruct (Hack Hl) as (Hf & Hfl & Hp). now apply wf_enter_time_wait.
  - intros Hl _. destruct (Hack Hl) as (Hf & Hfl & Hp). now constructor.
  - intros Hl. split; [now apply Hwf|]. intros _. apply wf_accept_peer_fin; [now apply Hwf|done].
Qed.

Lemma wf_on_synchronized s v now w :
  wf s -> synchronized s = true -> is_u32 (ackn v) -> wf (on_synchronized s v now w).2.
Proof.
  intros W Hs Ha. pose proof W as [Hu Hn Hr Hp Hph He Hc]. apply on_synchronized_elim.
  - done.
  - intros E. unfold phase in Hph. rewrite E in Hph. now apply wf_enter_time_wait.
  - intros _ _. split; [|now constructor]. intros E _. constructor; try done.
    unfold phase in *. rewrite E in Hph. apply Hph.
  - intros s' b _ H. now apply (wf_after_ack s v b now w).
Qed.

(** A SYN just tracked for retransmission. *)
Lemma wf_syn s seg now :
  (state_ s = syn_sent \/ state_ s = syn_received) -> is_u32 (initial_send_sequence_ s) ->
  is_u32 (receive_next_ s) -> send_unacknowledged_ s = initial_send_sequence_ s ->
  send_next_ s = initial_send_sequence_ s ⊞ 1 -> local_fin_sent_ s = false ->
  Packet.sequence seg = initial_send_sequence_ s -> has (Packet.flags seg) Packet.syn = true ->
  Estimator.wf (retransmission_ s) -> Congestion.wf (congestion_ s) ->
  wf (track_control s seg now).
Proof.
  intros Hs Hi Hr Hu Hn Hf Hq Hsyn He Hc. constructor; cbn; try done; rewrite ?Hu, ?Hn; try done.
  - apply u32_range.
  - now destruct Hs as [-> | ->].
  - unfold phase. cbn. destruct Hs as [-> | ->]; now split_and!.
Qed.

Lemma wf_on_syn_sent s v now w :
  wf s -> state_ s = syn_sent -> is_u32 (ackn v) -> wf (on_syn_sent s v now w).2.
Proof.
  intros W Es Ha. pose proof W as [Hu Hn Hr Hp Hph He Hc].
  unfold phase in Hph. rewrite Es in Hph, Hp. destruct Hph as (Hf & Hui & Hni & Hq & Hsy).
  apply on_syn_sent_elim.
  - done.
  - intros _. now constructor.
  - intros Hacc _. rewrite !andb_true_iff in Hacc. destruct Hacc as [[_ H1] H2].
    set (s1 := (take_syn s v w) <| send_unacknowledged_ := ackn v |>).
    destruct (kept_acknowledge_control s1 now) as [Kn Kr _ _ Kf _ _ _ Kc Ke].
    assert (flight (acknowledge_control s1 now) <= two30) as Hfl.
    { assert (advances s v = true) as Hadv
        by (unfold advances, Sequence.acknowledgment_advances; now rewrite Hui, H1, H2).
      apply advances_flight in Hadv; [|done..|unfold flight; rewrite Hui, Hni; word].
      unfold flight in Hadv |- *. rewrite Kn, Hui, Hni in *. rewrite acknowledge_control_spec.
      case_if; cbn; rewrite Hni; revert Hadv; word. }
    constructor; cbn; rewrite ?Kn, ?Kr, ?Kc; try done.
    + rewrite acknowledge_control_spec. now case_if.
    + apply u32_range.
    + rewrite acknowledge_control_spec. cbn. now rewrite Hp.
    + split; [now rewrite Kf|]. rewrite <- Kn. exact Hfl.
    + now apply Ke.
  - intros _ _ s'. apply wf_syn; try done; [now right| |]; cbn; [congruence|apply u32_range].
Qed.

Lemma wf_on_segment s v iss now w :
  wf s -> is_u32 (ackn v) -> is_u32 iss -> wf (on_segment s v iss now w).2.
Proof.
  intros W Ha Hi. pose proof W as [Hu Hn Hr Hp Hph He Hc]. apply on_segment_elim.
  - done.
  - intros Es _ s'. apply wf_syn; try done; [now right|apply u32_range|].
    unfold phase in Hph. rewrite Es in Hph. exact Hph.
  - intros Es. now apply wf_on_syn_sent.
  - intros Hs. now apply wf_on_synchronized.
Qed.

Lemma wf_perform s o : wf s -> enabled s o -> wf (perform s o).
Proof.
  intros W Ho. pose proof W as [Hu Hn Hr Hp Hph He Hc]. destruct o; cbn [perform enabled] in *.
  - unfold passive_open. case_if; [done|]. apply state_is_spec in E0. rewrite E0 in Hp. now constructor.
  - unfold active_open. case_if; [done|]. destruct Ho. apply wf_syn; try done. now left.
  - now apply wf_on_segment.
  - unfold commit_sent_data. case_if; [done|]. destruct Ho as [H1 H2].
    unfold phase in Hph.
    constructor; cbn; try done; [apply u32_range|].
    unfold phase, flight in *. cbn. destruct (state_ s); try done.
    all: destruct Hph as [Hf Hb]; split; [exact Hf|]; revert Hb H1 H2; clear -Hu Hn; word.
  - apply commit_received_data_elim; [done|]. intros _ _ _ s'. destruct Ho.
    assert (wf s') by now constructor. split; [done|]. now apply wf_accept_peer_fin.
  - unfold set_receive_window. case_if; [done|now constructor].
  - unfold close. unfold phase in Hph. case_if; [now constructor|]. case_if; [done|].
    assert (flight s <= two30 /\ local_fin_sent_ s = false) as [Hb _].
    { destruct (state_ s); try done; now destruct Hph. }
    constructor; cbn; try done; [apply u32_range|now case_if|].
    unfold phase, flight in *. cbn.
    case_if; split_and!; try done; revert Hb; clear -Hu Hn; word.
  - unfold service_deadline. case_if.
    { apply state_is_spec in E0. rewrite E0 in Hp. now constructor. }
    case_if; [done|]. constructor; try done.
    exact (Estimator.estimator_wf_apply _ (Estimator.TimedOut _) He).
Qed.

Lemma control_wf_reachable s : reachable init step s -> wf s.
Proof.
  apply invariant_reachable.
  - intros s0 (l & r & w & m & Hm & ->). now apply control_wf_construct.
  - intros s0 o s' W [Ho ->]. now apply wf_perform.
Qed.

(** Segments that RFC 5961 and RFC 9293 forbid to act: a RST not exactly at
    RCV.NXT, a SYN, an ACK of data never sent, and anything outside the window. *)
Definition suspicious (s : t) (v : Packet.View) : bool :=
  negb (repeated_fin s v) && negb (repeated_simultaneous_syn s v) &&
  ((flagged v Packet.rst && negb (seq v =? receive_next_ s))
   || (flagged v Packet.syn && negb (flagged v Packet.rst))
   || (negb (flagged v Packet.rst) && negb (state_is (state_ s) syn_received)
       && Sequence.after (ackn v) (send_next_ s))
   || negb (Sequence.segment_acceptable (seq v) (segment_length v) (receive_next_ s) (receive_window_ s))).

(** Sequence variables a segment may move. *)
Definition guarded (s : t) (v : Packet.View) (s' : t) : Prop :=
  send_next_ s' = send_next_ s
  /\ send_unacknowledged_ s' ⊟ send_unacknowledged_ s <= flight s
  /\ (receive_next_ s' = receive_next_ s
      \/ (receive_next_ s' = receive_next_ s ⊞ 1 /\ fin_in_sequence s v = true)).

(** A deadline the service loop has not served yet. *)
Definition overdue (s : t) (now : Z) : bool :=
  (outstanding_control_present_ s && (retransmission_deadline_ s <=? now))
  || (state_is (state_ s) time_wait && (time_wait_deadline_ s <=? now)).

(** The ports a saved connection must name. *)
Definition named (s : t) : bool :=
  negb (local_port_ s =? 0) &&
  match state_ s with closed => true | listen => remote_port_ s =? 0 | _ => negb (remote_port_ s =? 0) end.

Lemma remaining_spec now active deadline :
  eqb active (0 <? remaining now active deadline) = negb (active && (deadline <=? now)).
Proof.
  unfold remaining. destruct active; [|done]. cbn [andb eqb].
  destruct (Z.ltb_spec now deadline), (Z.leb_spec deadline now); try lia;
    destruct (Z.ltb_spec 0 (deadline - now)); done || lia.
Qed.

Lemma validate_checkpoint_spec s now :
  wf s -> validate_checkpoint (checkpoint s now) = named s && negb (overdue s now).
Proof.
  intros [_ _ _ _ _ He Hc].
  assert (Estimator.validate_checkpoint (Estimator.checkpoint (retransmission_ s)) = true) as E1.
  { pose proof (Estimator.estimator_restore_checkpoint (retransmission_ s) _ He) as H.
    unfold Estimator.restore in H. now destruct (Estimator.validate_checkpoint _). }
  assert (Congestion.validate_checkpoint (Congestion.checkpoint (congestion_ s)) = true) as E2.
  { pose proof (Congestion.congestion_restore_checkpoint (congestion_ s) _ Hc) as H.
    unfold Congestion.restore in H. now destruct (Congestion.validate_checkpoint _). }
  unfold validate_checkpoint, checkpoint, named, overdue.
  cbn -[Estimator.validate_checkpoint Congestion.validate_checkpoint Estimator.checkpoint
        Congestion.checkpoint remaining eqb state_is].
  rewrite E1, E2, !remaining_spec, !negb_involutive.
  destruct (outstanding_control_present_ s && _), (state_is (state_ s) time_wait && _), (local_port_ s =? 0);
    cbn; rewrite ?andb_false_r; try done.
  destruct (state_ s); cbn; rewrite ?andb_true_r; try done. now destruct (remote_port_ s =? 0).
Qed.

Lemma established_keeps_fin s e : local_fin_sent_ (s <| state_ := e |>) = local_fin_sent_ s.
Proof. done. Qed.

Lemma on_syn_sent_keeps_fin s v now w :
  local_fin_sent_ (on_syn_sent s v now w).2 = local_fin_sent_ s.
Proof.
  apply on_syn_sent_elim; [done|done| |done]. intros _ _.
  rewrite established_keeps_fin, (kept_fin _ _ (kept_acknowledge_control _ now)). done.
Qed.

Lemma on_segment_keeps_fin s v iss now w :
  synchronized s = false -> local_fin_sent_ (on_segment s v iss now w).2 = local_fin_sent_ s.
Proof.
  intros Hs. apply on_segment_elim; [done|done| |congruence]. intros _. apply on_syn_sent_keeps_fin.
Qed.

(** ** Properties *)

(** The state changes only along the edges of the RFC 9293 state diagram,
    whatever operation is performed on whatever state, and it becomes
    ESTABLISHED only by a segment that acknowledges our SYN. *)
Theorem control_transitions s o :
  edge (state_ s) (state_ (perform s o)) = true
  /\ (state_ (perform s o) = established -> state_ s <> established ->
      match o with Segment v _ _ _ => completes_handshake s v = true | _ => False end).
Proof.
  split; [apply perform_edge|apply perform_established].
Qed.

(** C26: in every state a connection reaches, the retransmission timer runs exactly
    while a SYN or FIN of ours is unacknowledged, the tracked segment is that SYN
    (at ISS) or FIN (at SND.NXT - 1), our FIN counts as acknowledged exactly in
    FIN-WAIT-2 and TIME-WAIT, and some deadline is armed in every state that
    waits for one. *)
Theorem control_invariant s :
  reachable init step s ->
  phase s /\ outstanding_control_present_ s = awaiting (state_ s)
  /\ has_value (next_deadline s) = awaiting (state_ s) || state_is (state_ s) time_wait.
Proof.
  intros H. apply control_wf_reachable in H as [_ _ _ Hp Hph _ _]. split_and!; [done..|].
  unfold next_deadline. rewrite Hp. now destruct (state_ s).
Qed.

(** A segment never moves SND.NXT; it moves SND.UNA only inside [SND.UNA,
    SND.NXT]; and it moves RCV.NXT only over a FIN exactly there with no text in
    front, so no octet is acknowledged that the stream owner has not stored. *)
Theorem control_segment_guarded s v iss now w :
  wf s -> synchronized s = true -> is_u32 (ackn v) ->
  guarded s v (on_segment s v iss now w).2.
Proof.
  intros W Hs Ha.
  pose proof W as [Hu Hn _ _ Hph _ _]. pose proof (phase_flight s Hph Hs) as Hfl.
  assert (forall s', send_next_ s' = send_next_ s -> send_unacknowledged_ s' = send_unacknowledged_ s ->
    receive_next_ s' = receive_next_ s -> guarded s v s') as Hsame.
  { intros s' E1 E2 E3. split_and!; [done| |now left]. rewrite E2, wsub_diag. lia. }
  apply on_segment_elim.
  - now apply Hsame.
  - intros E. unfold synchronized in Hs. now rewrite E in Hs.
  - intros E. unfold synchronized in Hs. now rewrite E in Hs.
  - intros _. apply on_synchronized_elim; [now apply Hsame|intros _; now apply Hsame| |].
    { intros _ _. split; [intros _ _|]; now apply Hsame. }
    intros s' b _ H. apply process_ack_spec in H as ([Kn Kr _ _ _ _ _ _ _ _] & _ & _ & Eu & _ & _).
    assert (send_unacknowledged_ s' ⊟ send_unacknowledged_ s <= flight s) as Hua.
    { rewrite Eu. destruct (advances s v) eqn:Ead; [|rewrite wsub_diag; lia].
      apply advances_flight in Ead; [|done..|lia]. unfold flight in *. revert Ead. clear -Hu Hn Ha. word. }
    assert (forall s'', send_next_ s'' = send_next_ s' -> send_unacknowledged_ s'' = send_unacknowledged_ s' ->
      receive_next_ s'' = receive_next_ s' -> guarded s v s'') as Hg.
    { intros s'' E1 E2 E3. split_and!; [congruence|now rewrite E2|left; congruence]. }
    assert (forall s'', send_next_ s'' = send_next_ s' -> send_unacknowledged_ s'' = send_unacknowledged_ s' ->
      receive_next_ s'' = receive_next_ s' -> fin_in_sequence s' v = true -> guarded s v (accept_peer_fin s'' now).2) as Hgf.
    { intros s'' E1 E2 E3 Ef. destruct (accept_peer_fin_spec s'' now) as ([An Ar _ _ _ _ _ _ _ _] & Au & _).
      split_and!; [rewrite An; cbn; congruence|rewrite Au; now rewrite E2|right].
      rewrite Ar. cbn. rewrite E3, Kr. split; [done|]. unfold fin_in_sequence in *. now rewrite Kr in Ef. }
    apply after_ack_elim; intros; try split; try (now apply Hg); intros; now apply Hgf.
Qed.


(** C27: a synchronized connection is immune to blind injection: a suspicious
    segment changes no field of the control block, raises no event, and is
    answered at most by an acknowledgment of the current state. *)
Theorem control_blind_injection s v iss now w :
  synchronized s = true -> suspicious s v = true ->
  let (result, s') := on_segment s v iss now w in
  s' = s /\ event result = Event.none
  /\ (emit result = true -> segment result = segment (acknowledgment s)).
Proof.
  intros Hs Hx. unfold suspicious in Hx. rewrite !andb_true_iff, !negb_true_iff in Hx.
  destruct Hx as [[Hf Hr] Hx].
  assert (forall r, r = acknowledgment s \/ r = nothing ->
    s = s /\ event r = Event.none /\ (emit r = true -> segment r = segment (acknowledgment s))) as Hok
    by (now intros r [-> | ->]).
  unfold on_segment. case_if; [auto|].
  replace (match state_ s with closed => _ | _ => _ end)
    with (on_synchronized s v now (value_or (Packet.window (Packet.fields v)) w))
    by (unfold synchronized in Hs; now destruct (state_ s)).
  unfold on_synchronized. rewrite Hf, Hr. cbn [negb]. rewrite !andb_true_l, !andb_true_r.
  destruct (Sequence.segment_acceptable _ _ _ _); cbn [negb] in *;
    [rewrite orb_false_r in Hx|destruct (flagged v Packet.rst); auto].
  destruct (flagged v Packet.rst); cbn in Hx.
  { rewrite andb_false_r, !orb_false_r in Hx. rewrite Hx. auto. }
  destruct (flagged v Packet.syn); [auto|].
  destruct (flagged v Packet.ack); cbn in Hx |- *; [|now split_and!].
  unfold process_ack. apply andb_true_iff in Hx as [Hx1 Hx2]. apply negb_true_iff in Hx1.
  rewrite Hx1, Hx2. auto.
Qed.

(** A saved control block is accepted exactly when it names its peer and no
    deadline has passed unserved, and then [restore] continues the very same
    connection with its pending deadline as far in the future as it was.  A
    connection saved between a deadline and its service cannot be restored. *)
Theorem control_checkpoint live s now later :
  reachable init step s ->
  validate_checkpoint (checkpoint s now) = named s && negb (overdue s now)
  /\ (named s = true -> overdue s now = false ->
      exists s', restore live (checkpoint s now) later = Some s'
        /\ s' = s <| retransmission_deadline_ := retransmission_deadline_ s' |>
                  <| time_wait_deadline_ := time_wait_deadline_ s' |>
        /\ next_deadline s' = option_map (fun d => later + (d - now)) (next_deadline s)).
Proof.
  intros H. apply control_wf_reachable in H. pose proof (validate_checkpoint_spec s now H) as Hv.
  split; [exact Hv|]. intros Hn Ho. rewrite Hn, Ho in Hv. destruct H as [_ _ _ Hp _ He Hc].
  unfold restore. rewrite Hv. cbn [negb andb].
  change (retransmission (checkpoint s now)) with (Estimator.checkpoint (retransmission_ s)).
  change (congestion (checkpoint s now)) with (Congestion.checkpoint (congestion_ s)).
  rewrite Estimator.estimator_restore_checkpoint, Congestion.congestion_restore_checkpoint by done.
  eexists. split; [reflexivity|]. split; [now destruct s|].
  unfold overdue, next_deadline, remaining in *. cbn. rewrite orb_false_iff in Ho. destruct Ho as [H1 H2].
  destruct (state_is (state_ s) time_wait); cbn in *.
  - f_equal. f_equal. unfold remaining. cbn [andb]. case_if; lia.
  - destruct (outstanding_control_present_ s); cbn in *; [|done]. f_equal. f_equal. unfold remaining. cbn [andb]. case_if; lia.
Qed.

(** [local_fin_sent_] survives into the object's next connection: a block that
    closed, opened again and completed its handshake is ESTABLISHED like a fresh
    one, but every commit of sent data is refused. *)
Theorem control_recycled s iss now v q n :
  local_fin_sent_ s = true -> state_ s = closed ->
  let s2 := (on_segment (active_open s iss now).2 v 0 now None).2 in
  state_ s2 = established -> (commit_sent_data s2 q n).1 = false.
Proof.
  intros Hf Hc s2 He. unfold commit_sent_data. rewrite He.
  assert (local_fin_sent_ s2 = true) as ->; [|done].
  unfold s2. rewrite on_segment_keeps_fin; unfold active_open; case_if; try done.
  unfold synchronized. cbn. now rewrite Hc.
Qed.

(** *** Witnesses *)

(** An established connection with nothing in flight. *)
Definition sample : t :=
  mk Estimator.construct (Congestion.construct 1460) no_segment 0 0 1001 1001 65535 5000 1001 5001 65535
     1000 5000 80 40000 established false false false.

(** A segment of the peer of [sample]. *)
Definition from_peer (sequence acknowledgment flags : Z) : Packet.View :=
  Packet.mkView (Packet.mkFields 40000 80 sequence acknowledgment flags 1000 0) 0 [] [].

Lemma sample_wf : wf sample.
Proof.
  constructor; [vm_compute; split; congruence..|reflexivity|vm_compute; split; congruence| |].
  - apply Estimator.estimator_wf_construct.
  - apply Congestion.congestion_wf_construct. vm_compute. split; congruence.
Qed.

Lemma listening_reachable : reachable init step (perform (construct 80 0 65535 1460) PassiveOpen).
Proof.
  apply (reachable_step init step (construct 80 0 65535 1460) PassiveOpen); [|split; reflexivity].
  apply reachable_init. exists 80, 0, 65535, 1460. split; [vm_compute; split; congruence|reflexivity].
Qed.

Example control_transitions_witness :
  completes_handshake (perform (construct 80 40000 65535 1460) (ActiveOpen 1000 0))
    (from_peer 5000 1001 (Z.lor Packet.syn Packet.ack)) = true.
Proof.
  refine (proj2 (control_transitions (perform (construct 80 40000 65535 1460) (ActiveOpen 1000 0))
    (Segment (from_peer 5000 1001 (Z.lor Packet.syn Packet.ack)) 0 0 None)) _ _).
  - vm_compute. reflexivity.
  - vm_compute. congruence.
Defined.

Example control_invariant_witness :
  phase (perform (construct 80 0 65535 1460) PassiveOpen).
Proof. apply (control_invariant _ listening_reachable). Defined.

(** The peer acknowledges nothing and closes: RCV.NXT moves over its FIN. *)
Example control_segment_guarded_witness :
  guarded sample (from_peer 5001 1001 (Z.lor Packet.fin Packet.ack))
    (on_segment sample (from_peer 5001 1001 (Z.lor Packet.fin Packet.ack)) 0 0 None).2
  /\ receive_next_ (on_segment sample (from_peer 5001 1001 (Z.lor Packet.fin Packet.ack)) 0 0 None).2 = 5002.
Proof.
  split; [|vm_compute; reflexivity].
  apply (control_segment_guarded sample); [apply sample_wf|reflexivity|vm_compute; split; congruence].
Defined.

(** An in-window RST that misses RCV.NXT by one. *)
Example control_blind_injection_witness :
  (on_segment sample (from_peer 5002 0 Packet.rst) 0 0 None).2 = sample.
Proof.
  pose proof (control_blind_injection sample (from_peer 5002 0 Packet.rst) 0 0 None eq_refl) as H.
  destruct (on_segment sample (from_peer 5002 0 Packet.rst) 0 0 None). apply H. reflexivity.
Defined.

Example control_checkpoint_witness :
  validate_checkpoint (checkpoint (perform (construct 80 0 65535 1460) PassiveOpen) 7) = true.
Proof.
  rewrite (proj1 (control_checkpoint sample _ 7 9 listening_reachable)). reflexivity.
Defined.

End ControlBlock.
