(* ===== verification/Exchange.v ===== *)
(** * Two control blocks talking to each other
    (core/src/transport/tcp_control_block.cpp, both ends).

    The three-way and the simultaneous open, and the orderly and the
    simultaneous close, run through the handlers of ControlBlock. *)

From S2P Require Import Prelude Catalog Sequence Checkpoint Retransmission Congestion Packet ControlBlock.

Module Exchange.
Import ControlBlock.

(** A control segment as the peer parses it. *)
Definition deliver (r : ControlResult) : Packet.View := Packet.mkView (segment r) 0 [] [].

(** Two ends of one established connection, nothing in flight. *)
Record paired (a b : t) : Prop := mkPaired {
  pair_a : state_ a = established;  pair_b : state_ b = established;
  pair_ab : remote_port_ a = local_port_ b;  pair_ba : remote_port_ b = local_port_ a;
  pair_na : receive_next_ b = send_next_ a;  pair_nb : receive_next_ a = send_next_ b;
  pair_ua : send_unacknowledged_ a = send_next_ a;  pair_ub : send_unacknowledged_ b = send_next_ b;
  pair_fa : local_fin_sent_ a = false;  pair_fb : local_fin_sent_ b = false;
  pair_wa : is_u32 (send_next_ a);  pair_wb : is_u32 (send_next_ b);
  pair_pa : outstanding_control_present_ a = false;  pair_pb : outstanding_control_present_ b = false
}.
(** What a conversation leaves: the two ends, the events each application saw,
    and whether the last segment still calls for an answer. *)
Record Outcome := mkOutcome {
  left : t;  right : t;
  left_events : list Event.t;  right_events : list Event.t;
  unanswered : bool
}.

Definition three_way (client server : t) (client_isn server_isn now : Z) : Outcome :=
  let (syn, client) := active_open client client_isn now in
  let (synack, server) := on_segment (passive_open server).2 (deliver syn) server_isn now None in
  let (ack, client) := on_segment client (deliver synack) 0 now None in
  let (last, server) := on_segment server (deliver ack) 0 now None in
  mkOutcome client server [event ack] [event last] (emit last).

Definition simultaneous_open (a b : t) (a_isn b_isn now : Z) : Outcome :=
  let (syn_a, a) := active_open a a_isn now in
  let (syn_b, b) := active_open b b_isn now in
  let (synack_a, a) := on_segment a (deliver syn_b) 0 now None in
  let (synack_b, b) := on_segment b (deliver syn_a) 0 now None in
  let (last_a, a) := on_segment a (deliver synack_b) 0 now None in
  let (last_b, b) := on_segment b (deliver synack_a) 0 now None in
  mkOutcome a b [event last_a] [event last_b] (emit last_a || emit last_b).

(** [a] closes, [b] follows, and [a] waits out TIME-WAIT. *)
Definition orderly_close (a b : t) (now : Z) : Outcome :=
  let (fin_a, a) := close a now in
  let (ack_b, b) := on_segment b (deliver fin_a) 0 now None in
  let (_, a) := on_segment a (deliver ack_b) 0 now None in
  let (fin_b, b) := close b now in
  let (ack_a, a) := on_segment a (deliver fin_b) 0 now None in
  let (last, b) := on_segment b (deliver ack_a) 0 now None in
  let (quiet, a) := service_deadline a (now + Catalog.tcp_maximum_segment_lifetime * 2) in
  mkOutcome a b [event ack_a; event quiet] [event ack_b; event last] (emit quiet || emit last).

(** Both close before either hears of it. *)
Definition simultaneous_close (a b : t) (now : Z) : Outcome :=
  let (fin_a, a) := close a now in
  let (fin_b, b) := close b now in
  let (ack_a, a) := on_segment a (deliver fin_b) 0 now None in
  let (ack_b, b) := on_segment b (deliver fin_a) 0 now None in
  let (_, a) := on_segment a (deliver ack_b) 0 now None in
  let (_, b) := on_segment b (deliver ack_a) 0 now None in
  let (quiet_a, a) := service_deadline a (now + Catalog.tcp_maximum_segment_lifetime * 2) in
  let (quiet_b, b) := service_deadline b (now + Catalog.tcp_maximum_segment_lifetime * 2) in
  mkOutcome a b [event ack_a; event quiet_a] [event ack_b; event quiet_b] (emit quiet_a || emit quiet_b).

#[local] Arguments u32 : simpl never.
#[local] Arguments Sequence.segment_acceptable : simpl never.
#[local] Arguments Sequence.acknowledgment_advances : simpl never.
#[local] Arguments Sequence.after : simpl never.
#[local] Arguments Sequence.before : simpl never.
#[local] Arguments Sequence.before_or_equal : simpl never.
#[local] Arguments Z.add : simpl never.


(** The window update touches three fields, whichever way its test goes. *)
Lemma update_send_window_if (c : bool) s v w :
  exists x y z, (if c then update_send_window s v w else s)
    = s <| send_window_ := x |> <| send_window_sequence_ := y |> <| send_window_acknowledgment_ := z |>.
Proof. destruct c, s; [do 3 eexists; reflexivity|]. do 3 eexists; reflexivity. Qed.

(** [exchange] runs the handlers on symbolic connections, deciding the
    sequence tests by the common cases of Sequence. *)
Ltac sequence_tests :=
  repeat first
    [ match goal with |- context [if ?c then update_send_window ?s ?v ?w else ?s] =>
        destruct (update_send_window_if c s v w) as (? & ? & ? & ->); cbn end
    | rewrite Sequence.after_irrefl | rewrite Z.eqb_refl | rewrite Sequence.before_or_equal_refl
    | rewrite Sequence.advances_none | rewrite Sequence.after_succ by auto using u32_range
    | rewrite Sequence.advances_succ by auto using u32_range
    | rewrite Sequence.acceptable_at_next by (auto using u32_range; lia) ].
Ltac flag_tests :=
  repeat match goal with
  | |- context [Z.lor ?a ?b] => let c := eval vm_compute in (Z.lor a b) in change (Z.lor a b) with c
  | |- context [Z.land ?a ?b] => let c := eval vm_compute in (Z.land a b) in change (Z.land a b) with c
  | |- context [u32 (Z.of_nat 0) ⊞ ?a ⊞ ?b] =>
      let c := eval vm_compute in (u32 (Z.of_nat 0) ⊞ a ⊞ b) in change (u32 (Z.of_nat 0) ⊞ a ⊞ b) with c
  end.
Ltac exchange1 :=
    (unfold on_segment, on_listen, on_syn_sent, on_synchronized, repeated_simultaneous_syn, repeated_fin,
       process_ack, acknowledge_control, after_ack, process_text, accept_peer_fin, segment_length,
       local_fin_acknowledged, enter_time_wait, flagged, has, seq, ackn, empty, acknowledgment, syn_ack, Packet.syn, Packet.ack, Packet.rst, Packet.fin; cbn; flag_tests; cbn; sequence_tests).
Ltac exchange := repeat progress exchange1.


(** *** Closing

    What the closing sequence reads of a connection. *)
Record Snapshot := mkSnap {
  snap_state : State;  snap_ports : Z * Z;
  snap_send : Z * Z;  snap_receive : Z * Z;
  snap_fin : bool;  snap_present : bool
}.
Definition snap (s : t) : Snapshot :=
  mkSnap (state_ s) (local_port_ s, remote_port_ s) (send_unacknowledged_ s, send_next_ s)
    (receive_next_ s, receive_window_ s) (local_fin_sent_ s) (outstanding_control_present_ s).

Definition control_segment (local remote sequence acknowledgment flags window : Z) : ControlResult :=
  send (Packet.mkFields local remote sequence acknowledgment flags (wire_window window) 0).

Lemma close_snap s now st l r u n rn w pr :
  snap s = mkSnap st (l, r) (u, n) (rn, w) false pr -> st = established \/ st = close_wait ->
  let (x, s') := close s now in
  x = control_segment l r n rn (Z.lor Packet.fin Packet.ack) w
  /\ snap s' = mkSnap (if state_is st established then fin_wait_1 else last_ack) (l, r) (u, n ⊞ 1) (rn, w) true true.
Proof. destruct s. unfold snap; cbn. intros [=] [-> | ->]; subst; split; reflexivity. Qed.

(** An in-order control segment that acknowledges nothing new, or the one
    outstanding FIN, reaches [after_ack]. *)
Lemma on_segment_in_order s r iss now st l rp u n rn w f pr :
  snap s = mkSnap st (l, rp) (u, n) (rn, w) f pr ->
  synchronized s = true -> st <> syn_received -> is_u32 u -> is_u32 rn -> 0 < w < two31 ->
  Packet.destination_port (segment r) = l -> Packet.sequence (segment r) = rn ->
  (Packet.flags (segment r) = Packet.ack \/ Packet.flags (segment r) = Z.lor Packet.fin Packet.ack) ->
  (Packet.acknowledgment (segment r) = u /\ (n = u \/ n = u ⊞ 1)
   \/ Packet.acknowledgment (segment r) = n /\ n = u ⊞ 1) ->
  exists s', on_segment s (deliver r) iss now None = after_ack s' (deliver r) false now
    /\ snap s' = mkSnap st (l, rp) (Packet.acknowledgment (segment r), n) (rn, w) f
                   (pr && (Packet.acknowledgment (segment r) =? u)).
Proof.
  intros Hsnap Hs Hsr Hu Hrn Hw Hd Hq Hfl Hack.
  pose proof Hsnap as [= E1 E2 E3 E4 E5 E6 E7 E8 E9].
  assert (is_u32 n) as Hn by (destruct Hack as [[_ [-> | ->]]|[_ ->]]; auto using u32_range).
  set (v := deliver r) in *. 
  assert (seq v = receive_next_ s) as Hseq by (unfold seq; cbn; congruence).
  assert (Sequence.after (ackn v) (send_next_ s) = false) as Haf.
  { unfold ackn. cbn. rewrite E5. destruct Hack as [[-> [-> | ->]]|[-> _]]; try apply Sequence.after_irrefl.
    unfold Sequence.after, Sequence.before, Sequence.half_space. revert Hu. clear. intros.
    apply andb_false_iff. right. apply Z.ltb_ge. word. }
  assert (advances s v = negb (ackn v =? u)) as Had.
  { unfold advances, ackn. cbn. rewrite E4, E5. destruct Hack as [[-> _]|[-> ->]].
    - now rewrite Sequence.advances_none, Z.eqb_refl.
    - rewrite Sequence.advances_succ by done. symmetry. apply negb_true_iff, Z.eqb_neq. word. }
  assert (state_is (state_ s) syn_received = false) as Hnsr.
  { apply not_true_iff_false. rewrite state_is_spec. congruence. }
  assert (flagged v Packet.rst = false /\ flagged v Packet.syn = false /\ flagged v Packet.ack = true)
    as (Hr & Hy & Ha) by (unfold flagged; cbn; destruct Hfl as [-> | ->]; split_and!; reflexivity).
  assert (0 <= segment_length v) as Hlen by (unfold segment_length; apply u32_range).
  assert (on_segment s v iss now None
    = on_synchronized s v now (Packet.window (Packet.fields v))) as ->.
  { unfold on_segment. cbn -[on_synchronized]. rewrite Hd, E2, Z.eqb_refl. cbn -[on_synchronized].
    unfold synchronized in Hs. now destruct (state_ s). }
  unfold on_synchronized, repeated_fin, repeated_simultaneous_syn.
  rewrite Hnsr, Hy, Hr, Ha, Hseq, Sequence.acceptable_at_next by (try rewrite E6; try rewrite E7; auto; lia).
  assert (receive_next_ s ⊞ 1 =? receive_next_ s = false) as -> by (rewrite E6; apply Z.eqb_neq; word).
  rewrite andb_false_r. cbn [negb andb].
  destruct (process_ack s v now (Packet.window (Packet.fields v))) as [x|[s' b]] eqn:Ep.
  { unfold process_ack in Ep. rewrite Hnsr, Haf in Ep. discriminate. }
  apply process_ack_spec in Ep as ([Kn Kr Kw Ki Kf Ko Kl Kp Kc Ke] & Eb & Es & Eu & _ & Epr).
  rewrite Hnsr in Eb. subst b. exists s'. split; [reflexivity|].
  unfold snap. rewrite Es, Kl, Kp, Kn, Kr, Kw, Kf, Eu, Epr, Had, E1, E2, E3, E4, E5, E6, E7, E8, E9.
  change (Packet.acknowledgment (segment r)) with (ackn v).
  destruct (Z.eqb_spec (ackn v) u) as [->|Hne]; cbn; [reflexivity|].
  f_equal. f_equal. destruct Hack as [[Hx _]|[Hx _]]; [contradiction|]. 
  unfold ackn; cbn; rewrite Hx. now rewrite Z.eqb_refl.
Qed.

(** The answer to a FIN: its acknowledgment, and word to the application. *)
Definition fin_answer (local remote sequence acknowledgment window : Z) : ControlResult :=
  mkResult (segment (control_segment local remote sequence acknowledgment Packet.ack window)) Event.peer_closed true.

Lemma after_ack_fin s r now st l rp u n rn w f pr :
  snap s = mkSnap st (l, rp) (u, n) (rn, w) f pr ->
  Packet.flags (segment r) = Z.lor Packet.fin Packet.ack -> Packet.sequence (segment r) = rn ->
  st = established \/ (st = fin_wait_1 /\ u <> n) \/ (st = fin_wait_2 /\ pr = false) ->
  let (x, s') := after_ack s (deliver r) false now in
  x = fin_answer l rp n (rn ⊞ 1) w
  /\ snap s' = mkSnap (match st with established => close_wait | fin_wait_1 => closing | _ => time_wait end)
                 (l, rp) (u, n) (rn ⊞ 1, w) f pr
  /\ (st = fin_wait_2 -> time_wait_deadline_ s' = now + Catalog.tcp_maximum_segment_lifetime * 2).
Proof.
  destruct s. unfold snap; cbn. intros [=]; subst. intros Hfl Hq Hst.
  unfold after_ack, process_text, accept_peer_fin, local_fin_acknowledged, flagged, seq, deliver. cbn.
  rewrite Hfl, Hq, Z.eqb_refl. change (has (Z.lor Packet.fin Packet.ack) Packet.fin) with true.
  destruct Hst as [->|[[-> Hne]|[-> ->]]]; cbn; [now split_and!| |now split_and!].
  apply Z.eqb_neq in Hne. rewrite Hne, andb_false_r. cbn. now split_and!.
Qed.

Lemma after_ack_done s r now st l rp n rn w pr :
  snap s = mkSnap st (l, rp) (n, n) (rn, w) true pr -> Packet.flags (segment r) = Packet.ack ->
  st = fin_wait_1 \/ st = closing \/ st = last_ack ->
  let (x, s') := after_ack s (deliver r) false now in
  match st with
  | fin_wait_1 => snap s' = mkSnap fin_wait_2 (l, rp) (n, n) (rn, w) true pr
  | closing => state_ s' = time_wait
               /\ time_wait_deadline_ s' = now + Catalog.tcp_maximum_segment_lifetime * 2
  | _ => state_ s' = closed /\ event x = Event.connection_closed /\ emit x = false
  end.
Proof.
  destruct s. unfold snap; cbn. intros [=]; subst. intros Hfl Hst.
  unfold after_ack, process_text, local_fin_acknowledged, flagged, deliver. cbn.
  rewrite Hfl, Z.eqb_refl. now destruct Hst as [->|[-> | ->]]; cbn.
Qed.

Lemma time_wait_expires s now :
  state_ s = time_wait -> time_wait_deadline_ s = now + Catalog.tcp_maximum_segment_lifetime * 2 ->
  let (x, s') := service_deadline s (now + Catalog.tcp_maximum_segment_lifetime * 2) in
  state_ s' = closed /\ event x = Event.connection_closed /\ emit x = false.
Proof. intros E D. unfold service_deadline. rewrite E, D, Z.leb_refl. done. Qed.

(** Runs one handler and continues with what is known of its outcome. *)
Lemma run {A B C} (Q : C -> Prop) (call : A * B) (P : A -> B -> Prop) (k : A -> B -> C) :
  (let (r, s) := call in P r s) -> (forall r s, P r s -> Q (k r s)) -> Q (let (r, s) := call in k r s).
Proof. destruct call. auto. Qed.

Lemma snap_synchronized s st l u rc f pr :
  snap s = mkSnap st l u rc f pr ->
  match st with closed | listen | syn_sent => False | _ => True end -> synchronized s = true.
Proof. unfold snap, synchronized. intros [= -> _ _ _ _ _]. now destruct st. Qed.

Lemma paired_snap a b :
  paired a b ->
  snap a = mkSnap established (local_port_ a, local_port_ b) (send_next_ a, send_next_ a)
             (send_next_ b, receive_window_ a) false false
  /\ snap b = mkSnap established (local_port_ b, local_port_ a) (send_next_ b, send_next_ b)
             (send_next_ a, receive_window_ b) false false.
Proof. intros []. unfold snap. split; congruence. Qed.

(** The peer's FIN arrives in order, before it has seen a FIN of ours. *)
Lemma receive_fin s r iss now st l rp u n rn w f pr w' :
  snap s = mkSnap st (l, rp) (u, n) (rn, w) f pr ->
  st = established /\ n = u \/ st = fin_wait_1 /\ n = u ⊞ 1 \/ st = fin_wait_2 /\ n = u /\ pr = false ->
  is_u32 u -> is_u32 rn -> 0 < w < two31 ->
  segment r = segment (control_segment rp l rn u (Z.lor Packet.fin Packet.ack) w') ->
  let (x, s') := on_segment s (deliver r) iss now None in
  x = fin_answer l rp n (rn ⊞ 1) w
  /\ snap s' = mkSnap (match st with established => close_wait | fin_wait_1 => closing | _ => time_wait end)
                 (l, rp) (u, n) (rn ⊞ 1, w) f pr
  /\ (st = fin_wait_2 -> time_wait_deadline_ s' = now + Catalog.tcp_maximum_segment_lifetime * 2).
Proof.
  intros Hs Hst Hu Hrn Hw Hr.
  destruct (on_segment_in_order s r iss now st l rp u n rn w f pr) as (s' & -> & Ss);
    rewrite ?Hr; cbn; auto.
  - eapply snap_synchronized; [exact Hs|]. now destruct Hst as [[-> _]|[[-> _]|[-> _]]].
  - destruct Hst as [[-> _]|[[-> _]|[-> _]]]; discriminate.
  - left. split; [done|]. tauto.
  - rewrite Hr in Ss. cbn in Ss. rewrite Z.eqb_refl, andb_true_r in Ss.
    eapply after_ack_fin; [exact Ss|now rewrite Hr|now rewrite Hr|].
    destruct Hst as [[-> _]|[[-> ->]|[-> [_ ->]]]]; auto. right. left. split; [done|]. word.
Qed.

(** The peer acknowledges our FIN. *)
Lemma receive_fin_ack s r iss now st l rp u rn w pr w' :
  snap s = mkSnap st (l, rp) (u, u ⊞ 1) (rn, w) true pr ->
  st = fin_wait_1 \/ st = closing \/ st = last_ack ->
  is_u32 u -> is_u32 rn -> 0 < w < two31 ->
  segment r = segment (control_segment rp l rn (u ⊞ 1) Packet.ack w') ->
  let (x, s') := on_segment s (deliver r) iss now None in
  match st with
  | fin_wait_1 => snap s' = mkSnap fin_wait_2 (l, rp) (u ⊞ 1, u ⊞ 1) (rn, w) true false
  | closing => state_ s' = time_wait
               /\ time_wait_deadline_ s' = now + Catalog.tcp_maximum_segment_lifetime * 2
  | _ => state_ s' = closed /\ event x = Event.connection_closed /\ emit x = false
  end.
Proof.
  intros Hs Hst Hu Hrn Hw Hr.
  destruct (on_segment_in_order s r iss now st l rp u (u ⊞ 1) rn w true pr) as (s' & -> & Ss);
    rewrite ?Hr; cbn; auto.
  - eapply snap_synchronized; [exact Hs|]. now destruct Hst as [->|[-> | ->]].
  - destruct Hst as [->|[-> | ->]]; discriminate.
  - rewrite Hr in Ss. cbn in Ss.
    assert (u ⊞ 1 =? u = false) as E by (apply Z.eqb_neq; word).
    rewrite E, andb_false_r in Ss. eapply after_ack_done; [exact Ss|now rewrite Hr|done].
Qed.

(** ** Properties *)

(** Opening works for all ports, windows and initial sequence numbers: the
    three-way handshake and the simultaneous open both end in two ESTABLISHED
    blocks that agree on every sequence variable, have their control timers off,
    and have told both applications; nothing is left to answer. *)
Theorem control_open ap bp aw bw am bm r ai bi now :
  is_u16 ap -> is_u16 bp -> ap <> 0 -> bp <> 0 -> is_u32 ai -> is_u32 bi ->
  0 <= aw < two31 -> 0 <= bw < two31 ->
  forall o,
    o = three_way (construct ap bp aw am) (construct bp r bw bm) ai bi now
    \/ o = simultaneous_open (construct ap bp aw am) (construct bp ap bw bm) ai bi now ->
  paired (left o) (right o) /\ left_events o = [Event.established]
  /\ right_events o = [Event.established] /\ unanswered o = false.
Proof.
  intros Hap Hbp Ha0 Hb0 Hai Hbi Haw Hbw o Ho. apply Z.eqb_neq in Ha0, Hb0.
  unfold three_way, simultaneous_open, active_open, passive_open in Ho. cbn in Ho. rewrite Ha0, Hb0 in Ho.
  destruct Ho as [-> | ->]; exchange; (split_and!; try done; constructor; cbn; auto using u32_range).
Qed.

(** Closing works from every pair of established blocks with nothing in
    flight: when one side closes and the other follows, and when both close at
    once, both blocks end CLOSED (the active closers after two segment lifetimes
    in TIME-WAIT), and each application hears first of the peer's FIN and then
    of the end. *)
Theorem control_close a b now :
  paired a b -> 0 < receive_window_ a < two31 -> 0 < receive_window_ b < two31 ->
  forall o, o = orderly_close a b now \/ o = simultaneous_close a b now ->
  state_ (left o) = closed /\ state_ (right o) = closed
  /\ left_events o = [Event.peer_closed; Event.connection_closed]
  /\ right_events o = [Event.peer_closed; Event.connection_closed] /\ unanswered o = false.
Proof.
  intros Hp Ha Hb o Ho. destruct (paired_snap a b Hp) as [Sa Sb]. destruct Hp.
  pattern o. match goal with |- ?P o => set (Q := P) end. destruct Ho as [-> | ->].
  - unfold orderly_close. eapply run; [eapply close_snap; [exact Sa|now left]|]. intros fin_a a1 [-> Sa1].
    eapply run; [eapply receive_fin; [exact Sb|now left|done..|reflexivity]|]. intros ack_b b1 (-> & Sb1 & _).
    eapply run; [eapply receive_fin_ack; [exact Sa1|now left|done..|reflexivity]|]. intros ? a2 Sa2.
    eapply run; [eapply close_snap; [exact Sb1|now right]|]. intros fin_b b2 [-> Sb2].
    eapply run; [eapply receive_fin; [exact Sa2|auto 6|auto using u32_range..|reflexivity]|].
    intros ack_a a3 (-> & Sa3 & Da3).
    eapply run; [eapply receive_fin_ack; [exact Sb2|auto|auto using u32_range..|reflexivity]|].
    intros last b3 (H3 & H4 & H5).
    eapply run; [apply time_wait_expires; [now injection Sa3|auto]|]. intros qa a4 (H6 & H7 & H8).
    unfold Q; cbn; rewrite H4, H5, H7, H8. now split_and!.
  - unfold simultaneous_close. eapply run; [eapply close_snap; [exact Sa|now left]|]. intros fin_a a1 [-> Sa1].
    eapply run; [eapply close_snap; [exact Sb|now left]|]. intros fin_b b1 [-> Sb1].
    eapply run; [eapply receive_fin; [exact Sa1|auto|done..|reflexivity]|]. intros ack_a a2 (-> & Sa2 & _).
    eapply run; [eapply receive_fin; [exact Sb1|auto|done..|reflexivity]|]. intros ack_b b2 (-> & Sb2 & _).
    eapply run; [eapply receive_fin_ack; [exact Sa2|auto|auto using u32_range..|reflexivity]|]. intros ? a3 [Sa3 Da3].
    eapply run; [eapply receive_fin_ack; [exact Sb2|auto|auto using u32_range..|reflexivity]|]. intros ? b3 [Sb3 Db3].
    eapply run; [now apply time_wait_expires|]. intros qa a4 (H6 & H7 & H8).
    eapply run; [now apply time_wait_expires|]. intros qb b4 (H3 & H4 & H5).
    unfold Q; cbn; rewrite H4, H5, H7, H8. now split_and!.
Qed.

(** *** Witnesses *)

Definition alice : t :=
  mk Estimator.construct (Congestion.construct 1460) no_segment 0 0 1001 1001 65535 5000 1001 4294967295 65535
     1000 5000 40000 80 established false false false.
Definition bob : t :=
  mk Estimator.construct (Congestion.construct 1460) no_segment 0 0 4294967295 4294967295 65535 1001 0 1001 65535
     4294967290 1000 80 40000 established true false false.

(** The client's ISN is the last sequence number: SND.NXT wraps to zero. *)
Example control_open_witness :
  let o := three_way (construct 40000 80 65535 1460) (construct 80 0 65535 1460) 4294967295 7 0 in
  send_next_ (left o) = 0 /\ paired (left o) (right o).
Proof.
  intros o. split; [vm_compute; reflexivity|].
  apply (control_open 40000 80 65535 65535 1460 1460 0 4294967295 7 0); [done..|now left].
Defined.

Lemma alice_and_bob : paired alice bob.
Proof. now constructor. Qed.

(** Closing across the wrap of Bob's sequence numbers. *)
Example control_close_witness :
  state_ (left (orderly_close alice bob 5)) = closed /\ state_ (left (simultaneous_close alice bob 5)) = closed.
Proof.
  assert (0 < receive_window_ alice < two31 /\ 0 < receive_window_ bob < two31) as [Ha Hb] by done.
  exact (conj (proj1 (control_close alice bob 5 alice_and_bob Ha Hb (orderly_close alice bob 5) (or_introl eq_refl)))
              (proj1 (control_close alice bob 5 alice_and_bob Ha Hb (simultaneous_close alice bob 5) (or_intror eq_refl)))).
Defined.

End Exchange.
