(* ===== verification/History.v ===== *)
(** * Admitted-segment history (core/src/transport/tcp_transmission_history.cpp).

    A ring of records of the original segments in flight, with the times R1, R2,
    RTT sampling and SACK recovery need. *)

From S2P Require Import Prelude Sequence Arena Checkpoint.
Import Arena.

Module History.

Record TransmissionRecord := mkRecord {
  first_transmitted_at : Z;
  last_transmitted_at : Z;
  first : Z;
  end_ : Z;
  retransmissions : Z
}.
#[export] Instance record_settable : Settable TransmissionRecord := fun r =>
  mkRecord (first_transmitted_at r) (last_transmitted_at r) (first r) (end_ r) (retransmissions r).

(** [TransmissionRecord{}] *)
Definition no_record : TransmissionRecord := mkRecord 0 0 0 0 0.
#[export] Instance record_inhabited : Inhabited TransmissionRecord := populate no_record.

Record t := mk {
  records_ : list TransmissionRecord;
  head_ : Z;
  count_ : Z;
  valid_ : bool
}.
#[export] Instance t_settable : Settable t := fun s => mk (records_ s) (head_ s) (count_ s) (valid_ s).

Definition valid_range (first end_ : Z) : bool :=
  let length := end_ ⊟ first in negb (length =? 0) && (length <=? two30).

Definition overlaps (left_first left_end right_first right_end : Z) : bool :=
  Sequence.before left_first right_end && Sequence.before right_first left_end.

Definition construct (records : list TransmissionRecord) : t :=
  mk (replicate (length records) no_record) 0 0 (negb (size records =? 0)).

Definition physical (s : t) (logical : Z) : Z := (head_ s + logical) mod size (records_ s).
(** [records_[physical(logical)]] *)
Definition at_ (s : t) (logical : Z) : TransmissionRecord := get (records_ s) (physical s logical).

Definition can_record_original (s : t) (f e now : Z) : bool :=
  if negb (valid_ s) || (size (records_ s) <=? count_ s) || negb (valid_range f e) then false
  else if count_ s =? 0 then true
  else
    let last := at_ s (count_ s - 1) in
    (end_ last =? f) && (first_transmitted_at last <=? now).

Definition record_original (s : t) (f e now : Z) : bool * t :=
  if negb (can_record_original s f e now) then (false, s)
  else (true, s <| records_ := put (records_ s) (physical s (count_ s)) (mkRecord now now f e 0) |>
                <| count_ := count_ s + 1 |>).

(** The loop of [can_record_retransmission] over [n] records from [logical] on. *)
Fixpoint scan_overlaps (n : nat) (s : t) (f e now logical : Z) (overlap_found : bool) : bool :=
  match n with
  | O => overlap_found
  | S n =>
      let record := at_ s logical in
      if negb (overlaps f e (first record) (end_ record))
      then scan_overlaps n s f e now (logical + 1) overlap_found
      else if now <? last_transmitted_at record then false
      else scan_overlaps n s f e now (logical + 1) true
  end.

Definition can_record_retransmission (s : t) (f e now : Z) : bool :=
  if negb (valid_ s) || negb (valid_range f e) then false
  else scan_overlaps (Z.to_nat (count_ s)) s f e now 0 false.

Fixpoint count_overlaps (n : nat) (s : t) (f e logical updated : Z) : Z :=
  match n with
  | O => updated
  | S n =>
      let record := at_ s logical in
      count_overlaps n s f e (logical + 1)
        (if overlaps f e (first record) (end_ record) then updated + 1 else updated)
  end.

(** A repaired record: one more repair, saturating, and its latest time. *)
Definition repaired (record : TransmissionRecord) (now : Z) : TransmissionRecord :=
  let record := if negb (retransmissions record =? u32_max)
                then record <| retransmissions := u32 (retransmissions record + 1) |> else record in
  record <| last_transmitted_at := now |>.

Fixpoint mark_repaired (n : nat) (s : t) (f e now logical : Z) : t :=
  match n with
  | O => s
  | S n =>
      let record := at_ s logical in
      let s := if overlaps f e (first record) (end_ record)
               then s <| records_ := put (records_ s) (physical s logical) (repaired record now) |>
               else s in
      mark_repaired n s f e now (logical + 1)
  end.

Definition record_retransmission (s : t) (f e now : Z) : Z * t :=
  if negb (can_record_retransmission s f e now) then (0, s)
  else
    let updated := count_overlaps (Z.to_nat (count_ s)) s f e 0 0 in
    if updated =? 0 then (0, s)
    else (updated, mark_repaired (Z.to_nat (count_ s)) s f e now 0).

(** The loop of [acknowledge]: each turn that continues removes a record, so
    the record count is enough fuel. *)
Fixpoint pop_acknowledged (n : nat) (s : t) (acknowledgment : Z) : t :=
  match n with
  | O => s
  | S n =>
      if count_ s =? 0 then s
      else
        let record := get (records_ s) (head_ s) in
        if Sequence.before_or_equal (end_ record) acknowledgment then
          pop_acknowledged n
            (s <| records_ := put (records_ s) (head_ s) no_record |>
               <| head_ := (head_ s + 1) mod size (records_ s) |>
               <| count_ := count_ s - 1 |>) acknowledgment
        else if Sequence.after acknowledgment (first record)
        then s <| records_ := put (records_ s) (head_ s) (record <| first := acknowledgment |>) |>
        else s
  end.

Definition acknowledge (s : t) (acknowledgment : Z) : t :=
  let s := pop_acknowledged (Z.to_nat (count_ s)) s acknowledgment in
  if count_ s =? 0 then s <| head_ := 0 |> else s.

Definition oldest (s : t) : option TransmissionRecord :=
  if count_ s =? 0 then None else Some (get (records_ s) (head_ s)).

Fixpoint contains_from (n : nat) (s : t) (sequence logical : Z) : bool :=
  match n with
  | O => false
  | S n =>
      let record := at_ s logical in
      if negb (Sequence.before sequence (first record)) && Sequence.before sequence (end_ record)
      then true else contains_from n s sequence (logical + 1)
  end.

Definition contains (s : t) (sequence : Z) : bool := contains_from (Z.to_nat (count_ s)) s sequence 0.

Definition capacity (s : t) : Z := if valid_ s then size (records_ s) else 0.

(** *** Checkpoints *)

Record RecordCheckpoint := mkRecordCheckpoint {
  ck_first : Z;
  ck_end : Z;
  ck_retransmissions : Z;
  first_age_nanoseconds : Z;
  last_age_nanoseconds : Z
}.

Definition Checkpoint := list RecordCheckpoint.

Definition age (now at_time : Z) : Z := if at_time <? now then now - at_time else 0.

Definition save_record (now : Z) (record : TransmissionRecord) : RecordCheckpoint :=
  mkRecordCheckpoint (first record) (end_ record) (retransmissions record)
    (age now (first_transmitted_at record)) (age now (last_transmitted_at record)).

(** The loop pushes the records in logical order. *)
Definition checkpoint (s : t) (now : Z) : Checkpoint :=
  (fun logical => save_record now (at_ s (Z.of_nat logical))) <$> seq 0 (Z.to_nat (count_ s)).

Fixpoint validate_records (now : Z) (previous : option RecordCheckpoint) (state : Checkpoint) : bool :=
  match state with
  | [] => true
  | record :: state =>
      if negb (valid_range (ck_first record) (ck_end record))
         || (first_age_nanoseconds record <? 0) || (last_age_nanoseconds record <? 0)
         || (first_age_nanoseconds record <? last_age_nanoseconds record)
         || (now <? first_age_nanoseconds record)
         || match previous with Some p => negb (ck_end p =? ck_first record) | None => false end
      then false
      else validate_records now (Some record) state
  end.

Definition validate_checkpoint (state : Checkpoint) (capacity now : Z) : bool :=
  if (capacity =? 0) || (capacity <? size state) then false else validate_records now None state.

Definition load_record (now : Z) (source : RecordCheckpoint) : TransmissionRecord :=
  mkRecord (now - first_age_nanoseconds source) (now - last_age_nanoseconds source)
    (ck_first source) (ck_end source) (ck_retransmissions source).

Definition restore (s : t) (state : Checkpoint) (now : Z) : option t :=
  if negb (valid_ s) || negb (validate_checkpoint state (size (records_ s)) now) then None
  else Some (s <| records_ := (load_record now <$> state)
                              ++ replicate (length (records_ s) - length state) no_record |>
               <| head_ := 0 |> <| count_ := size state |>).

(** ** The ring as a list *)

Record ring_ok (s : t) : Prop := mkRing {
  ring_valid : valid_ s = true;
  ring_head : 0 <= head_ s < size (records_ s);
  ring_count : 0 <= count_ s <= size (records_ s)
}.

(** The retained records, oldest first. *)
Definition live (s : t) : list TransmissionRecord :=
  ring_read (records_ s) (head_ s) 0 (Z.to_nat (count_ s)).

Definition hit (f e : Z) (r : TransmissionRecord) : bool := overlaps f e (first r) (end_ r).

(** What an acknowledgment leaves of a list of records. *)
Fixpoint trim (acknowledgment : Z) (l : list TransmissionRecord) : list TransmissionRecord :=
  match l with
  | [] => []
  | r :: l =>
      if Sequence.before_or_equal (end_ r) acknowledgment then trim acknowledgment l
      else (if Sequence.after acknowledgment (first r) then r <| first := acknowledgment |> else r) :: l
  end.

Lemma ring_ok_construct records : records <> [] -> ring_ok (construct records).
Proof.
  intros H. assert (0 < size records) by (unfold size; destruct records; [done|cbn; lia]).
  assert (size (records_ (construct records)) = size records) as E
    by (unfold size; cbn; now rewrite length_replicate).
  constructor; rewrite ?E; cbn; [apply negb_true_iff, Z.eqb_neq|..]; lia.
Qed.

Lemma size_live s : 0 <= count_ s -> size (live s) = count_ s.
Proof. intros. unfold size, live. rewrite length_ring_read. lia. Qed.

Lemma live_original s f e now :
  ring_ok s -> can_record_original s f e now = true ->
  let s' := (record_original s f e now).2 in
  ring_ok s' /\ live s' = live s ++ [mkRecord now now f e 0].
Proof.
  intros [Hv Hh Hc] H. unfold record_original. rewrite H. cbn [negb].
  assert (count_ s < size (records_ s)) as Hlt.
  { unfold can_record_original in H. case_if_in H; [done|]. lia. }
  cbn. split.
  - constructor; cbn; rewrite ?size_put; [done|done|lia].
  - unfold live. cbn. replace (Z.to_nat (count_ s + 1)) with (S (Z.to_nat (count_ s))) by lia.
    unfold physical. rewrite <- (Z2Nat.id (count_ s)) at 1 by lia. apply ring_read_snoc. lia.
Qed.

(** The last record, for the contiguity test. *)
Lemma at_last s l r :
  0 <= count_ s -> live s = l ++ [r] -> at_ s (count_ s - 1) = r.
Proof.
  intros Hc E. assert (size (live s) = size l + 1) as Hs by (rewrite E, size_app; done).
  rewrite size_live in Hs by done. pose proof (size_nonneg l).
  assert (live s !! length l = Some r) as Hl by (rewrite E; now apply list_lookup_middle).
  unfold live in Hl. rewrite lookup_ring_read in Hl by (unfold size in *; lia).
  injection Hl as <-. unfold at_, physical, ring_get, Arena.physical. do 2 f_equal. unfold size in *. lia.
Qed.

Lemma can_record_original_spec s f e now :
  ring_ok s ->
  can_record_original s f e now
  = (count_ s <? size (records_ s)) && valid_range f e
    && match list.last (live s) with None => true | Some r => (end_ r =? f) && (first_transmitted_at r <=? now) end.
Proof.
  intros [Hv Hh Hc]. unfold can_record_original. rewrite Hv. cbn [negb orb].
  rewrite Z.leb_antisym. destruct (count_ s <? size (records_ s)), (valid_range f e); cbn; try done.
  destruct (Z.eqb_spec (count_ s) 0) as [E|Hne].
  - unfold live. rewrite E. done.
  - destruct (list.last (live s)) as [r|] eqn:El.
    + apply list.last_Some in El as [l El]. now rewrite (at_last s l r) by (done || lia).
    + apply list.last_None in El. pose proof (size_live s ltac:(lia)) as Hs. rewrite El in Hs. change (0 = count_ s) in Hs. lia.
Qed.

(** *** Retransmission *)

Lemma scan_overlaps_spec n s f e now k b :
  let l := ring_read (records_ s) (head_ s) k n in
  scan_overlaps n s f e now k b
  = forallb (fun r => negb (hit f e r) || (last_transmitted_at r <=? now)) l && (b || existsb (hit f e) l).
Proof.
  revert k b. induction n as [|n IH]; intros k b; [cbn; now rewrite orb_false_r|].
  cbn zeta in *. rewrite ring_read_cons. cbn [scan_overlaps forallb existsb].
  change (at_ s k) with (ring_get (records_ s) (head_ s) k).
  fold (hit f e (ring_get (records_ s) (head_ s) k)).
  rewrite IH, IH. destruct (hit _ _ _); cbn [negb orb]; [|done].
  rewrite Z.leb_antisym. destruct (now <? _); cbn; [done|]. now rewrite orb_true_r.
Qed.

Lemma can_record_retransmission_spec s f e now :
  ring_ok s ->
  can_record_retransmission s f e now
  = valid_range f e
    && forallb (fun r => negb (hit f e r) || (last_transmitted_at r <=? now)) (live s)
    && existsb (hit f e) (live s).
Proof.
  intros [Hv _ _]. unfold can_record_retransmission. rewrite Hv. cbn [negb orb].
  destruct (valid_range f e); [|done]. cbn [negb]. now rewrite scan_overlaps_spec.
Qed.

Lemma count_overlaps_spec n s f e k u :
  count_overlaps n s f e k u
  = u + size (filter (fun r => hit f e r = true) (ring_read (records_ s) (head_ s) k n)).
Proof.
  revert k u. induction n as [|n IH]; intros k u; [cbn [count_overlaps]; rewrite Z.add_0_r; done|].
  rewrite ring_read_cons. cbn [count_overlaps]. rewrite IH, filter_cons.
  change (at_ s k) with (ring_get (records_ s) (head_ s) k).
  fold (hit f e (ring_get (records_ s) (head_ s) k)).
  destruct (hit _ _ _); case_decide; try done. unfold size. cbn [length]. lia.
Qed.

Definition bump (f e now : Z) (r : TransmissionRecord) : TransmissionRecord :=
  if hit f e r then repaired r now else r.

Lemma mark_repaired_spec n s f e now k :
  0 <= k -> k + Z.of_nat n <= size (records_ s) ->
  let s' := mark_repaired n s f e now k in
  head_ s' = head_ s /\ count_ s' = count_ s /\ valid_ s' = valid_ s
  /\ size (records_ s') = size (records_ s)
  /\ forall j, 0 <= j < size (records_ s) ->
     ring_get (records_ s') (head_ s) j
     = if (k <=? j) && (j <? k + Z.of_nat n) then bump f e now (ring_get (records_ s) (head_ s) j)
       else ring_get (records_ s) (head_ s) j.
Proof.
  revert s k. induction n as [|n IH]; intros s k Hk Hn.
  { cbn. split_and!; try done. intros j Hj. replace (_ && _) with false by blia. done. }
  cbn [mark_repaired]. set (s1 := if overlaps _ _ _ _ then _ else s).
  assert (head_ s1 = head_ s /\ count_ s1 = count_ s /\ valid_ s1 = valid_ s
    /\ size (records_ s1) = size (records_ s)
    /\ forall j, 0 <= j < size (records_ s) -> ring_get (records_ s1) (head_ s) j
       = if k =? j then bump f e now (ring_get (records_ s) (head_ s) j)
         else ring_get (records_ s) (head_ s) j) as (E1 & E2 & E3 & E4 & E5).
  { unfold s1, bump, hit. case_if; cbn; split_and!; rewrite ?size_put; try done; intros j Hj.
    - change (physical s k) with (Arena.physical (records_ s) (head_ s) k). rewrite ring_get_put by lia. destruct (Z.eqb_spec k j) as [->|]; [|done].
      change (ring_get (records_ s) (head_ s) j) with (at_ s j). now rewrite E.
    - destruct (Z.eqb_spec k j) as [->|]; [|done].
      change (ring_get (records_ s) (head_ s) j) with (at_ s j). now rewrite E. }
  destruct (IH s1 (k + 1)) as (F1 & F2 & F3 & F4 & F5); [lia|lia|].
  rewrite F1, F2, F3, F4, E1, E2, E3, E4. split_and!; try done. intros j Hj.
  rewrite E1, E4 in F5. rewrite F5, E5 by done.
  destruct (Z.eqb_spec k j) as [->|].
  - replace ((j + 1 <=? j) && _) with false by blia. replace (_ && _) with true by blia. done.
  - replace ((k + 1 <=? j) && (j <? k + 1 + Z.of_nat n))
      with ((k <=? j) && (j <? k + Z.of_nat (S n))) by blia. done.
Qed.

Lemma live_mark_repaired s f e now :
  ring_ok s ->
  let s' := mark_repaired (Z.to_nat (count_ s)) s f e now 0 in
  ring_ok s' /\ live s' = bump f e now <$> live s.
Proof.
  intros [Hv Hh Hc].
  destruct (mark_repaired_spec (Z.to_nat (count_ s)) s f e now 0) as (E1 & E2 & E3 & E4 & E5); [lia|lia|].
  split; [constructor; rewrite ?E1, ?E2, ?E3, ?E4; done|].
  unfold live. rewrite E1, E2. apply list_eq_same_length with (Z.to_nat (count_ s));
    rewrite ?length_fmap, ?length_ring_read; try done.
  intros i x y Hi. rewrite list_lookup_fmap, !lookup_ring_read by done. cbn. intros [= <-] [= <-].
  rewrite E5 by lia. replace (_ && _) with true by blia. done.
Qed.

(** *** Acknowledgment *)

Lemma live_pop n s a :
  ring_ok s -> n = Z.to_nat (count_ s) ->
  let s' := pop_acknowledged n s a in ring_ok s' /\ live s' = trim a (live s).
Proof.
  revert s. induction n as [|n IH]; intros s [Hv Hh Hc] En.
  { cbn. split; [done|]. unfold live. now rewrite <- En. }
  cbn [pop_acknowledged]. destruct (Z.eqb_spec (count_ s) 0) as [E|_]; [lia|].
  assert (get (records_ s) (head_ s) = ring_get (records_ s) (head_ s) 0) as ->.
  { unfold ring_get, Arena.physical. rewrite Z.add_0_r, Z.mod_small by lia. done. }
  assert (live s = ring_get (records_ s) (head_ s) 0 :: ring_read (records_ s) (head_ s) 1 n) as El
    by (unfold live; now rewrite <- En, ring_read_cons).
  rewrite El. cbn [trim]. case_if.
  - set (s1 := s <| records_ := _ |> <| head_ := _ |> <| count_ := _ |>).
    assert (size (records_ s1) = size (records_ s)) as E1 by (cbn; apply size_put).
    destruct (IH s1) as [Hr Hl]; [constructor; rewrite ?E1; cbn; try done; [|lia]|cbn; lia|].
    { apply Z.mod_pos_bound. lia. }
    split; [exact Hr|]. rewrite Hl. f_equal. unfold live. cbn.
    replace (Z.to_nat (count_ s - 1)) with n by lia.
    rewrite <- (size_put (records_ s) (head_ s) no_record), ring_read_shift, Z.add_0_r.
    replace (head_ s) with (Arena.physical (records_ s) (head_ s) 0) at 1
      by (unfold Arena.physical; rewrite Z.add_0_r, Z.mod_small; lia).
    apply ring_read_put_before; lia.
  - case_if; [|split; [constructor|]; done]. cbn.
    split; [constructor; cbn; rewrite ?size_put; done|].
    unfold live. cbn. rewrite <- En, ring_read_cons.
    assert (forall r, put (records_ s) (head_ s) r
            = put (records_ s) (Arena.physical (records_ s) (head_ s) 0) r) as Ep
      by (intros r; unfold Arena.physical; now rewrite Z.add_0_r, Z.mod_small by lia).
    rewrite Ep. f_equal; [rewrite ring_get_put, Z.eqb_refl by lia; done|].
    apply ring_read_put_before; lia.
Qed.

Lemma live_acknowledge s a :
  ring_ok s -> ring_ok (acknowledge s a) /\ live (acknowledge s a) = trim a (live s).
Proof.
  intros H. destruct (live_pop _ s a H eq_refl) as [Hr Hl]. unfold acknowledge.
  set (s1 := pop_acknowledged _ s a) in *. destruct (Z.eqb_spec (count_ s1) 0) as [E|]; [|done].
  destruct Hr as [Hv Hh Hc]. split; [constructor; cbn; try done; lia|].
  rewrite <- Hl. unfold live. cbn. rewrite E. done.
Qed.

Lemma contains_spec s q :
  contains s q
  = existsb (fun r => negb (Sequence.before q (first r)) && Sequence.before q (end_ r)) (live s).
Proof.
  unfold contains, live. generalize (Z.to_nat (count_ s)). intros n. generalize 0 at 1 2 as k.
  induction n as [|n IH]; intros k; [done|]. rewrite ring_read_cons. cbn [contains_from existsb].
  change (at_ s k) with (ring_get (records_ s) (head_ s) k). rewrite IH. now destruct (_ && _).
Qed.

Lemma oldest_spec s : ring_ok s -> oldest s = head (live s).
Proof.
  intros [Hv Hh Hc]. unfold oldest, live. destruct (Z.eqb_spec (count_ s) 0) as [->|Hne]; [done|].
  replace (Z.to_nat (count_ s)) with (S (Z.to_nat (count_ s - 1))) by lia. rewrite ring_read_cons. cbn.
  unfold ring_get, Arena.physical. rewrite Z.add_0_r, Z.mod_small by lia. done.
Qed.

(** ** The records cover the flight

    Sequence numbers are measured from a base [b]; the live flight never
    exceeds 2^30, so offsets order them. *)

(** [l] is a contiguous run of nonempty records from [f] to [n]. *)
Fixpoint chain (b f : Z) (l : list TransmissionRecord) (n : Z) : Prop :=
  match l with
  | [] => f = n
  | r :: l => first r = f /\ is_u32 (end_ r) /\ f ⊟ b < end_ r ⊟ b /\ chain b (end_ r) l n
  end.

Lemma chain_le b f l n : chain b f l n -> f ⊟ b <= n ⊟ b.
Proof.
  revert f. induction l as [|r l IH]; cbn; intros f; [intros ->; lia|].
  intros (_ & _ & H & Hc). apply IH in Hc. lia.
Qed.

Lemma chain_end_u32 b f l n : is_u32 f -> chain b f l n -> is_u32 n.
Proof.
  revert f. induction l as [|r l IH]; cbn; intros f Hf; [now intros ->|].
  intros (_ & H & _ & Hc). now apply IH in Hc.
Qed.

Lemma chain_snoc b f l n r :
  chain b f l n -> first r = n -> is_u32 (end_ r) -> n ⊟ b < end_ r ⊟ b -> chain b f (l ++ [r]) (end_ r).
Proof.
  revert f. induction l as [|x l IH]; cbn; intros f; [intros -> Hr He Hlt; now split_and!|].
  intros (H1 & H2 & H3 & H4) Hr He Hlt. split_and!; auto.
Qed.

Lemma chain_bump b f l n x e now : chain b f l n -> chain b f (bump x e now <$> l) n.
Proof.
  revert f. induction l as [|r l IH]; cbn; intros f; [done|].
  assert (first (bump x e now r) = first r /\ end_ (bump x e now r) = end_ r) as [-> ->]
    by (unfold bump, repaired; cases; done).
  intros (H1 & H2 & H3 & H4). split_and!; auto.
Qed.

(** A larger base inside the chain's start shortens every offset alike. *)
Lemma chain_rebase a b f l n :
  is_u32 a -> is_u32 b -> is_u32 f -> a ⊟ b <= f ⊟ b -> n ⊟ b <= two30 -> chain b f l n -> chain a f l n.
Proof.
  intros Ha Hb. revert f. induction l as [|r l IH]; cbn; intros f Hf Haf Hn; [done|].
  intros (H1 & H2 & H3 & H4). pose proof (chain_le _ _ _ _ H4). split_and!; [done|done| |apply IH; auto; lia].
  revert Haf H3 H. clear -Ha Hb Hf H2 Hn. word.
Qed.

Lemma chain_trim a b f l n :
  is_u32 a -> is_u32 b -> is_u32 f -> f ⊟ b <= a ⊟ b <= n ⊟ b -> n ⊟ b <= two30 ->
  chain b f l n -> chain a a (trim a l) n.
Proof.
  intros Ha Hb. revert f. induction l as [|r l IH]; cbn [chain trim]; intros f Hf Hfa Hn.
  { intros ->. cbn. revert Hfa. clear -Ha Hb Hf. word. }
  intros (H1 & H2 & H3 & H4). pose proof (chain_le _ _ _ _ H4) as Hle.
  rewrite (Sequence.before_or_equal_offset b), (Sequence.after_offset b)
    by (rewrite ?H1; done || lia). rewrite H1.
  destruct (Z.leb_spec (end_ r ⊟ b) (a ⊟ b)) as [Hea|Hea]; [apply (IH (end_ r)); auto; lia|].
  assert (first (if f ⊟ b <? a ⊟ b then r <| first := a |> else r) = a
          /\ end_ (if f ⊟ b <? a ⊟ b then r <| first := a |> else r) = end_ r) as [Ef Ee].
  { destruct (Z.ltb_spec (f ⊟ b) (a ⊟ b)); cbn; [done|]. split; [|done].
    rewrite H1. revert Hfa H. clear -Ha Hb Hf. word. }
  cbn [chain]. rewrite Ef, Ee. split_and!; [done|done| |].
  - revert Hea Hle Hn. clear -Ha Hb H2. word.
  - apply (chain_rebase a b); auto. lia.
Qed.

Lemma chain_contains b f l n q :
  is_u32 b -> is_u32 f -> is_u32 q -> n ⊟ b <= two30 -> chain b f l n ->
  existsb (fun r => negb (Sequence.before q (first r)) && Sequence.before q (end_ r)) l
  = (f ⊟ b <=? q ⊟ b) && (q ⊟ b <? n ⊟ b).
Proof.
  intros Hb Hf Hq Hn. revert f Hf. induction l as [|r l IH]; cbn [chain existsb]; intros f Hf.
  { intros ->. blia. }
  intros (H1 & H2 & H3 & H4). pose proof (chain_le _ _ _ _ H4) as Hle. rewrite (IH (end_ r)) by done.
  assert (negb (Sequence.before q (first r)) && Sequence.before q (end_ r)
          = (f ⊟ b <=? q ⊟ b) && (q ⊟ b <? end_ r ⊟ b)) as ->; [|blia].
  rewrite H1. unfold Sequence.before, Sequence.half_space. apply eq_true_iff_eq.
  rewrite !andb_true_iff, negb_true_iff, andb_false_iff, !negb_true_iff, negb_false_iff,
    !Z.eqb_eq, !Z.eqb_neq, !Z.ltb_lt, Z.ltb_ge, Z.leb_le.
  revert H3 Hle Hn. clear -Hb Hf Hq H2. word.
Qed.

(** ** Runs of a history and its owner

    The owner's SND.UNA and SND.NXT, and the steady clock. *)
Record Owner := mkOwner { una : Z; nxt : Z; clock : Z }.

Inductive event :=
| Original (octets now : Z)
| Repair (f e now : Z)
| Acked (acknowledgment : Z).

Definition enabled (g : Owner) (ev : event) : Prop :=
  match ev with
  | Original octets now => 0 < octets /\ nxt g ⊟ una g + octets <= two30 /\ clock g <= now
  | Repair _ _ now => clock g <= now
  | Acked a => is_u32 a /\ 0 < a ⊟ una g <= nxt g ⊟ una g
  end.

(** SND.NXT advances when the history takes the segment. *)
Definition run (x : t * Owner) (ev : event) : t * Owner :=
  let (s, g) := x in
  match ev with
  | Original octets now =>
      let (ok, s) := record_original s (nxt g) (nxt g ⊞ octets) now in
      (s, mkOwner (una g) (if ok : bool then nxt g ⊞ octets else nxt g) now)
  | Repair f e now => ((record_retransmission s f e now).2, mkOwner (una g) (nxt g) now)
  | Acked a => (acknowledge s a, mkOwner a (nxt g) (clock g))
  end.

Definition step (x : t * Owner) (ev : event) (x' : t * Owner) : Prop := enabled x.2 ev /\ x' = run x ev.

Definition init (x : t * Owner) : Prop :=
  exists records isn now, records <> [] /\ is_u32 isn /\ 0 <= now
  /\ x = (construct records, mkOwner isn isn now).

Definition timed (now : Z) (r : TransmissionRecord) : Prop :=
  0 <= first_transmitted_at r <= last_transmitted_at r /\ last_transmitted_at r <= now.

Record tracks (s : t) (g : Owner) : Prop := mkTracks {
  track_ring : ring_ok s;
  track_una : is_u32 (una g);
  track_nxt : is_u32 (nxt g);
  track_flight : nxt g ⊟ una g <= two30;
  track_chain : chain (una g) (una g) (live s) (nxt g);
  track_clock : 0 <= clock g;
  track_times : Forall (timed (clock g)) (live s)
}.

Lemma timed_weaken a b r : a <= b -> timed a r -> timed b r.
Proof. unfold timed. lia. Qed.

Lemma trim_timed now a l : Forall (timed now) l -> Forall (timed now) (trim a l).
Proof.
  induction 1 as [|r l Hr Hl IH]; cbn; [done|]. case_if; [done|]. constructor; [now case_if|done].
Qed.

Lemma bump_timed now now' f e l :
  now <= now' -> Forall (timed now) l -> Forall (timed now') (bump f e now' <$> l).
Proof.
  intros Hle H. apply list.Forall_fmap. eapply list.Forall_impl; [exact H|].
  intros r [H1 H2]. unfold compose, bump, repaired, timed. cases; cbn; lia.
Qed.

Lemma chain_last b f l n r : chain b f l n -> list.last l = Some r -> end_ r = n.
Proof.
  revert f. induction l as [|x l IH]; cbn [chain]; intros f; [done|].
  intros (_ & _ & _ & Hc) Hl. destruct l as [|y l]; [|now apply (IH (end_ x))].
  cbn in Hc, Hl. congruence.
Qed.

(** An original segment at SND.NXT is refused only for want of a record. *)
Lemma can_record_next s g octets now :
  tracks s g -> enabled g (Original octets now) ->
  can_record_original s (nxt g) (nxt g ⊞ octets) now = (count_ s <? size (records_ s)).
Proof.
  intros [Hr Hu Hn Hf Hc Hk Ht] (Ho & Hfo & Hnow). rewrite can_record_original_spec by done.
  assert (valid_range (nxt g) (nxt g ⊞ octets) = true) as ->.
  { unfold valid_range. rewrite andb_true_iff, negb_true_iff, Z.eqb_neq, Z.leb_le.
    revert Hfo Ho. clear -Hn Hu. word. }
  destruct (list.last (live s)) as [r|] eqn:El; [|now rewrite !andb_true_r].
  rewrite (chain_last _ _ _ _ _ Hc El), Z.eqb_refl.
  apply list.last_Some in El as [l El]. rewrite El in Ht. apply list.Forall_app in Ht as [_ Ht].
  apply list.Forall_cons in Ht as [Ht _]. unfold timed in Ht.
  rewrite (proj2 (Z.leb_le _ _)) by lia. now rewrite !andb_true_r.
Qed.

Lemma tracks_run s g ev : tracks s g -> enabled g ev -> let (s', g') := run (s, g) ev in tracks s' g'.
Proof.
  intros T He. pose proof T as [Hr Hu Hn Hf Hc Hk Ht]. destruct ev as [octets now|f e now|a]; cbn [run].
  - destruct (record_original s (nxt g) (nxt g ⊞ octets) now) as [ok s'] eqn:E.
    pose proof He as (Ho & Hfo & Hnow).
    pose proof (live_original s (nxt g) (nxt g ⊞ octets) now Hr) as Hl.
    assert (ok = can_record_original s (nxt g) (nxt g ⊞ octets) now
            /\ (can_record_original s (nxt g) (nxt g ⊞ octets) now = false -> s' = s)) as [-> Hs]
      by (unfold record_original in E; destruct (can_record_original _ _ _ _); cbn [negb] in E; split; congruence).
    rewrite E in Hl. destruct (can_record_original _ _ _ _).
    + destruct (Hl eq_refl) as [Hr' Hl']. cbn [snd] in Hr', Hl'.
      assert (nxt g ⊟ una g < (nxt g ⊞ octets) ⊟ una g <= two30) as [Hlt Hle]
        by (revert Ho Hfo; clear -Hu Hn; word).
      constructor; cbn [una nxt clock]; try done; [apply u32_range| |lia|].
      * rewrite Hl'. apply (chain_snoc _ _ _ (nxt g) (mkRecord now now (nxt g) (nxt g ⊞ octets) 0)); try done.
        apply u32_range.
      * rewrite Hl'. apply list.Forall_app. split.
        -- eapply list.Forall_impl; [exact Ht|]. intros r. apply timed_weaken. lia.
        -- apply list.Forall_singleton. unfold timed. cbn. lia.
    + rewrite (Hs eq_refl). constructor; cbn; try done; [lia|].
      eapply list.Forall_impl; [exact Ht|]. intros r. apply timed_weaken. lia.
  - cbn in He. unfold record_retransmission.
    assert (tracks s (mkOwner (una g) (nxt g) now)) as T'.
    { constructor; cbn; try done; [lia|].
      eapply list.Forall_impl; [exact Ht|]. intros r. apply timed_weaken. lia. }
    case_if; [exact T'|]. case_if; [exact T'|]. cbn [snd].
    destruct (live_mark_repaired s f e now Hr) as [Hr' Hl'].
    constructor; cbn [una nxt clock]; try done; rewrite ?Hl'; [now apply chain_bump|lia|now apply bump_timed with (clock g)].
  - destruct He as [Ha Hau]. destruct (live_acknowledge s a Hr) as [Hr' Hl'].
    constructor; cbn [una nxt clock]; try done; rewrite ?Hl'.
    + revert Hau Hf. clear -Hu Hn Ha. word.
    + apply (chain_trim a (una g) (una g)); auto. rewrite wsub_diag. lia.
    + now apply trim_timed.
Qed.

Lemma tracks_reachable s g : reachable init step (s, g) -> tracks s g.
Proof.
  intros H. change (let (s, g) := (s, g) in tracks s g).
  apply (invariant_reachable init step (fun x => let (s, g) := x in tracks s g)); [| |exact H].
  - intros x (records & isn & now & Hrec & Hi & Hnow & ->).
    constructor; cbn; try done; [now apply ring_ok_construct|rewrite wsub_diag; lia].
  - intros [s0 g0] ev x' T [He ->]. now apply tracks_run.
Qed.

(** *** Saving and restoring *)

(** The same record seen from a clock that is [d] later. *)
Definition delayed (d : Z) (r : TransmissionRecord) : TransmissionRecord :=
  mkRecord (first_transmitted_at r + d) (last_transmitted_at r + d) (first r) (end_ r) (retransmissions r).

Lemma checkpoint_live s now : checkpoint s now = save_record now <$> live s.
Proof.
  unfold checkpoint, live, ring_read. rewrite <- list_fmap_compose. apply list_fmap_ext.
  intros i k _. reflexivity.
Qed.

Lemma load_save now later r : timed now r -> load_record later (save_record now r) = delayed (later - now) r.
Proof.
  intros [H1 H2]. unfold load_record, save_record, delayed, age. destruct r as [ft lt f e n]. cbn in *.
  f_equal; case_if; lia.
Qed.

Lemma validate_live b now later f l n p :
  is_u32 b -> is_u32 f -> n ⊟ b <= two30 -> now <= later -> chain b f l n -> Forall (timed now) l ->
  match p with Some p => ck_end p = f | None => True end ->
  validate_records later p (save_record now <$> l) = true.
Proof.
  intros Hb Hf Hn Hnow. revert f p Hf. induction l as [|r l IH]; intros f p Hf Hc Ht Hp; [done|].
  cbn [fmap list_fmap chain validate_records] in *. destruct Hc as (H1 & H2 & H3 & H4).
  pose proof (chain_le _ _ _ _ H4). apply list.Forall_cons in Ht as [[Hr1 Hr2] Ht].
  assert (valid_range (first r) (end_ r) = true) as Hv.
  { unfold valid_range. rewrite H1, andb_true_iff, negb_true_iff, Z.eqb_neq, Z.leb_le.
    revert H3 H Hn. clear -Hb Hf H2. word. }
  rewrite (IH (end_ r)) by done.
  assert (match p with Some p => negb (ck_end p =? ck_first (save_record now r)) | None => false end = false) as ->.
  { destruct p as [p|]; [|done]. cbn. rewrite Hp, H1, Z.eqb_refl. done. }
  cbn [save_record ck_first ck_end first_age_nanoseconds last_age_nanoseconds]. rewrite Hv. cbn [negb orb].
  unfold age. replace (_ || _) with false; [done|].
  symmetry. rewrite !orb_false_iff, !Z.ltb_ge. cases; split_and!; lia.
Qed.

Lemma restore_live other s g now later :
  tracks s g -> clock g <= now <= later -> ring_ok other -> size (records_ other) = size (records_ s) ->
  exists s', restore other (checkpoint s now) later = Some s' /\ ring_ok s' /\ size (records_ s') = size (records_ s)
    /\ live s' = delayed (later - now) <$> live s.
Proof.
  intros [Hr Hu Hn Hf Hc Hk Ht] Hnow [Ov Oh Oc] Hs. pose proof Hr as [Hv Hh Hcnt].
  assert (Forall (timed now) (live s)) as Ht'
    by (eapply list.Forall_impl; [exact Ht|]; intros r; apply timed_weaken; lia).
  pose proof (size_live s ltac:(lia)) as Hl.
  assert (size (checkpoint s now) = count_ s) as Hsz
    by (rewrite checkpoint_live; unfold size in *; now rewrite length_fmap).
  unfold restore, validate_checkpoint. rewrite Ov, Hs, Hsz.
  replace ((size (records_ s) =? 0) || (size (records_ s) <? count_ s)) with false by blia.
  rewrite checkpoint_live, (validate_live (una g) now later (una g) (live s) (nxt g) None) by (done || lia).
  cbn [negb orb].
  assert (load_record later <$> (save_record now <$> live s) = delayed (later - now) <$> live s) as ->.
  { rewrite <- list_fmap_compose. apply list_fmap_ext. intros i r Hi. apply load_save.
    now apply (list.Forall_lookup_1 _ _ _ _ Ht' Hi). }
  set (recs := _ ++ _).
  assert (size recs = size (records_ s)) as Hrs.
  { unfold recs. unfold size in *. rewrite length_app, length_replicate, !length_fmap. lia. }
  eexists. split; [reflexivity|]. cbn [set_field]. split_and!.
  - constructor; cbn; rewrite ?Hrs; done || lia.
  - exact Hrs.
  - unfold live at 1. cbn. rewrite ring_read_take by (unfold size in *; lia).
    unfold recs. apply take_app_length'. rewrite length_fmap. unfold size in Hl. lia.
Qed.

(** ** Properties *)

(** The history records exactly the flight: a sequence number is [contains]ed
    just when it lies in [SND.UNA, SND.NXT), the oldest record starts at SND.UNA,
    a new segment is refused only when the ring is full, and an acknowledgment
    inside the oldest record keeps its transmission times, so the R2 horizon
    never restarts. *)
Theorem history_tracks_flight s g :
  reachable init step (s, g) ->
  (forall q, is_u32 q -> contains s q = (q ⊟ una g <? nxt g ⊟ una g))
  /\ (oldest s = None <-> una g = nxt g)
  /\ (forall r, oldest s = Some r -> first r = una g)
  /\ (forall octets now, enabled g (Original octets now) ->
        (record_original s (nxt g) (nxt g ⊞ octets) now).1 = (count_ s <? size (records_ s)))
  /\ (forall r a, oldest s = Some r -> is_u32 a -> 0 < a ⊟ una g < end_ r ⊟ una g ->
        oldest (acknowledge s a) = Some (r <| first := a |>)).
Proof.
  intros H. apply tracks_reachable in H as T. pose proof T as [Hr Hu Hn Hf Hc Hk Ht].
  split_and!.
  - intros q Hq. rewrite contains_spec, (chain_contains _ _ _ _ _ Hu Hu Hq Hf Hc), wsub_diag.
    rewrite (proj2 (Z.leb_le _ _)); [done|]. apply u32_range.
  - rewrite oldest_spec by done. destruct (live s) as [|r l]; cbn [chain] in Hc; cbn; [done|].
    split; [done|]. intros E. destruct Hc as (_ & _ & Hlt & Hc). apply chain_le in Hc.
    rewrite <- E, wsub_diag in *. lia.
  - intros r. rewrite oldest_spec by done. destruct (live s); cbn; [done|]. intros [= ->]. apply Hc.
  - intros octets now He. unfold record_original. rewrite (can_record_next s g) by done.
    now destruct (count_ s <? _).
  - intros r a Ho Ha Hlt. destruct (live_acknowledge s a Hr) as [Hr' Hl'].
    rewrite oldest_spec in Ho |- * by done. rewrite Hl'.
    destruct (live s) as [|x l]; [done|]. cbn in Ho. injection Ho as ->. cbn [chain] in Hc.
    destruct Hc as (H1 & H2 & H3 & H4). pose proof (chain_le _ _ _ _ H4) as Hle. cbn [trim].
    rewrite (Sequence.before_or_equal_offset (una g)), (Sequence.after_offset (una g))
      by (rewrite ?H1, ?wsub_diag; done || lia).
    rewrite H1, wsub_diag, (proj2 (Z.leb_gt _ _)), (proj2 (Z.ltb_lt _ _)) by lia. done.
Qed.
(** A saved history is accepted by any history of the same capacity, later on
    too, and continues with the same records, every age preserved. *)
Theorem history_checkpoint other s g now later :
  reachable init step (s, g) -> clock g <= now <= later ->
  ring_ok other -> size (records_ other) = size (records_ s) ->
  exists s', restore other (checkpoint s now) later = Some s'
    /\ live s' = delayed (later - now) <$> live s
    /\ (forall q, contains s' q = contains s q) /\ count_ s' = count_ s.
Proof.
  intros H Hnow Ho Hs. apply tracks_reachable in H as T.
  destruct (restore_live other s g now later T Hnow Ho Hs) as (s' & E & Hr & Hsz & Hl).
  exists s'. split_and!; try done.
  - intros q. rewrite !contains_spec, Hl. clear. induction (live s) as [|r l IH]; [done|]. cbn. now rewrite IH.
  - destruct Hr as [_ _ Hc]. pose proof (size_live s' ltac:(lia)) as H1.
    pose proof (size_live s ltac:(apply (ring_count s (track_ring s g T)))) as H2.
    rewrite <- H1, <- H2, Hl. unfold size. now rewrite length_fmap.
Qed.

(** *** Witnesses *)

(** Two segments out, 1000 and 500 octets, over the wrap of the sequence space. *)
Definition sample_owner : Owner := mkOwner 4294966796 1000 7.
Definition sample : t :=
  (record_original (record_original (construct (replicate 4 no_record)) 4294966796 500 5).2 500 1000 7).2.

Lemma sample_reachable : reachable init step (sample, sample_owner).
Proof.
  apply (reachable_step init step (run (construct (replicate 4 no_record), mkOwner 4294966796 4294966796 0) (Original 1000 5))
          (Original 500 7)); [|split; [vm_compute; split_and!; congruence|vm_compute; reflexivity]].
  apply (reachable_step init step (construct (replicate 4 no_record), mkOwner 4294966796 4294966796 0)
          (Original 1000 5)); [|split; [vm_compute; split_and!; congruence|reflexivity]].
  apply reachable_init. exists (replicate 4 no_record), 4294966796, 0. split_and!; [vm_compute; discriminate|vm_compute; split; congruence|lia|reflexivity].
Qed.

Example history_tracks_flight_witness :
  contains sample 499 = true /\ contains sample 4294966795 = false
  /\ oldest (acknowledge sample 100) = Some (mkRecord 5 5 100 500 0).
Proof.
  destruct (history_tracks_flight sample sample_owner sample_reachable) as (H1 & _ & _ & _ & H2).
  split_and!; [rewrite H1; vm_compute; [reflexivity|split; congruence]..|].
  apply (H2 (mkRecord 5 5 4294966796 500 0)); vm_compute; try reflexivity; split; congruence.
Defined.

Example history_checkpoint_witness :
  exists s', restore (construct (replicate 4 no_record)) (checkpoint sample 8) 20 = Some s'
    /\ live s' = [mkRecord 17 17 4294966796 500 0; mkRecord 19 19 500 1000 0].
Proof.
  destruct (history_checkpoint (construct (replicate 4 no_record)) sample sample_owner 8 20 sample_reachable)
    as (s' & E & Hl & _); [vm_compute; split; congruence|now apply ring_ok_construct|reflexivity|].
  exists s'. split; [exact E|]. rewrite Hl. reflexivity.
Defined.

End History.
