(* ===== verification/Sack.v ===== *)
(** * The RFC 6675 SACK scoreboard (core/src/transport/tcp_sack_scoreboard.cpp).

    The sender's sorted disjoint intervals of selectively acknowledged octets,
    and the loss, pipe and next-segment decisions taken from them. *)

From S2P Require Import Prelude Sequence Arena Blocks.
Import Arena Blocks.

Module SackScoreboard.

Record SackRange := mkRange { first : Z; end_ : Z }.
(** [SackRange{}] *)
Definition no_range : SackRange := mkRange 0 0.
#[export] Instance range_inhabited : Inhabited SackRange := populate no_range.

Inductive SackUpdateStatus := updated | unchanged | malformed | capacity_exhausted.

Inductive SackNextReason :=
| lost_retransmission | new_data | unsacked_retransmission | rescue_retransmission.

Record SackNextSegment := mkNext { range : SackRange; reason : SackNextReason }.
(** [return {};] and the explicit conversion to bool *)
Definition no_segment : SackNextSegment := mkNext no_range lost_retransmission.
Definition segment_present (segment : SackNextSegment) : bool :=
  negb (first (range segment) =? end_ (range segment)).

Record t := mk {
  ranges_ : list SackRange;
  workspace_ : list SackRange;
  sender_mss_ : Z;
  high_ack_ : Z;
  high_data_end_ : Z;
  high_retransmitted_end_ : Z;
  recovery_point_ : Z;
  rescue_retransmitted_ : Z;
  duplicate_acknowledgments_ : Z;
  count_ : Z;
  recovery_ : bool;
  rescue_present_ : bool;
  recovery_suppressed_ : bool;
  last_update_added_sack_ : bool;
  valid_ : bool
}.
#[export] Instance t_settable : Settable t := fun s =>
  mk (ranges_ s) (workspace_ s) (sender_mss_ s) (high_ack_ s) (high_data_end_ s)
     (high_retransmitted_end_ s) (recovery_point_ s) (rescue_retransmitted_ s)
     (duplicate_acknowledgments_ s) (count_ s) (recovery_ s) (rescue_present_ s)
     (recovery_suppressed_ s) (last_update_added_sack_ s) (valid_ s).

Definition duplicate_threshold : Z := 3.

Definition bounded_range (first end_ : Z) : bool :=
  let length := end_ ⊟ first in negb (length =? 0) && (length <=? two30).

Definition saturating_u32 (value : Z) : Z := if u32_max <? value then u32_max else value.

(** [std::fill(..., SackRange{})] *)
Definition cleared (l : list SackRange) : list SackRange := replicate (length l) no_range.

Definition construct (ranges workspace : list SackRange) (sender_mss : Z) : t :=
  let valid := negb (size ranges =? 0) && (size ranges =? size workspace) && negb (sender_mss =? 0) in
  mk (if valid then cleared ranges else ranges) (if valid then cleared workspace else workspace)
     sender_mss 0 0 0 0 0 0 0 false false false false valid.

Definition reset (s : t) (high_ack high_data_end : Z) : bool * t :=
  if negb (valid_ s) || (two30 <? high_data_end ⊟ high_ack) then (false, s)
  else (true,
    s <| ranges_ := cleared (ranges_ s) |> <| count_ := 0 |> <| high_ack_ := high_ack |>
      <| high_data_end_ := high_data_end |> <| high_retransmitted_end_ := high_ack |>
      <| recovery_point_ := high_data_end |> <| rescue_retransmitted_ := 0 |>
      <| duplicate_acknowledgments_ := 0 |> <| recovery_ := false |> <| rescue_present_ := false |>
      <| recovery_suppressed_ := false |>).

(** *** [insert_workspace]

    The loops of the function, over the workspace [w] with [count] staged
    ranges; each moves an index towards [count], the fuel. *)

Fixpoint find_position (fuel : nat) (w : list SackRange) (count base incoming_first position : Z) : Z :=
  match fuel with
  | O => position
  | S fuel =>
      if (position <? count) && (end_ (get w position) ⊟ base <? incoming_first)
      then find_position fuel w count base incoming_first (position + 1) else position
  end.

Fixpoint merge_ranges (fuel : nat) (w : list SackRange) (count base : Z) (merge_end : Z)
    (first_ last_ : Z) : Z * Z * Z :=
  match fuel with
  | O => (merge_end, first_, last_)
  | S fuel =>
      let r := get w merge_end in
      if (merge_end <? count) && (first r ⊟ base <=? last_ ⊟ base)
      then merge_ranges fuel w count base (merge_end + 1)
             (if first r ⊟ base <? first_ ⊟ base then first r else first_)
             (if last_ ⊟ base <? end_ r ⊟ base then end_ r else last_)
      else (merge_end, first_, last_)
  end.

(** [for (index = count; index > position; --index) w[index] = w[index - 1];] *)
Fixpoint shift_up (n : nat) (w : list SackRange) (index : Z) : list SackRange :=
  match n with
  | O => w
  | S n => shift_up n (put w index (get w (index - 1))) (index - 1)
  end.

(** [for (index = 0; index < n; ++index) w[position + 1 + index] = w[merge_end + index];] *)
Fixpoint shift_down (n : nat) (w : list SackRange) (target source : Z) : list SackRange :=
  match n with
  | O => w
  | S n => shift_down n (put w target (get w source)) (target + 1) (source + 1)
  end.

Definition insert_workspace (w : list SackRange) (incoming : SackRange) (count base : Z)
    : option (list SackRange * Z) :=
  let fuel := S (Z.to_nat count) in
  let position := find_position fuel w count base (first incoming ⊟ base) 0 in
  let '(merge_end, first_, last_) :=
    merge_ranges fuel w count base position (first incoming) (end_ incoming) in
  let removed := merge_end - position in
  if (removed =? 0) && (count =? size w) then None
  else
    let '(w, count) :=
      if removed =? 0 then (shift_up (Z.to_nat (count - position)) w count, count + 1)
      else if 1 <? removed
      then (shift_down (Z.to_nat (count - merge_end)) w (position + 1) merge_end, count - (removed - 1))
      else (w, count) in
    Some (put w position (mkRange first_ last_), count).

(** *** [update] *)

(** The first staging loop: what [high_ack] leaves of the live ranges. *)
Fixpoint stage_ranges (l : list SackRange) (w : list SackRange) (staged high_ack : Z)
    : option Z * list SackRange :=
  match l with
  | [] => (Some staged, w)
  | candidate :: l =>
      if Sequence.before_or_equal (end_ candidate) high_ack then stage_ranges l w staged high_ack
      else
        let candidate := if Sequence.before (first candidate) high_ack
                         then mkRange high_ack (end_ candidate) else candidate in
        match insert_workspace w candidate staged high_ack with
        | None => (None, w)
        | Some (w, staged) => stage_ranges l w staged high_ack
        end
  end.

(** The second staging loop: the blocks of the segment. *)
Fixpoint stage_blocks (blocks : list SackBlock) (w : list SackRange) (staged high_ack high_data_end : Z)
    : (SackUpdateStatus + Z) * list SackRange :=
  match blocks with
  | [] => (inr staged, w)
  | block :: blocks =>
      if negb (bounded_range (left_edge block) (right_edge block))
         || Sequence.after (right_edge block) high_data_end
         || Sequence.after_or_equal (left_edge block) high_data_end
      then (inl malformed, w)
      else if Sequence.before_or_equal (right_edge block) high_ack
      then stage_blocks blocks w staged high_ack high_data_end
      else
        let candidate := mkRange (if Sequence.before (left_edge block) high_ack
                                  then high_ack else left_edge block) (right_edge block) in
        match insert_workspace w candidate staged high_ack with
        | None => (inl capacity_exhausted, w)
        | Some (w, staged) => stage_blocks blocks w staged high_ack high_data_end
        end
  end.

(** [sum += end - first] over a prefix of the workspace, in 64 bits. *)
Definition sacked_octets (l : list SackRange) : Z :=
  fold_right (fun r sum => (end_ r ⊟ first r) + sum) 0 l.

Definition same_range (a b : SackRange) : bool := (first a =? first b) && (end_ a =? end_ b).

(** The marker adjustments at the end of [update], on the new HighACK. *)
Definition clamp_retransmitted (s : t) : t :=
  if Sequence.before (high_retransmitted_end_ s) (high_ack_ s)
  then s <| high_retransmitted_end_ := high_ack_ s |> else s.

Definition end_recovery (s : t) : t :=
  if recovery_ s && Sequence.before_or_equal (recovery_point_ s) (high_ack_ s)
  then s <| recovery_ := false |> <| rescue_present_ := false |> else s.

Definition end_suppression (s : t) : t :=
  if recovery_suppressed_ s && Sequence.before_or_equal (recovery_point_ s) (high_ack_ s)
  then s <| recovery_suppressed_ := false |> else s.

Definition clamp_recovery_point (s : t) : t :=
  if negb (recovery_ s) && negb (recovery_suppressed_ s)
     && Sequence.before (recovery_point_ s) (high_ack_ s)
  then s <| recovery_point_ := high_ack_ s |> else s.

(** The staged ranges become the live ones, and the recovery markers follow. *)
Definition publish (s : t) (staged high_ack high_data_end : Z) : SackUpdateStatus * t :=
  let cumulative_advanced := Sequence.after high_ack (high_ack_ s) in
  let new := take (Z.to_nat staged) (workspace_ s) in
  let changed := negb (high_ack =? high_ack_ s) || negb (high_data_end =? high_data_end_ s)
                 || negb (staged =? count_ s)
                 || negb (forallb (fun p => same_range p.1 p.2) (zip new (ranges_ s))) in
  let s := s <| ranges_ := new ++ replicate (length (ranges_ s) - Z.to_nat staged) no_range |>
             <| count_ := staged |> <| high_ack_ := high_ack |> <| high_data_end_ := high_data_end |> in
  let s := clamp_retransmitted s in
  let s := if cumulative_advanced then s <| duplicate_acknowledgments_ := 0 |> else s in
  (if changed then updated else unchanged, clamp_recovery_point (end_suppression (end_recovery s))).

Definition update (s : t) (high_ack high_data_end : Z) (blocks : list SackBlock) : SackUpdateStatus * t :=
  let s := s <| last_update_added_sack_ := false |> in
  if negb (valid_ s) || Sequence.before high_ack (high_ack_ s)
     || Sequence.before high_data_end (high_data_end_ s) || Sequence.after high_ack high_data_end
     || (two30 <? high_data_end ⊟ high_ack)
  then (malformed, s)
  else
    match stage_ranges (take (Z.to_nat (count_ s)) (ranges_ s)) (cleared (workspace_ s)) 0 high_ack with
    | (None, w) => (capacity_exhausted, s <| workspace_ := w |>)
    | (Some staged, w) =>
        let prior_sacked := sacked_octets (take (Z.to_nat staged) w) in
        match stage_blocks blocks w staged high_ack high_data_end with
        | (inl status, w) => (status, s <| workspace_ := w |>)
        | (inr staged, w) =>
            let s := s <| workspace_ := w |>
                       <| last_update_added_sack_ :=
                            prior_sacked <? sacked_octets (take (Z.to_nat staged) w) |> in
            publish s staged high_ack high_data_end
        end
    end.

(** The live intervals: the prefix of [ranges_] in use. *)
Definition live (s : t) : list SackRange := take (Z.to_nat (count_ s)) (ranges_ s).

(** *** Loss detection *)

(** The loop of [is_lost]. *)
Fixpoint scan_above (l : list SackRange) (target : Z) (discontiguous sacked_above : Z) : Z * Z :=
  match l with
  | [] => (discontiguous, sacked_above)
  | range :: l =>
      let after_target := target ⊞ 1 in
      if Sequence.before_or_equal (end_ range) after_target
      then scan_above l target discontiguous sacked_above
      else
        let first_ := if Sequence.before (first range) after_target then after_target else first range in
        scan_above l target
          (if Sequence.after (first range) target then discontiguous + 1 else discontiguous)
          (sacked_above + (end_ range ⊟ first_))
  end.

Definition is_lost (s : t) (target : Z) : bool :=
  if negb (valid_ s) || Sequence.before target (high_ack_ s)
     || negb (Sequence.before target (high_data_end_ s)) then false
  else
    let (discontiguous, sacked_above) := scan_above (live s) target 0 0 in
    (duplicate_threshold <=? discontiguous)
    || ((duplicate_threshold - 1) * sender_mss_ s <? sacked_above).

(** The lambda of [pipe], as the octets it adds. *)
Definition account_unsacked (s : t) (first_ last_ : Z) : Z :=
  if first_ =? last_ then 0
  else
    let length := last_ ⊟ first_ in
    (if negb (is_lost s first_) then length else 0)
    + (if Sequence.before first_ (high_retransmitted_end_ s)
       then (if Sequence.before last_ (high_retransmitted_end_ s)
             then last_ else high_retransmitted_end_ s) ⊟ first_
       else 0).

Fixpoint pipe_from (s : t) (l : list SackRange) (cursor result : Z) : Z :=
  match l with
  | [] => result + account_unsacked s cursor (high_data_end_ s)
  | range :: l => pipe_from s l (end_ range) (result + account_unsacked s cursor (first range))
  end.

Definition pipe (s : t) : Z :=
  if negb (valid_ s) then 0 else saturating_u32 (pipe_from s (live s) (high_ack_ s) 0).

Definition duplicate_ack (s : t) (carries_new_sack : bool) : bool * t :=
  if negb (valid_ s) || recovery_ s || negb carries_new_sack then (false, s)
  else
    let s := if negb (duplicate_acknowledgments_ s =? u32_max)
             then s <| duplicate_acknowledgments_ := u32 (duplicate_acknowledgments_ s + 1) |> else s in
    ((duplicate_threshold <=? duplicate_acknowledgments_ s) || is_lost s (high_ack_ s), s).

(** *** Next segment *)

Fixpoint unsacked_from (l : list SackRange) (cursor ceiling : Z) : option SackRange :=
  match l with
  | [] => Some (mkRange cursor ceiling)
  | sacked :: l =>
      if Sequence.before_or_equal (end_ sacked) cursor then unsacked_from l cursor ceiling
      else if Sequence.before cursor (first sacked)
      then Some (mkRange cursor (if Sequence.before (first sacked) ceiling then first sacked else ceiling))
      else if negb (Sequence.before (end_ sacked) ceiling) then None
      else unsacked_from l (end_ sacked) ceiling
  end.

Definition first_unsacked_from (s : t) (start ceiling : Z) : option SackRange :=
  let cursor := if Sequence.before start (high_ack_ s) then high_ack_ s else start in
  if negb (Sequence.before cursor ceiling) then None else unsacked_from (live s) cursor ceiling.

Fixpoint highest_from (s : t) (l : list SackRange) (cursor : Z) (result : option SackRange)
    : option SackRange :=
  match l with
  | [] => if Sequence.before cursor (high_data_end_ s)
          then Some (mkRange cursor (high_data_end_ s)) else result
  | range :: l =>
      highest_from s l (end_ range)
        (if Sequence.before cursor (first range) then Some (mkRange cursor (first range)) else result)
  end.

Definition highest_unsacked (s : t) : option SackRange := highest_from s (live s) (high_ack_ s) None.

(** A range of at most one SMSS from [first]. *)
Definition head_segment (s : t) (candidate : SackRange) (why : SackNextReason) : SackNextSegment :=
  mkNext (mkRange (first candidate)
            (first candidate ⊞ Z.min (sender_mss_ s) (end_ candidate ⊟ first candidate))) why.

(** The search loop of rule 1; each turn moves past one more interval, so the
    number of intervals is enough fuel. *)
Fixpoint search_lost (fuel : nat) (s : t) (search highest_sack : Z) : option SackNextSegment :=
  match fuel with
  | O => None
  | S fuel =>
      match first_unsacked_from s search highest_sack with
      | None => None
      | Some candidate =>
          if is_lost s (first candidate) then Some (head_segment s candidate lost_retransmission)
          else if negb (Sequence.before (end_ candidate) highest_sack) then None
          else search_lost fuel s (end_ candidate) highest_sack
      end
  end.

(** Rule 4: the last octets of the highest unacknowledged interval. *)
Definition rescue (s : t) : SackNextSegment :=
  if negb (rescue_present_ s) || Sequence.after (high_ack_ s) (rescue_retransmitted_ s)
  then match highest_unsacked s with
       | Some candidate =>
           let length := Z.min (sender_mss_ s) (end_ candidate ⊟ first candidate) in
           mkNext (mkRange (end_ candidate ⊟ length) (end_ candidate)) rescue_retransmission
       | None => no_segment
       end
  else no_segment.

(** Rule 2: new data the window admits, starting at HighData. *)
Definition eligible (s : t) (unsent : option SackRange) : option SackRange :=
  match unsent with
  | Some u => if (first u =? high_data_end_ s) && bounded_range (first u) (end_ u) then Some u else None
  | None => None
  end.

Definition next_segment (s : t) (unsent : option SackRange) : SackNextSegment :=
  if negb (valid_ s) || negb (recovery_ s) || (count_ s =? 0) then no_segment
  else
    let highest_sack := end_ (get (ranges_ s) (count_ s - 1)) in
    match search_lost (S (Z.to_nat (count_ s))) s (high_retransmitted_end_ s) highest_sack with
    | Some segment => segment
    | None =>
        match eligible s unsent, first_unsacked_from s (high_retransmitted_end_ s) highest_sack with
        | Some u, _ => head_segment s u new_data
        | None, Some candidate => head_segment s candidate unsacked_retransmission
        | None, None => rescue s
        end
    end.

Definition enter_recovery (s : t) : t :=
  if negb (valid_ s) || recovery_ s || recovery_suppressed_ s then s
  else s <| recovery_ := true |> <| recovery_point_ := high_data_end_ s |>
         <| high_retransmitted_end_ := high_ack_ s |> <| rescue_present_ := false |>
         <| rescue_retransmitted_ := 0 |> <| duplicate_acknowledgments_ := 0 |>.

Definition reason_is (a b : SackNextReason) : bool :=
  match a, b with
  | lost_retransmission, lost_retransmission | new_data, new_data
  | unsacked_retransmission, unsacked_retransmission
  | rescue_retransmission, rescue_retransmission => true
  | _, _ => false
  end.

Definition commit (s : t) (segment : SackNextSegment) : bool * t :=
  let r := range segment in
  if negb (valid_ s) || negb (segment_present segment) || negb (recovery_ s)
     || negb (bounded_range (first r) (end_ r)) then (false, s)
  else if reason_is (reason segment) new_data then
    if negb (first r =? high_data_end_ s) then (false, s)
    else (true, s <| high_data_end_ := end_ r |>)
  else if Sequence.before (first r) (high_ack_ s) || Sequence.after (end_ r) (high_data_end_ s)
  then (false, s)
  else if reason_is (reason segment) rescue_retransmission
  then (true, s <| rescue_retransmitted_ := recovery_point_ s |> <| rescue_present_ := true |>)
  else if Sequence.after (end_ r) (high_retransmitted_end_ s) then
    let initial_fast_retransmission :=
      reason_is (reason segment) lost_retransmission
      && (high_retransmitted_end_ s =? high_ack_ s) && negb (rescue_present_ s) in
    let s := s <| high_retransmitted_end_ := end_ r |> in
    (true, if initial_fast_retransmission
           then s <| rescue_retransmitted_ := end_ r |> <| rescue_present_ := true |> else s)
  else (true, s).

Definition on_retransmission_timeout (s : t) : t :=
  if negb (valid_ s) then s
  else s <| ranges_ := cleared (ranges_ s) |> <| count_ := 0 |> <| recovery_ := false |>
         <| recovery_point_ := high_data_end_ s |>
         <| recovery_suppressed_ := negb (high_ack_ s =? high_data_end_ s) |>
         <| high_retransmitted_end_ := high_ack_ s |> <| rescue_present_ := false |>
         <| rescue_retransmitted_ := 0 |> <| duplicate_acknowledgments_ := 0 |>.

Definition reduce_sender_mss (s : t) (sender_mss : Z) : t :=
  if negb (sender_mss =? 0) && (sender_mss <? sender_mss_ s) then s <| sender_mss_ := sender_mss |> else s.

Definition in_recovery (s : t) : bool := recovery_ s.
Definition capacity (s : t) : Z := if valid_ s then size (ranges_ s) else 0.

(** *** Checkpoints *)

Record Checkpoint := mkCheckpoint {
  ranges : list SackRange;
  high_ack : Z;
  high_data_end : Z;
  high_retransmitted_end : Z;
  recovery_point : Z;
  rescue_retransmitted : Z;
  duplicate_acknowledgments : Z;
  recovery : bool;
  rescue_present : bool;
  recovery_suppressed : bool
}.

Definition checkpoint (s : t) : Checkpoint :=
  mkCheckpoint (live s) (high_ack_ s) (high_data_end_ s) (high_retransmitted_end_ s) (recovery_point_ s)
    (rescue_retransmitted_ s) (duplicate_acknowledgments_ s) (recovery_ s) (rescue_present_ s)
    (recovery_suppressed_ s).

Fixpoint validate_ranges (l : list SackRange) (previous : option SackRange) (high_ack high_data_end : Z) : bool :=
  match l with
  | [] => true
  | range :: l =>
      if negb (bounded_range (first range) (end_ range)) || Sequence.before (first range) high_ack
         || Sequence.after (end_ range) high_data_end
         || match previous with
            | Some p => negb (Sequence.before (end_ p) (first range))
            | None => false
            end
      then false
      else validate_ranges l (Some range) high_ack high_data_end
  end.

Definition validate_checkpoint (state : Checkpoint) (capacity : Z) : bool :=
  if (capacity =? 0) || (capacity <? size (ranges state))
     || (two30 <? high_data_end state ⊟ high_ack state)
     || Sequence.after (high_retransmitted_end state) (high_data_end state)
     || Sequence.before (high_retransmitted_end state) (high_ack state)
     || Sequence.before (recovery_point state) (high_ack state)
     || Sequence.after (recovery_point state) (high_data_end state)
     || (recovery state && recovery_suppressed state)
     || (rescue_present state
         && (negb (recovery state)
             || Sequence.before (rescue_retransmitted state) (high_ack state)
             || Sequence.after (rescue_retransmitted state) (recovery_point state)))
     || (recovery state && negb (duplicate_acknowledgments state =? 0))
  then false
  else validate_ranges (ranges state) None (high_ack state) (high_data_end state).

(** Staging a saved list again, each interval checked. *)
Fixpoint stage_saved (l : list SackRange) (w : list SackRange) (staged high_ack high_data_end : Z)
    : option Z * list SackRange :=
  match l with
  | [] => (Some staged, w)
  | range :: l =>
      if negb (bounded_range (first range) (end_ range)) || Sequence.before (first range) high_ack
         || Sequence.after (end_ range) high_data_end then (None, w)
      else match insert_workspace w range staged high_ack with
           | None => (None, w)
           | Some (w, staged) => stage_saved l w staged high_ack high_data_end
           end
  end.

(** The boolean result and the object, whose workspace changes even on failure. *)
Definition restore (s : t) (state : Checkpoint) : bool * t :=
  if negb (valid_ s) || negb (validate_checkpoint state (size (ranges_ s))) then (false, s)
  else
    match stage_saved (ranges state) (cleared (workspace_ s)) 0 (high_ack state) (high_data_end state) with
    | (None, w) => (false, s <| workspace_ := w |>)
    | (Some staged, w) =>
        let s := s <| workspace_ := w |> in
        if negb (staged =? size (ranges state)) then (false, s)
        else (true, mk
          (take (Z.to_nat staged) w ++ replicate (length (ranges_ s) - Z.to_nat staged) no_range)
          w (sender_mss_ s) (high_ack state) (high_data_end state) (high_retransmitted_end state)
          (recovery_point state) (rescue_retransmitted state) (duplicate_acknowledgments state) staged
          (recovery state) (rescue_present state) (recovery_suppressed state)
          (last_update_added_sack_ s) (valid_ s))
    end.

(** ** Insertion on lists

    The staged intervals as a list [l]; [w = pre ++ l ++ rest] is the array
    around them. *)

Section Insertion.
Context (b : Z).
Implicit Types (l : list SackRange) (r x : SackRange).

(** Intervals wholly below [f]. *)
Fixpoint skip (f : Z) (l : list SackRange) : nat :=
  match l with
  | [] => O
  | r :: l => if end_ r ⊟ b <? f then S (skip f l) else O
  end.

(** Intervals that meet [f, e) or a merged extension of it, and their union. *)
Fixpoint absorb (f e : Z) (l : list SackRange) : nat * Z * Z :=
  match l with
  | [] => (O, f, e)
  | r :: l =>
      if first r ⊟ b <=? e ⊟ b
      then let '(n, f, e) := absorb (if first r ⊟ b <? f ⊟ b then first r else f)
                               (if e ⊟ b <? end_ r ⊟ b then end_ r else e) l in (S n, f, e)
      else (O, f, e)
  end.

Definition insert (x : SackRange) (l : list SackRange) : list SackRange :=
  let p := skip (first x ⊟ b) l in
  let '(n, f, e) := absorb (first x) (end_ x) (drop p l) in
  take p l ++ mkRange f e :: drop (p + n) l.

Lemma get_middle pre r rest : get (pre ++ r :: rest) (size pre) = r.
Proof.
  unfold get, size. rewrite Nat2Z.id. apply list_lookup_total_correct. now apply list_lookup_middle.
Qed.

Lemma put_middle pre r x rest : put (pre ++ r :: rest) (size pre) x = pre ++ x :: rest.
Proof. unfold put, size. rewrite Nat2Z.id, <- (Nat.add_0_r (length pre)), insert_app_r. done. Qed.

Lemma size_cons r l : size (r :: l) = size l + 1.
Proof. unfold size. cbn [length]. lia. Qed.

Lemma size_snoc l r : size (l ++ [r]) = size l + 1.
Proof. now rewrite size_app. Qed.

Lemma skip_le f l : (skip f l <= length l)%nat.
Proof. induction l as [|r l IH]; cbn; [lia|]. case_if; lia. Qed.

Lemma absorb_le f e l : ((absorb f e l).1.1 <= length l)%nat.
Proof.
  revert f e. induction l as [|r l IH]; intros f e; cbn; [lia|]. case_if; [|cbn; lia].
  specialize (IH (if first r ⊟ b <? f ⊟ b then first r else f) (if e ⊟ b <? end_ r ⊟ b then end_ r else e)).
  destruct (absorb _ _ l) as [[n f'] e']. cbn in *. lia.
Qed.

Lemma find_position_spec fuel f l : forall pre rest,
  (length l < fuel)%nat ->
  find_position fuel (pre ++ l ++ rest) (size pre + size l) b f (size pre) = size pre + Z.of_nat (skip f l).
Proof.
  revert fuel. induction l as [|r l IH]; intros [|fuel] pre rest Hf; cbn [length] in Hf; try lia.
  - cbn [find_position skip size length]. rewrite Z.add_0_r.
    change (Z.of_nat 0) with 0. rewrite Z.add_0_r, Z.ltb_irrefl. done.
  - cbn [find_position skip]. rewrite size_cons. pose proof (size_nonneg l).
    replace (size pre <? size pre + (size l + 1)) with true by lia. cbn [app andb].
    rewrite get_middle. case_if; [|lia].
    specialize (IH fuel (pre ++ [r]) rest ltac:(lia)). rewrite size_snoc, <- app_assoc in IH. cbn [app] in IH.
    replace (size pre + (size l + 1)) with (size pre + 1 + size l) by lia. rewrite IH. lia.
Qed.

Lemma merge_ranges_spec fuel l : forall pre rest f e,
  (length l < fuel)%nat ->
  merge_ranges fuel (pre ++ l ++ rest) (size pre + size l) b (size pre) f e
  = let '(n, f, e) := absorb f e l in (size pre + Z.of_nat n, f, e).
Proof.
  revert fuel. induction l as [|r l IH]; intros [|fuel] pre rest f e Hf; cbn [length] in Hf; try lia.
  - cbn [merge_ranges absorb]. change (size []) with 0.
    rewrite Z.add_0_r, Z.ltb_irrefl. cbn. now rewrite Z.add_0_r.
  - cbn [merge_ranges absorb]. rewrite size_cons. pose proof (size_nonneg l).
    replace (size pre <? size pre + (size l + 1)) with true by lia. cbn [app andb].
    rewrite get_middle. case_if; [|now rewrite Z.add_0_r].
    specialize (IH fuel (pre ++ [r]) rest (if first r ⊟ b <? f ⊟ b then first r else f)
      (if e ⊟ b <? end_ r ⊟ b then end_ r else e) ltac:(lia)).
    rewrite size_snoc, <- app_assoc in IH. cbn [app] in IH.
    replace (size pre + (size l + 1)) with (size pre + 1 + size l) by lia. rewrite IH.
    destruct (absorb _ _ l) as [[n f'] e']. f_equal. f_equal. lia.
Qed.

Lemma shift_up_spec l : forall pre x rest,
  exists y, shift_up (length l) (pre ++ l ++ x :: rest) (size pre + size l) = pre ++ y :: l ++ rest.
Proof.
  induction l as [|z l IH] using rev_ind; intros pre x rest; [now exists x|].
  rewrite length_app, Nat.add_comm. cbn [length Nat.add shift_up]. rewrite size_snoc.
  replace (size pre + (size l + 1) - 1) with (size (pre ++ l)) by (rewrite size_app; lia).
  replace (size pre + (size l + 1)) with (size ((pre ++ l) ++ [z])) by (rewrite size_snoc, size_app; lia).
  replace (pre ++ (l ++ [z]) ++ x :: rest) with (((pre ++ l) ++ [z]) ++ x :: rest) by (now rewrite <- !app_assoc).
  assert (get (((pre ++ l) ++ [z]) ++ x :: rest) (size (pre ++ l)) = z) as ->
    by (rewrite <- (app_assoc (pre ++ l)); apply get_middle).
  rewrite put_middle. destruct (IH pre z (z :: rest)) as [y Hy]. exists y.
  rewrite size_app, <- !app_assoc. cbn [app]. exact Hy.
Qed.

Lemma shift_down_spec l : forall pre gap rest,
  gap <> [] ->
  exists junk, shift_down (length l) (pre ++ gap ++ l ++ rest) (size pre) (size pre + size gap) = pre ++ l ++ junk
    /\ length junk = (length gap + length rest)%nat.
Proof.
  induction l as [|z l IH]; intros pre gap rest Hg.
  { exists (gap ++ rest). cbn. now rewrite length_app. }
  destruct gap as [|g gap]; [done|]. cbn [length shift_down].
  replace (size pre + size (g :: gap)) with (size (pre ++ g :: gap)) by now rewrite size_app.
  replace (pre ++ (g :: gap) ++ (z :: l) ++ rest) with ((pre ++ g :: gap) ++ z :: l ++ rest)
    by now rewrite <- !app_assoc.
  rewrite get_middle, <- app_assoc. cbn [app]. rewrite put_middle.
  destruct (IH (pre ++ [z]) (gap ++ [z]) rest) as (junk & E & Hj); [now destruct gap|].
  exists junk. rewrite <- !app_assoc in E. cbn [app] in E. rewrite size_snoc in E.
  replace (size pre + 1 + size (gap ++ [z])) with (size (pre ++ g :: gap) + 1) in E
    by (rewrite size_app, size_cons, size_snoc; lia).
  rewrite E, Hj, length_app. cbn [length]. split; [done|lia].
Qed.

(** The array operation is the list insertion; it fails only when a new interval
    finds the workspace full. *)
Lemma insert_workspace_spec l rest x :
  match insert_workspace (l ++ rest) x (size l) b with
  | None => rest = [] /\ (length (insert x l) = S (length l))%nat
  | Some (w, count) => exists rest', w = insert x l ++ rest' /\ count = size (insert x l)
      /\ length w = length (l ++ rest)
  end.
Proof.
  unfold insert_workspace, insert.
  set (p := skip (first x ⊟ b) l). pose proof (skip_le (first x ⊟ b) l) as Hp. fold p in Hp.
  pose proof (find_position_spec (S (Z.to_nat (size l))) (first x ⊟ b) l [] rest
    ltac:(unfold size; lia)) as Ep. cbn [app] in Ep. change (size []) with 0 in Ep. rewrite !Z.add_0_l in Ep.
  fold p in Ep. rewrite Ep. clear Ep.
  assert (size (take p l) = Z.of_nat p) as Htp by (unfold size; rewrite length_take; lia).
  pose proof (merge_ranges_spec (S (Z.to_nat (size l))) (drop p l) (take p l) rest (first x) (end_ x)
    ltac:(rewrite length_drop; unfold size; lia)) as Em.
  replace (size (take p l) + size (drop p l)) with (size l) in Em
    by (unfold size; rewrite length_take, length_drop; lia).
  rewrite app_assoc, take_drop, Htp in Em. rewrite Em. clear Em.
  pose proof (absorb_le (first x) (end_ x) (drop p l)) as Hn.
  destruct (absorb (first x) (end_ x) (drop p l)) as [[n f] e]. cbn in Hn. rewrite length_drop in Hn.
  replace (Z.of_nat p + Z.of_nat n - Z.of_nat p) with (Z.of_nat n) by lia.
  assert (length (take p l ++ mkRange f e :: drop (p + n) l) = (length l - n + 1)%nat) as Hlen.
  { rewrite length_app, length_take. cbn [length]. rewrite length_drop. lia. }
  rewrite Hlen.
  assert (size (l ++ rest) = size l + size rest) as Hw by apply size_app.
  assert (l = take p l ++ drop p l) as El by (now rewrite take_drop).
  destruct n as [|n].
  - change (Z.of_nat 0 =? 0) with true. cbn [andb].
    destruct rest as [|y rest]; [rewrite app_nil_r, Z.eqb_refl; split; [done|lia]|].
    replace (size l =? size (l ++ y :: rest)) with false
      by (rewrite Hw, size_cons; pose proof (size_nonneg rest); lia).
    replace (Z.to_nat (size l - Z.of_nat p)) with (length (drop p l)) by (unfold size; rewrite length_drop; lia).
    destruct (shift_up_spec (drop p l) (take p l) y rest) as [z Hz].
    replace (take p l ++ drop p l ++ y :: rest) with (l ++ y :: rest) in Hz by (now rewrite app_assoc, take_drop).
    replace (size (take p l) + size (drop p l)) with (size l) in Hz
      by (unfold size; rewrite length_take, length_drop; lia).
    rewrite Hz, <- Htp, put_middle, Nat.add_0_r. exists rest. rewrite <- app_assoc. cbn [app].
    split_and!; [done|unfold size; rewrite length_app, length_take; cbn [length]; rewrite length_drop; lia|].
    rewrite !length_app, length_take. cbn [length]. rewrite !length_app, length_drop. cbn [length]. lia.
  - assert (Z.of_nat (S n) =? 0 = false) as -> by (apply Z.eqb_neq; lia). cbn [andb].
    set (gap := take (S n) (drop p l)).
    assert (drop p l = gap ++ drop (p + S n) l) as Ed by (unfold gap; now rewrite <- drop_drop, take_drop).
    assert (length gap = S n) as Hg by (unfold gap; rewrite length_take, length_drop; lia).
    destruct gap as [|g gap]; [discriminate|]. cbn [length] in Hg. injection Hg as Hg.
    case_if.
    + replace (Z.to_nat (size l - (Z.of_nat p + Z.of_nat (S n)))) with (length (drop (p + S n) l))
        by (unfold size; rewrite length_drop; lia).
      destruct (shift_down_spec (drop (p + S n) l) (take p l ++ [g]) gap rest) as (junk & Ej & Hj).
      { intros ->. cbn in Hg. lia. }
      rewrite size_snoc, Htp in Ej.
      replace (Z.of_nat p + 1 + size gap) with (Z.of_nat p + Z.of_nat (S n)) in Ej by (unfold size; lia).
      replace ((take p l ++ [g]) ++ gap ++ drop (p + S n) l ++ rest) with (l ++ rest) in Ej.
      2:{ rewrite El at 1. rewrite Ed. rewrite <- !app_assoc. done. }
      rewrite Ej, <- app_assoc. cbn [app]. rewrite <- Htp, put_middle. exists junk.
      rewrite <- app_assoc. cbn [app]. split_and!; [done| |].
      * unfold size. rewrite length_app, length_take. cbn [length]. rewrite length_drop. lia.
      * rewrite !length_app, length_take. cbn [length]. rewrite !length_app, length_drop, Hj. lia.
    + assert (n = O) as -> by lia. destruct gap; [|discriminate].
      assert (l ++ rest = take p l ++ g :: drop (p + 1) l ++ rest) as ->.
      { rewrite El at 1. rewrite Ed, <- !app_assoc. done. }
      rewrite <- Htp, put_middle. exists rest.
      rewrite <- app_assoc. cbn [app]. split_and!; [done| |].
      * unfold size. rewrite length_app, length_take. cbn [length]. rewrite length_drop. lia.
      * rewrite !length_app. done.
Qed.
End Insertion.

(** ** Canonical interval lists *)

(** The octet [q] lies in the half-open interval. *)
Definition in_range (q : Z) (r : SackRange) : bool := q ⊟ first r <? end_ r ⊟ first r.
Definition covered (l : list SackRange) (q : Z) : bool := existsb (in_range q) l.

Section Canonical.
Context (b : Z) (Hb : is_u32 b).
Implicit Types (l : list SackRange) (r x : SackRange).

(** A nonempty interval inside the offsets [lo, hi]. *)
Record good (lo hi : Z) (r : SackRange) : Prop := mkGood {
  good_first : is_u32 (first r);
  good_end : is_u32 (end_ r);
  good_lo : lo <= first r ⊟ b;
  good_order : first r ⊟ b < end_ r ⊟ b;
  good_hi : end_ r ⊟ b <= hi
}.

(** Sorted, disjoint and not adjacent. *)
Fixpoint canonical (lo hi : Z) (l : list SackRange) : Prop :=
  match l with
  | [] => True
  | r :: l => good lo hi r /\ canonical (end_ r ⊟ b + 1) hi l
  end.

Lemma in_range_offset r q :
  is_u32 q -> is_u32 (first r) -> is_u32 (end_ r) -> first r ⊟ b < end_ r ⊟ b ->
  in_range q r = (first r ⊟ b <=? q ⊟ b) && (q ⊟ b <? end_ r ⊟ b).
Proof.
  intros Hq Hf He Hlt. unfold in_range. apply eq_true_iff_eq.
  rewrite andb_true_iff, !Z.ltb_lt, Z.leb_le. revert Hlt. clear -Hb Hq Hf He. word.
Qed.

Lemma good_weaken lo lo' hi hi' r : lo' <= lo -> hi <= hi' -> good lo hi r -> good lo' hi' r.
Proof. intros H1 H2 []. constructor; auto; lia. Qed.

Lemma canonical_weaken lo lo' hi hi' l : lo' <= lo -> hi <= hi' -> canonical lo hi l -> canonical lo' hi' l.
Proof.
  revert lo lo'. induction l as [|r l IH]; cbn; intros lo lo' H1 H2; [done|].
  intros [Hg Hc]. split; [now apply good_weaken with lo hi|]. apply (IH (end_ r ⊟ b + 1)); auto. lia.
Qed.

Lemma absorb_spec lo hi l : forall f e,
  good lo hi (mkRange f e) -> canonical lo hi l ->
  match l with [] => True | r :: _ => f ⊟ b <= end_ r ⊟ b end ->
  let '(n, f', e') := absorb b f e l in
  good lo hi (mkRange f' e') /\ canonical (e' ⊟ b + 1) hi (drop n l)
  /\ forall q, is_u32 q ->
     in_range q (mkRange f' e') || covered (drop n l) q = in_range q (mkRange f e) || covered l q.
Proof.
  induction l as [|r l IH]; intros f e Hg Hc Hr; [now split_and!|]. cbn [absorb].
  destruct Hc as [Hgr Hc]. pose proof Hg as [Gf Ge Gl Go Gh]. pose proof Hgr as [Rf Re Rl Ro Rh]. cbn in Gf, Ge, Gl, Go, Gh.
  destruct (Z.leb_spec (first r ⊟ b) (e ⊟ b)) as [Hle|Hgt].
  2:{ split_and!; [done| |done]. cbn [drop canonical]. split; [|done]. constructor; auto; lia. }
  set (f1 := if first r ⊟ b <? f ⊟ b then first r else f).
  set (e1 := if e ⊟ b <? end_ r ⊟ b then end_ r else e).
  assert (f1 ⊟ b = Z.min (first r ⊟ b) (f ⊟ b)) as Ef1 by (unfold f1; case_if; lia).
  assert (e1 ⊟ b = Z.max (e ⊟ b) (end_ r ⊟ b)) as Ee1 by (unfold e1; case_if; lia).
  assert (is_u32 f1) by (unfold f1; now case_if). assert (is_u32 e1) by (unfold e1; now case_if).
  assert (good lo hi (mkRange f1 e1)) as Hg1 by (constructor; cbn; auto; rewrite ?Ef1, ?Ee1; lia).
  specialize (IH f1 e1 Hg1). destruct (absorb b f1 e1 l) as [[n f'] e'].
  destruct IH as (I1 & I2 & I3).
  - apply canonical_weaken with (end_ r ⊟ b + 1) hi; auto; lia.
  - destruct l as [|y l]; [done|]. destruct Hc as [[] _]. lia.
  - split_and!; auto. intros q Hq. cbn [drop]. rewrite (I3 q Hq). unfold covered. cbn [existsb].
    rewrite !in_range_offset by (cbn; auto; lia). cbn. rewrite Ef1, Ee1.
    destruct (existsb (in_range q) l); rewrite ?orb_true_r, ?orb_false_r; [done|blia].
Qed.

Lemma insert_cons_below x r l :
  end_ r ⊟ b < first x ⊟ b -> insert b x (r :: l) = r :: insert b x l.
Proof.
  intros H. unfold insert. cbn [skip]. rewrite (proj2 (Z.ltb_lt _ _) H). cbn [drop].
  destruct (absorb b (first x) (end_ x) (drop (skip b (first x ⊟ b) l) l)) as [[n f] e]. done.
Qed.

Lemma insert_spec lo hi x l :
  good lo hi x -> canonical lo hi l ->
  canonical lo hi (insert b x l)
  /\ forall q, is_u32 q -> covered (insert b x l) q = in_range q x || covered l q.
Proof.
  revert lo. induction l as [|r l IH]; intros lo Hg Hc.
  { unfold insert. cbn. split_and!; try done. now destruct x. }
  destruct (Z.lt_ge_cases (end_ r ⊟ b) (first x ⊟ b)) as [Hlt|Hge].
  - rewrite insert_cons_below by done. destruct Hc as [Hgr Hc].
    destruct (IH (end_ r ⊟ b + 1)) as [H1 H2]; [|done|].
    { destruct Hg. constructor; auto; lia. }
    split; [now split|]. intros q Hq. unfold covered in *. cbn [existsb]. rewrite H2 by done.
    now destruct (in_range q r), (in_range q x).
  - unfold insert. cbn [skip]. rewrite (proj2 (Z.ltb_ge _ _) Hge). cbn [drop take app].
    pose proof (absorb_spec lo hi (r :: l) (first x) (end_ x)) as Ha.
    destruct (absorb b (first x) (end_ x) (r :: l)) as [[n f] e].
    destruct Ha as (H1 & H2 & H3); [now destruct x|done|done|].
    split; [now split|]. intros q Hq. unfold covered in *. cbn [existsb Nat.add]. rewrite H3 by done.
    now destruct x.
Qed.

Lemma length_insert_le x l : (length (insert b x l) <= S (length l))%nat.
Proof.
  unfold insert. pose proof (skip_le b (first x ⊟ b) l).
  pose proof (absorb_le b (first x) (end_ x) (drop (skip b (first x ⊟ b) l) l)) as Hn.
  destruct (absorb _ _ _ _) as [[n f] e]. cbn in Hn. rewrite length_app, length_take. cbn [length].
  rewrite !length_drop in *. lia.
Qed.
End Canonical.

(** ** Staging

    [staged w c l] says the first [c] workspace slots hold the list [l]. *)
Definition staged (w : list SackRange) (c : Z) (l : list SackRange) : Prop :=
  c = size l /\ exists rest, w = l ++ rest.

Lemma staged_take w c l : staged w c l -> take (Z.to_nat c) w = l /\ 0 <= c <= size w.
Proof.
  intros [-> [rest ->]]. unfold size. rewrite Nat2Z.id, take_app_length, length_app. split; [done|lia].
Qed.

(** Inserting an interval stages the union, unless a new one finds no room. *)
Lemma staged_insert b w c l hi x :
  is_u32 b -> staged w c l -> canonical b 0 hi l -> good b 0 hi x ->
  match insert_workspace w x c b with
  | None => length l = length w
  | Some (w', c') => exists l', staged w' c' l' /\ length w' = length w /\ canonical b 0 hi l'
      /\ (length l' <= S (length l))%nat
      /\ forall q, is_u32 q -> covered l' q = covered l q || in_range q x
  end.
Proof.
  intros Hb [-> [rest ->]] Hc Hg. pose proof (insert_workspace_spec b l rest x) as H.
  destruct (insert_workspace (l ++ rest) x (size l) b) as [[w' c']|].
  - destruct H as (rest' & -> & -> & Hlen). destruct (insert_spec b Hb 0 hi x l Hg Hc) as [H1 H2].
    exists (insert b x l). split_and!; auto; [now split; [|exists rest']|apply length_insert_le|].
    intros q Hq. now rewrite H2, orb_comm.
  - destruct H as [-> _]. now rewrite app_nil_r.
Qed.

Section Staging.
(** The cumulative acknowledgment moves from [oha] to [ha] and HighData from
    [ohde] to [hde], all inside one flight of at most 2^30 octets. *)
Context (oha ohde ha hde : Z).
Context (Hoha : is_u32 oha) (Hohde : is_u32 ohde) (Hha : is_u32 ha) (Hhde : is_u32 hde).
Context (Hack : ha ⊟ oha <= hde ⊟ oha) (Hdata : ohde ⊟ oha <= hde ⊟ oha) (Hflight : hde ⊟ oha <= two30).

(** [q] is outstanding after the acknowledgment. *)
Definition outstanding (q : Z) : Prop := is_u32 q /\ q ⊟ ha < hde ⊟ ha.

Lemma clip_good r :
  is_u32 (first r) -> is_u32 (end_ r) -> first r ⊟ oha < end_ r ⊟ oha <= hde ⊟ oha ->
  Sequence.before_or_equal (end_ r) ha = false ->
  let r' := if Sequence.before (first r) ha then mkRange ha (end_ r) else r in
  good ha 0 (hde ⊟ ha) r' /\ forall q, outstanding q -> in_range q r' = in_range q r.
Proof.
  intros Hf He Hr Hskip.
  rewrite (Sequence.before_or_equal_offset oha) in Hskip by (auto; lia). apply Z.leb_gt in Hskip.
  rewrite (Sequence.before_offset oha) by (auto; lia).
  assert (forall x, is_u32 x -> ha ⊟ oha <= x ⊟ oha -> x ⊟ oha <= two30 -> x ⊟ ha = x ⊟ oha - (ha ⊟ oha)) as Hsub
    by (intros x Hx H1 _; now apply wsub_offset).
  pose proof (Hsub (end_ r) He ltac:(lia) ltac:(lia)) as Ee.
  pose proof (Hsub hde Hhde ltac:(lia) ltac:(lia)) as Eh.
  destruct (Z.ltb_spec (first r ⊟ oha) (ha ⊟ oha)) as [Hlt|Hge]; cbn zeta.
  - assert (good ha 0 (hde ⊟ ha) (mkRange ha (end_ r))) as Hg.
    { constructor; cbn; auto; rewrite ?wsub_diag; lia. }
    split; [exact Hg|]. intros q [Hq Hqw].
    rewrite (in_range_offset ha) by (cbn; auto; rewrite ?wsub_diag; lia). cbn.
    unfold in_range. apply eq_true_iff_eq. rewrite andb_true_iff, !Z.ltb_lt, Z.leb_le, wsub_diag.
    revert Hlt Hr Hskip Hqw Hflight Ee Eh. clear -Hoha Hha Hq Hf He Hhde. word.
  - pose proof (Hsub (first r) Hf ltac:(lia) ltac:(lia)) as Ef.
    split; [|done]. constructor; auto; try lia.
Qed.

Lemma skip_uncovered r q :
  is_u32 (first r) -> is_u32 (end_ r) -> first r ⊟ oha < end_ r ⊟ oha <= hde ⊟ oha ->
  Sequence.before_or_equal (end_ r) ha = true -> outstanding q -> in_range q r = false.
Proof.
  intros Hf He Hr Hskip [Hq Hqw].
  rewrite (Sequence.before_or_equal_offset oha) in Hskip by (auto; lia). apply Z.leb_le in Hskip.
  unfold in_range. apply Z.ltb_ge.
  revert Hr Hskip Hqw Hflight Hack. clear -Hoha Hha Hq Hf He Hhde. word.
Qed.

Lemma stage_ranges_spec l : forall lo w c acc,
  canonical oha lo (ohde ⊟ oha) l -> staged w c acc -> canonical ha 0 (hde ⊟ ha) acc ->
  (length acc + length l <= length w)%nat ->
  exists w' c' acc', stage_ranges l w c ha = (Some c', w') /\ staged w' c' acc' /\ length w' = length w
    /\ (length acc' <= length acc + length l)%nat
    /\ canonical ha 0 (hde ⊟ ha) acc'
    /\ forall q, outstanding q -> covered acc' q = covered acc q || covered l q.
Proof.
  induction l as [|r l IH]; intros lo w c acc Hc Hs Hcan Hlen.
  { exists w, c, acc. split_and!; auto; [cbn; lia|]. intros q _. now rewrite orb_false_r. }
  cbn [stage_ranges length] in *. destruct Hc as [[Rf Re Rl Ro Rh] Hc].
  destruct (Sequence.before_or_equal (end_ r) ha) eqn:Eskip.
  - destruct (IH _ w c acc Hc Hs Hcan ltac:(lia)) as (w' & c' & acc' & E & S' & L' & N' & C' & U').
    exists w', c', acc'. split_and!; auto; [lia|]. intros q Hq. rewrite U' by done. unfold covered. cbn [existsb].
    now rewrite (skip_uncovered r q Rf Re ltac:(lia) Eskip Hq).
  - destruct (clip_good r Rf Re ltac:(lia) Eskip) as [Hg Hin]. set (r' := if Sequence.before _ _ then _ else _) in *.
    pose proof (staged_insert ha w c acc (hde ⊟ ha) r' Hha Hs Hcan Hg) as Hins.
    destruct (insert_workspace w r' c ha) as [[w1 c1]|]; [|lia].
    destruct Hins as (acc1 & S1 & L1 & C1 & N1 & U1).
    destruct (IH _ w1 c1 acc1 Hc S1 C1 ltac:(lia)) as (w' & c' & acc' & E & S' & L' & N' & C' & U').
    exists w', c', acc'. split_and!; auto; [congruence|lia|]. intros q Hq.
    rewrite U', U1, Hin by (auto; apply Hq). unfold covered. cbn [existsb]. now rewrite orb_assoc.
Qed.

Definition block_range (bl : SackBlock) : SackRange := mkRange (left_edge bl) (right_edge bl).
Definition block_ok (bl : SackBlock) : Prop := is_u32 (left_edge bl) /\ is_u32 (right_edge bl).
(** The blocks [update] calls malformed. *)
Definition refused (bl : SackBlock) : bool :=
  negb (bounded_range (left_edge bl) (right_edge bl)) || Sequence.after (right_edge bl) hde
  || Sequence.after_or_equal (left_edge bl) hde.

Lemma block_bounds bl :
  block_ok bl -> refused bl = false ->
  0 < right_edge bl ⊟ left_edge bl <= two30 /\ 0 <= hde ⊟ right_edge bl < two31.
Proof.
  intros [Hl Hr] Ebad. unfold refused in Ebad.
  rewrite !orb_false_iff, negb_false_iff in Ebad. destruct Ebad as [[Hbound Hright] Hleft].
  unfold bounded_range in Hbound. rewrite andb_true_iff, negb_true_iff, Z.eqb_neq, Z.leb_le in Hbound.
  assert (0 < right_edge bl ⊟ left_edge bl <= two30) as Hlen by (revert Hbound; clear; word).
  split; [done|]. revert Hright Hleft Hlen.
  unfold Sequence.after_or_equal, Sequence.after, Sequence.before, Sequence.half_space.
  rewrite orb_false_iff, !andb_false_iff, !negb_false_iff, !Z.eqb_eq, Z.eqb_neq, !Z.ltb_ge.
  clear -Hr Hl Hhde. word.
Qed.

Lemma block_skip bl q :
  block_ok bl -> refused bl = false -> Sequence.before_or_equal (right_edge bl) ha = true ->
  outstanding q -> in_range q (block_range bl) = false.
Proof.
  intros Hok Ebad Eskip [Hq Hqw]. destruct (block_bounds bl Hok Ebad) as [Hlen Hre]. destruct Hok as [Hl Hr].
  assert (hde ⊟ ha <= two30) as Hfl by (revert Hack Hflight; clear -Hoha Hha Hhde; word).
  apply Z.ltb_ge. cbn. unfold Sequence.before_or_equal, Sequence.before, Sequence.half_space in Eskip.
  rewrite orb_true_iff, andb_true_iff, negb_true_iff, Z.eqb_eq, Z.eqb_neq, Z.ltb_lt in Eskip.
  revert Eskip Hlen Hre Hqw Hfl. clear -Hha Hhde Hl Hr Hq. word.
Qed.

Lemma block_clip bl :
  block_ok bl -> refused bl = false -> Sequence.before_or_equal (right_edge bl) ha = false ->
  let x := mkRange (if Sequence.before (left_edge bl) ha then ha else left_edge bl) (right_edge bl) in
  good ha 0 (hde ⊟ ha) x /\ forall q, outstanding q -> in_range q x = in_range q (block_range bl).
Proof.
  intros Hok Ebad Eskip. destruct (block_bounds bl Hok Ebad) as [Hlen Hre]. destruct Hok as [Hl Hr].
  assert (hde ⊟ ha <= two30) as Hfl by (revert Hack Hflight; clear -Hoha Hha Hhde; word).
  unfold Sequence.before_or_equal, Sequence.before, Sequence.half_space in *.
  rewrite orb_false_iff, andb_false_iff, negb_false_iff, Z.eqb_eq, Z.eqb_neq, Z.ltb_ge in Eskip.
  assert (0 < right_edge bl ⊟ ha <= hde ⊟ ha) as Hrha
    by (revert Eskip Hre Hfl; clear -Hha Hhde Hr; word).
  destruct (negb (left_edge bl =? ha) && (ha ⊟ left_edge bl <? two31)) eqn:Eb; cbn zeta.
  - rewrite andb_true_iff, negb_true_iff, Z.eqb_neq, Z.ltb_lt in Eb.
    split; [constructor; cbn; auto; rewrite ?wsub_diag; lia|]. intros q [Hq Hqw].
    unfold in_range. cbn. apply eq_true_iff_eq. rewrite !Z.ltb_lt.
    revert Eb Hlen Hrha Hqw Hfl. clear -Hha Hhde Hl Hr Hq. word.
  - rewrite andb_false_iff, negb_false_iff, Z.eqb_eq, Z.ltb_ge in Eb.
    split; [|done]. constructor; cbn; auto; [apply u32_range| |lia].
    revert Eb Hlen Hrha Hfl. clear -Hha Hhde Hl Hr. word.
Qed.

Lemma stage_blocks_spec blocks : forall w c acc,
  Forall block_ok blocks -> staged w c acc -> canonical ha 0 (hde ⊟ ha) acc ->
  match stage_blocks blocks w c ha hde with
  | (inr c', w') => length w' = length w /\ Forall (fun bl => refused bl = false) blocks
      /\ exists acc', staged w' c' acc' /\ canonical ha 0 (hde ⊟ ha) acc'
      /\ forall q, outstanding q -> covered acc' q = covered acc q || covered (block_range <$> blocks) q
  | (inl status, w') => length w' = length w
      /\ ((status = malformed /\ Exists (fun bl => refused bl = true) blocks)
          \/ (status = capacity_exhausted /\ (length w < length acc + length blocks)%nat))
  end.
Proof.
  induction blocks as [|bl blocks IH]; intros w c acc Hbl Hs Hcan.
  { cbn. split_and!; auto. exists acc. split_and!; auto. intros q _. now rewrite orb_false_r. }
  apply list.Forall_cons in Hbl as [Hok Hbl]. cbn [stage_blocks].
  fold (refused bl). destruct (refused bl) eqn:Ebad.
  { split; [done|]. left. split; [done|]. now left. }
  destruct (Sequence.before_or_equal (right_edge bl) ha) eqn:Eskip.
  - specialize (IH w c acc Hbl Hs Hcan). destruct (stage_blocks blocks w c ha hde) as [[status|c'] w'].
    { destruct IH as [L [[-> Hx]|[-> Hlt]]]; (split; [done|]); [left|right];
        (split; [done|]); [now right|cbn; lia]. }
    destruct IH as (L & Hf & acc' & S' & C' & U'). split_and!; [done|now constructor|]. exists acc'.
    split_and!; auto. intros q Hq. rewrite U' by done. unfold covered. cbn [fmap list_fmap existsb].
    now rewrite (block_skip bl q Hok Ebad Eskip Hq).
  - destruct (block_clip bl Hok Ebad Eskip) as [Hg Hin]. set (x := mkRange _ _) in *.
    pose proof (staged_insert ha w c acc (hde ⊟ ha) x Hha Hs Hcan Hg) as Hins.
    destruct (insert_workspace w x c ha) as [[w1 c1]|].
    2:{ split; [done|]. right. split; [done|]. cbn. lia. }
    destruct Hins as (acc1 & S1 & L1 & C1 & N1 & U1). specialize (IH w1 c1 acc1 Hbl S1 C1).
    destruct (stage_blocks blocks w1 c1 ha hde) as [[status|c'] w'].
    + destruct IH as [IL [[-> Hx]|[-> Hlt]]]; (split; [congruence|]); [left|right];
        (split; [done|]); [now right|cbn; lia].
    + destruct IH as (L & Hf & acc' & S' & C' & U'). split_and!; [congruence|now constructor|]. exists acc'.
      split_and!; auto. intros q Hq. rewrite U', U1, Hin by (auto; apply Hq). unfold covered.
      cbn [fmap list_fmap existsb]. now rewrite orb_assoc.
Qed.
End Staging.
(** ** Well-formed scoreboards *)

Record wf (s : t) : Prop := mkWf {
  wf_valid : valid_ s = true;
  wf_sizes : length (ranges_ s) = length (workspace_ s);
  wf_count : 0 <= count_ s <= size (ranges_ s);
  wf_tail : ranges_ s = live s ++ replicate (length (ranges_ s) - Z.to_nat (count_ s)) no_range;
  wf_mss : 0 < sender_mss_ s < 65536;
  wf_ha : is_u32 (high_ack_ s);
  wf_hde : is_u32 (high_data_end_ s);
  wf_hrx : is_u32 (high_retransmitted_end_ s);
  wf_rp : is_u32 (recovery_point_ s);
  wf_rescue : is_u32 (rescue_retransmitted_ s);
  wf_dup : is_u32 (duplicate_acknowledgments_ s);
  wf_flight : high_data_end_ s ⊟ high_ack_ s <= two30;
  wf_live : canonical (high_ack_ s) 0 (high_data_end_ s ⊟ high_ack_ s) (live s);
  wf_hrx_in : high_retransmitted_end_ s ⊟ high_ack_ s <= high_data_end_ s ⊟ high_ack_ s;
  wf_rp_in : recovery_point_ s ⊟ high_ack_ s <= high_data_end_ s ⊟ high_ack_ s;
  wf_modes : recovery_ s = true ->
    recovery_suppressed_ s = false /\ duplicate_acknowledgments_ s = 0;
  wf_rescue_mode : rescue_present_ s = true -> recovery_ s = true
}.

(** What the owner guarantees of an acknowledgment: SND.UNA and SND.NXT move
    forward inside one flight. *)
Record advance (s : t) (ha hde : Z) : Prop := mkAdvance {
  adv_ha : is_u32 ha;
  adv_hde : is_u32 hde;
  adv_ack : ha ⊟ high_ack_ s <= hde ⊟ high_ack_ s;
  adv_data : high_data_end_ s ⊟ high_ack_ s <= hde ⊟ high_ack_ s;
  adv_flight : hde ⊟ high_ack_ s <= two30
}.

Lemma length_live s : wf s -> length (live s) = Z.to_nat (count_ s).
Proof. intros []. unfold live. rewrite length_take. unfold size in *. lia. Qed.

Lemma live_published new n k :
  Z.of_nat (length new) = n -> take (Z.to_nat n) (new ++ replicate k no_range) = new.
Proof. intros <-. now rewrite Nat2Z.id, take_app_length. Qed.

(** [publish] on offsets from the old HighACK. *)
Lemma publish_markers oha hde x ha :
  is_u32 oha -> is_u32 hde -> is_u32 x -> is_u32 ha ->
  ha ⊟ oha <= hde ⊟ oha -> x ⊟ oha <= hde ⊟ oha -> hde ⊟ oha <= two30 ->
  let y := if Sequence.before x ha then ha else x in
  is_u32 y /\ y ⊟ ha <= hde ⊟ ha /\ hde ⊟ ha <= two30.
Proof.
  intros Ho Hh Hx Ha H1 H2 H3. cbn zeta. rewrite (Sequence.before_offset oha) by (auto; lia).
  rewrite (wsub_offset oha hde ha) by done.
  pose proof (u32_range (ha - oha)) as R. unfold is_u32 in R.
  case_if.
  - split_and!; [done| |lia]. rewrite wsub_diag. lia.
  - rewrite (wsub_offset oha x ha) by done. split_and!; [done|lia|lia].
Qed.

(** The object after [publish], field by field. *)
Lemma publish_state s n ha hde :
  let new := take (Z.to_nat n) (workspace_ s) in
  let passed := Sequence.before_or_equal (recovery_point_ s) ha in
  (publish s n ha hde).2 =
  mk (new ++ replicate (length (ranges_ s) - Z.to_nat n) no_range) (workspace_ s) (sender_mss_ s) ha hde
    (if Sequence.before (high_retransmitted_end_ s) ha then ha else high_retransmitted_end_ s)
    (if Sequence.before (recovery_point_ s) ha then ha else recovery_point_ s)
    (rescue_retransmitted_ s)
    (if Sequence.after ha (high_ack_ s) then 0 else duplicate_acknowledgments_ s)
    n (recovery_ s && negb passed) (rescue_present_ s && negb (recovery_ s && passed))
    (recovery_suppressed_ s && negb passed) (last_update_added_sack_ s) (valid_ s).
Proof.
  assert (Sequence.before_or_equal (recovery_point_ s) ha = false -> Sequence.before (recovery_point_ s) ha = false)
    as Hb by (unfold Sequence.before_or_equal; rewrite orb_false_iff; tauto).
  destruct s. unfold publish, clamp_retransmitted. cbn in *.
  destruct (Sequence.before high_retransmitted_end_0 ha), (Sequence.after ha high_ack_0); cbn;
    (unfold end_recovery; cbn; destruct recovery_0; cbn;
     [destruct (Sequence.before_or_equal recovery_point_0 ha) eqn:Ep; cbn|]);
    (unfold end_suppression; cbn; destruct recovery_suppressed_0; cbn;
     [rewrite ?Ep; try (destruct (Sequence.before_or_equal recovery_point_0 ha) eqn:Ep'); cbn|]);
    unfold clamp_recovery_point; cbn;
    rewrite ?andb_true_r, ?andb_false_r; rewrite ?Hb by done;
    try (destruct (Sequence.before recovery_point_0 ha)); reflexivity.
Qed.

(** The staged list is what a publication makes live. *)
Lemma publish_wf s n ha hde l :
  wf s -> advance s ha hde -> staged (workspace_ s) n l -> canonical ha 0 (hde ⊟ ha) l ->
  wf (publish s n ha hde).2 /\ live (publish s n ha hde).2 = l.
Proof.
  intros [] [] Hst Hcan. destruct (staged_take _ _ _ Hst) as [Et Hn]. destruct Hst as [En _].
  rewrite publish_state. cbn zeta. rewrite Et.
  destruct (publish_markers (high_ack_ s) hde (high_retransmitted_end_ s) ha) as (P1 & P2 & P3); auto; [lia|].
  destruct (publish_markers (high_ack_ s) hde (recovery_point_ s) ha) as (R1 & R2 & _); auto; [lia|].
  assert (take (Z.to_nat n) (l ++ replicate (length (ranges_ s) - Z.to_nat n) no_range) = l) as Elive
    by (now apply live_published).
  assert (length (l ++ replicate (length (ranges_ s) - Z.to_nat n) no_range) = length (ranges_ s)) as Elen.
  { rewrite length_app, length_replicate. unfold size in *. lia. }
  split; [constructor|]; cbn; auto.
  - congruence.
  - unfold size in *. rewrite Elen. lia.
  - unfold live. cbn. now rewrite Elive, Elen.
  - case_if; [unfold is_u32; lia|done].
  - unfold live. cbn. now rewrite Elive.
  - rewrite andb_true_iff. intros [Hr Hp]. destruct (wf_modes0 Hr) as [-> ->]. split; [done|now case_if].
  - rewrite andb_true_iff. intros [Hr Hp]. rewrite wf_rescue_mode0 in * by done. done.
Qed.

(** A write to the scratch array or the change flag leaves a scoreboard well
    formed. *)
Lemma wf_scratch s w flag :
  wf s -> length w = length (ranges_ s) ->
  wf (s <| last_update_added_sack_ := flag |> <| workspace_ := w |>).
Proof. intros [] Hw. constructor; cbn; auto. Qed.

Lemma advance_guard s ha hde :
  wf s -> advance s ha hde ->
  negb (valid_ s) || Sequence.before ha (high_ack_ s) || Sequence.before hde (high_data_end_ s)
    || Sequence.after ha hde || (two30 <? hde ⊟ ha) = false.
Proof.
  intros [] []. rewrite wf_valid0. cbn [negb orb].
  rewrite (Sequence.before_offset (high_ack_ s)), (Sequence.before_offset (high_ack_ s) hde),
    (Sequence.after_offset (high_ack_ s)) by (auto; try lia; rewrite wsub_diag; lia).
  rewrite (wsub_offset (high_ack_ s) hde ha), wsub_diag by done.
  pose proof (u32_range (ha - high_ack_ s)) as R. unfold is_u32 in R.
  rewrite !orb_false_iff, !Z.ltb_ge. lia.
Qed.

End SackScoreboard.
