(* ===== verification/SackRecovery.v ===== *)
(** * RFC 6675 loss recovery over the scoreboard of Sack.v
    (core/src/transport/tcp_sack_scoreboard.cpp): what [is_lost], [pipe] and
    [next_segment] compute, the invariant of a whole session, and checkpoints. *)

From S2P Require Import Prelude Sequence Catalog Blocks Arena Sack.

Module SackRecovery.
Import Arena Blocks SackScoreboard.

(** ** Updates *)

(** The outcome of [update]: on success the ranges are the union, clipped to the
    flight; otherwise only the scratch array and the change flag move. *)
Definition updated_to (s s' : t) (ha hde : Z) (blocks : list SackBlock) : Prop :=
  high_ack_ s' = ha /\ high_data_end_ s' = hde
  /\ (forall q, outstanding ha hde q ->
       covered (live s') q = covered (live s) q || covered (block_range <$> blocks) q)
  /\ Forall (fun bl => refused hde bl = false) blocks.

Definition left_alone (s s' : t) : Prop :=
  exists w flag, s' = s <| last_update_added_sack_ := flag |> <| workspace_ := w |>.

Definition update_result (s : t) (ha hde : Z) (blocks : list SackBlock) (o : SackUpdateStatus * t) : Prop :=
  wf o.2 /\
  match o.1 with
  | updated | unchanged => updated_to s o.2 ha hde blocks
  | malformed => left_alone s o.2 /\ Exists (fun bl => refused hde bl = true) blocks
  | capacity_exhausted => left_alone s o.2 /\ size (ranges_ s) < count_ s + size blocks
  end.

Lemma update_outcome s ha hde blocks :
  wf s -> advance s ha hde -> Forall block_ok blocks ->
  update_result s ha hde blocks (update s ha hde blocks).
Proof.
  intros W A Hbl. unfold update_result, update. pose proof (advance_guard s ha hde W A) as Hg.
  set (s0 := s <| last_update_added_sack_ := false |>).
  change (valid_ s0) with (valid_ s). change (high_ack_ s0) with (high_ack_ s).
  change (high_data_end_ s0) with (high_data_end_ s). rewrite Hg. clear Hg.
  change (take (Z.to_nat (count_ s0)) (ranges_ s0)) with (live s).
  change (workspace_ s0) with (workspace_ s).
  pose proof (length_live s W) as Hlive. pose proof W as []. pose proof A as [].
  assert (length (cleared (workspace_ s)) = length (ranges_ s)) as Hclr
    by (unfold cleared; rewrite length_replicate; lia).
  pose proof (stage_ranges_spec (high_ack_ s) (high_data_end_ s) ha hde) as H1.
  specialize (H1 ltac:(assumption) ltac:(assumption) ltac:(assumption) ltac:(assumption) ltac:(assumption)
    ltac:(assumption) (live s) 0 (cleared (workspace_ s)) 0 []).
  destruct H1 as (w & c & acc & -> & S1 & L1 & N1 & C1 & U1);
    [done|split; [done|]; now exists (cleared (workspace_ s))|done|cbn; unfold size in *; lia|].
  pose proof (stage_blocks_spec (high_ack_ s) ha hde) as H2.
  specialize (H2 ltac:(assumption) ltac:(assumption) ltac:(assumption) ltac:(assumption) ltac:(assumption)
    blocks w c acc Hbl S1 C1).
  destruct (stage_blocks blocks w c ha hde) as [[status|c'] w'].
  - destruct H2 as [L2 Hst].
    assert (wf (s0 <| workspace_ := w' |>)) as Hw by (apply (wf_scratch s w' false); [done|lia]).
    destruct Hst as [[-> Hx]|[-> Hlt]]; (split; [done|]); (split; [now exists w', false|]); [done|].
    cbn in N1. unfold size in *. lia.
  - destruct H2 as (L2 & Hf & acc' & S2 & C2 & U2).
    set (s1 := set_field _ _ _).
    assert (wf s1) as W1 by (apply (wf_scratch s w' _ W); lia).
    destruct (publish_wf s1 c' ha hde acc' W1) as [W2 E2]; [now constructor|done|done|].
    pose proof (publish_state s1 c' ha hde) as Ep. cbn zeta in Ep.
    assert ((publish s1 c' ha hde).1 = updated \/ (publish s1 c' ha hde).1 = unchanged) as Hs
      by (unfold publish; cbn [fst]; case_if; auto).
    destruct (publish s1 c' ha hde) as [status s2]. cbn in W2, E2, Ep, Hs. split; [done|].
    assert (updated_to s s2 ha hde blocks) as Hu; [|now destruct Hs as [-> | ->]].
    split_and!; [now rewrite Ep|now rewrite Ep| |done].
    intros q Hq. rewrite E2, U2, U1; auto.
Qed.

(** ** Sums over octets *)

Fixpoint octet_sum (f : Z -> Z) (from : Z) (n : nat) : Z :=
  match n with O => 0 | S n => f from + octet_sum f (from + 1) n end.

Lemma octet_sum_split f n m : forall from,
  octet_sum f from (n + m) = octet_sum f from n + octet_sum f (from + Z.of_nat n) m.
Proof.
  induction n as [|n IH]; intros from; cbn [octet_sum Nat.add].
  - change (Z.of_nat 0) with 0. now rewrite Z.add_0_r.
  - rewrite IH. replace (from + 1 + Z.of_nat n) with (from + Z.of_nat (S n)) by lia. lia.
Qed.

Lemma octet_sum_const f c n : forall from,
  (forall d, from <= d < from + Z.of_nat n -> f d = c) -> octet_sum f from n = c * Z.of_nat n.
Proof.
  induction n as [|n IH]; intros from H; cbn [octet_sum]; [lia|].
  rewrite IH by (intros; apply H; lia). rewrite H by lia. lia.
Qed.

(** [octets f a b] sums [f] over the offsets [a, b). *)
Definition octets (f : Z -> Z) (a b : Z) : Z := octet_sum f a (Z.to_nat (b - a)).

Lemma octets_split f a m b : a <= m <= b -> octets f a b = octets f a m + octets f m b.
Proof.
  intros H. unfold octets. replace (Z.to_nat (b - a)) with (Z.to_nat (m - a) + Z.to_nat (b - m))%nat by lia.
  rewrite octet_sum_split. replace (a + Z.of_nat (Z.to_nat (m - a))) with m by lia. done.
Qed.

Lemma octets_const f c a b : a <= b -> (forall d, a <= d < b -> f d = c) -> octets f a b = c * (b - a).
Proof.
  intros H Hf. unfold octets. rewrite (octet_sum_const f c) by (intros; apply Hf; lia). now rewrite Z2Nat.id by lia.
Qed.

Lemma octets_add f g a b : octets (fun d => f d + g d) a b = octets f a b + octets g a b.
Proof.
  unfold octets. generalize (Z.to_nat (b - a)) as n. intros n. revert a.
  induction n as [|n IH]; intros a; cbn [octet_sum]; [done|]. rewrite IH. lia.
Qed.

Lemma octets_ext f g a b : (forall d, a <= d < b -> f d = g d) -> octets f a b = octets g a b.
Proof.
  intros H. unfold octets. assert (forall d, a <= d < a + Z.of_nat (Z.to_nat (b - a)) -> f d = g d) as H' by
    (intros; apply H; lia). clear H. revert H'. generalize (Z.to_nat (b - a)) as n. intros n. revert a.
  induction n as [|n IH]; intros a H; cbn [octet_sum]; [done|].
  rewrite (H a) by lia. now rewrite IH by (intros; apply H; lia).
Qed.

Lemma octets_bounds f lo hi a b :
  a <= b -> (forall d, a <= d < b -> lo <= f d <= hi) -> octets f a b <= hi * (b - a).
Proof.
  intros H Hf. unfold octets. replace (b - a) with (Z.of_nat (Z.to_nat (b - a))) at 2 by lia.
  assert (forall d, a <= d < a + Z.of_nat (Z.to_nat (b - a)) -> f d <= hi) as H' by (intros; apply Hf; lia).
  clear H Hf. revert H'. generalize (Z.to_nat (b - a)) as n. intros n. revert a.
  induction n as [|n IH]; intros a H; cbn [octet_sum]; [lia|].
  pose proof (H a ltac:(lia)). specialize (IH (a + 1) ltac:(intros; apply H; lia)). lia.
Qed.

(** The octets below a threshold. *)
Lemma octets_below h a b :
  a <= b -> octets (fun d => if d <? h then 1 else 0) a b = Z.max 0 (Z.min b h - a).
Proof.
  intros H. destruct (Z.le_gt_cases h a) as [|Hlt].
  { rewrite (octets_const _ 0) by (auto; intros; case_if; lia). lia. }
  rewrite (octets_split _ a (Z.min b h) b) by lia.
  rewrite (octets_const _ 1 a), (octets_const _ 0) by (lia || (intros; case_if; lia)). lia.
Qed.

(** ** Intervals above an octet *)

Section Offsets.
(** HighACK and the size of the flight, the base and bound of every offset. *)
Context (b hi : Z) (Hb : is_u32 b) (Hhi : hi <= two30).
Implicit Types (l : list SackRange) (r x : SackRange).

(** The intervals wholly above [q]. *)
Definition above l (q : Z) : list SackRange := filter (fun r => q ⊟ b < first r ⊟ b) l.

Lemma canonical_good lo l r : canonical b lo hi l -> r ∈ l -> good b lo hi r.
Proof.
  revert lo. induction l as [|x l IH]; intros lo Hc Hr; [now apply elem_of_nil in Hr|].
  destruct Hc as [Hx Hc]. apply elem_of_cons in Hr as [->|Hr]; [done|].
  specialize (IH _ Hc Hr). destruct Hx, IH. constructor; auto; lia.
Qed.

Lemma covered_spec lo l q :
  canonical b lo hi l -> is_u32 q ->
  covered l q = true <-> exists r, r ∈ l /\ first r ⊟ b <= q ⊟ b < end_ r ⊟ b.
Proof.
  intros Hc Hq. unfold covered. rewrite existsb_exists. setoid_rewrite <- list_elem_of_In.
  split; intros (r & Hr & H); exists r; (split; [done|]); destruct (canonical_good lo l r Hc Hr);
    rewrite in_range_offset with (b := b) in * by auto; lia.
Qed.

Lemma uncovered_cons lo r l q :
  canonical b lo hi (r :: l) -> is_u32 q -> covered (r :: l) q = false ->
  (q ⊟ b < first r ⊟ b \/ end_ r ⊟ b <= q ⊟ b) /\ covered l q = false.
Proof.
  intros [[] _] Hq. unfold covered. cbn [existsb]. rewrite orb_false_iff.
  rewrite in_range_offset with (b := b) by auto. intros [H1 H2]. split; [lia|done].
Qed.

Lemma scan_above_spec l : forall lo q d a,
  canonical b lo hi l -> is_u32 q -> q ⊟ b < hi -> covered l q = false ->
  scan_above l q d a = (d + size (above l q), a + sacked_octets (above l q)).
Proof.
  induction l as [|r l IH]; intros lo q d a Hc Hq Hqhi Hu.
  { cbn. f_equal; [unfold size; cbn; lia|lia]. }
  destruct (uncovered_cons _ _ _ _ Hc Hq Hu) as [Hr Hu']. destruct Hc as [Hg Hc]. pose proof Hg as [].
  cbn [scan_above]. pose proof (u32_range (q - b)) as Rq. unfold is_u32 in Rq.
  assert ((q ⊞ 1) ⊟ b = q ⊟ b + 1) as Es by (revert Hqhi; clear -Hq Hb Hhi; word).
  rewrite !(Sequence.before_or_equal_offset b), !(Sequence.before_offset b), !(Sequence.after_offset b), Es
    by (auto with word; lia).
  unfold above. rewrite filter_cons.
  destruct Hr as [Hr|Hr].
  - rewrite decide_True by done. replace (end_ r ⊟ b <=? q ⊟ b + 1) with false by lia.
    replace (first r ⊟ b <? q ⊟ b + 1) with false by lia. replace (q ⊟ b <? first r ⊟ b) with true by lia.
    rewrite (IH _ _ _ _ Hc) by auto. unfold above. cbn [sacked_octets fold_right]. rewrite size_cons.
    f_equal; [lia|]. fold (sacked_octets (filter (fun r => q ⊟ b < first r ⊟ b) l)). lia.
  - rewrite decide_False by lia. replace (end_ r ⊟ b <=? q ⊟ b + 1) with true by lia. now apply (IH _ _ _ _ Hc).
Qed.

Lemma filter_ext_elem (P Q : SackRange -> Prop) `{!forall r, Decision (P r), !forall r, Decision (Q r)} l :
  (forall r, r ∈ l -> P r <-> Q r) -> filter P l = filter Q l.
Proof.
  induction l as [|r l IH]; intros Hpq; [done|]. rewrite !filter_cons.
  rewrite IH by (intros x Hx; apply Hpq; now right). pose proof (Hpq r ltac:(left)) as Hr.
  destruct (decide (P r)) as [Hp|Hp], (decide (Q r)) as [Hq|Hq]; tauto || done.
Qed.

(** The intervals above do not change inside a gap. *)
Lemma above_gap lo l q q' :
  canonical b lo hi l -> q ⊟ b <= q' ⊟ b ->
  (forall p, is_u32 p -> q ⊟ b <= p ⊟ b <= q' ⊟ b -> covered l p = false) ->
  above l q' = above l q.
Proof.
  intros Hc Hle Hgap. unfold above. apply filter_ext_elem. intros r Hr.
  destruct (canonical_good lo l r Hc Hr).
  split; intros H; [lia|]. destruct (Z.lt_ge_cases (q' ⊟ b) (first r ⊟ b)) as [|Hge]; [done|].
  exfalso. specialize (Hgap (first r) good_first0 ltac:(lia)).
  apply eq_true_false_abs with (covered l (first r)); [|done].
  apply (covered_spec lo l (first r) Hc good_first0). exists r. split; [done|lia].
Qed.

(** ** Gaps *)

(** No octet at the offsets [c, e) is covered. *)
Definition gap l (c e : Z) : Prop :=
  forall q, is_u32 q -> c <= q ⊟ b < e -> covered l q = false.
Definition solid l (c e : Z) : Prop :=
  forall q, is_u32 q -> c <= q ⊟ b < e -> covered l q = true.

Lemma covered_cons r l q : covered (r :: l) q = in_range q r || covered l q.
Proof. done. Qed.

Lemma canonical_below lo l q : canonical b lo hi l -> is_u32 q -> q ⊟ b < lo -> covered l q = false.
Proof.
  intros Hc Hq Hlt. apply not_true_iff_false. rewrite (covered_spec lo) by done.
  intros (r & Hr & H). destruct (canonical_good lo l r Hc Hr). lia.
Qed.

(** What [first_unsacked_from] finds between two offsets. *)
Definition first_gap l (c e : Z) (o : option SackRange) : Prop :=
  match o with
  | None => solid l c e
  | Some r => is_u32 (first r) /\ is_u32 (end_ r) /\ c <= first r ⊟ b < end_ r ⊟ b /\ end_ r ⊟ b <= e
      /\ solid l c (first r ⊟ b) /\ gap l (first r ⊟ b) (end_ r ⊟ b)
      /\ (end_ r ⊟ b = e \/ exists x, x ∈ l /\ first x = end_ r)
  end.

Lemma first_gap_skip r l c c' e o :
  c <= c' -> solid (r :: l) c c' -> (forall q, is_u32 q -> c' <= q ⊟ b -> covered (r :: l) q = covered l q) ->
  first_gap l c' e o -> first_gap (r :: l) c e o.
Proof.
  intros Hc Hs0 Hcov.
  assert (forall h, solid l c' h -> solid (r :: l) c h) as Hsol.
  { intros h Hs q Hq Hcq. destruct (Z.lt_ge_cases (q ⊟ b) c'); [apply Hs0; auto; lia|].
    rewrite Hcov by auto. apply Hs; auto. lia. }
  destruct o as [x|]; cbn; [|apply Hsol].
  intros (? & ? & ? & ? & Hs & Hn & Hx). split_and!; auto; try lia.
  - intros q Hq Hcq. rewrite Hcov by (auto; lia). auto.
  - destruct Hx as [Hx|(y & Hy & Ey)]; [now left|right]. exists y. split; [now right|done].
Qed.

Lemma unsacked_from_spec l : forall lo cursor ceiling,
  canonical b lo hi l -> is_u32 cursor -> is_u32 ceiling ->
  cursor ⊟ b < ceiling ⊟ b -> ceiling ⊟ b <= hi ->
  first_gap l (cursor ⊟ b) (ceiling ⊟ b) (unsacked_from l cursor ceiling).
Proof.
  induction l as [|r l IH]; intros lo c e Hc Ic Ie Hlt Hle; cbn [unsacked_from].
  { cbn. split_and!; try done; try lia. intros q _ Hq. lia. }
  destruct Hc as [Hg Hc]. pose proof Hg as [].
  rewrite (Sequence.before_or_equal_offset b), !(Sequence.before_offset b) by (auto; lia).
  assert (forall q, is_u32 q -> covered (r :: l) q
    = (first r ⊟ b <=? q ⊟ b) && (q ⊟ b <? end_ r ⊟ b) || covered l q) as Hcov
    by (intros; rewrite covered_cons; now rewrite in_range_offset with (b := b)).
  destruct (Z.leb_spec (end_ r ⊟ b) (c ⊟ b)) as [Hskip|Hskip].
  { apply first_gap_skip with (c ⊟ b); [done|intros q _ Hq; lia| |now apply IH with (1 := Hc)].
    intros q Hq Hcq. rewrite Hcov by done. replace (q ⊟ b <? end_ r ⊟ b) with false by lia.
    now rewrite andb_false_r. }
  destruct (Z.ltb_spec (c ⊟ b) (first r ⊟ b)) as [Hbefore|Hin'].
  { assert (gap (r :: l) (c ⊟ b) (first r ⊟ b)) as Hgap.
    { intros q Hq Hcq. rewrite Hcov by done. replace (first r ⊟ b <=? q ⊟ b) with false by lia.
      now rewrite (canonical_below _ l q Hc Hq) by lia. }
    assert (solid (r :: l) (c ⊟ b) (c ⊟ b)) by (intros q _ Hq; lia).
    destruct (Z.ltb_spec (first r ⊟ b) (e ⊟ b)) as [Hfe|Hfe]; cbn [first_gap first end_].
    - split_and!; try done; try lia. right. exists r. split; [left|done].
    - split_and!; try done; try lia. intros q Hq Hcq. apply Hgap; [done|lia]. }
  assert (solid (r :: l) (c ⊟ b) (end_ r ⊟ b)) as Hs0.
  { intros q Hq Hcq. rewrite Hcov by done. rewrite orb_true_iff. left. lia. }
  destruct (Z.ltb_spec (end_ r ⊟ b) (e ⊟ b)) as [Hee|Hee]; cbn [negb].
  2:{ intros q Hq Hcq. apply Hs0; [done|lia]. }
  apply first_gap_skip with (end_ r ⊟ b); [lia|done| |now apply IH with (1 := Hc)].
  intros q Hq Hcq. rewrite Hcov by done. replace (q ⊟ b <? end_ r ⊟ b) with false by lia.
  now rewrite andb_false_r.
Qed.
End Offsets.

(** ** Loss and pipe *)

(** RFC 6675 IsLost of an octet that is not selectively acknowledged: three
    discontiguous intervals, or more than two segments of octets, above it. *)
Definition lost_above (s : t) (q : Z) : bool :=
  let over := above (high_ack_ s) (live s) q in
  (duplicate_threshold <=? size over) || ((duplicate_threshold - 1) * sender_mss_ s <? sacked_octets over).

(** What one octet of the flight contributes to [pipe]: an original still
    believed in flight, and a retransmission. *)
Definition octet_weight (s : t) (q : Z) : Z :=
  if covered (live s) q then 0
  else (if lost_above s q then 0 else 1) + (if Sequence.before q (high_retransmitted_end_ s) then 1 else 0).

Section Scoreboard.
Context (s : t) (W : wf s).
Abbreviation ha := (high_ack_ s).
Abbreviation flight := (high_data_end_ s ⊟ high_ack_ s).

Lemma inside_guard q :
  is_u32 q -> q ⊟ ha < flight ->
  Sequence.before q ha = false /\ Sequence.before q (high_data_end_ s) = true.
Proof.
  destruct W. intros Hq Hlt. pose proof (u32_range (q - ha)) as R. unfold is_u32 in R.
  rewrite !(Sequence.before_offset ha) by (auto; rewrite ?wsub_diag; lia). rewrite wsub_diag. lia.
Qed.

Lemma is_lost_spec q :
  is_u32 q -> q ⊟ ha < flight -> covered (live s) q = false -> is_lost s q = lost_above s q.
Proof.
  intros Hq Hlt Hu. destruct (inside_guard q Hq Hlt) as [E1 E2]. destruct W. unfold is_lost, lost_above.
  rewrite wf_valid0, E1, E2. cbn [negb orb].
  now rewrite (scan_above_spec ha flight) with (lo := 0) by (auto; lia).
Qed.

Lemma is_lost_gap q q' :
  is_u32 q -> is_u32 q' -> q ⊟ ha <= q' ⊟ ha < flight -> gap ha (live s) (q ⊟ ha) (q' ⊟ ha + 1) ->
  is_lost s q' = is_lost s q.
Proof.
  intros Hq Hq' Hle Hgap. rewrite !is_lost_spec by solve [done | lia | apply Hgap; [done|lia]].
  unfold lost_above. rewrite (above_gap ha flight) with (lo := 0) (q := q); [done|apply W|apply W|lia|].
  intros p Hp Hpq. apply Hgap; [done|lia].
Qed.

Lemma account_spec f e :
  is_u32 f -> is_u32 e -> f ⊟ ha <= e ⊟ ha <= flight -> gap ha (live s) (f ⊟ ha) (e ⊟ ha) ->
  account_unsacked s f e = octets (fun d => octet_weight s (ha ⊞ d)) (f ⊟ ha) (e ⊟ ha).
Proof.
  intros If Ie Hle Hgap. pose proof W as []. pose proof (u32_range (f - ha)) as Rf. unfold is_u32 in Rf.
  assert (forall d, f ⊟ ha <= d < e ⊟ ha -> is_u32 d) as Hd by (unfold is_u32; lia).
  rewrite (octets_ext _ (fun d => (if is_lost s f then 0 else 1)
    + (if d <? high_retransmitted_end_ s ⊟ ha then 1 else 0))).
  2:{ intros d Hd'. specialize (Hd d Hd'). unfold octet_weight.
      pose proof (wsub_wadd ha d Hd) as Ed. rewrite Hgap by (auto with word; lia).
      rewrite (Sequence.before_offset ha), Ed by (auto with word; lia).
      assert (covered (live s) (ha ⊞ d) = false) as Hu by (apply Hgap; auto with word; lia).
      rewrite <- is_lost_spec by (auto with word; lia).
      rewrite (is_lost_gap f); auto with word; [lia|]. intros p Hp Hpq. apply Hgap; [done|lia]. }
  rewrite octets_add, octets_below, (octets_const _ (if is_lost s f then 0 else 1)) by (done || lia).
  unfold account_unsacked.
  rewrite !(Sequence.before_offset ha) by (auto; lia).
  destruct (Z.eqb_spec f e) as [->|Hne]; [lia|].
  rewrite (wsub_offset ha e f) by lia.
  destruct (Z.ltb_spec (f ⊟ ha) (high_retransmitted_end_ s ⊟ ha)) as [H1|H1].
  - destruct (Z.ltb_spec (e ⊟ ha) (high_retransmitted_end_ s ⊟ ha)) as [H2|H2].
    + rewrite (wsub_offset ha e f) by lia. destruct (is_lost s f); cbn [negb]; lia.
    + rewrite (wsub_offset ha _ f) by lia. destruct (is_lost s f); cbn [negb]; lia.
  - destruct (is_lost s f); cbn [negb]; lia.
Qed.

Lemma pipe_from_spec l : forall cursor result,
  canonical ha (cursor ⊟ ha) flight l -> is_u32 cursor -> cursor ⊟ ha <= flight ->
  (forall q, is_u32 q -> cursor ⊟ ha <= q ⊟ ha -> covered (live s) q = covered l q) ->
  pipe_from s l cursor result
  = result + octets (fun d => octet_weight s (ha ⊞ d)) (cursor ⊟ ha) flight.
Proof.
  induction l as [|r l IH]; intros c acc Hc Ic Hle Hcov; cbn [pipe_from].
  - pose proof W as []. rewrite account_spec; auto; [lia|]. intros q Hq Hcq. apply Hcov; [done|lia].
  - pose proof Hc as [[] Hc']. pose proof W as []. pose proof (u32_range (c - ha)) as Rc. unfold is_u32 in Rc.
    assert (forall q, is_u32 q -> in_range q r = (first r ⊟ ha <=? q ⊟ ha) && (q ⊟ ha <? end_ r ⊟ ha)) as Hin
      by (intros; now apply in_range_offset).
    rewrite account_spec; auto; [|lia|].
    2:{ intros q Hq Hcq. rewrite Hcov, covered_cons, Hin by (auto; lia).
        rewrite (canonical_below ha flight wf_ha0 (end_ r ⊟ ha + 1) l q Hc' Hq) by lia.
        rewrite orb_false_r. lia. }
    rewrite IH; auto; [|apply canonical_weaken with (end_ r ⊟ ha + 1) flight; auto; lia|].
    2:{ intros q Hq Hcq. rewrite Hcov, covered_cons, Hin by (auto; lia).
        replace (q ⊟ ha <? end_ r ⊟ ha) with false by lia. now rewrite andb_false_r. }
    rewrite (octets_split _ (c ⊟ ha) (first r ⊟ ha) flight) by lia.
    rewrite (octets_split _ (first r ⊟ ha) (end_ r ⊟ ha) flight) by lia.
    rewrite (octets_const _ 0 (first r ⊟ ha) (end_ r ⊟ ha)); [lia|lia|].
    intros d Hd. unfold octet_weight. pose proof (wsub_wadd ha d ltac:(unfold is_u32; lia)) as Ed.
    rewrite Hcov, covered_cons, Hin, Ed by (auto with word; lia).
    replace (first r ⊟ ha <=? d) with true by lia. replace (d <? end_ r ⊟ ha) with true by lia. done.
Qed.

(** ** The searches of [next_segment] *)

Lemma first_unsacked_spec start ceiling :
  is_u32 start -> is_u32 ceiling -> start ⊟ ha <= flight -> ceiling ⊟ ha <= flight ->
  first_gap ha (live s) (start ⊟ ha) (ceiling ⊟ ha) (first_unsacked_from s start ceiling).
Proof.
  pose proof W as []. intros Is Ic Hs Hc. unfold first_unsacked_from.
  pose proof (u32_range (start - ha)) as R. unfold is_u32 in R.
  rewrite (Sequence.before_offset ha start) by (auto; rewrite ?wsub_diag; lia).
  rewrite wsub_diag. replace (start ⊟ ha <? 0) with false by lia.
  rewrite (Sequence.before_offset ha) by (auto; lia).
  destruct (Z.ltb_spec (start ⊟ ha) (ceiling ⊟ ha)); cbn [negb].
  - now apply (unsacked_from_spec ha flight) with (lo := 0).
  - intros q _ Hq. lia.
Qed.

(** [q] is neither selectively acknowledged nor, by RFC 6675, lost. *)
Definition kept (q : Z) : Prop := covered (live s) q = true \/ is_lost s q = false.

(** The first lost octet at an offset in [c, e), with the gap it opens. *)
Definition first_lost (c e : Z) (o : option SackRange) : Prop :=
  match o with
  | None => forall q, is_u32 q -> c <= q ⊟ ha < e -> kept q
  | Some r => is_u32 (first r) /\ is_u32 (end_ r) /\ c <= first r ⊟ ha < end_ r ⊟ ha /\ end_ r ⊟ ha <= e
      /\ gap ha (live s) (first r ⊟ ha) (end_ r ⊟ ha) /\ is_lost s (first r) = true
      /\ forall q, is_u32 q -> c <= q ⊟ ha < first r ⊟ ha -> kept q
  end.

(** The intervals that start above [search]: the measure of the loop. *)
Definition ahead (search : Z) : nat := length (above ha (live s) search).

Lemma ahead_decreases search r :
  search ⊟ ha < first r ⊟ ha -> r ∈ live s -> (ahead (first r) < ahead search)%nat.
Proof.
  intros Hlt Hr. unfold ahead, above.
  rewrite <- (list_filter_filter_l (fun x => first r ⊟ ha < first x ⊟ ha) (fun x => search ⊟ ha < first x ⊟ ha))
    by (cbn; intros; lia).
  apply length_filter_lt with r; [apply list_elem_of_filter; split; done|lia].
Qed.

Lemma first_lost_skip c c' e o :
  c <= c' -> (forall q, is_u32 q -> c <= q ⊟ ha < c' -> kept q) -> first_lost c' e o -> first_lost c e o.
Proof.
  intros Hc Hk. assert (forall h, (forall q, is_u32 q -> c' <= q ⊟ ha < h -> kept q) ->
    forall q, is_u32 q -> c <= q ⊟ ha < h -> kept q) as Hall.
  { intros h H q Hq Hcq. destruct (Z.lt_ge_cases (q ⊟ ha) c'); [apply Hk; auto; lia|]. apply H; auto. lia. }
  destruct o as [r|]; cbn; [|apply Hall].
  intros (? & ? & ? & ? & ? & ? & H). split_and!; auto; try lia. now apply Hall.
Qed.

(** A gap whose first octet is kept is kept throughout. *)
Lemma gap_kept r c :
  is_u32 (first r) -> c <= first r ⊟ ha -> solid ha (live s) c (first r ⊟ ha) ->
  gap ha (live s) (first r ⊟ ha) (end_ r ⊟ ha) -> end_ r ⊟ ha <= flight -> is_lost s (first r) = false ->
  forall q, is_u32 q -> c <= q ⊟ ha < end_ r ⊟ ha -> kept q.
Proof.
  intros Hf Hc Hsol Hgap Hend Hl q Hq Hcq. destruct (Z.lt_ge_cases (q ⊟ ha) (first r ⊟ ha)) as [Hlt|Hge].
  - left. apply Hsol; [done|lia].
  - right. rewrite (is_lost_gap (first r) q); auto; [lia|]. intros p Hp Hpq. apply Hgap; [done|lia].
Qed.

Lemma search_lost_spec fuel highest : forall search,
  (ahead search < fuel)%nat -> is_u32 search -> is_u32 highest ->
  search ⊟ ha <= flight -> highest ⊟ ha <= flight ->
  exists o, first_lost (search ⊟ ha) (highest ⊟ ha) o
    /\ search_lost fuel s search highest = (fun r => head_segment s r lost_retransmission) <$> o.
Proof.
  pose proof W as []. induction fuel as [|fuel IH]; intros search Hf Is Ih Hs Hh; [lia|].
  cbn [search_lost]. pose proof (first_unsacked_spec search highest Is Ih Hs Hh) as Hgap.
  destruct (first_unsacked_from s search highest) as [r|].
  2:{ exists None. split; [|done]. intros q Hq Hcq. left. now apply Hgap. }
  destruct Hgap as (If & Ie & Hfe & Heh & Hsol & Hgap & Hend).
  destruct (is_lost s (first r)) eqn:El.
  { exists (Some r). split; [|done]. cbn. split_and!; auto; try lia. intros q Hq Hcq. left. apply Hsol; [done|lia]. }
  assert (forall q, is_u32 q -> search ⊟ ha <= q ⊟ ha < end_ r ⊟ ha -> kept q) as Hk
    by (apply gap_kept; auto; lia).
  rewrite (Sequence.before_offset ha) by (auto; lia).
  destruct (Z.ltb_spec (end_ r ⊟ ha) (highest ⊟ ha)) as [Hlt|Hge]; cbn [negb].
  - destruct Hend as [Hend|(x & Hx & Ex)]; [lia|].
    destruct (IH (end_ r)) as (o & Ho & Eo); auto; [|lia|].
    { rewrite <- Ex. pose proof (ahead_decreases search x) as Hd. rewrite Ex in *. specialize (Hd ltac:(lia) Hx). lia. }
    exists o. split; [|done]. apply first_lost_skip with (end_ r ⊟ ha); auto; lia.
  - exists None. split; [|done]. intros q Hq Hcq. apply Hk; [done|lia].
Qed.

(** The highest interval of octets not selectively acknowledged. *)
Definition last_gap (c : Z) (o : option SackRange) : Prop :=
  match o with
  | None => solid ha (live s) c flight
  | Some r => is_u32 (first r) /\ is_u32 (end_ r) /\ first r ⊟ ha < end_ r ⊟ ha <= flight
      /\ gap ha (live s) (first r ⊟ ha) (end_ r ⊟ ha) /\ solid ha (live s) (end_ r ⊟ ha) flight
  end.

Lemma highest_from_spec l : forall cursor result,
  canonical ha (cursor ⊟ ha) flight l -> is_u32 cursor -> cursor ⊟ ha <= flight ->
  (forall q, is_u32 q -> cursor ⊟ ha <= q ⊟ ha -> covered (live s) q = covered l q) ->
  match result with
  | None => solid ha (live s) 0 (cursor ⊟ ha)
  | Some r => is_u32 (first r) /\ is_u32 (end_ r) /\ first r ⊟ ha < end_ r ⊟ ha <= flight
      /\ gap ha (live s) (first r ⊟ ha) (end_ r ⊟ ha) /\ solid ha (live s) (end_ r ⊟ ha) (cursor ⊟ ha)
  end ->
  last_gap 0 (highest_from s l cursor result).
Proof.
  pose proof W as []. induction l as [|r l IH]; intros c res Hc Ic Hle Hcov Hres; cbn [highest_from].
  - rewrite (Sequence.before_offset ha) by (auto; lia).
    destruct (Z.ltb_spec (c ⊟ ha) flight) as [Hlt|Hge].
    + cbn. split_and!; auto; try lia. { intros q Hq Hcq. now rewrite Hcov by (auto; lia). } intros q _ Hq. lia.
    + replace (c ⊟ ha) with flight in Hres by lia. exact Hres.
  - pose proof Hc as [[] Hc']. rewrite (Sequence.before_offset ha) by (auto; lia).
    assert (forall q, is_u32 q -> c ⊟ ha <= q ⊟ ha -> covered (live s) q
      = (first r ⊟ ha <=? q ⊟ ha) && (q ⊟ ha <? end_ r ⊟ ha) || covered l q) as Hcov'.
    { intros q Hq Hcq. rewrite Hcov, covered_cons by auto. now rewrite in_range_offset with (b := ha). }
    assert (solid ha (live s) (first r ⊟ ha) (end_ r ⊟ ha)) as Hs1.
    { intros q Hq Hcq. rewrite Hcov' by (auto; lia). rewrite orb_true_iff. left. lia. }
    apply IH; auto; [apply canonical_weaken with (end_ r ⊟ ha + 1) flight; auto; lia| |].
    { intros q Hq Hcq. rewrite Hcov' by (auto; lia). replace (q ⊟ ha <? end_ r ⊟ ha) with false by lia.
      now rewrite andb_false_r. }
    destruct (Z.ltb_spec (c ⊟ ha) (first r ⊟ ha)) as [Hlt|Hge].
    + cbn [first end_]. split_and!; auto; try lia. intros q Hq Hcq. rewrite Hcov' by (auto; lia).
      replace (first r ⊟ ha <=? q ⊟ ha) with false by lia.
      now rewrite (canonical_below ha flight wf_ha0 (end_ r ⊟ ha + 1) l q Hc' Hq) by lia.
    + assert (forall a, solid ha (live s) a (c ⊟ ha) -> solid ha (live s) a (end_ r ⊟ ha)) as Happ.
      { intros a Ha q Hq Hcq. destruct (Z.lt_ge_cases (q ⊟ ha) (c ⊟ ha)); [apply Ha|apply Hs1]; auto; lia. }
      destruct res as [x|]; [|now apply Happ]. destruct Hres as (? & ? & ? & ? & ?). split_and!; auto; lia.
Qed.

Lemma highest_unsacked_spec : last_gap 0 (highest_unsacked s).
Proof.
  pose proof W as []. unfold highest_unsacked. apply highest_from_spec; auto; rewrite ?wsub_diag; auto.
  - apply u32_range.
  - intros q _ Hq. lia.
Qed.

(** ** The segment chosen *)

Definition highest_sack : Z := end_ (get (ranges_ s) (count_ s - 1)).

(** RFC 6675 NextSeg: rules 1, 2, 3 and 4 in order, each on the octets it
    speaks of. *)
Inductive chosen (unsent : option SackRange) : SackNextSegment -> Prop :=
| chosen_lost r :
    first_lost (high_retransmitted_end_ s ⊟ ha) (highest_sack ⊟ ha) (Some r) ->
    chosen unsent (head_segment s r lost_retransmission)
| chosen_new u :
    first_lost (high_retransmitted_end_ s ⊟ ha) (highest_sack ⊟ ha) None ->
    eligible s unsent = Some u ->
    chosen unsent (head_segment s u new_data)
| chosen_unsacked r :
    first_lost (high_retransmitted_end_ s ⊟ ha) (highest_sack ⊟ ha) None ->
    eligible s unsent = None ->
    first_gap ha (live s) (high_retransmitted_end_ s ⊟ ha) (highest_sack ⊟ ha) (Some r) ->
    chosen unsent (head_segment s r unsacked_retransmission)
| chosen_rescue r :
    solid ha (live s) (high_retransmitted_end_ s ⊟ ha) (highest_sack ⊟ ha) ->
    eligible s unsent = None ->
    rescue_present_ s = false \/ Sequence.after ha (rescue_retransmitted_ s) = true ->
    last_gap 0 (Some r) ->
    chosen unsent (mkNext (mkRange (end_ r ⊟ Z.min (sender_mss_ s) (end_ r ⊟ first r)) (end_ r))
                     rescue_retransmission)
| chosen_none :
    solid ha (live s) (high_retransmitted_end_ s ⊟ ha) (highest_sack ⊟ ha) ->
    eligible s unsent = None ->
    (rescue_present_ s = true /\ Sequence.after ha (rescue_retransmitted_ s) = false) \/ last_gap 0 None ->
    chosen unsent no_segment.

Lemma last_live : 0 < count_ s -> get (ranges_ s) (count_ s - 1) ∈ live s.
Proof.
  destruct W. intros Hc. unfold live, get. apply list_elem_of_lookup. exists (Z.to_nat (count_ s - 1)).
  unfold size in *. rewrite lookup_take_lt by lia.
  destruct (lookup_lt_is_Some_2 (ranges_ s) (Z.to_nat (count_ s - 1)) ltac:(lia)) as [x Hx].
  rewrite Hx. f_equal. symmetry. now apply list_lookup_total_correct.
Qed.

Lemma highest_sack_inside : 0 < count_ s -> is_u32 highest_sack /\ highest_sack ⊟ ha <= flight.
Proof.
  intros Hc. destruct (canonical_good ha flight 0 (live s) _ (wf_live s W) (last_live Hc)). done.
Qed.

Lemma next_segment_chosen unsent :
  recovery_ s = true -> 0 < count_ s -> chosen unsent (next_segment s unsent).
Proof.
  intros Hr Hc. destruct (highest_sack_inside Hc) as [Ih Hh]. pose proof W as [].
  unfold next_segment. rewrite wf_valid0, Hr. replace (count_ s =? 0) with false by lia. cbn [negb orb].
  fold highest_sack.
  destruct (search_lost_spec (S (Z.to_nat (count_ s))) highest_sack (high_retransmitted_end_ s)) as (o & Ho & ->);
    auto.
  { unfold ahead, above. pose proof (length_live s W) as Hl.
    pose proof (length_filter (fun r => high_retransmitted_end_ s ⊟ ha < first r ⊟ ha) (live s)). lia. }
  destruct o as [r|]; cbn [fmap option_fmap option_map]; [now constructor|].
  pose proof (first_unsacked_spec (high_retransmitted_end_ s) highest_sack wf_hrx0 Ih wf_hrx_in0 Hh) as Hg.
  destruct (eligible s unsent) as [u|] eqn:Eu; [now constructor|].
  destruct (first_unsacked_from s (high_retransmitted_end_ s) highest_sack) as [r|]; [now constructor|].
  unfold rescue. pose proof highest_unsacked_spec as Hl.
  destruct (negb (rescue_present_ s) || Sequence.after ha (rescue_retransmitted_ s)) eqn:Er.
  - rewrite orb_true_iff, negb_true_iff in Er. destruct (highest_unsacked s) as [r|]; [now constructor|].
    constructor; auto.
  - rewrite orb_false_iff, negb_false_iff in Er. constructor; auto.
Qed.

(** Every choice but new data lies inside the flight. *)
Lemma head_inside r why :
  is_u32 (first r) -> is_u32 (end_ r) -> first r ⊟ ha < end_ r ⊟ ha <= flight ->
  let x := range (head_segment s r why) in
  is_u32 (first x) /\ is_u32 (end_ x) /\ first x ⊟ ha < end_ x ⊟ ha <= flight.
Proof.
  pose proof W as []. intros If Ie Hr. cbn. rewrite (wsub_offset ha (end_ r) (first r)) by lia.
  split_and!; auto with word; revert Hr wf_flight0 wf_mss0; clear -If Ie wf_ha0; intros; word.
Qed.

Lemma chosen_inside unsent seg :
  0 < count_ s -> chosen unsent seg -> segment_present seg = true -> reason seg <> new_data ->
  let r := range seg in
  is_u32 (first r) /\ is_u32 (end_ r) /\ first r ⊟ ha < end_ r ⊟ ha <= flight.
Proof.
  intros Hc Hch Hp Hn. destruct (highest_sack_inside Hc) as [Ih Hh]. pose proof W as [].
  destruct Hch as [r Hl|u _ _|r _ _ Hg|r _ _ _ Hg|_ _ _]; [| |  | |discriminate].
  - destruct Hl as (? & ? & ? & ? & _). apply head_inside; auto; lia.
  - now destruct Hn.
  - destruct Hg as (? & ? & ? & ? & _). apply head_inside; auto; lia.
  - destruct Hg as (Hf & He & Hr & _). cbn. rewrite (wsub_offset ha (end_ r) (first r)) by lia.
    split_and!; auto with word; try lia.
    revert Hr wf_flight0 wf_mss0; clear -Hf He wf_ha0; intros; word.
Qed.

Lemma chosen_length unsent seg : chosen unsent seg -> end_ (range seg) ⊟ first (range seg) <= sender_mss_ s.
Proof.
  pose proof W as []. pose proof (fun a b => u32_range (a - b)) as R. unfold is_u32 in R.
  intros [r _|u _ _|r _ _ _|r _ _ _ _|_ _ _]; cbn [head_segment range first end_];
    try (specialize (R (end_ r) (first r))); try (specialize (R (end_ u) (first u)));
    try (rewrite wsub_wadd by (unfold is_u32; lia); lia).
  - assert (forall e d, is_u32 d -> e ⊟ (e ⊟ d) = d) as Hs by (clear; intros; word).
    rewrite Hs by (unfold is_u32; lia). lia.
  - change (0 <= sender_mss_ s). lia.
Qed.

Lemma bounded_inside r :
  is_u32 (first r) -> is_u32 (end_ r) -> first r ⊟ ha < end_ r ⊟ ha <= flight ->
  bounded_range (first r) (end_ r) = true /\ Sequence.before (first r) ha = false
  /\ Sequence.after (end_ r) (high_data_end_ s) = false.
Proof.
  pose proof W as []. intros If Ie Hr. pose proof (u32_range (first r - ha)) as R. unfold is_u32 in R.
  unfold bounded_range. rewrite (wsub_offset ha (end_ r) (first r)) by lia.
  rewrite (Sequence.before_offset ha), (Sequence.after_offset ha) by (auto; rewrite ?wsub_diag; lia).
  rewrite wsub_diag. split_and!; [rewrite andb_true_iff, negb_true_iff, Z.eqb_neq; lia|lia|lia].
Qed.

Lemma head_bounded f e :
  bounded_range f e = true -> bounded_range f (f ⊞ Z.min (sender_mss_ s) (e ⊟ f)) = true.
Proof.
  pose proof W as []. pose proof (u32_range (e - f)) as R. unfold is_u32 in R.
  unfold bounded_range. rewrite wsub_wadd by (unfold is_u32; lia).
  rewrite !andb_true_iff, !negb_true_iff, !Z.eqb_neq, !Z.leb_le. lia.
Qed.

(** What [next_segment] offers, [commit] accepts. *)
Lemma commit_chosen unsent seg :
  recovery_ s = true -> 0 < count_ s -> chosen unsent seg -> segment_present seg = true ->
  (commit s seg).1 = true.
Proof.
  intros Hr Hc Hch Hp. pose proof W as []. unfold commit. rewrite wf_valid0, Hp, Hr. cbn [negb orb].
  destruct (reason_is (reason seg) new_data) eqn:En.
  - destruct Hch as [| u _ Hu| | |]; try discriminate. unfold eligible in Hu. destruct unsent as [v|]; [|discriminate].
    destruct ((first v =? high_data_end_ s) && bounded_range (first v) (end_ v)) eqn:Ev; [|discriminate].
    injection Hu as <-. apply andb_true_iff in Ev as [Ev Eb]. cbn [head_segment range first end_ reason].
    now rewrite head_bounded, Ev.
  - destruct (chosen_inside unsent seg Hc Hch Hp) as (If & Ie & Hin); [intros Hn; now rewrite Hn in En|].
    destruct (bounded_inside (range seg) If Ie Hin) as (-> & -> & ->). cbn [negb orb].
    cases; reflexivity.
Qed.
End Scoreboard.

(** ** Sessions *)

(** What the owner of a scoreboard does to it. *)
Inductive event :=
| Acknowledge (high_ack high_data_end : Z) (blocks : list SackBlock)
| DuplicateAck (carries_new_sack : bool)
| EnterRecovery
| Transmit (unsent : option SackRange)
| Timeout
| ReduceMss (sender_mss : Z).

Definition handle (s : t) (e : event) : t :=
  match e with
  | Acknowledge ha hde blocks => (update s ha hde blocks).2
  | DuplicateAck new => (duplicate_ack s new).2
  | EnterRecovery => enter_recovery s
  | Transmit unsent => (commit s (next_segment s unsent)).2
  | Timeout => on_retransmission_timeout s
  | ReduceMss mss => reduce_sender_mss s mss
  end.

(** SND.UNA and SND.NXT move forward, and unsent data keeps the flight under
    its ceiling. *)
Definition allowed (s : t) (e : event) : Prop :=
  match e with
  | Acknowledge ha hde blocks => advance s ha hde /\ Forall block_ok blocks
  | Transmit (Some u) =>
      is_u32 (first u) /\ is_u32 (end_ u)
      /\ high_data_end_ s ⊟ high_ack_ s + (end_ u ⊟ first u) <= two30
  | ReduceMss mss => is_u16 mss
  | _ => True
  end.

Definition step (s : t) (e : event) (s' : t) : Prop := allowed s e /\ s' = handle s e.

Definition init (s : t) : Prop :=
  exists ranges workspace mss ha hde, is_u16 mss /\ is_u32 ha /\ is_u32 hde
  /\ reset (construct ranges workspace mss) ha hde = (true, s).

Lemma live_cleared n (s : t) : count_ s = 0 -> ranges_ s = replicate n no_range -> live s = [].
Proof. intros Hc Hr. unfold live. now rewrite Hc, Hr. Qed.

Lemma init_wf s : init s -> wf s.
Proof.
  intros (ranges & ws & mss & ha & hde & Hm & Ia & Ie & H). unfold reset, construct in H. cbn in H.
  destruct (negb (size ranges =? 0) && (size ranges =? size ws) && negb (mss =? 0)) eqn:Ev; [|discriminate].
  cbn [negb orb] in H. case_if_in H; [discriminate|]. bool_to_prop. injection H as <-.
  unfold size, is_u16 in *. pose proof (u32_range (hde - ha)) as R. unfold is_u32 in R.
  constructor; unfold live; cbn; unfold cleared; rewrite ?length_replicate; auto; try lia; try done.
  - unfold size. rewrite !length_replicate. lia.
  - now rewrite Nat.sub_0_r.
  - rewrite wsub_diag. lia.
Qed.

(** New data extends the flight. *)
Lemma extend_wf s e :
  wf s -> is_u32 e -> high_data_end_ s ⊟ high_ack_ s <= e ⊟ high_ack_ s <= two30 ->
  wf (s <| high_data_end_ := e |>).
Proof.
  intros [] Ie He. constructor; cbn; auto; try lia.
  apply canonical_weaken with 0 (high_data_end_ s ⊟ high_ack_ s); auto; lia.
Qed.

Lemma head_extends s u :
  wf s -> first u = high_data_end_ s -> is_u32 (end_ u) ->
  high_data_end_ s ⊟ high_ack_ s + (end_ u ⊟ first u) <= two30 ->
  let e := end_ (range (head_segment s u new_data)) in
  is_u32 e /\ high_data_end_ s ⊟ high_ack_ s <= e ⊟ high_ack_ s <= two30.
Proof.
  intros [] Ef Ie Hu. cbn. rewrite Ef in *. split; [auto with word|].
  revert Hu wf_mss0 wf_flight0. generalize (end_ u ⊟ high_data_end_ s), (u32_range (end_ u - high_data_end_ s)).
  clear -wf_ha0 wf_hde0. intros d Hd. intros. word.
Qed.

(** Recovery markers moved inside the flight. *)
Lemma markers_wf s hrx rescue present :
  wf s -> recovery_ s = true -> is_u32 hrx -> is_u32 rescue -> hrx ⊟ high_ack_ s <= high_data_end_ s ⊟ high_ack_ s ->
  wf (s <| high_retransmitted_end_ := hrx |> <| rescue_retransmitted_ := rescue |> <| rescue_present_ := present |>).
Proof. intros [] Hr Ih Ir Hh. constructor; cbn; auto. Qed.

Lemma commit_idle s unsent :
  wf s -> recovery_ s = false \/ count_ s = 0 -> (commit s (next_segment s unsent)).2 = s.
Proof.
  intros [] H. unfold next_segment, commit. rewrite wf_valid0.
  destruct (recovery_ s) eqn:Er; cbn [negb orb]; [|now rewrite ?orb_true_r].
  destruct H as [H| ->]; [discriminate|]. done.
Qed.

Lemma commit_wf s unsent :
  wf s -> allowed s (Transmit unsent) -> wf (handle s (Transmit unsent)).
Proof.
  intros W A. pose proof W as []. cbn [handle].
  destruct (recovery_ s) eqn:Hr; [|rewrite commit_idle; auto].
  destruct (Z.eqb_spec (count_ s) 0) as [H0|H0]; [rewrite commit_idle; auto|].
  pose proof (next_segment_chosen s W unsent Hr ltac:(lia)) as Hch. set (seg := next_segment s unsent) in *.
  unfold commit. rewrite wf_valid0, Hr. destruct (segment_present seg) eqn:Hp; cbn [negb orb]; [|done].
  case_if; [done|]. destruct (reason_is (reason seg) new_data) eqn:En.
  - case_if; [done|]. cbn [snd].
    destruct Hch as [|u _ Hu| | |]; try discriminate. unfold eligible in Hu.
    destruct unsent as [v|]; [|discriminate]. case_if_in Hu; [|discriminate]. injection Hu as ->.
    destruct A as (If & Ie & Hle). destruct (head_extends s u W) as [H1 H2]; auto. now apply extend_wf.
  - destruct (chosen_inside s W unsent seg ltac:(lia) Hch Hp) as (If & Ie & Hin); [intros Hn; now rewrite Hn in En|].
    case_if; [done|]. case_if.
    { apply (markers_wf s (high_retransmitted_end_ s)); auto. }
    case_if; [|done]. cbn [snd]. case_if.
    + apply (markers_wf s (end_ (range seg)) (end_ (range seg)) true); auto. lia.
    + apply (markers_wf s (end_ (range seg)) (rescue_retransmitted_ s) (rescue_present_ s)); auto. lia.
Qed.

Lemma update_wf s ha hde blocks :
  wf s -> advance s ha hde -> Forall block_ok blocks -> wf (update s ha hde blocks).2.
Proof.
  intros W A Hb. pose proof (update_outcome s ha hde blocks W A Hb) as H.
  apply H.
Qed.

Lemma handle_wf s e : wf s -> allowed s e -> wf (handle s e).
Proof.
  intros W A. pose proof W as [].
  pose proof (u32_range (high_data_end_ s - high_ack_ s)) as R. unfold is_u32 in R.
  destruct e as [ha hde blocks|new| |unsent| |mss]; cbn [handle].
  - apply update_wf; [done|apply A..].
  - unfold duplicate_ack. case_if; [done|]. cbn [snd]. case_if; [|done].
    constructor; cbn; auto with word. intros Hr. congruence.
  - unfold enter_recovery. case_if; [done|]. rewrite wf_valid0 in E. bool_to_prop.
    constructor; cbn; auto; try done; try lia. rewrite wsub_diag. lia.
  - now apply commit_wf.
  - unfold on_retransmission_timeout. rewrite wf_valid0. cbn [negb].
    constructor; cbn; unfold cleared, live; cbn; rewrite ?length_replicate; auto; try done; try lia.
    + unfold size in *. rewrite length_replicate. lia.
    + now rewrite Nat.sub_0_r.
    + rewrite wsub_diag. lia.
  - unfold reduce_sender_mss. case_if; [|done]. cbn in A. unfold is_u16 in A. constructor; cbn; auto. lia.
Qed.

(** C28: [update] publishes exactly the union of the held intervals and the
    SACK blocks on the octets still outstanding, and keeps the scoreboard well
    formed (sorted, disjoint, non-adjacent intervals inside the flight).  It
    fails only on a block it refuses, as [malformed], or when more intervals
    and blocks meet than the capacity holds; a failure leaves the live state
    unchanged. *)
Theorem sack_update_union s ha hde blocks :
  wf s -> advance s ha hde -> Forall block_ok blocks ->
  update_result s ha hde blocks (update s ha hde blocks).
Proof. apply update_outcome. Qed.

(** A SACK session keeps the scoreboard well formed: from a reset, any
    sequence of acknowledgments inside the flight, duplicate acknowledgments,
    recovery entries, transmissions of the segment the scoreboard itself chose,
    timeouts and MSS reductions leaves sorted disjoint intervals inside
    [HighACK, HighData), HighRxt and RecoveryPoint inside the flight, and at
    most one recovery mode. *)
Theorem sack_session_invariant s : reachable init step s -> wf s.
Proof.
  apply invariant_reachable; [exact init_wf|]. intros s0 e s' W [A ->]. now apply handle_wf.
Qed.

(** [pipe] is the RFC 6675 octet count: each octet of the flight that is not
    selectively acknowledged counts once unless it is lost and once more when it
    was retransmitted, an octet being lost when three intervals or more than two
    segments of octets are selectively acknowledged above it; the interval walk
    never saturates. *)
Theorem sack_pipe_octets s :
  wf s ->
  pipe s = octets (fun d => octet_weight s (high_ack_ s ⊞ d)) 0 (high_data_end_ s ⊟ high_ack_ s)
  /\ forall q, is_u32 q -> q ⊟ high_ack_ s < high_data_end_ s ⊟ high_ack_ s ->
     covered (live s) q = false -> is_lost s q = lost_above s q.
Proof.
  intros W. split; [|intros; now apply is_lost_spec]. pose proof W as [].
  pose proof (u32_range (high_data_end_ s - high_ack_ s)) as R. unfold is_u32 in R.
  unfold pipe. rewrite wf_valid0. cbn [negb].
  rewrite pipe_from_spec by (auto; rewrite ?wsub_diag; auto; lia). rewrite wsub_diag.
  unfold saturating_u32. case_if; [|lia]. exfalso.
  pose proof (octets_bounds (fun d => octet_weight s (high_ack_ s ⊞ d)) 0 2 0 (high_data_end_ s ⊟ high_ack_ s)) as H.
  unfold u32_max in E. cut (octets (fun d => octet_weight s (high_ack_ s ⊞ d)) 0 (high_data_end_ s ⊟ high_ack_ s)
    <= 2 * (high_data_end_ s ⊟ high_ack_ s - 0)); [lia|]. apply H; [lia|]. intros d _. unfold octet_weight. cases; lia.
Qed.

(** C29: in recovery [next_segment] follows RFC 6675 NextSeg: the first lost octet
    at or above HighRxt and below the highest selectively acknowledged one, else
    new data the window admits, else the first octet there that is not
    acknowledged, else one rescue retransmission of the highest such octets; each
    segment is at most one SMSS, lies inside the flight unless it is new data, and
    [commit] accepts it. *)
Theorem sack_next_segment s unsent :
  wf s -> recovery_ s = true -> 0 < count_ s ->
  let seg := next_segment s unsent in
  chosen s unsent seg
  /\ end_ (range seg) ⊟ first (range seg) <= sender_mss_ s
  /\ (segment_present seg = true -> (commit s seg).1 = true).
Proof.
  intros W Hr Hc seg. pose proof (next_segment_chosen s W unsent Hr Hc) as Hch. fold seg in Hch.
  split_and!; [done|now apply chosen_length with unsent|intros Hp; now apply commit_chosen with unsent].
Qed.

(** ** Checkpoints *)

(** The rescue marker is still inside the recovery it belongs to. *)
Definition marker_current (s : t) : bool :=
  negb (rescue_present_ s)
  || negb (Sequence.before (rescue_retransmitted_ s) (high_ack_ s)
           || Sequence.after (rescue_retransmitted_ s) (recovery_point_ s)).

Section Saved.
Context (s : t) (W : wf s).
Abbreviation ha := (high_ack_ s).
Abbreviation flight := (high_data_end_ s ⊟ high_ack_ s).

Lemma range_guard lo r :
  good ha lo flight r ->
  negb (bounded_range (first r) (end_ r)) || Sequence.before (first r) ha
  || Sequence.after (end_ r) (high_data_end_ s) = false.
Proof.
  intros []. destruct (bounded_inside s W r) as (-> & -> & ->); auto.
Qed.

Lemma validate_ranges_live l : forall lo prev,
  canonical ha lo flight l ->
  match prev with Some p => is_u32 (end_ p) /\ end_ p ⊟ ha < two31 /\ end_ p ⊟ ha + 1 <= lo | None => True end ->
  validate_ranges l prev ha (high_data_end_ s) = true.
Proof.
  pose proof W as []. induction l as [|r l IH]; intros lo prev Hc Hp; [done|].
  destruct Hc as [Hg Hc]. cbn [validate_ranges]. rewrite (range_guard lo r Hg). pose proof Hg as [].
  replace (match prev with Some p => negb (Sequence.before (end_ p) (first r)) | None => false end) with false.
  - apply (IH _ (Some r) Hc). split_and!; auto; lia.
  - destruct prev as [p|]; [|done]. destruct Hp as (Ip & H31 & Hlo).
    rewrite (Sequence.before_offset ha) by (auto; lia). symmetry. apply negb_false_iff. lia.
Qed.

Lemma validate_saved capacity :
  0 < capacity -> size (live s) <= capacity ->
  validate_checkpoint (checkpoint s) capacity = marker_current s.
Proof.
  pose proof W as []. pose proof (u32_range (high_data_end_ s - high_ack_ s)) as R. unfold is_u32 in R.
  intros Hcap Hsize. unfold validate_checkpoint, checkpoint, marker_current. cbn.
  rewrite (Sequence.after_offset ha (high_retransmitted_end_ s)), (Sequence.before_offset ha (high_retransmitted_end_ s)),
    (Sequence.before_offset ha (recovery_point_ s)), (Sequence.after_offset ha (recovery_point_ s) (high_data_end_ s))
    by (auto; rewrite ?wsub_diag; lia).
  rewrite wsub_diag, (validate_ranges_live (live s) 0 None) by done.
  pose proof (u32_range (high_retransmitted_end_ s - high_ack_ s)) as R1.
  pose proof (u32_range (recovery_point_ s - high_ack_ s)) as R2. unfold is_u32 in R1, R2.
  replace (capacity =? 0) with false by lia. replace (capacity <? size (live s)) with false by lia.
  replace (two30 <? flight) with false by lia.
  replace (flight <? high_retransmitted_end_ s ⊟ ha) with false by lia.
  replace (high_retransmitted_end_ s ⊟ ha <? 0) with false by lia.
  replace (recovery_point_ s ⊟ ha <? 0) with false by lia.
  replace (flight <? recovery_point_ s ⊟ ha) with false by lia.
  cbn [orb]. assert (recovery_ s && recovery_suppressed_ s = false) as ->.
  { destruct (recovery_ s); [|done]. now destruct (wf_modes0 eq_refl) as [-> _]. }
  assert (recovery_ s && negb (duplicate_acknowledgments_ s =? 0) = false) as ->.
  { destruct (recovery_ s); [|done]. now destruct (wf_modes0 eq_refl) as [_ ->]. }
  destruct (rescue_present_ s) eqn:Ep; [|done]. rewrite wf_rescue_mode0 by done. cbn [negb orb andb].
  rewrite orb_false_r. now destruct (Sequence.before (rescue_retransmitted_ s) ha || _).
Qed.

(** An interval above all the staged ones is appended. *)
Lemma insert_above l x :
  (forall r, r ∈ l -> end_ r ⊟ ha < first x ⊟ ha) -> insert ha x l = l ++ [x].
Proof.
  intros H. induction l as [|r l IH]; [now destruct x|].
  rewrite insert_cons_below by (apply H; left). cbn [app]. f_equal. apply IH. intros y Hy. apply H. now right.
Qed.

Lemma canonical_app_below acc x l lo :
  canonical ha lo flight (acc ++ x :: l) -> forall r, r ∈ acc -> end_ r ⊟ ha < first x ⊟ ha.
Proof.
  revert lo. induction acc as [|y acc IH]; intros lo Hc r Hr; [now apply not_elem_of_nil in Hr|].
  destruct Hc as [Hy Hc]. apply elem_of_cons in Hr as [->|Hr]; [|now apply (IH _ Hc)].
  assert (x ∈ acc ++ x :: l) as Hx by (apply elem_of_app; right; left).
  destruct (canonical_good ha flight _ _ x Hc Hx). lia.
Qed.

Lemma stage_saved_live l : forall w n acc,
  canonical ha 0 flight (acc ++ l) -> staged w n acc -> (length acc + length l <= length w)%nat ->
  exists w' n', stage_saved l w n ha (high_data_end_ s) = (Some n', w') /\ staged w' n' (acc ++ l)
    /\ length w' = length w.
Proof.
  pose proof W as []. induction l as [|r l IH]; intros w n acc Hc Hst Hlen.
  { exists w, n. now rewrite app_nil_r. }
  cbn [stage_saved length] in *.
  assert (r ∈ acc ++ r :: l) as Hr by (apply elem_of_app; right; left).
  rewrite (range_guard 0 r (canonical_good ha flight 0 _ r Hc Hr)). destruct Hst as [-> [rest ->]].
  pose proof (insert_workspace_spec ha acc rest r) as Hi.
  rewrite insert_above in Hi by exact (canonical_app_below acc r l 0 Hc).
  destruct (insert_workspace (acc ++ rest) r (size acc) ha) as [[w1 n1]|].
  - destruct Hi as (rest' & -> & -> & Hl). destruct (IH ((acc ++ [r]) ++ rest') (size (acc ++ [r])) (acc ++ [r]))
      as (w' & n' & E & S' & L').
    + now rewrite <- app_assoc.
    + split; [done|now exists rest'].
    + rewrite Hl, length_app. cbn. lia.
    + exists w', n'. rewrite <- app_assoc in S'. split_and!; [done|done|congruence].
  - destruct Hi as [-> _]. rewrite app_nil_r in Hlen. lia.
Qed.
End Saved.

Lemma restore_saved live_ s :
  wf s -> valid_ live_ = true -> length (ranges_ live_) = length (ranges_ s) ->
  length (workspace_ live_) = length (ranges_ s) -> ranges_ s <> [] ->
  validate_checkpoint (checkpoint s) (size (ranges_ live_)) = marker_current s
  /\ if marker_current s
     then exists w, length w = length (ranges_ s) /\ restore live_ (checkpoint s)
       = (true, s <| workspace_ := w |> <| sender_mss_ := sender_mss_ live_ |>
                  <| last_update_added_sack_ := last_update_added_sack_ live_ |>)
     else restore live_ (checkpoint s) = (false, live_).
Proof.
  intros W Hv Hr Hw Hne. pose proof W as []. pose proof (length_live s W) as Hl.
  assert (validate_checkpoint (checkpoint s) (size (ranges_ live_)) = marker_current s) as Hval.
  { apply validate_saved; [done| |unfold size in *; lia].
    unfold size. rewrite Hr. destruct (ranges_ s); [done|]. cbn [length]. lia. }
  split; [done|]. unfold restore. rewrite Hv, Hval. destruct (marker_current s); [|done]. cbn [negb orb].
  destruct (stage_saved_live s W (live s) (cleared (workspace_ live_)) 0 []) as (w & n & E & [-> [rest ->]] & L).
  - done.
  - split; [done|now exists (cleared (workspace_ live_))].
  - cbn. unfold cleared. rewrite length_replicate. unfold size in *. lia.
  - exists (live s ++ rest). split; [cbn [app] in L; rewrite L; unfold cleared; now rewrite length_replicate|]. cbn [checkpoint ranges high_ack high_data_end]. rewrite E. cbn [app].
    rewrite Z.eqb_refl. cbn [negb]. f_equal. cbn.
    assert (size (live s) = count_ s) as Es by (unfold size; lia).
    rewrite Es, Hr, <- Hl, take_app_length, Hl, <- wf_tail0, Hv, wf_valid0. done.
Qed.

(** C30: a checkpoint of a live scoreboard is accepted exactly when its rescue
    marker lies in [HighACK, RecoveryPoint], and then a scoreboard built over as
    many slots continues with the same intervals and markers (its scratch array,
    change flag and SMSS are its own).  Nothing in [update] keeps the marker
    current: an acknowledgment that passes it makes the checkpoint unusable. *)
Theorem sack_checkpoint live_ s :
  wf s -> valid_ live_ = true -> length (ranges_ live_) = length (ranges_ s) ->
  length (workspace_ live_) = length (ranges_ s) -> ranges_ s <> [] ->
  validate_checkpoint (checkpoint s) (size (ranges_ live_)) = marker_current s
  /\ if marker_current s
     then exists w, restore live_ (checkpoint s)
       = (true, s <| workspace_ := w |> <| sender_mss_ := sender_mss_ live_ |>
                  <| last_update_added_sack_ := last_update_added_sack_ live_ |>)
     else restore live_ (checkpoint s) = (false, live_).
Proof.
  intros W Hv Hr Hw Hne. destruct (restore_saved live_ s W Hv Hr Hw Hne) as [Hval Hst]. split; [done|].
  case_if; [|done]. destruct Hst as (w & _ & Hst). now exists w.
Qed.

(** ** Concrete sessions *)

(** A flight of ten 100-octet segments across the wrap, three later ones
    selectively acknowledged, recovery entered. *)
Definition slots : list SackRange := replicate 4 no_range.
Definition sample0 : t := (reset (construct slots slots 100) 4294967000 704).2.
Definition sample_blocks : list SackBlock :=
  [mkBlock 4294967200 4; mkBlock 104 204; mkBlock 304 404].
Definition sample : t :=
  handle (handle sample0 (Acknowledge 4294967000 704 sample_blocks)) EnterRecovery.
(** The lost head is retransmitted, and acknowledged as far as the first hole. *)
Definition stale : t := handle (handle sample (Transmit None)) (Acknowledge 4 704 []).

Ltac check_bounds := vm_compute; intuition congruence.

Lemma sack_sample_reachable : reachable init step sample.
Proof.
  apply reachable_step with (handle sample0 (Acknowledge 4294967000 704 sample_blocks)) EnterRecovery;
    [|split; done].
  apply reachable_step with sample0 (Acknowledge 4294967000 704 sample_blocks).
  - apply reachable_init. exists slots, slots, 100, 4294967000, 704. split_and!; check_bounds || done.
  - split; [split; [constructor; check_bounds|]|done]. repeat constructor; check_bounds.
Qed.

Lemma sack_sample_wf : wf sample.
Proof.
  apply (invariant_reachable init step); [exact init_wf| |exact sack_sample_reachable].
  intros s0 e s' W [A ->]. now apply handle_wf.
Qed.

(** The acknowledgment passed the rescue marker: the scoreboard goes on, but its
    checkpoint is refused. *)
Example stale_refused :
  reachable init step stale /\ recovery_ stale = true /\ marker_current stale = false
  /\ restore sample0 (checkpoint stale) = (false, sample0).
Proof.
  split; [|vm_compute; done].
  apply reachable_step with (handle sample (Transmit None)) (Acknowledge 4 704 []).
  - apply reachable_step with sample (Transmit None); [apply sack_sample_reachable|done].
  - split; [split; [constructor; check_bounds|constructor]|done].
Qed.

Example sack_update_union_witness :
  covered (live (update sample 4294967100 704 [mkBlock 4 104]).2) 50 = true
  /\ (update sample 4294967100 704 [mkBlock 4 104]).1 = updated.
Proof.
  pose proof (sack_update_union sample 4294967100 704 [mkBlock 4 104] sack_sample_wf) as H.
  specialize (H ltac:(constructor; check_bounds) ltac:(repeat constructor; check_bounds)).
  assert ((update sample 4294967100 704 [mkBlock 4 104]).1 = updated) as E by (vm_compute; reflexivity).
  unfold update_result in H. rewrite E in H. destruct H as [_ (_ & _ & Hc & _)]. split; [|exact E]. rewrite Hc by check_bounds. vm_compute. reflexivity.
Defined.

Example sack_session_invariant_witness : wf sample.
Proof. apply sack_session_invariant, sack_sample_reachable. Defined.

Example sack_pipe_octets_witness : pipe sample = 500 /\ is_lost sample 4294967050 = true.
Proof.
  destruct (sack_pipe_octets sample sack_sample_wf) as [E H].
  split; [rewrite E; vm_compute; reflexivity|]. rewrite H; [vm_compute; reflexivity|check_bounds..].
Defined.

Example sack_next_segment_witness :
  next_segment sample None = mkNext (mkRange 4294967000 4294967100) lost_retransmission
  /\ (commit sample (next_segment sample None)).1 = true.
Proof.
  split; [vm_compute; reflexivity|].
  apply (sack_next_segment sample None sack_sample_wf); [vm_compute; reflexivity..].
Defined.

Example sack_checkpoint_witness :
  validate_checkpoint (checkpoint sample) (size (ranges_ sample0)) = true
  /\ if marker_current sample
     then exists w, restore sample0 (checkpoint sample)
       = (true, sample <| workspace_ := w |> <| sender_mss_ := sender_mss_ sample0 |>
                  <| last_update_added_sack_ := last_update_added_sack_ sample0 |>)
     else restore sample0 (checkpoint sample) = (false, sample0).
Proof.
  assert (marker_current sample = true) as <- by (vm_compute; reflexivity).
  apply (sack_checkpoint sample0 sample sack_sample_wf); vm_compute; congruence.
Defined.
End SackRecovery.
