(* ===== verification/Replay.v ===== *)
(** * IPsec anti-replay windows and outbound sequence numbers
    (core/src/security/ipsec_replay.cpp). *)

From S2P Require Import Prelude.

Module Replay.

Inductive ReplayStatus :=
| admissible | zero_sequence | duplicate | too_old | invalid_window | sequence_space_exhausted.

Record ReplayCandidate := mkCandidate { status : ReplayStatus; sequence : Z }.

Record t := mk {
  highest_ : Z;
  bitmap_ : Z;
  width_ : Z;
  extended_ : bool
}.
#[export] Instance t_settable : Settable t := fun s =>
  mk (highest_ s) (bitmap_ s) (width_ s) (extended_ s).

Definition u64_max : Z := 18446744073709551615.

Definition construct (width : Z) (extended_sequence_numbers : bool) : t :=
  mk 0 0 (if width <=? 64 then width else 0) extended_sequence_numbers.

Definition active_mask (s : t) : Z :=
  if width_ s =? 0 then 0 else if width_ s =? 64 then u64_max else Z.shiftl 1 (width_ s) - 1.

(** RFC 4303 Appendix A on the 64-bit [highest_]. *)
Definition reconstruct (s : t) (received_low : Z) : option Z :=
  if (width_ s =? 0) || ((received_low =? 0) && (negb (extended_ s) || (highest_ s =? 0))) then None
  else if negb (extended_ s) then Some received_low
  else if highest_ s =? 0 then Some received_low
  else
    let highest_low := u32 (highest_ s) in
    let highest_high := u32 (Z.shiftr (highest_ s) 32) in
    let behind := u32 (width_ s - 1) in
    if highest_low <? behind then
      let previous_floor := u32 (u32_max - (behind - highest_low) + 1) in
      if previous_floor <=? received_low then
        if highest_high =? 0 then None
        else Some (Z.lor (Z.shiftl (highest_high - 1) 32) received_low)
      else Some (Z.lor (Z.shiftl highest_high 32) received_low)
    else if received_low <? highest_low - behind then
      if highest_high =? u32_max then None
      else Some (Z.lor (Z.shiftl (highest_high + 1) 32) received_low)
    else Some (Z.lor (Z.shiftl highest_high 32) received_low).

Definition check (s : t) (received_low : Z) : ReplayCandidate :=
  if width_ s =? 0 then mkCandidate invalid_window 0
  else
    match reconstruct s received_low with
    | None => mkCandidate (if received_low =? 0 then zero_sequence else sequence_space_exhausted) 0
    | Some r =>
        if (highest_ s =? 0) || (highest_ s <? r) then mkCandidate admissible r
        else
          let distance := highest_ s - r in
          if width_ s <=? distance then mkCandidate too_old r
          else if negb (Z.land (bitmap_ s) (Z.shiftl 1 distance) =? 0) then mkCandidate duplicate r
          else mkCandidate admissible r
    end.

Definition commit (s : t) (authenticated_sequence : Z) : bool * t :=
  if (width_ s =? 0) || (authenticated_sequence =? 0)
     || (negb (extended_ s) && (u32_max <? authenticated_sequence)) then (false, s)
  else if highest_ s =? 0 then (true, s <| highest_ := authenticated_sequence |> <| bitmap_ := 1 |>)
  else if highest_ s <? authenticated_sequence then
    let advance := authenticated_sequence - highest_ s in
    let bitmap := if width_ s <=? advance then 1 else Z.lor (u64 (Z.shiftl (bitmap_ s) advance)) 1 in
    (true, s <| bitmap_ := Z.land bitmap (active_mask s) |> <| highest_ := authenticated_sequence |>)
  else
    let distance := highest_ s - authenticated_sequence in
    if (width_ s <=? distance) || negb (Z.land (bitmap_ s) (Z.shiftl 1 distance) =? 0) then (false, s)
    else (true, s <| bitmap_ := Z.lor (bitmap_ s) (Z.shiftl 1 distance) |>).

Definition restore (s : t) (highest bitmap : Z) : bool * t :=
  if (width_ s =? 0) || (negb (extended_ s) && (u32_max <? highest))
     || negb (Z.land bitmap (u64_max - active_mask s) =? 0)
     || negb (Bool.eqb (highest =? 0) (bitmap =? 0))
     || (negb (highest =? 0) && (Z.land bitmap 1 =? 0))
  then (false, s)
  else (true, s <| highest_ := highest |> <| bitmap_ := bitmap |>).

(** ** Outbound numbering *)

Record OutboundSequence := mkOutbound { current_ : Z; outbound_extended_ : bool }.

Definition next (o : OutboundSequence) : option Z * OutboundSequence :=
  let maximum := if outbound_extended_ o then u64_max else u32_max in
  if current_ o =? maximum then (None, o)
  else (Some (current_ o + 1), mkOutbound (current_ o + 1) (outbound_extended_ o)).

Definition outbound_restore (o : OutboundSequence) (current : Z) : bool * OutboundSequence :=
  if negb (outbound_extended_ o) && (u32_max <? current) then (false, o)
  else (true, mkOutbound current (outbound_extended_ o)).

(** ** Bits *)

Lemma bit_clear b i : 0 <= i -> (Z.land b (Z.shiftl 1 i) =? 0) = negb (Z.testbit b i).
Proof.
  intros Hi. apply eq_true_iff_eq. rewrite negb_true_iff, Z.eqb_eq.
  assert (forall k, 0 <= k -> Z.testbit (Z.land b (Z.shiftl 1 i)) k = Z.testbit b k && (k =? i)) as Hb.
  { intros k Hk. rewrite Z.land_spec. f_equal. rewrite Z.shiftl_1_l, Z.pow2_bits_eqb by lia.
    now rewrite Z.eqb_sym. }
  split.
  - intros E. specialize (Hb i Hi). rewrite E, Z.bits_0, Z.eqb_refl, andb_true_r in Hb. done.
  - intros E. apply Z.bits_inj_0. intros k. destruct (Z.lt_ge_cases k 0); [now apply Z.testbit_neg_r|].
    rewrite Hb by done. destruct (Z.eqb_spec k i) as [->|]; [now rewrite E|apply andb_false_r].
Qed.

Lemma bit_set b i k : 0 <= i -> 0 <= k -> Z.testbit (Z.lor b (Z.shiftl 1 i)) k = Z.testbit b k || (k =? i).
Proof.
  intros Hi Hk. rewrite Z.lor_spec, Z.shiftl_1_l, Z.pow2_bits_eqb by lia. now rewrite Z.eqb_sym.
Qed.

Lemma active_mask_bit s k :
  0 <= width_ s <= 64 -> 0 <= k -> Z.testbit (active_mask s) k = (k <? width_ s).
Proof.
  intros Hw Hk. unfold active_mask.
  destruct (Z.eqb_spec (width_ s) 0) as [->|]; [rewrite Z.bits_0; lia|].
  destruct (Z.eqb_spec (width_ s) 64) as [->|].
  - change u64_max with (Z.ones 64). now rewrite Z.testbit_ones_nonneg by lia.
  - rewrite Z.shiftl_1_l, Z.sub_1_r, <- Z.ones_equiv. now rewrite Z.testbit_ones_nonneg by lia.
Qed.

(** ** Histories

    [holds h s]: the committed sequence numbers are [h], newest first, and the
    window remembers exactly those within its width. *)

Record holds (h : list Z) (s : t) : Prop := mkHolds {
  h_width : 1 <= width_ s <= 64;
  h_highest : 0 <= highest_ s <= (if extended_ s then u64_max else u32_max);
  h_range : forall x, x ∈ h -> 0 < x <= highest_ s;
  h_max : highest_ s = 0 \/ highest_ s ∈ h;
  h_bits : forall i, 0 <= i -> Z.testbit (bitmap_ s) i = true <-> i < width_ s /\ highest_ s - i ∈ h
}.

(** What may still be committed. *)
Definition fresh (h : list Z) (s : t) (x : Z) : Prop :=
  0 < x <= (if extended_ s then u64_max else u32_max)
  /\ (highest_ s < x \/ (highest_ s - x < width_ s /\ x ∉ h)).

Lemma holds_construct width extended : 1 <= width <= 64 -> holds [] (construct width extended).
Proof.
  intros Hw. unfold construct. replace (width <=? 64) with true by lia.
  constructor; cbn; try lia; [destruct extended; vm_compute; intuition congruence| |].
  - intros x Hx. now apply not_elem_of_nil in Hx.
  - intros i Hi. rewrite Z.bits_0. split; [done|]. intros [_ Hx]. now apply not_elem_of_nil in Hx.
Qed.

Lemma commit_spec h s x :
  holds h s -> is_u64 x ->
  (fresh h s x /\ (commit s x).1 = true /\ holds (x :: h) (commit s x).2)
  \/ (~ fresh h s x /\ commit s x = (false, s)).
Proof.
  intros [Hw Hh Hr Hm Hb] Hx. unfold commit, fresh.
  replace (width_ s =? 0) with false by lia. cbn [orb].
  destruct (Z.eqb_spec x 0) as [->|Hx0]; [right; split; [lia|done]|]. cbn [orb]. unfold is_u64 in Hx.
  destruct (negb (extended_ s) && (u32_max <? x)) eqn:Emax.
  { bool_to_prop. rewrite E. right. split; [lia|done]. }
  assert (0 < x <= (if extended_ s then u64_max else u32_max)) as Hxm.
  { destruct (extended_ s); cbn in Emax; unfold u64_max; lia. }
  destruct (Z.eqb_spec (highest_ s) 0) as [H0|H0].
  { left. split; [split; [exact Hxm|left; lia]|]. split; [done|]. constructor; cbn; try lia.
    - intros y Hy. apply elem_of_cons in Hy as [->|Hy]; [lia|]. specialize (Hr y Hy). lia.
    - right. left.
    - intros i Hi. change 1 with (2 ^ 0). rewrite Z.pow2_bits_eqb by lia. rewrite Z.eqb_eq. split.
      + intros <-. split; [lia|]. rewrite Z.sub_0_r. left.
      + intros [_ Hy]. apply elem_of_cons in Hy as [Hy|Hy]; [lia|]. specialize (Hr _ Hy). lia. }
  destruct (Z.ltb_spec (highest_ s) x) as [Hlt|Hge].
  - left. split; [split; [exact Hxm|now left]|]. split; [done|]. constructor; cbn; try lia.
    + intros y Hy. apply elem_of_cons in Hy as [->|Hy]; [lia|]. specialize (Hr y Hy). lia.
    + right. left.
    + intros i Hi. rewrite Z.land_spec, active_mask_bit, andb_true_iff, Z.ltb_lt by lia.
      rewrite elem_of_cons. destruct (Z.leb_spec (width_ s) (x - highest_ s)) as [Hfar|Hnear].
      * change 1 with (2 ^ 0). rewrite Z.pow2_bits_eqb, Z.eqb_eq by lia. split.
        -- intros [<- Hi']. split; [lia|]. left. lia.
        -- intros [Hi' [Hy|Hy]]; [lia|]. specialize (Hr _ Hy). lia.
      * change 1 with (Z.shiftl 1 0). rewrite bit_set by lia.
        rewrite orb_true_iff, Z.eqb_eq. unfold u64. change two64 with (2 ^ 64).
        assert (i < width_ s -> Z.testbit (Z.shiftl (bitmap_ s) (x - highest_ s) mod 2 ^ 64) i
          = Z.testbit (bitmap_ s) (i - (x - highest_ s))) as Hs.
        { intros Hi'. rewrite Z.mod_pow2_bits_low, Z.shiftl_spec by lia. done. }
        split.
        -- intros [[Hbit| ->] Hi']; (split; [done|]); [right|left; lia].
           rewrite Hs in Hbit by done.
           destruct (Z.lt_ge_cases (i - (x - highest_ s)) 0); [rewrite Z.testbit_neg_r in Hbit by done; discriminate|].
           apply Hb in Hbit; [|done]. destruct Hbit as [_ Hy].
           now replace (highest_ s - (i - (x - highest_ s))) with (x - i) in Hy by lia.
        -- intros [Hi' Hy]. split; [|done]. destruct Hy as [Hy|Hy]; [right; lia|left].
           rewrite Hs by done. specialize (Hr _ Hy). apply Hb; [lia|]. split; [lia|].
           now replace (highest_ s - (i - (x - highest_ s))) with (x - i) by lia.
  - pose proof (bit_clear (bitmap_ s) (highest_ s - x) ltac:(lia)) as Hc. rewrite Hc, negb_involutive.
    destruct (Z.leb_spec (width_ s) (highest_ s - x)) as [Hfar|Hnear]; cbn [orb].
    { right. split; [lia|done]. }
    pose proof (Hb (highest_ s - x) ltac:(lia)) as Hbx. replace (highest_ s - (highest_ s - x)) with x in Hbx by lia.
    destruct (Z.testbit (bitmap_ s) (highest_ s - x)) eqn:Ebit.
    { right. split; [|done]. destruct Hbx as [[_ Hin] _]; [done|]. intuition lia. }
    assert (x ∉ h) as Hnot by (intros Hin; destruct Hbx as [_ Hbx]; discriminate Hbx; split; [lia|done]).
    left. split; [split; [exact Hxm|now right]|]. split; [done|]. constructor; cbn; try lia.
    + intros y Hy. apply elem_of_cons in Hy as [->|Hy]; [lia|]. now apply Hr.
    + right. right. destruct Hm; [lia|done].
    + intros i Hi. rewrite bit_set, orb_true_iff, Z.eqb_eq, Hb, elem_of_cons by lia. split.
      * intros [[Hi' Hy]| ->]; (split; [lia|]); [now right|left; lia].
      * intros [Hi' [Hy|Hy]]; [right; lia|left; done].
Qed.

(** ** Extended sequence numbers *)

Lemma join_words high low : is_u32 low -> 0 <= high -> Z.lor (Z.shiftl high 32) low = high * two32 + low.
Proof. intros Hl Hh. apply (lor_shiftl high low 32); [lia|]. unfold is_u32 in Hl. change (2 ^ 32) with two32. lia. Qed.

(** The full numbers a low word can stand for: one window below the highest, and
    2^32 from there. *)
Definition near (s : t) (x : Z) : Prop :=
  highest_ s - (width_ s - 1) <= x < highest_ s - (width_ s - 1) + two32.

Lemma reconstruct_spec s low x :
  extended_ s = true -> 1 <= width_ s <= 64 -> 0 < highest_ s <= u64_max -> is_u32 low ->
  reconstruct s low = Some x <-> near s x /\ 0 <= x <= u64_max /\ u32 x = low.
Proof.
  intros He Hw Hh Hl. unfold reconstruct, near. rewrite He.
  replace (width_ s =? 0) with false by lia. replace (highest_ s =? 0) with false by lia.
  cbn [negb orb]. rewrite andb_false_r, Z.shiftr_div_pow2 by lia.
  change (2 ^ 32) with two32. unfold is_u32, u64_max, u32_max, u32 in *.
  set (h := highest_ s) in *. set (w := width_ s) in *. clearbody h w.
  pose proof (Z.div_mod h two32 ltac:(lia)) as Hdm. pose proof (Z.mod_pos_bound h two32 ltac:(lia)) as Hm.
  set (hl := h mod two32) in *. set (hh := h / two32) in *.
  assert (0 <= hh <= 4294967295) as Hhh by lia. clearbody hl hh.
  rewrite (Z.mod_small hh two32), (Z.mod_small (w - 1) two32) by lia.
  destruct (Z.ltb_spec hl (w - 1)) as [Hb|Hb].
  - rewrite (Z.mod_small (4294967295 - (w - 1 - hl) + 1) two32) by lia.
    destruct (Z.leb_spec (4294967295 - (w - 1 - hl) + 1) low) as [Hp|Hp].
    + destruct (Z.eqb_spec hh 0) as [H0|H0].
      * split; [discriminate|lia].
      * rewrite join_words by (unfold is_u32; lia). split; [intros [= <-]|intros H; f_equal]; lia.
    + rewrite join_words by (unfold is_u32; lia). split; [intros [= <-]|intros H; f_equal]; lia.
  - destruct (Z.ltb_spec low (hl - (w - 1))) as [Hp|Hp].
    + destruct (Z.eqb_spec hh 4294967295) as [H0|H0]; [split; [discriminate|lia]|].
      rewrite join_words by (unfold is_u32; lia). split; [intros [= <-]|intros H; f_equal]; lia.
    + rewrite join_words by (unfold is_u32; lia). split; [intros [= <-]|intros H; f_equal]; lia.
Qed.

(** ** Properties *)

(** The sequence numbers a run of [commit]s accepts, newest first. *)
Fixpoint accepted (s : t) (h : list Z) (xs : list Z) : list Z * t :=
  match xs with
  | [] => (h, s)
  | x :: xs => let (ok, s') := commit s x in accepted s' (if ok then x :: h else h) xs
  end.

Lemma accepted_holds xs : forall h s,
  holds h s -> NoDup h -> Forall is_u64 xs ->
  holds (accepted s h xs).1 (accepted s h xs).2 /\ NoDup (accepted s h xs).1.
Proof.
  induction xs as [|x xs IH]; intros h s Hs Hn Hx; [done|].
  apply list.Forall_cons in Hx as [Hx Hxs]. cbn [accepted].
  destruct (commit_spec h s x Hs Hx) as [(Hf & E1 & E2)|[Hf E]].
  - destruct (commit s x) as [ok s']. cbn in E1, E2. subst ok. apply IH; auto. constructor; [|done].
    destruct Hf as [_ [Hlt|[_ Hn']]]; [|done]. intros Hin. apply (h_range _ _ Hs) in Hin. lia.
  - rewrite E. now apply IH.
Qed.

(** C39: whatever authenticated numbers arrive in whatever order, the window
    accepts no number twice; it accepts a number exactly when it is nonzero,
    representable and either above the highest or within the width and not
    accepted before; and for the number a received low word stands for, [check]
    announces what [commit] will do, reporting a duplicate only for an accepted
    number and an old one only below the window.  The one number [check] admits
    and [commit] refuses is zero. *)
Theorem replay_at_most_once width extended xs :
  1 <= width <= 64 -> Forall is_u64 xs ->
  let h := (accepted (construct width extended) [] xs).1 in
  let s := (accepted (construct width extended) [] xs).2 in
  NoDup h
  /\ (forall x, is_u64 x -> (commit s x).1 = true <-> fresh h s x)
  /\ forall low r, is_u32 low -> reconstruct s low = Some r -> 0 < r <= u64_max ->
     sequence (check s low) = r
     /\ (status (check s low) = admissible <-> (commit s r).1 = true)
     /\ (status (check s low) = duplicate <-> r ∈ h /\ highest_ s - r < width_ s)
     /\ (status (check s low) = too_old <-> width_ s <= highest_ s - r).
Proof.
  intros Hw Hxs. cbn zeta.
  destruct (accepted_holds xs [] (construct width extended) (holds_construct width extended Hw)
    (NoDup_nil_2) Hxs) as [Hh Hn].
  destruct (accepted (construct width extended) [] xs) as [h s]. cbn [fst snd] in Hh, Hn |- *.
  assert (forall x, is_u64 x -> (commit s x).1 = true <-> fresh h s x) as Hc.
  { intros x Hx. destruct (commit_spec h s x Hh Hx) as [(Hf & E & _)|[Hf E]]; [tauto|].
    rewrite E. cbn. split; [discriminate|tauto]. }
  split; [done|]. split; [done|]. intros low r Hl Er Hr.
  rewrite (Hc r) by (unfold is_u64; unfold u64_max in Hr; lia). clear Hc.
  assert (r <= (if extended_ s then u64_max else u32_max)) as Hmax.
  { destruct (extended_ s) eqn:He; [lia|]. unfold reconstruct in Er. rewrite He in Er. cbn in Er.
    case_if_in Er; [discriminate|]. injection Er as ->. unfold is_u32, u32_max in *. lia. }
  destruct Hh as [Hws Hhi Hrg Hm Hb]. unfold check, fresh. rewrite Er.
  replace (width_ s =? 0) with false by lia.
  assert (r ∈ h -> r <= highest_ s) as Hin by (intros H; now apply Hrg).
  destruct ((highest_ s =? 0) || (highest_ s <? r)) eqn:E0.
  { assert (highest_ s < r) by (destruct (Z.eqb_spec (highest_ s) 0); cbn in E0; lia).
    cbn. intuition (discriminate || lia). }
  bool_to_prop. rewrite bit_clear, negb_involutive by lia.
  pose proof (Hb (highest_ s - r) ltac:(lia)) as Hbr. replace (highest_ s - (highest_ s - r)) with r in Hbr by lia.
  destruct (Z.leb_spec (width_ s) (highest_ s - r)); cbn [status sequence]; [intuition (discriminate || lia)|].
  destruct (Z.testbit (bitmap_ s) (highest_ s - r)); cbn [status sequence]; intuition (discriminate || lia).
Qed.

(** The receiver recovers the 64-bit number from the 32 bits on the wire: a
    number the sender allocated, at or above the left edge of the window and less
    than 2^32 beyond it, is reconstructed from its low word, and no other number
    is.  The sender's [next] counts up by one and stops for good, without wrapping,
    at the end of the space. *)
Theorem replay_reconstruct s x o :
  extended_ s = true -> 1 <= width_ s <= 64 -> 0 < highest_ s <= u64_max -> 0 <= current_ o <= u64_max ->
  outbound_extended_ o = true ->
  (reconstruct s (u32 x) = Some x <-> near s x /\ 0 <= x <= u64_max)
  /\ (forall y, reconstruct s (u32 x) = Some y -> near s y /\ u32 y = u32 x)
  /\ match next o with
     | (Some y, o') => y = current_ o + 1 /\ current_ o' = y /\ current_ o < y <= u64_max
                       /\ (near s y -> reconstruct s (u32 y) = Some y)
     | (None, o') => current_ o = u64_max /\ o' = o
     end.
Proof.
  intros He Hw Hh Ho Hoe. pose proof (u32_range x) as Hx.
  split; [rewrite reconstruct_spec by auto with word; tauto|].
  split; [intros y Hy; apply reconstruct_spec in Hy; auto with word; tauto|].
  unfold next. rewrite Hoe. destruct (Z.eqb_spec (current_ o) u64_max) as [E|E]; [done|].
  cbn. split_and!; try lia; auto. intros Hn. apply reconstruct_spec; auto with word. split_and!; auto; lia.
Qed.

(** The wrap of the low word, and a duplicate. *)
Definition wrapping : t := mk 4294967299 1 64 true.

Example replay_reconstruct_witness :
  reconstruct wrapping (u32 4294967290) = Some 4294967290 /\ reconstruct wrapping 100 = Some 4294967396.
Proof.
  destruct (replay_reconstruct wrapping 4294967290 (mkOutbound 4294967395 true)) as (H1 & _ & H2);
    try (vm_compute; intuition congruence).
Defined.

Example replay_at_most_once_witness :
  NoDup (accepted (construct 64 false) [] [5; 3; 5; 9; 3; 80; 9; 81]).1
  /\ (accepted (construct 64 false) [] [5; 3; 5; 9; 3; 80; 9; 81]).1 = [81; 80; 9; 3; 5].
Proof.
  split; [|vm_compute; reflexivity].
  apply (replay_at_most_once 64 false [5; 3; 5; 9; 3; 80; 9; 81]); [lia|].
  repeat constructor; vm_compute; congruence.
Defined.

(** Sequence number zero, which no sender allocates, passes [check] of a young
    extended window; only [commit] stops it. *)
Example check_admits_zero :
  check (accepted (construct 64 true) [] [5]).2 0 = mkCandidate admissible 0
  /\ (commit (accepted (construct 64 true) [] [5]).2 0).1 = false.
Proof. vm_compute. done. Qed.
End Replay.
