(* ===== verification/Spf.v ===== *)
(** * OSPF shortest paths (core/src/ospf/ospf_spf.cpp)

    The indexed graph, the candidate queue with revisions, and the published
    distances and first-hop sets. *)

From S2P Require Import Prelude Catalog Arena.
Import Arena.

Module Spf.

Definition ls_infinity : Z := 16777215.
Definition no_first_hop : Z := 65535.
Definition first_hop_word_count : Z := (Catalog.maximum_ecmp_paths + 63) / 64.

Record SpfVertex := mkVertex { first_edge : Z; edge_count : Z }.
Record SpfEdge := mkEdge { target_vertex : Z; cost : Z; first_hop : Z }.

Record VertexState := mkState { first_hops : list Z; distance : Z; revision : Z }.
#[export] Instance state_settable : Settable VertexState := fun s =>
  mkState (first_hops s) (distance s) (revision s).
Definition initial_state : VertexState :=
  mkState (replicate (Z.to_nat first_hop_word_count) 0) ls_infinity 0.
#[export] Instance state_inhabited : Inhabited VertexState := populate initial_state.
#[export] Instance vertex_inhabited : Inhabited SpfVertex := populate (mkVertex 0 0).

Record Candidate := mkCandidate { at_distance : Z; vertex : Z; at_revision : Z }.

Record t := mk {
  published_ : list VertexState;
  scratch_ : list VertexState;
  candidates_ : list Candidate;
  maximum_vertices_ : Z;
  maximum_pending_candidates_ : Z;
  published_count_ : Z;
  published_first_hop_count_ : Z
}.

Definition construct (maximum_vertices maximum_pending_candidates : Z) : t :=
  mk [] [] [] maximum_vertices maximum_pending_candidates 0 0.

(** The edges of a vertex, [edges.subspan(first_edge, edge_count)]. *)
Definition outgoing (edges : list SpfEdge) (v : SpfVertex) : list SpfEdge :=
  take (Z.to_nat (edge_count v)) (drop (Z.to_nat (first_edge v)) edges).

Definition edge_valid (vertices : list SpfVertex) (first_hop_count_value : Z) (e : SpfEdge) : bool :=
  negb ((size vertices <=? target_vertex e) || (ls_infinity <=? cost e)
        || (negb (first_hop e =? no_first_hop) && (first_hop_count_value <=? first_hop e))).

Definition input_valid (s : t) (root_vertex : Z) (vertices : list SpfVertex) (edges : list SpfEdge)
    (first_hop_count_value : Z) : bool :=
  negb ((size vertices =? 0) || (maximum_vertices_ s <? size vertices) || (size vertices <=? root_vertex)
        || (maximum_pending_candidates_ s =? 0) || (Catalog.maximum_ecmp_paths <? first_hop_count_value))
  && forallb (fun v =>
       negb ((size edges <? first_edge v) || (size edges - first_edge v <? edge_count v))
       && forallb (edge_valid vertices first_hop_count_value) (outgoing edges v)) vertices.

(** The comparison of the heap: [left] comes after [right]. *)
Definition candidate_later (left right : Candidate) : bool :=
  (at_distance right <? at_distance left)
  || ((at_distance left =? at_distance right) && (vertex right <? vertex left)).

(** [std::pop_heap] and [pop_back]: a candidate that comes after no other, and the
    rest.  Which of several candidates for one vertex at one distance comes first is
    left open by the standard; here it is the latest pushed. *)
Fixpoint pop_candidate (l : list Candidate) : option (Candidate * list Candidate) :=
  match l with
  | [] => None
  | c :: l =>
      match pop_candidate l with
      | None => Some (c, [])
      | Some (best, rest) => if candidate_later c best then Some (best, c :: rest) else Some (c, best :: rest)
      end
  end.

Definition has_hop (hops : list Z) : bool := existsb (fun word => negb (word =? 0)) hops.

(** The first hops a path gets when it is extended by an edge. *)
Definition extend_hops (hops : list Z) (e : SpfEdge) : list Z :=
  if negb (first_hop e =? no_first_hop) && negb (has_hop hops)
  then put hops (first_hop e / 64) (Z.lor (get hops (first_hop e / 64)) (Z.shiftl 1 (first_hop e mod 64)))
  else hops.

Definition merge_hops (left right : list Z) : list Z := zip_with Z.lor left right.

(** The body of the edge loop, for the vertex [v] being processed: the result is
    false when the queue is full. *)
Definition relax_edge (maximum v : Z) (e : SpfEdge) (scratch : list VertexState) (candidates : list Candidate)
    : bool * list VertexState * list Candidate :=
  let current := get scratch v in
  if ls_infinity - cost e <=? distance current then (true, scratch, candidates)
  else
    let proposed_distance := distance current + cost e in
    let proposed_hops := extend_hops (first_hops current) e in
    let target := get scratch (target_vertex e) in
    let '(changed, target) :=
      if proposed_distance <? distance target
      then (true, target <| distance := proposed_distance |> <| first_hops := proposed_hops |>)
      else if proposed_distance =? distance target
      then let merged := merge_hops (first_hops target) proposed_hops in
           (negb (bool_decide (merged = first_hops target)), target <| first_hops := merged |>)
      else (false, target) in
    if negb changed then (true, put scratch (target_vertex e) target, candidates)
    else
      let target := target <| revision := u32 (revision target + 1) |> in
      let scratch := put scratch (target_vertex e) target in
      if maximum <=? size candidates then (false, scratch, candidates)
      else (true, scratch, candidates ++ [mkCandidate (distance target) (target_vertex e) (revision target)]).

Fixpoint relax_edges (maximum v : Z) (es : list SpfEdge) (scratch : list VertexState) (candidates : list Candidate)
    : bool * list VertexState * list Candidate :=
  match es with
  | [] => (true, scratch, candidates)
  | e :: es =>
      match relax_edge maximum v e scratch candidates with
      | (false, scratch, candidates) => (false, scratch, candidates)
      | (true, scratch, candidates) => relax_edges maximum v es scratch candidates
      end
  end.

(** The while loop; [None] when the fuel does not reach the end of the queue. *)
Fixpoint process (fuel : nat) (maximum : Z) (vertices : list SpfVertex) (edges : list SpfEdge)
    (scratch : list VertexState) (candidates : list Candidate)
    : option (bool * list VertexState * list Candidate) :=
  match fuel with
  | O => None
  | S fuel =>
      match pop_candidate candidates with
      | None => Some (true, scratch, candidates)
      | Some (c, candidates) =>
          let current := get scratch (vertex c) in
          if negb (at_distance c =? distance current) || negb (at_revision c =? revision current)
          then process fuel maximum vertices edges scratch candidates
          else
            match relax_edges maximum (vertex c) (outgoing edges (get vertices (vertex c))) scratch candidates with
            | (false, scratch, candidates) => Some (false, scratch, candidates)
            | (true, scratch, candidates) => process fuel maximum vertices edges scratch candidates
            end
      end
  end.

Definition start (root_vertex : Z) (vertices : list SpfVertex) : list VertexState * list Candidate :=
  (put (replicate (length vertices) initial_state) root_vertex
     (initial_state <| distance := 0 |> <| revision := 1 |>),
   [mkCandidate 0 root_vertex 1]).

Definition calculate (fuel : nat) (s : t) (root_vertex : Z) (vertices : list SpfVertex) (edges : list SpfEdge)
    (first_hop_count_value : Z) : option (bool * t) :=
  if negb (input_valid s root_vertex vertices edges first_hop_count_value) then Some (false, s)
  else
    let '(scratch, candidates) := start root_vertex vertices in
    match process fuel (maximum_pending_candidates_ s) vertices edges scratch candidates with
    | None => None
    | Some (false, scratch, candidates) =>
        Some (false, mk (published_ s) scratch candidates (maximum_vertices_ s) (maximum_pending_candidates_ s)
                       (published_count_ s) (published_first_hop_count_ s))
    | Some (true, scratch, candidates) =>
        Some (true, mk scratch (published_ s) candidates (maximum_vertices_ s) (maximum_pending_candidates_ s)
                      (size vertices) first_hop_count_value)
    end.

(** ** Queries *)

Definition reachable (s : t) (v : Z) : bool :=
  (v <? published_count_ s) && (distance (get (published_ s) v) <? ls_infinity).

Definition cost_of (s : t) (v : Z) : option Z :=
  if reachable s v then Some (distance (get (published_ s) v)) else None.

Definition popcount (word : Z) : Z :=
  Z.of_nat (length (filter (fun i => Z.testbit word (Z.of_nat i) = true) (seq 0 64))).

Definition first_hop_count (s : t) (v : Z) : Z :=
  if negb (reachable s v) then 0
  else fold_left (fun result word => result + popcount word) (first_hops (get (published_ s) v)) 0.

Definition hop_bit (hops : list Z) (index : Z) : bool :=
  negb (Z.land (get hops (index / 64)) (Z.shiftl 1 (index mod 64)) =? 0).

Fixpoint find_hop (hops : list Z) (indices : list Z) (ordinal seen : Z) : option Z :=
  match indices with
  | [] => None
  | index :: indices =>
      if negb (hop_bit hops index) then find_hop hops indices ordinal seen
      else if seen =? ordinal then Some index else find_hop hops indices ordinal (seen + 1)
  end.

Definition first_hop_at (s : t) (v ordinal : Z) : option Z :=
  if negb (reachable s v) then None
  else find_hop (first_hops (get (published_ s) v))
         (Z.of_nat <$> seq 0 (Z.to_nat (published_first_hop_count_ s))) ordinal 0.

(** ** First-hop sets *)

(** Two words of 64 bits. *)
Definition hops_ok (hops : list Z) : Prop := length hops = 2%nat /\ Forall is_u64 hops.
Definition hop_in (hops : list Z) (h : Z) : bool := Z.testbit (get hops (h / 64)) (h mod 64).

Lemma hops_ok_two hops : hops_ok hops -> exists a b, hops = [a; b] /\ is_u64 a /\ is_u64 b.
Proof.
  intros [Hl Hf]. destruct hops as [|a [|b [|c hops]]]; try discriminate. exists a, b.
  apply list.Forall_cons in Hf as [Ha Hf]. apply list.Forall_cons in Hf as [Hb _]. done.
Qed.

Lemma testbit_u64_high a i : is_u64 a -> 64 <= i -> Z.testbit a i = false.
Proof.
  intros Ha Hi. unfold is_u64 in Ha. rewrite <- (Z.mod_small a (2 ^ 64)) by lia.
  apply Z.mod_pow2_bits_high. lia.
Qed.

Lemma u64_bits a : (forall i, 64 <= i -> Z.testbit a i = false) -> 0 <= a -> is_u64 a.
Proof.
  intros H Ha. unfold is_u64. split; [done|]. replace a with (a mod 2 ^ 64); [apply Z.mod_pos_bound; lia|].
  apply Z.bits_inj'. intros i Hi. destruct (Z.lt_ge_cases i 64).
  - now rewrite Z.mod_pow2_bits_low by lia.
  - rewrite Z.mod_pow2_bits_high by lia. symmetry. now apply H.
Qed.

Lemma lor_u64 a b : is_u64 a -> is_u64 b -> is_u64 (Z.lor a b).
Proof.
  intros Ha Hb. apply u64_bits; [|apply Z.lor_nonneg; unfold is_u64 in *; lia].
  intros i Hi. now rewrite Z.lor_spec, !testbit_u64_high.
Qed.

Lemma bit_u64 i : 0 <= i < 64 -> is_u64 (Z.shiftl 1 i).
Proof.
  intros Hi. apply u64_bits; [|rewrite Z.shiftl_1_l; apply Z.pow_nonneg; lia].
  intros k Hk. rewrite Z.shiftl_1_l, Z.pow2_bits_eqb by lia. lia.
Qed.

Lemma lor_le a b : is_u64 a -> is_u64 b -> a <= Z.lor a b /\ (Z.lor a b = a -> forall i, Z.testbit b i = true -> Z.testbit a i = true).
Proof.
  intros Ha Hb. split.
  - assert (Z.lor a b = a + Z.ldiff b a) as ->.
    { rewrite Z.add_nocarry_lxor.
      - apply Z.bits_inj'. intros i Hi. rewrite Z.lor_spec, Z.lxor_spec, Z.ldiff_spec.
        now destruct (Z.testbit a i), (Z.testbit b i).
      - apply Z.bits_inj'. intros i Hi. rewrite Z.land_spec, Z.ldiff_spec, Z.bits_0.
        now destruct (Z.testbit a i), (Z.testbit b i). }
    pose proof (proj2 (Z.ldiff_nonneg b a)) as H. unfold is_u64 in *. specialize (H ltac:(lia)). lia.
  - intros E i Hi. rewrite <- E, Z.lor_spec, Hi. apply orb_true_r.
Qed.

Definition weight (hops : list Z) : Z := get hops 0 + get hops 1.

Lemma hop_in_two a b h :
  0 <= h < 128 -> hop_in [a; b] h = if h <? 64 then Z.testbit a h else Z.testbit b (h - 64).
Proof.
  intros Hh. unfold hop_in. destruct (Z.ltb_spec h 64) as [H|H].
  - replace (h / 64) with 0 by lia. now replace (h mod 64) with h by lia.
  - replace (h / 64) with 1 by lia. now replace (h mod 64) with (h - 64) by lia.
Qed.

Lemma put_first (a b x : Z) : put [a; b] 0 x = [x; b].
Proof. done. Qed.

Lemma put_second (a b x : Z) : put [a; b] 1 x = [a; x].
Proof. done. Qed.

Lemma merge_hops_spec left right :
  hops_ok left -> hops_ok right ->
  hops_ok (merge_hops left right)
  /\ (forall h, 0 <= h < 128 -> hop_in (merge_hops left right) h = hop_in left h || hop_in right h)
  /\ (merge_hops left right <> left -> weight left < weight (merge_hops left right))
  /\ (merge_hops left right = left -> forall h, 0 <= h < 128 -> hop_in right h = true -> hop_in left h = true).
Proof.
  intros Hl Hr. destruct (hops_ok_two _ Hl) as (a & b & -> & Ha & Hb).
  destruct (hops_ok_two _ Hr) as (c & d & -> & Hc & Hd). unfold merge_hops. cbn [zip_with].
  destruct (lor_le a c Ha Hc) as [Hac Eac], (lor_le b d Hb Hd) as [Hbd Ebd].
  split_and!.
  - split; [done|]. repeat constructor; now apply lor_u64.
  - intros h Hh. rewrite !hop_in_two by done. rewrite !Z.lor_spec. now case_if.
  - intros Hne. change (a + b < Z.lor a c + Z.lor b d).
    destruct (Z.eq_dec (Z.lor a c) a), (Z.eq_dec (Z.lor b d) b); try lia. congruence.
  - intros [= E1 E2] h Hh. rewrite !hop_in_two by done. case_if; auto.
Qed.

Lemma has_hop_spec hops :
  hops_ok hops -> has_hop hops = true <-> exists h, 0 <= h < 128 /\ hop_in hops h = true.
Proof.
  intros Ho. destruct (hops_ok_two _ Ho) as (a & b & -> & Ha & Hb). cbn [has_hop existsb].
  rewrite orb_false_r, orb_true_iff, !negb_true_iff, !Z.eqb_neq.
  assert (forall w, is_u64 w -> w <> 0 -> exists i, 0 <= i < 64 /\ Z.testbit w i = true) as Hbit.
  { intros w Hw Hne. exists (Z.log2 w). unfold is_u64 in Hw. split; [|apply Z.bit_log2; lia].
    split; [apply Z.log2_nonneg|]. apply Z.log2_lt_pow2; lia. }
  split.
  - intros [Hne|Hne].
    + destruct (Hbit a Ha Hne) as (i & Hi & E). exists i. split; [lia|]. rewrite hop_in_two by lia.
      now rewrite (proj2 (Z.ltb_lt i 64)) by lia.
    + destruct (Hbit b Hb Hne) as (i & Hi & E). exists (64 + i). split; [lia|]. rewrite hop_in_two by lia.
      rewrite (proj2 (Z.ltb_ge (64 + i) 64)) by lia. now replace (64 + i - 64) with i by lia.
  - intros (h & Hh & E). rewrite hop_in_two in E by done.
    destruct (h <? 64); [left|right]; intros ->; now rewrite Z.bits_0 in E.
Qed.

(** What a path's first hop becomes along an edge. *)
Definition first_token (token : option Z) (e : SpfEdge) : option Z :=
  match token with
  | Some h => Some h
  | None => if first_hop e =? no_first_hop then None else Some (first_hop e)
  end.

Lemma extend_hops_spec hops e :
  hops_ok hops -> first_hop e = no_first_hop \/ 0 <= first_hop e < 128 ->
  hops_ok (extend_hops hops e)
  /\ (has_hop (extend_hops hops e) = false -> has_hop hops = false /\ first_token None e = None)
  /\ (forall h, 0 <= h < 128 -> hop_in (extend_hops hops e) h = true <->
       hop_in hops h = true \/ (has_hop hops = false /\ first_token None e = Some h)).
Proof.
  intros Ho He. unfold extend_hops, first_token.
  destruct (Z.eqb_spec (first_hop e) no_first_hop) as [Hno|Hyes]; cbn [negb andb].
  { split_and!; auto. intros h _. intuition discriminate. }
  destruct (has_hop hops) eqn:Hh; cbn [negb].
  { split_and!; auto; [rewrite Hh; discriminate|]. intros h _. intuition discriminate. }
  destruct He as [|He]; [done|]. destruct (hops_ok_two _ Ho) as (a & b & -> & Ha & Hb).
  cbn [has_hop existsb] in Hh. rewrite !orb_false_iff, !negb_false_iff, !Z.eqb_eq in Hh.
  destruct Hh as [-> [-> _]]. set (f := first_hop e) in *.
  assert (forall h, 0 <= h < 128 -> Z.testbit 0 h = false) as H0 by (intros; apply Z.bits_0).
  assert (hops_ok (put [0; 0] (f / 64) (Z.lor (get [0; 0] (f / 64)) (Z.shiftl 1 (f mod 64))))
    /\ forall h, 0 <= h < 128 ->
       hop_in (put [0; 0] (f / 64) (Z.lor (get [0; 0] (f / 64)) (Z.shiftl 1 (f mod 64)))) h = (h =? f)) as [Hp1 Hp2].
  { pose proof (bit_u64 (f mod 64) ltac:(lia)) as Hbu.
    destruct (Z.lt_ge_cases f 64).
    - replace (f / 64) with 0 in * by lia. change (get [0; 0] 0) with 0. rewrite Z.lor_0_l, put_first. split; [split; [done|rewrite !list.Forall_cons; auto]|].
      intros h Hh. rewrite hop_in_two by done. rewrite Z.bits_0, Z.shiftl_1_l.
      case_if; [rewrite Z.pow2_bits_eqb by lia|]; lia.
    - replace (f / 64) with 1 in * by lia. change (get [0; 0] 1) with 0. rewrite Z.lor_0_l, put_second. split; [split; [done|rewrite !list.Forall_cons; auto]|].
      intros h Hh. rewrite hop_in_two by done. rewrite Z.bits_0, Z.shiftl_1_l.
      case_if; [lia|rewrite Z.pow2_bits_eqb by lia; lia]. }
  split_and!; [done| |].
  - intros Hn. exfalso. apply eq_true_false_abs with (has_hop (put [0; 0] (f / 64)
      (Z.lor (get [0; 0] (f / 64)) (Z.shiftl 1 (f mod 64))))); [|done].
    apply has_hop_spec; [done|]. exists f. rewrite Hp2 by done. split; [done|apply Z.eqb_refl].
  - intros h Hh. rewrite Hp2 by done. rewrite hop_in_two by done. rewrite !Z.bits_0, Z.eqb_eq.
    split; [intros ->; auto|]. case_if; intros [|[_ [=]]]; done.
Qed.

(** ** Paths *)

Section Graph.
Context (root : Z) (vertices : list SpfVertex) (edges : list SpfEdge) (maximum : Z).
Implicit Types (scratch : list VertexState) (candidates : list Candidate) (e : SpfEdge).

Definition out (v : Z) : list SpfEdge := outgoing edges (get vertices v).

(** What [input_valid] establishes. *)
Record graph_ok : Prop := mkGraph {
  graph_root : 0 <= root < size vertices;
  graph_edge : forall v e, 0 <= v < size vertices -> e ∈ out v ->
    0 <= target_vertex e < size vertices /\ 0 <= cost e < ls_infinity
    /\ (first_hop e = no_first_hop \/ 0 <= first_hop e < 128)
}.

(** A walk from the root: its end, its cost, and the first forwarding token on it. *)
Inductive walk : Z -> Z -> option Z -> Prop :=
| walk_root : walk root 0 None
| walk_step v d token e :
    walk v d token -> e ∈ out v -> d + cost e < ls_infinity ->
    walk (target_vertex e) (d + cost e) (first_token token e).

Definition state scratch (v : Z) : VertexState := get scratch v.
Definition dist scratch (v : Z) : Z := distance (state scratch v).
Definition hops scratch (v : Z) : list Z := first_hops (state scratch v).

(** Every recorded distance and first hop belongs to a walk. *)
Definition sound_state (v : Z) (x : VertexState) : Prop :=
  hops_ok (first_hops x) /\ 0 <= distance x <= ls_infinity
  /\ (distance x < ls_infinity ->
      (has_hop (first_hops x) = false -> walk v (distance x) None)
      /\ forall h, 0 <= h < 128 -> hop_in (first_hops x) h = true -> walk v (distance x) (Some h)).

Record sane scratch : Prop := mkSane {
  sane_size : size scratch = size vertices;
  sane_root : dist scratch root = 0;
  sane_state : forall v, 0 <= v < size vertices -> sound_state v (state scratch v)
}.

(** The edge has nothing left to tell its target. *)
Definition relaxed scratch (v : Z) e : Prop :=
  let w := target_vertex e in
  ls_infinity <= dist scratch v + cost e \/ dist scratch w < dist scratch v + cost e
  \/ (dist scratch w = dist scratch v + cost e
      /\ forall h, 0 <= h < 128 -> hop_in (extend_hops (hops scratch v) e) h = true -> hop_in (hops scratch w) h = true).

Definition pending scratch candidates (v : Z) : Prop :=
  exists c, c ∈ candidates /\ vertex c = v /\ at_distance c = dist scratch v
    /\ at_revision c = revision (state scratch v).

(** The new state of a vertex tells more than the old one. *)
Definition improves (x y : VertexState) : Prop :=
  distance y < distance x
  \/ (distance y = distance x /\ forall h, 0 <= h < 128 -> hop_in (first_hops x) h = true -> hop_in (first_hops y) h = true).

Lemma sound_proposal scratch v e :
  graph_ok -> sane scratch -> 0 <= v < size vertices -> e ∈ out v ->
  dist scratch v + cost e < ls_infinity ->
  let x := mkState (extend_hops (hops scratch v) e) (dist scratch v + cost e) 0 in
  sound_state (target_vertex e) x.
Proof.
  intros G Hs Hv He Hd. destruct (graph_edge G v e Hv He) as (Hw & Hc & Hf).
  destruct (sane_state _ Hs v Hv) as (Ho & Hr & Hwalk). fold (hops scratch v) (dist scratch v) in *.
  destruct (Hwalk ltac:(lia)) as [Hn Hh].
  destruct (extend_hops_spec (hops scratch v) e Ho Hf) as (E1 & E2 & E3).
  cbn. split; [done|]. split; [cbn; lia|]. intros _. cbn [first_hops distance]. split.
  - intros E. destruct (E2 E) as [E4 E5]. rewrite <- E5. apply walk_step with v; auto.
  - intros h Hh' Hin. apply E3 in Hin; [|done]. destruct Hin as [Hin|[E4 E5]].
    + change (Some h) with (first_token (Some h) e). apply walk_step with v; auto.
    + rewrite <- E5. apply walk_step with v; auto.
Qed.

Lemma state_put scratch w v x :
  size scratch = size vertices -> 0 <= w < size vertices -> 0 <= v ->
  state (put scratch w x) v = if w =? v then x else state scratch v.
Proof. intros Hs Hw Hv. apply get_put; [lia|done]. Qed.

(** Replacing one vertex state by a better sound one. *)
Lemma sane_put scratch w x :
  graph_ok -> sane scratch -> 0 <= w < size vertices -> sound_state w x -> improves (state scratch w) x ->
  sane (put scratch w x).
Proof.
  intros G Hs Hw Hx Hi. pose proof (sane_size _ Hs) as Hsz. pose proof (graph_root G) as Hr. constructor.
  - now rewrite size_put.
  - unfold dist. rewrite state_put by (done || lia). pose proof (sane_root _ Hs) as Hd. unfold dist in Hd.
    destruct (Z.eqb_spec w root) as [->|]; [|done].
    destruct Hx as (_ & Hx & _). destruct Hi as [Hi|[Hi _]]; lia.
  - intros v Hv. rewrite state_put by (done || lia). case_if; [subst|]; auto. now apply (sane_state _ Hs).
Qed.

Lemma relaxed_put scratch w x v e :
  sane scratch -> graph_ok -> 0 <= w < size vertices -> 0 <= v < size vertices -> e ∈ out v -> v <> w ->
  improves (state scratch w) x -> relaxed scratch v e -> relaxed (put scratch w x) v e.
Proof.
  intros Hs G Hw Hv He Hne Hi Hr. destruct (graph_edge G v e Hv He) as (Ht & _ & _).
  pose proof (sane_size _ Hs) as Hsz. unfold relaxed, dist, hops in *.
  rewrite !state_put by (done || lia). replace (w =? v) with false by lia.
  destruct (Z.eqb_spec w (target_vertex e)) as [->|]; [|done].
  destruct Hi as [Hlt|[Heq Hsub]]; destruct Hr as [Hr|[Hr|[Hr Hh]]]; [left; done|right; left; lia..|left; done| |].
  - right. left. lia.
  - right. right. split; [lia|]. auto.
Qed.

Lemma pending_put scratch candidates w x v :
  size scratch = size vertices -> 0 <= w < size vertices -> 0 <= v -> v <> w ->
  pending scratch candidates v -> pending (put scratch w x) candidates v.
Proof.
  intros Hs Hw Hv Hne (c & Hc & E1 & E2 & E3). exists c. unfold dist. rewrite state_put by done.
  now rewrite (proj2 (Z.eqb_neq w v)) by lia.
Qed.

(** *** Potential *)

Definition vertex_potential (x : VertexState) : Z := (distance x + 1) * 2 ^ 66 - weight (first_hops x).
Definition potential scratch : Z := fold_right (fun x sum => vertex_potential x + sum) 0 scratch.

Lemma weight_range l : hops_ok l -> 0 <= weight l < 2 ^ 65.
Proof.
  intros Ho. destruct (hops_ok_two _ Ho) as (a & b & -> & Ha & Hb). unfold is_u64 in *.
  change (weight [a; b]) with (a + b). lia.
Qed.

Lemma potential_cons x l : potential (x :: l) = vertex_potential x + potential l.
Proof. done. Qed.

Lemma potential_app l l' : potential (l ++ l') = potential l + potential l'.
Proof. induction l as [|x l IH]; [done|]. cbn [app]. rewrite !potential_cons, IH. lia. Qed.

Lemma potential_put scratch w x :
  0 <= w < size scratch ->
  potential (put scratch w x) = potential scratch - vertex_potential (state scratch w) + vertex_potential x.
Proof.
  intros Hw. unfold size in Hw.
  destruct (lookup_lt_is_Some_2 scratch (Z.to_nat w) ltac:(lia)) as [y Hy].
  assert (state scratch w = y) as -> by (unfold state, get; now apply list_lookup_total_correct).
  unfold put. rewrite <- (take_drop_middle scratch (Z.to_nat w) y Hy) at 2.
  rewrite insert_take_drop by lia. rewrite !potential_app, !potential_cons. lia.
Qed.

Lemma potential_lt x y :
  hops_ok (first_hops x) -> hops_ok (first_hops y) ->
  distance y < distance x \/ (distance y = distance x /\ weight (first_hops x) < weight (first_hops y)) ->
  vertex_potential y < vertex_potential x.
Proof.
  intros Hx Hy H. pose proof (weight_range _ Hx). pose proof (weight_range _ Hy). unfold vertex_potential.
  destruct H as [H|[E1 E2]]; [|rewrite E1; lia]. lia.
Qed.

Lemma potential_nonneg scratch :
  (forall v, 0 <= v < size scratch -> sound_state v (state scratch v)) -> 0 <= potential scratch.
Proof.
  intros H. assert (Forall (fun x => 0 <= vertex_potential x) scratch) as Hf.
  { apply list.Forall_lookup. intros i x Hx. pose proof (lookup_lt_Some _ _ _ Hx) as Hlt.
    destruct (H (Z.of_nat i) ltac:(unfold size; lia)) as (Ho & Hd & _).
    assert (state scratch (Z.of_nat i) = x) as E by (unfold state, get; rewrite Nat2Z.id; now apply list_lookup_total_correct).
    rewrite E in Ho, Hd. pose proof (weight_range _ Ho). unfold vertex_potential. lia. }
  clear H. induction Hf; [done|]. rewrite potential_cons. lia.
Qed.

(** *** One edge *)

(** The target is told nothing new, or gets a better state and is queued. *)
Definition told scratch candidates v e (ok : bool) scratch' candidates' : Prop :=
  (ok = true /\ scratch' = scratch /\ candidates' = candidates /\ relaxed scratch v e)
  \/ exists x, let w := target_vertex e in
     scratch' = put scratch w x /\ sound_state w x /\ improves (state scratch w) x
     /\ potential scratch' < potential scratch
     /\ (ok = true -> candidates' = candidates ++ [mkCandidate (distance x) w (revision x)])
     /\ (v <> w -> relaxed scratch' v e).

Lemma put_state_id scratch w x : 0 <= w < size scratch -> x = state scratch w -> put scratch w x = scratch.
Proof.
  intros Hw ->. unfold put, state, get. apply list_insert_id. unfold size in Hw.
  apply list_lookup_lookup_total_lt. lia.
Qed.

Lemma told_change scratch candidates v e x candidates' ok :
  graph_ok -> sane scratch -> 0 <= v < size vertices -> e ∈ out v ->
  dist scratch v + cost e < ls_infinity ->
  let w := target_vertex e in
  sound_state w x -> distance x = dist scratch v + cost e ->
  (forall h, 0 <= h < 128 -> hop_in (extend_hops (hops scratch v) e) h = true -> hop_in (first_hops x) h = true) ->
  improves (state scratch w) x ->
  distance x < dist scratch w \/ weight (hops scratch w) < weight (first_hops x) ->
  (ok = true -> candidates' = candidates ++ [mkCandidate (distance x) w (revision x)]) ->
  sane (put scratch w x) /\ told scratch candidates v e ok (put scratch w x) candidates'.
Proof.
  intros G Hs Hv He Hd w Hx Hdx Hhx Hi Hp Hc. destruct (graph_edge G v e Hv He) as (Hw & _ & _). fold w in Hw.
  pose proof (sane_size _ Hs) as Hsz. split; [now apply sane_put|]. right. exists x. cbn zeta. fold w.
  split_and!; auto.
  - rewrite potential_put by (rewrite Hsz; done).
    destruct (sane_state _ Hs w Hw) as (Ho & Hr & _). destruct Hx as (Ho' & Hr' & _).
    assert (vertex_potential x < vertex_potential (state scratch w)); [|lia]. apply potential_lt; auto.
    unfold improves, dist, hops in *. destruct Hi as [|[Hi _]]; [now left|]. right. lia.
  - intros Hne. unfold relaxed, dist, hops. fold w. rewrite !state_put by (done || lia).
    rewrite Z.eqb_refl, (proj2 (Z.eqb_neq w v)) by lia. fold (dist scratch v) (hops scratch v).
    right. right. split; [done|exact Hhx].
Qed.

Lemma relax_edge_spec scratch candidates v e :
  graph_ok -> sane scratch -> 0 <= v < size vertices -> e ∈ out v ->
  let '(ok, scratch', candidates') := relax_edge maximum v e scratch candidates in
  sane scratch' /\ told scratch candidates v e ok scratch' candidates'.
Proof.
  intros G Hs Hv He. destruct (graph_edge G v e Hv He) as (Hw & Hc & Hf).
  pose proof (sane_size _ Hs) as Hsz. unfold relax_edge. fold (state scratch v).
  fold (state scratch (target_vertex e)). fold (dist scratch v) (hops scratch v).
  destruct (Z.leb_spec (ls_infinity - cost e) (dist scratch v)) as [Hinf|Hfin].
  { split; [done|]. left. split_and!; auto. left. lia. }
  set (w := target_vertex e) in *.
  pose proof (sound_proposal scratch v e G Hs Hv He ltac:(lia)) as Hprop. cbn zeta in Hprop. fold w in Hprop.
  pose proof (sane_state _ Hs w Hw) as (Ho & Hr & Hwalk). fold (hops scratch w) (dist scratch w) in *.
  assert (hops_ok (extend_hops (hops scratch v) e)) as Hop by apply Hprop.
  assert (forall x candidates' ok, sound_state w x -> distance x = dist scratch v + cost e ->
    (forall h, 0 <= h < 128 -> hop_in (extend_hops (hops scratch v) e) h = true -> hop_in (first_hops x) h = true) ->
    improves (state scratch w) x ->
    distance x < dist scratch w \/ weight (hops scratch w) < weight (first_hops x) ->
    (ok = true -> candidates' = candidates ++ [mkCandidate (distance x) w (revision x)]) ->
    sane (put scratch w x) /\ told scratch candidates v e ok (put scratch w x) candidates') as Hchange
    by (intros; apply told_change; auto; lia).
  destruct (Z.ltb_spec (dist scratch v + cost e) (dist scratch w)) as [Hlt|Hge]; cbn [negb].
  - case_if; apply Hchange; cbn; auto; try discriminate; now left.
  - destruct (Z.eqb_spec (dist scratch v + cost e) (dist scratch w)) as [Heq|Hne].
    + destruct (merge_hops_spec (hops scratch w) (extend_hops (hops scratch v) e) Ho Hop) as (M1 & M2 & M3 & M4).
      case_bool_decide as Em; cbn [negb].
      * rewrite put_state_id; [|lia|]. 2:{ cbn. fold (hops scratch w). rewrite Em. unfold hops. now destruct (state scratch w). }
        split; [done|]. left. split_and!; auto. right. right. split; [done|]. now apply M4.
      * assert (sound_state w (mkState (merge_hops (hops scratch w) (extend_hops (hops scratch v) e))
          (dist scratch w) 0)) as Hmerged.
        { destruct Hprop as (_ & _ & Hpw). split; [done|]. split; [done|]. cbn [distance first_hops] in *.
          intros Hd. destruct (Hwalk Hd) as [W1 W2]. destruct (Hpw ltac:(lia)) as [P1 P2]. rewrite <- Heq in *. split.
          - intros Hno. apply W1. apply not_true_iff_false. rewrite has_hop_spec by done. intros (h & Hh & Hin).
            apply eq_true_false_abs with (2 := Hno). apply has_hop_spec; [done|]. exists h. split; [done|].
            rewrite M2, Hin by done. done.
          - intros h Hh Hin. rewrite M2 in Hin by done. apply orb_true_iff in Hin as [Hin|Hin]; auto. }
        case_if; apply Hchange; cbn; auto; try discriminate; try lia;
          try (intros h Hh Hin; rewrite M2, Hin by done; apply orb_true_r);
          try (right; split; [done|]; intros h Hh Hin; rewrite M2; [|done]; fold (hops scratch w) in Hin; now rewrite Hin).
    + cbn [negb]. rewrite put_state_id by (done || lia). split; [done|]. left. split_and!; auto. right. left. unfold w in *. lia.
Qed.

(** *** The loops *)

Definition in_graph candidates : Prop := forall c, c ∈ candidates -> 0 <= vertex c < size vertices.

(** Every edge has told its target all it can, except those of queued vertices
    and the edges [es] of [v] still to be taken. *)
Definition settled scratch candidates (v : Z) (es : list SpfEdge) : Prop :=
  forall u e, 0 <= u < size vertices -> e ∈ out u ->
  pending scratch candidates u \/ relaxed scratch u e \/ (u = v /\ e ∈ es).

Definition measure scratch candidates : Z := 2 * potential scratch + size candidates.

Lemma pending_app scratch candidates candidates' u :
  pending scratch candidates u -> pending scratch (candidates ++ candidates') u.
Proof. intros (c & Hc & H). exists c. split; [apply elem_of_app; now left|done]. Qed.

Lemma settled_told scratch candidates v e es scratch' candidates' :
  graph_ok -> sane scratch -> 0 <= v < size vertices -> e ∈ out v -> in_graph candidates ->
  settled scratch candidates v (e :: es) -> told scratch candidates v e true scratch' candidates' ->
  settled scratch' candidates' v es /\ in_graph candidates'
  /\ measure scratch' candidates' <= measure scratch candidates.
Proof.
  intros G Hs Hv He Hin Hset [(_ & -> & -> & Hr)|(x & -> & Hx & Hi & Hp & Hc & Hr)].
  { split_and!; [|done|lia]. intros u f Hu Hf. destruct (Hset u f Hu Hf) as [|[|[-> Hfe]]]; auto.
    apply elem_of_cons in Hfe as [->|Hfe]; auto. }
  specialize (Hc eq_refl). subst candidates'. destruct (graph_edge G v e Hv He) as (Hw & _ & _).
  set (w := target_vertex e) in *. pose proof (sane_size _ Hs) as Hsz. split_and!.
  - intros u f Hu Hf. destruct (Z.eq_dec u w) as [->|Hne].
    { left. exists (mkCandidate (distance x) w (revision x)).
      split; [apply elem_of_app; right; left|]. unfold dist. cbn. rewrite state_put by (done || lia).
      now rewrite Z.eqb_refl. }
    destruct (Hset u f Hu Hf) as [Hpend|[Hrel|[-> Hfe]]].
    + left. apply pending_app, pending_put; auto; lia.
    + right. left. now apply relaxed_put.
    + apply elem_of_cons in Hfe as [->|Hfe]; [right; left; now apply Hr|auto].
  - intros c Hc. apply elem_of_app in Hc as [Hc|Hc]; [now apply Hin|].
    apply list_elem_of_singleton in Hc as ->. exact Hw.
  - unfold measure. rewrite size_app. change (size [_]) with 1. lia.
Qed.

Lemma relax_edges_spec v es : forall scratch candidates,
  graph_ok -> sane scratch -> 0 <= v < size vertices -> (forall e, e ∈ es -> e ∈ out v) -> in_graph candidates ->
  settled scratch candidates v es ->
  let '(ok, scratch', candidates') := relax_edges maximum v es scratch candidates in
  sane scratch' /\ (ok = true -> settled scratch' candidates' v [] /\ in_graph candidates'
    /\ measure scratch' candidates' <= measure scratch candidates).
Proof.
  induction es as [|e es IH]; intros scratch candidates G Hs Hv Hes Hin Hset.
  { split; [done|]. intros _. split; [done|]. split; [done|lia]. }
  cbn [relax_edges]. pose proof (relax_edge_spec scratch candidates v e G Hs Hv (Hes e ltac:(left))) as Hr.
  destruct (relax_edge maximum v e scratch candidates) as [[[] scratch1] candidates1].
  2:{ split; [apply Hr|discriminate]. }
  destruct Hr as [Hs1 Ht].
  destruct (settled_told _ _ _ _ _ _ _ G Hs Hv (Hes e ltac:(left)) Hin Hset Ht) as (H1 & H2 & H3).
  specialize (IH scratch1 candidates1 G Hs1 Hv (fun f Hf => Hes f ltac:(right; exact Hf)) H2 H1).
  destruct (relax_edges maximum v es scratch1 candidates1) as [[ok scratch2] candidates2].
  destruct IH as [I1 I2]. split; [done|]. intros Hok. destruct (I2 Hok) as (? & ? & ?). split_and!; auto. lia.
Qed.

Lemma pop_candidate_spec candidates :
  match pop_candidate candidates with
  | None => candidates = []
  | Some (c, rest) => c ∈ candidates /\ (forall x, x ∈ candidates -> x = c \/ x ∈ rest)
      /\ (forall x, x ∈ rest -> x ∈ candidates) /\ size candidates = size rest + 1
      /\ forall x, x ∈ candidates -> candidate_later c x = false
  end.
Proof.
  induction candidates as [|c l IH]; [done|]. cbn [pop_candidate].
  destruct (pop_candidate l) as [[best rest]|].
  2:{ subst l. split_and!; [left| |intros x Hx; now apply not_elem_of_nil in Hx|done|].
      - intros x Hx. left. now apply list_elem_of_singleton in Hx.
      - intros x Hx. apply list_elem_of_singleton in Hx as ->. unfold candidate_later. lia. }
  destruct IH as (I1 & I2 & I3 & I4 & I5).
  assert (size (c :: l) = size l + 1) as Ec by (unfold size; cbn [length]; lia).
  destruct (candidate_later c best) eqn:El.
  - split_and!; [now right| | | |].
    + intros x Hx. apply elem_of_cons in Hx as [->|Hx]; [right; left|]. destruct (I2 x Hx); [now left|right; now right].
    + intros x Hx. apply elem_of_cons in Hx as [->|Hx]; [left|right; auto].
    + assert (size (c :: rest) = size rest + 1) by (unfold size; cbn [length]; lia). lia.
    + intros x Hx. apply elem_of_cons in Hx as [->|Hx]; [|auto]. unfold candidate_later in *. lia.
  - split_and!; [left| | | |].
    + intros x Hx. apply elem_of_cons in Hx as [->|Hx]; [now left|right]. destruct (I2 x Hx) as [->|]; [left|now right].
    + intros x Hx. apply elem_of_cons in Hx as [->|Hx]; [now right|right; auto].
    + assert (size (best :: rest) = size rest + 1) by (unfold size; cbn [length]; lia). lia.
    + intros x Hx. apply elem_of_cons in Hx as [->|Hx]; [unfold candidate_later; lia|].
      specialize (I5 x Hx). unfold candidate_later in *. lia.
Qed.

(** The loop ends within its measure; when it succeeds every edge is settled. *)
Lemma process_spec fuel : forall scratch candidates,
  graph_ok -> sane scratch -> in_graph candidates -> settled scratch candidates 0 [] ->
  (measure scratch candidates < Z.of_nat fuel -> process fuel maximum vertices edges scratch candidates <> None)
  /\ forall scratch' candidates',
     process fuel maximum vertices edges scratch candidates = Some (true, scratch', candidates') ->
     sane scratch' /\ forall u e, 0 <= u < size vertices -> e ∈ out u -> relaxed scratch' u e.
Proof.
  induction fuel as [|fuel IH]; intros scratch candidates G Hs Hin Hset.
  { split; [|discriminate]. intros Hm. exfalso. unfold measure in Hm. pose proof (size_nonneg candidates).
    pose proof (potential_nonneg scratch) as Hp. rewrite (sane_size _ Hs) in Hp. specialize (Hp (sane_state _ Hs)). lia. }
  cbn [process]. pose proof (pop_candidate_spec candidates) as Hpop.
  destruct (pop_candidate candidates) as [[c rest]|].
  2:{ subst candidates. split; [discriminate|]. intros scratch' candidates' [= <- <-]. split; [done|].
      intros u e Hu He. destruct (Hset u e Hu He) as [(c & Hc & _)|[|[_ Hn]]]; [|done|].
      - now apply not_elem_of_nil in Hc.
      - now apply not_elem_of_nil in Hn. }
  destruct Hpop as (Hc & Hother & Hsub & Hsize & _). pose proof (Hin c Hc) as Hv.
  fold (state scratch (vertex c)). fold (dist scratch (vertex c)).
  assert (in_graph rest) as Hin' by (intros x Hx; apply Hin; auto).
  destruct (negb (at_distance c =? dist scratch (vertex c)) || negb (at_revision c =? revision (state scratch (vertex c))))
    eqn:Estale.
  - destruct (IH scratch rest G Hs Hin') as [I1 I2].
    { intros u e Hu He. destruct (Hset u e Hu He) as [(x & Hx & E1 & E2 & E3)|[|[_ Hn]]]; [|auto|].
      - destruct (Hother x Hx) as [->|Hx']; [|left; now exists x]. subst u. lia.
      - now apply not_elem_of_nil in Hn. }
    split; [|done]. intros Hm. apply I1. unfold measure in *. lia.
  - assert (settled scratch rest (vertex c) (out (vertex c))) as Hset'.
    { intros u e Hu He. destruct (Z.eq_dec u (vertex c)) as [->|Hne]; [auto|].
      destruct (Hset u e Hu He) as [(x & Hx & E1 & E2 & E3)|[|[_ Hn]]]; [|auto|].
      - destruct (Hother x Hx) as [->|Hx']; [done|left; now exists x].
      - now apply not_elem_of_nil in Hn. }
    pose proof (relax_edges_spec (vertex c) (out (vertex c)) scratch rest G Hs Hv (fun e He => He) Hin' Hset') as Hr.
    fold (out (vertex c)).
    destruct (relax_edges maximum (vertex c) (out (vertex c)) scratch rest) as [[[] scratch1] candidates1];
      [|split; discriminate].
    destruct Hr as [Hs1 Hr]. destruct (Hr eq_refl) as (H1 & H2 & H3).
    destruct (IH scratch1 candidates1 G Hs1 H2) as [I1 I2].
    { intros u e Hu He. destruct (H1 u e Hu He) as [|[|[_ Hn]]]; auto. now apply not_elem_of_nil in Hn. }
    split; [|done]. intros Hm. apply I1. unfold measure in *. lia.
Qed.

(** Settled edges make every distance a lower bound of the walks. *)
Lemma relaxed_least scratch :
  graph_ok -> sane scratch ->
  (forall u e, 0 <= u < size vertices -> e ∈ out u -> relaxed scratch u e) ->
  forall v d token, walk v d token -> 0 <= v < size vertices /\ 0 <= d < ls_infinity /\ dist scratch v <= d.
Proof.
  intros G Hs Hr v d token Hw. induction Hw as [|v d token e Hw (IHv & IHd & IH) He Hd].
  - pose proof (graph_root G). rewrite (sane_root _ Hs). unfold ls_infinity. lia.
  - destruct (graph_edge G v e IHv He) as (Ht & Hc & _). split_and!; try lia.
    specialize (Hr v e IHv He). unfold relaxed in Hr. lia.
Qed.
End Graph.

(** ** Whole calculations *)

(** The fields are unsigned. *)
Definition unsigned (vertices : list SpfVertex) (edges : list SpfEdge) : Prop :=
  (forall v, v ∈ vertices -> 0 <= first_edge v /\ 0 <= edge_count v)
  /\ forall e, e ∈ edges -> 0 <= target_vertex e /\ 0 <= cost e /\ 0 <= first_hop e.

Lemma get_vertex_in (vertices : list SpfVertex) v : 0 <= v < size vertices -> get vertices v ∈ vertices.
Proof.
  intros Hv. unfold size in Hv. apply list_elem_of_lookup. exists (Z.to_nat v).
  apply list_lookup_lookup_total_lt. lia.
Qed.

Lemma input_graph s root vertices edges count :
  unsigned vertices edges -> 0 <= root -> input_valid s root vertices edges count = true ->
  graph_ok root vertices edges.
Proof.
  intros [_ Hu] Hr Hv. unfold input_valid in Hv. apply andb_true_iff in Hv as [H1 H2]. bool_to_prop.
  constructor; [lia|]. intros v e Hv He. rewrite forallb_forall in H2.
  specialize (H2 (get vertices v) ltac:(apply list_elem_of_In, get_vertex_in; done)). apply andb_true_iff in H2 as [_ H2].
  rewrite forallb_forall in H2. specialize (H2 e ltac:(apply list_elem_of_In; exact He)).
  assert (e ∈ edges) as Hin.
  { unfold out, outgoing in He. now apply subseteq_take, subseteq_drop in He. }
  destruct (Hu e Hin) as (Ht & Hc & Hf). unfold edge_valid in H2. bool_to_prop.
  unfold Catalog.maximum_ecmp_paths in *. lia.
Qed.

Lemma start_spec root vertices edges :
  graph_ok root vertices edges ->
  let '(scratch, candidates) := start root vertices in
  sane root vertices edges scratch /\ in_graph vertices candidates /\ settled vertices edges scratch candidates 0 [].
Proof.
  intros G. pose proof (graph_root _ _ _ G) as Hr. unfold start.
  set (x := initial_state <| distance := 0 |> <| revision := 1 |>).
  assert (size (replicate (length vertices) initial_state) = size vertices) as Hsz
    by (unfold size; now rewrite length_replicate).
  assert (forall v, 0 <= v < size vertices -> state (put (replicate (length vertices) initial_state) root x) v
    = if root =? v then x else initial_state) as Hst.
  { intros v Hv. rewrite (state_put vertices) by (auto; lia). case_if; [done|]. unfold state, get.
    apply lookup_total_replicate_2. unfold size in Hv. lia. }
  assert (forall h, 0 <= h < 128 -> hop_in [0; 0] h = false) as H0
    by (intros h Hh; rewrite hop_in_two by done; rewrite !Z.bits_0; now case_if).
  assert (hops_ok [0; 0]) as Hok
    by (split; [done|]; rewrite !list.Forall_cons; split_and!; [unfold is_u64; lia..|constructor]).
  split_and!.
  - constructor; [now rewrite size_put| |].
    + unfold dist. rewrite Hst, Z.eqb_refl by done. done.
    + intros v Hv. rewrite Hst by done. case_if; (split; [exact Hok|]); (split; [vm_compute; intuition congruence|]).
      * subst v. intros _. split; [intros _; apply walk_root|]. intros h Hh Hin. cbn in Hin. now rewrite H0 in Hin.
      * cbn. intros Hlt. exfalso. revert Hlt. vm_compute. discriminate.
  - intros c Hc. apply list_elem_of_singleton in Hc as ->. exact Hr.
  - intros u e Hu He. destruct (Z.eq_dec u root) as [->|Hne].
    + left. exists (mkCandidate 0 root 1). split; [left|]. unfold dist. rewrite Hst, Z.eqb_refl by done. done.
    + right. left. left. unfold dist. rewrite Hst by done. rewrite (proj2 (Z.eqb_neq root u)) by lia.
      destruct (graph_edge _ _ _ G u e Hu He) as (_ & Hc & _). cbn. lia.
Qed.

Lemma process_more fuel maximum vertices edges : forall scratch candidates r,
  process fuel maximum vertices edges scratch candidates = Some r ->
  process (S fuel) maximum vertices edges scratch candidates = Some r.
Proof.
  induction fuel as [|fuel IH]; intros scratch candidates r; [discriminate|].
  intros H. cbn [process] in H. remember (S fuel) as n. cbn [process]. subst n.
  destruct (pop_candidate candidates) as [[c rest]|]; [|done].
  destruct (negb _ || negb _); [now apply IH|].
  destruct (relax_edges _ _ _ _ _) as [[[] scratch1] candidates1]; [now apply IH|done].
Qed.

Lemma calculate_more fuel fuel' s root vertices edges count r :
  (fuel <= fuel')%nat -> calculate fuel s root vertices edges count = Some r ->
  calculate fuel' s root vertices edges count = Some r.
Proof.
  intros Hle. induction Hle as [|fuel' _ IH]; [done|]. intros H. specialize (IH H). revert IH. unfold calculate.
  destruct (negb _); [done|]. destruct (start root vertices) as [scratch candidates].
  destruct (process fuel' _ _ _ _ _) as [r'|] eqn:E; [|discriminate]. now rewrite (process_more _ _ _ _ _ _ _ E).
Qed.

(** Turns that are always enough: twice what the labels can still improve, plus
    the queued root. *)
Definition enough_turns (root : Z) (vertices : list SpfVertex) : nat :=
  Z.to_nat (2 * potential (start root vertices).1 + 2).

(** C38: the calculation terminates: with any number of turns above a bound that
    depends only on the graph's size the loop ends, always with the same result
    (zero-cost cycles and repeated equal-cost merges included), because every
    queued candidate stands for a shorter distance or a larger first-hop set. *)
Theorem spf_terminates s root vertices edges count :
  unsigned vertices edges -> 0 <= root ->
  exists r, forall fuel, (enough_turns root vertices <= fuel)%nat ->
    calculate fuel s root vertices edges count = Some r.
Proof.
  intros Hu Hr. assert (exists r, calculate (enough_turns root vertices) s root vertices edges count = Some r) as [r E].
  { unfold calculate. destruct (input_valid s root vertices edges count) eqn:Ev; cbn [negb]; [|eauto].
    pose proof (input_graph _ _ _ _ _ Hu Hr Ev) as G. pose proof (start_spec _ _ _ G) as Hst.
    destruct (start root vertices) as [scratch candidates] eqn:Es. destruct Hst as (H1 & H2 & H3).
    destruct (process_spec root vertices edges (maximum_pending_candidates_ s) (enough_turns root vertices)
      scratch candidates G H1 H2 H3) as [Ht _].
    destruct (process _ _ _ _ _ _) as [[[[] ?] ?]|] eqn:Ep; eauto. exfalso. apply Ht; [|done].
    unfold measure, enough_turns. rewrite Es. cbn [fst].
    assert (size candidates = 1) by (unfold start in Es; now injection Es as _ <-).
    pose proof (potential_nonneg root vertices edges scratch) as Hp. rewrite (sane_size _ _ _ _ H1) in Hp.
    specialize (Hp (sane_state _ _ _ _ H1)). lia. }
  exists r. intros fuel Hle. now apply (calculate_more (enough_turns root vertices)).
Qed.

(** The published first-hop set. *)
Definition published_hop (s : t) (v h : Z) : Prop :=
  reachable s v = true /\ 0 <= h < 128 /\ hop_in (first_hops (get (published_ s) v)) h = true.

Lemma hop_bit_spec hops h : 0 <= h -> hop_bit hops h = hop_in hops h.
Proof.
  intros Hh. unfold hop_bit, hop_in. set (w := get hops (h / 64)). set (i := h mod 64).
  assert (0 <= i) by (unfold i; lia). destruct (Z.testbit w i) eqn:E.
  - apply negb_true_iff, Z.eqb_neq. intros H0. apply (f_equal (fun x => Z.testbit x i)) in H0.
    rewrite Z.land_spec, E, Z.shiftl_1_l, Z.pow2_bits_eqb, Z.eqb_refl, Z.bits_0 in H0 by lia. discriminate.
  - apply negb_false_iff, Z.eqb_eq. apply Z.bits_inj_0. intros k. rewrite Z.land_spec, Z.shiftl_1_l.
    destruct (Z.lt_ge_cases k 0); [now rewrite Z.testbit_neg_r|]. rewrite Z.pow2_bits_eqb by lia.
    destruct (Z.eqb_spec i k) as [<-|]; [now rewrite E|apply andb_false_r].
Qed.

Lemma find_hop_spec hops l ordinal : forall seen h,
  (forall x, x ∈ l -> 0 <= x) -> find_hop hops l ordinal seen = Some h -> h ∈ l /\ hop_in hops h = true.
Proof.
  induction l as [|x l IH]; intros seen h Hl H; [discriminate|]. cbn [find_hop] in H.
  assert (forall y, y ∈ l -> 0 <= y) as Hl' by (intros y Hy; apply Hl; now right).
  rewrite hop_bit_spec in H by (apply Hl; left). destruct (hop_in hops x) eqn:E; cbn [negb] in H.
  - case_if_in H; [injection H as <-; split; [left|done]|].
    destruct (IH _ _ Hl' H). split; [now right|done].
  - destruct (IH _ _ Hl' H). split; [now right|done].
Qed.

Section Result.
Context (s s' : t) (root : Z) (vertices : list SpfVertex) (edges : list SpfEdge) (count : Z) (fuel : nat).
Context (Hu : unsigned vertices edges) (Hroot : 0 <= root).
Context (Hrun : calculate fuel s root vertices edges count = Some (true, s')).

Lemma calculated :
  graph_ok root vertices edges /\ sane root vertices edges (published_ s')
  /\ (forall u e, 0 <= u < size vertices -> e ∈ out vertices edges u -> relaxed (published_ s') u e)
  /\ published_count_ s' = size vertices /\ published_first_hop_count_ s' <= 128.
Proof.
  unfold calculate in Hrun. destruct (input_valid s root vertices edges count) eqn:Ev; cbn [negb] in Hrun; [|discriminate].
  pose proof (input_graph _ _ _ _ _ Hu Hroot Ev) as G. pose proof (start_spec _ _ _ G) as Hst.
  destruct (start root vertices) as [scratch candidates]. destruct Hst as (H1 & H2 & H3).
  destruct (process_spec root vertices edges (maximum_pending_candidates_ s) fuel scratch candidates G H1 H2 H3)
    as [_ Hp].
  destruct (process _ _ _ _ _ _) as [[[[] sc] ca]|] eqn:Ep; try discriminate. injection Hrun as <-.
  destruct (Hp _ _ eq_refl) as [Hs Hr]. split_and!; auto. cbn. unfold input_valid in Ev. bool_to_prop.
  unfold Catalog.maximum_ecmp_paths in *. lia.
Qed.

Lemma cost_of_least v :
  0 <= v ->
  match cost_of s' v with
  | Some d => (exists token, walk root vertices edges v d token)
              /\ forall d' token, walk root vertices edges v d' token -> d <= d'
  | None => forall d token, ~ walk root vertices edges v d token
  end.
Proof.
  intros Hv. destruct calculated as (G & Hs & Hr & Hc & _).
  pose proof (relaxed_least _ _ _ _ G Hs Hr v) as Hleast. unfold cost_of, reachable. rewrite Hc.
  fold (state (published_ s') v). fold (dist (published_ s') v).
  destruct (Z.ltb_spec v (size vertices)) as [Hlt|Hge]; cbn [andb]; [|intros d token Hw; apply Hleast in Hw; lia].
  destruct (Z.ltb_spec (dist (published_ s') v) ls_infinity) as [Hd|Hd];
    [|intros d token Hw; apply Hleast in Hw; lia].
  split; [|intros d' token Hw; now apply Hleast in Hw].
  destruct (sane_state _ _ _ _ Hs v ltac:(lia)) as (Ho & _ & Hw). destruct (Hw Hd) as [W1 W2].
  destruct (has_hop (first_hops (state (published_ s') v))) eqn:Eh.
  - apply has_hop_spec in Eh as (h & Hh & Hin); [|done]. exists (Some h). now apply W2.
  - exists None. now apply W1.
Qed.

Lemma published_hop_walk v h :
  0 <= v -> published_hop s' v h -> exists d, cost_of s' v = Some d /\ walk root vertices edges v d (Some h).
Proof.
  intros Hv (Hr & Hh & Hin). destruct calculated as (G & Hs & _ & Hc & _). unfold cost_of. rewrite Hr.
  unfold reachable in Hr. rewrite Hc in Hr. bool_to_prop. eexists. split; [done|].
  destruct (sane_state _ _ _ _ Hs v ltac:(lia)) as (_ & _ & Hw). now apply Hw.
Qed.

Lemma published_hop_closed u e h :
  0 <= u < size vertices -> e ∈ out vertices edges u -> published_hop s' u h ->
  cost_of s' (target_vertex e) = (fun d => d + cost e) <$> cost_of s' u -> published_hop s' (target_vertex e) h.
Proof.
  intros Hv He (Hru & Hh & Hin) Hd. destruct calculated as (G & Hs & Hr & Hc & _).
  destruct (graph_edge _ _ _ G u e Hv He) as (Ht & Hce & Hf). unfold cost_of in Hd. rewrite Hru in Hd. cbn in Hd.
  destruct (reachable s' (target_vertex e)) eqn:Hrt; [|discriminate]. injection Hd as Hd.
  split; [done|]. split; [done|]. unfold reachable in Hrt. bool_to_prop.
  destruct (sane_state _ _ _ _ Hs u Hv) as (Ho & _). destruct (extend_hops_spec _ e Ho Hf) as (_ & _ & Hx).
  destruct (Hr u e Hv He) as [Hrel|[Hrel|[Hrel Hsub]]]; unfold dist, state in Hrel; [lia|lia|].
  apply Hsub; [done|]. apply Hx; [done|]. now left.
Qed.
End Result.

(** C37: the published costs are the shortest: a vertex has a cost exactly when
    some walk from the root costs less than LSInfinity, and the cost is the least
    of them; every published first hop is the first forwarding token of a
    shortest walk, and the sets are closed along shortest edges, so equal-cost
    paths are merged.  A calculation that fails (a malformed graph, a full queue)
    leaves the published generation in place. *)
Theorem spf_shortest fuel s root vertices edges count ok s' :
  unsigned vertices edges -> 0 <= root ->
  calculate fuel s root vertices edges count = Some (ok, s') ->
  if ok then
    (forall v, 0 <= v ->
      match cost_of s' v with
      | Some d => (exists token, walk root vertices edges v d token)
                  /\ forall d' token, walk root vertices edges v d' token -> d <= d'
      | None => forall d token, ~ walk root vertices edges v d token
      end)
    /\ (forall v i h, 0 <= v -> first_hop_at s' v i = Some h ->
        exists d, cost_of s' v = Some d /\ walk root vertices edges v d (Some h))
    /\ (forall u e h, 0 <= u < size vertices -> e ∈ out vertices edges u -> published_hop s' u h ->
        cost_of s' (target_vertex e) = (fun d => d + cost e) <$> cost_of s' u ->
        published_hop s' (target_vertex e) h)
  else published_ s' = published_ s /\ published_count_ s' = published_count_ s
       /\ published_first_hop_count_ s' = published_first_hop_count_ s.
Proof.
  intros Hu Hr Hrun. destruct ok.
  - split_and!.
    + intros v Hv. exact (cost_of_least s s' root vertices edges count fuel Hu Hr Hrun v Hv).
    + intros v i h Hv Hfirst. apply (published_hop_walk s s' root vertices edges count fuel Hu Hr Hrun v h Hv).
      unfold first_hop_at in Hfirst. destruct (reachable s' v) eqn:Erv; [|discriminate]. cbn [negb] in Hfirst.
      destruct (calculated s s' root vertices edges count fuel Hu Hr Hrun) as (_ & _ & _ & _ & Hcount).
      apply find_hop_spec in Hfirst as [Hin Hh].
      * apply list_elem_of_fmap in Hin as (k & -> & Hk). apply elem_of_seq in Hk. split; [done|]. split; [lia|done].
      * intros x Hx. apply list_elem_of_fmap in Hx as (k & -> & _). lia.
    + intros u e h Hv He Hp Hd. now apply (published_hop_closed s s' root vertices edges count fuel Hu Hr Hrun u e h).
  - unfold calculate in Hrun. destruct (negb _); [now injection Hrun as <-|].
    destruct (start root vertices) as [scratch candidates].
    destruct (process _ _ _ _ _ _) as [[[[] sc] ca]|]; try discriminate. now injection Hrun as <-.
Qed.

(** A root with two equal-cost neighbours (tokens 3 and 70), a transit network
    reached over a tokenless arc, and an unreachable vertex. *)
Definition sample_vertices : list SpfVertex := [mkVertex 0 3; mkVertex 3 1; mkVertex 4 1; mkVertex 5 0; mkVertex 5 1; mkVertex 6 0].
Definition sample_edges : list SpfEdge :=
  [mkEdge 1 10 3; mkEdge 2 10 70; mkEdge 4 1 65535; mkEdge 3 5 65535; mkEdge 3 5 65535; mkEdge 1 0 9].
Definition sample_result : t :=
  match calculate 20 (construct 8 16) 0 sample_vertices sample_edges 128 with
  | Some (_, s) => s
  | None => construct 0 0
  end.

Lemma sample_unsigned : unsigned sample_vertices sample_edges.
Proof.
  split; intros x Hx; apply list_elem_of_In in Hx; cbn in Hx;
    repeat (destruct Hx as [<-|Hx]; [cbn; lia|]); done.
Qed.

Example spf_shortest_witness :
  cost_of sample_result 3 = Some 6 /\ first_hop_at sample_result 3 0 = Some 9 /\ cost_of sample_result 5 = None
  /\ exists d, cost_of sample_result 3 = Some d /\ walk 0 sample_vertices sample_edges 3 d (Some 9).
Proof.
  split_and!; [vm_compute; reflexivity..|].
  apply (spf_shortest 20 (construct 8 16) 0 sample_vertices sample_edges 128 true sample_result sample_unsigned)
    with (i := 0); [lia|vm_compute; reflexivity|lia|vm_compute; reflexivity].
Defined.

Example spf_terminates_witness :
  exists r, forall fuel, (enough_turns 0 sample_vertices <= fuel)%nat ->
    calculate fuel (construct 8 16) 0 sample_vertices sample_edges 128 = Some r.
Proof. apply spf_terminates; [exact sample_unsigned|lia]. Defined.
End Spf.
