(* ===== verification/Sender.v ===== *)
(** * The integrated sender (core/src/transport/tcp_sender.cpp)

    The owner of one connection's send side: the send repository, the history of
    admitted segments, the failure detector, the SACK scoreboard, congestion
    control, the retransmission timeout and the persist timer, with the two-phase
    transmission protocol and the acknowledgment processing that tie them
    together. *)

From S2P Require Import Prelude Sequence Catalog Arena Blocks SendBuffer History Failure Sack Congestion Retransmission Timers.
Import Arena Blocks.

Module Sender.

Module Bytes := SendBuffer.SendBuffer.
Module Ledger := History.History.
Module Failures := Failure.FailureDetector.
Module Scoreboard := Sack.SackScoreboard.
Module Congested := Congestion.CongestionController.
Module Estimator := Retransmission.RetransmissionEstimator.
Module Persist := Timers.PersistTimer.

Inductive TransmissionReason :=
| new_data | fast_retransmit | timeout_retransmit | persist_probe | sack_recovery.

#[export] Instance TransmissionReason_eq_dec : EqDecision TransmissionReason.
Proof. solve_decision. Defined.

Record PreparedTransmission := mkPrepared {
  range : Bytes.PreparedSendRange;
  reason : TransmissionReason;
  sack_reason : Scoreboard.SackNextReason;
  sender_generation : Z
}.

(** [return {};] and [PreparedTransmission::operator bool] *)
Definition no_transmission : PreparedTransmission :=
  mkPrepared Bytes.no_range new_data Scoreboard.lost_retransmission 0.
Definition present (intent : PreparedTransmission) : bool := Bytes.range_present (range intent).

Record SenderAcknowledgeResult := mkAcked {
  status : Bytes.SendAcknowledgeStatus;
  newly_acknowledged : Z;
  fast_retransmission_ready : bool;
  sack_recovery_ready : bool
}.

Record t := mk {
  bytes_ : Bytes.t;
  history_ : Ledger.t;
  failure_ : Failures.t;
  sack_ : Scoreboard.t;
  congestion_ : Congested.t;
  retransmission_ : Estimator.t;
  persist_ : Persist.t;
  sender_mss_ : Z;
  receiver_window_ : Z;
  maximum_receiver_window_ : Z;
  rtt_sequence_end_ : Z;
  rtt_sent_at_ : Z;
  retransmission_deadline_ : option Z;
  sws_override_deadline_ : option Z;
  generation_ : Z;
  pending_failure_action_ : Failures.FailureAction;
  rtt_probe_present_ : bool;
  rtt_probe_retransmitted_ : bool;
  fast_retransmission_pending_ : bool;
  nagle_enabled_ : bool;
  sack_enabled_ : bool;
  valid_ : bool
}.
#[export] Instance t_settable : Settable t := fun s =>
  mk (bytes_ s) (history_ s) (failure_ s) (sack_ s) (congestion_ s) (retransmission_ s) (persist_ s)
     (sender_mss_ s) (receiver_window_ s) (maximum_receiver_window_ s) (rtt_sequence_end_ s)
     (rtt_sent_at_ s) (retransmission_deadline_ s) (sws_override_deadline_ s) (generation_ s)
     (pending_failure_action_ s) (rtt_probe_present_ s) (rtt_probe_retransmitted_ s)
     (fast_retransmission_pending_ s) (nagle_enabled_ s) (sack_enabled_ s) (valid_ s).

(** The scoreboard is reset only when every other part is valid. *)
Definition construct (storage : list Z) (history_storage : list Ledger.TransmissionRecord)
    (sack_ranges sack_workspace : list Scoreboard.SackRange) (initial_data_sequence sender_mss : Z) : t :=
  let bytes := Bytes.construct storage initial_data_sequence in
  let history := Ledger.construct history_storage in
  let sack := Scoreboard.construct sack_ranges sack_workspace sender_mss in
  let (valid, sack) :=
    if Bytes.valid_ bytes && Ledger.valid_ history && Scoreboard.valid_ sack && negb (sender_mss =? 0)
    then Scoreboard.reset sack initial_data_sequence initial_data_sequence
    else (false, sack) in
  mk bytes history Failures.initial sack (Congested.construct sender_mss) Estimator.construct
     Persist.initial sender_mss 0 0 0 0 None None 1 Failures.none false false false true false valid.

Definition flight_size (s : t) : Z := Bytes.flight_size (bytes_ s).

(** [++generation_] *)
Definition bump (s : t) : t := s <| generation_ := u64 (generation_ s + 1) |>.

(** [persist_.update(window == 0U, bytes_.queued_octets() != 0U, ...)] *)
Definition update_persist (s : t) (window now : Z) : t :=
  s <| persist_ := Persist.update (persist_ s) (window =? 0)
                     (negb (Bytes.queued_octets (bytes_ s) =? 0))
                     (Estimator.timeout_ (retransmission_ s)) now |>.

Definition start_or_restart_timer (s : t) (now : Z) : t :=
  s <| retransmission_deadline_ := Some (now + Estimator.timeout_ (retransmission_ s)) |>.

(** [failure_.begin(...)], its result discarded *)
Definition begin_failure (s : t) (first end_ now : Z) : t :=
  s <| failure_ := (Failures.begin_ (failure_ s) first end_ false now).2 |>.

Definition write (s : t) (input : list Z) (now : Z) : Z * t :=
  if negb (valid_ s) then (0, s)
  else
    let (accepted, bytes) := Bytes.write (bytes_ s) input in
    let s := s <| bytes_ := bytes |> in
    (accepted,
     if negb (accepted =? 0) then bump (update_persist s (receiver_window_ s) now) else s).

Definition update_receiver_window (s : t) (receiver_window now : Z) : t :=
  if negb (valid_ s) then s
  else
    let was_zero := receiver_window_ s =? 0 in
    let s := s <| maximum_receiver_window_ := Z.max (maximum_receiver_window_ s) receiver_window |> in
    let s := update_persist s receiver_window now in
    if receiver_window_ s =? receiver_window then s
    else
      let s := s <| receiver_window_ := receiver_window |> in
      bump
        (if receiver_window =? 0
         then s <| retransmission_deadline_ := None |> <| failure_ := Failures.reset (failure_ s) |>
         else
           let s := s <| sws_override_deadline_ := None |> in
           if was_zero && negb (flight_size s =? 0) then
             let s := start_or_restart_timer s now in
             match Ledger.oldest (history_ s) with
             | Some oldest => begin_failure s (Ledger.first oldest) (Ledger.end_ oldest) now
             | None => s
             end
           else s).

Definition set_nagle_enabled (s : t) (enabled : bool) : t :=
  if negb (valid_ s) || eqb (nagle_enabled_ s) enabled then s
  else bump (s <| nagle_enabled_ := enabled |>).

Definition set_sack_enabled (s : t) (enabled : bool) : t :=
  if negb (valid_ s) || eqb (sack_enabled_ s) enabled then s
  else
    let s := s <| sack_enabled_ := enabled |> in
    bump (if negb enabled
          then s <| sack_ := (Scoreboard.reset (sack_ s) (Bytes.send_unacknowledged_ (bytes_ s))
                                (Bytes.send_next_ (bytes_ s))).2 |>
          else s).

Definition reduce_mss (s : t) (sender_mss : Z) : bool * t :=
  if negb (valid_ s) || (sender_mss =? 0) || (sender_mss_ s <? sender_mss) then (false, s)
  else if sender_mss =? sender_mss_ s then (true, s)
  else (true,
    bump (s <| congestion_ := Congested.reduce_sender_mss (congestion_ s) sender_mss |>
            <| sack_ := Scoreboard.reduce_sender_mss (sack_ s) sender_mss |>
            <| sender_mss_ := sender_mss |>)).

(** ** Preparation *)

(** The payload [prepare_new] chooses, with the silly-window override deadline. *)
Definition choose_payload (s : t) (now : Z) (pushed : bool) (allowance unsent available : Z)
    : Z * option Z :=
  let sws := sws_override_deadline_ s in
  if sender_mss_ s <=? available then (sender_mss_ s, sws)
  else
    let no_unacknowledged := flight_size s =? 0 in
    let nagle_allows_small := negb (nagle_enabled_ s) || no_unacknowledged in
    let half_maximum_window := maximum_receiver_window_ s / 2 + maximum_receiver_window_ s mod 2 in
    if pushed && nagle_allows_small && (unsent <=? allowance) then (unsent, sws)
    else if nagle_allows_small && negb (maximum_receiver_window_ s =? 0)
            && (half_maximum_window <=? available) then (available, sws)
    else if pushed then
      let deadline := value_or (now + Catalog.tcp_sws_override) sws in
      (if deadline <=? now then available else 0, Some deadline)
    else (0, sws).

Definition range_end (r : Bytes.PreparedSendRange) : Z := Bytes.sequence r ⊞ Bytes.length r.

Definition prepare_new (s : t) (now : Z) (pushed : bool) : PreparedTransmission * t :=
  if negb (valid_ s) then (no_transmission, s)
  else
    let s := update_persist s (receiver_window_ s) now in
    let allowance := Congested.send_allowance (congestion_ s) (receiver_window_ s) (flight_size s) in
    let unsent := Bytes.unsent_octets (bytes_ s) in
    let available := Z.min allowance unsent in
    if available =? 0 then (no_transmission, s)
    else
      let (payload, sws) := choose_payload s now pushed allowance unsent available in
      let s := s <| sws_override_deadline_ := sws |> in
      if payload =? 0 then (no_transmission, s)
      else
        let r := Bytes.prepare_new (bytes_ s) payload in
        if negb (Ledger.can_record_original (history_ s) (Bytes.sequence r) (range_end r) now)
        then (no_transmission, s)
        else (mkPrepared r new_data Scoreboard.lost_retransmission (generation_ s), s).

Definition prepare_persist_probe (s : t) (now : Z) : PreparedTransmission * t :=
  if negb (valid_ s) then (no_transmission, s)
  else
    let s := update_persist s (receiver_window_ s) now in
    if negb (Persist.due (persist_ s) now) then (no_transmission, s)
    else
      let r := if flight_size s =? 0 then Bytes.prepare_new (bytes_ s) 1
               else Bytes.prepare_retransmission (bytes_ s) 1 in
      (mkPrepared r persist_probe Scoreboard.lost_retransmission (generation_ s), s).

(** The unsent octets the peer's window admits, for rule 2 of [next_segment]. *)
Definition usable_unsent (s : t) : option Scoreboard.SackRange :=
  let window_end := Bytes.send_unacknowledged_ (bytes_ s) ⊞ receiver_window_ s in
  let next := Bytes.send_next_ (bytes_ s) in
  if negb (Bytes.unsent_octets (bytes_ s) =? 0) && Sequence.before next window_end then
    let allowed := Z.min (Bytes.unsent_octets (bytes_ s)) (window_end ⊟ next) in
    if negb (allowed =? 0) then Some (Scoreboard.mkRange next (next ⊞ allowed)) else None
  else None.

Definition prepare_sack_recovery (s : t) (now : Z) : PreparedTransmission :=
  if negb (valid_ s) || negb (sack_enabled_ s) || negb (Scoreboard.in_recovery (sack_ s))
  then no_transmission
  else
    let estimated_pipe := Scoreboard.pipe (sack_ s) in
    let window := Congested.congestion_window_ (congestion_ s) in
    if (window <? estimated_pipe) || (window ⊟ estimated_pipe <? sender_mss_ s) then no_transmission
    else
      let selected := Scoreboard.next_segment (sack_ s) (usable_unsent s) in
      if negb (Scoreboard.segment_present selected) then no_transmission
      else
        let target := Scoreboard.range selected in
        let length := Scoreboard.end_ target ⊟ Scoreboard.first target in
        let fresh := Scoreboard.reason_is (Scoreboard.reason selected) Scoreboard.new_data in
        let r := if fresh then Bytes.prepare_new (bytes_ s) length
                 else Bytes.prepare_retransmission_at (bytes_ s) (Scoreboard.first target) length in
        if negb (Bytes.range_present r) || negb (Bytes.sequence r =? Scoreboard.first target)
           || negb (Bytes.length r =? length) then no_transmission
        else
          let can_record :=
            if fresh then Ledger.can_record_original (history_ s) (Bytes.sequence r) (range_end r) now
            else Ledger.can_record_retransmission (history_ s) (Bytes.sequence r) (range_end r) now in
          if negb can_record then no_transmission
          else mkPrepared r sack_recovery (Scoreboard.reason selected) (generation_ s).

Definition prepare_fast_retransmission (s : t) : PreparedTransmission :=
  if negb (valid_ s) || negb (fast_retransmission_pending_ s) then no_transmission
  else mkPrepared (Bytes.prepare_retransmission (bytes_ s) (sender_mss_ s)) fast_retransmit
         Scoreboard.lost_retransmission (generation_ s).

(** [*deadline <= now], false without a deadline *)
Definition expired (deadline : option Z) (now : Z) : bool :=
  match deadline with Some d => d <=? now | None => false end.

Definition aborts (action : Failures.FailureAction) : bool :=
  match action with Failures.abort_connection => true | _ => false end.

Definition prepare_timeout_retransmission (s : t) (now : Z) : PreparedTransmission :=
  if negb (valid_ s) || negb (expired (retransmission_deadline_ s) now)
     || aborts (Failures.service (failure_ s) now) then no_transmission
  else
    let r := Bytes.prepare_retransmission (bytes_ s) (sender_mss_ s) in
    if negb (Ledger.can_record_retransmission (history_ s) (Bytes.sequence r) (range_end r) now)
    then no_transmission
    else mkPrepared r timeout_retransmit Scoreboard.lost_retransmission (generation_ s).

(** The [select] lambda of [next_deadline]. *)
Definition earlier (result candidate : option Z) : option Z :=
  match candidate, result with
  | Some c, Some r => if c <? r then candidate else result
  | Some _, None => candidate
  | None, _ => result
  end.

Definition next_deadline (s : t) : option Z :=
  earlier (earlier (retransmission_deadline_ s) (Persist.deadline_ (persist_ s)))
    (sws_override_deadline_ s).

Definition current (s : t) (intent : PreparedTransmission) : bool :=
  if negb (present intent) || negb (sender_generation intent =? generation_ s) then false
  else
    match reason intent with
    | new_data => negb (Bytes.retransmission (range intent))
    | fast_retransmit => Bytes.retransmission (range intent) && fast_retransmission_pending_ s
    | timeout_retransmit => Bytes.retransmission (range intent) && has_value (retransmission_deadline_ s)
    | persist_probe => has_value (Persist.deadline_ (persist_ s))
    | sack_recovery => sack_enabled_ s && Scoreboard.in_recovery (sack_ s)
    end.

Definition copy (s : t) (intent : PreparedTransmission) (output_size : Z) : option (list Z) :=
  if current s intent then Bytes.copy (bytes_ s) (range intent) output_size else None.

Definition transmitted (s : t) (sequence : Z) : bool := Ledger.contains (history_ s) sequence.

(** ** Commit *)

(** Karn's rule: a repair that reaches the measured interval spoils the sample. *)
Definition mark_rtt_retransmitted (s : t) (r : Bytes.PreparedSendRange) : t :=
  if negb (rtt_probe_present_ s) then s
  else
    let repair_end := range_end r in
    if Sequence.after repair_end (Bytes.send_unacknowledged_ (bytes_ s))
       && Sequence.after (rtt_sequence_end_ s) (Bytes.sequence r)
    then s <| rtt_probe_retransmitted_ := true |> else s.

(** [valid_ = false; pending_failure_action_ = abort_connection; return false;] *)
Definition abandon (s : t) : bool * t :=
  (false, s <| valid_ := false |> <| pending_failure_action_ := Failures.abort_connection |>).

(** [failure_.retransmitted(...)] and the latch of its advice. *)
Definition note_retransmission (s : t) (first end_ now : Z) : t :=
  let (action, failure) := Failures.retransmitted (failure_ s) first end_ now in
  let s := s <| failure_ := failure |> in
  match action with
  | Failures.abort_connection => s <| pending_failure_action_ := action |>
  | Failures.negative_ip_advice =>
      match pending_failure_action_ s with
      | Failures.none => s <| pending_failure_action_ := action |>
      | _ => s
      end
  | Failures.none => s
  end.

(** The history's half of a commit. *)
Definition record_original (s : t) (first end_ now : Z) : bool * t :=
  let (ok, history) := Ledger.record_original (history_ s) first end_ now in
  (ok, s <| history_ := history |>).

Definition record_retransmission (s : t) (first end_ now : Z) : bool * t :=
  let (updated, history) := Ledger.record_retransmission (history_ s) first end_ now in
  (negb (updated =? 0), s <| history_ := history |>).

(** [sack_.update(SND.UNA, SND.NXT, {}) != malformed] *)
Definition extend_sack (s : t) : bool * t :=
  let (st, sack) := Scoreboard.update (sack_ s) (Bytes.send_unacknowledged_ (bytes_ s))
                      (Bytes.send_next_ (bytes_ s)) [] in
  (match st with Scoreboard.malformed => false | _ => true end, s <| sack_ := sack |>).

(** The checks of [commit] against the history. *)
Definition recordable (s : t) (intent : PreparedTransmission) (now : Z) : bool :=
  let r := range intent in
  let original := Ledger.can_record_original (history_ s) (Bytes.sequence r) (range_end r) now in
  let repair := Ledger.can_record_retransmission (history_ s) (Bytes.sequence r) (range_end r) now in
  match reason intent with
  | new_data => original
  | fast_retransmit | timeout_retransmit => repair
  | persist_probe | sack_recovery => if Bytes.retransmission r then repair else original
  end.

(** The timers and the RTT probe after new data, once history and scoreboard
    have it. *)
Definition arm_new_data (s : t) (first last previous_flight now : Z) : t :=
  let s := if previous_flight =? 0 then begin_failure s first last now else s in
  let s := if negb (rtt_probe_present_ s)
           then s <| rtt_sequence_end_ := last |> <| rtt_sent_at_ := now |>
                  <| rtt_probe_present_ := true |> <| rtt_probe_retransmitted_ := false |>
           else s in
  let s := if previous_flight =? 0 then start_or_restart_timer s now else s in
  s <| sws_override_deadline_ := None |>.

(** The effects of each reason, once the repository committed the range. *)
Definition commit_new_data (s : t) (r : Bytes.PreparedSendRange) (previous_flight now : Z) : bool * t :=
  let first := Bytes.sequence r in
  let last := range_end r in
  let (ok, s) := record_original s first last now in
  if negb ok then abandon s
  else
    let (ok, s) := extend_sack s in
    if negb ok then abandon s
    else (true, arm_new_data s first last previous_flight now).

Definition commit_fast_retransmit (s : t) (r : Bytes.PreparedSendRange) (now : Z) : bool * t :=
  let (ok, s) := record_retransmission s (Bytes.sequence r) (range_end r) now in
  if negb ok then abandon s
  else
    let s := note_retransmission s (Bytes.sequence r) (range_end r) now in
    (true, (mark_rtt_retransmitted s r) <| fast_retransmission_pending_ := false |>).

Definition commit_timeout_retransmit (s : t) (r : Bytes.PreparedSendRange) (previous_flight now : Z)
    : bool * t :=
  let (ok, s) := record_retransmission s (Bytes.sequence r) (range_end r) now in
  if negb ok then abandon s
  else
    let s := note_retransmission s (Bytes.sequence r) (range_end r) now in
    let s := mark_rtt_retransmitted s r in
    let s := s <| congestion_ := Congested.on_retransmission_timeout (congestion_ s) previous_flight |>
               <| sack_ := Scoreboard.on_retransmission_timeout (sack_ s) |>
               <| retransmission_ := (Estimator.on_timeout (retransmission_ s) false).2 |> in
    (true, (start_or_restart_timer s now) <| fast_retransmission_pending_ := false |>).

Definition commit_persist_probe (s : t) (r : Bytes.PreparedSendRange) (now : Z) : bool * t :=
  let (ok, s) := if Bytes.retransmission r then record_retransmission s (Bytes.sequence r) (range_end r) now
                 else record_original s (Bytes.sequence r) (range_end r) now in
  if negb ok then abandon s
  else
    let (ok, s) := if Bytes.retransmission r then (true, s) else extend_sack s in
    if negb ok then abandon s
    else
      let s := mark_rtt_retransmitted s r in
      let (ok, persist) := Persist.probe_committed (persist_ s) now in
      let s := s <| persist_ := persist |> in
      if negb ok then (false, s) else (true, s <| sws_override_deadline_ := None |>).

Definition commit_sack_recovery (s : t) (intent : PreparedTransmission) (previous_flight now : Z) : bool * t :=
  let r := range intent in
  let first := Bytes.sequence r in
  let last := range_end r in
  let selected := Scoreboard.mkNext (Scoreboard.mkRange first last) (sack_reason intent) in
  let (ok, s) := if Bytes.retransmission r then record_retransmission s first last now
                 else record_original s first last now in
  if negb ok then abandon s
  else
    let (ok, sack) := Scoreboard.commit (sack_ s) selected in
    let s := s <| sack_ := sack |> in
    if negb ok then abandon s
    else if Bytes.retransmission r
    then (true, mark_rtt_retransmitted (note_retransmission s first last now) r)
    else if previous_flight =? 0
    then (true, start_or_restart_timer (begin_failure s first last now) now)
    else (true, s).

Definition apply_intent (s : t) (intent : PreparedTransmission) (previous_flight now : Z) : bool * t :=
  let r := range intent in
  match reason intent with
  | new_data => commit_new_data s r previous_flight now
  | fast_retransmit => commit_fast_retransmit s r now
  | timeout_retransmit => commit_timeout_retransmit s r previous_flight now
  | persist_probe => commit_persist_probe s r now
  | sack_recovery => commit_sack_recovery s intent previous_flight now
  end.

(** The timer conditions of [commit]. *)
Definition timely (s : t) (intent : PreparedTransmission) (now : Z) : bool :=
  match reason intent with
  | timeout_retransmit => expired (retransmission_deadline_ s) now
  | persist_probe => Persist.due (persist_ s) now
  | _ => true
  end.

Definition commit (s : t) (intent : PreparedTransmission) (now : Z) : bool * t :=
  if negb (current s intent) || negb (timely s intent now) then (false, s)
  else
    let previous_flight := flight_size s in
    if negb (recordable s intent now) then (false, s)
    else
      let (ok, bytes) := Bytes.commit (bytes_ s) (range intent) in
      let s := s <| bytes_ := bytes |> in
      if negb ok then (false, s)
      else
        let (ok, s) := apply_intent s intent previous_flight now in
        if ok then (true, bump s) else (false, s).

(** ** Acknowledgments *)

Definition acceptable (st : Bytes.SendAcknowledgeStatus) : bool :=
  match st with Bytes.beyond_sent | Bytes.invalid => false | _ => true end.

Definition rejected (st : Scoreboard.SackUpdateStatus) : bool :=
  match st with Scoreboard.malformed | Scoreboard.capacity_exhausted => true | _ => false end.

(** The scoreboard's part: the blocks, and the cumulative point alone when the
    blocks are refused; whether there is new SACK information. *)
Definition acknowledge_sack (s : t) (acknowledgment : Z) (sack_blocks : list SackBlock) : bool * t :=
  let next := Bytes.send_next_ (bytes_ s) in
  let (st, sack) := Scoreboard.update (sack_ s) acknowledgment next
                      (if sack_enabled_ s then sack_blocks else []) in
  let (st, sack) := if rejected st then Scoreboard.update sack acknowledgment next [] else (st, sack) in
  (negb (rejected st) && Scoreboard.last_update_added_sack_ sack, s <| sack_ := sack |>).

Definition acknowledge_failure (s : t) (acknowledgment : Z) : t :=
  let s := s <| history_ := Ledger.acknowledge (history_ s) acknowledgment |>
             <| failure_ := Failures.acknowledge (failure_ s) acknowledgment |> in
  if negb (Failures.active_ (failure_ s)) && negb (receiver_window_ s =? 0) then
    match Ledger.oldest (history_ s) with
    | Some oldest => begin_failure s (Ledger.first oldest) (Ledger.end_ oldest)
                       (Ledger.first_transmitted_at oldest)
    | None => s
    end
  else s.

Definition acknowledge_congestion (s : t) (was_recovering : bool) (octets : Z) : t :=
  s <| congestion_ := if was_recovering
                      then Congested.on_sack_ack (congestion_ s) (negb (Scoreboard.in_recovery (sack_ s)))
                      else Congested.on_new_ack (congestion_ s) octets |>
    <| fast_retransmission_pending_ := false |>.

Definition observe (s : t) (sample : Z) (was_retransmitted timestamped : bool) : t :=
  s <| retransmission_ := (Estimator.observe (retransmission_ s) sample was_retransmitted timestamped).2 |>.

Definition acknowledge_rtt (s : t) (acknowledgment now : Z) (timestamp_rtt : option Z) : t :=
  let s := match timestamp_rtt with Some sample => observe s sample true true | None => s end in
  if rtt_probe_present_ s && negb (Sequence.before acknowledgment (rtt_sequence_end_ s)) then
    let s := match timestamp_rtt with
             | None => observe s (now - rtt_sent_at_ s) (rtt_probe_retransmitted_ s) false
             | Some _ => s
             end in
    s <| rtt_probe_present_ := false |> <| rtt_probe_retransmitted_ := false |>
  else s.

Definition acknowledge_timer (s : t) (now : Z) : t :=
  if flight_size s =? 0
  then s <| retransmission_deadline_ := None |> <| rtt_probe_present_ := false |>
  else start_or_restart_timer s now.

Definition acknowledge_advanced (s : t) (acknowledgment octets now : Z) (was_recovering : bool)
    (timestamp_rtt : option Z) : t :=
  let s := acknowledge_failure s acknowledgment in
  let s := acknowledge_congestion s was_recovering octets in
  let s := acknowledge_rtt s acknowledgment now timestamp_rtt in
  bump (acknowledge_timer s now).

Definition acknowledge_duplicate (s : t) : t :=
  let (action, congestion) := Congested.on_duplicate_ack (congestion_ s) (flight_size s) in
  let s := s <| congestion_ := congestion |> in
  bump (match action with
        | Congested.retransmit_oldest => s <| fast_retransmission_pending_ := true |>
        | Congested.none => s
        end).

(** The entry into SACK recovery. *)
Definition acknowledge_recovery (s : t) (new_sack_information : bool) : t :=
  if sack_enabled_ s && new_sack_information && negb (flight_size s =? 0)
     && negb (Scoreboard.in_recovery (sack_ s)) then
    let (enter, sack) := Scoreboard.duplicate_ack (sack_ s) true in
    let s := s <| sack_ := sack |> in
    if enter then
      bump (s <| sack_ := Scoreboard.enter_recovery (sack_ s) |>
              <| congestion_ := Congested.enter_sack_recovery (congestion_ s) (flight_size s) |>
              <| fast_retransmission_pending_ := false |>)
    else s
  else s.

Definition acknowledge (s : t) (acknowledgment receiver_window : Z) (duplicate_ack_eligible : bool)
    (now : Z) (timestamp_rtt : option Z) (sack_blocks : list SackBlock)
    : SenderAcknowledgeResult * t :=
  if negb (valid_ s) then (mkAcked Bytes.invalid 0 false false, s)
  else
    let '(st, octets, bytes) := Bytes.acknowledge (bytes_ s) acknowledgment in
    let s := s <| bytes_ := bytes |> in
    let sack_was_recovering := Scoreboard.in_recovery (sack_ s) in
    let (new_sack_information, s) :=
      if acceptable st then acknowledge_sack s acknowledgment sack_blocks else (false, s) in
    let s := if acceptable st
             then s <| receiver_window_ := receiver_window |>
                    <| maximum_receiver_window_ := Z.max (maximum_receiver_window_ s) receiver_window |>
             else s in
    let s :=
      match st with
      | Bytes.advanced => acknowledge_advanced s acknowledgment octets now sack_was_recovering timestamp_rtt
      | Bytes.duplicate =>
          if negb (sack_enabled_ s) && duplicate_ack_eligible && negb (flight_size s =? 0)
          then acknowledge_duplicate s else s
      | _ => s
      end in
    let s := acknowledge_recovery s new_sack_information in
    let s := update_persist s (receiver_window_ s) now in
    (mkAcked st octets (fast_retransmission_pending_ s) (Scoreboard.in_recovery (sack_ s)), s).

Definition failure_action (s : t) (now : Z) : Failures.FailureAction :=
  let timed := Failures.service (failure_ s) now in
  if aborts timed then timed else pending_failure_action_ s.

Definition take_failure_action (s : t) (now : Z) : Failures.FailureAction * t :=
  let action := failure_action s now in
  (action, match action with
           | Failures.none => s
           | _ => s <| pending_failure_action_ := Failures.none |>
           end).

(** ** Checkpoints *)

Record Checkpoint := mkCheckpoint {
  ck_bytes : Bytes.Checkpoint;
  ck_history : Ledger.Checkpoint;
  ck_failure : Failures.Checkpoint;
  ck_sack : Scoreboard.Checkpoint;
  ck_congestion : Congested.Checkpoint;
  ck_retransmission : Estimator.Checkpoint;
  ck_persist : Persist.Checkpoint;
  ck_receiver_window : Z;
  ck_maximum_receiver_window : Z;
  ck_rtt_sequence_end : Z;
  retransmission_remaining_nanoseconds : Z;
  rtt_probe_age_nanoseconds : Z;
  sws_override_remaining_nanoseconds : Z;
  ck_generation : Z;
  ck_pending_failure_action : Failures.FailureAction;
  retransmission_deadline_present : bool;
  ck_rtt_probe_present : bool;
  ck_rtt_probe_retransmitted : bool;
  ck_fast_retransmission_pending : bool;
  sws_override_deadline_present : bool;
  ck_nagle_enabled : bool;
  ck_sack_enabled : bool
}.

(** [deadline && *deadline > now ? *deadline - now : zero] *)
Definition remaining (deadline : option Z) (now : Z) : Z :=
  match deadline with Some d => if now <? d then d - now else 0 | None => 0 end.

Definition checkpoint (s : t) (now : Z) : Checkpoint :=
  mkCheckpoint (Bytes.checkpoint (bytes_ s)) (Ledger.checkpoint (history_ s) now)
    (Failures.checkpoint (failure_ s) now) (Scoreboard.checkpoint (sack_ s))
    (Congested.checkpoint (congestion_ s)) (Estimator.checkpoint (retransmission_ s))
    (Persist.checkpoint (persist_ s) now) (receiver_window_ s) (maximum_receiver_window_ s)
    (rtt_sequence_end_ s) (remaining (retransmission_deadline_ s) now)
    (if rtt_probe_present_ s && (rtt_sent_at_ s <=? now) then now - rtt_sent_at_ s else 0)
    (remaining (sws_override_deadline_ s) now) (generation_ s) (pending_failure_action_ s)
    (has_value (retransmission_deadline_ s)) (rtt_probe_present_ s) (rtt_probe_retransmitted_ s)
    (fast_retransmission_pending_ s) (has_value (sws_override_deadline_ s)) (nagle_enabled_ s)
    (sack_enabled_ s).

(** The first guard of [restore]: each part of the checkpoint by itself.  An
    enumeration of the model has no value above [abort_connection]. *)
Definition parts_valid (s : t) (state : Checkpoint) (now : Z) : bool :=
  negb (negb (valid_ s) || (ck_generation state =? 0)
    || (retransmission_remaining_nanoseconds state <? 0)
    || (rtt_probe_age_nanoseconds state <? 0)
    || (sws_override_remaining_nanoseconds state <? 0)
    || (negb (retransmission_deadline_present state)
        && negb (retransmission_remaining_nanoseconds state =? 0))
    || (negb (sws_override_deadline_present state)
        && negb (sws_override_remaining_nanoseconds state =? 0))
    || (negb (ck_rtt_probe_present state)
        && (negb (rtt_probe_age_nanoseconds state =? 0) || ck_rtt_probe_retransmitted state))
    || negb (Congested.validate_checkpoint (ck_congestion state))
    || negb (Estimator.validate_checkpoint (ck_retransmission state))
    || negb (Failures.validate_checkpoint (ck_failure state))
    || negb (Scoreboard.validate_checkpoint (ck_sack state) (Scoreboard.capacity (sack_ s)))
    || negb (Ledger.validate_checkpoint (ck_history state) (Ledger.capacity (history_ s)) now)).

(** [bytes_.capacity()] *)
Definition bytes_capacity (s : t) : Z := if Bytes.valid_ (bytes_ s) then size (Bytes.storage_ (bytes_ s)) else 0.

Definition bytes_fit (s : t) (state : Checkpoint) : bool :=
  let bytes := ck_bytes state in
  (Congested.sender_mss (ck_congestion state) =? sender_mss_ s)
  && negb (negb (size (Bytes.storage bytes) =? bytes_capacity s)
           || (size (Bytes.storage bytes) <=? Bytes.head bytes) || (Bytes.ck_generation bytes =? 0)).

Definition saved_flight (state : Checkpoint) : Z :=
  Bytes.send_next (ck_bytes state) ⊟ Bytes.send_unacknowledged (ck_bytes state).
Definition saved_queued (state : Checkpoint) : Z :=
  Bytes.write_next (ck_bytes state) ⊟ Bytes.send_unacknowledged (ck_bytes state).

Definition history_matches_flight (state : Checkpoint) : bool :=
  match ck_history state with
  | [] => saved_flight state =? 0
  | front :: _ =>
      negb (saved_flight state =? 0)
      && (Ledger.ck_first front =? Bytes.send_unacknowledged (ck_bytes state))
      && match list.last (ck_history state) with
         | Some back => Ledger.ck_end back =? Bytes.send_next (ck_bytes state)
         | None => false
         end
  end.

Definition failure_matches_window (state : Checkpoint) : bool :=
  let failure := ck_failure state in
  if (saved_flight state =? 0) || (ck_receiver_window state =? 0) then negb (Failures.active failure)
  else
    Failures.active failure
    && match ck_history state with
       | front :: _ => (Failures.segment_first failure =? Ledger.ck_first front)
                       && (Failures.segment_end failure =? Ledger.ck_end front)
       | [] => false
       end.

(** The guard across parts. *)
Definition parts_agree (state : Checkpoint) : bool :=
  let flight := saved_flight state in
  let sack := ck_sack state in
  negb ((saved_queued state <? flight) || (size (Bytes.storage (ck_bytes state)) <? saved_queued state)
    || negb (history_matches_flight state) || negb (failure_matches_window state)
    || negb (Scoreboard.high_ack sack =? Bytes.send_unacknowledged (ck_bytes state))
    || negb (Scoreboard.high_data_end sack =? Bytes.send_next (ck_bytes state))
    || negb (eqb (Scoreboard.recovery sack) (Congested.sack_recovery (ck_congestion state)))
    || (negb (ck_sack_enabled state)
        && (Scoreboard.recovery sack || negb (size (Scoreboard.ranges sack) =? 0)))
    || (ck_maximum_receiver_window state <? ck_receiver_window state)
    || ((flight =? 0) && retransmission_deadline_present state)
    || (negb (flight =? 0) && negb (retransmission_deadline_present state)
        && negb (Persist.active (ck_persist state)))
    || (sws_override_deadline_present state
        && (Bytes.send_next (ck_bytes state) =? Bytes.write_next (ck_bytes state)))
    || (ck_fast_retransmission_pending state
        && (negb (Congested.fast_recovery (ck_congestion state)) || (flight =? 0)))
    || (ck_rtt_probe_present state
        && ((flight =? 0)
            || Sequence.after (ck_rtt_sequence_end state) (Bytes.send_next (ck_bytes state))))).

(** [None] is [false]; the source restores the parts one after the other and
    stops at the first that refuses, so only a [Some] result is complete. *)
Definition restore_parts (s : t) (state : Checkpoint) (now : Z) : option t :=
  match Persist.restore Persist.initial (ck_persist state) now,
        Failures.restore Failures.initial (ck_failure state) now with
  | Some persist, Some failure =>
      match Bytes.restore (bytes_ s) (ck_bytes state), Congested.restore (congestion_ s) (ck_congestion state),
            Estimator.restore (retransmission_ s) (ck_retransmission state),
            Ledger.restore (history_ s) (ck_history state) now, Scoreboard.restore (sack_ s) (ck_sack state) with
      | Some bytes, Some congestion, Some retransmission, Some history, (true, sack) =>
          Some (s <| bytes_ := bytes |> <| congestion_ := congestion |>
                  <| retransmission_ := retransmission |> <| history_ := history |> <| sack_ := sack |>
                  <| persist_ := persist |> <| failure_ := failure |>)
      | _, _, _, _, _ => None
      end
  | _, _ => None
  end.

Definition restore (s : t) (state : Checkpoint) (now : Z) : option t :=
  if negb (parts_valid s state now) || negb (bytes_fit s state) || negb (parts_agree state)
     || (now <? rtt_probe_age_nanoseconds state) then None
  else
    match restore_parts s state now with
    | None => None
    | Some s =>
        Some (s <| receiver_window_ := ck_receiver_window state |>
                <| maximum_receiver_window_ := ck_maximum_receiver_window state |>
                <| rtt_sequence_end_ := ck_rtt_sequence_end state |>
                <| generation_ := ck_generation state |>
                <| pending_failure_action_ := ck_pending_failure_action state |>
                <| rtt_probe_present_ := ck_rtt_probe_present state |>
                <| rtt_probe_retransmitted_ := ck_rtt_probe_retransmitted state |>
                <| fast_retransmission_pending_ := ck_fast_retransmission_pending state |>
                <| nagle_enabled_ := ck_nagle_enabled state |>
                <| sack_enabled_ := ck_sack_enabled state |>
                <| rtt_sent_at_ := now - rtt_probe_age_nanoseconds state |>
                <| retransmission_deadline_ :=
                     if retransmission_deadline_present state
                     then Some (now + retransmission_remaining_nanoseconds state) else None |>
                <| sws_override_deadline_ :=
                     if sws_override_deadline_present state
                     then Some (now + sws_override_remaining_nanoseconds state) else None |>)
    end.

End Sender.
