(* ===== verification/SenderSync.v ===== *)
(** * The sender's parts stay in step (core/src/transport/tcp_sender.cpp)

    The invariant of the sender of Sender.v over every sequence of its operations:
    repository, history, scoreboard, failure detector, congestion controller and
    timers describe one flight.  Commits, acknowledgments and preparations in
    terms of that invariant. *)

From S2P Require Import Prelude Sequence Catalog Arena Blocks SendBuffer History Failure Sack SackRecovery Congestion Retransmission Timers Sender.
Import Arena Blocks.

Module SenderSync.
Import Sender.

Module Recovery := SackRecovery.SackRecovery.

(** ** What the scoreboard does for its owner *)

(** The scoreboard followed the flight to [ha, hde). *)
Record followed (s s' : Scoreboard.t) (ha hde : Z) : Prop := mkFollowed {
  fol_wf : Scoreboard.wf s';
  fol_ha : Scoreboard.high_ack_ s' = ha;
  fol_hde : Scoreboard.high_data_end_ s' = hde;
  fol_mss : Scoreboard.sender_mss_ s' = Scoreboard.sender_mss_ s;
  fol_recovery : Scoreboard.recovery_ s' = true -> Scoreboard.recovery_ s = true
}.

Lemma update_keeps s ha hde blocks :
  let s' := (Scoreboard.update s ha hde blocks).2 in
  Scoreboard.sender_mss_ s' = Scoreboard.sender_mss_ s
  /\ (Scoreboard.recovery_ s' = true -> Scoreboard.recovery_ s = true).
Proof.
  unfold Scoreboard.update. case_if; [done|].
  destruct (Scoreboard.stage_ranges _ _ _ _) as [[n|] w]; [|done].
  destruct (Scoreboard.stage_blocks _ _ _ _ _) as [[st|n'] w']; [done|].
  rewrite Scoreboard.publish_state. cbn. split; [done|]. now intros [H _]%andb_true_iff.
Qed.

Lemma update_empty s ha hde :
  Scoreboard.wf s -> Scoreboard.advance s ha hde -> rejected (Scoreboard.update s ha hde []).1 = false.
Proof.
  intros W A. destruct (Recovery.update_outcome s ha hde [] W A ltac:(done)) as [_ H].
  destruct (Scoreboard.update s ha hde []) as [[] s']; cbn in *; try done.
  - destruct H as [_ H]. inversion H.
  - destruct H as [_ H]. destruct W. unfold size in *. cbn in H. lia.
Qed.

Lemma update_followed s ha hde blocks :
  Scoreboard.wf s -> Scoreboard.advance s ha hde -> Forall Scoreboard.block_ok blocks ->
  rejected (Scoreboard.update s ha hde blocks).1 = false ->
  followed s (Scoreboard.update s ha hde blocks).2 ha hde.
Proof.
  intros W A B H. destruct (Recovery.update_outcome s ha hde blocks W A B) as [W' Ho].
  destruct (update_keeps s ha hde blocks) as [H1 H2].
  destruct (Scoreboard.update s ha hde blocks) as [[] s']; cbn in *; try done;
    destruct Ho as (E1 & E2 & _); now constructor.
Qed.

Lemma update_refused s ha hde blocks :
  Scoreboard.wf s -> Scoreboard.advance s ha hde -> Forall Scoreboard.block_ok blocks ->
  rejected (Scoreboard.update s ha hde blocks).1 = true ->
  let s' := (Scoreboard.update s ha hde blocks).2 in
  followed s s' (Scoreboard.high_ack_ s) (Scoreboard.high_data_end_ s)
  /\ Scoreboard.live s' = Scoreboard.live s.
Proof.
  intros W A B H. destruct (Recovery.update_outcome s ha hde blocks W A B) as [W' Ho].
  destruct (update_keeps s ha hde blocks) as [H1 H2].
  destruct (Scoreboard.update s ha hde blocks) as [[] s']; cbn in *; try done;
    destruct Ho as [(w & flag & ->) _]; (split; [now constructor|done]).
Qed.

(** A scoreboard without intervals gains none without blocks. *)
Lemma canonical_uncovered b hi l :
  is_u32 b -> Scoreboard.canonical b 0 hi l ->
  (forall q, is_u32 q -> q ⊟ b < hi -> Scoreboard.covered l q = false) -> l = [].
Proof.
  intros Hb Hc Hq. destruct l as [|r l]; [done|]. exfalso. destruct Hc as [[Hf He Hlo Hlt Hhi] _].
  specialize (Hq (Scoreboard.first r) Hf ltac:(lia)). unfold Scoreboard.covered in Hq. cbn [existsb] in Hq.
  apply orb_false_iff in Hq as [Hq _].
  rewrite (Scoreboard.in_range_offset b) in Hq by (done || lia). apply andb_false_iff in Hq.
  rewrite Z.leb_gt, Z.ltb_ge in Hq. lia.
Qed.

Lemma update_live_empty s ha hde :
  Scoreboard.wf s -> Scoreboard.advance s ha hde -> Scoreboard.live s = [] ->
  Scoreboard.live (Scoreboard.update s ha hde []).2 = [].
Proof.
  intros W A Hl. pose proof (update_followed s ha hde [] W A ltac:(done) (update_empty s ha hde W A)) as F.
  destruct (Recovery.update_outcome s ha hde [] W A ltac:(done)) as [W' Ho].
  pose proof (update_empty s ha hde W A) as He. destruct F as [_ F1 F2 _ _]. destruct A.
  destruct (Scoreboard.update s ha hde []) as [st s']. cbn [fst snd] in *.
  assert (Recovery.updated_to s s' ha hde []) as (_ & _ & Hc & _) by now destruct st.
  apply (canonical_uncovered ha (hde ⊟ ha)); [done| |].
  - pose proof (Scoreboard.wf_live _ W') as Hw. now rewrite F1, F2 in Hw.
  - intros q Iq Hq. rewrite Hc by done. now rewrite Hl.
Qed.

(** A segment inside the flight, or new data at its end, is always committed. *)
Lemma sack_commit s first last why :
  Scoreboard.wf s -> Scoreboard.recovery_ s = true -> is_u32 first -> is_u32 last ->
  (if Scoreboard.reason_is why Scoreboard.new_data
   then first = Scoreboard.high_data_end_ s
        /\ Scoreboard.high_data_end_ s ⊟ Scoreboard.high_ack_ s < last ⊟ Scoreboard.high_ack_ s <= two30
   else first ⊟ Scoreboard.high_ack_ s < last ⊟ Scoreboard.high_ack_ s
        <= Scoreboard.high_data_end_ s ⊟ Scoreboard.high_ack_ s) ->
  let (ok, s') := Scoreboard.commit s (Scoreboard.mkNext (Scoreboard.mkRange first last) why) in
  ok = true
  /\ followed s s' (Scoreboard.high_ack_ s)
       (if Scoreboard.reason_is why Scoreboard.new_data then last else Scoreboard.high_data_end_ s)
  /\ Scoreboard.recovery_ s' = true.
Proof.
  intros W Hr If Il H. pose proof W as []. unfold Scoreboard.commit, Scoreboard.segment_present. cbn [Scoreboard.range Scoreboard.reason Scoreboard.first Scoreboard.end_].
  rewrite wf_valid, Hr.
  assert (first <> last) as Hne by (intros ->; destruct (Scoreboard.reason_is _ _); destruct H as []; subst; lia).
  rewrite (proj2 (Z.eqb_neq _ _) Hne). cbn [negb orb].
  assert (Scoreboard.bounded_range first last = true) as ->.
  { unfold Scoreboard.bounded_range. rewrite andb_true_iff, negb_true_iff, Z.eqb_neq, Z.leb_le.
    destruct (Scoreboard.reason_is _ _); [destruct H as [-> H]|]; revert H wf_flight; clear -If Il wf_ha wf_hde; intros; word. }
  cbn [negb]. destruct (Scoreboard.reason_is why Scoreboard.new_data) eqn:En.
  - destruct H as [-> H]. rewrite Z.eqb_refl. cbn [negb]. split; [done|]. split; [|done].
    constructor; cbn; try done. apply Recovery.extend_wf; [done..|lia].
  - destruct (Recovery.bounded_inside s W (Scoreboard.mkRange first last) If Il H) as (_ & H1 & H2).
    cbn in H1, H2. rewrite H1, H2. cbn [orb].
    case_if; [split; [done|]; split; [|done]; constructor; cbn; try done;
      exact (Recovery.markers_wf s _ _ true W Hr wf_hrx wf_rp wf_hrx_in)|].
    case_if; [|split; [done|]; split; [|done]; now constructor].
    case_if; (split; [done|]; split; [|done]); constructor; cbn; try done.
    + apply (Recovery.markers_wf s last last true W Hr); auto. lia.
    + apply (Recovery.markers_wf s last _ (Scoreboard.rescue_present_ s) W Hr Il wf_rescue). lia.
Qed.

(** ** What the history and the failure detector do for their owner *)

(** An active detector tracks the oldest record. *)
Definition matches (f : Failures.t) (oldest : option Ledger.TransmissionRecord) : Prop :=
  Failures.active_ f = true ->
  exists r, oldest = Some r /\ Failures.segment_first_ f = Ledger.first r
    /\ Failures.segment_end_ f = Ledger.end_ r.

Lemma tracks_later h u n c c' :
  c <= c' -> Ledger.tracks h (Ledger.mkOwner u n c) -> Ledger.tracks h (Ledger.mkOwner u n c').
Proof.
  intros Hc []. cbn in *. constructor; cbn; auto; [lia|].
  eapply list.Forall_impl; [eassumption|]. intros r. now apply Ledger.timed_weaken.
Qed.

Lemma failure_later f c c' : c <= c' -> Failures.wf f c -> Failures.wf f c'.
Proof. intros Hc (H1 & H2 & H3). split_and!; [done|lia|lia|done]. Qed.

Lemma failure_begun f c first end_ at_ :
  Failures.wf f c -> 0 <= at_ <= c -> is_u32 first -> is_u32 end_ -> 0 < end_ ⊟ first <= two30 ->
  let f' := (Failures.begin_ f first end_ false at_).2 in
  Failures.wf f' c /\ Failures.segment_first_ f' = first /\ Failures.segment_end_ f' = end_.
Proof.
  intros (Hd & Hf & _) Ht If Ie Hl. unfold Failures.begin_.
  rewrite (proj2 (Z.eqb_neq _ _)), (proj2 (Z.ltb_ge _ _)) by lia. cbn. unfold Failures.wf. cbn.
  split_and!; auto; try done; unfold is_u32; lia.
Qed.

Lemma tracks_empty h u n c : Ledger.tracks h (Ledger.mkOwner u n c) -> u = n -> Ledger.oldest h = None.
Proof.
  intros [] ->. rewrite Ledger.oldest_spec by done. cbn in *.
  destruct (Ledger.live h) as [|r l]; [done|]. destruct track_chain as (_ & _ & Hlt & Hc).
  apply Ledger.chain_le in Hc. lia.
Qed.

Lemma tracks_oldest h u n c :
  Ledger.tracks h (Ledger.mkOwner u n c) -> u <> n -> exists r, Ledger.oldest h = Some r
  /\ Ledger.first r = u /\ is_u32 (Ledger.end_ r) /\ 0 < Ledger.end_ r ⊟ Ledger.first r <= n ⊟ u
  /\ Ledger.timed c r.
Proof.
  intros [] Hne. rewrite Ledger.oldest_spec by done. cbn in *.
  destruct (Ledger.live h) as [|r l]; [done|]. destruct track_chain as (H1 & H2 & Hlt & Hc).
  apply Ledger.chain_le in Hc. rewrite wsub_diag in Hlt. exists r.
  split_and!; auto; [rewrite H1; lia..|now apply list.Forall_cons in track_times as [? _]].
Qed.

Section Original.
Context (h : Ledger.t) (u n c octets now : Z).
Context (T : Ledger.tracks h (Ledger.mkOwner u n c)).
Context (Ho : 0 < octets) (Hf : n ⊟ u + octets <= two30) (Hnow : c <= now).
Context (Hcan : Ledger.can_record_original h n (n ⊞ octets) now = true).

Lemma original_recorded :
  let (ok, h') := Ledger.record_original h n (n ⊞ octets) now in
  ok = true /\ Ledger.tracks h' (Ledger.mkOwner u (n ⊞ octets) now)
  /\ Ledger.oldest h' = (if u =? n then Some (Ledger.mkRecord now now n (n ⊞ octets) 0) else Ledger.oldest h).
Proof.
  pose proof (Ledger.tracks_run h _ (Ledger.Original octets now) T) as R. cbn in R.
  specialize (R ltac:(done)).
  pose proof (Ledger.live_original h n (n ⊞ octets) now ltac:(apply T) Hcan) as [_ L].
  unfold Ledger.record_original in *. rewrite Hcan in *. cbn [negb snd] in *.
  split; [done|]. split; [done|]. rewrite Ledger.oldest_spec, L by apply R.
  destruct (Z.eqb_spec u n) as [E|E].
  - pose proof (tracks_empty h u n c T E) as He. rewrite Ledger.oldest_spec in He by apply T.
    now destruct (Ledger.live h).
  - rewrite Ledger.oldest_spec by apply T.
    destruct (tracks_oldest h u n c T E) as (r & Hr & _). rewrite Ledger.oldest_spec in Hr by apply T.
    now destruct (Ledger.live h).
Qed.
End Original.

Section Repair.
Context (h : Ledger.t) (u n c f e now : Z).
Context (T : Ledger.tracks h (Ledger.mkOwner u n c)) (Hnow : c <= now).
Context (Hcan : Ledger.can_record_retransmission h f e now = true).

Lemma repair_recorded :
  let (updated, h') := Ledger.record_retransmission h f e now in
  negb (updated =? 0) = true /\ Ledger.tracks h' (Ledger.mkOwner u n now)
  /\ forall d, matches d (Ledger.oldest h) -> matches d (Ledger.oldest h').
Proof.
  pose proof (Ledger.tracks_run h _ (Ledger.Repair f e now) T Hnow) as R. cbn in R.
  destruct (Ledger.live_mark_repaired h f e now ltac:(apply T)) as [Hr Hl].
  pose proof Hcan as Hx. rewrite Ledger.can_record_retransmission_spec in Hx by apply T.
  unfold Ledger.record_retransmission in *. rewrite Hcan in *. cbn [negb] in *.
  apply andb_true_iff in Hx as [_ Hx].
  assert (0 < size (filter (fun r => Ledger.hit f e r = true) (Ledger.live h))) as Hpos.
  { clear -Hx. induction (Ledger.live h) as [|r l IH]; [done|]. cbn [existsb] in Hx. rewrite filter_cons.
    case_decide as E; [unfold size; cbn [length]; lia|].
    destruct (Ledger.hit f e r); [done|]. auto. }
  assert (Ledger.count_overlaps (Z.to_nat (Ledger.count_ h)) h f e 0 0 =? 0 = false) as Hn
    by (rewrite Ledger.count_overlaps_spec; apply Z.eqb_neq; unfold Ledger.live in Hpos; lia).
  rewrite Hn in *. cbn [snd] in R. rewrite Hn. split; [done|]. split; [exact R|]. intros d Hd Ha. destruct (Hd Ha) as (r & Er & E1 & E2).
  rewrite Ledger.oldest_spec in Er |- * by done || apply T. rewrite Hl.
  destruct (Ledger.live h) as [|x l]; [done|]. cbn in Er |- *. injection Er as ->.
  eexists. split; [done|]. unfold Ledger.bump, Ledger.repaired. cases; done.
Qed.
End Repair.

Section Acked.
Context (h : Ledger.t) (u n c a : Z).
Context (T : Ledger.tracks h (Ledger.mkOwner u n c)).
Context (Ha : is_u32 a) (Hau : 0 < a ⊟ u <= n ⊟ u).

Lemma history_acknowledged : Ledger.tracks (Ledger.acknowledge h a) (Ledger.mkOwner a n c).
Proof. exact (Ledger.tracks_run h _ (Ledger.Acked a) T (conj Ha Hau)). Qed.

Lemma matches_acknowledged f :
  matches f (Ledger.oldest h) -> matches (Failures.acknowledge f a) (Ledger.oldest (Ledger.acknowledge h a)).
Proof.
  intros Hm. unfold Failures.acknowledge. destruct (Failures.active_ f) eqn:Ea; cbn [negb].
  2: { intros H. congruence. }
  destruct (Hm Ea) as (r & Er & E1 & E2). destruct (Ledger.live_acknowledge h a ltac:(apply T)) as [Hr Hl].
  rewrite Ledger.oldest_spec in Er |- * by done || apply T. rewrite Hl, E1, E2.
  destruct (Ledger.live h) as [|x l]; [done|]. cbn in Er. injection Er as ->. cbn [Ledger.trim].
  case_if; [done|]. intros _. eexists. split; [done|]. case_if; cbn; [done|]. now rewrite E1.
Qed.
End Acked.

(** ** The invariant of the composition *)

Definition una (s : t) : Z := Bytes.send_unacknowledged_ (bytes_ s).
Definition nxt (s : t) : Z := Bytes.send_next_ (bytes_ s).

(** The parts agree on the flight [SND.UNA, SND.NXT): the history covers it, the
    scoreboard spans it, the failure detector tracks its oldest segment, and the
    timers, the RTT probe and fast retransmission exist only with it. *)
Record synced (s : t) (clock : Z) : Prop := mkSynced {
  sy_valid : valid_ s = true;
  sy_bytes : Bytes.wf (bytes_ s);
  sy_history : Ledger.tracks (history_ s) (Ledger.mkOwner (una s) (nxt s) clock);
  sy_failure : Failures.wf (failure_ s) clock;
  sy_matches : matches (failure_ s) (Ledger.oldest (history_ s));
  sy_sack : Scoreboard.wf (sack_ s);
  sy_ha : Scoreboard.high_ack_ (sack_ s) = una s;
  sy_hde : Scoreboard.high_data_end_ (sack_ s) = nxt s;
  sy_sack_mss : Scoreboard.sender_mss_ (sack_ s) = sender_mss_ s;
  sy_congestion : Congested.wf (congestion_ s);
  sy_cong_mss : Congested.sender_mss_ (congestion_ s) = sender_mss_ s;
  sy_recovery : Scoreboard.recovery_ (sack_ s) = true -> Congested.sack_recovery_ (congestion_ s) = true;
  sy_disabled : sack_enabled_ s = false ->
    Scoreboard.live (sack_ s) = [] /\ Congested.sack_recovery_ (congestion_ s) = false;
  sy_estimator : Estimator.wf (retransmission_ s);
  sy_persist : Persist.wf (persist_ s);
  sy_window : is_u32 (receiver_window_ s);
  sy_maximum : receiver_window_ s <= maximum_receiver_window_ s;
  sy_maximum_u32 : is_u32 (maximum_receiver_window_ s);
  sy_deadline : una s = nxt s -> retransmission_deadline_ s = None;
  sy_probe : rtt_probe_present_ s = true ->
    is_u32 (rtt_sequence_end_ s) /\ 0 < rtt_sequence_end_ s ⊟ una s <= nxt s ⊟ una s
    /\ 0 <= rtt_sent_at_ s <= clock;
  sy_probe_off : rtt_probe_present_ s = false -> rtt_probe_retransmitted_ s = false;
  sy_fast : fast_retransmission_pending_ s = true ->
    Congested.fast_recovery_ (congestion_ s) = true /\ una s <> nxt s;
  sy_generation : is_u64 (generation_ s)
}.

(** Reads SND.UNA and SND.NXT of an updated state off the state [s] whose
    repository it keeps. *)
Ltac fold_flight s :=
  repeat match goal with
  | |- context [una ?x] => assert_fails (constr_eq x s); change (una x) with (una s)
  | |- context [nxt ?x] => assert_fails (constr_eq x s); change (nxt x) with (nxt s)
  end.

Section Invariant.
Context (s : t) (clock : Z) (Y : synced s clock).

Lemma synced_flight : flight_size s = nxt s ⊟ una s.
Proof. apply Bytes.send_flight, Y. Qed.

Lemma synced_words : is_u32 (una s) /\ is_u32 (nxt s) /\ 0 <= nxt s ⊟ una s <= two30.
Proof.
  destruct Y. destruct (Bytes.send_counters _ sy_bytes0) as (Hf & Hq & _).
  rewrite <- synced_flight. destruct sy_bytes0 as (_ & _ & Iu & In & _). unfold una, nxt, flight_size. auto with lia.
Qed.

Lemma sender_flight_zero : (flight_size s =? 0) = (una s =? nxt s).
Proof.
  rewrite synced_flight. destruct synced_words as (Iu & In & _).
  apply eq_true_iff_eq. rewrite !Z.eqb_eq. clear -Iu In. word.
Qed.

Lemma synced_later now : clock <= now -> synced s now.
Proof.
  intros Hn. destruct Y. constructor; auto.
  - now apply tracks_later with clock.
  - now apply failure_later with clock.
  - intros H. destruct (sy_probe0 H) as (? & ? & ?). split_and!; [done|lia..].
Qed.

Lemma synced_bump : synced (bump s) clock.
Proof. destruct Y. constructor; cbn; auto with word. Qed.

Lemma synced_update_persist w now : synced (update_persist s w now) clock.
Proof. destruct Y. constructor; cbn; auto. now apply Persist.persist_wf_update. Qed.

Lemma synced_override deadline : synced (s <| sws_override_deadline_ := deadline |>) clock.
Proof. destruct Y. constructor; cbn; auto. Qed.

Lemma synced_timer now : una s <> nxt s -> synced (start_or_restart_timer s now) clock.
Proof. intros H. destruct Y. constructor; cbn; auto. intros E. now destruct H. Qed.

Lemma synced_observe sample x y : synced (observe s sample x y) clock.
Proof.
  destruct Y. constructor; cbn; auto.
  exact (Estimator.estimator_wf_apply _ (Estimator.Observe sample x y) sy_estimator0).
Qed.

(** The failure detector starts on the oldest record. *)
Lemma synced_begin r at_ :
  Ledger.oldest (history_ s) = Some r -> 0 <= at_ <= clock ->
  synced (begin_failure s (Ledger.first r) (Ledger.end_ r) at_) clock.
Proof.
  intros Hr Ht. destruct Y. destruct synced_words as (Iu & In & Hf).
  assert (una s <> nxt s) as Hne.
  { intros E. rewrite (tracks_empty _ _ _ _ sy_history0 E) in Hr. discriminate. }
  destruct (tracks_oldest _ _ _ _ sy_history0 Hne) as (r' & Hr' & E1 & E2 & E3 & E4).
  rewrite Hr in Hr'. injection Hr' as <-. rewrite <- E1 in Iu.
  destruct (failure_begun (failure_ s) clock (Ledger.first r) (Ledger.end_ r) at_) as (H1 & H2 & H3);
    auto; [lia|].
  constructor; cbn; auto. intros _. now exists r.
Qed.

Lemma synced_probe now :
  una s <> nxt s -> 0 <= now <= clock ->
  synced (s <| rtt_sequence_end_ := nxt s |> <| rtt_sent_at_ := now |>
            <| rtt_probe_present_ := true |> <| rtt_probe_retransmitted_ := false |>) clock.
Proof.
  intros Hne Hn. destruct (synced_words) as (Iu & In & Hf). destruct Y. constructor; cbn; auto.
  intros _. fold_flight s. split_and!; auto; try lia. revert Hne. clear -Iu In. word.
Qed.

(** [note_retransmission] and [mark_rtt_retransmitted] move no boundary. *)
Lemma synced_note first end_ now : clock <= now -> synced (note_retransmission s first end_ now) now.
Proof.
  intros Hn. destruct (synced_later now Hn). unfold note_retransmission.
  pose proof (Failures.failure_wf_retransmitted (failure_ s) first end_ now clock ltac:(apply Y) Hn) as Hw.
  assert (matches (Failures.retransmitted (failure_ s) first end_ now).2 (Ledger.oldest (history_ s))) as Hm.
  { unfold Failures.retransmitted. case_if; [done|]. cbv zeta.
    repeat case_if; cbn [snd]; intros Ha; apply sy_matches0; exact Ha. }
  destruct (Failures.retransmitted _ _ _ _) as [action f]. cbn [snd] in *.
  destruct action; try destruct (pending_failure_action_ _); constructor; cbn; auto.
Qed.

Lemma synced_mark r : synced (mark_rtt_retransmitted s r) clock.
Proof.
  unfold mark_rtt_retransmitted. destruct (rtt_probe_present_ s) eqn:Ep; cbn [negb]; [|done].
  case_if; [|done]. destruct Y. constructor; cbn; auto. congruence.
Qed.
(** A scoreboard that spans the same flight. *)
Lemma synced_sack k :
  followed (sack_ s) k (una s) (nxt s) ->
  (sack_enabled_ s = false -> Scoreboard.live k = []) -> synced (s <| sack_ := k |>) clock.
Proof.
  intros [] Hl. destruct Y. constructor; cbn; fold_flight s; auto; [congruence|].
  intros H. destruct (sy_disabled0 H). auto.
Qed.

(** The state after a timeout. *)
Lemma synced_timed_out now :
  una s <> nxt s ->
  let s' := s <| congestion_ := Congested.on_retransmission_timeout (congestion_ s) (flight_size s) |>
              <| sack_ := Scoreboard.on_retransmission_timeout (sack_ s) |>
              <| retransmission_ := (Estimator.on_timeout (retransmission_ s) false).2 |> in
  synced ((start_or_restart_timer s' now) <| fast_retransmission_pending_ := false |>) clock.
Proof.
  intros Hne. destruct synced_words as (Iu & In & Hf). rewrite synced_flight. destruct Y.
  pose proof (Recovery.handle_wf _ Recovery.Timeout sy_sack0 I) as Hs. cbn in Hs.
  pose proof (Congested.congestion_wf_apply _ (Congested.Timeout (nxt s ⊟ una s)) sy_congestion0) as Hc.
  cbn in Hc. specialize (Hc (u32_range _)).
  pose proof (Estimator.estimator_wf_apply _ (Estimator.TimedOut false) sy_estimator0) as He. cbn in He.
  unfold Scoreboard.on_retransmission_timeout in *. rewrite (Scoreboard.wf_valid _ sy_sack0) in *. cbn [negb] in *.
  constructor; cbn; fold_flight s; auto; done.
Qed.
End Invariant.

Lemma note_keeps s first end_ now :
  bytes_ (note_retransmission s first end_ now) = bytes_ s
  /\ congestion_ (note_retransmission s first end_ now) = congestion_ s.
Proof.
  unfold note_retransmission. destruct (Failures.retransmitted _ _ _ _) as [[] f]; [done| |done].
  now destruct (pending_failure_action_ _).
Qed.

Lemma mark_keeps s r : bytes_ (mark_rtt_retransmitted s r) = bytes_ s.
Proof. unfold mark_rtt_retransmitted. cases; done. Qed.

(** Arming after new data, which may be the first of the flight. *)
Lemma synced_arm s clock first last previous_flight now :
  synced s clock -> una s <> nxt s -> last = nxt s -> 0 <= now <= clock ->
  (previous_flight =? 0 = true ->
   exists r, Ledger.oldest (history_ s) = Some r /\ Ledger.first r = first /\ Ledger.end_ r = last) ->
  synced (arm_new_data s first last previous_flight now) clock.
Proof.
  intros Y Hne -> Hn Ho. unfold arm_new_data.
  assert (forall x, synced x clock -> una x = una s -> nxt x = nxt s ->
    synced (let x := if negb (rtt_probe_present_ x)
                     then x <| rtt_sequence_end_ := nxt s |> <| rtt_sent_at_ := now |>
                            <| rtt_probe_present_ := true |> <| rtt_probe_retransmitted_ := false |>
                     else x in
            let x := if previous_flight =? 0 then start_or_restart_timer x now else x in
            x <| sws_override_deadline_ := None |>) clock) as Hrest.
  { intros x Yx Eu En. cbv zeta. apply synced_override.
    assert (forall y, synced y clock -> una y = una s -> nxt y = nxt s ->
      synced (if previous_flight =? 0 then start_or_restart_timer y now else y) clock) as Ht.
    { intros y Yy E1 E2. case_if; [|done]. apply synced_timer; [done|congruence]. }
    apply Ht; case_if; cbn; auto. rewrite <- En. apply synced_probe; auto. congruence. }
  destruct (previous_flight =? 0); [|now apply Hrest].
  destruct (Ho eq_refl) as (r & Hr & <- & El). rewrite <- El. rewrite <- El in Hrest.
  apply Hrest; [now apply synced_begin|done..].
Qed.

(** ** Commits *)

(** What every preparation returns: a range of 32-bit words, repairs for repair
    reasons of the scoreboard and new octets for its new data. *)
Definition shaped (intent : PreparedTransmission) : Prop :=
  is_u32 (Bytes.sequence (range intent)) /\ is_u32 (Bytes.length (range intent))
  /\ (reason intent = sack_recovery ->
      Bytes.retransmission (range intent)
      = negb (Scoreboard.reason_is (sack_reason intent) Scoreboard.new_data)).

Section Commit.
Context (s : t) (clock now : Z) (Y : synced s clock) (Hnow : clock <= now).
Context (r : Bytes.PreparedSendRange) (Is : is_u32 (Bytes.sequence r)) (Il : is_u32 (Bytes.length r)).
Context (Hcur : Bytes.range_is_current (bytes_ s) r = true).

Abbreviation first := (Bytes.sequence r).
Abbreviation last := (range_end r).
Abbreviation fresh := (Bytes.retransmission r = false).
Abbreviation moved := (s <| bytes_ := (Bytes.commit (bytes_ s) r).2 |>).

Lemma bytes_moved :
  (Bytes.commit (bytes_ s) r).1 = true /\ Bytes.wf (bytes_ moved)
  /\ una moved = una s /\ nxt moved = (if Bytes.retransmission r then nxt s else last)
  /\ (fresh -> first = nxt s /\ 0 < Bytes.length r /\ nxt s ⊟ una s + Bytes.length r <= two30
       /\ last ⊟ una s = nxt s ⊟ una s + Bytes.length r)
  /\ (Bytes.retransmission r = true -> first ⊟ una s < last ⊟ una s <= nxt s ⊟ una s).
Proof.
  pose proof (sy_bytes _ _ Y) as W. destruct (synced_words s clock Y) as (Iu & In & Hf).
  pose proof (Bytes.send_range_current _ r W Hcur Is Il) as (Hl & _ & H0 & Hq & Hrt & Hnew).
  destruct (Bytes.send_counters _ W) as (Hfl & Hcap & Hun & _).
  pose proof (Bytes.send_commit_counters _ r W Hcur Is Il) as Hc.
  assert (Bytes.send_next_ (Bytes.commit (bytes_ s) r).2
    = if Bytes.retransmission r then nxt s else nxt s ⊞ Bytes.length r) as Eb.
  { unfold Bytes.commit. rewrite Hcur. cbn [negb snd]. now destruct (Bytes.retransmission r). }
  destruct (Bytes.commit (bytes_ s) r) as [ok b]. destruct Hc as (-> & Wb & _ & _ & Eu & _).
  cbn [snd] in Eb. unfold una, nxt in *. cbn. split_and!; auto.
  - rewrite Eb. unfold nxt. destruct (Bytes.retransmission r) eqn:E; [done|].
    destruct (Hnew eq_refl) as (_ & E1 & _). unfold range_end. now rewrite E1.
  - intros E. destruct (Hnew E) as (E0 & E1 & E2). rewrite (synced_flight s clock Y : Bytes.flight_size (bytes_ s) = _) in *.
    unfold una, nxt in *. split_and!; auto; [lia|]. unfold range_end. rewrite E1.
    revert E2 Hcap Hun Hfl Hl. clear -Iu In. intros. word.
  - intros E. specialize (Hrt E). rewrite (synced_flight s clock Y : Bytes.flight_size (bytes_ s) = _) in *.
    unfold una, nxt in *. unfold range_end. revert Hrt Hl H0 Hf. clear -Iu In Is Il. intros. word.
Qed.
Lemma moved_repair : Bytes.retransmission r = true -> synced moved now.
Proof.
  intros E. destruct bytes_moved as (_ & Wb & Eu & En & _ & _). rewrite E in En.
  destruct (synced_later s clock Y now Hnow). constructor; rewrite ?Eu, ?En; auto.
Qed.

(** The history records the new octets and the scoreboard spans them. *)
Lemma moved_original h k :
  fresh ->
  Ledger.tracks h (Ledger.mkOwner (una s) last now) ->
  Ledger.oldest h = (if una s =? nxt s then Some (Ledger.mkRecord now now first last 0)
                     else Ledger.oldest (history_ s)) ->
  followed (sack_ s) k (una s) last ->
  (sack_enabled_ s = false -> Scoreboard.live k = []) ->
  let x := moved <| history_ := h |> <| sack_ := k |> in
  synced x now /\ una s <> last /\ una x <> nxt x /\ last = nxt x.
Proof.
  intros E Th Ho F Hl. destruct bytes_moved as (_ & Wb & Eu & En & Hf & _).
  rewrite E in En. destruct (Hf E) as (E1 & H0 & H2 & H3). destruct F.
  destruct (synced_words s clock Y) as (Iu & In & Hfl).
  assert (una s <> last) as Hne by (intros Ex; rewrite <- Ex, wsub_diag in H3; lia).
  intros x. assert (una x = una s) as Eux by exact Eu. assert (nxt x = last) as Enx by exact En.
  rewrite Eux, Enx. split; [|done].
  destruct (synced_later s clock Y now Hnow). constructor; rewrite ?Eux, ?Enx; cbn; auto; try congruence.
  - rewrite Ho. destruct (Z.eqb_spec (una s) (nxt s)) as [Ez|]; [|done]. intros Ha.
    destruct (sy_matches0 Ha) as (o & Eo & _). rewrite (tracks_empty _ _ _ _ sy_history0 Ez) in Eo. discriminate.
  - intros Hd. destruct (sy_disabled0 Hd). auto.
  - intros Hp. destruct (sy_probe0 Hp) as (? & ? & ?). split_and!; auto; lia.
  - intros Hp. destruct (sy_fast0 Hp). done.
Qed.

(** The two halves of a commit in the history. *)
Lemma repair_committed :
  Bytes.retransmission r = true -> Ledger.can_record_retransmission (history_ s) first last now = true ->
  let (ok, s') := record_retransmission moved first last now in
  ok = true /\ synced s' now /\ una s' = una s /\ nxt s' = nxt s.
Proof.
  intros E Hcan. pose proof (moved_repair E) as Ym. destruct bytes_moved as (_ & _ & Eu & En & _). rewrite E in En.
  unfold record_retransmission. cbn [history_ set_field].
  pose proof (repair_recorded (history_ s) (una s) (nxt s) clock first last now ltac:(apply Y) Hnow Hcan) as H.
  destruct (Ledger.record_retransmission _ _ _ _) as [n h]. destruct H as (H1 & H2 & H3).
  match goal with |- _ /\ synced ?y _ /\ _ => set (x := y) end. split; [done|].
  assert (una x = una s) as Eux by exact Eu. assert (nxt x = nxt s) as Enx by exact En.
  split; [|done]. destruct Ym. rewrite Eu, En in *. constructor; rewrite ?Eux, ?Enx; cbn; auto.
Qed.

Lemma original_committed :
  fresh -> Ledger.can_record_original (history_ s) first last now = true ->
  let (ok, h) := Ledger.record_original (history_ s) first last now in
  ok = true /\ Ledger.tracks h (Ledger.mkOwner (una s) last now)
  /\ Ledger.oldest h = (if una s =? nxt s then Some (Ledger.mkRecord now now first last 0)
                        else Ledger.oldest (history_ s)).
Proof.
  intros E Hcan. destruct bytes_moved as (_ & _ & _ & _ & Hf & _). destruct (Hf E) as (E1 & H0 & H2 & H3).
  unfold range_end in *. rewrite E1 in *.
  now apply (original_recorded (history_ s) (una s) (nxt s) clock (Bytes.length r) now (sy_history _ _ Y)).
Qed.

(** The scoreboard follows new octets. *)
Lemma sack_extended :
  fresh ->
  let (st, k) := Scoreboard.update (sack_ s) (una s) last [] in
  rejected st = false /\ followed (sack_ s) k (una s) last
  /\ (sack_enabled_ s = false -> Scoreboard.live k = []).
Proof.
  intros E. destruct bytes_moved as (_ & _ & _ & _ & Hf & _). destruct (Hf E) as (E1 & H0 & H2 & H3).
  destruct (synced_words s clock Y) as (Iu & In & Hfl).
  assert (Scoreboard.advance (sack_ s) (una s) last) as A.
  { constructor; rewrite ?(sy_ha _ _ Y), ?(sy_hde _ _ Y), ?wsub_diag; try done; try apply u32_range; lia. }
  pose proof (update_empty _ _ _ (sy_sack _ _ Y) A) as He.
  pose proof (update_followed _ _ _ [] (sy_sack _ _ Y) A ltac:(done) He) as F.
  pose proof (update_live_empty _ _ _ (sy_sack _ _ Y) A) as Hl.
  destruct (Scoreboard.update _ _ _ _) as [st k]. cbn in *. split_and!; auto.
  intros Hd. apply Hl. now apply (sy_disabled _ _ Y).
Qed.
(** New octets in the history and on the scoreboard. *)
Lemma original_extended :
  fresh -> Ledger.can_record_original (history_ s) first last now = true ->
  let (ok, s1) := record_original moved first last now in
  let (ok', s2) := extend_sack s1 in
  ok = true /\ ok' = true /\ synced s2 now /\ persist_ s2 = persist_ s
  /\ una s2 <> nxt s2 /\ last = nxt s2
  /\ (flight_size s =? 0 = true ->
      Ledger.oldest (history_ s2) = Some (Ledger.mkRecord now now first last 0)).
Proof.
  intros E Hcan. pose proof (original_committed E Hcan) as H. pose proof (sack_extended E) as K.
  destruct bytes_moved as (_ & _ & Eu & En & _). rewrite E in En.
  unfold record_original. change (history_ moved) with (history_ s).
  destruct (Ledger.record_original _ _ _ _) as [ok h]. destruct H as (-> & Th & Ho).
  unfold extend_sack. change (Bytes.send_unacknowledged_ (bytes_ _)) with (una moved).
  change (Bytes.send_next_ (bytes_ _)) with (nxt moved). rewrite Eu, En.
  change (sack_ (moved <| history_ := h |>)) with (sack_ s).
  destruct (Scoreboard.update _ _ _ _) as [st k]. destruct K as (Hst & F & Hl).
  destruct (moved_original h k E Th Ho F Hl) as (Yx & Hne & Hne' & Enx).
  split_and!; try done; [now destruct st|]. intros Hz.
  rewrite (sender_flight_zero s clock Y) in Hz. rewrite Hz in Ho. exact Ho.
Qed.

Lemma new_data_committed :
  fresh -> Ledger.can_record_original (history_ s) first last now = true ->
  let (ok, s') := commit_new_data moved r (flight_size s) now in ok = true /\ synced s' now.
Proof.
  intros E Hcan. pose proof (original_extended E Hcan) as H. unfold commit_new_data.
  destruct (record_original _ _ _ _) as [ok s1], (extend_sack s1) as [ok' s2].
  destruct H as (-> & -> & Yx & _ & Hne & El & Ho). cbn [negb]. split; [done|].
  pose proof (Ledger.track_clock _ _ (sy_history _ _ Yx)) as H0. cbn in H0.
  apply synced_arm; auto; [lia|]. intros Hz. eexists. split; [now apply Ho|done].
Qed.

Lemma probe_committed :
  (if Bytes.retransmission r then Ledger.can_record_retransmission (history_ s) first last now
   else Ledger.can_record_original (history_ s) first last now) = true ->
  Persist.due (persist_ s) now = true ->
  let (ok, s') := commit_persist_probe moved r now in ok = true /\ synced s' now.
Proof.
  intros Hcan Hdue.
  assert (forall x, synced x now -> persist_ x = persist_ s ->
    let (ok, s') := let (ok, persist) := Persist.probe_committed (persist_ (mark_rtt_retransmitted x r)) now in
                    let s := (mark_rtt_retransmitted x r) <| persist_ := persist |> in
                    if negb ok then (false, s) else (true, s <| sws_override_deadline_ := None |>) in
    ok = true /\ synced s' now) as Hrest.
  { intros x Yx Ep. assert (persist_ (mark_rtt_retransmitted x r) = persist_ s) as ->
      by (rewrite <- Ep; unfold mark_rtt_retransmitted; cases; done).
    pose proof (Persist.persist_wf_probe_committed (persist_ s) now ltac:(apply Y)) as Hp.
    unfold Persist.probe_committed, Persist.due in *. destruct (Persist.deadline_ (persist_ s)) as [d|]; [|done].
    apply Z.leb_le in Hdue. rewrite (proj2 (Z.ltb_ge _ _)) in * by lia. cbn [negb snd] in *. split; [done|].
    apply synced_override. destruct (synced_mark x now Yx r). constructor; cbn; auto. }
  unfold commit_persist_probe. destruct (Bytes.retransmission r) eqn:E.
  - pose proof (repair_committed E Hcan) as H. unfold record_retransmission in *.
    change (history_ moved) with (history_ s) in *.
    destruct (Ledger.record_retransmission _ _ _ _) as [n h]. destruct H as (Hn & Yx & _).
    rewrite Hn. cbn [negb]. now apply Hrest.
  - pose proof (original_extended E Hcan) as H.
    destruct (record_original _ _ _ _) as [ok s1]. destruct (extend_sack s1) as [ok' s2].
    destruct H as (-> & -> & Yx & Ep & _). cbn [negb]. now apply Hrest.
Qed.

Lemma fast_committed :
  Bytes.retransmission r = true -> Ledger.can_record_retransmission (history_ s) first last now = true ->
  let (ok, s') := commit_fast_retransmit moved r now in ok = true /\ synced s' now.
Proof.
  intros E Hcan. pose proof (repair_committed E Hcan) as H. unfold commit_fast_retransmit.
  destruct (record_retransmission _ _ _ _) as [ok x]. destruct H as (-> & Yx & _). cbn [negb].
  split; [done|].
  pose proof (synced_mark _ _ (synced_note x now Yx first last now ltac:(lia)) r) as [].
  constructor; cbn; auto. done.
Qed.

Lemma timeout_committed :
  Bytes.retransmission r = true -> Ledger.can_record_retransmission (history_ s) first last now = true ->
  let (ok, s') := commit_timeout_retransmit moved r (flight_size s) now in ok = true /\ synced s' now.
Proof.
  intros E Hcan. pose proof (repair_committed E Hcan) as H. unfold commit_timeout_retransmit.
  destruct (record_retransmission _ _ _ _) as [ok x]. destruct H as (-> & Yx & Eu & En). cbn [negb].
  split; [done|].
  pose proof (synced_mark _ _ (synced_note x now Yx first last now ltac:(lia)) r) as Ym.
  assert (Hb : bytes_ (mark_rtt_retransmitted (note_retransmission x first last now) r) = bytes_ x)
    by (rewrite mark_keeps; apply note_keeps).
  set (m := mark_rtt_retransmitted _ r) in *.
  assert (una m = una s /\ nxt m = nxt s) as [Eum Enm] by (unfold una, nxt in *; now rewrite Hb).
  assert (flight_size s = flight_size m) as -> by (rewrite (synced_flight s clock Y), (synced_flight m now Ym); congruence).
  apply synced_timed_out; [done|]. rewrite Eum, Enm.
  destruct bytes_moved as (_ & _ & _ & _ & _ & Hr). specialize (Hr E). intros Ex. rewrite Ex, wsub_diag in Hr.
  pose proof (u32_range (first - nxt s)) as R. unfold is_u32 in R. lia.
Qed.
(** A segment of the scoreboard's choice. *)
Lemma recovery_committed why :
  Bytes.retransmission r = negb (Scoreboard.reason_is why Scoreboard.new_data) ->
  (if Bytes.retransmission r then Ledger.can_record_retransmission (history_ s) first last now
   else Ledger.can_record_original (history_ s) first last now) = true ->
  Scoreboard.recovery_ (sack_ s) = true ->
  let (ok, s') := commit_sack_recovery moved (mkPrepared r sack_recovery why (generation_ s))
                    (flight_size s) now in
  ok = true /\ synced s' now.
Proof.
  intros Hk Hcan Hrec. destruct bytes_moved as (_ & _ & Eu & En & Hf & Hr).
  pose proof (sack_commit (sack_ s) first last why (sy_sack _ _ Y) Hrec Is (u32_range _)) as K.
  rewrite (sy_ha _ _ Y), (sy_hde _ _ Y) in K. unfold commit_sack_recovery. cbn [range sack_reason].
  destruct (Bytes.retransmission r) eqn:E.
  - destruct (Scoreboard.reason_is why Scoreboard.new_data); [discriminate|]. specialize (K (Hr eq_refl)).
    pose proof (repair_committed E Hcan) as H. unfold record_retransmission in *.
    change (history_ moved) with (history_ s) in *.
    destruct (Ledger.record_retransmission _ _ _ _) as [n h]. destruct H as (Hn & Yx & Eux & Enx).
    rewrite Hn. cbn [negb]. change (sack_ (moved <| history_ := h |>)) with (sack_ s).
    destruct (Scoreboard.commit _ _) as [ok k]. destruct K as (-> & [] & Hk'). cbn [negb]. split; [done|].
    apply synced_mark. apply synced_note with now; [|lia]. set (x := moved <| history_ := h |>) in *.
    apply (synced_sack x now Yx); [rewrite Eux, Enx; now constructor|]. intros Hd.
    destruct (sy_disabled _ _ Yx Hd) as [_ Hs]. rewrite (sy_recovery _ _ Yx Hrec) in Hs. discriminate.
  - destruct (Scoreboard.reason_is why Scoreboard.new_data); [|discriminate].
    destruct (Hf eq_refl) as (E1 & H0 & H2 & H3).
    assert (nxt s ⊟ una s < last ⊟ una s <= two30) as Hlt by lia.
    specialize (K (conj E1 Hlt)). pose proof (original_committed E Hcan) as H.
    unfold record_original. change (history_ moved) with (history_ s).
    destruct (Ledger.record_original _ _ _ _) as [ok h]. destruct H as (-> & Th & Ho). cbn [negb].
    change (sack_ (moved <| history_ := h |>)) with (sack_ s).
    destruct (Scoreboard.commit _ _) as [ok k]. destruct K as (-> & F & Hk'). cbn [negb].
    destruct (moved_original h k E Th Ho F) as (Yx & Hne & Hne' & Enx).
    { intros Hd. destruct (sy_disabled _ _ Y Hd) as [_ Hs]. rewrite (sy_recovery _ _ Y Hrec) in Hs. discriminate. }
    pose proof (Ledger.track_clock _ _ Th) as H00. cbn in H00.
    destruct (flight_size s =? 0) eqn:Hz; (split; [done|]); [|exact Yx].
    apply synced_timer; [|exact Hne'].
    rewrite (sender_flight_zero s clock Y) in Hz. rewrite Hz in Ho.
    exact (synced_begin _ now Yx (Ledger.mkRecord now now first last 0) now Ho ltac:(lia)).
Qed.
End Commit.

(** The conditions under which a commit takes effect. *)
Definition ready (s : t) (intent : PreparedTransmission) (now : Z) : bool :=
  current s intent && timely s intent now && recordable s intent now
  && Bytes.range_is_current (bytes_ s) (range intent).

Lemma apply_committed s clock intent now :
  synced s clock -> clock <= now -> shaped intent -> ready s intent now = true ->
  let s1 := s <| bytes_ := (Bytes.commit (bytes_ s) (range intent)).2 |> in
  let (ok, s') := apply_intent s1 intent (flight_size s) now in ok = true /\ synced s' now.
Proof.
  intros Y Hnow (Is & Il & Hk) Hr s1. unfold ready in Hr.
  apply andb_true_iff in Hr as [[[Hc Ht]%andb_true_iff Hrec]%andb_true_iff Hb].
  unfold current in Hc. destruct (_ || _) in Hc; [discriminate|].
  unfold timely, recordable, apply_intent in *. destruct intent as [r why sack g]. cbn in *.
  destruct why.
  - apply negb_true_iff in Hc. now apply (new_data_committed s clock now Y Hnow r Is Il Hb).
  - apply andb_true_iff in Hc as [Hc _]. now apply (fast_committed s clock now Y Hnow r Is Il Hb).
  - apply andb_true_iff in Hc as [Hc _]. now apply (timeout_committed s clock now Y Hnow r Is Il Hb).
  - now apply (probe_committed s clock now Y Hnow r Is Il Hb).
  - apply andb_true_iff in Hc as [_ Hc].
    exact (recovery_committed s clock now Y Hnow r Is Il Hb sack (Hk eq_refl) Hrec Hc).
Qed.

Lemma commit_outcome s clock intent now :
  synced s clock -> clock <= now -> shaped intent ->
  if ready s intent now
  then exists s', commit s intent now = (true, s') /\ synced s' now
  else commit s intent now = (false, s).
Proof.
  intros Y Hnow Hs. destruct (ready s intent now) eqn:Hr.
  - pose proof (apply_committed s clock intent now Y Hnow Hs Hr) as H. cbn zeta in H.
    unfold ready in Hr. apply andb_true_iff in Hr as [[[Hc Ht]%andb_true_iff Hrec]%andb_true_iff Hb].
    unfold commit. rewrite Hc, Ht, Hrec. cbn [negb orb].
    assert ((Bytes.commit (bytes_ s) (range intent)).1 = true) as Hok
      by (unfold Bytes.commit; now rewrite Hb).
    destruct (Bytes.commit (bytes_ s) (range intent)) as [ok b]. cbn in Hok. subst ok. cbn [negb snd] in *.
    destruct (apply_intent _ _ _ _) as [ok s']. destruct H as [-> Y']. exists (bump s').
    split; [done|]. now apply synced_bump.
  - unfold ready in Hr. unfold commit, Bytes.commit.
    destruct (current s intent), (timely s intent now), (recordable s intent now),
      (Bytes.range_is_current _ _); try discriminate; cbn; try done. now destruct s.
Qed.

(** ** Acknowledgments *)

(** The scoreboard follows a cumulative acknowledgment, whatever its blocks. *)
Lemma cumulative_sack k ha hde blocks :
  Scoreboard.wf k -> Scoreboard.advance k ha hde -> Forall Scoreboard.block_ok blocks ->
  let (st, k1) := Scoreboard.update k ha hde blocks in
  let (st', k2) := if rejected st then Scoreboard.update k1 ha hde [] else (st, k1) in
  rejected st' = false /\ followed k k2 ha hde
  /\ (blocks = [] -> Scoreboard.live k = [] -> Scoreboard.live k2 = []).
Proof.
  intros W A B. pose proof (update_refused k ha hde blocks W A B) as Hr.
  pose proof (update_followed k ha hde blocks W A B) as Hf.
  pose proof (update_live_empty k ha hde W A) as Hl. pose proof (update_empty k ha hde W A) as He.
  destruct (Scoreboard.update k ha hde blocks) as [st k1] eqn:Eu. cbn [fst snd] in *.
  destruct (rejected st) eqn:Est.
  - destruct (Hr eq_refl) as [[W1 E1 E2 E3 E4] El].
    assert (Scoreboard.advance k1 ha hde) as A1 by (destruct A; constructor; rewrite ?E1, ?E2; auto).
    pose proof (update_empty k1 ha hde W1 A1) as He1.
    pose proof (update_followed k1 ha hde [] W1 A1 ltac:(done) He1) as [].
    pose proof (update_live_empty k1 ha hde W1 A1) as Hl1.
    destruct (Scoreboard.update k1 ha hde []) as [st' k2]. cbn in *. split_and!; [done| |].
    + constructor; auto; congruence.
    + intros _ Hk. apply Hl1. congruence.
  - split_and!; [done|now apply Hf|]. intros -> Hk. rewrite Eu in Hl. now apply Hl.
Qed.

#[local] Existing Instance Scoreboard.t_settable.

(** An old acknowledgment leaves it alone. *)
Lemma stale_sack k ack hde blocks :
  Scoreboard.wf k -> is_u32 ack -> hde = Scoreboard.high_data_end_ k ->
  Sequence.after ack (Scoreboard.high_ack_ k) = false -> ack <> Scoreboard.high_ack_ k ->
  Scoreboard.update k ack hde blocks
  = (Scoreboard.malformed, k <| Scoreboard.last_update_added_sack_ := false |>).
Proof.
  intros [] Ia -> Ha Hne. unfold Scoreboard.update. cbn.
  assert (Sequence.before ack (Scoreboard.high_ack_ k) || (two30 <? Scoreboard.high_data_end_ k ⊟ ack) = true) as H.
  { unfold Sequence.after, Sequence.before, Sequence.half_space in *. rewrite orb_true_iff, andb_true_iff, negb_true_iff, Z.eqb_neq, !Z.ltb_lt.
    apply andb_false_iff in Ha. rewrite negb_false_iff, Z.eqb_eq, Z.ltb_ge in Ha.
    revert Ha Hne wf_flight. clear -Ia wf_ha wf_hde. word. }
  apply orb_true_iff in H as [H|H]; rewrite H, ?orb_true_r; done.
Qed.

(** The scoreboard's part of an acknowledgment that moves SND.UNA from [u] to
    [ack], or moves nothing. *)
Lemma sack_acknowledged s ack blocks u :
  Scoreboard.wf (sack_ s) -> Scoreboard.high_ack_ (sack_ s) = u -> Scoreboard.high_data_end_ (sack_ s) = nxt s ->
  is_u32 u -> is_u32 (nxt s) -> is_u32 ack -> nxt s ⊟ u <= two30 -> Forall Scoreboard.block_ok blocks ->
  (0 < ack ⊟ u <= nxt s ⊟ u /\ una s = ack
   \/ Sequence.after ack u = false /\ una s = u) ->
  exists k new, acknowledge_sack s ack blocks = (new, s <| sack_ := k |>)
    /\ followed (sack_ s) k (una s) (nxt s)
    /\ (sack_enabled_ s = false -> Scoreboard.live (sack_ s) = [] -> Scoreboard.live k = []).
Proof.
  intros W Eh Ed Iu In Ia Hf B Hc. unfold acknowledge_sack. fold (nxt s).
  set (bl := if sack_enabled_ s then blocks else []).
  assert (Forall Scoreboard.block_ok bl) as B' by (unfold bl; now case_if).
  destruct (decide (ack ⊟ u <= nxt s ⊟ u /\ una s = ack)) as [[H1 H2]|Hn].
  - pose proof (cumulative_sack (sack_ s) ack (nxt s) bl W) as H.
    destruct (Scoreboard.update (sack_ s) ack (nxt s) bl) as [st k1].
    destruct (if rejected st then _ else _) as [st' k2] eqn:E2.
    destruct H as (H3 & H4 & H5); [constructor; rewrite ?Eh, ?Ed; auto; lia|done|].
    exists k2. eexists. split; [reflexivity|]. rewrite H2. split; [done|]. intros Hd Hl. apply H5; [|done].
    unfold bl. now rewrite Hd.
  - destruct Hc as [[Hc1 Hc2]|[Hc1 Hc2]]; [exfalso; apply Hn; auto with lia|].
    assert (ack <> u) as Hne.
    { intros ->. apply Hn. split; [|done]. rewrite wsub_diag. pose proof (u32_range (nxt s - u)) as R.
      unfold is_u32 in R. lia. }
    rewrite <- Eh in Hc1, Hne. rewrite (stale_sack _ _ _ bl W Ia (eq_sym Ed) Hc1 Hne). cbn [rejected].
    rewrite (stale_sack _ ack (nxt s) []) by (auto; destruct W; now constructor).
    eexists _, _. split; [reflexivity|]. rewrite Hc2. split; [|done].
    destruct W. constructor; cbn; auto. constructor; cbn; auto.
Qed.

(** The effects of the parts of [acknowledge_advanced], field by field. *)
Lemma acknowledge_failure_state s u n c a :
  Ledger.tracks (history_ s) (Ledger.mkOwner u n c) -> Failures.wf (failure_ s) c ->
  matches (failure_ s) (Ledger.oldest (history_ s)) -> is_u32 a -> 0 < a ⊟ u <= n ⊟ u ->
  exists f, acknowledge_failure s a = s <| history_ := Ledger.acknowledge (history_ s) a |> <| failure_ := f |>
    /\ Failures.wf f c /\ matches f (Ledger.oldest (Ledger.acknowledge (history_ s) a)).
Proof.
  intros T W M Ia Ha. pose proof (history_acknowledged _ u n c a T Ia Ha) as T'.
  pose proof (matches_acknowledged _ u n c a T Ha (failure_ s) M) as M'.
  assert (Failures.wf (Failures.acknowledge (failure_ s) a) c) as W'
    by (apply Failures.failure_wf_acknowledge; auto; apply (Ledger.track_clock _ _ T)).
  unfold acknowledge_failure. cbn -[begin_failure]. case_if; [|now eexists].
  destruct (Ledger.oldest (Ledger.acknowledge (history_ s) a)) as [o|] eqn:Eo; [|now eexists].
  eexists. split; [reflexivity|].
  assert (a <> n) as Hne by (intros Ex; rewrite (tracks_empty _ _ _ _ T' Ex) in Eo; discriminate).
  destruct (tracks_oldest _ _ _ _ T' Hne) as (o' & Eo' & F1 & F2 & F3 & (F4 & F5)).
  rewrite Eo in Eo'. injection Eo' as <-.
  pose proof (Ledger.track_flight _ _ T') as Hf. cbn in Hf.
  destruct (failure_begun (Failures.acknowledge (failure_ s) a) c (Ledger.first o) (Ledger.end_ o)
    (Ledger.first_transmitted_at o) W') as (H1 & H2 & H3); auto; [lia|now rewrite F1|lia|].
  split; [exact H1|]. intros _. now exists o.
Qed.

Lemma acknowledge_rtt_state s ack now rtt :
  Estimator.wf (retransmission_ s) ->
  let passed := rtt_probe_present_ s && negb (Sequence.before ack (rtt_sequence_end_ s)) in
  exists e, acknowledge_rtt s ack now rtt
    = s <| retransmission_ := e |> <| rtt_probe_present_ := rtt_probe_present_ s && negb passed |>
        <| rtt_probe_retransmitted_ := rtt_probe_retransmitted_ s && negb passed |>
    /\ Estimator.wf e.
Proof.
  intros W passed.
  assert (forall e x y z, Estimator.wf e -> Estimator.wf (Estimator.observe e x y z).2) as Ho
    by (intros e x y z He; exact (Estimator.estimator_wf_apply e (Estimator.Observe x y z) He)).
  unfold acknowledge_rtt, passed. destruct s as [b h f k c e p m rw mw re ra dl sw g pf pp pr fp ne se v].
  cbn in *. destruct rtt as [sample|]; cbn; destruct pp; cbn; rewrite ?andb_true_r, ?andb_false_r.
  all: try (destruct (Sequence.before ack re)); cbn; rewrite ?andb_true_r, ?andb_false_r.
  all: eexists; split; [reflexivity|]; auto.
Qed.

(** The congestion controller under an acknowledgment. *)
Lemma acknowledge_congestion_wf c was complete octets :
  Congested.wf c -> (was = true -> Congested.sack_recovery_ c = true) -> is_u32 octets ->
  let c' := if was : bool then Congested.on_sack_ack c complete else Congested.on_new_ack c octets in
  Congested.wf c' /\ Congested.sender_mss_ c' = Congested.sender_mss_ c
  /\ (Congested.sack_recovery_ c = false -> Congested.sack_recovery_ c' = false)
  /\ (was = true -> complete = false -> Congested.sack_recovery_ c' = true).
Proof.
  intros W Hw Ho. destruct was.
  - split; [exact (Congested.congestion_wf_apply c (Congested.SackAck complete) W (Hw eq_refl))|].
    unfold Congested.on_sack_ack. cbn. rewrite (Hw eq_refl). cbn. destruct complete; cbn; split_and!; auto; congruence.
  - split; [exact (Congested.congestion_wf_apply c (Congested.NewAck octets) W Ho)|].
    unfold Congested.on_new_ack. cbn. cases; cbn; split_and!; auto; done.
Qed.

(** [acknowledge_advanced] in one update. *)
Lemma acknowledge_advanced_state s u n c ack octets now was rtt :
  Ledger.tracks (history_ s) (Ledger.mkOwner u n c) -> Failures.wf (failure_ s) c ->
  matches (failure_ s) (Ledger.oldest (history_ s)) -> is_u32 ack -> 0 < ack ⊟ u <= n ⊟ u ->
  Estimator.wf (retransmission_ s) ->
  let h := Ledger.acknowledge (history_ s) ack in
  let passed := rtt_probe_present_ s && negb (Sequence.before ack (rtt_sequence_end_ s)) in
  let idle := flight_size s =? 0 in
  exists f e, acknowledge_advanced s ack octets now was rtt
    = bump (s <| history_ := h |> <| failure_ := f |>
        <| congestion_ := if was : bool
                          then Congested.on_sack_ack (congestion_ s) (negb (Scoreboard.in_recovery (sack_ s)))
                          else Congested.on_new_ack (congestion_ s) octets |>
        <| fast_retransmission_pending_ := false |> <| retransmission_ := e |>
        <| rtt_probe_present_ := rtt_probe_present_ s && negb passed && negb idle |>
        <| rtt_probe_retransmitted_ := rtt_probe_retransmitted_ s && negb passed |>
        <| retransmission_deadline_ := if idle then None else Some (now + Estimator.timeout_ e) |>)
    /\ Failures.wf f c /\ matches f (Ledger.oldest h) /\ Estimator.wf e.
Proof.
  intros T Wf M Ia Ha We h passed idle. unfold acknowledge_advanced.
  destruct (acknowledge_failure_state s u n c ack T Wf M Ia Ha) as (f & -> & Wf' & M').
  set (s1 := acknowledge_congestion _ _ _).
  destruct (acknowledge_rtt_state s1 ack now rtt We) as (e & -> & We').
  exists f, e. split; [|done]. unfold acknowledge_timer.
  change (flight_size _) with (flight_size s). fold idle. unfold s1, acknowledge_congestion.
  destruct idle; cbn; unfold passed; rewrite ?andb_false_r, ?andb_true_r; reflexivity.
Qed.

Lemma synced_window s clock w :
  synced s clock -> is_u32 w ->
  synced (s <| receiver_window_ := w |> <| maximum_receiver_window_ := Z.max (maximum_receiver_window_ s) w |>) clock.
Proof. intros [] Hw. constructor; cbn; auto; [lia|]. revert Hw sy_maximum_u33. unfold is_u32. lia. Qed.

Section Advanced.
Context (s : t) (clock now ack w octets : Z) (rtt : option Z) (b : Bytes.t) (k : Scoreboard.t).
Context (Y : synced s clock) (Hnow : clock <= now) (Ia : is_u32 ack) (Iw : is_u32 w) (Io : is_u32 octets).
Context (Ha : 0 < ack ⊟ una s <= nxt s ⊟ una s).
Context (Wb : Bytes.wf b) (Eu : Bytes.send_unacknowledged_ b = ack) (En : Bytes.send_next_ b = nxt s).
Context (F : followed (sack_ s) k ack (nxt s)) (Hl : sack_enabled_ s = false -> Scoreboard.live k = []).

Abbreviation x := (s <| bytes_ := b |> <| sack_ := k |> <| receiver_window_ := w |>
  <| maximum_receiver_window_ := Z.max (maximum_receiver_window_ s) w |>).

Lemma advanced_synced :
  synced (acknowledge_advanced x ack octets now (Scoreboard.in_recovery (sack_ s)) rtt) now.
Proof.
  destruct (synced_words s clock Y) as (Iu & In & Hf).
  destruct (acknowledge_advanced_state x (una s) (nxt s) clock ack octets now (Scoreboard.in_recovery (sack_ s)) rtt)
    as (f & e & -> & Wf & Mf & We); try (apply Y || done).
  destruct (acknowledge_congestion_wf (congestion_ s) (Scoreboard.in_recovery (sack_ s))
    (negb (Scoreboard.in_recovery k)) octets) as (C1 & C2 & C3 & C4); [apply Y|apply (sy_recovery _ _ Y)|done|].
  set (passed := rtt_probe_present_ x && _).
  assert (flight_size x = nxt s ⊟ ack) as Ef by (rewrite <- En, <- Eu; now apply Bytes.send_flight).
  rewrite Ef. assert (rtt_probe_present_ s = true -> passed = false ->
    is_u32 (rtt_sequence_end_ s) /\ 0 < rtt_sequence_end_ s ⊟ ack <= nxt s ⊟ ack /\ 0 <= rtt_sent_at_ s <= now) as Hp.
  { intros Hp. change passed with (rtt_probe_present_ s && negb (Sequence.before ack (rtt_sequence_end_ s))).
    rewrite Hp. cbn [andb]. destruct (sy_probe _ _ Y Hp) as (Ie & He & Ht).
    rewrite (Sequence.before_offset (una s)) by (done || lia). rewrite negb_false_iff, Z.ltb_lt. intros Hlt.
    split_and!; auto; try lia; revert Hlt Ha He Hf; clear -Iu In Ia Ie; word. }
  clearbody passed. apply synced_bump. destruct F as [F1 F2 F3 F4 F5], Y.
  match goal with |- synced ?y _ => assert (una y = ack) as Euy by exact Eu; assert (nxt y = nxt s) as Eny by exact En end.
  assert (ack = nxt s -> nxt s ⊟ ack =? 0 = true) as Hidle by (intros ->; now rewrite wsub_diag).
  constructor; rewrite ?Euy, ?Eny; clear Euy Eny; cbn; auto; try congruence.
  - apply (tracks_later _ _ _ clock); [done|]. now apply history_acknowledged with (una s).
  - now apply failure_later with clock.
  - intros Hk. specialize (F5 Hk). unfold Scoreboard.in_recovery in *. apply C4; [done|]. now rewrite Hk.
  - intros Hd. destruct (sy_disabled0 Hd) as [Hd1 Hd2]. split; [now apply Hl|now apply C3].
  - lia.
  - revert Iw sy_maximum_u33. unfold is_u32. lia.
  - intros Ex. now rewrite Hidle.
  - intros [[H1 H2]%andb_true_iff _]%andb_true_iff. apply Hp; [done|]. now apply negb_true_iff.
  - destruct (rtt_probe_present_ s) eqn:Epp; [|now rewrite sy_probe_off0].
    destruct passed; cbn; [now rewrite andb_false_r|]. destruct (Z.eqb_spec (nxt s ⊟ ack) 0); [|done].
    destruct (Hp eq_refl eq_refl) as (_ & ? & _). lia.
Qed.
End Advanced.

Lemma on_duplicate_ack_keeps c f :
  let (action, c') := Congested.on_duplicate_ack c f in
  Congested.sender_mss_ c' = Congested.sender_mss_ c
  /\ Congested.sack_recovery_ c' = Congested.sack_recovery_ c
  /\ (Congested.fast_recovery_ c = true -> Congested.fast_recovery_ c' = true)
  /\ (action = Congested.retransmit_oldest -> Congested.fast_recovery_ c' = true).
Proof. unfold Congested.on_duplicate_ack. cbn. cases; cbn; done. Qed.

Lemma duplicate_synced s clock :
  synced s clock -> sack_enabled_ s = false -> una s <> nxt s -> synced (acknowledge_duplicate s) clock.
Proof.
  intros Y Hd Hne. destruct (sy_disabled _ _ Y Hd) as [_ Hs].
  pose proof (Congested.congestion_wf_apply _ (Congested.DuplicateAck (nxt s ⊟ una s)) (sy_congestion _ _ Y)
    (conj (u32_range _) Hs)) as W. cbn in W.
  unfold acknowledge_duplicate. rewrite (synced_flight s clock Y).
  pose proof (on_duplicate_ack_keeps (congestion_ s) (nxt s ⊟ una s)) as H.
  destruct (Congested.on_duplicate_ack _ _) as [action c]. destruct H as (H1 & H2 & H3 & H4). cbn [snd] in W.
  apply synced_bump. destruct Y. destruct action; constructor; cbn; fold_flight s; rewrite ?H1, ?H2; auto.
  intros H. destruct (sy_fast0 H). auto.
Qed.

Lemma recovery_synced s clock new : synced s clock -> synced (acknowledge_recovery s new) clock.
Proof.
  intros Y. unfold acknowledge_recovery. destruct (_ && _) eqn:E; [|done].
  apply andb_true_iff in E as [[[Hen _]%andb_true_iff Hf]%andb_true_iff Hr]. apply negb_true_iff in Hr, Hf.
  pose proof (Recovery.handle_wf _ (Recovery.DuplicateAck true) (sy_sack _ _ Y) I) as W. cbn in W.
  assert (followed (sack_ s) (Scoreboard.duplicate_ack (sack_ s) true).2 (una s) (nxt s)) as Fd.
  { destruct Y. constructor; [exact W|..]; unfold Scoreboard.duplicate_ack; repeat case_if; cbn; auto. }
  destruct (Scoreboard.duplicate_ack _ _) as [enter k]. cbn [snd] in *.
  assert (synced (s <| sack_ := k |>) clock) as Y1 by (apply synced_sack; auto; congruence).
  case_if; [|exact Y1]. apply synced_bump.
  pose proof (Recovery.handle_wf k Recovery.EnterRecovery W I) as W2. cbn in W2.
  assert (is_u32 (flight_size (s <| sack_ := k |>))) as If.
  { change (is_u32 (flight_size s)). rewrite (synced_flight s clock Y). apply u32_range. }
  pose proof (Congested.congestion_wf_apply _ (Congested.EnterSackRecovery _) (sy_congestion _ _ Y1) If) as W3.
  cbn in W3. change (congestion_ (s <| sack_ := k |>)) with (congestion_ s) in W3.
  change (flight_size (s <| sack_ := k |>)) with (flight_size s) in W3.
  destruct Fd as [_ F2 F3 F4 F5]. destruct Y. constructor; cbn; fold_flight s; auto; try done; try congruence.
  all: unfold Scoreboard.enter_recovery; case_if; cbn; auto; congruence.
Qed.

Lemma acknowledge_synced s clock ack w eligible now rtt blocks :
  synced s clock -> clock <= now -> is_u32 ack -> is_u32 w -> Forall Scoreboard.block_ok blocks ->
  synced (acknowledge s ack w eligible now rtt blocks).2 now.
Proof.
  intros Y Hnow Ia Iw B. pose proof (synced_words s clock Y) as (Iu & In & Hf).
  unfold acknowledge. rewrite (sy_valid _ _ Y). cbn [negb].
  pose proof (Bytes.send_acknowledge_counters (bytes_ s) ack (sy_bytes _ _ Y) Ia) as Hb.
  rewrite (synced_flight s clock Y : Bytes.flight_size (bytes_ s) = _) in Hb.
  assert (Bytes.send_next_ (Bytes.acknowledge (bytes_ s) ack).2 = nxt s) as Enx
    by (unfold Bytes.acknowledge; repeat case_if; done).
  assert ((Bytes.acknowledge (bytes_ s) ack).1.1 = Bytes.duplicate -> Sequence.after ack (una s) = false) as Hdup
    by (unfold Bytes.acknowledge, una; repeat case_if; done).
  destruct (Bytes.acknowledge (bytes_ s) ack) as [[st octets] b]. cbn [fst snd] in *.
  destruct Hb as (Wb & Hadv & Hno). fold (una s) in *.
  assert (forall x new, synced x now ->
    synced (update_persist (acknowledge_recovery x new) (receiver_window_ (acknowledge_recovery x new)) now) now) as Hend
    by (intros; now apply synced_update_persist, recovery_synced).
  destruct (decide (0 < ack ⊟ una s <= nxt s ⊟ una s)) as [Ha|Ha].
  - destruct (Hadv Ha) as (-> & -> & _ & _ & Eu & _). cbn [acceptable].
    set (x := set_field _ _ _). assert (nxt x = nxt s) as Enx' by exact Enx.
    destruct (sack_acknowledged x ack blocks (una s)) as (k & new & -> & F & Hl);
      rewrite ?Enx'; try (apply Y || done); [left; now split|].
    cbn [fst snd]. apply Hend.
    rewrite Enx' in F. change (una x) with (Bytes.send_unacknowledged_ b) in F. rewrite Eu in F.
    apply (advanced_synced s clock now ack w _ rtt b k Y Hnow Ia Iw (u32_range _) Ha Wb Eu Enx F).
    intros Hd. apply Hl; [done|]. now apply (sy_disabled _ _ Y).
  - destruct (Hno Ha) as (-> & -> & [-> | ->]); cbn [acceptable snd].
    + set (x := set_field _ _ _).
      destruct (sack_acknowledged x ack blocks (una s)) as (k & new & -> & F & Hl);
        try (apply Y || done); [right; split; [now apply Hdup|done]|].
      cbn [snd]. apply Hend.
      assert (synced (s <| sack_ := k |>) now) as Y0.
      { apply synced_sack; [now apply synced_later with clock|exact F|].
        intros Hd. apply Hl; [done|]. now apply (sy_disabled _ _ Y). }
      pose proof (synced_window _ now w Y0 Iw) as Y1.
      destruct (negb _ && _ && _) eqn:Eg; [|exact Y1].
      apply andb_true_iff in Eg as [[Hd _]%andb_true_iff Hz]. apply negb_true_iff in Hd, Hz.
      apply duplicate_synced; [exact Y1|exact Hd|].
      pose proof (sender_flight_zero _ _ Y1) as Hz1. exact (proj1 (Z.eqb_neq _ _) (eq_trans (eq_sym Hz1) Hz)).
    + apply Hend. destruct (synced_later s clock Y now Hnow). constructor; auto.
Qed.

(** ** The other operations *)

Section Operations.
Context (s : t) (clock now : Z) (Y : synced s clock) (Hnow : clock <= now).

Lemma write_synced input : synced (write s input now).2 now.
Proof.
  pose proof (synced_later s clock Y now Hnow) as Y'. unfold write. rewrite (sy_valid _ _ Y). cbn [negb].
  pose proof (Bytes.send_write_counters (bytes_ s) input (sy_bytes _ _ Y)) as H.
  destruct (Bytes.write (bytes_ s) input) as [n b]. destruct H as (Wb & _ & _ & _ & Eu & En & _).
  assert (synced (s <| bytes_ := b |>) now) as Y1.
  { match goal with |- synced ?y _ => assert (una y = una s) as E1 by exact Eu; assert (nxt y = nxt s) as E2 by exact En end.
    destruct Y'. constructor; rewrite ?E1, ?E2; auto. }
  cbn [snd]. case_if; [|exact Y1]. apply synced_bump, (synced_update_persist _ _ Y1).
Qed.

Lemma window_synced w : is_u32 w -> synced (update_receiver_window s w now) now.
Proof.
  intros Iw. pose proof (synced_later s clock Y now Hnow) as Y'.
  unfold update_receiver_window. rewrite (sy_valid _ _ Y). cbn [negb].
  set (s1 := update_persist _ _ _).
  assert (synced s1 now) as Y1.
  { apply synced_update_persist. destruct Y'. constructor; auto; cbn; [lia|].
    revert Iw sy_maximum_u33. unfold is_u32. lia. }
  case_if; [exact Y1|]. set (s2 := s1 <| receiver_window_ := w |>).
  assert (synced s2 now) as Y2.
  { destruct Y1. constructor; auto. cbn. lia. }
  apply synced_bump. case_if.
  - pose proof (Ledger.track_clock _ _ (sy_history _ _ Y2)) as H0.
    pose proof (Failures.failure_wf_reset (failure_ s2) now H0 (sy_failure _ _ Y2)) as Wf.
    destruct Y2. constructor; auto. intros H. discriminate H.
  - set (s3 := s2 <| sws_override_deadline_ := None |>).
    assert (synced s3 now) as Y3 by now apply synced_override. case_if; [|exact Y3].
    assert (una s3 <> nxt s3) as Hne.
    { pose proof (sender_flight_zero s3 now Y3) as Hz. apply Z.eqb_neq. rewrite <- Hz.
      apply Z.eqb_neq. assumption. }
    pose proof (synced_timer s3 now Y3 now Hne) as Y4.
    destruct (Ledger.oldest (history_ (start_or_restart_timer s3 now))) as [r|] eqn:Er; [|exact Y4].
    apply synced_begin; [exact Y4|exact Er|]. pose proof (Ledger.track_clock _ _ (sy_history _ _ Y4)). cbn in *. lia.
Qed.

Lemma nagle_synced enabled : synced (set_nagle_enabled s enabled) clock.
Proof.
  unfold set_nagle_enabled. case_if; [exact Y|]. apply synced_bump. destruct Y. constructor; auto.
Qed.

Lemma reset_followed k ha hde :
  Scoreboard.wf k -> is_u32 ha -> is_u32 hde -> hde ⊟ ha <= two30 ->
  followed k (Scoreboard.reset k ha hde).2 ha hde /\ Scoreboard.live (Scoreboard.reset k ha hde).2 = [].
Proof.
  intros [] Ia Ie Hf. unfold Scoreboard.reset. rewrite wf_valid. rewrite (proj2 (Z.ltb_ge _ _)) by lia. cbn [negb orb snd].
  pose proof (u32_range (hde - ha)) as R. unfold is_u32 in R.
  split; [|done]. constructor; try done. unfold size in *.
  constructor; cbn; unfold Scoreboard.cleared, Scoreboard.live; cbn; rewrite ?length_replicate; auto; try done; try lia.
  - unfold size. rewrite length_replicate. lia.
  - now rewrite Nat.sub_0_r.
  - rewrite wsub_diag. lia.
Qed.

(** Negotiation ends before recovery starts. *)
Lemma sack_switch_synced enabled :
  Congested.sack_recovery_ (congestion_ s) = false -> synced (set_sack_enabled s enabled) clock.
Proof.
  intros Hs. unfold set_sack_enabled. case_if; [exact Y|]. apply synced_bump.
  destruct (synced_words s clock Y) as (Iu & In & Hf). destruct enabled; cbn [negb].
  - destruct Y. constructor; auto. intros H. discriminate H.
  - destruct (reset_followed (sack_ s) (una s) (nxt s) (sy_sack _ _ Y) Iu In ltac:(lia)) as [[F1 F2 F3 F4 F5] Hl].
    fold (una (s <| sack_enabled_ := false |>)) (nxt (s <| sack_enabled_ := false |>)).
    destruct Y. constructor; cbn; fold_flight s; auto; congruence.
Qed.

Lemma reduce_mss_synced m : is_u32 m -> synced (reduce_mss s m).2 clock.
Proof.
  intros Im. unfold reduce_mss. case_if; [exact Y|]. case_if; [exact Y|]. bool_to_prop.
  cbn [snd]. apply synced_bump.
  destruct (Scoreboard.wf_mss _ (sy_sack _ _ Y)) as [_ H16]. rewrite (sy_sack_mss _ _ Y) in H16.
  assert (is_u16 m) as I16 by (unfold is_u16, is_u32 in *; lia).
  pose proof (Recovery.handle_wf _ (Recovery.ReduceMss m) (sy_sack _ _ Y) I16) as Ws.
  pose proof (Congested.congestion_wf_apply _ (Congested.ReduceMss m) (sy_congestion _ _ Y) Im) as Wc.
  cbn [Recovery.handle Congested.apply] in Ws, Wc. destruct Y.
  constructor; auto; cbn; fold_flight s;
    unfold Scoreboard.reduce_sender_mss, Congested.reduce_sender_mss; rewrite ?sy_sack_mss0, ?sy_cong_mss0;
    rewrite ?(proj2 (Z.eqb_neq m 0)), ?(proj2 (Z.ltb_lt m (sender_mss_ s))), ?(proj2 (Z.leb_gt (sender_mss_ s) m)) by lia;
    cbn; auto.
Qed.

Lemma take_synced : synced (take_failure_action s now).2 clock.
Proof. unfold take_failure_action. destruct (failure_action s now); cbn [snd]; [exact Y|destruct Y; constructor; auto..]. Qed.
End Operations.

(** ** Preparations *)

Lemma nothing_shaped : shaped no_transmission.
Proof. split_and!; cbn; unfold is_u32; try done. Qed.

Section Preparations.
Context (s : t) (clock now : Z) (Y : synced s clock).

Lemma prepared_new_shaped n why k g :
  0 <= n -> (why = sack_recovery -> Scoreboard.reason_is k Scoreboard.new_data = true) ->
  shaped (mkPrepared (Bytes.prepare_new (bytes_ s) n) why k g).
Proof.
  intros Hn Hk. destruct (Bytes.send_counters _ (sy_bytes _ _ Y)) as (Hf & Hq & Hu & _).
  destruct (synced_words s clock Y) as (_ & In & _). unfold shaped, Bytes.prepare_new.
  case_if; cbn; (split_and!; [unfold is_u32 in *; try done; lia..|]); intros Hw; now rewrite Hk.
Qed.

Lemma prepared_repair_shaped n why k g :
  0 <= n -> why <> sack_recovery -> shaped (mkPrepared (Bytes.prepare_retransmission (bytes_ s) n) why k g).
Proof.
  intros Hn Hk. destruct (Bytes.send_counters _ (sy_bytes _ _ Y)) as (Hf & Hq & Hu & _).
  destruct (synced_words s clock Y) as (Iu & _ & _). unfold shaped, Bytes.prepare_retransmission.
  case_if; cbn; (split_and!; [unfold is_u32 in *; try done; lia..|done]).
Qed.

Lemma allowance_range : 0 <= Congested.send_allowance (congestion_ s) (receiver_window_ s) (flight_size s).
Proof. unfold Congested.send_allowance. cbv zeta. case_if; lia. Qed.

Lemma payload_range pushed allowance unsent available :
  0 <= unsent -> 0 <= available -> 0 <= (choose_payload s now pushed allowance unsent available).1.
Proof.
  intros. pose proof (Scoreboard.wf_mss _ (sy_sack _ _ Y)) as Hm. rewrite (sy_sack_mss _ _ Y) in Hm.
  unfold choose_payload. cbv zeta. repeat case_if; cbn [fst]; lia.
Qed.

Lemma prepare_new_synced pushed :
  shaped (prepare_new s now pushed).1 /\ synced (prepare_new s now pushed).2 clock.
Proof.
  destruct (Bytes.send_counters _ (sy_bytes _ _ Y)) as (Hf & Hq & Hu & _).
  assert (0 <= Bytes.unsent_octets (bytes_ s)) as H0 by lia.
  unfold prepare_new. rewrite (sy_valid _ _ Y). cbn [negb].
  set (s1 := update_persist _ _ _). assert (synced s1 clock) as Y1 by now apply synced_update_persist.
  case_if; [split; [exact nothing_shaped|exact Y1]|].
  pose proof (payload_range pushed
    (Congested.send_allowance (congestion_ s) (receiver_window_ s) (flight_size s)) (Bytes.unsent_octets (bytes_ s))
    (Z.min (Congested.send_allowance (congestion_ s) (receiver_window_ s) (flight_size s)) (Bytes.unsent_octets (bytes_ s))))
    as Hp. change (choose_payload s) with (choose_payload s1) in Hp.
  pose proof allowance_range as Ha.
  change (Bytes.unsent_octets (bytes_ s)) with (Bytes.unsent_octets (bytes_ s1)) in *.
  change (Congested.send_allowance (congestion_ s) (receiver_window_ s) (flight_size s))
    with (Congested.send_allowance (congestion_ s1) (receiver_window_ s1) (flight_size s1)) in *.
  destruct (choose_payload _ _ _ _ _ _) as [payload sws]. cbn [fst] in Hp.
  set (s2 := s1 <| sws_override_deadline_ := sws |>).
  assert (synced s2 clock) as Y2 by now apply synced_override.
  case_if; [split; [exact nothing_shaped|exact Y2]|].
  case_if; (split; [|exact Y2]); [exact nothing_shaped|].
  apply (prepared_new_shaped payload new_data); [|done].
  apply Hp; [exact H0|now apply Z.min_glb].
Qed.

Lemma prepare_probe_synced :
  shaped (prepare_persist_probe s now).1 /\ synced (prepare_persist_probe s now).2 clock.
Proof.
  unfold prepare_persist_probe. rewrite (sy_valid _ _ Y). cbn [negb].
  set (s1 := update_persist _ _ _). assert (synced s1 clock) as Y1 by now apply synced_update_persist.
  case_if; (split; [|exact Y1]); [exact nothing_shaped|]. cbn [fst].
  change (bytes_ s1) with (bytes_ s). case_if; [now apply prepared_new_shaped|now apply prepared_repair_shaped].
Qed.

Lemma prepare_fast_shaped : shaped (prepare_fast_retransmission s).
Proof.
  pose proof (Scoreboard.wf_mss _ (sy_sack _ _ Y)) as Hm. rewrite (sy_sack_mss _ _ Y) in Hm.
  unfold prepare_fast_retransmission. case_if; [exact nothing_shaped|]. apply prepared_repair_shaped; [lia|done].
Qed.

Lemma prepare_timeout_shaped : shaped (prepare_timeout_retransmission s now).
Proof.
  pose proof (Scoreboard.wf_mss _ (sy_sack _ _ Y)) as Hm. rewrite (sy_sack_mss _ _ Y) in Hm.
  unfold prepare_timeout_retransmission. case_if; [exact nothing_shaped|]. case_if; [exact nothing_shaped|].
  apply prepared_repair_shaped; [lia|done].
Qed.

Lemma prepare_sack_shaped : shaped (prepare_sack_recovery s now).
Proof.
  unfold prepare_sack_recovery. destruct (_ || _) eqn:Eg; [exact nothing_shaped|].
  apply orb_false_iff in Eg as [_ Hrec]. apply negb_false_iff in Hrec.
  case_if; [exact nothing_shaped|]. cbv zeta.
  set (seg := Scoreboard.next_segment _ _).
  destruct (Scoreboard.segment_present seg) eqn:Hp; cbn [negb]; [|exact nothing_shaped].
  pose proof (u32_range (Scoreboard.end_ (Scoreboard.range seg) - Scoreboard.first (Scoreboard.range seg))) as Il.
  set (r := if Scoreboard.reason_is _ _ then _ else _).
  match goal with |- shaped (if ?b then _ else _) => destruct b eqn:Er; [exact nothing_shaped|] end.
  match goal with |- shaped (if ?b then _ else _) => destruct b; [exact nothing_shaped|] end. unfold r in *.
  destruct (Scoreboard.reason_is (Scoreboard.reason seg) Scoreboard.new_data) eqn:Ek.
  - apply prepared_new_shaped; [unfold is_u32 in Il; lia|done].
  - assert (0 < Scoreboard.count_ (sack_ s)) as Hc.
    { pose proof (Scoreboard.wf_count _ (sy_sack _ _ Y)) as Hc. destruct (Z.eqb_spec (Scoreboard.count_ (sack_ s)) 0) as [Hz|]; [|lia].
      exfalso. unfold seg, Scoreboard.next_segment in Hp. rewrite Hz, Z.eqb_refl, orb_true_r in Hp. discriminate. }
    pose proof (Recovery.next_segment_chosen _ (sy_sack _ _ Y) (usable_unsent s) Hrec Hc) as Hch. fold seg in Hch.
    destruct (Recovery.chosen_inside _ (sy_sack _ _ Y) _ seg Hc Hch Hp) as (If & _ & _); [intros Hn; now rewrite Hn in Ek|].
    apply orb_false_iff in Er as [[Er _]%orb_false_iff _]. apply negb_false_iff in Er.
    unfold Bytes.prepare_retransmission_at in *. case_if_in Er; [discriminate|].
    split_and!; cbn; [done| |]; rewrite ?Ek; [|done].
    pose proof (u32_range (Bytes.send_next_ (bytes_ s) - Scoreboard.first (Scoreboard.range seg))) as Ir. unfold is_u32 in *. lia.
Qed.
End Preparations.

(** ** Runs *)

(** A sender with the time of its last operation and every transmission it has
    prepared so far, each of which its owner may try to commit at any time. *)
Record Run := mkRun { sender : t; clock : Z; pool : list PreparedTransmission }.

Inductive event :=
| Write (input : list Z)
| UpdateReceiverWindow (receiver_window : Z)
| SetNagle (enabled : bool)
| SetSack (enabled : bool)
| ReduceMss (mss : Z)
| PrepareNew (pushed : bool)
| PreparePersistProbe
| PrepareSackRecovery
| PrepareFastRetransmission
| PrepareTimeoutRetransmission
| Commit (intent : PreparedTransmission)
| Acknowledge (acknowledgment receiver_window : Z) (eligible : bool) (timestamp_rtt : option Z)
    (sack_blocks : list SackBlock)
| TakeFailureAction.

(** Words are 32 bits, SACK is not switched during a SACK recovery, and only
    prepared transmissions are committed. *)
Definition enabled (x : Run) (ev : event) : Prop :=
  match ev with
  | UpdateReceiverWindow w => is_u32 w
  | SetSack _ => Congested.sack_recovery_ (congestion_ (sender x)) = false
  | ReduceMss m => is_u32 m
  | Commit intent => intent ∈ pool x
  | Acknowledge a w _ _ blocks => is_u32 a /\ is_u32 w /\ Forall Scoreboard.block_ok blocks
  | _ => True
  end.

Definition prepared (x : Run) (now : Z) (o : PreparedTransmission * t) : Run := mkRun o.2 now (o.1 :: pool x).

Definition run (x : Run) (ev : event) (now : Z) : Run :=
  let s := sender x in
  match ev with
  | Write input => mkRun (write s input now).2 now (pool x)
  | UpdateReceiverWindow w => mkRun (update_receiver_window s w now) now (pool x)
  | SetNagle b => mkRun (set_nagle_enabled s b) now (pool x)
  | SetSack b => mkRun (set_sack_enabled s b) now (pool x)
  | ReduceMss m => mkRun (reduce_mss s m).2 now (pool x)
  | PrepareNew pushed => prepared x now (prepare_new s now pushed)
  | PreparePersistProbe => prepared x now (prepare_persist_probe s now)
  | PrepareSackRecovery => prepared x now (prepare_sack_recovery s now, s)
  | PrepareFastRetransmission => prepared x now (prepare_fast_retransmission s, s)
  | PrepareTimeoutRetransmission => prepared x now (prepare_timeout_retransmission s now, s)
  | Commit intent => mkRun (commit s intent now).2 now (pool x)
  | Acknowledge a w eligible rtt blocks => mkRun (acknowledge s a w eligible now rtt blocks).2 now (pool x)
  | TakeFailureAction => mkRun (take_failure_action s now).2 now (pool x)
  end.

Definition step (x : Run) (e : event * Z) (x' : Run) : Prop :=
  clock x <= e.2 /\ enabled x e.1 /\ x' = run x e.1 e.2.

Definition init (x : Run) : Prop :=
  exists storage history ranges workspace isn mss now,
    0 < size storage <= two30 /\ history <> [] /\ ranges <> [] /\ length ranges = length workspace
    /\ is_u32 isn /\ 0 < mss < 65536 /\ 0 <= now
    /\ x = mkRun (construct storage history ranges workspace isn mss) now [].

Lemma construct_synced storage history ranges workspace isn mss now :
  0 < size storage <= two30 -> history <> [] -> ranges <> [] -> length ranges = length workspace ->
  is_u32 isn -> 0 < mss < 65536 -> 0 <= now ->
  synced (construct storage history ranges workspace isn mss) now.
Proof.
  intros Hs Hh Hr Hw Ii Hm Hn. pose proof (Bytes.send_wf_construct storage isn Hs Ii) as Wb.
  pose proof (Ledger.ring_ok_construct history Hh) as Rh.
  assert (exists k, Scoreboard.reset (Scoreboard.construct ranges workspace mss) isn isn = (true, k)) as [k Ek].
  { unfold Scoreboard.reset, Scoreboard.construct. cbn.
    assert (size ranges <> 0) by (unfold size; destruct ranges; [done|cbn; lia]).
    assert (size ranges = size workspace) by (unfold size; lia).
    replace (negb (size ranges =? 0) && (size ranges =? size workspace) && negb (mss =? 0)) with true by blia.
    rewrite wsub_diag. cbn. eauto. }
  assert (Scoreboard.wf k) as Wk.
  { apply Recovery.init_wf. exists ranges, workspace, mss, isn, isn. split_and!; auto. unfold is_u16. lia. }
  assert (Scoreboard.valid_ (Scoreboard.construct ranges workspace mss) = true
    /\ Scoreboard.high_ack_ k = isn /\ Scoreboard.high_data_end_ k = isn /\ Scoreboard.sender_mss_ k = mss
    /\ Scoreboard.recovery_ k = false /\ Scoreboard.live k = []) as (Hv & E1 & E2 & E3 & E4 & E5).
  { unfold Scoreboard.reset in Ek. case_if_in Ek; [discriminate|]. bool_to_prop. injection Ek as <-. now split_and!. }
  unfold construct. rewrite Hv, (proj1 Wb), (Ledger.ring_valid _ Rh), (proj2 (Z.eqb_neq mss 0)), Ek by lia. cbn [negb andb].
  match goal with |- synced ?x _ =>
    assert (una x = isn /\ nxt x = isn) as [Eu En] by done end.
  assert (is_u32 mss) as I32 by (unfold is_u32; lia).
  constructor; rewrite ?Eu, ?En; clear Eu En; cbn; auto; try done.
  - constructor; cbn; auto; [rewrite wsub_diag; lia|]. constructor.
  - now apply Congested.congestion_wf_construct.
  - lia.
  - intros H. congruence.
Qed.

Lemma run_synced x ev now :
  synced (sender x) (clock x) -> Forall shaped (pool x) -> clock x <= now -> enabled x ev ->
  synced (sender (run x ev now)) (clock (run x ev now)) /\ Forall shaped (pool (run x ev now)).
Proof.
  intros Y P Hn He. pose proof (synced_later _ _ Y now Hn) as Y'.
  assert (forall o, shaped o.1 /\ synced o.2 now ->
    synced (sender (prepared x now o)) (clock (prepared x now o)) /\ Forall shaped (pool (prepared x now o))) as Hp
    by (intros o [H1 H2]; split; [exact H2|now constructor]).
  destruct ev; cbn [run enabled] in *; try (apply Hp; cbn [fst snd]);
    try (cbn [sender clock pool]; split; [|exact P]).
  - now apply write_synced with (clock x).
  - now apply window_synced with (clock x).
  - now apply nagle_synced.
  - now apply sack_switch_synced.
  - now apply reduce_mss_synced.
  - now apply prepare_new_synced.
  - now apply prepare_probe_synced.
  - split; [now apply prepare_sack_shaped with now|exact Y'].
  - split; [now apply prepare_fast_shaped with now|exact Y'].
  - split; [now apply prepare_timeout_shaped with now|exact Y'].
  - pose proof (commit_outcome (sender x) (clock x) intent now Y Hn) as H.
    specialize (H (proj1 (list.Forall_forall _ _) P _ He)). destruct (ready _ _ _).
    + destruct H as (s' & -> & H). exact H.
    + now rewrite H.
  - destruct He as (Ia & Iw & B). now apply acknowledge_synced with (clock x).
  - now apply take_synced.
Qed.

Lemma reachable_synced x : reachable init step x -> synced (sender x) (clock x) /\ Forall shaped (pool x).
Proof.
  apply (invariant_reachable init step (fun x => synced (sender x) (clock x) /\ Forall shaped (pool x))).
  - intros x0 (storage & history & ranges & workspace & isn & mss & now & H1 & H2 & H3 & H4 & H5 & H6 & H7 & ->).
    split; [|constructor]. now apply construct_synced.
  - intros x0 [ev now] x1 [Y P] (Hn & He & ->). now apply run_synced.
Qed.

(** C22: in every run of a sender (writes, preparations, commits of any prepared
    transmission, stale ones included, acknowledgments with any SACK blocks,
    window and MSS changes) its parts describe one flight: the history covers
    [SND.UNA, SND.NXT), the scoreboard spans it, the failure detector tracks its
    oldest segment, and no retransmission timer runs without it.  A commit that
    passes its checks succeeds, so the paths that invalidate the sender are never
    taken; one that does not changes nothing. *)
Theorem sender_synchronized x :
  reachable init step x ->
  synced (sender x) (clock x)
  /\ forall intent now, intent ∈ pool x -> clock x <= now ->
     if ready (sender x) intent now
     then exists s', commit (sender x) intent now = (true, s') /\ synced s' now
     else commit (sender x) intent now = (false, sender x).
Proof.
  intros H. apply reachable_synced in H as [Y P]. split; [exact Y|].
  intros intent now Hin Hn. apply (commit_outcome _ (clock x)); auto.
  exact (proj1 (list.Forall_forall _ _) P _ Hin).
Qed.

(** ** New data *)

(** When RFC 1122 lets a segment of [n] octets, less than SMSS, be sent: by Nagle's
    rule with the whole backlog or half the largest window seen, or after the
    override timeout. *)
Definition small_allowed (s : t) (now : Z) (pushed : bool) (n : Z) : Prop :=
  ((nagle_enabled_ s = false \/ una s = nxt s)
   /\ (pushed = true /\ n = Bytes.unsent_octets (bytes_ s)
       \/ 0 < maximum_receiver_window_ s <= 2 * n))
  \/ pushed = true /\ expired (sws_override_deadline_ s) now = true.

(** The octets both windows and the repository admit. *)
Definition usable (s : t) : Z :=
  Z.min (Congested.send_allowance (congestion_ s) (receiver_window_ s) (flight_size s))
    (Bytes.unsent_octets (bytes_ s)).

Lemma usable_window s clock n :
  synced s clock -> 0 < n <= usable s ->
  flight_size s + n <= Z.min (Congested.congestion_window_ (congestion_ s)) (receiver_window_ s).
Proof. unfold usable, Congested.send_allowance. cbv zeta. intros Y. case_if; lia. Qed.

Lemma choose_payload_spec s clock now pushed :
  synced s clock -> 0 < usable s ->
  let (n, sws) := choose_payload s now pushed
    (Congested.send_allowance (congestion_ s) (receiver_window_ s) (flight_size s))
    (Bytes.unsent_octets (bytes_ s)) (usable s) in
  0 <= n <= usable s /\ n <= sender_mss_ s
  /\ (sender_mss_ s <= usable s -> n = sender_mss_ s)
  /\ (0 < n < sender_mss_ s -> small_allowed s now pushed n).
Proof.
  intros Y Hu. pose proof (Scoreboard.wf_mss _ (sy_sack _ _ Y)) as Hm. rewrite (sy_sack_mss _ _ Y) in Hm.
  pose proof (sender_flight_zero s clock Y) as Hz. pose proof (sy_maximum_u32 _ _ Y) as Hx. unfold is_u32 in Hx.
  unfold choose_payload. cbv zeta. rewrite Hz.
  destruct (Z.leb_spec (sender_mss_ s) (usable s)) as [Hle|Hlt]; [split_and!; [lia..|done|lia]|].
  assert (negb (nagle_enabled_ s) || (una s =? nxt s) = true -> nagle_enabled_ s = false \/ una s = nxt s) as Hn.
  { intros [H|H]%orb_true_iff; [left; now apply negb_true_iff|right; now apply Z.eqb_eq]. }
  destruct (pushed && _ && _) eqn:E1; [|destruct ((_ || _) && negb _ && _) eqn:E2; [|destruct pushed]].
  - apply andb_true_iff in E1 as [[-> Hng]%andb_true_iff Hall]. apply Z.leb_le in Hall.
    assert (usable s = Bytes.unsent_octets (bytes_ s)) as Eu by (unfold usable; lia).
    split_and!; [lia..|intros _]. left. auto.
  - apply andb_true_iff in E2 as [[Hng Hmx]%andb_true_iff Hhalf]. apply negb_true_iff, Z.eqb_neq in Hmx.
    apply Z.leb_le in Hhalf. split_and!; [lia..|intros _]. left. split; [now apply Hn|right].
    clear -Hhalf Hmx Hx. lia.
  - case_if; split_and!; try lia. intros _. right. split; [done|]. unfold expired.
    destruct (sws_override_deadline_ s) as [d|]; cbn in E |- *; [now apply Z.leb_le|].
    unfold Catalog.tcp_sws_override, Catalog.milliseconds in E. lia.
  - split_and!; lia.
Qed.

(** The offered range lies at the end of the flight. *)
Lemma new_range_current s clock n :
  synced s clock -> 0 < n <= Bytes.unsent_octets (bytes_ s) ->
  let r := Bytes.prepare_new (bytes_ s) n in
  r = Bytes.mkRange (nxt s) n (Bytes.generation_ (bytes_ s)) false
  /\ Bytes.range_is_current (bytes_ s) r = true.
Proof.
  intros Y Hn. pose proof (sy_bytes _ _ Y) as W. destruct (Bytes.send_counters _ W) as (Hf & Hq & Hu & _).
  assert (Bytes.valid_ (bytes_ s) = true) as V by apply W.
  unfold Bytes.prepare_new. rewrite V. rewrite (proj2 (Z.eqb_neq n 0)) by lia. cbn [negb orb].
  rewrite Z.min_l by lia. split; [done|].
  unfold Bytes.range_is_current. cbn. rewrite V, Z.eqb_refl, (proj2 (Z.eqb_neq n 0)) by lia. cbn [negb orb].
  rewrite <- (Bytes.send_flight _ W).
  replace (Bytes.queued_octets (bytes_ s) <=? Bytes.flight_size (bytes_ s)) with false by lia.
  replace (Bytes.queued_octets (bytes_ s) - Bytes.flight_size (bytes_ s) <? n) with false by lia.
  cbn [orb]. rewrite Z.eqb_refl. cbn [andb]. lia.
Qed.

(** C23: new data is offered only inside both windows: at most one SMSS, at SND.NXT,
    from unsent octets, never letting the flight exceed min(cwnd, SND.WND), and
    below one SMSS only by Nagle's and the silly-window rules.  A full segment that
    fits is always offered while the history has room.  What is offered
    passes every check of [commit] at once, and offering it changes timers only. *)
Theorem sender_new_data s clock now pushed :
  synced s clock -> clock <= now ->
  let (intent, s') := prepare_new s now pushed in
  let n := Bytes.length (range intent) in
  (exists p d, s' = s <| persist_ := p |> <| sws_override_deadline_ := d |>)
  /\ (if present intent
      then reason intent = new_data /\ Bytes.sequence (range intent) = nxt s
        /\ 0 < n <= sender_mss_ s /\ n <= Bytes.unsent_octets (bytes_ s)
        /\ flight_size s + n <= Z.min (Congested.congestion_window_ (congestion_ s)) (receiver_window_ s)
        /\ (n < sender_mss_ s -> small_allowed s now pushed n)
        /\ ready s' intent now = true
      else usable s < sender_mss_ s \/ Ledger.count_ (history_ s) = size (Ledger.records_ (history_ s))).
Proof.
  intros Y Hnow. destruct (Bytes.send_counters _ (sy_bytes _ _ Y)) as (Hf & Hq & Hu & _).
  unfold prepare_new. rewrite (sy_valid _ _ Y). cbn [negb].
  set (s1 := update_persist _ _ _). assert (synced s1 clock) as Y1 by now apply synced_update_persist.
  change (Z.min (Congested.send_allowance _ _ _) _) with (usable s1).
  pose proof (Scoreboard.wf_mss _ (sy_sack _ _ Y)) as Hm. rewrite (sy_sack_mss _ _ Y) in Hm.
  assert (usable s1 <= Bytes.unsent_octets (bytes_ s)) as Hle by (change (usable s <= Bytes.unsent_octets (bytes_ s)); unfold usable; lia).
  assert (0 <= usable s1) as H0 by (change (0 <= usable s); unfold usable; pose proof (allowance_range s); lia).
  destruct (Z.eqb_spec (usable s1) 0) as [Ez|Hne].
  { split; [now exists (persist_ s1), (sws_override_deadline_ s)|]. cbn. left. change (usable s) with (usable s1). lia. }
  pose proof (choose_payload_spec s1 clock now pushed Y1 ltac:(lia)) as Hp.
  destruct (choose_payload _ _ _ _ _ _) as [n sws]. destruct Hp as (Hn & Hms & Hfull & Hsmall).
  set (s2 := s1 <| sws_override_deadline_ := sws |>).
  assert (exists p d, s2 = s <| persist_ := p |> <| sws_override_deadline_ := d |>) as Hs2
    by now exists (persist_ s1), sws.
  destruct (Z.eqb_spec n 0) as [En|Hn0].
  { split; [exact Hs2|]. cbn. left. change (usable s) with (usable s1). change (sender_mss_ s1) with (sender_mss_ s) in *. lia. }
  destruct (new_range_current s clock n Y ltac:(lia)) as [Er Hcur].
  change (bytes_ s2) with (bytes_ s). rewrite Er in *. cbn [Bytes.sequence Bytes.length range_end] in *.
  unfold range_end. cbn [Bytes.sequence Bytes.length].
  pose proof (Ledger.can_record_next (history_ s) _ n now (sy_history _ _ Y)) as Hrec. cbn in Hrec.
  rewrite <- (synced_flight s clock Y) in Hrec. change (flight_size s) with (Bytes.flight_size (bytes_ s)) in Hrec.
  change (Ledger.can_record_original (history_ s2)) with (Ledger.can_record_original (history_ s)).
  specialize (Hrec ltac:(lia)). rewrite Hrec.
  pose proof (Ledger.ring_count _ (Ledger.track_ring _ _ (sy_history _ _ Y))) as Hc.
  destruct (Z.ltb_spec (Ledger.count_ (history_ s)) (size (Ledger.records_ (history_ s)))) as [Hroom|Hroom]; cbn [negb].
  - split; [exact Hs2|]. unfold present, Bytes.range_present. cbn [range Bytes.length].
    rewrite (proj2 (Z.eqb_neq n 0)) by done. cbn [negb reason range Bytes.sequence].
    change (sender_mss_ s1) with (sender_mss_ s) in *. split_and!; try done; try lia.
    + apply (usable_window s clock); [done|]. change (usable s) with (usable s1). lia.
    + intros Hlt. apply Hsmall. lia.
    + unfold ready, current, recordable, present, range_end, Bytes.range_present. cbn [range reason sender_generation Bytes.length Bytes.retransmission Bytes.sequence].
      rewrite (proj2 (Z.eqb_neq n 0)) by done. change (bytes_ s2) with (bytes_ s). change (history_ s2) with (history_ s).
      now rewrite Z.eqb_refl, Hrec, Hcur.
  - split; [exact Hs2|]. cbn. right. lia.
Qed.

(** ** Two defects *)

(** An acknowledgment of SND.UNA is a duplicate for the repository. *)
Lemma acknowledge_una s clock :
  synced s clock -> Bytes.acknowledge (bytes_ s) (una s) = (Bytes.duplicate, 0, bytes_ s).
Proof.
  intros Y. destruct (synced_words s clock Y) as (Iu & In & Hf).
  unfold Bytes.acknowledge. rewrite (proj1 (sy_bytes _ _ Y)). cbn [negb]. fold (una s) (nxt s).
  rewrite !(Sequence.after_offset (una s)) by (rewrite ?wsub_diag; done || lia).
  rewrite wsub_diag, (proj2 (Z.ltb_ge _ _)) by lia. done.
Qed.

Lemma window_restarts s clock now w :
  synced s clock -> receiver_window_ s = 0 -> 0 < w < two32 -> una s <> nxt s ->
  has_value (retransmission_deadline_ (update_receiver_window s w now)) = true.
Proof.
  intros Y Hz Hw Hne. unfold update_receiver_window. rewrite (sy_valid _ _ Y). cbn [negb].
  set (s1 := update_persist _ _ _). change (receiver_window_ s1) with (receiver_window_ s). rewrite Hz.
  rewrite (proj2 (Z.eqb_neq 0 w)), (proj2 (Z.eqb_neq w 0)) by lia. cbn [Z.eqb andb].
  change (flight_size _) with (flight_size s). rewrite (sender_flight_zero s clock Y), (proj2 (Z.eqb_neq _ _) Hne).
  cbn [negb]. destruct (Ledger.oldest _); reflexivity.
Qed.

(** Octets are in flight and nothing will ever retransmit them. *)
Definition stranded (s : t) (now : Z) : Prop :=
  una s <> nxt s /\ retransmission_deadline_ s = None /\ Persist.deadline_ (persist_ s) = None
  /\ (forall later, present (prepare_timeout_retransmission s later) = false
       /\ present (prepare_persist_probe s later).1 = false)
  /\ present (prepare_fast_retransmission s) = false
  /\ parts_agree (checkpoint s now) = false.

(** C24: a window that reopens through [acknowledge] strands what a persist probe
    left in flight: neither the retransmission timer nor the persist timer runs, no
    retransmission is prepared at any later time, and the checkpoint is refused.
    The same window given to [update_receiver_window] starts the timer. *)
Theorem sender_reopen_strands s clock now w :
  synced s clock -> clock <= now -> 0 < w < two32 -> una s <> nxt s ->
  receiver_window_ s = 0 -> retransmission_deadline_ s = None ->
  sack_enabled_ s = false -> fast_retransmission_pending_ s = false ->
  stranded (acknowledge s (una s) w false now None []).2 now
  /\ has_value (retransmission_deadline_ (update_receiver_window s w now)) = true.
Proof.
  intros Y Hnow Hw Hne Hzero Hdl Hsack Hfast. destruct (synced_words s clock Y) as (Iu & In & Hf).
  pose proof (acknowledge_una s clock Y) as Eb.
  destruct (sack_acknowledged s (una s) [] (una s)) as (k & new & Es & F & _);
    try (apply Y || done).
  { right. split; [|done]. rewrite (Sequence.after_offset (una s)) by (rewrite ?wsub_diag; done || lia). now rewrite wsub_diag. }
  set (x := s <| sack_ := k |> <| receiver_window_ := w |>
              <| maximum_receiver_window_ := Z.max (maximum_receiver_window_ (s <| sack_ := k |>)) w |>).
  assert ((acknowledge s (una s) w false now None []).2 = update_persist x w now) as ->.
  { unfold acknowledge. rewrite (sy_valid _ _ Y), Eb. cbn [negb acceptable].
    match goal with |- context [acknowledge_sack ?y] => assert (y = s) as -> by now destruct s end.
    rewrite Es, andb_false_r. cbn [andb]. fold x. unfold acknowledge_recovery.
    assert (sack_enabled_ x = false) as -> by exact Hsack. reflexivity. }
  assert (persist_ (update_persist x w now) = Persist.mk None 0) as Ep.
  { cbn. unfold Persist.update. now rewrite (proj2 (Z.eqb_neq w 0)) by lia. }
  set (s' := update_persist x w now) in *. assert (una s' <> nxt s') as Hne' by exact Hne.
  split; [|now apply (window_restarts s clock now w)].
  split; [exact Hne'|]. split; [exact Hdl|]. split; [now rewrite Ep|]. split_and!.
  - intros later. split.
    + unfold prepare_timeout_retransmission. change (retransmission_deadline_ s') with (retransmission_deadline_ s).
      rewrite Hdl. cbn [expired negb]. now rewrite orb_true_r.
    + unfold prepare_persist_probe. change (valid_ s') with (valid_ s). rewrite (sy_valid _ _ Y). cbn [negb].
      assert (Persist.due (persist_ (update_persist s' (receiver_window_ s') later)) later = false) as ->; [|done].
      cbn. unfold Persist.due, Persist.update. now rewrite (proj2 (Z.eqb_neq w 0)) by lia.
  - unfold prepare_fast_retransmission. change (fast_retransmission_pending_ s') with (fast_retransmission_pending_ s).
    rewrite Hfast. cbn [negb]. now rewrite orb_true_r.
  - unfold parts_agree. rewrite negb_false_iff, !orb_true_iff. do 3 left. right.
    assert (saved_flight (checkpoint s' now) = nxt s ⊟ una s) as -> by done.
    assert (retransmission_deadline_present (checkpoint s' now) = false) as -> by (cbn; now rewrite Hdl).
    assert (Persist.active (ck_persist (checkpoint s' now)) = false) as ->.
    { cbn [checkpoint ck_persist]. now rewrite Ep. }
    rewrite (proj2 (Z.eqb_neq _ 0)); [done|]. revert Hne. clear -Iu In. word.
Qed.

(** The congestion controller is in a SACK recovery the scoreboard is not in. *)
Definition frozen (s : t) : Prop :=
  Scoreboard.in_recovery (sack_ s) = false /\ Congested.sack_recovery_ (congestion_ s) = true
  /\ (forall n, Congested.congestion_window_ (Congested.on_new_ack (congestion_ s) n)
                = Congested.congestion_window_ (congestion_ s))
  /\ (forall now, parts_agree (checkpoint s now) = false).

(** C25: after a retransmission timeout the scoreboard refuses recovery until the
    flight of the timeout is acknowledged, but the sender cuts its window all the
    same when enough new SACK information arrives.  The congestion controller is
    then in a SACK recovery that no acknowledgment completes: new acknowledgments
    no longer grow the window, and no checkpoint of the state is accepted. *)
Theorem sender_suppressed_recovery s clock now w blocks k :
  synced s clock -> clock <= now -> una s <> nxt s -> sack_enabled_ s = true ->
  Scoreboard.update (sack_ s) (una s) (nxt s) blocks = (Scoreboard.updated, k) ->
  Scoreboard.last_update_added_sack_ k = true -> (Scoreboard.duplicate_ack k true).1 = true ->
  Scoreboard.recovery_ k = false -> Scoreboard.recovery_suppressed_ k = true ->
  let s' := (acknowledge s (una s) w false now None blocks).2 in
  frozen s'
  /\ Congested.congestion_window_ (congestion_ s')
     = Congested.reduced_threshold (congestion_ s) (flight_size s).
Proof.
  intros Y Hnow Hne Hen Eu Hadd Hdup Hrec Hsup.
  set (x := s <| sack_ := k |> <| receiver_window_ := w |>
              <| maximum_receiver_window_ := Z.max (maximum_receiver_window_ (s <| sack_ := k |>)) w |>).
  assert ((acknowledge s (una s) w false now None blocks).2 = update_persist (acknowledge_recovery x true)
    (receiver_window_ (acknowledge_recovery x true)) now) as ->.
  { unfold acknowledge. rewrite (sy_valid _ _ Y), (acknowledge_una s clock Y). cbn [negb acceptable].
    match goal with |- context [acknowledge_sack ?y] => assert (y = s) as -> by now destruct s end.
    unfold acknowledge_sack. fold (nxt s). rewrite Hen, Eu. cbn [rejected]. rewrite Hadd, andb_false_r.
    cbn [andb negb]. fold x. reflexivity. }
  assert (exists k', acknowledge_recovery x true = bump (x <| sack_ := k' |>
      <| congestion_ := Congested.enter_sack_recovery (congestion_ s) (flight_size s) |>
      <| fast_retransmission_pending_ := false |>) /\ Scoreboard.recovery_ k' = false) as (k' & -> & Hk').
  { unfold acknowledge_recovery. change (sack_enabled_ x) with (sack_enabled_ s). rewrite Hen.
    change (flight_size x) with (flight_size s). rewrite (sender_flight_zero s clock Y), (proj2 (Z.eqb_neq _ _) Hne).
    change (sack_ x) with k. unfold Scoreboard.in_recovery. rewrite Hrec. cbn [negb andb].
    assert (Scoreboard.recovery_ (Scoreboard.duplicate_ack k true).2 = false
      /\ Scoreboard.recovery_suppressed_ (Scoreboard.duplicate_ack k true).2 = true) as [H1 H2]
      by (unfold Scoreboard.duplicate_ack; repeat case_if; done).
    destruct (Scoreboard.duplicate_ack k true) as [enter k']. cbn in Hdup, H1, H2. subst enter.
    assert (Scoreboard.enter_recovery k' = k') as Ek
      by (unfold Scoreboard.enter_recovery; now rewrite H2, !orb_true_r).
    exists k'. split; [|done]. change (sack_ (x <| sack_ := k' |>)) with k'. rewrite Ek. reflexivity. }
  intros s'. split; [|reflexivity]. split; [exact Hk'|]. split; [reflexivity|].
  split; [reflexivity|]. intros later.
  unfold parts_agree. rewrite negb_false_iff, !orb_true_iff. do 7 left. right.
  assert (Scoreboard.recovery (ck_sack (checkpoint s' later)) = false) as -> by exact Hk'.
  assert (Congested.sack_recovery (ck_congestion (checkpoint s' later)) = true) as -> by reflexivity. done.
Qed.

(** ** Concrete runs *)

Definition sample0 : Run :=
  mkRun (construct (replicate 64 0) (replicate 4 Ledger.no_record) (replicate 4 Scoreboard.no_range)
           (replicate 4 Scoreboard.no_range) 100 8) 0 [].

(** Commits the transmission prepared last. *)
Definition send (x : Run) (now : Z) : Run := run x (Commit (hd no_transmission (pool x))) now.

Definition second : Z := Catalog.seconds 1.

(** One octet written into a closed window and probed. *)
Definition written : Run := run sample0 (Write [65]) 0.
Definition offered : Run := run written PreparePersistProbe second.
Definition probed : Run := send offered second.

(** Four full segments in an open window with SACK, the first retransmitted after
    a timeout. *)
Definition opened : Run :=
  run (run (run sample0 (UpdateReceiverWindow 1000) 0) (SetSack true) 0) (Write (replicate 32 7)) 0.
Definition next_sent (x : Run) : Run := send (run x (PrepareNew true) 0) 0.
Definition full : Run := next_sent (next_sent (next_sent (next_sent opened))).
Definition timed_out : Run := send (run full PrepareTimeoutRetransmission second) second.
Definition sacked : list SackBlock := [mkBlock 108 132].

Lemma reachable_run x ev now :
  reachable init step x -> clock x <= now -> enabled x ev -> reachable init step (run x ev now).
Proof. intros H1 H2 H3. apply reachable_step with x (ev, now); [done|]. now split_and!. Qed.

(** A prepared transmission can be committed while it is in the pool. *)
Lemma reachable_send x ev now now' :
  reachable init step (run x ev now) -> clock (run x ev now) <= now' ->
  hd no_transmission (pool (run x ev now)) ∈ pool (run x ev now) ->
  reachable init step (send (run x ev now) now').
Proof. intros H1 H2 H3. now apply reachable_run. Qed.

Lemma sample0_reachable : reachable init step sample0.
Proof.
  apply reachable_init.
  exists (replicate 64 0), (replicate 4 Ledger.no_record), (replicate 4 Scoreboard.no_range),
    (replicate 4 Scoreboard.no_range), 100, 8, 0.
  split_and!; try done; unfold size, is_u32; cbn; lia.
Qed.

Lemma probed_reachable : reachable init step probed.
Proof.
  apply reachable_send; [|done|left].
  apply reachable_run; [|done|done]. now apply reachable_run; [apply sample0_reachable| |].
Qed.

Lemma next_sent_reachable x : reachable init step x -> clock x = 0 -> reachable init step (next_sent x).
Proof.
  intros H E. apply reachable_send; [|done|left]. apply reachable_run; [done|now rewrite E|done].
Qed.

Lemma opened_reachable : reachable init step opened.
Proof.
  apply reachable_run; [|done|done]. apply reachable_run; [|done|vm_compute; done].
  apply reachable_run; [apply sample0_reachable|done|unfold enabled, is_u32; lia].
Qed.

Lemma full_reachable : reachable init step full.
Proof. repeat apply next_sent_reachable; try done. exact opened_reachable. Qed.

Lemma timed_out_reachable : reachable init step timed_out.
Proof.
  apply reachable_send; [|done|left]. apply reachable_run; [exact full_reachable|done|done].
Qed.

Lemma probed_synced : synced (sender probed) second.
Proof. exact (proj1 (reachable_synced probed probed_reachable)). Qed.

Lemma opened_synced : synced (sender opened) 0.
Proof. exact (proj1 (reachable_synced opened opened_reachable)). Qed.

Lemma timed_out_synced : synced (sender timed_out) second.
Proof. exact (proj1 (reachable_synced timed_out timed_out_reachable)). Qed.

Lemma sender_synchronized_witness :
  reachable init step probed
  /\ synced (sender probed) (clock probed)
  /\ forall intent now, intent ∈ pool probed -> clock probed <= now ->
     if ready (sender probed) intent now
     then exists s', commit (sender probed) intent now = (true, s') /\ synced s' now
     else commit (sender probed) intent now = (false, sender probed).
Proof. split; [exact probed_reachable|]. apply (sender_synchronized probed probed_reachable). Defined.

Lemma sender_new_data_witness :
  present (prepare_new (sender opened) 0 true).1 = true
  /\ let (intent, s') := prepare_new (sender opened) 0 true in
     exists p d, s' = (sender opened) <| persist_ := p |> <| sws_override_deadline_ := d |>.
Proof.
  split; [vm_compute; reflexivity|].
  pose proof (sender_new_data (sender opened) 0 0 true opened_synced ltac:(lia)) as H.
  destruct (prepare_new (sender opened) 0 true) as [intent s']. exact (proj1 H).
Defined.

Lemma sender_reopen_strands_witness :
  stranded (acknowledge (sender probed) (una (sender probed)) 1000 false (Catalog.seconds 2) None []).2
    (Catalog.seconds 2)
  /\ has_value (retransmission_deadline_
       (update_receiver_window (sender probed) 1000 (Catalog.seconds 2))) = true.
Proof.
  apply (sender_reopen_strands (sender probed) second (Catalog.seconds 2) 1000 probed_synced);
    vm_compute; intuition congruence.
Defined.

Lemma sender_suppressed_recovery_witness :
  frozen (acknowledge (sender timed_out) (una (sender timed_out)) 1000 false second None sacked).2
  /\ Congested.congestion_window_ (congestion_
       (acknowledge (sender timed_out) (una (sender timed_out)) 1000 false second None sacked).2)
     = Congested.reduced_threshold (congestion_ (sender timed_out)) (flight_size (sender timed_out)).
Proof.
  apply (sender_suppressed_recovery (sender timed_out) second second 1000 sacked
    (Scoreboard.update (sack_ (sender timed_out)) 100 132 sacked).2 timed_out_synced);
    vm_compute; intuition congruence.
Defined.

End SenderSync.
