(* ===== verification/SenderCheckpoint.v ===== *)
(** * Checkpoints of the sender (core/src/transport/tcp_sender.cpp)

    When the checkpoint of a live sender is accepted by a sender over the same
    resources, and the state that continues from it. *)

From S2P Require Import Prelude Sequence Catalog Arena Blocks SendBuffer History Failure Sack SackRecovery Congestion Retransmission Timers Sender SenderSync.
Import Arena Blocks.

Module SenderCheckpoint.
Import Sender SenderSync.

(** The restoring sender has the saved one's storage and MSS. *)
Record fits (live s : t) : Prop := mkFits {
  fit_valid : valid_ live = true;
  fit_mss : sender_mss_ live = sender_mss_ s;
  fit_bytes : Bytes.valid_ (bytes_ live) = true;
  fit_storage : size (Bytes.storage_ (bytes_ live)) = size (Bytes.storage_ (bytes_ s));
  fit_history : Ledger.ring_ok (history_ live);
  fit_records : size (Ledger.records_ (history_ live)) = size (Ledger.records_ (history_ s));
  fit_sack : Scoreboard.valid_ (sack_ live) = true;
  fit_sack_mss : Scoreboard.sender_mss_ (sack_ live) = sender_mss_ live;
  fit_ranges : length (Scoreboard.ranges_ (sack_ live)) = length (Scoreboard.ranges_ (sack_ s));
  fit_workspace : length (Scoreboard.workspace_ (sack_ live)) = length (Scoreboard.ranges_ (sack_ s));
  fit_some : Scoreboard.ranges_ (sack_ s) <> []
}.

(** What the operations do not maintain and [restore] insists on. *)
Definition failure_current (s : t) : bool :=
  eqb (Failures.active_ (failure_ s)) (negb (una s =? nxt s) && negb (receiver_window_ s =? 0)).

Definition agreement (s : t) : bool :=
  negb (generation_ s =? 0) && negb (Bytes.generation_ (bytes_ s) =? 0)
  && Recovery.marker_current (sack_ s) && failure_current s
  && eqb (Scoreboard.recovery_ (sack_ s)) (Congested.sack_recovery_ (congestion_ s))
  && ((una s =? nxt s) || has_value (retransmission_deadline_ s) || has_value (Persist.deadline_ (persist_ s)))
  && (negb (has_value (sws_override_deadline_ s)) || negb (Bytes.unsent_octets (bytes_ s) =? 0)).

Lemma remaining_nonneg d now : 0 <= remaining d now.
Proof. unfold remaining. destruct d; [case_if|]; lia. Qed.

Lemma failure_norm_wf f now : Failures.wf f now -> Failures.wf (Failures.norm f now) now.
Proof.
  intros (H1 & H2 & H3). unfold Failures.wf, Failures.norm. cbn. split; [done|].
  destruct (Failures.active_ f); split; auto; lia.
Qed.

Lemma norm_matches f o now : matches f o -> matches (Failures.norm f now) o.
Proof. exact id. Qed.

Lemma persist_norm_wf p now : Persist.wf p -> Persist.wf (Persist.norm p now).
Proof. unfold Persist.wf, Persist.norm. now destruct (Persist.deadline_ p). Qed.

Section Saved.
Context (live s : t) (clock now : Z) (Y : synced s clock) (Hnow : clock <= now) (F : fits live s).
Abbreviation saved := (checkpoint s now).

Lemma history_accepted :
  exists h, Ledger.restore (history_ live) (ck_history saved) now = Some h
    /\ Ledger.validate_checkpoint (ck_history saved) (Ledger.capacity (history_ live)) now = true
    /\ Ledger.tracks h (Ledger.mkOwner (una s) (nxt s) now) /\ Ledger.live h = Ledger.live (history_ s).
Proof.
  pose proof (sy_history _ _ Y) as T. destruct F.
  destruct (Ledger.restore_live (history_ live) (history_ s) _ now now T) as (h & E & Hr & Hs & Hl); auto; [cbn; lia|].
  exists h. split; [exact E|].
  assert (Ledger.live h = Ledger.live (history_ s)) as El.
  { rewrite Hl. rewrite Z.sub_diag. clear. induction (Ledger.live (history_ s)) as [|r l IH]; [done|].
    cbn. rewrite IH. f_equal. unfold Ledger.delayed. rewrite !Z.add_0_r. now destruct r. }
  split_and!; [|destruct (tracks_later _ _ _ _ now Hnow T) as []; constructor; rewrite ?El; auto|exact El].
  unfold Ledger.restore in E. unfold Ledger.capacity. rewrite (Ledger.ring_valid _ fit_history0) in *.
  cbn [negb orb checkpoint ck_history] in *. now destruct (Ledger.validate_checkpoint _ _ _).
Qed.

Lemma saved_parts_valid :
  parts_valid live saved now = negb (generation_ s =? 0) && Recovery.marker_current (sack_ s).
Proof.
  destruct history_accepted as (h & _ & Hh & _). destruct F.
  pose proof (Recovery.restore_saved (sack_ live) (sack_ s) (sy_sack _ _ Y) fit_sack0 fit_ranges0 fit_workspace0 fit_some0)
    as [Hsack _].
  pose proof (Congested.congestion_restore_checkpoint (congestion_ live) _ (sy_congestion _ _ Y)) as Hc.
  pose proof (Estimator.estimator_restore_checkpoint (retransmission_ live) _ (sy_estimator _ _ Y)) as He.
  pose proof (Failures.failure_restore_checkpoint Failures.initial _ now
    (failure_later _ _ _ Hnow (sy_failure _ _ Y))) as Hf.
  unfold Congested.restore in Hc. unfold Estimator.restore in He. unfold Failures.restore in Hf.
  unfold parts_valid, Scoreboard.capacity. rewrite fit_valid0, fit_sack0, Hh.
  cbn [checkpoint ck_generation retransmission_remaining_nanoseconds rtt_probe_age_nanoseconds
    sws_override_remaining_nanoseconds retransmission_deadline_present sws_override_deadline_present
    ck_rtt_probe_present ck_rtt_probe_retransmitted ck_congestion ck_retransmission ck_failure ck_sack].
  rewrite Hsack.
  destruct (Congested.validate_checkpoint _); [|discriminate].
  destruct (Estimator.validate_checkpoint _); [|discriminate].
  destruct (Failures.validate_checkpoint _); [|discriminate].
  pose proof (remaining_nonneg (retransmission_deadline_ s) now).
  pose proof (remaining_nonneg (sws_override_deadline_ s) now).
  replace (remaining (retransmission_deadline_ s) now <? 0) with false by lia.
  replace (remaining (sws_override_deadline_ s) now <? 0) with false by lia.
  assert (forall d, negb (has_value d) && negb (remaining d now =? 0) = false) as Hd by (intros []; done).
  rewrite !Hd.
  assert ((if rtt_probe_present_ s && (rtt_sent_at_ s <=? now) then now - rtt_sent_at_ s else 0) <? 0 = false) as ->.
  { apply Z.ltb_ge. destruct (rtt_probe_present_ s); cbn; [case_if|]; lia. }
  assert (negb (rtt_probe_present_ s)
    && (negb ((if rtt_probe_present_ s && (rtt_sent_at_ s <=? now) then now - rtt_sent_at_ s else 0) =? 0)
        || rtt_probe_retransmitted_ s) = false) as ->.
  { destruct (rtt_probe_present_ s) eqn:Ep; cbn; [done|]. now apply (sy_probe_off _ _ Y). }
  cbn [negb orb]. now destruct (generation_ s =? 0), (Recovery.marker_current (sack_ s)).
Qed.

Lemma saved_bytes_fit : bytes_fit live saved = negb (Bytes.generation_ (bytes_ s) =? 0).
Proof.
  destruct F. destruct (sy_bytes _ _ Y) as (_ & _ & _ & _ & _ & _ & Hh & _).
  unfold bytes_fit, bytes_capacity. rewrite fit_bytes0. cbn.
  rewrite (sy_cong_mss _ _ Y), fit_mss0, Z.eqb_refl, fit_storage0, Z.eqb_refl.
  rewrite (proj2 (Z.leb_gt _ _)) by lia. now destruct (_ =? 0).
Qed.
(** *** The guard across parts, condition by condition *)

Lemma saved_flight_zero : (saved_flight saved =? 0) = (una s =? nxt s).
Proof. rewrite <- (sender_flight_zero s clock Y), (synced_flight s clock Y). done. Qed.

Lemma saved_history :
  history_matches_flight saved = true
  /\ match ck_history saved with
     | [] => una s = nxt s
     | front :: _ => una s <> nxt s /\ exists r, Ledger.oldest (history_ s) = Some r
         /\ Ledger.ck_first front = Ledger.first r /\ Ledger.ck_end front = Ledger.end_ r
     end.
Proof.
  pose proof (sy_history _ _ Y) as T. unfold history_matches_flight. rewrite saved_flight_zero.
  cbn [checkpoint ck_history ck_bytes]. rewrite Ledger.checkpoint_live.
  rewrite Ledger.oldest_spec by apply T. pose proof (Ledger.track_chain _ _ T) as Hc. cbn in Hc.
  destruct (Ledger.live (history_ s)) as [|r l] eqn:El; cbn [fmap list_fmap Ledger.chain] in *.
  { split; [now apply Z.eqb_eq|exact Hc]. }
  destruct Hc as (H1 & H2 & H3 & H4).
  assert (una s <> nxt s) as Hne by (intros E; apply Ledger.chain_le in H4; rewrite E, wsub_diag in *; lia).
  split; [|split; [done|]; exists r; now split_and!].
  rewrite (proj2 (Z.eqb_neq _ _) Hne). cbn [negb andb Ledger.save_record Ledger.ck_first].
  rewrite H1. cbn. change (Bytes.send_unacknowledged_ (bytes_ s)) with (una s). rewrite Z.eqb_refl. cbn [andb].
  change (Ledger.save_record now r :: (Ledger.save_record now <$> l)) with (Ledger.save_record now <$> (r :: l)).
  rewrite fmap_last. destruct (list.last (r :: l)) as [z|] eqn:Ez; [|now apply list.last_None in Ez].
  cbn. rewrite (Ledger.chain_last (una s) (una s) (r :: l) (nxt s) z); [apply Z.eqb_refl| |exact Ez].
  now split_and!.
Qed.

Lemma saved_failure : failure_matches_window saved = failure_current s.
Proof.
  unfold failure_matches_window, failure_current. rewrite saved_flight_zero.
  destruct saved_history as [_ H]. pose proof (sy_matches _ _ Y) as M. unfold matches in M.
  change (ck_receiver_window saved) with (receiver_window_ s).
  change (Failures.active (ck_failure saved)) with (Failures.active_ (failure_ s)).
  change (Failures.segment_first (ck_failure saved)) with (Failures.segment_first_ (failure_ s)).
  change (Failures.segment_end (ck_failure saved)) with (Failures.segment_end_ (failure_ s)).
  destruct (ck_history saved) as [|front l].
  - rewrite H, Z.eqb_refl. cbn. now destruct (Failures.active_ (failure_ s)).
  - destruct H as (Hne & r & Hr & E1 & E2). rewrite (proj2 (Z.eqb_neq _ _) Hne). cbn [orb negb andb].
    destruct (receiver_window_ s =? 0); cbn [negb]; [now destruct (Failures.active_ (failure_ s))|].
    destruct (Failures.active_ (failure_ s)); [|done].
    destruct (M eq_refl) as (r' & Hr' & F1 & F2). rewrite Hr in Hr'. injection Hr' as <-.
    now rewrite F1, F2, E1, E2, !Z.eqb_refl.
Qed.

Lemma saved_parts_agree :
  parts_agree saved
  = failure_current s && eqb (Scoreboard.recovery_ (sack_ s)) (Congested.sack_recovery_ (congestion_ s))
    && ((una s =? nxt s) || has_value (retransmission_deadline_ s) || has_value (Persist.deadline_ (persist_ s)))
    && (negb (has_value (sws_override_deadline_ s)) || negb (Bytes.unsent_octets (bytes_ s) =? 0)).
Proof.
  destruct (Bytes.send_counters _ (sy_bytes _ _ Y)) as (Hf & Hq & Hu & _).
  pose proof (Bytes.send_queued _ (sy_bytes _ _ Y)) as Eq. pose proof (Bytes.send_flight _ (sy_bytes _ _ Y)) as Ef.
  destruct (synced_words s clock Y) as (Iu & In & Hfl).
  unfold parts_agree. rewrite (proj1 saved_history), saved_failure, saved_flight_zero.
  change (saved_queued saved) with (Bytes.write_next_ (bytes_ s) ⊟ Bytes.send_unacknowledged_ (bytes_ s)).
  change (saved_flight saved) with (Bytes.send_next_ (bytes_ s) ⊟ Bytes.send_unacknowledged_ (bytes_ s)).
  rewrite <- Eq, <- Ef. change (size (Bytes.storage (ck_bytes saved))) with (size (Bytes.storage_ (bytes_ s))).
  rewrite (proj2 (Z.ltb_ge _ _)), (proj2 (Z.ltb_ge (size _) _)) by lia.
  cbn [checkpoint ck_sack ck_bytes ck_congestion ck_sack_enabled ck_maximum_receiver_window ck_receiver_window
    retransmission_deadline_present sws_override_deadline_present ck_fast_retransmission_pending ck_rtt_probe_present
    ck_rtt_sequence_end ck_persist Bytes.checkpoint Bytes.send_unacknowledged Bytes.send_next Bytes.write_next
    Scoreboard.checkpoint Scoreboard.high_ack Scoreboard.high_data_end Scoreboard.recovery Scoreboard.ranges
    Congested.checkpoint Congested.sack_recovery Congested.fast_recovery Persist.checkpoint Persist.active].
  fold (una s) (nxt s). rewrite (sy_ha _ _ Y), (sy_hde _ _ Y), !Z.eqb_refl.
  rewrite (proj2 (Z.ltb_ge (maximum_receiver_window_ s) _)) by apply Y.
  assert (negb (sack_enabled_ s)
    && (Scoreboard.recovery_ (sack_ s) || negb (size (Scoreboard.live (sack_ s)) =? 0)) = false) as ->.
  { destruct (sack_enabled_ s) eqn:Ed; [done|]. destruct (sy_disabled _ _ Y Ed) as [-> Hs].
    destruct (Scoreboard.recovery_ (sack_ s)) eqn:Er; [|done]. rewrite (sy_recovery _ _ Y Er) in Hs. discriminate. }
  assert ((una s =? nxt s) && has_value (retransmission_deadline_ s) = false) as ->.
  { destruct (Z.eqb_spec (una s) (nxt s)) as [E|]; [|done]. now rewrite (sy_deadline _ _ Y E). }
  assert (fast_retransmission_pending_ s
    && (negb (Congested.fast_recovery_ (congestion_ s)) || (una s =? nxt s)) = false) as ->.
  { destruct (fast_retransmission_pending_ s) eqn:Ep; [|done]. destruct (sy_fast _ _ Y Ep) as [-> Hne].
    now rewrite (proj2 (Z.eqb_neq _ _) Hne). }
  assert (rtt_probe_present_ s && ((una s =? nxt s) || Sequence.after (rtt_sequence_end_ s) (nxt s)) = false) as ->.
  { destruct (rtt_probe_present_ s) eqn:Ep; [|done]. destruct (sy_probe _ _ Y Ep) as (Ie & He & _).
    rewrite (Sequence.after_offset (una s)) by (done || lia).
    destruct (Z.eqb_spec (una s) (nxt s)) as [E|]; [rewrite E, wsub_diag in He; lia|]. cbn. lia. }
  assert ((nxt s =? Bytes.write_next_ (bytes_ s)) = (Bytes.unsent_octets (bytes_ s) =? 0)) as ->.
  { unfold Bytes.unsent_octets. rewrite (proj1 (sy_bytes _ _ Y)). fold (nxt s).
    destruct (sy_bytes _ _ Y) as (_ & _ & _ & _ & Iw & _). apply eq_true_iff_eq. rewrite !Z.eqb_eq. clear -In Iw. word. }
  destruct (failure_current s), (eqb _ _), (una s =? nxt s), (has_value (retransmission_deadline_ s)),
    (has_value (Persist.deadline_ (persist_ s))), (has_value (sws_override_deadline_ s)),
    (Bytes.unsent_octets (bytes_ s) =? 0); reflexivity.
Qed.

Lemma saved_age : now <? rtt_probe_age_nanoseconds saved = false.
Proof.
  pose proof (Ledger.track_clock _ _ (sy_history _ _ Y)) as H0. cbn in H0. apply Z.ltb_ge.
  cbn. destruct (rtt_probe_present_ s) eqn:Ep; cbn; [|lia].
  destruct (sy_probe _ _ Y Ep) as (_ & _ & Ht). case_if; lia.
Qed.

(** *** The restored state *)

(** What the restored sender continues with: the same octets, records, intervals
    and windows, every deadline where it was or due at once. *)
Record continues (s s' : t) (now : Z) : Prop := mkContinues {
  con_bytes : bytes_ s' = bytes_ s;
  con_history : Ledger.live (history_ s') = Ledger.live (history_ s);
  con_failure : failure_ s' = Failures.norm (failure_ s) now;
  con_sack : Scoreboard.checkpoint (sack_ s') = Scoreboard.checkpoint (sack_ s);
  con_congestion : congestion_ s' = congestion_ s;
  con_retransmission : retransmission_ s' = retransmission_ s;
  con_persist : persist_ s' = Persist.norm (persist_ s) now;
  con_windows : receiver_window_ s' = receiver_window_ s
    /\ maximum_receiver_window_ s' = maximum_receiver_window_ s;
  con_probe : rtt_probe_present_ s' = rtt_probe_present_ s
    /\ rtt_probe_retransmitted_ s' = rtt_probe_retransmitted_ s
    /\ rtt_sequence_end_ s' = rtt_sequence_end_ s
    /\ (rtt_probe_present_ s = true -> rtt_sent_at_ s' = rtt_sent_at_ s);
  con_deadline : retransmission_deadline_ s' = Z.max now <$> retransmission_deadline_ s;
  con_override : sws_override_deadline_ s' = Z.max now <$> sws_override_deadline_ s;
  con_flags : generation_ s' = generation_ s /\ pending_failure_action_ s' = pending_failure_action_ s
    /\ fast_retransmission_pending_ s' = fast_retransmission_pending_ s
    /\ nagle_enabled_ s' = nagle_enabled_ s /\ sack_enabled_ s' = sack_enabled_ s
}.

Lemma remaining_deadline (d : option Z) :
  (if has_value d then Some (now + remaining d now) else None) = Z.max now <$> d.
Proof. destruct d as [d|]; cbn; [|done]. f_equal. case_if; lia. Qed.

Lemma parts_restored :
  Bytes.generation_ (bytes_ s) <> 0 -> Recovery.marker_current (sack_ s) = true ->
  exists h k, restore_parts live saved now
    = Some (live <| bytes_ := bytes_ s |> <| congestion_ := congestion_ s |>
              <| retransmission_ := retransmission_ s |> <| history_ := h |> <| sack_ := k |>
              <| persist_ := Persist.norm (persist_ s) now |> <| failure_ := Failures.norm (failure_ s) now |>)
    /\ Ledger.tracks h (Ledger.mkOwner (una s) (nxt s) now) /\ Ledger.live h = Ledger.live (history_ s)
    /\ followed (sack_ s) k (una s) (nxt s) /\ Scoreboard.checkpoint k = Scoreboard.checkpoint (sack_ s).
Proof.
  intros Hg Hm. destruct history_accepted as (h & Eh & _ & Th & Lh). destruct F.
  pose proof (Recovery.restore_saved (sack_ live) (sack_ s) (sy_sack _ _ Y) fit_sack0 fit_ranges0 fit_workspace0 fit_some0)
    as [_ Hsack]. rewrite Hm in Hsack. destruct Hsack as (w & Hlw & Hk).
  unfold restore_parts. cbn [checkpoint ck_persist ck_failure ck_bytes ck_congestion ck_retransmission ck_sack].
  rewrite (Persist.persist_restore_checkpoint Persist.initial _ now (sy_persist _ _ Y)).
  rewrite (Failures.failure_restore_checkpoint Failures.initial _ now (failure_later _ _ _ Hnow (sy_failure _ _ Y))).
  rewrite (Bytes.send_restore_checkpoint (bytes_ live) (bytes_ s) (sy_bytes _ _ Y) Hg fit_bytes0 fit_storage0).
  rewrite (Congested.congestion_restore_checkpoint (congestion_ live) _ (sy_congestion _ _ Y)).
  rewrite (Estimator.estimator_restore_checkpoint (retransmission_ live) _ (sy_estimator _ _ Y)).
  change (Ledger.checkpoint (history_ s) now) with (ck_history saved). rewrite Eh, Hk.
  eexists h, _. split; [reflexivity|]. split_and!; [exact Th|exact Lh| |reflexivity].
  pose proof (sy_sack _ _ Y) as []. constructor; cbn; try apply Y.
  - constructor; cbn; auto. rewrite fit_sack_mss0, fit_mss0, <- (sy_sack_mss _ _ Y). done.
  - rewrite fit_sack_mss0, fit_mss0. symmetry. apply Y.
  - done.
Qed.
Lemma restored :
  agreement s = true -> exists s', restore live saved now = Some s' /\ synced s' now /\ continues s s' now.
Proof.
  intros Ha. unfold agreement in Ha.
  apply andb_true_iff in Ha as [[[[[[Hg Hb]%andb_true_iff Hm]%andb_true_iff Hf]%andb_true_iff Hr]%andb_true_iff
    Hd]%andb_true_iff Ho].
  pose proof Hb as Hb'. apply negb_true_iff, Z.eqb_neq in Hb'.
  destruct (parts_restored Hb' Hm) as (h & k & Hp & Th & Lh & Fk & Ck).
  unfold restore. rewrite saved_parts_valid, saved_bytes_fit, saved_parts_agree, saved_age.
  rewrite Hg, Hb, Hm, Hf, Hr, Hd, Ho, Hp. cbn [negb orb andb].
  eexists. split; [reflexivity|].
  cbn [checkpoint retransmission_deadline_present retransmission_remaining_nanoseconds
    sws_override_deadline_present sws_override_remaining_nanoseconds].
  rewrite !remaining_deadline.
  match goal with |- synced ?x _ /\ _ => set (x' := x) end.
  assert (rtt_probe_present_ s = true -> rtt_sent_at_ x' = rtt_sent_at_ s) as Hsent.
  { intros Ep. change (rtt_sent_at_ x') with (now - rtt_probe_age_nanoseconds saved). cbn. rewrite Ep.
    destruct (sy_probe _ _ Y Ep) as (_ & _ & Ht). cbn [andb]. rewrite (proj2 (Z.leb_le _ _)) by lia. lia. }
  assert (una x' = una s) as Eu by reflexivity. assert (nxt x' = nxt s) as En by reflexivity.
  pose proof (Ledger.track_clock _ _ (sy_history _ _ Y)) as H0. cbn in H0.
  split; [|constructor; try reflexivity; [exact Lh|exact Ck|now split_and!|now split_and!|now split_and!]].
  pose proof F as []. destruct Fk as [F1 F2 F3 F4 F5].
  pose proof (norm_matches (failure_ s) (Ledger.oldest (history_ s)) now (sy_matches _ _ Y)) as Hmat.
  pose proof (failure_norm_wf _ now (failure_later _ _ _ Hnow (sy_failure _ _ Y))) as Hfw.
  pose proof (persist_norm_wf _ now (sy_persist _ _ Y)) as Hpw.
  assert (Ledger.oldest h = Ledger.oldest (history_ s)) as Eo
    by (rewrite !Ledger.oldest_spec, Lh by (apply Th || apply (sy_history _ _ Y)); done).
  assert (sack_enabled_ s = false -> Scoreboard.live k = []) as Hlk.
  { intros Ed. destruct (sy_disabled _ _ Y Ed) as [Hl _]. rewrite <- Hl. exact (f_equal Scoreboard.ranges Ck). }
  assert (rtt_probe_present_ s = true -> is_u32 (rtt_sequence_end_ s)
    /\ 0 < rtt_sequence_end_ s ⊟ una s <= nxt s ⊟ una s /\ 0 <= rtt_sent_at_ x' <= now) as Hprobe.
  { intros Ep. rewrite (Hsent Ep). destruct (sy_probe _ _ Y Ep) as (? & ? & ?). split_and!; auto; lia. }
  constructor; rewrite ?Eu, ?En; auto; try exact (sy_bytes _ _ Y); try exact (sy_congestion _ _ Y);
    try exact (sy_estimator _ _ Y); try exact (sy_window _ _ Y); try exact (sy_maximum _ _ Y);
    try exact (sy_maximum_u32 _ _ Y); try exact (sy_probe_off _ _ Y); try exact (sy_fast _ _ Y);
    try exact (sy_generation _ _ Y).
  - change (matches (Failures.norm (failure_ s) now) (Ledger.oldest h)). now rewrite Eo.
  - change (Scoreboard.sender_mss_ k = sender_mss_ live). rewrite F4, fit_mss0. apply Y.
  - change (Congested.sender_mss_ (congestion_ s) = sender_mss_ live). rewrite fit_mss0. apply Y.
  - intros Hk. apply (sy_recovery _ _ Y). exact (F5 Hk).
  - intros Hs. split; [now apply Hlk|]. now apply (sy_disabled _ _ Y).
  - intros Ez. change (Z.max now <$> retransmission_deadline_ s = None). now rewrite (sy_deadline _ _ Y Ez).
Qed.
End Saved.

(** A checkpoint of a sender that keeps its invariant is accepted exactly when
    the parts also satisfy what [restore] checks and no operation maintains: the
    failure detector runs just when data is in flight under an open window, both
    recovery flags agree, data in flight has a timer, the override deadline has
    unsent data, the scoreboard's rescue marker is current, and no generation
    counter wrapped to zero.  An accepted checkpoint continues in a state that
    keeps the invariant, with the same octets, records, intervals, windows and
    estimates, every deadline unchanged or due at once. *)
Theorem sender_checkpoint live s clock now :
  synced s clock -> clock <= now -> fits live s ->
  if agreement s
  then exists s', restore live (checkpoint s now) now = Some s' /\ synced s' now /\ continues s s' now
  else restore live (checkpoint s now) now = None.
Proof.
  intros Y Hnow F. destruct (agreement s) eqn:Ha; [now apply (restored live s clock)|].
  unfold restore. rewrite (saved_parts_valid live s clock now), (saved_bytes_fit live s clock now),
    (saved_parts_agree s clock now), (saved_age s clock now) by done.
  unfold agreement in Ha.
  destruct (negb (generation_ s =? 0)), (negb (Bytes.generation_ (bytes_ s) =? 0)), (Recovery.marker_current (sack_ s)),
    (failure_current s), (eqb _ _); try reflexivity.
  cbn [negb orb andb] in *. now rewrite Ha.
Qed.

(** Four full segments in flight. *)
Definition busy : t := sender full.

Lemma busy_synced : synced busy 0.
Proof. exact (proj1 (reachable_synced full full_reachable)). Qed.

Lemma sender_checkpoint_witness :
  agreement busy = true
  /\ exists s', restore (sender sample0) (checkpoint busy second) second = Some s'
     /\ synced s' second /\ continues busy s' second.
Proof.
  split; [vm_compute; reflexivity|].
  pose proof (sender_checkpoint (sender sample0) busy 0 second busy_synced) as H.
  replace (agreement busy) with true in H by (vm_compute; reflexivity). apply H; [done|].
  constructor; try (vm_compute; reflexivity); [|vm_compute; congruence].
  constructor; vm_compute; intuition congruence.
Defined.

End SenderCheckpoint.
