(* ===== verification/SenderFrame.v ===== *)
(** * What the sender's operations do to its sequence variables

    [SND.UNA] and [SND.NXT] change with the send repository alone, which only a
    commit, an acknowledgment and a write touch: the lemmas an owner of a sender
    needs to follow them. *)

From S2P Require Import Prelude Sequence Arena Blocks SendBuffer History Failure Sack Congestion Retransmission Timers Sender SenderSync.
Import Arena Blocks.

Module SenderFrame.
Import Sender.Sender SenderSync.SenderSync.

#[local] Existing Instances Sender.Sender.t_settable SendBuffer.SendBuffer.t_settable.

(** ** The repository of the result *)

Lemma begin_keeps s first end_ now : bytes_ (begin_failure s first end_ now) = bytes_ s.
Proof. reflexivity. Qed.

Lemma arm_keeps s first last flight now : bytes_ (arm_new_data s first last flight now) = bytes_ s.
Proof. unfold arm_new_data. cases; reflexivity. Qed.

Lemma record_original_keeps s first end_ now : bytes_ (record_original s first end_ now).2 = bytes_ s.
Proof. unfold record_original. now destruct (Ledger.record_original _ _ _ _). Qed.

Lemma record_retransmission_keeps s first end_ now : bytes_ (record_retransmission s first end_ now).2 = bytes_ s.
Proof. unfold record_retransmission. now destruct (Ledger.record_retransmission _ _ _ _). Qed.

Lemma extend_keeps s : bytes_ (extend_sack s).2 = bytes_ s.
Proof. unfold extend_sack. now destruct (Scoreboard.update _ _ _ _). Qed.

Lemma repair_keeps s (repair : bool) first end_ now :
  bytes_ (if repair then record_retransmission s first end_ now else record_original s first end_ now).2 = bytes_ s.
Proof. destruct repair; [apply record_retransmission_keeps|apply record_original_keeps]. Qed.

Lemma extended_keeps s (repair : bool) : bytes_ (if repair then (true, s) else extend_sack s).2 = bytes_ s.
Proof. destruct repair; [reflexivity|apply extend_keeps]. Qed.

Lemma noted_keeps s first end_ now r :
  bytes_ (mark_rtt_retransmitted (note_retransmission s first end_ now) r) = bytes_ s.
Proof. rewrite mark_keeps. apply note_keeps. Qed.

(** Each reason's half of a commit. *)
Lemma apply_keeps s intent flight now : bytes_ (apply_intent s intent flight now).2 = bytes_ s.
Proof.
  unfold apply_intent. set (r := range intent). destruct (reason intent).
  - unfold commit_new_data. pose proof (record_original_keeps s (Bytes.sequence r) (range_end r) now) as H1.
    destruct (record_original _ _ _ _) as [[] s1]; [|exact H1]. cbn [negb snd] in *.
    pose proof (extend_keeps s1) as H2. destruct (extend_sack s1) as [[] s2]; cbn [negb snd] in *; [|cbn; congruence].
    rewrite arm_keeps. congruence.
  - unfold commit_fast_retransmit. pose proof (record_retransmission_keeps s (Bytes.sequence r) (range_end r) now) as H1.
    destruct (record_retransmission _ _ _ _) as [[] s1]; [|exact H1]. cbn [negb snd] in *.
    change (bytes_ (mark_rtt_retransmitted (note_retransmission s1 (Bytes.sequence r) (range_end r) now) r) = bytes_ s).
    now rewrite noted_keeps.
  - unfold commit_timeout_retransmit. pose proof (record_retransmission_keeps s (Bytes.sequence r) (range_end r) now) as H1.
    destruct (record_retransmission _ _ _ _) as [[] s1]; [|exact H1]. cbn [negb snd] in *.
    change (bytes_ (mark_rtt_retransmitted (note_retransmission s1 (Bytes.sequence r) (range_end r) now) r) = bytes_ s).
    now rewrite noted_keeps.
  - unfold commit_persist_probe.
    pose proof (repair_keeps s (Bytes.retransmission r) (Bytes.sequence r) (range_end r) now) as H1.
    destruct (if Bytes.retransmission r then _ else _) as [[] s1]; [|exact H1]. cbn [negb snd] in *.
    pose proof (extended_keeps s1 (Bytes.retransmission r)) as H2.
    destruct (if Bytes.retransmission r then _ else _) as [[] s2]; cbn [negb snd] in *; [|cbn; congruence].
    pose proof (mark_keeps s2 r) as H3.
    destruct (Persist.probe_committed _ _) as [[] p]; cbn; congruence.
  - unfold commit_sack_recovery. fold r.
    pose proof (repair_keeps s (Bytes.retransmission r) (Bytes.sequence r) (range_end r) now) as H1.
    destruct (if Bytes.retransmission r then _ else _) as [[] s1]; [|exact H1]. cbn [negb snd] in *.
    destruct (Scoreboard.commit _ _) as [[] k]; cbn [negb]; [|exact H1].
    destruct (Bytes.retransmission r); [cbn [snd]; now rewrite noted_keeps|]. case_if; exact H1.
Qed.

Lemma recovery_keeps s new : bytes_ (acknowledge_recovery s new) = bytes_ s.
Proof.
  unfold acknowledge_recovery. case_if; [|reflexivity]. destruct (Scoreboard.duplicate_ack _ _) as [[] k]; reflexivity.
Qed.

Lemma sack_keeps s ack blocks : bytes_ (acknowledge_sack s ack blocks).2 = bytes_ s.
Proof.
  unfold acknowledge_sack. destruct (Scoreboard.update _ _ _ _) as [st k].
  destruct (rejected st); [|reflexivity]. now destruct (Scoreboard.update k _ _ _).
Qed.

Lemma advanced_keeps s ack octets now recovering rtt :
  bytes_ (acknowledge_advanced s ack octets now recovering rtt) = bytes_ s.
Proof.
  assert (forall x, bytes_ (acknowledge_timer x now) = bytes_ x) as H1 by (intros x; unfold acknowledge_timer; now case_if).
  assert (forall x, bytes_ (acknowledge_rtt x ack now rtt) = bytes_ x) as H2
    by (intros x; unfold acknowledge_rtt; destruct rtt; case_if; reflexivity).
  assert (forall x, bytes_ (acknowledge_failure x ack) = bytes_ x) as H3
    by (intros x; unfold acknowledge_failure; case_if; [destruct (Ledger.oldest _)|]; reflexivity).
  unfold acknowledge_advanced. change (bytes_ (bump ?x)) with (bytes_ x). rewrite H1, H2.
  change (bytes_ (acknowledge_congestion ?x _ _)) with (bytes_ x). now rewrite H3.
Qed.

Lemma duplicate_keeps s : bytes_ (acknowledge_duplicate s) = bytes_ s.
Proof. unfold acknowledge_duplicate. now destruct (Congested.on_duplicate_ack _ _) as [[] c]. Qed.

Lemma acknowledge_bytes s ack w eligible now rtt blocks :
  valid_ s = true ->
  (status (acknowledge s ack w eligible now rtt blocks).1, bytes_ (acknowledge s ack w eligible now rtt blocks).2)
  = ((Bytes.acknowledge (bytes_ s) ack).1.1, (Bytes.acknowledge (bytes_ s) ack).2).
Proof.
  intros V. unfold acknowledge. rewrite V. cbn [negb].
  destruct (Bytes.acknowledge (bytes_ s) ack) as [[st octets] b]. cbn [fst snd].
  set (x := s <| bytes_ := b |>).
  assert (bytes_ (if acceptable st then acknowledge_sack x ack blocks else (false, x)).2 = b) as H
    by (destruct (acceptable st); [apply sack_keeps|reflexivity]).
  destruct (if acceptable st then _ else _) as [new y]. cbn [snd status] in *. f_equal.
  change (bytes_ (update_persist ?a _ _)) with (bytes_ a). rewrite recovery_keeps.
  destruct st; try exact H; rewrite ?advanced_keeps; try case_if; rewrite ?duplicate_keeps; destruct (acceptable _); exact H.
Qed.

(** ** The sequence variables *)

Section Moves.
Context (s : t) (clock : Z) (Y : synced s clock).

(** An acknowledgment inside the flight moves SND.UNA there, and nothing else
    moves either variable. *)
Lemma acknowledge_moves ack w eligible now rtt blocks :
  is_u32 ack ->
  let s' := (acknowledge s ack w eligible now rtt blocks).2 in
  nxt s' = nxt s
  /\ una s' = (if (0 <? ack ⊟ una s) && (ack ⊟ una s <=? nxt s ⊟ una s) then ack else una s).
Proof.
  intros Ia s'. pose proof (acknowledge_bytes s ack w eligible now rtt blocks (sy_valid _ _ Y)) as E.
  pose proof (f_equal snd E) as Eb. cbn [snd] in Eb. fold s' in Eb. clear E.
  pose proof (Bytes.send_acknowledge_counters (bytes_ s) ack (sy_bytes _ _ Y) Ia) as H.
  assert (Bytes.send_next_ (Bytes.acknowledge (bytes_ s) ack).2 = nxt s) as En
    by (unfold Bytes.acknowledge; repeat case_if; done).
  rewrite (synced_flight s clock Y : Bytes.flight_size (bytes_ s) = _) in H. fold (una s) in H.
  destruct (Bytes.acknowledge (bytes_ s) ack) as [[st n] b]. cbn [snd] in *.
  destruct H as (_ & Hadv & Hno). unfold una, nxt at 1. rewrite Eb. split; [exact En|]. fold (una s).
  destruct (Z.ltb_spec 0 (ack ⊟ una s)), (Z.leb_spec (ack ⊟ una s) (nxt s ⊟ una s)); cbn [andb].
  1: now apply Hadv. all: destruct Hno as (_ & -> & _); [lia|reflexivity].
Qed.

(** A refused acknowledgment touches no part but the persist timer. *)
Lemma acknowledge_refused ack w eligible now rtt blocks :
  acceptable (status (acknowledge s ack w eligible now rtt blocks).1) = false ->
  exists persist, (acknowledge s ack w eligible now rtt blocks).2 = s <| persist_ := persist |>.
Proof.
  pose proof (acknowledge_bytes s ack w eligible now rtt blocks (sy_valid _ _ Y)) as E.
  apply (f_equal fst) in E. cbn [fst] in E. rewrite E. clear E. intros Hr.
  unfold acknowledge. rewrite (sy_valid _ _ Y). cbn [negb].
  assert ((Bytes.acknowledge (bytes_ s) ack).2 = bytes_ s) as Eb.
  { revert Hr. unfold Bytes.acknowledge. repeat (case_if; try done). }
  destruct (Bytes.acknowledge (bytes_ s) ack) as [[st n] b]. cbn [fst snd] in *. subst b. rewrite Hr.
  assert (s <| bytes_ := bytes_ s |> = s) as -> by now destruct s.
  destruct st; try discriminate; unfold acknowledge_recovery; rewrite andb_false_r; cbn [andb snd]; eexists; reflexivity.
Qed.

(** A commit moves SND.NXT to the end of new octets. *)
Lemma commit_moves intent now s' :
  shaped intent -> commit s intent now = (true, s') ->
  una s' = una s /\ nxt s' = (if Bytes.retransmission (range intent) then nxt s else range_end (range intent)).
Proof.
  intros (Is & Il & _) E. unfold commit in E. destruct (_ || _) in E; [discriminate|].
  destruct (negb _) in E; [discriminate|].
  destruct (Bytes.range_is_current (bytes_ s) (range intent)) eqn:Hcur;
    [|unfold Bytes.commit in E; rewrite Hcur in E; discriminate].
  destruct (bytes_moved s clock Y (range intent) Is Il Hcur) as (Hok & _ & Eu & En & _).
  destruct (Bytes.commit (bytes_ s) (range intent)) as [ok b]. cbn [fst] in Hok. subst ok. cbn [negb snd] in *.
  pose proof (apply_keeps (s <| bytes_ := b |>) intent (flight_size s) now) as K.
  destruct (apply_intent _ _ _ _) as [[] x]; [|discriminate]. injection E as <-. cbn [snd] in K.
  unfold una, nxt in *. change (bytes_ (bump x)) with (bytes_ x). rewrite K. now split.
Qed.
End Moves.

Lemma write_keeps s clock input now :
  synced s clock -> una (write s input now).2 = una s /\ nxt (write s input now).2 = nxt s.
Proof.
  intros Y. unfold write. rewrite (sy_valid _ _ Y). cbn [negb].
  pose proof (Bytes.send_write_counters (bytes_ s) input (sy_bytes _ _ Y)) as H.
  destruct (Bytes.write (bytes_ s) input) as [n b]. destruct H as (_ & _ & _ & _ & Eu & En & _).
  unfold una, nxt. cbn [snd]. case_if; now split.
Qed.

Lemma prepare_new_keeps s now pushed : bytes_ (prepare_new s now pushed).2 = bytes_ s.
Proof.
  unfold prepare_new. case_if; [reflexivity|]. case_if; [reflexivity|].
  destruct (choose_payload _ _ _ _ _ _). repeat (case_if; try reflexivity).
Qed.

Lemma prepare_probe_keeps s now : bytes_ (prepare_persist_probe s now).2 = bytes_ s.
Proof. unfold prepare_persist_probe. repeat (case_if; try reflexivity). Qed.

Lemma reduce_keeps s m : bytes_ (reduce_mss s m).2 = bytes_ s.
Proof. unfold reduce_mss. repeat (case_if; try reflexivity). Qed.

Lemma switch_keeps s b : bytes_ (set_sack_enabled s b) = bytes_ s.
Proof. unfold set_sack_enabled. repeat (case_if; try reflexivity). Qed.

Lemma window_keeps s w now : bytes_ (update_receiver_window s w now) = bytes_ s.
Proof.
  unfold update_receiver_window. repeat (case_if; try reflexivity).
  all: destruct (Ledger.oldest _); reflexivity.
Qed.

End SenderFrame.
