(* ===== verification/Connection.v ===== *)
(** * The TCP connection (core/src/transport/tcp_connection.cpp)

    The owner of one four-tuple: the control block, the send and receive sides, the
    option state and the delayed acknowledgment.  Every transition is prepared into
    a pending record with the encoded segment, and committed when the queue owner
    admitted it.

    The spans of the storage are shared by every copy of a sender or receiver: a
    copy has scalars of its own and the arenas of the live object, which [share]
    expresses. *)

From S2P Require Import Prelude Catalog Sequence Arena Blocks Packet Options Timers ReceiveWindow ReceiveBuffer SendBuffer History Sack ControlBlock Sender.

Module Connection.
Import Arena Blocks.
Module Control := ControlBlock.ControlBlock.
Module Send := Sender.Sender.
Module Receiver := ReceiveBuffer.ReceiveBuffer.
Module Window := ReceiveWindow.ReceiveWindow.
Module Stamps := Options.TimestampState.
Module Offers := Options.Options.
Module Delay := Timers.DelayedAcknowledger.

#[local] Existing Instances Sender.Sender.t_settable Sender.Sender.TransmissionReason_eq_dec SendBuffer.SendBuffer.t_settable History.History.t_settable
  Sack.SackScoreboard.t_settable ReceiveBuffer.ReceiveBuffer.t_settable.

(** ** Data *)

Record ConnectionTuple := mkTuple {
  family : Offers.InternetFamily;
  local_ipv4 : list Z;
  remote_ipv4 : list Z;
  local_ipv6 : list Z;
  remote_ipv6 : list Z;
  interface_id : Z;
  local_port : Z;
  remote_port : Z
}.

Record ConnectionOptionPolicy := mkPolicy {
  maximum_transport_message : Z;
  receive_capacity : Z;
  timestamp_offset : Z;
  window_scaling : bool;
  timestamps : bool;
  sack : bool
}.
#[export] Instance policy_settable : Settable ConnectionOptionPolicy := fun p =>
  mkPolicy (maximum_transport_message p) (receive_capacity p) (timestamp_offset p) (window_scaling p)
    (timestamps p) (sack p).

(** The spans' first contents; of the scratch only the size matters. *)
Record ConnectionStorage := mkStorage {
  send_bytes : list Z;
  receive_bytes : list Z;
  receive_bitmap : list Z;
  transmit_payload_scratch : Z;
  transmission_history : list Send.Ledger.TransmissionRecord;
  sack_ranges : list Send.Scoreboard.SackRange;
  sack_workspace : list Send.Scoreboard.SackRange
}.

Inductive ConnectionPrepareStatus :=
| prepared | no_action | invalid_connection | wrong_state | malformed_segment | missing_timestamp
| payload_requires_stream_owner | output_too_small | pending_transmission.

Record PreparedConnectionSegment := mkSegment {
  token : Z;
  octets : Z;
  event : Control.Event.t;
  emit : bool
}.
Definition no_segment : PreparedConnectionSegment := mkSegment 0 0 Control.Event.none false.

Record ConnectionPrepareResult := mkResult {
  status : ConnectionPrepareStatus;
  segment : PreparedConnectionSegment
}.
(** [return {.status = s};] *)
Definition refuse (s : ConnectionPrepareStatus) : ConnectionPrepareResult := mkResult s no_segment.

Record PendingTransition := mkPending {
  p_control : Control.t;
  p_local_syn_offer : option Offers.SynOptionOffer;
  p_peer_syn_options : option Offers.TypedOptions;
  p_negotiated : option Offers.NegotiatedOptions;
  p_timestamps : Stamps.t;
  p_sender : option Send.t;
  p_sender_transmission : Send.PreparedTransmission;
  p_emitted_fields : Packet.Fields;
  p_token : Z;
  p_event : Control.Event.t;
  p_timestamp_state_present : bool;
  p_sender_transmission_present : bool;
  p_emitted : bool
}.
#[export] Instance pending_settable : Settable PendingTransition := fun p =>
  mkPending (p_control p) (p_local_syn_offer p) (p_peer_syn_options p) (p_negotiated p) (p_timestamps p)
    (p_sender p) (p_sender_transmission p) (p_emitted_fields p) (p_token p) (p_event p)
    (p_timestamp_state_present p) (p_sender_transmission_present p) (p_emitted p).

Record t := mk {
  tuple_ : ConnectionTuple;
  policy_ : ConnectionOptionPolicy;
  storage_ : ConnectionStorage;
  timestamp_origin_ : Z;
  control_ : Control.t;
  local_syn_offer_ : option Offers.SynOptionOffer;
  peer_syn_options_ : option Offers.TypedOptions;
  negotiated_ : option Offers.NegotiatedOptions;
  timestamps_ : Stamps.t;
  sender_ : option Send.t;
  receiver_ : option Receiver.t;
  receive_window_ : option Window.t;
  delayed_ack_ : Delay.t;
  pending_ : option PendingTransition;
  next_token_ : Z;
  timestamp_state_present_ : bool;
  valid_ : bool
}.
#[export] Instance t_settable : Settable t := fun c =>
  mk (tuple_ c) (policy_ c) (storage_ c) (timestamp_origin_ c) (control_ c) (local_syn_offer_ c)
    (peer_syn_options_ c) (negotiated_ c) (timestamps_ c) (sender_ c) (receiver_ c) (receive_window_ c)
    (delayed_ack_ c) (pending_ c) (next_token_ c) (timestamp_state_present_ c) (valid_ c).

(** [event == ControlEvent::none] *)
Definition quiet (e : Control.Event.t) : bool := match e with Control.Event.none => true | _ => false end.

(** ** Construction *)

Definition has (flags flag : Z) : bool := negb (Z.land flags flag =? 0).
Definition zero (address : list Z) : bool := forallb (Z.eqb 0) address.

(** ip_address.hpp *)
Definition is_unspecified (address : list Z) : bool := forallb (Z.eqb 0) address.
Definition is_multicast (address : list Z) : bool := get address 0 =? 255.
Definition is_link_local (address : list Z) : bool :=
  (get address 0 =? 254) && (Z.land (get address 1) 192 =? 128).

Definition storage_valid (s : ConnectionStorage) (p : ConnectionOptionPolicy) : bool :=
  negb (size (send_bytes s) =? 0) && negb (size (receive_bytes s) =? 0) && (size (receive_bytes s) <=? two30)
  && ((size (receive_bytes s) + 7) / 8 <=? size (receive_bitmap s)) && negb (transmit_payload_scratch s =? 0)
  && negb (size (transmission_history s) =? 0) && negb (size (sack_ranges s) =? 0)
  && (size (sack_ranges s) =? size (sack_workspace s)) && (receive_capacity p =? size (receive_bytes s)).

Definition tuple_valid (u : ConnectionTuple) : bool :=
  if local_port u =? 0 then false
  else match family u with
       | Offers.ipv4 => negb (zero (local_ipv4 u)) && negb (zero (remote_ipv4 u))
       | Offers.ipv6 =>
           if is_unspecified (local_ipv6 u) || is_unspecified (remote_ipv6 u)
              || is_multicast (local_ipv6 u) || is_multicast (remote_ipv6 u) then false
           else (negb (is_link_local (local_ipv6 u)) && negb (is_link_local (remote_ipv6 u)))
                || negb (interface_id u =? 0)
       end.

Definition make_offer (p : ConnectionOptionPolicy) (timestamp : Z) : option Offers.SynOptionOffer :=
  Offers.make_syn_offer (maximum_transport_message p) (receive_capacity p) (window_scaling p) (timestamps p)
    (sack p) timestamp.

Definition construct (tuple : ConnectionTuple) (policy : ConnectionOptionPolicy) (storage : ConnectionStorage)
    (timestamp_origin : Z) : t :=
  mk tuple policy storage timestamp_origin
    (Control.construct (local_port tuple) (remote_port tuple) (receive_capacity policy)
       (Offers.default_send_mss (family tuple)))
    None None None (Stamps.construct false) None None None Delay.initial None 1 false
    (tuple_valid tuple && storage_valid storage policy && has_value (make_offer policy 0)).

(** [timestamp_value(now, timestamp_origin_, policy_.timestamp_offset)] *)
Definition stamp (c : t) (now : Z) : Z :=
  Stamps.timestamp_value now (timestamp_origin_ c) (timestamp_offset (policy_ c)).

(** [*make_syn_offer(...)]: a valid connection has one. *)
Definition offer (c : t) (now : Z) : Offers.SynOptionOffer :=
  value_or (Offers.mkOffer 0 0 false false false 0 0) (make_offer (policy_ c) (stamp c now)).

Definition state (c : t) : Control.State := Control.state_ (control_ c).
Definition is_some {A} (o : option A) : bool := match o with Some _ => true | None => false end.

Definition listen (c : t) : bool * t :=
  if negb (valid_ c) || is_some (pending_ c) then (false, c)
  else
    let (result, control) := Control.passive_open (control_ c) in
    let c := c <| control_ := control |> in
    (negb (Control.emit result) && Control.state_is (state c) Control.listen, c).

(** ** Shared arenas *)

(** The scalars of [s] over the arenas of [live]. *)
Definition share (live s : Send.t) : Send.t :=
  s <| Send.bytes_ := (Send.bytes_ s)
         <| SendBuffer.SendBuffer.storage_ := SendBuffer.SendBuffer.storage_ (Send.bytes_ live) |> |>
    <| Send.history_ := (Send.history_ s)
         <| History.History.records_ := History.History.records_ (Send.history_ live) |> |>
    <| Send.sack_ := (Send.sack_ s)
         <| Sack.SackScoreboard.ranges_ := Sack.SackScoreboard.ranges_ (Send.sack_ live) |>
         <| Sack.SackScoreboard.workspace_ := Sack.SackScoreboard.workspace_ (Send.sack_ live) |> |>.

Definition share_option (live s : option Send.t) : option Send.t :=
  match live, s with Some live, Some s => Some (share live s) | _, _ => s end.

Definition share_receiver (live r : Receiver.t) : Receiver.t :=
  r <| Receiver.storage_ := Receiver.storage_ live |> <| Receiver.received_bitmap_ := Receiver.received_bitmap_ live |>.

(** ** Encoding *)

(** [negotiated && negotiated->timestamps] *)
Definition stamped (negotiated : option Offers.NegotiatedOptions) : bool :=
  match negotiated with Some n => Offers.timestamps n | None => false end.

(** The options of a segment, or [None] when they cannot be encoded. *)
Definition segment_options (c : t) (syn_segment : bool) (local_offer : option Offers.SynOptionOffer)
    (negotiated : option Offers.NegotiatedOptions) (stamps : Stamps.t) (timestamp_state_present : bool) (now : Z)
    : option (list Z) :=
  let stamped := stamped negotiated in
  let sacked := match negotiated with Some n => Offers.sack n | None => false end in
  first ←
    (if syn_segment then
       match local_offer with
       | None => None
       | Some offer => Offers.encode_syn_options Packet.maximum_option_octets offer
       end
     else if stamped then
       if timestamp_state_present
       then Some (Offers.encode_timestamp_option (stamp c now) (Stamps.echo_reply stamps)) else None
     else Some []);
  if negb syn_segment && sacked then
    match receiver_ c with
    | None => Some first
    | Some receiver =>
        let blocks := Receiver.sack_blocks receiver (if stamped then 3 else 4) in
        if size blocks =? 0 then Some first
        else
          sack ← Offers.encode_sack_option (Packet.maximum_option_octets - size first) blocks;
          Some (first ++ sack)
    end
  else Some first.

Definition wire_window (c : t) (syn_segment : bool) (negotiated : option Offers.NegotiatedOptions) : Z :=
  let receive_window := match receive_window_ c with
                        | Some w => Window.advertised w
                        | None => receive_capacity (policy_ c)
                        end in
  match negotiated with
  | Some n => Offers.encode_receive_window receive_window syn_segment n
  | None => u16 (Z.min receive_window 65535)
  end.

Definition with_window (f : Packet.Fields) (window : Z) : Packet.Fields :=
  Packet.mkFields (Packet.source_port f) (Packet.destination_port f) (Packet.sequence f) (Packet.acknowledgment f)
    (Packet.flags f) window (Packet.urgent_pointer f).

(** The octets written and the output afterwards. *)
Definition encode (c : t) (f : Packet.Fields) (local_offer : option Offers.SynOptionOffer)
    (negotiated : option Offers.NegotiatedOptions) (stamps : Stamps.t) (timestamp_state_present : bool)
    (payload output : list Z) (now : Z) : option (Z * list Z) :=
  let syn_segment := has (Packet.flags f) Packet.syn in
  options ← segment_options c syn_segment local_offer negotiated stamps timestamp_state_present now;
  let f := with_window f (wire_window c syn_segment negotiated) in
  match family (tuple_ c) with
  | Offers.ipv4 => Packet.encode_ipv4 output (local_ipv4 (tuple_ c)) (remote_ipv4 (tuple_ c)) f options payload
  | Offers.ipv6 => Packet.encode_ipv6 output (local_ipv6 (tuple_ c)) (remote_ipv6 (tuple_ c)) f options payload
  end.

(** ** Staging *)

(** [next_token_++], which skips zero. *)
Definition take_token (c : t) : Z * t :=
  let token := next_token_ c in
  let c := c <| next_token_ := u64 (token + 1) |> in
  if token =? 0 then (next_token_ c, c <| next_token_ := u64 (next_token_ c + 1) |>) else (token, c).

(** The result, the output and the connection. *)
Definition Prepared : Type := ConnectionPrepareResult * list Z * t.

Definition stage (c : t) (candidate : Control.t) (result : Control.ControlResult)
    (local_offer : option Offers.SynOptionOffer) (peer_options : option Offers.TypedOptions)
    (negotiated : option Offers.NegotiatedOptions) (stamps : Stamps.t) (timestamp_state_present : bool)
    (output : list Z) (now : Z) : Prepared :=
  if is_some (pending_ c) then (refuse pending_transmission, output, c)
  else
    let encoded :=
      if Control.emit result
      then encode c (Control.segment result) local_offer negotiated stamps timestamp_state_present [] output now
      else Some (0, output) in
    match encoded with
    | None => (refuse output_too_small, output, c)
    | Some (octets, output) =>
        let (token, c) := take_token c in
        let pending := mkPending candidate local_offer peer_options negotiated stamps (sender_ c)
                         Send.no_transmission (Control.segment result) token (Control.event result)
                         timestamp_state_present false (Control.emit result) in
        (mkResult prepared (mkSegment token octets (Control.event result) (Control.emit result)), output,
         c <| pending_ := Some pending |>)
    end.

(** The staging of a control block transition with the present option state. *)
Definition stage_control (c : t) (candidate : Control.t) (result : Control.ControlResult) (output : list Z) (now : Z)
    : Prepared :=
  stage c candidate result (local_syn_offer_ c) (peer_syn_options_ c) (negotiated_ c) (timestamps_ c)
    (timestamp_state_present_ c) output now.

Definition prepare_current_ack (c : t) (output : list Z) (now : Z) : Prepared :=
  stage_control c (control_ c) (Control.acknowledgment (control_ c)) output now.

(** The check every preparation begins with. *)
Definition unavailable (c : t) : option ConnectionPrepareStatus :=
  if negb (valid_ c) then Some invalid_connection
  else if is_some (pending_ c) then Some pending_transmission else None.

Definition prepare_active_open (c : t) (initial_sequence : Z) (output : list Z) (now : Z) : Prepared :=
  match unavailable c with
  | Some s => (refuse s, output, c)
  | None =>
      let (result, candidate) := Control.active_open (control_ c) initial_sequence now in
      if negb (Control.emit result) then (refuse wrong_state, output, c)
      else stage c candidate result (Some (offer c now)) None None (timestamps_ c) false output now
  end.

Definition prepare_close (c : t) (output : list Z) (now : Z) : Prepared :=
  match unavailable c with
  | Some s => (refuse s, output, c)
  | None =>
      let (result, candidate) := Control.close (control_ c) now in
      if negb (Control.emit result) && quiet (Control.event result)
      then (refuse wrong_state, output, c)
      else stage_control c candidate result output now
  end.

(** ** Data transmission *)

Definition prepare_sender_transmission (c : t) (sender : Send.t) (transmission : Send.PreparedTransmission)
    (output : list Z) (pushed : bool) (now : Z) : Prepared :=
  let range := Send.range transmission in
  let length := SendBuffer.SendBuffer.length range in
  if transmit_payload_scratch (storage_ c) <? length then (refuse output_too_small, output, c)
  else match Send.copy sender transmission length with
  | None => (refuse output_too_small, output, c)
  | Some payload =>
      let (committed, candidate) :=
        if SendBuffer.SendBuffer.retransmission range then (true, control_ c)
        else Control.commit_sent_data (control_ c) (SendBuffer.SendBuffer.sequence range) length in
      if negb committed then (refuse wrong_state, output, c)
      else
        let f := Control.segment (Control.acknowledgment (control_ c)) in
        let f := Packet.mkFields (Packet.source_port f) (Packet.destination_port f)
                   (SendBuffer.SendBuffer.sequence range) (Packet.acknowledgment f)
                   (if pushed && bool_decide (Send.reason transmission = Send.new_data)
                    then Z.lor (Packet.flags f) Packet.psh else Packet.flags f)
                   (Packet.window f) (Packet.urgent_pointer f) in
        match encode c f (local_syn_offer_ c) (negotiated_ c) (timestamps_ c) (timestamp_state_present_ c) payload
                output now with
        | None => (refuse output_too_small, output, c)
        | Some (octets, output) =>
            let (token, c) := take_token c in
            let pending := mkPending candidate (local_syn_offer_ c) (peer_syn_options_ c) (negotiated_ c)
                             (timestamps_ c) (sender_ c) transmission f token Control.Event.none
                             (timestamp_state_present_ c) true true in
            (mkResult prepared (mkSegment token octets Control.Event.none true), output,
             c <| pending_ := Some pending |>)
        end
  end.

(** The first transmission present, and the sender after the attempts: preparing
    new data may record a silly-window deadline. *)
Definition or_try (attempt : Send.PreparedTransmission * Send.t)
    (next : Send.t -> Send.PreparedTransmission * Send.t) : Send.PreparedTransmission * Send.t :=
  if Send.present attempt.1 then attempt else next attempt.2.

Definition transmit (c : t) (attempt : Send.PreparedTransmission * Send.t) (output : list Z) (pushed : bool)
    (now : Z) : Prepared :=
  let c := c <| sender_ := Some attempt.2 |> in
  if Send.present attempt.1 then prepare_sender_transmission c attempt.2 attempt.1 output pushed now
  else (refuse no_action, output, c).

Definition prepare_data (c : t) (output : list Z) (pushed : bool) (now : Z) : Prepared :=
  match unavailable c with
  | Some s => (refuse s, output, c)
  | None =>
      match sender_ c, receiver_ c, receive_window_ c with
      | Some sender, Some _, Some _ =>
          if negb (Control.state_is (state c) Control.established) && negb (Control.state_is (state c) Control.close_wait)
          then (refuse wrong_state, output, c)
          else
            let attempt := (Send.prepare_sack_recovery sender now, sender) in
            let attempt := or_try attempt (fun s => (Send.prepare_fast_retransmission s, s)) in
            let attempt := or_try attempt (fun s => Send.prepare_new s now pushed) in
            transmit c attempt output pushed now
      | _, _, _ => (refuse wrong_state, output, c)
      end
  end.

Definition prepare_deadline (c : t) (output : list Z) (now : Z) : Prepared :=
  match unavailable c with
  | Some s => (refuse s, output, c)
  | None =>
      if Delay.due (delayed_ack_ c) now then prepare_current_ack c output now
      else
        let (result, candidate) := Control.service_deadline (control_ c) now in
        if Control.emit result || negb (quiet (Control.event result))
        then stage_control c candidate result output now
        else
          match sender_ c with
          | None => (refuse no_action, output, c)
          | Some sender =>
              let attempt := (Send.prepare_timeout_retransmission sender now, sender) in
              let attempt := or_try attempt (fun s => Send.prepare_persist_probe s now) in
              let attempt := or_try attempt (fun s => Send.prepare_new s now true) in
              transmit c attempt output true now
          end
  end.

(** ** Publication *)

Definition initialize_stream (c : t) (now : Z) : t :=
  match negotiated_ c with
  | None => c
  | Some negotiated =>
      if negb (Control.state_is (state c) Control.established) || is_some (sender_ c) then c
      else
        let header_octets := Packet.minimum_header_octets + (if Offers.timestamps negotiated then 12 else 0) in
        let effective_mss := Offers.effective_send_mss (Offers.send_mss negotiated)
                               (maximum_transport_message (policy_ c)) header_octets 0 in
        if effective_mss =? 0 then c
        else
          let k := storage_ c in
          let sender := Send.construct (send_bytes k) (transmission_history k) (sack_ranges k) (sack_workspace k)
                          (Control.send_next_ (control_ c)) effective_mss in
          let sender := Send.set_sack_enabled sender (Offers.sack negotiated) in
          let sender := Send.update_receiver_window sender (Control.send_window_ (control_ c)) now in
          let receiver := Receiver.construct (receive_bytes k) (receive_bitmap k) (Control.receive_next_ (control_ c)) in
          let window := Window.construct (u32 (size (receive_bytes k))) effective_mss in
          if negb (Send.valid_ sender) || negb (Receiver.valid_ receiver) || negb (Window.valid_ window)
          then c <| sender_ := None |> <| receiver_ := None |> <| receive_window_ := None |>
          else c <| sender_ := Some sender |> <| receiver_ := Some receiver |> <| receive_window_ := Some window |>
  end.

Definition commit (c : t) (p : PreparedConnectionSegment) (now : Z) : bool * t :=
  match pending_ c with
  | None => (false, c)
  | Some pending =>
      if (token p =? 0) || negb (p_token pending =? token p) || negb (eqb (p_emitted pending) (emit p)) then (false, c)
      else
        let acknowledges := p_emitted pending && has (Packet.flags (p_emitted_fields pending)) Packet.ack in
        let pending :=
          if acknowledges && p_timestamp_state_present pending
          then pending <| p_timestamps := Stamps.acknowledge_sent (p_timestamps pending)
                                            (Packet.acknowledgment (p_emitted_fields pending)) |>
          else pending in
        let pending := pending <| p_sender := share_option (sender_ c) (p_sender pending) |> in
        let '(committed, pending) :=
          if p_sender_transmission_present pending then
            match p_sender pending with
            | None => (false, pending)
            | Some sender =>
                let (committed, sender) := Send.commit sender (p_sender_transmission pending) now in
                (committed, pending <| p_sender := Some sender |>)
            end
          else (true, pending) in
        let arenas := share_option (p_sender pending) (sender_ c) in
        if negb committed then (false, c <| pending_ := Some pending |> <| sender_ := arenas |>)
        else
          let c := c <| control_ := p_control pending |> <| local_syn_offer_ := p_local_syn_offer pending |>
                     <| peer_syn_options_ := p_peer_syn_options pending |> <| negotiated_ := p_negotiated pending |>
                     <| timestamps_ := p_timestamps pending |> <| sender_ := p_sender pending |>
                     <| timestamp_state_present_ := p_timestamp_state_present pending |> in
          let c := initialize_stream c now in
          let c := if acknowledges then c <| delayed_ack_ := Delay.acknowledge_committed (delayed_ack_ c) |> else c in
          (true, c <| pending_ := None |>)
  end.

Definition discard (c : t) (p : PreparedConnectionSegment) : bool * t :=
  match pending_ c with
  | None => (false, c)
  | Some pending =>
      if (token p =? 0) || negb (p_token pending =? token p) then (false, c) else (true, c <| pending_ := None |>)
  end.

(** ** Reception *)

Definition parse (c : t) (bytes : list Z) : option Packet.View :=
  let u := tuple_ c in
  parsed ←
    (match family u with
     | Offers.ipv4 => Packet.parse_ipv4 bytes (remote_ipv4 u) (local_ipv4 u)
     | Offers.ipv6 => Packet.parse_ipv6 bytes (remote_ipv6 u) (local_ipv6 u)
     end);
  if negb (Packet.source_port (Packet.fields parsed) =? remote_port u)
     || negb (Packet.destination_port (Packet.fields parsed) =? local_port u) then None
  else Some parsed.

(** The option state a segment leaves. *)
Record OptionState := mkOptionState {
  o_local : option Offers.SynOptionOffer;
  o_peer : option Offers.TypedOptions;
  o_negotiated : option Offers.NegotiatedOptions;
  o_timestamps : Stamps.t;
  o_present : bool
}.

Definition option_state (c : t) : OptionState :=
  mkOptionState (local_syn_offer_ c) (peer_syn_options_ c) (negotiated_ c) (timestamps_ c) (timestamp_state_present_ c).

(** The answer to a SYN offers what the SYN offered too. *)
Definition response_offer (c : t) (typed : Offers.TypedOptions) (now : Z) : Offers.SynOptionOffer :=
  let o := offer c now in
  Offers.mkOffer (Offers.receive_mss o) (Offers.offer_receive_window_shift o)
    (has_value (Offers.window_scale typed) && Offers.offer_window_scale o)
    (has_value (Offers.timestamp_value_ typed) && Offers.offer_timestamps o)
    (Offers.sack_permitted typed && Offers.offer_sack o) (Offers.offer_timestamp_value o)
    (value_or 0 (Offers.timestamp_value_ typed)).

(** Negotiation on a SYN: the timestamp state begins with the SYN's value. *)
Definition negotiate (c : t) (local : Offers.SynOptionOffer) (typed : Offers.TypedOptions) (sequence now : Z)
    : OptionState :=
  let negotiated := Offers.negotiate_options (family (tuple_ c)) local typed in
  let stamps := Stamps.construct (Offers.timestamps negotiated) in
  let stamps := if Offers.timestamps negotiated
                then (Stamps.accept stamps false (Offers.timestamp_value_ typed) sequence now).2 else stamps in
  mkOptionState (Some local) (Some typed) (Some negotiated) stamps (Offers.timestamps negotiated).

(** The timestamp check of a segment and the option state afterwards. *)
Definition receive_options (c : t) (v : Packet.View) (typed : Offers.TypedOptions) (now : Z)
    : Stamps.TimestampAccept * OptionState :=
  let syn_segment := Control.flagged v Packet.syn in
  let present := option_state c in
  if syn_segment && Control.state_is (state c) Control.listen
  then (Stamps.accepted, negotiate c (response_offer c typed now) typed (Control.seq v) now)
  else
    match (if syn_segment && Control.state_is (state c) Control.syn_sent then local_syn_offer_ c else None) with
    | Some local => (Stamps.accepted, negotiate c local typed (Control.seq v) now)
    | None =>
        if stamped (negotiated_ c) then
          let (accepted, stamps) := Stamps.accept (timestamps_ c) (Control.flagged v Packet.rst)
                                      (Offers.timestamp_value_ typed) (Control.seq v) now in
          (accepted, mkOptionState (o_local present) (o_peer present) (o_negotiated present) stamps (o_present present))
        else (Stamps.accepted, present)
    end.

(** The sender's view of an acknowledgment; a refused value leaves its scalars. *)
Definition receive_acknowledgment (c : t) (sender : Send.t) (v : Packet.View) (typed : Offers.TypedOptions)
    (negotiated : option Offers.NegotiatedOptions) (decoded_window now : Z) : Send.t :=
  if negb (Control.flagged v Packet.ack) then sender
  else
    let duplicate := Control.empty v && (Control.ackn v =? Control.send_unacknowledged_ (control_ c))
                     && (decoded_window =? Control.send_window_ (control_ c)) in
    let timestamp_rtt :=
      if stamped negotiated then
        match Offers.timestamp_echo_reply typed with
        | Some echo => Some (Catalog.milliseconds (stamp c now ⊟ echo))
        | None => None
        end
      else None in
    let (acknowledgment, candidate) :=
      Send.acknowledge sender (Control.ackn v) decoded_window duplicate now timestamp_rtt (Offers.sack_blocks typed) in
    if Send.acceptable (Send.status acknowledgment) then candidate else share candidate sender.

(** The receive side of a segment the control block handed over. *)
Record Stream := mkStream {
  s_control : Control.t;
  s_receiver : Receiver.t;
  s_window : Window.t;
  s_delayed : Delay.t;
  s_response : Control.ControlResult
}.

(** [None] when the control block refuses the data; the receiver keeps what its
    arena got. *)
Definition receive_data (candidate : Control.t) (receiver : Receiver.t) (window : Window.t) (delayed : Delay.t)
    (v : Packet.View) (now : Z) : option Stream * Receiver.t :=
  let old_next := Receiver.receive_next_ receiver in
  let (insertion, candidate_receiver) := Receiver.accept receiver (Control.seq v) (Packet.payload v) in
  let next := Receiver.result_receive_next insertion in
  let advanced := next ⊟ old_next in
  let octets := u32 (size (Packet.payload v)) in
  let window := Window.receive_next_advanced window advanced in
  let fin := Control.flagged v Packet.fin in
  let fin_sequence := if fin then Some (Control.seq v ⊞ octets) else None in
  let (committed, candidate) := Control.commit_received_data candidate next (Window.advertised window) fin_sequence now in
  match committed with
  | None => (None, share_receiver candidate_receiver receiver)
  | Some response =>
      let in_order := (Control.seq v =? old_next) && negb (advanced =? 0)
                      && (advanced =? size (Packet.payload v)) in
      let (schedule, delayed) := Delay.on_segment delayed in_order octets fin now in
      let response := match schedule with
                      | Delay.immediate => response
                      | _ => Control.mkResult (Control.segment response) (Control.event response) false
                      end in
      (Some (mkStream candidate candidate_receiver window delayed response), candidate_receiver)
  end.

Definition is_stream (c : t) : bool :=
  is_some (sender_ c) && is_some (receiver_ c) && is_some (receive_window_ c)
  && negb (Control.state_is (state c) Control.listen) && negb (Control.state_is (state c) Control.syn_sent)
  && negb (Control.state_is (state c) Control.syn_received).

(** [event == ControlEvent::data_requires_stream_owner] *)
Definition carries_data (e : Control.Event.t) : bool :=
  match e with Control.Event.data_requires_stream_owner => true | _ => false end.

(** A segment of an established stream: its effects are published, its response
    is a transaction of its own. *)
Definition receive_stream (c : t) (sender : Send.t) (receiver : Receiver.t) (window : Window.t) (v : Packet.View)
    (typed : Offers.TypedOptions) (options : OptionState) (candidate : Control.t) (result : Control.ControlResult)
    (decoded_window : Z) (output : list Z) (now : Z) : Prepared :=
  let candidate_sender := receive_acknowledgment c sender v typed (o_negotiated options) decoded_window now in
  let (stream, touched) :=
    if carries_data (Control.event result) then receive_data candidate receiver window (delayed_ack_ c) v now
    else
      (Some (mkStream candidate receiver window
               (if Control.flagged v Packet.fin && Control.emit result
                then Delay.request_immediate (delayed_ack_ c) now else delayed_ack_ c) result), receiver) in
  match stream with
  | None =>
      (refuse payload_requires_stream_owner, output,
       c <| sender_ := Some (share candidate_sender sender) |> <| receiver_ := Some touched |>)
  | Some stream =>
      let c := c <| control_ := s_control stream |> <| sender_ := Some candidate_sender |>
                 <| receiver_ := Some (s_receiver stream) |> <| receive_window_ := Some (s_window stream) |>
                 <| delayed_ack_ := s_delayed stream |> <| timestamps_ := o_timestamps options |>
                 <| timestamp_state_present_ := o_present options |> in
      if negb (Control.emit (s_response stream)) then (refuse no_action, output, c)
      else stage_control c (control_ c) (s_response stream) output now
  end.

Definition prepare_ingress (c : t) (bytes : list Z) (passive_initial_sequence : Z) (output : list Z) (now : Z)
    : Prepared :=
  match unavailable c with
  | Some s => (refuse s, output, c)
  | None =>
      match (v ← parse c bytes; typed ← Offers.parse_typed_options (Packet.options v); Some (v, typed)) with
      | None => (refuse malformed_segment, output, c)
      | Some (v, typed) =>
          let (accepted, options) := receive_options c v typed now in
          match accepted with
          | Stamps.missing_required => (refuse missing_timestamp, output, c)
          | Stamps.stale =>
              stage c (control_ c) (Control.acknowledgment (control_ c)) (o_local options) (o_peer options)
                (o_negotiated options) (timestamps_ c) (timestamp_state_present_ c) output now
          | Stamps.accepted =>
              let syn_segment := Control.flagged v Packet.syn in
              let decoded_window := match o_negotiated options with
                                    | Some n => Offers.decode_peer_window (Packet.window (Packet.fields v)) syn_segment n
                                    | None => Packet.window (Packet.fields v)
                                    end in
              let (result, candidate) := Control.on_segment (control_ c) v passive_initial_sequence now (Some decoded_window) in
              match sender_ c, receiver_ c, receive_window_ c with
              | Some sender, Some receiver, Some window =>
                  if is_stream c
                  then receive_stream c sender receiver window v typed options candidate result decoded_window output now
                  else stage c candidate result (o_local options) (o_peer options) (o_negotiated options)
                         (o_timestamps options) (o_present options) output now
              | _, _, _ =>
                  stage c candidate result (o_local options) (o_peer options) (o_negotiated options)
                    (o_timestamps options) (o_present options) output now
              end
          end
      end
  end.

(** ** The application's side *)

Definition write (c : t) (bytes : list Z) (now : Z) : Z * t :=
  match sender_ c with
  | None => (0, c)
  | Some sender => let (count, sender) := Send.write sender bytes now in (count, c <| sender_ := Some sender |>)
  end.

Definition read (c : t) (output_size now : Z) : list Z * t :=
  match receiver_ c, receive_window_ c with
  | Some receiver, Some window =>
      let (bytes, receiver) := Receiver.read receiver output_size in
      let c := c <| receiver_ := Some receiver |> in
      if size bytes =? 0 then (bytes, c)
      else
        let (opened, window) := Window.application_space_available window (Receiver.advertised_window receiver) in
        let c := c <| receive_window_ := Some window |> in
        if opened
        then (bytes, c <| control_ := (Control.set_receive_window (control_ c) (Window.advertised window)).2 |>
                       <| delayed_ack_ := Delay.request_immediate (delayed_ack_ c) now |>)
        else (bytes, c)
  | _, _ => ([], c)
  end.

Definition reduce_maximum_transport_message (c : t) (maximum : Z) : bool * t :=
  if (maximum <=? Packet.minimum_header_octets) || (maximum_transport_message (policy_ c) <? maximum) then (false, c)
  else if maximum =? maximum_transport_message (policy_ c) then (true, c)
  else
    let stamped := stamped (negotiated_ c) in
    let header_octets := Packet.minimum_header_octets + (if stamped then 12 else 0) in
    let peer_mss := match negotiated_ c with
                    | Some n => Offers.send_mss n
                    | None => Offers.default_send_mss (family (tuple_ c))
                    end in
    let sender_mss := Offers.effective_send_mss peer_mss maximum header_octets 0 in
    let publish c := (true, c <| policy_ := (policy_ c) <| maximum_transport_message := maximum |> |>) in
    match sender_ c with
    | None => publish c
    | Some sender =>
        if sender_mss =? 0 then (false, c)
        else
          let (reduced, sender) := Send.reduce_mss sender sender_mss in
          let c := c <| sender_ := Some sender |> in
          if reduced then publish c else (false, c)
    end.

Definition earlier (deadline candidate : option Z) : option Z :=
  match candidate, deadline with
  | Some x, Some d => if x <? d then Some x else Some d
  | Some x, None => Some x
  | None, _ => deadline
  end.

Definition next_deadline (c : t) : option Z :=
  let deadline := earlier (Control.next_deadline (control_ c)) (Delay.deadline_ (delayed_ack_ c)) in
  match sender_ c with Some sender => earlier deadline (Send.next_deadline sender) | None => deadline end.

Definition transmitted (c : t) (sequence : Z) : bool :=
  match sender_ c with Some sender => Send.transmitted sender sequence | None => false end.

(** ** Checkpoints *)

#[export] Instance family_eq_dec : EqDecision Offers.InternetFamily.
Proof. solve_decision. Defined.
#[export] Instance tuple_eq_dec : EqDecision ConnectionTuple.
Proof. solve_decision. Defined.
#[export] Instance policy_eq_dec : EqDecision ConnectionOptionPolicy.
Proof. solve_decision. Defined.
#[export] Instance negotiated_eq_dec : EqDecision Offers.NegotiatedOptions.
Proof. solve_decision. Defined.

Record Checkpoint := mkCheckpoint {
  ck_tuple : ConnectionTuple;
  ck_policy : ConnectionOptionPolicy;
  ck_control : Control.Checkpoint;
  ck_local_syn_offer : option Offers.SynOptionOffer;
  ck_peer_syn_options : option Offers.TypedOptions;
  ck_negotiated : option Offers.NegotiatedOptions;
  ck_timestamps : Stamps.Checkpoint;
  ck_sender : option Send.Checkpoint;
  ck_receiver : option Receiver.Checkpoint;
  ck_receive_window : option Window.Checkpoint;
  ck_delayed_ack : Delay.Checkpoint;
  timestamp_elapsed_nanoseconds : Z;
  ck_next_token : Z;
  ck_timestamp_state_present : bool
}.

Definition checkpoint (c : t) (now : Z) : option Checkpoint :=
  if negb (valid_ c) || is_some (pending_ c) || (now <? timestamp_origin_ c) then None
  else Some (mkCheckpoint (tuple_ c) (policy_ c) (Control.checkpoint (control_ c) now) (local_syn_offer_ c)
               (peer_syn_options_ c) (negotiated_ c) (Stamps.checkpoint (timestamps_ c) now)
               ((fun s => Send.checkpoint s now) <$> sender_ c) (Receiver.checkpoint <$> receiver_ c)
               (Window.checkpoint <$> receive_window_ c) (Delay.checkpoint (delayed_ack_ c) now)
               (now - timestamp_origin_ c) (next_token_ c) (timestamp_state_present_ c)).

(** [option_state_valid]: a negotiation is the one of the two SYNs. *)
Definition option_state_valid (family : Offers.InternetFamily) (state : Checkpoint) : bool :=
  eqb (ck_timestamp_state_present state) (stamped (ck_negotiated state))
  && (negb (is_some (ck_sender state)) || is_some (ck_negotiated state))
  && match ck_negotiated state with
     | None => true
     | Some negotiated =>
         match ck_local_syn_offer state, ck_peer_syn_options state with
         | Some local, Some peer =>
             (size (Offers.sack_blocks peer) <=? 4) && negb (Offers.receive_mss local =? 0)
             && (Offers.offer_receive_window_shift local <=? 14) && negb (Offers.send_mss negotiated =? 0)
             && (Offers.send_window_shift negotiated <=? 14) && (Offers.receive_window_shift negotiated <=? 14)
             && bool_decide (negotiated = Offers.negotiate_options family local peer)
         | _, _ => false
         end
     end.

Definition acceptable_checkpoint (c : t) (state : Checkpoint) : bool :=
  let stream := is_some (ck_sender state) in
  negb (negb (valid_ c) || is_some (pending_ c) || negb (bool_decide (ck_tuple state = tuple_ c))
        || negb (bool_decide (ck_policy state = policy_ c)) || (ck_next_token state =? 0)
        || (timestamp_elapsed_nanoseconds state <? 0)
        || negb (eqb stream (is_some (ck_receiver state)) && eqb stream (is_some (ck_receive_window state)))
        || negb (option_state_valid (family (tuple_ c)) state)
        || negb (Control.local_port (ck_control state) =? local_port (tuple_ c))
        || (negb (Control.remote_port (ck_control state) =? 0)
            && negb (Control.remote_port (ck_control state) =? remote_port (tuple_ c)))
        || negb (Control.validate_checkpoint (ck_control state))).

(** The stream parts, built over the connection's storage and restored. *)
Definition restore_stream (c : t) (negotiated : Offers.NegotiatedOptions) (sender : Send.Checkpoint)
    (receiver : Receiver.Checkpoint) (window : Window.Checkpoint) (now : Z)
    : option (Send.t * Receiver.t * Window.t) :=
  let header_octets := Packet.minimum_header_octets + (if Offers.timestamps negotiated then 12 else 0) in
  let effective_mss := Offers.effective_send_mss (Offers.send_mss negotiated)
                         (maximum_transport_message (policy_ c)) header_octets 0 in
  let k := storage_ c in
  if effective_mss =? 0 then None
  else
    s ← Send.restore
          (Send.construct (send_bytes k) (transmission_history k) (sack_ranges k) (sack_workspace k)
             (SendBuffer.SendBuffer.send_unacknowledged (Send.ck_bytes sender)) effective_mss) sender now;
    r ← Receiver.restore
          (Receiver.construct (receive_bytes k) (receive_bitmap k) (Receiver.read_sequence receiver)) receiver;
    w ← Window.restore (Window.construct (u32 (size (receive_bytes k))) effective_mss) window;
    Some (s, r, w).

(** [None] is [false]: the source then puts back the parts it saved first. *)
Definition restore (c : t) (state : Checkpoint) (now : Z) : option t :=
  if negb (acceptable_checkpoint c state) || (now <? timestamp_elapsed_nanoseconds state) then None
  else
    control ← Control.restore (control_ c) (ck_control state) now;
    stamps ← Stamps.restore (Stamps.construct (ck_timestamp_state_present state)) (ck_timestamps state) now;
    delayed ← Delay.restore Delay.initial (ck_delayed_ack state) now;
    stream ←
      (match ck_negotiated state, ck_sender state, ck_receiver state, ck_receive_window state with
       | Some negotiated, Some sender, Some receiver, Some window =>
           parts ← restore_stream c negotiated sender receiver window now; Some (Some parts)
       | _, _, _, _ => Some None
       end);
    let sender := (fun p => p.1.1) <$> stream in
    let receiver := (fun p => p.1.2) <$> stream in
    let window := (fun p => p.2) <$> stream in
    Some (mk (tuple_ c) (policy_ c) (storage_ c) (now - timestamp_elapsed_nanoseconds state) control
            (ck_local_syn_offer state) (ck_peer_syn_options state) (ck_negotiated state) stamps sender receiver
            window delayed None (ck_next_token state) (ck_timestamp_state_present state) (valid_ c)).

End Connection.
