(* ===== verification/ConnectionParts.v ===== *)
(** * What a segment does to the parts of a connection

    The control block's half: which variables a segment moves, when it hands text to
    the stream owner.  The receiver's half: text inside the advertised window stays
    below its right edge. *)

From S2P Require Import Prelude Sequence Arena Blocks Packet Retransmission ReceiveWindow ReceiveBuffer ControlBlock Connection.
Import Arena Blocks.

Module ConnectionParts.
Module Control := ControlBlock.ControlBlock.
Module Receiver := ReceiveBuffer.ReceiveBuffer.
Module Window := ReceiveWindow.ReceiveWindow.

#[local] Existing Instances ControlBlock.ControlBlock.t_settable ReceiveWindow.ReceiveWindow.t_settable.

(** ** Segments of octets *)

Lemma get_octet l i : Forall is_u8 l -> is_u8 (get l i).
Proof.
  intros H. unfold get. rewrite list_lookup_total_alt. destruct (l !! Z.to_nat i) eqn:E; [|done].
  exact (list.Forall_lookup_1 _ _ _ _ H E).
Qed.

Lemma read32_word l i : Forall is_u8 l -> is_u32 (Packet.read32 l i).
Proof.
  intros H. unfold Packet.read32.
  rewrite lor_octets by now apply get_octet.
  pose proof (get_octet l i H). pose proof (get_octet l (i + 1) H).
  pose proof (get_octet l (i + 2) H). pose proof (get_octet l (i + 3) H). word.
Qed.

Lemma octets_drop n l : Forall is_u8 l -> Forall is_u8 (drop n l).
Proof. intros H. now apply list.Forall_drop. Qed.

Lemma octets_take n l : Forall is_u8 l -> Forall is_u8 (take n l).
Proof. intros H. now apply list.Forall_take. Qed.

(** Options that were read from octets. *)
Record typed_options (o : Options.Options.TypedOptions) : Prop := mkTypedOptions {
  to_mss : forall m, Options.Options.maximum_segment_size o = Some m -> 0 <= m < 65536;
  to_blocks : Forall (fun b => is_u32 (left_edge b) /\ is_u32 (right_edge b)) (Options.Options.sack_blocks o)
}.

Lemma read_blocks_typed fuel raw offset blocks out :
  Forall is_u8 raw -> Forall (fun b => is_u32 (left_edge b) /\ is_u32 (right_edge b)) blocks ->
  Options.Options.read_blocks fuel raw offset blocks = Some out ->
  Forall (fun b => is_u32 (left_edge b) /\ is_u32 (right_edge b)) out.
Proof.
  intros Hr. revert offset blocks. induction fuel as [|fuel IH]; intros offset blocks Hb; cbn; [now intros [= <-]|].
  case_if; [now intros [= <-]|]. case_if; [done|]. case_if; [done|]. apply IH.
  apply list.Forall_app. split; [done|]. constructor; [|constructor]. split; now apply read32_word.
Qed.

Lemma apply_option_typed o p q :
  Forall is_u8 (Packet.raw o) -> typed_options p -> Options.Options.apply_option o p = Some q -> typed_options q.
Proof.
  intros Hr [Hm Hb]. unfold Options.Options.apply_option. repeat case_if.
  all: try (intros [= <-]; constructor; cbn; auto; intros m [= <-];
            pose proof (u16_range (Z.lor (Z.shiftl (get (Packet.raw o) 2) 8) (get (Packet.raw o) (2 + 1)))); assumption).
  destruct (Options.Options.read_blocks _ _ _ _) as [l|] eqn:El; [|done]. intros [= <-].
  constructor; cbn; [exact Hm|]. now apply read_blocks_typed in El.
Qed.

Lemma next_option_octets l o rest :
  Forall is_u8 l -> Packet.next_option l = Some (o, rest) -> Forall is_u8 (Packet.raw o) /\ Forall is_u8 rest.
Proof.
  intros H. unfold Packet.next_option. destruct l as [|x l]; [done|]. pose proof H as [Hx Hl]%list.Forall_cons.
  assert (Forall is_u8 [x]) as Hone by (constructor; [exact Hx|constructor]).
  case_if; [intros [= <- <-]; split; [exact Hone|constructor]|].
  case_if; [intros [= <- <-]; now split|].
  destruct l as [|y l]; [done|]. case_if; [done|]. intros [= <- <-].
  split; [now apply octets_take|now apply octets_drop].
Qed.

Lemma parse_options_typed l q : Forall is_u8 l -> Options.Options.parse_typed_options l = Some q -> typed_options q.
Proof.
  intros H. unfold Options.Options.parse_typed_options. case_if; [done|]. clear E.
  assert (typed_options Options.Options.no_options) as H0 by (constructor; [discriminate|constructor]).
  revert H H0. generalize Options.Options.no_options (length l). intros p fuel. revert l p.
  induction fuel as [|fuel IH]; intros l p H Hp; cbn; [now intros [= <-]|].
  destruct (Packet.next_option l) as [[o rest]|] eqn:En; [|now intros [= <-]].
  destruct (next_option_octets l o rest H En) as [Ho Hrest].
  destruct (Options.Options.apply_option o p) as [p'|] eqn:Ea; [|done].
  apply IH; [done|]. now apply (apply_option_typed o p).
Qed.

Lemma parse_words l v :
  Forall is_u8 l -> Packet.parse_shape l = Some v ->
  is_u32 (Packet.sequence (Packet.fields v)) /\ is_u32 (Packet.acknowledgment (Packet.fields v))
  /\ is_u16 (Packet.window (Packet.fields v)) /\ Forall is_u8 (Packet.options v)
  /\ size (Packet.payload v) <= size l.
Proof.
  intros H. unfold Packet.parse_shape. repeat (case_if; [done|]). intros [= <-]. cbn.
  split_and!; try now apply read32_word.
  - apply u16_range.
  - now apply octets_take, octets_drop.
  - unfold size. rewrite length_drop. lia.
Qed.

(** ** The control block *)

(** The states that wait for the peer's text. *)
Definition hears (s : Control.State) : bool :=
  match s with Control.established | Control.fin_wait_1 | Control.fin_wait_2 => true | _ => false end.

(** The states after the peer's FIN. *)
Definition peer_done (s : Control.State) : bool :=
  match s with Control.close_wait | Control.closing | Control.last_ack | Control.time_wait => true | _ => false end.

(** The states in which the application may still send. *)
Definition talks (s : Control.State) : bool :=
  match s with Control.established | Control.close_wait => true | _ => false end.

Abbreviation carries_data := Connection.Connection.carries_data.

(** The octets of a segment with its SYN and FIN, and those of its text, end. *)
Definition segment_end (v : Packet.View) : Z := Control.seq v ⊞ Control.segment_length v.
Definition text_end (v : Packet.View) : Z := Control.seq v ⊞ u32 (size (Packet.payload v)).

Definition acceptable (k : Control.t) (v : Packet.View) : bool :=
  Sequence.segment_acceptable (Control.seq v) (Control.segment_length v) (Control.receive_next_ k)
    (Control.receive_window_ k).

(** What a segment may do to a block that completed its handshake. *)
Record moved (k : Control.t) (v : Packet.View) (e : Control.Event.t) (k' : Control.t) : Prop := mkMoved {
  mv_next : Control.send_next_ k' = Control.send_next_ k;
  mv_window : Control.receive_window_ k' = Control.receive_window_ k;
  mv_fin : Control.local_fin_sent_ k' = Control.local_fin_sent_ k;
  mv_una : Control.send_unacknowledged_ k' = Control.send_unacknowledged_ k
           \/ Control.flagged v Packet.ack = true /\ Control.advances k v = true
              /\ Control.send_unacknowledged_ k' = Control.ackn v;
  mv_data : carries_data e = true ->
            acceptable k v = true /\ Control.empty v = false
            /\ Control.receive_next_ k' = Control.receive_next_ k
            /\ hears (Control.state_ k') = hears (Control.state_ k)
            /\ peer_done (Control.state_ k') = peer_done (Control.state_ k)
            /\ Control.synchronized k' = true;
  mv_peer : Control.state_ k' = Control.closed
            \/ Control.receive_next_ k' = Control.receive_next_ k
               /\ hears (Control.state_ k') = hears (Control.state_ k)
               /\ peer_done (Control.state_ k') = peer_done (Control.state_ k)
            \/ Control.receive_next_ k' = Control.receive_next_ k ⊞ 1
               /\ peer_done (Control.state_ k') = true
               /\ Control.fin_in_sequence k v = true /\ acceptable k v = true
}.

Definition late (k : Control.t) : Prop :=
  Control.synchronized k = true /\ Control.state_ k <> Control.syn_received.

Lemma late_cases k :
  late k <-> hears (Control.state_ k) = true \/ peer_done (Control.state_ k) = true.
Proof.
  unfold late, Control.synchronized. destruct (Control.state_ k); cbn; intuition congruence.
Qed.

Section Segment.
Context (k : Control.t) (v : Packet.View) (now w : Z) (L : late k).

Lemma moved_still e : carries_data e = false -> moved k v e k.
Proof. intros He. constructor; auto; congruence. Qed.

(** The state after the ACK field, which the text starts from. *)
Record answered (x : Control.t) : Prop := mkAnswered {
  an_next : Control.send_next_ x = Control.send_next_ k;
  an_window : Control.receive_window_ x = Control.receive_window_ k;
  an_fin : Control.local_fin_sent_ x = Control.local_fin_sent_ k;
  an_una : Control.send_unacknowledged_ x = Control.send_unacknowledged_ k
           \/ Control.flagged v Packet.ack = true /\ Control.advances k v = true
              /\ Control.send_unacknowledged_ x = Control.ackn v;
  an_peer : Control.receive_next_ x = Control.receive_next_ k;
  an_hears : hears (Control.state_ x) = hears (Control.state_ k);
  an_done : peer_done (Control.state_ x) = peer_done (Control.state_ k)
}.

Lemma answered_late x : answered x -> late x.
Proof. intros A. rewrite late_cases, an_hears, an_done by exact A. now apply late_cases. Qed.

Lemma answered_moved x e : answered x -> carries_data e = false -> moved k v e x.
Proof. intros A He. pose proof (answered_late x A). destruct A. constructor; auto; congruence. Qed.

Lemma answered_text x :
  answered x -> acceptable k v = true ->
  moved k v (Control.event (Control.process_text x v false now).1) (Control.process_text x v false now).2.
Proof.
  intros A Hok. unfold Control.process_text. pose proof (answered_late x A) as Lx.
  destruct (Control.empty v) eqn:Ee; cbn [negb].
  2:{ pose proof Lx as [Hs _]. destruct A. constructor; cbn; auto. now intros _. }
  destruct (Control.flagged v Packet.fin) eqn:Ef; cbn [negb]; [|now apply answered_moved].
  destruct (Z.eqb_spec (Control.seq v) (Control.receive_next_ x)) as [Eq|Hne]; cbn [negb];
    [|now apply answered_moved].
  destruct (Control.accept_peer_fin_spec x now) as (K & Eu & Es & _).
  pose proof (Control.kept_next _ _ K : _ = Control.send_next_ x) as E1.
  pose proof (Control.kept_receive_next _ _ K : _ = Control.receive_next_ x ⊞ 1) as E2.
  pose proof (Control.kept_receive_window _ _ K : _ = Control.receive_window_ x) as E3.
  pose proof (Control.kept_fin _ _ K : _ = Control.local_fin_sent_ x) as E4.
  pose proof (proj1 (late_cases x) Lx) as Hx. set (y := (Control.accept_peer_fin x now).2) in *.
  assert (peer_done (Control.state_ y) = true) as Hd.
  { rewrite Es. destruct (Control.state_ x); cbn in *; try done; try (destruct Hx; discriminate). now case_if. }
  destruct A. constructor; rewrite ?E1, ?E2, ?E3, ?E4, ?Eu; auto.
  - intros H. exfalso. revert H. unfold Control.accept_peer_fin. cbn. discriminate.
  - right. right. rewrite an_peer0. split_and!; auto. unfold Control.fin_in_sequence.
    rewrite Ee, Ef, <- an_peer0, Eq. cbn. now rewrite Z.eqb_refl.
Qed.

Lemma answered_after x :
  answered x -> acceptable k v = true ->
  moved k v (Control.event (Control.after_ack x v false now).1) (Control.after_ack x v false now).2.
Proof.
  intros A Hok. unfold Control.after_ack. case_if; [|case_if; [|case_if]].
  - apply Control.state_is_spec in E0. apply answered_text; [|exact Hok].
    destruct A. constructor; cbn; auto; rewrite E0 in *; auto.
  - match goal with H : Control.state_is _ Control.closing = true |- _ => apply Control.state_is_spec in H; rename H into Ec end.
    apply answered_moved; [|done]. destruct A. constructor; cbn; auto; rewrite Ec in *; auto.
  - destruct A. constructor; cbn; auto. discriminate.
  - now apply answered_text.
Qed.

(** Every segment that arrives after the handshake. *)
Lemma segment_moved iss window :
  moved k v (Control.event (Control.on_segment k v iss now window).1) (Control.on_segment k v iss now window).2.
Proof.
  unfold Control.on_segment. case_if; [now apply moved_still|].
  assert (forall w, moved k v (Control.event (Control.on_synchronized k v now w).1) (Control.on_synchronized k v now w).2) as H.
  2:{ pose proof (proj1 (late_cases k) L) as Hx.
      destruct (Control.state_ k); try apply H; destruct Hx; discriminate. }
  clear window E. intros window. unfold Control.on_synchronized.
  destruct (Control.repeated_fin k v) eqn:Er.
  { unfold Control.repeated_fin in Er. rewrite !andb_true_iff in Er. destruct Er as [[[Er _] _] _].
    apply Control.state_is_spec in Er. apply answered_moved; [|done]. constructor; cbn; auto; now rewrite Er. }
  assert (Control.repeated_simultaneous_syn k v = false) as ->.
  { unfold Control.repeated_simultaneous_syn. destruct L as [_ L']. destruct (Control.state_ k); done. }
  cbn [negb andb]. fold (acceptable k v). destruct (acceptable k v) eqn:Hok; cbn [negb];
    [|case_if; now apply moved_still].
  case_if.
  { case_if; [now apply moved_still|]. case_if.
    - match goal with H : Control.state_is _ Control.syn_received = true |- _ => apply Control.state_is_spec in H end.
      destruct L. congruence.
    - constructor; cbn; auto. discriminate. }
  case_if; [now apply moved_still|]. case_if; [now apply moved_still|].
  destruct (Control.process_ack k v now window) as [r|[x b]] eqn:Ep.
  - cbn [fst snd]. apply moved_still. revert Ep. unfold Control.process_ack. repeat case_if; intros [= <-]; try done.
    all: unfold Control.reset_for; case_if; done.
  - apply Control.process_ack_spec in Ep as (K & Eb & Es & Eu & _ & _).
    assert (b = false) as ->.
    { rewrite Eb. destruct L as [_ L']. destruct (Control.state_ k); done. }
    apply answered_after; [|exact Hok]. destruct K. constructor; auto; try now rewrite Es.
    rewrite Eu. destruct (Control.advances k v); auto.
Qed.
End Segment.

(** ** The receiver *)

(** The window is never promised beyond the arena, and nothing was stored beyond
    what was promised. *)
Definition promise (r : Receiver.t) (w : Window.t) : Prop :=
  Window.capacity_ w = size (Receiver.storage_ r)
  /\ Receiver.prefix r + Window.advertised w <= size (Receiver.storage_ r)
  /\ forall o, Receiver.prefix r + Window.advertised w <= o < size (Receiver.storage_ r) -> Receiver.slot r o = None.

Lemma promise_range r w :
  Receiver.live r -> Window.wf w -> promise r w ->
  is_u32 (Receiver.receive_next_ r) /\ is_u32 (Receiver.read_sequence_ r) /\ 0 <= Receiver.prefix r
  /\ 0 <= Window.advertised w /\ Receiver.prefix r + Window.advertised w <= size (Receiver.storage_ r) <= two30.
Proof.
  intros (((_ & Hs & _ & _ & Ir & In) & Hk & _) & _) (V & Hc & _ & Ha) (P1 & P2 & _).
  unfold Window.advertised in *. rewrite V in *. split_and!; auto; try lia. apply u32_range.
Qed.

(** Text inside the advertised window advances RCV.NXT inside it. *)
Lemma accept_promised r w d q payload :
  Receiver.live r -> Window.wf w -> promise r w ->
  q = Receiver.receive_next_ r ⊞ d -> - two30 < d -> d + size payload <= Window.advertised w ->
  let (res, r') := Receiver.accept r q payload in
  let n := Receiver.receive_next_ r' ⊟ Receiver.receive_next_ r in
  let w' := Window.receive_next_advanced w n in
  Receiver.live r' /\ Receiver.result_receive_next res = Receiver.receive_next_ r'
  /\ n <= Window.advertised w /\ Window.wf w' /\ promise r' w'
  /\ Window.advertised w' = Window.advertised w - n.
Proof.
  intros Lr Ww P Eq Hd Hend. pose proof (promise_range r w Lr Ww P) as (In & Ir & Hp & Ha & Hfit).
  pose proof Lr as (W & Hset & Hpad). destruct P as (P1 & P2 & P3).
  assert (q = Receiver.read_sequence_ r ⊞ (Receiver.prefix r + d)) as Eq'
    by (rewrite Eq; unfold Receiver.prefix; clear; word).
  assert (0 <= size payload) by (unfold size; lia).
  pose proof (Receiver.receive_accept_spec r (Receiver.prefix r + d) payload W Hset ltac:(lia)) as A.
  pose proof (Receiver.receive_accept_padding r q payload W Hpad) as Hpad'.
  rewrite <- Eq' in A. destruct (Receiver.accept r q payload) as [res r']. cbn [snd] in Hpad'.
  destruct A as ((W' & Hset' & Fr & Hsl & Hpre & Er & _) & _).
  destruct (Receiver.frame_inv _ _ Fr) as (F1 & F2 & _ & _).
  pose proof W' as ((_ & Hs' & _ & _ & _ & In') & Hk' & Hfull). fold (Receiver.prefix r') in Hk', Hfull.
  assert (Receiver.prefix r' <= Receiver.prefix r + Window.advertised w) as Hle.
  { apply Z.nlt_ge. intros Hlt. apply (Hfull (Receiver.prefix r + Window.advertised w)); [lia|].
    rewrite Hsl by lia. unfold Receiver.overlay. rewrite P3 by lia. case_if; [|done].
    apply lookup_ge_None_2. unfold size in *. lia. }
  assert (Receiver.receive_next_ r' ⊟ Receiver.receive_next_ r = Receiver.prefix r' - Receiver.prefix r) as En.
  { unfold Receiver.prefix in *. rewrite F2 in *. revert Hpre. clear -In In' Ir. intros. word. }
  cbv zeta. rewrite En.
  pose proof (Window.receive_window_wf_apply w (Window.Advanced (Receiver.prefix r' - Receiver.prefix r)) Ww ltac:(cbn beta iota; lia)) as Ww'.
  cbn [Window.apply] in Ww'.
  assert (Window.advertised (Window.receive_next_advanced w (Receiver.prefix r' - Receiver.prefix r))
          = Window.advertised w - (Receiver.prefix r' - Receiver.prefix r)) as Ea.
  { destruct Ww as (V & _). unfold Window.advertised, Window.receive_next_advanced in *. rewrite V in *. cbn.
    rewrite V. case_if; lia. }
  split; [now split_and!|]. split; [exact Er|]. split; [lia|]. split; [exact Ww'|]. split; [|exact Ea].
  split; [|split].
  - rewrite F1, <- P1. destruct Ww as (V & _). unfold Window.receive_next_advanced. rewrite V. reflexivity.
  - rewrite Ea, F1. lia.
  - intros o Ho. rewrite Ea, F1 in Ho. rewrite Hsl by lia. unfold Receiver.overlay. rewrite P3 by lia.
    case_if; [|done]. apply lookup_ge_None_2. unfold size in *. lia.
Qed.

(** Reading frees octets; the window opens only up to the arena. *)
Lemma read_promised r w out :
  Receiver.live r -> Window.wf w -> promise r w -> 0 <= out ->
  let (bytes, r') := Receiver.read r out in
  let (opened, w') := Window.application_space_available w (Receiver.advertised_window r') in
  Receiver.live r' /\ Receiver.receive_next_ r' = Receiver.receive_next_ r /\ Window.wf w' /\ promise r' w'
  /\ (opened = false -> w' = w) /\ promise r' w.
Proof.
  intros Lr Ww P Hout. pose proof (promise_range r w Lr Ww P) as (In & Ir & Hp & Ha & Hfit).
  pose proof Lr as (W & Hset & Hpad). destruct P as (P1 & P2 & P3).
  pose proof (Receiver.receive_read_spec r out W Hset Hout) as R.
  assert (Receiver.live (Receiver.read r out).2) as Lr'
    by exact (Receiver.receive_live_apply r (Receiver.Read out) Lr Hout).
  destruct (Receiver.read r out) as [bytes r']. cbn [snd] in Lr'. cbv zeta in R.
  set (n := Z.min out (Receiver.prefix r)) in *. destruct R as (W' & _ & Es & _ & Enx & Epx & _ & _ & Hsl).
  assert (promise r' w) as Pw.
  { split_and!; [congruence|lia|]. intros o Ho. rewrite Hsl by lia. case_if; [|done]. apply P3. lia. }
  assert (Receiver.advertised_window r' = size (Receiver.storage_ r') - Receiver.prefix r') as Eav.
  { unfold Receiver.advertised_window. destruct W' as ((V & Hs & _) & Hk & _). rewrite V. cbn [negb].
    fold (Receiver.prefix r') in *. assert (0 <= Receiver.prefix r') by apply u32_range.
    clear -Hs Hk H. word. }
  pose proof (Window.receive_window_wf_apply w (Window.Space (Receiver.advertised_window r')) Ww ltac:(cbn beta iota; rewrite Eav; pose proof (proj1 (proj2 Pw)); lia)) as Ww'.
  cbn [Window.apply] in Ww'. destruct Ww as (V & Hw). 
  unfold Window.application_space_available in *. destruct (_ || _) eqn:Eg; cbn [snd] in *; [done|].
  bool_to_prop. case_if; cbn [snd] in *; [done|]. do 3 (split; [done|]). split; [|done].
  split; [exact (eq_trans P1 (eq_sym Es))|]. unfold Window.advertised. cbn [Window.valid_ Window.advertised_ set_field].
  rewrite V, Eav. split; [lia|]. intros o Ho. lia.
Qed.

(** An acceptable segment starts less than its length before the window. *)
Lemma acceptable_near q len n w :
  is_u32 q -> is_u32 n -> 0 < len <= 65537 -> 0 <= w <= two30 ->
  Sequence.segment_acceptable q len n w = true -> exists d, q = n ⊞ d /\ - len < d < w.
Proof.
  intros Iq In Hl Hw. unfold Sequence.segment_acceptable. rewrite (proj2 (Z.eqb_neq len 0)) by lia. cbn [andb].
  case_if; [discriminate|]. unfold Sequence.after_or_equal, Sequence.after, Sequence.before, Sequence.half_space.
  rewrite !orb_true_iff, !andb_true_iff, !orb_true_iff, !andb_true_iff, !negb_true_iff, !Z.eqb_eq, !Z.eqb_neq, !Z.ltb_lt.
  intros [H|H].
  - exists (q ⊟ n). split; [now rewrite wadd_wsub|]. word.
  - exists (u32 (q + len - 1) ⊟ n - (len - 1)). split; word.
Qed.

(** An acceptable segment whose text ends inside the window starts near RCV.NXT. *)
Lemma text_inside k v :
  acceptable k v = true -> Control.empty v = false -> is_u32 (Control.seq v) -> is_u32 (Control.receive_next_ k) ->
  size (Packet.payload v) <= 65535 -> 0 <= Control.receive_window_ k <= two30 ->
  Sequence.before_or_equal (text_end v) (Control.receive_next_ k ⊞ Control.receive_window_ k) = true ->
  exists d, Control.seq v = Control.receive_next_ k ⊞ d /\ - two30 < d
            /\ d + size (Packet.payload v) <= Control.receive_window_ k.
Proof.
  intros Hok He Iq In Hl Hw Hend.
  assert (0 < size (Packet.payload v)) as Hpos.
  { unfold Control.empty in He. unfold size. destruct (Packet.payload v); [discriminate|cbn; lia]. }
  assert (exists e, Control.segment_length v = size (Packet.payload v) + e /\ 0 <= e <= 2) as (e & El & He2).
  { exists ((if Control.flagged v Packet.syn then 1 else 0) + (if Control.flagged v Packet.fin then 1 else 0)).
    unfold Control.segment_length. fold (size (Packet.payload v)). repeat case_if; (split; [word|lia]). }
  unfold acceptable, text_end in *. rewrite El in Hok.
  set (l := size (Packet.payload v)) in *. set (q := Control.seq v) in *. set (n := Control.receive_next_ k) in *.
  set (W := Control.receive_window_ k) in *. clearbody l q n W. clear -Hok Iq In Hl Hpos Hw Hend He2.
  apply acceptable_near in Hok; try lia; [|done..]. destruct Hok as (d & -> & Hd).
  exists d. split; [done|]. split; [lia|].
  apply Z.nlt_ge. intros Hlt. rewrite (u32_id l) in Hend by (unfold is_u32; lia). revert Hend.
  unfold Sequence.before_or_equal, Sequence.before, Sequence.half_space.
  rewrite orb_true_iff, andb_true_iff, negb_true_iff, Z.eqb_eq, Z.eqb_neq, Z.ltb_lt. word.
Qed.

End ConnectionParts.
