(* ===== verification/ConnectionSync.v ===== *)
(** * The connection as a composition

    The control block, the sender, the receiver and the window of a connection
    describe the same two streams in every state its owner can reach: [sound] is
    that invariant, and each operation of tcp_connection.cpp keeps it. *)

From S2P Require Import Prelude Catalog Sequence Arena Blocks Packet Options Timers Retransmission Congestion ReceiveWindow ReceiveBuffer SendBuffer History Failure Sack SackRecovery ControlBlock Sender SenderSync SenderFrame Connection ConnectionParts.
Import Arena Blocks.

Module ConnectionSync.
Import Connection.Connection ConnectionParts.ConnectionParts.
Module Sync := SenderSync.SenderSync.
Module Frame := SenderFrame.SenderFrame.
Module Control := ControlBlock.ControlBlock.
Module Receiver := ReceiveBuffer.ReceiveBuffer.
Module Window := ReceiveWindow.ReceiveWindow.

#[local] Existing Instances Sender.Sender.t_settable SendBuffer.SendBuffer.t_settable History.History.t_settable
  Sack.SackScoreboard.t_settable ReceiveBuffer.ReceiveBuffer.t_settable ControlBlock.ControlBlock.t_settable
  Connection.Connection.t_settable Connection.Connection.pending_settable Connection.Connection.policy_settable.

(** ** The invariant *)

(** The parts of an open stream agree on its sequence variables: our FIN, once sent,
    occupies the number after the sender's SND.NXT, and the peer's FIN the one after
    the receiver's RCV.NXT; until then the window the control block checks is the
    one advertised.  The control block may lag behind the sender's SND.UNA. *)
Record stream (k : Control.t) (s : Send.t) (r : Receiver.t) (w : Window.t) (clock : Z) : Prop := mkStreamInv {
  st_sender : Sync.synced s clock;
  st_receiver : Receiver.live r;
  st_window : Window.wf w;
  st_promise : promise r w;
  st_phase : late k \/ Control.state_ k = Control.closed;
  st_range : 0 <= Control.receive_window_ k <= two30;
  st_next : Control.state_ k <> Control.closed ->
    Control.send_next_ k = if Control.local_fin_sent_ k then Sync.nxt s ⊞ 1 else Sync.nxt s;
  st_una : Control.state_ k <> Control.closed -> Control.local_fin_sent_ k = false ->
    (Sync.una s ⊟ Control.send_unacknowledged_ k) + (Sync.nxt s ⊟ Sync.una s)
    = Sync.nxt s ⊟ Control.send_unacknowledged_ k;
  st_hears : hears (Control.state_ k) = true ->
    Control.receive_next_ k = Receiver.receive_next_ r /\ Control.receive_window_ k = Window.advertised w;
  st_done : peer_done (Control.state_ k) = true ->
    Control.receive_next_ k = Receiver.receive_next_ r ⊞ 1
}.

(** Before the streams exist nothing but the SYN was sent. *)
Record early (p : ConnectionOptionPolicy) (k : Control.t) : Prop := mkEarly {
  ea_window : Control.receive_window_ k = receive_capacity p;
  ea_flight : Control.state_ k = Control.established -> Control.send_unacknowledged_ k = Control.send_next_ k
}.

Definition parts (p : ConnectionOptionPolicy) (k : Control.t) (s : option Send.t) (r : option Receiver.t)
    (w : option Window.t) (negotiated : option Offers.NegotiatedOptions) (clock : Z) : Prop :=
  match s, r, w with
  | Some s, Some r, Some w => stream k s r w clock /\ is_some negotiated = true
  | None, None, None => early p k
  | _, _, _ => False
  end.

Record sound (p : ConnectionOptionPolicy) (k : Control.t) (s : option Send.t) (r : option Receiver.t)
    (w : option Window.t) (negotiated : option Offers.NegotiatedOptions) (present : bool) (clock : Z) : Prop := mkSound {
  sd_control : Control.wf k;
  sd_window : is_u32 (Control.send_window_ k);
  sd_present : present = stamped negotiated;
  sd_negotiated : forall n, negotiated = Some n -> 0 <= Offers.send_mss n < 65536;
  sd_parts : parts p k s r w negotiated clock
}.

(** What the connection publishes, and what it would publish in place of it. *)
Definition sound_now (c : t) (clock : Z) : Prop :=
  sound (policy_ c) (control_ c) (sender_ c) (receiver_ c) (receive_window_ c) (negotiated_ c)
    (timestamp_state_present_ c) clock.

Definition sound_after (c : t) (p : PendingTransition) (s : option Send.t) (clock : Z) : Prop :=
  sound (policy_ c) (p_control p) s (receiver_ c) (receive_window_ c) (p_negotiated p)
    (p_timestamp_state_present p) clock.

(** A pending transition can be published at any later time, with whatever the
    sender's own commit makes of its copy. *)
Record staged (c : t) (p : PendingTransition) (clock : Z) : Prop := mkStaged {
  sg_sender : p_sender p = sender_ c;
  sg_token : p_token p <> 0;
  sg_control : p_sender_transmission_present p = false -> sound_after c p (sender_ c) clock;
  sg_data : p_sender_transmission_present p = true ->
    exists s, sender_ c = Some s /\ Sync.shaped (p_sender_transmission p)
      /\ forall now s', clock <= now -> Send.commit s (p_sender_transmission p) now = (true, s') ->
         sound_after c p (Some s') now
}.

Definition fixed (c : t) : Prop := valid_ c = true /\ storage_valid (storage_ c) (policy_ c) = true
  /\ is_u32 (maximum_transport_message (policy_ c)).

Record inv (c : t) (clock : Z) : Prop := mkInv {
  iv_clock : 0 <= clock;
  iv_fixed : fixed c;
  iv_sound : sound_now c clock;
  iv_pending : match pending_ c with Some p => staged c p clock | None => True end
}.

(** ** Time *)

Lemma stream_later k s r w clock now : stream k s r w clock -> clock <= now -> stream k s r w now.
Proof. intros [] H. constructor; auto. now apply Sync.synced_later with clock. Qed.

Lemma sound_later p k s r w n b clock now : sound p k s r w n b clock -> clock <= now -> sound p k s r w n b now.
Proof.
  intros [H1 H2 H3 H4 H5] Hn. constructor; auto. revert H5. unfold parts.
  destruct s, r, w; try done. intros [H5 H6]. split; [now apply stream_later with clock|done].
Qed.

Lemma staged_later c p clock now : staged c p clock -> clock <= now -> staged c p now.
Proof.
  intros [H1 H2 H3 H4] Hn. constructor; auto.
  - intros H. exact (sound_later _ _ _ _ _ _ _ _ _ (H3 H) Hn).
  - intros H. destruct (H4 H) as (s & Hs & Hp & Hc). exists s. split_and!; auto. intros t s' Ht. apply Hc. lia.
Qed.

(** ** Control transitions between segments *)

Definition streams (c : t) : option (Send.t * Receiver.t * Window.t) :=
  match sender_ c, receiver_ c, receive_window_ c with
  | Some s, Some r, Some w => Some (s, r, w)
  | _, _, _ => None
  end.

(** A transition of the block that leaves its windows alone. *)
Lemma parts_transition p k k' s r w n clock :
  parts p k s r w n clock ->
  Control.receive_window_ k' = Control.receive_window_ k ->
  (Control.state_ k' = Control.established ->
     Control.state_ k = Control.established
     /\ Control.send_unacknowledged_ k' = Control.send_unacknowledged_ k /\ Control.send_next_ k' = Control.send_next_ k) ->
  (late k -> late k' \/ Control.state_ k' = Control.closed) ->
  (Control.state_ k = Control.closed -> Control.state_ k' = Control.closed) ->
  (late k -> Control.state_ k' <> Control.closed ->
     Control.receive_next_ k' = Control.receive_next_ k
     /\ hears (Control.state_ k') = hears (Control.state_ k)
     /\ peer_done (Control.state_ k') = peer_done (Control.state_ k)
     /\ Control.send_unacknowledged_ k' = Control.send_unacknowledged_ k
     /\ (Control.local_fin_sent_ k' = Control.local_fin_sent_ k /\ Control.send_next_ k' = Control.send_next_ k
         \/ Control.local_fin_sent_ k = false /\ Control.local_fin_sent_ k' = true
            /\ Control.send_next_ k' = Control.send_next_ k ⊞ 1)) ->
  parts p k' s r w n clock.
Proof.
  intros H Hw He Hl Hc Hk. unfold parts in *. destruct s as [s|], r as [r|], w as [w|]; try done.
  - destruct H as [[] Hn]. split; [|done].
    assert (Control.state_ k' <> Control.closed -> late k) as Hlate.
    { intros Hne. destruct st_phase0 as [Hp|Hp]; [done|]. now apply Hc in Hp. }
    assert (Control.state_ k' <> Control.closed -> Control.state_ k <> Control.closed) as Hopen
      by (intros Hne E; apply Hne, Hc, E).
    constructor; auto.
    + destruct st_phase0 as [Hp|Hp]; [now apply Hl|right; now apply Hc].
    + congruence.
    + intros Hne. destruct (Hk (Hlate Hne) Hne) as (_ & _ & _ & _ & [[-> ->]|(Ef & -> & ->)]); [now apply st_next0, Hopen|].
      specialize (st_next0 (Hopen Hne)). rewrite Ef in st_next0. now rewrite st_next0.
    + intros Hne Hf. destruct (Hk (Hlate Hne) Hne) as (_ & _ & _ & -> & [[E _]|(_ & E & _)]); [|congruence].
      apply st_una0; [now apply Hopen|congruence].
    + intros Hh. assert (Control.state_ k' <> Control.closed) as Hne by (intros E; now rewrite E in Hh).
      destruct (Hk (Hlate Hne) Hne) as (-> & E & _). rewrite Hw. apply st_hears0. congruence.
    + intros Hd. assert (Control.state_ k' <> Control.closed) as Hne by (intros E; now rewrite E in Hd).
      destruct (Hk (Hlate Hne) Hne) as (-> & _ & E & _). apply st_done0. congruence.
  - destruct H as [H1 H2]. constructor; [congruence|]. intros E. destruct (He E) as (E0 & -> & ->). auto.
Qed.

Lemma service_parts p k s r w n clock now :
  parts p k s r w n clock -> parts p (Control.service_deadline k now).2 s r w n clock.
Proof.
  intros H. unfold Control.service_deadline. case_if.
  - apply Control.state_is_spec in E0. apply (parts_transition p k); try done; auto.
  - case_if; [exact H|]. destruct (Control.Estimator.on_timeout _ _) as [t e].
    apply (parts_transition p k); try done; auto. intros _ _. split_and!; auto.
Qed.

Lemma close_parts p k s r w n clock now :
  Control.wf k -> parts p k s r w n clock -> parts p (Control.close k now).2 s r w n clock.
Proof.
  intros W H. pose proof (Control.wf_phase _ W) as Ph. unfold Control.phase in Ph. unfold Control.close.
  destruct (Control.state_ k) eqn:Es; cbn [Control.state_is Control.index Nat.eqb orb andb negb]; try exact H;
    apply (parts_transition p k); rewrite ?late_cases, ?Es; try done; cbn; auto; intros [?|?]; try discriminate;
    intros _; destruct Ph; split_and!; auto.
Qed.

Lemma service_sound p k s r w n b clock now :
  sound p k s r w n b clock -> sound p (Control.service_deadline k now).2 s r w n b clock.
Proof.
  intros [H1 H2 H3 H4 H5]. constructor; auto.
  - exact (Control.wf_perform k (Control.Service now) H1 I).
  - unfold Control.service_deadline. case_if; [done|]. case_if; [done|]. now destruct (Control.Estimator.on_timeout _ _).
  - now apply service_parts.
Qed.

Lemma close_sound p k s r w n b clock now :
  sound p k s r w n b clock -> sound p (Control.close k now).2 s r w n b clock.
Proof.
  intros [H1 H2 H3 H4 H5]. constructor; auto.
  - exact (Control.wf_perform k (Control.Close now) H1 I).
  - unfold Control.close. case_if; [done|]. case_if; done.
  - now apply close_parts.
Qed.

(** ** Data transmission *)

(** The octets acknowledged to the sender and not to the control block. *)
Definition lag (k : Control.t) (s : Send.t) : Z := Sync.una s ⊟ Control.send_unacknowledged_ k.

Lemma talks_open k :
  Control.wf k -> talks (Control.state_ k) = true ->
  Control.state_ k <> Control.closed /\ Control.local_fin_sent_ k = false.
Proof.
  intros W. pose proof (Control.wf_phase _ W) as Ph. unfold Control.phase in Ph.
  destruct (Control.state_ k); cbn; try discriminate; intros _; split; try discriminate; tauto.
Qed.

(** The flight the control block counts is the sender's and the lag. *)
Lemma stream_flight k s r w clock :
  Control.wf k -> stream k s r w clock -> talks (Control.state_ k) = true ->
  Control.send_next_ k = Sync.nxt s /\ Control.flight k = lag k s + (Sync.nxt s ⊟ Sync.una s).
Proof.
  intros W St Ht. destruct (talks_open k W Ht) as [Hc Hf]. destruct St.
  specialize (st_next0 Hc). rewrite Hf in st_next0. specialize (st_una0 Hc Hf).
  split; [done|]. unfold Control.flight, lag. now rewrite st_next0.
Qed.

Lemma commit_sent_talks k q len k' :
  Control.commit_sent_data k q len = (true, k') ->
  talks (Control.state_ k) = true /\ q = Control.send_next_ k
  /\ k' = k <| Control.send_next_ := Control.send_next_ k ⊞ len |>.
Proof.
  unfold Control.commit_sent_data. case_if; [discriminate|]. intros [= <-]. split_and!; [|lia|done].
  match goal with H : _ && _ = false |- _ => revert H end. destruct (Control.state_ k); cbn; done.
Qed.

Lemma range_fits s clock r :
  Sync.synced s clock -> is_u32 (Send.Bytes.sequence r) -> is_u32 (Send.Bytes.length r) ->
  Send.Bytes.range_is_current (Send.bytes_ s) r = true -> Send.Bytes.retransmission r = false ->
  0 <= Send.Bytes.length r
  /\ (Sync.nxt s ⊟ Sync.una s) + Send.Bytes.length r <= size (Send.Bytes.storage_ (Send.bytes_ s)).
Proof.
  intros Y Is Il Hcur Hf. pose proof (Sync.sy_bytes _ _ Y) as W.
  destruct (Send.Bytes.send_range_current _ r W Hcur Is Il) as (Hl & _ & _ & Hq & _ & Hnew).
  destruct (Hnew Hf) as (Ho & _). destruct (Send.Bytes.send_counters _ W) as (_ & Hcap & _).
  rewrite <- (Sync.synced_flight s clock Y). unfold Send.flight_size. lia.
Qed.

Section Transmission.
Context (p : ConnectionOptionPolicy) (k k' : Control.t) (s : Send.t) (r : Receiver.t) (w : Window.t)
  (n : option Offers.NegotiatedOptions) (b : bool) (clock now : Z) (tx : Send.PreparedTransmission) (s' : Send.t).
Context (S : sound p k (Some s) (Some r) (Some w) n b clock) (Hnow : clock <= now) (Hs : Sync.shaped tx)
  (Hcur : Send.Bytes.range_is_current (Send.bytes_ s) (Send.range tx) = true)
  (Hlag : talks (Control.state_ k) = true -> lag k s + size (Send.Bytes.storage_ (Send.bytes_ s)) <= two30)
  (Hk : (if Send.Bytes.retransmission (Send.range tx) then (true, k)
         else Control.commit_sent_data k (Send.Bytes.sequence (Send.range tx)) (Send.Bytes.length (Send.range tx)))
        = (true, k'))
  (Hc : Send.commit s tx now = (true, s')).

Lemma transmission_sound : sound p k' (Some s') (Some r) (Some w) n b now.
Proof.
  destruct S as [W Iw Hp Hn [St Hsome]]. pose proof (st_sender _ _ _ _ _ St) as Y.
  destruct (Frame.commit_moves s clock Y tx now s' Hs Hc) as [Eu En].
  assert (Sync.synced s' now) as Y'.
  { pose proof (Sync.commit_outcome s clock tx now Y Hnow Hs) as H. rewrite Hc in H.
    destruct (Sync.ready s tx now); [destruct H as (x & [= <-] & Hx); exact Hx|discriminate]. }
  destruct (Send.Bytes.retransmission (Send.range tx)) eqn:Er.
  - injection Hk as <-. constructor; auto. split; [|done]. destruct St. constructor; rewrite ?Eu, ?En; auto.
  - destruct (commit_sent_talks _ _ _ _ Hk) as (Ht & Eq & ->).
    destruct (stream_flight k s r w clock W St Ht) as [Enx Ef]. specialize (Hlag Ht).
    pose proof Hs as (Is & Il & _). destruct (range_fits s clock _ Y Is Il Hcur Er) as [H0 Hfit].
    destruct (Sync.synced_words s clock Y) as (Iu & In & _).
    destruct (talks_open k W Ht) as [Hopen Hf].
    constructor; auto.
    + pose proof (Control.wf_perform k (Control.CommitSent (Send.Bytes.sequence (Send.range tx)) (Send.Bytes.length (Send.range tx))) W) as H.
      cbn [Control.perform Control.enabled] in H. rewrite Hk in H. apply H. lia.
    + split; [|done]. assert (Sync.nxt s' = Sync.nxt s ⊞ Send.Bytes.length (Send.range tx)) as En'.
      { rewrite En. unfold Send.range_end. now rewrite Eq, Enx. }
      unfold lag in *. destruct St. constructor; auto; cbn [Control.state_ Control.local_fin_sent_ Control.send_next_ Control.send_unacknowledged_ Control.receive_next_ Control.receive_window_ set_field].
      * intros _. rewrite Hf, En', <- Enx. done.
      * intros _ _. specialize (st_una0 Hopen Hf). rewrite Eu, En'.
        revert Hfit H0 st_una0 Hlag. pose proof (Control.wf_una _ W) as Ik. clear -Iu In Ik Il. intros. word.
Qed.
End Transmission.

(** ** Segments of an open stream *)

(** The arenas of an unchanged part are its own. *)
Lemma share_persist s q : share (s <| Send.persist_ := q |>) s = s.
Proof. destruct s as [[] [] ? [] ? ? ?]; reflexivity. Qed.

Lemma share_same s : share s s = s.
Proof. destruct s as [[] [] ? [] ? ? ?]; reflexivity. Qed.

(** Words of a segment that was parsed from octets. *)
Record typed_segment (v : Packet.View) (blocks : list SackBlock) : Prop := mkTyped {
  ts_sequence : is_u32 (Control.seq v);
  ts_ack : is_u32 (Control.ackn v);
  ts_window : is_u16 (Packet.window (Packet.fields v));
  ts_text : size (Packet.payload v) <= 65535;
  ts_blocks : Forall Send.Scoreboard.block_ok blocks
}.

Section Acknowledge.
Context (c : t) (s : Send.t) (clock now : Z) (v : Packet.View) (typed : Offers.TypedOptions)
  (negotiated : option Offers.NegotiatedOptions) (dw : Z).
Context (Y : Sync.synced s clock) (Hnow : clock <= now) (T : typed_segment v (Offers.sack_blocks typed)) (Id : is_u32 dw).

Lemma acknowledgment_moves :
  let s' := receive_acknowledgment c s v typed negotiated dw now in
  Sync.synced s' now /\ Sync.nxt s' = Sync.nxt s
  /\ Sync.una s' = (if Control.flagged v Packet.ack && ((0 <? Control.ackn v ⊟ Sync.una s)
                        && (Control.ackn v ⊟ Sync.una s <=? Sync.nxt s ⊟ Sync.una s))
                    then Control.ackn v else Sync.una s).
Proof.
  unfold receive_acknowledgment. pose proof (Sync.synced_later s clock Y now Hnow) as Y'.
  destruct (Control.flagged v Packet.ack); cbn [negb andb]; [|done]. destruct T.
  match goal with |- context [Send.acknowledge s ?a ?w ?e ?t ?q ?l] =>
    pose proof (Frame.acknowledge_moves s clock Y a w e t q l ts_ack0) as Hm;
    pose proof (Sync.acknowledge_synced s clock a w e t q l Y Hnow ts_ack0 Id ts_blocks0) as Ys;
    pose proof (Frame.acknowledge_refused s clock Y a w e t q l) as Hr;
    pose proof (Frame.acknowledge_bytes s a w e t q l (Sync.sy_valid _ _ Y)) as Hb;
    destruct (Send.acknowledge s a w e t q l) as [res x] end.
  cbn [fst snd] in *. destruct (Send.acceptable (Send.status res)) eqn:Ea.
  - destruct Hm as [-> ->]. now split_and!.
  - destruct (Hr eq_refl) as [q ->]. rewrite share_persist. split_and!; [done|done|].
    destruct Hm as [_ Hm]. exact Hm.
Qed.
End Acknowledge.

(** The segment brings nothing the advertised window does not cover, and nothing
    after the peer's FIN. *)
Definition respectful (k : Control.t) (v : Packet.View) : bool :=
  if peer_done (Control.state_ k)
  then Sequence.before_or_equal (segment_end v) (Control.receive_next_ k)
  else Sequence.before_or_equal (text_end v) (Control.receive_next_ k ⊞ Control.receive_window_ k).

Lemma done_unacceptable k v :
  is_u32 (Control.seq v) -> is_u32 (Control.receive_next_ k) -> 0 < Control.segment_length v <= 65537 ->
  0 <= Control.receive_window_ k <= two30 ->
  Sequence.before_or_equal (segment_end v) (Control.receive_next_ k) = true -> acceptable k v = false.
Proof.
  intros Iq In Hl Hw Hend. apply not_true_is_false. intros Hok.
  apply acceptable_near in Hok as (d & E & Hd); auto. revert Hend. unfold segment_end. rewrite E.
  unfold Sequence.before_or_equal, Sequence.before, Sequence.half_space.
  rewrite orb_true_iff, andb_true_iff, negb_true_iff, Z.eqb_eq, Z.eqb_neq, Z.ltb_lt.
  revert In Hd Hl Hw. generalize (Control.segment_length v) (Control.receive_next_ k) (Control.receive_window_ k).
  clear. intros l n w In Hd Hl Hw. word.
Qed.

Lemma segment_length_bounds v :
  size (Packet.payload v) <= 65535 ->
  0 <= Control.segment_length v <= 65537
  /\ (Control.empty v = false \/ Control.flagged v Packet.fin = true -> 0 < Control.segment_length v).
Proof.
  intros Hl. unfold Control.segment_length, Control.empty. fold (size (Packet.payload v)).
  assert (0 <= size (Packet.payload v)) by (unfold size; lia).
  split; [repeat case_if; word|]. intros [He|Hf].
  - assert (0 < size (Packet.payload v)) by (unfold size; destruct (Packet.payload v); [discriminate|cbn; lia]).
    repeat case_if; word.
  - rewrite Hf. repeat case_if; word.
Qed.

(** What the sender and the control block make of one segment. *)
Section Arrival.
Context (k k' : Control.t) (e : Control.Event.t) (s s' : Send.t) (r : Receiver.t) (w : Window.t) (v : Packet.View)
  (blocks : list SackBlock) (clock now : Z).
Context (W : Control.wf k) (L : late k) (St : stream k s r w clock) (Hnow : clock <= now)
  (T : typed_segment v blocks) (R : respectful k v = true) (M : moved k v e k').
Context (Y : Sync.synced s' now) (En : Sync.nxt s' = Sync.nxt s)
  (Eu : Sync.una s' = (if Control.flagged v Packet.ack && ((0 <? Control.ackn v ⊟ Sync.una s)
                        && (Control.ackn v ⊟ Sync.una s <=? Sync.nxt s ⊟ Sync.una s))
                    then Control.ackn v else Sync.una s)).

Lemma late_open : Control.state_ k <> Control.closed.
Proof. intros E. destruct L as [H _]. unfold Control.synchronized in H. now rewrite E in H. Qed.

(** Our side of the stream. *)
Lemma arrival_una :
  Control.local_fin_sent_ k = false ->
  (Sync.una s' ⊟ Control.send_unacknowledged_ k') + (Sync.nxt s' ⊟ Sync.una s')
  = Sync.nxt s' ⊟ Control.send_unacknowledged_ k'.
Proof.
  intros Hf. pose proof (st_una _ _ _ _ _ St late_open Hf) as H0.
  pose proof (st_next _ _ _ _ _ St late_open) as Hn. rewrite Hf in Hn.
  destruct (Sync.synced_words s clock (st_sender _ _ _ _ _ St)) as (Iu & In & Hfl).
  pose proof (Control.wf_una _ W) as Ik. destruct T as [_ Ia _ _ _]. rewrite En, Eu.
  assert (forall a, is_u32 a -> 0 < a ⊟ Sync.una s <= Sync.nxt s ⊟ Sync.una s ->
    (a ⊟ Control.send_unacknowledged_ k) + (Sync.nxt s ⊟ a) = Sync.nxt s ⊟ Control.send_unacknowledged_ k) as Hin.
  { intros a Ha Hlt. clear -Hlt Ha Iu In Ik H0 Hfl. word. }
  destruct (mv_una _ _ _ _ M) as [->|(Hack & Hadv & ->)].
  - case_if; [apply Hin; auto; lia|exact H0].
  - rewrite Hack. cbn [andb].
    assert (0 < Control.ackn v ⊟ Control.send_unacknowledged_ k <= Sync.nxt s ⊟ Control.send_unacknowledged_ k) as Hlt.
    { revert Hadv. unfold Control.advances, Sequence.acknowledgment_advances, Sequence.after, Sequence.before_or_equal,
        Sequence.before, Sequence.half_space. rewrite Hn.
      rewrite andb_true_iff, andb_true_iff, orb_true_iff, andb_true_iff, !negb_true_iff, Z.eqb_eq, !Z.eqb_neq, !Z.ltb_lt.
      clear -Ik In Ia. word. }
    destruct (Z.ltb_spec 0 (Control.ackn v ⊟ Sync.una s)), (Z.leb_spec (Control.ackn v ⊟ Sync.una s) (Sync.nxt s ⊟ Sync.una s));
      cbn [andb].
    1: rewrite wsub_diag; lia. all: clear -Ik In Iu Ia H0 Hfl Hlt H H1; word.
Qed.

Lemma arrival_stream : stream k' s' r w now.
Proof.
  pose proof late_open as Hopen. pose proof St as []. pose proof (segment_length_bounds v (ts_text _ _ T)) as [Hlen Hpos].
  constructor; auto.
  - destruct (mv_peer _ _ _ _ M) as [H|[(_ & H1 & H2)|(_ & H & _)]]; [now right| |]; left; rewrite late_cases.
    + rewrite H1, H2. now apply late_cases.
    + now right.
  - now rewrite (mv_window _ _ _ _ M).
  - intros _. rewrite (mv_next _ _ _ _ M), (mv_fin _ _ _ _ M), En. auto.
  - intros _ Hf. rewrite (mv_fin _ _ _ _ M) in Hf. now apply arrival_una.
  - intros Hh. rewrite (mv_window _ _ _ _ M).
    destruct (mv_peer _ _ _ _ M) as [H|[(E & H1 & H2)|(_ & H & _)]]; [now rewrite H in Hh| |].
    + rewrite E. apply st_hears0. congruence.
    + destruct (Control.state_ k'); discriminate.
  - intros Hd. destruct (mv_peer _ _ _ _ M) as [H|[(E & H1 & H2)|(E & H & Hfin & Hok)]]; [now rewrite H in Hd| |].
    + rewrite E. apply st_done0. congruence.
    + destruct (peer_done (Control.state_ k)) eqn:Ed.
      * unfold respectful in R. rewrite Ed in R. unfold Control.fin_in_sequence in Hfin.
        apply andb_true_iff in Hfin as [[He Hf]%andb_true_iff Hq]. apply Z.eqb_eq in Hq.
        exfalso. revert R. unfold segment_end. rewrite Hq. specialize (Hpos (or_intror Hf)).
        unfold Sequence.before_or_equal, Sequence.before, Sequence.half_space.
        rewrite orb_true_iff, andb_true_iff, negb_true_iff, Z.eqb_eq, Z.eqb_neq, Z.ltb_lt.
        pose proof (Control.wf_receive_next _ W) as In. clear -In Hlen Hpos. word.
      * assert (hears (Control.state_ k) = true) as Hh by (apply late_cases in L; destruct L; congruence).
        destruct (st_hears0 Hh) as [<- _]. exact E.
Qed.
End Arrival.

Lemma fin_window k now : Control.send_window_ (Control.accept_peer_fin k now).2 = Control.send_window_ k.
Proof.
  unfold Control.accept_peer_fin. cbn [snd].
  destruct (Control.state_ (k <| Control.receive_next_ := Control.receive_next_ k ⊞ 1 |>)); try case_if; reflexivity.
Qed.

(** Text of a respectful segment is always taken. *)
Section Text.
Context (k : Control.t) (s : Send.t) (r : Receiver.t) (w : Window.t) (delayed : Delay.t) (v : Packet.View) (clock now : Z)
  (d : Z).
Context (W : Control.wf k) (St : stream k s r w clock) (Hh : hears (Control.state_ k) = true)
  (Eq : Control.seq v = Control.receive_next_ k ⊞ d) (Hd : - two30 < d)
  (Hend : d + size (Packet.payload v) <= Control.receive_window_ k).

(** The control block takes what the receiver advanced, and the FIN behind it. *)
Lemma commit_received next adv fin :
  is_u32 next -> Sequence.before next (Control.receive_next_ k) = false ->
  next ⊟ Control.receive_next_ k <= Control.receive_window_ k ->
  let (committed, k') := Control.commit_received_data k next adv fin now in
  committed <> None /\ Control.wf k'
  /\ Control.send_next_ k' = Control.send_next_ k /\ Control.send_unacknowledged_ k' = Control.send_unacknowledged_ k
  /\ Control.local_fin_sent_ k' = Control.local_fin_sent_ k /\ Control.receive_window_ k' = adv
  /\ Control.send_window_ k' = Control.send_window_ k
  /\ (hears (Control.state_ k') = true /\ Control.receive_next_ k' = next
      \/ peer_done (Control.state_ k') = true /\ Control.receive_next_ k' = next ⊞ 1).
Proof.
  intros In Hb Hlt. unfold Control.commit_received_data.
  assert (Control.synchronized k = true /\ Control.state_is (Control.state_ k) Control.time_wait = false
    /\ Control.state_ k <> Control.syn_received) as (H1 & H2 & H3)
    by (unfold Control.synchronized; destruct (Control.state_ k); now split_and!).
  rewrite H1, H2, Hb, (proj2 (Z.ltb_ge _ _)) by lia. cbn [negb orb].
  set (x := k <| Control.receive_next_ := next |> <| Control.receive_window_ := adv |>).
  assert (Control.wf x) as Wx by (destruct W; now constructor).
  destruct (match fin with Some f => f =? Control.receive_next_ x | None => false end).
  - pose proof (Control.wf_accept_peer_fin x now Wx) as Wf. destruct (Control.accept_peer_fin_spec x now) as (K & Eu & Es & _).
    pose proof (fin_window x now) as Ew. specialize (Wf H3).
    destruct (Control.accept_peer_fin x now) as [res y]. cbn [snd] in *.
    pose proof (Control.kept_next _ _ K : _ = Control.send_next_ k) as E1.
    pose proof (Control.kept_receive_next _ _ K : _ = next ⊞ 1) as E2.
    pose proof (Control.kept_receive_window _ _ K : _ = adv) as E3.
    pose proof (Control.kept_fin _ _ K : _ = Control.local_fin_sent_ k) as E4.
    split_and!; auto; try done. right. rewrite Es. split; [|done]. change (Control.state_ x) with (Control.state_ k).
    clear -Hh. destruct (Control.state_ k); try discriminate; try done. now case_if.
  - split_and!; auto.
Qed.

Lemma receive_taken :
  exists st r', receive_data k r w delayed v now = (Some st, r') /\ Control.wf (s_control st)
    /\ Control.send_window_ (s_control st) = Control.send_window_ k
    /\ stream (s_control st) s (s_receiver st) (s_window st) clock.
Proof.
  pose proof St as []. destruct (st_hears0 Hh) as [E1 E2]. rewrite E1 in Eq. rewrite E2 in Hend.
  pose proof (promise_range r w st_receiver0 st_window0 st_promise0) as (In & _ & Hp & Ha & Hfit).
  pose proof (accept_promised r w d (Control.seq v) (Packet.payload v) st_receiver0 st_window0 st_promise0 Eq Hd Hend) as A.
  unfold receive_data. destruct (Receiver.accept r (Control.seq v) (Packet.payload v)) as [res r'].
  destruct A as (Lr & -> & Hn & Ww & P & Ea). cbv zeta in *.
  set (adv := Receiver.receive_next_ r' ⊟ Receiver.receive_next_ r) in *.
  set (w' := Window.receive_next_advanced w adv) in *.
  pose proof Lr as (((_ & _ & _ & _ & _ & In') & _) & _).
  match goal with |- context [Control.commit_received_data k _ _ ?f now] =>
    pose proof (commit_received (Receiver.receive_next_ r') (Window.advertised w') f In') as C end.
  assert (Sequence.before (Receiver.receive_next_ r') (Control.receive_next_ k) = false) as Hb.
  { rewrite E1. apply not_true_is_false. unfold Sequence.before, Sequence.half_space.
    rewrite andb_true_iff, negb_true_iff, Z.eqb_neq, Z.ltb_lt. unfold adv in Hn. clear -Hn Hfit Hp In In'. word. }
  specialize (C Hb). rewrite E1, E2 in C. specialize (C Hn).
  destruct (Control.commit_received_data k _ _ _ now) as [committed k'].
  destruct C as (Hc & Wk & Ex & Eu & Ef & Erw & Esw & Hcase). destruct committed as [response|]; [|done].
  destruct (Delay.on_segment _ _ _ _ _) as [schedule delayed'].
  eexists _, r'. split; [reflexivity|]. cbn [s_control s_receiver s_window]. split; [exact Wk|]. split; [exact Esw|].
  pose proof (promise_range r' w' Lr Ww P) as (_ & _ & Hp' & Ha' & Hfit').
  assert (Control.state_ k <> Control.closed) as Hopen by (intros E; now rewrite E in Hh).
  assert (late k') as Lk' by (rewrite late_cases; destruct Hcase as [[? _]|[? _]]; auto).
  constructor; rewrite ?Ex, ?Eu, ?Ef, ?Erw; auto; try lia.
  - intros H. destruct Hcase as [[_ E]|[H' _]]; [now rewrite E|]. exfalso. destruct (Control.state_ k'); discriminate.
  - intros H. destruct Hcase as [[H' _]|[_ E]]; [|now rewrite E]. exfalso. destruct (Control.state_ k'); discriminate.
Qed.
End Text.

(** ** Staging *)

Lemma token_nonzero c : (take_token c).1 <> 0.
Proof. unfold take_token. destruct (Z.eqb_spec (next_token_ c) 0) as [E|E]; cbn; [now rewrite E|done]. Qed.

Lemma token_keeps c :
  exists n, (take_token c).2 = c <| next_token_ := n |>.
Proof. unfold take_token. case_if; cbn; eexists; reflexivity. Qed.

Section Staging.
Context (c : t) (now : Z).
Context (H0 : 0 <= now) (Hf : fixed c) (Hs : sound_now c now) (Hp : pending_ c = None).

Lemma idle_inv : inv c now.
Proof. constructor; auto. now rewrite Hp. Qed.

Lemma stage_inv candidate result local peer negotiated stamps present output t :
  sound (policy_ c) candidate (sender_ c) (receiver_ c) (receive_window_ c) negotiated present now ->
  inv (stage c candidate result local peer negotiated stamps present output t).2 now.
Proof.
  intros Hc. unfold stage. rewrite Hp. cbn [is_some].
  destruct (if Control.emit result then _ else _) as [[octets out]|]; [|exact idle_inv].
  pose proof (token_nonzero c) as Ht. destruct (token_keeps c) as [n En].
  destruct (take_token c) as [token c']. cbn [fst snd] in *. subst c'.
  constructor; auto. constructor; auto. discriminate.
Qed.

Lemma stage_control_inv candidate result output t :
  sound (policy_ c) candidate (sender_ c) (receiver_ c) (receive_window_ c) (negotiated_ c) (timestamp_state_present_ c) now ->
  inv (stage_control c candidate result output t).2 now.
Proof. apply stage_inv. Qed.

Lemma stage_status candidate result local peer negotiated stamps present output t :
  status (stage c candidate result local peer negotiated stamps present output t).1.1 <> payload_requires_stream_owner.
Proof.
  unfold stage. rewrite Hp. cbn [is_some].
  destruct (if Control.emit result then _ else _) as [[octets out]|]; [|done]. now destruct (take_token c).
Qed.
End Staging.

(** ** Segments *)

Section Receive.
Context (c : t) (s : Send.t) (r : Receiver.t) (w : Window.t) (v : Packet.View) (typed : Offers.TypedOptions)
  (options : OptionState) (iss dw clock now : Z) (output : list Z).
Context (H0 : 0 <= clock) (Hf : fixed c) (Hp : pending_ c = None) (Hnow : clock <= now).
Context (Es : sender_ c = Some s) (Er : receiver_ c = Some r) (Ew : receive_window_ c = Some w).
Context (Hs : sound_now c clock) (T : typed_segment v (Offers.sack_blocks typed)) (Id : is_u32 dw) (Ii : is_u32 iss)
  (R : respectful (control_ c) v = true).
Context (Ep : o_present options = timestamp_state_present_ c).

Abbreviation arrived := (Control.on_segment (control_ c) v iss now (Some dw)).
Abbreviation acked := (receive_acknowledgment c s v typed (o_negotiated options) dw now).

Lemma open_stream : stream (control_ c) s r w clock /\ is_some (negotiated_ c) = true.
Proof. destruct Hs as [_ _ _ _ H]. unfold parts in H. now rewrite Es, Er, Ew in H. Qed.

Lemma arrived_wf : Control.wf arrived.2 /\ is_u32 (Control.send_window_ arrived.2).
Proof.
  destruct Hs as [W Iw _ _ _]. destruct T. split; [now apply Control.wf_on_segment|].
  assert (forall x, (x = Control.send_window_ (control_ c) \/ x = dw) -> is_u32 x) as Hx by (intros x [->| ->]; auto).
  apply Hx. apply (Control.on_segment_elim (fun x => Control.send_window_ x = Control.send_window_ (control_ c) \/ Control.send_window_ x = dw)).
  - now left.
  - now right.
  - intros _. cbn [value_or]. apply Control.on_syn_sent_elim; auto. intros _ _. right. rewrite Control.acknowledge_control_spec. case_if; reflexivity.
  - intros _. cbn [value_or]. apply Control.on_synchronized_elim; auto.
    intros k' b _ Ek. assert (Control.send_window_ k' = Control.send_window_ (control_ c) \/ Control.send_window_ k' = dw) as Hw'.
    { revert Ek. unfold Control.process_ack. repeat case_if; intros [= <- <-]; auto;
        rewrite ?Control.acknowledge_control_spec; repeat case_if; auto. }
    apply Control.after_ack_elim; rewrite ?fin_window; auto.
Qed.
Lemma acked_facts :
  Sync.synced acked now /\ Sync.nxt acked = Sync.nxt s
  /\ Sync.una acked = (if Control.flagged v Packet.ack && ((0 <? Control.ackn v ⊟ Sync.una s)
                         && (Control.ackn v ⊟ Sync.una s <=? Sync.nxt s ⊟ Sync.una s))
                       then Control.ackn v else Sync.una s).
Proof.
  destruct open_stream as [St _].
  apply (acknowledgment_moves c s clock now v typed (o_negotiated options) dw); auto. apply St.
Qed.

(** The block after a segment still follows the streams, and a segment it hands over
    has its text inside the window. *)
Lemma arrived_stream :
  stream arrived.2 acked r w now
  /\ (carries_data (Control.event arrived.1) = true ->
      hears (Control.state_ arrived.2) = true
      /\ exists d, Control.seq v = Control.receive_next_ arrived.2 ⊞ d /\ - two30 < d
         /\ d + size (Packet.payload v) <= Control.receive_window_ arrived.2).
Proof.
  destruct open_stream as [St _]. destruct acked_facts as (Y & Ex & Eu). pose proof Hs as [W _ _ _ _].
  destruct (st_phase _ _ _ _ _ St) as [L|Ec].
  - pose proof (segment_moved (control_ c) v now L iss (Some dw)) as M.
    split; [now apply (arrival_stream (control_ c) arrived.2 (Control.event arrived.1) s acked r w v (Offers.sack_blocks typed) clock now)|].
    intros Hd. destruct (mv_data _ _ _ _ M Hd) as (Hok & He & E1 & E2 & E3 & _).
    pose proof (segment_length_bounds v (ts_text _ _ T)) as [Hlen Hpos]. specialize (Hpos (or_introl He)).
    pose proof (st_range _ _ _ _ _ St) as Hw. pose proof (Control.wf_receive_next _ W) as In.
    rewrite E1, E2, (mv_window _ _ _ _ M).
    assert (peer_done (Control.state_ (control_ c)) = false) as Hpd.
    { apply not_true_is_false. intros Hpd. pose proof R as R'. unfold respectful in R'. rewrite Hpd in R'.
      rewrite (done_unacceptable (control_ c) v (ts_sequence _ _ T) In ltac:(lia) Hw R') in Hok. discriminate. }
    split; [apply late_cases in L; destruct L; congruence|].
    pose proof R as R'. unfold respectful in R'. rewrite Hpd in R'.
    apply (text_inside (control_ c) v); auto; apply T.
  - assert (arrived.2 = control_ c /\ Control.event arrived.1 = Control.Event.none) as [-> ->].
    { unfold Control.on_segment. rewrite Ec. case_if; [done|]. unfold Control.reset_for. repeat case_if; done. }
    split; [|discriminate]. destruct St. constructor; rewrite ?Ec; auto; try done.
Qed.

Lemma receive_stream_inv :
  let x := receive_stream c s r w v typed options arrived.2 arrived.1 dw output now in
  inv x.2 now /\ status x.1.1 <> payload_requires_stream_owner.
Proof.
  destruct open_stream as [_ Hsome]. destruct arrived_stream as [St Hd]. destruct arrived_wf as [W' Iw'].
  destruct Hs as [_ _ Hpr Hneg _].
  assert (exists st r', (if carries_data (Control.event arrived.1) then receive_data arrived.2 r w (delayed_ack_ c) v now
      else (Some (mkStream arrived.2 r w
             (if Control.flagged v Packet.fin && Control.emit arrived.1
              then Delay.request_immediate (delayed_ack_ c) now else delayed_ack_ c) arrived.1), r)) = (Some st, r')
    /\ Control.wf (s_control st) /\ is_u32 (Control.send_window_ (s_control st))
    /\ stream (s_control st) acked (s_receiver st) (s_window st) now) as (st & r' & E & Wk & Iwk & Sk).
  { destruct (carries_data _).
    - destruct (Hd eq_refl) as (Hh & d & Eq & Hd1 & Hd2).
      destruct (receive_taken arrived.2 acked r w (delayed_ack_ c) v now now d W' St Hh Eq Hd1 Hd2) as (st & r' & E & Wk & Eww & Sk).
      exists st, r'. split_and!; auto. now rewrite Eww.
    - eexists _, r. split; [reflexivity|]. auto. }
  unfold receive_stream.
  match goal with |- context [let (_, _) := ?e in _] => replace e with (Some st, r') by (symmetry; exact E) end.
  clear E.
  set (c' := c <| control_ := s_control st |> <| sender_ := Some acked |> <| receiver_ := Some (s_receiver st) |>
               <| receive_window_ := Some (s_window st) |> <| delayed_ack_ := s_delayed st |>
               <| timestamps_ := o_timestamps options |> <| timestamp_state_present_ := o_present options |>).
  assert (sound_now c' now) as Sc by (constructor; auto; cbn; [congruence|]; now split).
  assert (pending_ c' = None) as Hp' by exact Hp.
  assert (fixed c') as Hf' by exact Hf. assert (0 <= now) as Hn0 by lia.
  case_if.
  - split; [|done]. now apply idle_inv.
  - split; [now apply stage_control_inv|now apply stage_status].
Qed.
End Receive.

(** Before the streams exist, a segment keeps the window and opens an empty flight. *)
Lemma early_segment p k v iss now w : Control.wf k -> is_u32 (Control.ackn v) -> early p k -> early p (Control.on_segment k v iss now w).2.
Proof.
  intros W Ia [H1 H2]. pose proof (Control.wf_phase _ W) as Ph. unfold Control.phase in Ph.
  apply (Control.on_segment_elim (early p)); [now constructor|constructor; [exact H1|done]|..].
  - intros Es. rewrite Es in Ph. destruct Ph as (_ & Eu & En & _). apply Control.on_syn_sent_elim.
    + constructor; [exact H1|]. rewrite Es. done.
    + constructor; [exact H1|done].
    + rewrite !andb_true_iff. intros [[_ Ha] Hb] _. rewrite Control.acknowledge_control_spec.
      assert (Control.ackn v = Control.send_next_ k) as E.
      { rewrite En in *. revert Ha Hb. unfold Sequence.after, Sequence.before_or_equal, Sequence.before, Sequence.half_space.
        rewrite orb_true_iff, !andb_true_iff, !negb_true_iff, Z.eqb_eq, !Z.eqb_neq, !Z.ltb_lt.
        pose proof (Control.wf_una _ W) as Iu. rewrite Eu in Iu. clear -Ia Iu. word. }
      case_if; (constructor; [exact H1|intros _; exact E]).
    + intros _ _. constructor; [exact H1|done].
  - intros Hsy. apply Control.on_synchronized_elim; [now constructor|..].
    + intros _. constructor; [exact H1|done].
    + intros _ _. split; [intros _ _|]; constructor; auto; done.
    + intros k' b _ Ek. destruct (Control.process_ack_spec _ _ _ _ _ _ Ek) as (K & Eb & Es & Eu & Hadv & _).
      pose proof (Control.kept_next _ _ K) as En. pose proof (Control.kept_receive_window _ _ K) as Ew.
      assert (forall x, Control.receive_window_ x = Control.receive_window_ k' -> Control.state_ x <> Control.established -> early p x) as Hx
        by (intros x Ex Hne; constructor; [congruence|intros E; now apply Hne in E]).
      assert (forall x, early p x -> early p (Control.accept_peer_fin x now).2) as Hfin.
      { intros x [E1 E2]. destruct (Control.accept_peer_fin_spec x now) as (Kx & _ & Ef & _).
        constructor; [rewrite (Control.kept_receive_window _ _ Kx); exact E1|]. rewrite Ef. intros E.
        exfalso. destruct (Control.state_ x); try discriminate. revert E. now case_if. }
      assert (early p k') as Hk.
      { constructor; [congruence|]. rewrite Es, En, Eu. destruct b.
        - intros _. rewrite (Hadv eq_refl). symmetry in Eb. apply Control.state_is_spec in Eb. rewrite Eb in Ph.
          destruct Ph as (_ & Eu0 & En0 & _). specialize (Hadv eq_refl). unfold Control.advances in Hadv. revert Hadv.
          rewrite Eu0, En0. unfold Sequence.acknowledgment_advances, Sequence.after, Sequence.before_or_equal, Sequence.before, Sequence.half_space.
          rewrite andb_true_iff, orb_true_iff, !andb_true_iff, !negb_true_iff, Z.eqb_eq, !Z.eqb_neq, !Z.ltb_lt.
          pose proof (Control.wf_una _ W) as Iu. rewrite Eu0 in Iu. clear -Ia Iu. word.
        - intros E. specialize (H2 E). destruct (Control.advances k v) eqn:Ea; [|exact H2]. exfalso. revert Ea.
          unfold Control.advances, Sequence.acknowledgment_advances, Sequence.after, Sequence.before_or_equal, Sequence.before, Sequence.half_space.
          rewrite H2, andb_true_iff, orb_true_iff, !andb_true_iff, !negb_true_iff, Z.eqb_eq, !Z.eqb_neq, !Z.ltb_lt.
          pose proof (Control.wf_next _ W) as In. clear -Ia In. word. }
      apply Control.after_ack_elim.
      * intros _ _. split; [|intros _; apply Hfin]; now apply Hx.
      * intros _ _. now apply Hx.
      * intros _ _. now apply Hx.
      * intros _. split; [exact Hk|intros _; now apply Hfin].
Qed.

(** ** Options *)

Lemma negotiate_sound c local typed q now :
  typed_options typed ->
  let o := negotiate c local typed q now in
  o_present o = stamped (o_negotiated o) /\ (forall n, o_negotiated o = Some n -> 0 <= Offers.send_mss n < 65536).
Proof.
  intros T. cbn. split; [done|]. intros n [= <-]. cbn.
  destruct (Offers.maximum_segment_size typed) as [m|] eqn:E; [now apply (to_mss typed)|].
  cbn. unfold Offers.default_send_mss. destruct (family (tuple_ c)); lia.
Qed.

Section ReceiveOptions.
Context (c : t) (clock now : Z) (v : Packet.View) (typed : Offers.TypedOptions)
  (Hs : sound_now c clock) (T : typed_options typed).

Lemma options_sound :
  let o := (receive_options c v typed now).2 in
  o_present o = stamped (o_negotiated o) /\ (forall n, o_negotiated o = Some n -> 0 <= Offers.send_mss n < 65536).
Proof.
  destruct Hs as [_ _ Hp Hn _]. unfold receive_options. case_if; [now apply negotiate_sound|].
  destruct (if _ && _ then local_syn_offer_ c else None); [now apply negotiate_sound|].
  case_if; [destruct (Stamps.accept _ _ _ _ _)|]; (split; [cbn; congruence|exact Hn]).
Qed.

Lemma options_kept :
  Control.state_ (control_ c) <> Control.listen -> Control.state_ (control_ c) <> Control.syn_sent ->
  let o := (receive_options c v typed now).2 in
  o_negotiated o = negotiated_ c /\ o_present o = timestamp_state_present_ c.
Proof.
  intros H1 H2. unfold receive_options, state.
  destruct (Control.state_is (Control.state_ (control_ c)) Control.listen) eqn:E1; [now apply Control.state_is_spec in E1|].
  destruct (Control.state_is (Control.state_ (control_ c)) Control.syn_sent) eqn:E2; [now apply Control.state_is_spec in E2|].
  rewrite !andb_false_r. case_if; [|now split]. destruct (Stamps.accept _ _ _ _ _). now split.
Qed.

Lemma stale_kept o : receive_options c v typed now = (Stamps.stale, o) ->
  o_negotiated o = negotiated_ c.
Proof.
  unfold receive_options. case_if; [done|]. destruct (if _ && _ then local_syn_offer_ c else None); [done|].
  case_if; [|done]. destruct (Stamps.accept _ _ _ _ _). now intros [= _ <-].
Qed.
End ReceiveOptions.

(** ** The operations *)

Lemma unavailable_none c : unavailable c = None -> valid_ c = true /\ pending_ c = None.
Proof. unfold unavailable. destruct (valid_ c), (pending_ c); cbn; try done. Qed.

Lemma unavailable_status c u : unavailable c = Some u -> u <> payload_requires_stream_owner.
Proof. unfold unavailable. repeat case_if; congruence. Qed.

Lemma inv_later c clock now : inv c clock -> clock <= now -> inv c now.
Proof.
  intros [H0 H1 H2 H3] Hn. constructor; auto; [lia|exact (sound_later _ _ _ _ _ _ _ _ _ H2 Hn)|].
  destruct (pending_ c); [now apply staged_later with clock|done].
Qed.

(** The three shapes of the parts. *)
Lemma sound_streams c clock :
  sound_now c clock ->
  (exists s r w, sender_ c = Some s /\ receiver_ c = Some r /\ receive_window_ c = Some w
     /\ stream (control_ c) s r w clock /\ is_some (negotiated_ c) = true)
  \/ sender_ c = None /\ receiver_ c = None /\ receive_window_ c = None /\ early (policy_ c) (control_ c).
Proof.
  intros [_ _ _ _ H]. unfold parts in H.
  destruct (sender_ c) as [s|], (receiver_ c) as [r|], (receive_window_ c) as [w|]; try done; [left|now right].
  exists s, r, w. destruct H. now split_and!.
Qed.

Lemma parsed_segment c bytes v typed :
  Forall is_u8 bytes -> parse c bytes = Some v -> Offers.parse_typed_options (Packet.options v) = Some typed ->
  typed_segment v (Offers.sack_blocks typed) /\ typed_options typed.
Proof.
  intros Hb Hp Ht.
  assert (Packet.parse_shape bytes = Some v /\ size bytes <= 65535) as [Hs Hl].
  { revert Hp. unfold parse. destruct (family (tuple_ c)); unfold Packet.parse_ipv4, Packet.parse_ipv6, Packet.parse_with;
      case_if; try done; destruct (Packet.parse_shape bytes) as [x|]; try done; cbn; case_if; try done; intros [= <-];
      (split; [done|]); unfold Packet.maximum_ipv4_segment_octets, Packet.maximum_ipv6_segment_octets in *; lia. }
  destruct (parse_words bytes v Hb Hs) as (Iq & Ia & Iw & Ho & Hsize).
  pose proof (parse_options_typed _ _ Ho Ht) as T. split; [|done].
  constructor; auto; [lia|apply T].
Qed.

Lemma decoded_window_word neg wire syn : is_u16 wire ->
  is_u32 (match neg with Some n => Offers.decode_peer_window wire syn n | None => wire end).
Proof.
  intros H. assert (is_u32 wire) by (unfold is_u16, is_u32 in *; lia).
  destruct neg as [n|]; [|done]. unfold Offers.decode_peer_window. case_if; [done|]. apply u32_range.
Qed.

(** What the peer and the owner guarantee when a segment arrives. *)
Definition ingress_ok (c : t) (bytes : list Z) (iss : Z) : Prop :=
  Forall is_u8 bytes /\ is_u32 iss
  /\ forall v, parse c bytes = Some v -> is_some (sender_ c) = true -> respectful (control_ c) v = true.

Lemma ingress_inv c clock now bytes iss output :
  inv c clock -> clock <= now -> ingress_ok c bytes iss ->
  let x := prepare_ingress c bytes iss output now in
  inv x.2 now /\ status x.1.1 <> payload_requires_stream_owner.
Proof.
  intros Hinv Hn (Hb & Ii & Hr). pose proof (inv_later c clock now Hinv Hn) as Hlater.
  destruct Hinv as [H0 Hf Hs _]. pose proof (iv_clock _ _ Hlater) as H0'. pose proof (iv_sound _ _ Hlater) as Hs'.
  unfold prepare_ingress.
  destruct (unavailable c) as [u|] eqn:Eu.
  { split; [exact Hlater|]. now apply (unavailable_status c). }
  destruct (unavailable_none c Eu) as [V Hp].
  destruct (parse c bytes) as [v|] eqn:Ev; [|now split].
  cbn [mbind option_bind]. destruct (Offers.parse_typed_options (Packet.options v)) as [typed|] eqn:Et; [|now split].
  destruct (parsed_segment c bytes v typed Hb Ev Et) as [T To].
  cbn [mbind option_bind]. pose proof (options_sound c clock now v typed Hs To) as [Op On].
  pose proof (options_kept c now v typed) as Ok. pose proof (stale_kept c now v typed) as Os.
  destruct (receive_options c v typed now) as [accepted options]. cbn [snd] in *.
  destruct accepted; [|now split|].
  2:{ specialize (Os options eq_refl). split; [|now apply stage_status]. apply stage_inv; auto.
      rewrite Os. exact Hs'. }
  set (dw := match o_negotiated options with Some n => _ | None => _ end).
  assert (is_u32 dw) as Id by (unfold dw; apply decoded_window_word, T).
  destruct (sound_streams c clock Hs) as [(s & r & w & Es & Er & Ew & St & Hsome)|(Es & Er & Ew & Ea)].
  - assert (Control.state_ (control_ c) <> Control.listen /\ Control.state_ (control_ c) <> Control.syn_sent
      /\ Control.state_ (control_ c) <> Control.syn_received) as (N1 & N2 & N3).
    { destruct (st_phase _ _ _ _ _ St) as [L|L]; [apply late_cases in L; destruct (Control.state_ (control_ c)), L; done|].
      rewrite L. done. }
    destruct (Ok N1 N2) as [On' Op'].
    assert (is_stream c = true) as Hst.
    { unfold is_stream, state. rewrite Es, Er, Ew. destruct (Control.state_ (control_ c)); done. }
    pose proof (receive_stream_inv c s r w v typed options iss dw clock now output H0 Hf Hp Hn Es Er Ew Hs T Id Ii
      (Hr v eq_refl ltac:(now rewrite Es)) Op') as G.
    destruct (Control.on_segment (control_ c) v iss now (Some dw)) as [result candidate]. cbn [fst snd] in G.
    rewrite Es, Er, Ew, Hst. exact G.
  - destruct (arrived_wf c v typed iss dw clock now Hs T Id Ii) as [W' Iw'].
    pose proof (early_segment (policy_ c) (control_ c) v iss now (Some dw) (sd_control _ _ _ _ _ _ _ _ Hs) (ts_ack _ _ T) Ea) as Ea'.
    destruct (Control.on_segment (control_ c) v iss now (Some dw)) as [result candidate]. cbn [snd] in *.
    rewrite Es. split; [|now apply stage_status]. apply stage_inv; auto.
    constructor; auto. unfold parts. now rewrite Es, Er, Ew.
Qed.

(** *** The streams are created *)

Lemma effective_range neg mms header n :
  0 <= neg < 65536 -> Offers.effective_send_mss neg mms header n <> 0 -> header = 20 \/ header = 32 -> n = 0 ->
  0 < Offers.effective_send_mss neg mms header n < 65536.
Proof.
  intros Hn H Hh ->. unfold Offers.effective_send_mss, Packet.minimum_header_octets in *. repeat case_if; try done; lia.
Qed.

Lemma effective_word neg mms header : is_u32 mms -> 20 <= header -> is_u32 (Offers.effective_send_mss neg mms header 0).
Proof. unfold Offers.effective_send_mss, is_u32. intros. repeat case_if; lia. Qed.

(** A sender that reports itself valid is one. *)
Lemma constructed_sender storage history ranges workspace isn mss neg window now :
  Send.valid_ (Send.construct storage history ranges workspace isn mss) = true ->
  is_u32 isn -> 0 < mss < 65536 -> 0 <= now -> is_u32 window ->
  let s := Send.update_receiver_window
             (Send.set_sack_enabled (Send.construct storage history ranges workspace isn mss) neg) window now in
  Sync.synced s now /\ Sync.una s = isn /\ Sync.nxt s = isn.
Proof.
  intros V Ii Hm Hn Iw s.
  assert (0 < size storage <= two30 /\ history <> [] /\ ranges <> [] /\ length ranges = length workspace) as (H1 & H2 & H3 & H4).
  { revert V. unfold Send.construct. destruct (_ && _ && _ && _) eqn:E; [|discriminate]. intros _. revert E. cbn.
    rewrite !andb_true_iff, !negb_true_iff, !Z.eqb_neq, Z.leb_le, Z.eqb_eq. unfold size. intros H.
    split_and!; [lia..|intros ->; cbn in H; lia|intros ->; cbn in H; lia|lia]. }
  pose proof (Sync.construct_synced storage history ranges workspace isn mss now H1 H2 H3 H4 Ii Hm Hn) as Y.
  set (x := Send.construct storage history ranges workspace isn mss) in *.
  assert (Send.Congested.sack_recovery_ (Send.congestion_ x) = false) as Hc
    by (unfold x, Send.construct; case_if; [destruct (Send.Scoreboard.reset _ _ _)|]; reflexivity).
  assert (Send.Bytes.send_unacknowledged_ (Send.bytes_ x) = isn /\ Send.Bytes.send_next_ (Send.bytes_ x) = isn) as [Eu En]
    by (unfold x, Send.construct; case_if; [destruct (Send.Scoreboard.reset _ _ _)|]; done).
  pose proof (Sync.sack_switch_synced x now Y neg Hc) as Y2.
  pose proof (Sync.window_synced _ now now Y2 ltac:(lia) window Iw) as Y3.
  split; [exact Y3|]. unfold Sync.una, Sync.nxt, s. now rewrite Frame.window_keeps, Frame.switch_keeps.
Qed.

Lemma invalid_sender x neg window now :
  Send.valid_ x = false -> Send.valid_ (Send.update_receiver_window (Send.set_sack_enabled x neg) window now) = false.
Proof.
  intros V. assert (Send.set_sack_enabled x neg = x) as -> by (unfold Send.set_sack_enabled; now rewrite V).
  unfold Send.update_receiver_window. now rewrite V.
Qed.

Lemma initialize_sound c now :
  0 <= now -> fixed c -> sound_now c now -> sound_now (initialize_stream c now) now /\ fixed (initialize_stream c now).
Proof.
  intros Hn Hf Hs. unfold initialize_stream. destruct (negotiated_ c) as [n|] eqn:En; [|now split].
  destruct (negb _ || _) eqn:Eg; [now split|]. apply orb_false_iff in Eg as [Est Esn].
  apply negb_false_iff, Control.state_is_spec in Est. unfold state in Est.
  destruct (sound_streams c now Hs) as [(s & _ & _ & Es & _)|(Es & Er & Ew & Ea)]; [now rewrite Es in Esn|].
  pose proof Hs as [W Iw Hp Hall _]. pose proof (Hall n En) as Hneg.
  set (header := Packet.minimum_header_octets + _). set (mss := Offers.effective_send_mss _ _ header 0).
  destruct (Z.eqb_spec mss 0) as [E0|Hm0]; [now split|].
  assert (0 < mss < 65536) as Hm.
  { apply effective_range; auto. unfold header, Packet.minimum_header_octets. case_if; auto. }
  set (k := storage_ c) in *. cbv zeta. set (x := Send.construct _ _ _ _ _ mss).
  set (sender := Send.update_receiver_window _ _ _). set (receiver := Receiver.construct _ _ _).
  set (window := Window.construct _ mss).
  destruct (negb _ || _ || _) eqn:Ev.
  { split; [|exact Hf]. now constructor. }
  apply orb_false_iff in Ev as [[Vs Vr]%orb_false_iff Vw]. apply negb_false_iff in Vs, Vr, Vw.
  assert (Send.valid_ x = true) as Vx
    by (destruct (Send.valid_ x) eqn:V; [done|]; unfold sender in Vs; now rewrite invalid_sender in Vs).
  destruct (constructed_sender _ _ _ _ _ _ (Offers.sack n) (Control.send_window_ (control_ c)) now Vx
    (Control.wf_next _ W) Hm Hn Iw) as (Y & Eu & Ex). fold x in Y, Eu, Ex. fold sender in Y, Eu, Ex.
  assert (0 < size (receive_bytes k) <= two30 /\ size (receive_bitmap k) = (size (receive_bytes k) + 7) / 8) as [Hrs Hrb].
  { revert Vr. cbn. rewrite !andb_true_iff, negb_true_iff. unfold size. lia. }
  destruct (Receiver.receive_wf_construct _ _ _ Hrs Hrb (Control.wf_receive_next _ W)) as (_ & _ & Epx & _).
  pose proof (Receiver.receive_live_construct _ _ _ Hrs Hrb (Control.wf_receive_next _ W)) as Lr.
  fold receiver in Epx, Lr.
  assert (Window.wf window) as Ww
    by (apply Window.receive_window_wf_construct; [rewrite u32_id by (unfold is_u32; lia); exact Hrs|lia]).
  assert (size (Receiver.storage_ receiver) = size (receive_bytes k)) as Esz.
  { unfold receiver. cbn. case_if; [|done]. unfold size. now rewrite length_replicate. }
  assert (Window.advertised window = size (receive_bytes k)) as Ead
    by (unfold Window.advertised; rewrite Vw; cbn; now rewrite u32_id by (unfold is_u32; lia)).
  assert (receive_capacity (policy_ c) = size (receive_bytes k)) as Ecap.
  { destruct Hf as (_ & Hst & _). unfold storage_valid in Hst. apply andb_true_iff in Hst as [_ Hst]. now apply Z.eqb_eq in Hst. }
  assert (Control.local_fin_sent_ (control_ c) = false) as Hfin by (pose proof (Control.wf_phase _ W) as Ph; unfold Control.phase in Ph; rewrite Est in Ph; tauto).
  split; [|exact Hf]. constructor; auto. cbn [policy_ control_ sender_ receiver_ receive_window_ negotiated_ set_field parts].
  split; [|now rewrite En]. destruct Ea as [Ea1 Ea2]. specialize (Ea2 Est).
  constructor; auto; rewrite ?Est, ?Eu, ?Ex, ?Hfin; auto; try discriminate.
  - split; [|split].
    + rewrite Esz. apply u32_id. unfold is_u32. lia.
    + rewrite Epx, Ead, Esz. lia.
    + intros o. rewrite Epx, Ead, Esz. lia.
  - left. rewrite late_cases, Est. now left.
  - rewrite Ea1, Ecap. lia.
  - intros _ _. rewrite Ea2, wsub_diag. done.
  - intros _. split; [reflexivity|]. now rewrite Ead, Ea1.
Qed.

(** *** Commit and discard *)

Lemma share_option_same o : share_option o o = o.
Proof. destruct o; [|done]. cbn. now rewrite share_same. Qed.

Lemma publish_inv c p s now :
  0 <= now -> fixed c -> sound_after c p s now ->
  let c' := c <| control_ := p_control p |> <| local_syn_offer_ := p_local_syn_offer p |>
              <| peer_syn_options_ := p_peer_syn_options p |> <| negotiated_ := p_negotiated p |>
              <| timestamps_ := p_timestamps p |> <| sender_ := s |>
              <| timestamp_state_present_ := p_timestamp_state_present p |> in
  sound_now (initialize_stream c' now) now /\ fixed (initialize_stream c' now).
Proof. intros H0 Hf Hs c'. now apply initialize_sound. Qed.

Lemma finish_inv (acks : bool) c now :
  0 <= now -> sound_now c now /\ fixed c ->
  inv ((if acks then c <| delayed_ack_ := Delay.acknowledge_committed (delayed_ack_ c) |> else c) <| pending_ := None |>) now.
Proof. intros H0 [Hs Hf]. destruct acks; now constructor. Qed.

Lemma commit_inv c clock now q : inv c clock -> clock <= now -> inv (commit c q now).2 now.
Proof.
  intros Hinv Hn. pose proof (inv_later c clock now Hinv Hn) as Hlater. destruct Hlater as [H0 Hf Hs Hp].
  assert (inv c now) as Hlater by now constructor. unfold commit.
  destruct (pending_ c) as [p|] eqn:Ep; [|exact Hlater]. case_if; [exact Hlater|].
  set (acks := p_emitted p && _).
  set (p1 := if acks && p_timestamp_state_present p then _ else p).
  destruct Hp as [G1 G2 G3 G4].
  assert (p_sender p1 = p_sender p /\ p_control p1 = p_control p /\ p_negotiated p1 = p_negotiated p
    /\ p_timestamp_state_present p1 = p_timestamp_state_present p
    /\ p_sender_transmission_present p1 = p_sender_transmission_present p
    /\ p_sender_transmission p1 = p_sender_transmission p /\ p_token p1 = p_token p)
    as (Q1 & Q2 & Q3 & Q4 & Q5 & Q6 & Q7) by (unfold p1; case_if; now split_and!).
  clearbody p1.
  replace (share_option (sender_ c) (p_sender p1)) with (sender_ c) by (rewrite Q1, G1; symmetry; apply share_option_same).
  set (p2 := p1 <| p_sender := sender_ c |>).
  change (p_sender_transmission_present p2) with (p_sender_transmission_present p1).
  change (p_sender_transmission p2) with (p_sender_transmission p1).
  change (p_sender p2) with (sender_ c). rewrite Q5, Q6.
  assert (forall p3 s, p_control p3 = p_control p -> p_negotiated p3 = p_negotiated p ->
    p_timestamp_state_present p3 = p_timestamp_state_present p -> p_sender p3 = s ->
    sound_after c p s now -> sound_after c p3 (p_sender p3) now) as Hpub.
  { intros p3 s E1' E2' E3' E4' H. unfold sound_after in *. now rewrite E1', E2', E3', E4'. }
  destruct (p_sender_transmission_present p) eqn:Epr.
  - destruct (G4 eq_refl) as (s & Es & Hsh & Hc). rewrite Es.
    destruct (Send.commit s (p_sender_transmission p) now) as [[] s'] eqn:Ec; cbn [negb snd].
    + apply finish_inv; [done|]. set (p3 := p2 <| p_sender := Some s' |>).
      apply (publish_inv c p3 (p_sender p3) now H0 Hf), (Hpub p3 (Some s')); auto. now apply (Hc now).
    + assert (s' = s) as ->.
      { destruct (sound_streams c now Hs) as [(s0 & r0 & w0 & Es' & _ & _ & St & _)|(Es' & _)]; [|congruence].
        rewrite Es in Es'. injection Es' as <-.
        pose proof (Sync.commit_outcome s now _ now (st_sender _ _ _ _ _ St) ltac:(lia) Hsh) as Ho. rewrite Ec in Ho.
        destruct (Sync.ready _ _ _); [now destruct Ho as (? & ? & _)|congruence]. }
      change (share_option (p_sender (p2 <| p_sender := Some s |>)) (Some s)) with (Some (share s s)). rewrite share_same.
      constructor; [done|exact Hf|unfold sound_now in *; rewrite Es in Hs; exact Hs|].
      constructor; [reflexivity| | |].
      * change (p_token p1 <> 0). congruence.
      * intros E'. change (p_sender_transmission_present (p2 <| p_sender := Some s |>)) with (p_sender_transmission_present p1) in E'. congruence.
      * intros _. exists s. split; [reflexivity|].
        change (p_sender_transmission (p2 <| p_sender := Some s |>)) with (p_sender_transmission p1). rewrite Q6.
        split; [exact Hsh|]. intros t s' Ht Hct. specialize (Hc t s' Ht Hct). revert Hc. unfold sound_after.
        change (p_control (p2 <| p_sender := Some s |>)) with (p_control p1).
        change (p_negotiated (p2 <| p_sender := Some s |>)) with (p_negotiated p1).
        change (p_timestamp_state_present (p2 <| p_sender := Some s |>)) with (p_timestamp_state_present p1).
        rewrite Q2, Q3, Q4. exact id.
  - cbn [negb snd]. apply finish_inv; [done|]. apply (publish_inv c p2 (p_sender p2) now H0 Hf), (Hpub p2 (sender_ c)); auto.
Qed.

Lemma discard_inv c clock now q : inv c clock -> clock <= now -> inv (discard c q).2 now.
Proof.
  intros Hinv Hn. pose proof (inv_later c clock now Hinv Hn) as Hl. unfold discard.
  destruct (pending_ c) as [p|] eqn:Ep; [|exact Hl]. case_if; [exact Hl|]. destruct Hl. now constructor.
Qed.

(** *** Opening, closing, deadlines *)

(** An object is opened once. *)
Definition unused (c : t) : Prop := sender_ c = None /\ Control.local_fin_sent_ (control_ c) = false.

Lemma early_sound c clock k present negotiated :
  sound_now c clock -> sender_ c = None -> Control.wf k -> is_u32 (Control.send_window_ k) ->
  Control.receive_window_ k = Control.receive_window_ (control_ c) -> Control.state_ k <> Control.established ->
  present = stamped negotiated -> (forall n, negotiated = Some n -> 0 <= Offers.send_mss n < 65536) ->
  sound (policy_ c) k (sender_ c) (receiver_ c) (receive_window_ c) negotiated present clock.
Proof.
  intros Hs Hn W Iw Ew Es Hp Hneg.
  destruct (sound_streams c clock Hs) as [(s & _ & _ & E & _)|(E1 & E2 & E3 & [Ea _])]; [congruence|].
  constructor; auto. rewrite E1, E2, E3. constructor; [congruence|done].
Qed.

Lemma listen_inv c clock now : inv c clock -> clock <= now -> unused c -> inv (listen c).2 now.
Proof.
  intros Hinv Hn [Hu Hfin]. pose proof (inv_later c clock now Hinv Hn) as Hl. unfold listen.
  destruct (negb (valid_ c) || is_some (pending_ c)) eqn:Eg; [exact Hl|].
  apply orb_false_iff in Eg as [_ Hp]. destruct Hl as [H0 Hf Hs _]. pose proof Hs as [W Iw Hpr Hneg _].
  pose proof (Control.wf_perform (control_ c) Control.PassiveOpen W Hfin) as Wk. cbn [Control.perform] in Wk.
  assert (sound (policy_ c) (Control.passive_open (control_ c)).2 (sender_ c) (receiver_ c) (receive_window_ c)
            (negotiated_ c) (timestamp_state_present_ c) now) as Hk.
  { unfold Control.passive_open in *. case_if; [exact Hs|]. apply early_sound; auto; done. }
  destruct (Control.passive_open (control_ c)) as [result k]. cbn [snd] in *.
  constructor; auto. destruct (pending_ c) eqn:E; [done|]. cbn. now rewrite E.
Qed.

Lemma active_open_inv c clock now iss output :
  inv c clock -> clock <= now -> unused c -> is_u32 iss -> inv (prepare_active_open c iss output now).2 now.
Proof.
  intros Hinv Hn [Hu Hfin] Hi. pose proof (inv_later c clock now Hinv Hn) as Hl. unfold prepare_active_open.
  destruct (unavailable c) eqn:Eu; [exact Hl|]. apply unavailable_none in Eu as [_ Hp].
  pose proof Hl as [H0 Hf Hs _]. pose proof Hs as [W Iw _ _ _].
  pose proof (Control.wf_perform (control_ c) (Control.ActiveOpen iss now) W (conj Hfin Hi)) as Wk. cbn [Control.perform] in Wk.
  unfold Control.active_open in *. case_if; cbn [snd fst Control.emit Control.send Control.nothing negb] in *; [exact Hl|].
  apply stage_inv; auto. apply early_sound; auto; done.
Qed.

Lemma close_inv c clock now output : inv c clock -> clock <= now -> inv (prepare_close c output now).2 now.
Proof.
  intros Hinv Hn. pose proof (inv_later c clock now Hinv Hn) as Hl. unfold prepare_close.
  destruct (unavailable c) eqn:Eu; [exact Hl|]. apply unavailable_none in Eu as [_ Hp].
  pose proof Hl as [H0 Hf Hs _]. pose proof (close_sound _ _ _ _ _ _ _ _ now Hs) as Hk.
  destruct (Control.close (control_ c) now) as [result k]. cbn [snd] in Hk.
  case_if; [exact Hl|]. now apply stage_control_inv.
Qed.

(** *** Data *)

(** The control block is not too far behind the sender's SND.UNA. *)
Definition close_behind (c : t) : Prop :=
  forall s, sender_ c = Some s -> talks (state c) = true ->
  lag (control_ c) s + size (Send.Bytes.storage_ (Send.bytes_ s)) <= two30.

Lemma copy_current s tx n payload :
  Send.copy s tx n = Some payload -> Send.Bytes.range_is_current (Send.bytes_ s) (Send.range tx) = true.
Proof.
  unfold Send.copy, Send.Bytes.copy. case_if; [|done]. destruct (Send.Bytes.range_is_current _ _); done.
Qed.

(** What an attempt leaves: the sender with other timers, and a transmission. *)
Record attempted (s0 : Send.t) (now : Z) (x : Send.PreparedTransmission * Send.t) : Prop := mkAttempted {
  at_bytes : Send.bytes_ x.2 = Send.bytes_ s0;
  at_synced : Sync.synced x.2 now;
  at_shaped : Sync.shaped x.1
}.

Lemma or_try_attempted s0 now x next :
  attempted s0 now x ->
  (forall s, Send.bytes_ s = Send.bytes_ s0 -> Sync.synced s now -> attempted s0 now (next s)) ->
  attempted s0 now (or_try x next).
Proof. intros Hx Hnext. unfold or_try. case_if; [exact Hx|]. apply Hnext; apply Hx. Qed.

Section Attempts.
Context (s0 s : Send.t) (now : Z) (pushed : bool) (E : Send.bytes_ s = Send.bytes_ s0) (Y : Sync.synced s now).

Lemma attempt_new : attempted s0 now (Send.prepare_new s now pushed).
Proof.
  destruct (Sync.prepare_new_synced s now now Y pushed) as [H1 H2].
  constructor; [now rewrite Frame.prepare_new_keeps|exact H2|exact H1].
Qed.

Lemma attempt_probe : attempted s0 now (Send.prepare_persist_probe s now).
Proof.
  destruct (Sync.prepare_probe_synced s now now Y) as [H1 H2].
  constructor; [now rewrite Frame.prepare_probe_keeps|exact H2|exact H1].
Qed.

Lemma attempt_fast : attempted s0 now (Send.prepare_fast_retransmission s, s).
Proof. constructor; [exact E|exact Y|exact (Sync.prepare_fast_shaped s now Y)]. Qed.

Lemma attempt_timeout : attempted s0 now (Send.prepare_timeout_retransmission s now, s).
Proof. constructor; [exact E|exact Y|exact (Sync.prepare_timeout_shaped s now now Y)]. Qed.

Lemma attempt_sack : attempted s0 now (Send.prepare_sack_recovery s now, s).
Proof. constructor; [exact E|exact Y|exact (Sync.prepare_sack_shaped s now now Y)]. Qed.
End Attempts.

(** A sender with the same repository may take the place of the present one. *)
Lemma replaced_sound p k s s' r w n b clock :
  sound p k (Some s) (Some r) (Some w) n b clock -> Send.bytes_ s' = Send.bytes_ s -> Sync.synced s' clock ->
  sound p k (Some s') (Some r) (Some w) n b clock.
Proof.
  intros [W Iw Hp Hn [St Hsome]] E Y. constructor; auto. split; [|done].
  assert (Sync.una s' = Sync.una s /\ Sync.nxt s' = Sync.nxt s) as [Eu Ex] by (unfold Sync.una, Sync.nxt; now rewrite E).
  destruct St. constructor; rewrite ?Eu, ?Ex; auto.
Qed.

Section Transmit.
Context (c : t) (now : Z) (s : Send.t) (r : Receiver.t) (w : Window.t) (x : Send.PreparedTransmission * Send.t)
  (output : list Z) (pushed : bool).
Context (H0 : 0 <= now) (Hf : fixed c) (Hs : sound_now c now) (Hp : pending_ c = None).
Context (Es : sender_ c = Some s) (Er : receiver_ c = Some r) (Ew : receive_window_ c = Some w).
Context (Hlag : close_behind c) (A : attempted s now x).

Abbreviation c1 := (c <| sender_ := Some x.2 |>).

Lemma attempt_sound : sound_now c1 now.
Proof.
  unfold sound_now in *. cbn [policy_ control_ sender_ receiver_ receive_window_ negotiated_ timestamp_state_present_ set_field].
  rewrite Es, Er, Ew in *. apply (replaced_sound _ _ s); auto; apply A.
Qed.

Lemma attempt_inv : inv c1 now.
Proof. apply idle_inv; auto. apply attempt_sound. Qed.

Lemma transmit_inv : inv (transmit c x output pushed now).2 now.
Proof.
  unfold transmit. pose proof attempt_inv as Hinv. pose proof attempt_sound as Hs1. pose proof A as A'.
  clear A. set (tx := x.1) in *. set (s' := x.2) in *.
  case_if; [|exact Hinv]. unfold prepare_sender_transmission. case_if; [exact Hinv|].
  destruct (Send.copy s' tx _) as [payload|] eqn:Ec; [|exact Hinv]. apply copy_current in Ec.
  change (control_ (c <| sender_ := Some s' |>)) with (control_ c).
  destruct (if Send.Bytes.retransmission (Send.range tx) then _ else _) as [[] k] eqn:Ek; [|exact Hinv]. cbn [negb].
  destruct (encode _ _ _ _ _ _ _ _ _) as [[octets out]|]; [|exact Hinv].
  pose proof (token_nonzero (c <| sender_ := Some s' |>)) as Ht. destruct (token_keeps (c <| sender_ := Some s' |>)) as [n En].
  destruct (take_token (c <| sender_ := Some s' |>)) as [token c2]. cbn [fst snd] in Ht, En. subst c2. cbn [snd].
  constructor; [exact H0|exact Hf|exact Hs1|].
  constructor; [reflexivity|exact Ht|discriminate|]. intros _. exists s'. destruct A' as [E1 E2 E3]. fold tx in E3. fold s' in E1, E2.
  split; [reflexivity|]. split; [exact E3|]. intros t s2 Ht' Hc2.
  unfold sound_after. cbn [policy_ receiver_ receive_window_ p_control p_negotiated p_timestamp_state_present set_field].
  unfold sound_now in Hs1. cbn [policy_ control_ sender_ receiver_ receive_window_ negotiated_ timestamp_state_present_ set_field] in Hs1.
  rewrite Er, Ew in *.
  apply (transmission_sound (policy_ c) (control_ c) k s' r w (negotiated_ c) (timestamp_state_present_ c) now t tx s2); auto.
  intros Htalk. specialize (Hlag s Es Htalk). unfold lag, Sync.una in *. now rewrite E1.
Qed.
End Transmit.

Lemma data_inv c clock now output pushed :
  inv c clock -> clock <= now -> close_behind c -> inv (prepare_data c output pushed now).2 now.
Proof.
  intros Hinv Hn Hb. pose proof (inv_later c clock now Hinv Hn) as Hl. unfold prepare_data.
  destruct (unavailable c) eqn:Eu; [exact Hl|]. apply unavailable_none in Eu as [_ Hp].
  pose proof Hl as [H0 Hf Hs _].
  destruct (sound_streams c now Hs) as [(s & r & w & Es & Er & Ew & St & _)|(Es & Er & Ew & _)]; rewrite Es, ?Er, ?Ew; [|exact Hl].
  case_if; [exact Hl|]. apply (transmit_inv c now s r w); auto. pose proof (st_sender _ _ _ _ _ St) as Y.
  repeat (apply or_try_attempted; [|intros; first [now apply attempt_new|now apply attempt_fast]]).
  now apply attempt_sack.
Qed.

Lemma deadline_inv c clock now output :
  inv c clock -> clock <= now -> close_behind c -> inv (prepare_deadline c output now).2 now.
Proof.
  intros Hinv Hn Hb. pose proof (inv_later c clock now Hinv Hn) as Hl. unfold prepare_deadline.
  destruct (unavailable c) eqn:Eu; [exact Hl|]. apply unavailable_none in Eu as [_ Hp].
  pose proof Hl as [H0 Hf Hs _]. case_if; [now apply stage_control_inv|].
  pose proof (service_sound _ _ _ _ _ _ _ _ now Hs) as Hk.
  destruct (Control.service_deadline (control_ c) now) as [result k]. cbn [snd] in Hk.
  case_if; [now apply stage_control_inv|].
  destruct (sound_streams c now Hs) as [(s & r & w & Es & Er & Ew & St & _)|(Es & Er & Ew & _)]; rewrite Es; [|exact Hl].
  apply (transmit_inv c now s r w); auto. pose proof (st_sender _ _ _ _ _ St) as Y.
  repeat (apply or_try_attempted; [|intros; first [now apply attempt_new|now apply attempt_probe]]).
  now apply attempt_timeout.
Qed.

(** *** The application's side *)

Lemma write_inv c clock now bytes :
  inv c clock -> clock <= now -> pending_ c = None -> inv (write c bytes now).2 now.
Proof.
  intros Hinv Hn Hp. pose proof (inv_later c clock now Hinv Hn) as Hl. pose proof Hl as [H0 Hf Hs _]. unfold write.
  destruct (sound_streams c now Hs) as [(s & r & w & Es & Er & Ew & St & Hsome)|(Es & _)]; rewrite Es; [|exact Hl].
  pose proof (st_sender _ _ _ _ _ St) as Y.
  pose proof (Sync.write_synced s now now Y ltac:(lia) bytes) as Y'. destruct (Frame.write_keeps s now bytes now Y) as [Eu Ex].
  destruct (Send.write s bytes now) as [n s']. cbn [snd] in *. apply idle_inv; auto.
  destruct Hs as [W Iw Hpr Hneg _]. constructor; auto.
  cbn [policy_ control_ sender_ receiver_ receive_window_ negotiated_ set_field]. rewrite Er, Ew. split; [|done].
  destruct St. constructor; rewrite ?Eu, ?Ex; auto.
Qed.

Lemma reopened_sound p k s r r' w w' n b now :
  sound p k (Some s) (Some r) (Some w) n b now -> Receiver.live r' ->
  Receiver.receive_next_ r' = Receiver.receive_next_ r -> Window.wf w' -> promise r' w' ->
  sound p (Control.set_receive_window k (Window.advertised w')).2 (Some s) (Some r') (Some w') n b now.
Proof.
  intros [W Iw Hp Hn [St Hsome]] Lr Enx Ww P. pose proof (promise_range r' w' Lr Ww P) as (_ & _ & Hp1 & Ha1 & Hfit1).
  pose proof (Control.wf_perform k (Control.SetWindow (Window.advertised w')) W I) as Wk. cbn [Control.perform] in Wk.
  unfold Control.set_receive_window in *. destruct St.
  destruct (Control.synchronized k) eqn:Esy; cbn [negb snd] in *.
  - constructor; auto. split; [|done]. constructor; cbn; auto; [lia|..]; rewrite ?Enx; auto.
    intros Hh. split; [now apply st_hears0|done].
  - assert (Control.state_ k = Control.closed) as Ecl by (destruct st_phase0 as [[Hs _]|Hc]; [congruence|exact Hc]).
    constructor; auto. split; [|done]. constructor; rewrite ?Ecl; auto; done.
Qed.

Lemma read_inv c clock now n :
  inv c clock -> clock <= now -> pending_ c = None -> 0 <= n -> inv (read c n now).2 now.
Proof.
  intros Hinv Hn Hp Hout. pose proof (inv_later c clock now Hinv Hn) as Hl. pose proof Hl as [H0 Hf Hs _]. unfold read.
  destruct (sound_streams c now Hs) as [(s & r & w & Es & Er & Ew & St & Hsome)|(Es & Er & _)]; rewrite Er, ?Ew; [|exact Hl].
  pose proof St as []. pose proof (read_promised r w n st_receiver0 st_window0 st_promise0 Hout) as R.
  destruct (Receiver.read r n) as [bytes r'].
  destruct (Window.application_space_available w (Receiver.advertised_window r')) as [opened w'].
  destruct R as (Lr & Enx & Ww & P & Ho & P0). destruct Hs as [W Iw Hpr Hneg _].
  assert (sound_now (c <| receiver_ := Some r' |>) now) as S1.
  { constructor; auto. cbn [policy_ control_ sender_ receiver_ receive_window_ negotiated_ set_field]. rewrite Es, Ew.
    split; [|done]. constructor; rewrite ?Enx; auto. }
  case_if; [now apply idle_inv|].
  destruct opened.
  - apply idle_inv; auto.
    unfold sound_now. cbn [policy_ control_ sender_ receiver_ receive_window_ negotiated_ timestamp_state_present_ set_field].
    rewrite Es. apply (reopened_sound _ _ s r r' w); auto. constructor; auto. now split.
  - specialize (Ho eq_refl). subst w'. apply idle_inv; auto.
    destruct S1 as [W1 Iw1 Hpr1 Hneg1 Hparts]. constructor; auto.
    cbn [policy_ control_ sender_ receiver_ receive_window_ negotiated_ set_field] in *. now rewrite Ew in Hparts.
Qed.

Lemma reduce_inv c clock now m :
  inv c clock -> clock <= now -> pending_ c = None -> is_u32 m -> inv (reduce_maximum_transport_message c m).2 now.
Proof.
  intros Hinv Hn Hp Im. pose proof (inv_later c clock now Hinv Hn) as Hl. pose proof Hl as [H0 Hf Hs _].
  unfold reduce_maximum_transport_message. case_if; [exact Hl|]. case_if; [exact Hl|].
  set (mss := Offers.effective_send_mss _ _ _ _).
  assert (forall c', policy_ c' = policy_ c -> storage_ c' = storage_ c -> valid_ c' = valid_ c -> pending_ c' = None ->
    sound_now c' now ->
    inv (c' <| policy_ := (policy_ c') <| maximum_transport_message := m |> |>) now) as Hpub.
  { intros c' Q1 Q2 Q3 Q4 S'. destruct Hf as (Hv & Hst & Hm). constructor; [done| | |].
    - unfold fixed. cbn. rewrite Q2, Q3, Q1. split_and!; auto.
    - destruct S' as [W Iw Hpr Hneg Hparts]. constructor; auto. revert Hparts. cbn. unfold parts.
      destruct (sender_ c'), (receiver_ c'), (receive_window_ c'); auto. intros [Q5 Q6]. now constructor.
    - cbn. now rewrite Q4. }
  destruct (sound_streams c now Hs) as [(s & r & w & Es & Er & Ew & St & Hsome)|(Es & _)]; rewrite Es.
  - destruct (Z.eqb_spec mss 0) as [Hz|Hz]; [exact Hl|].
    assert (is_u32 mss) as I32.
    { unfold mss. apply effective_word; [exact Im|]. unfold Packet.minimum_header_octets. case_if; lia. }
    pose proof (Sync.reduce_mss_synced s now (st_sender _ _ _ _ _ St) mss I32) as Y'.
    pose proof (Frame.reduce_keeps s mss) as Ek.
    destruct (Send.reduce_mss s mss) as [[] s']; cbn [snd] in *.
    all: assert (sound_now (c <| sender_ := Some s' |>) now) as S'
      by (unfold sound_now in *; cbn [policy_ control_ sender_ receiver_ receive_window_ negotiated_ timestamp_state_present_ set_field];
          rewrite Es, Er, Ew in *; now apply (replaced_sound _ _ s)).
    + now apply (Hpub (c <| sender_ := Some s' |>)).
    + now apply idle_inv.
  - now apply Hpub.
Qed.

End ConnectionSync.
