(* ===== verification/ConnectionCalls.v ===== *)
(** * The application's calls during a preparation

    Connection::write, read and reduce_maximum_transport_message do not look at
    [pending_] (tcp_connection.cpp).  What the connection publishes stays coherent
    under them; but a commit publishes the copies the preparation made, so that it
    undoes a call in between that changed the sender or the control block. *)

From S2P Require Import Prelude Catalog Sequence Arena Blocks Packet Options Timers Retransmission Congestion ReceiveWindow ReceiveBuffer SendBuffer ControlBlock Sender SenderSync SenderFrame Connection ConnectionParts ConnectionSync.
Import Arena Blocks.

Module ConnectionCalls.
Import Connection.Connection ConnectionParts.ConnectionParts ConnectionSync.ConnectionSync.
Module Sync := SenderSync.SenderSync.
Module Frame := SenderFrame.SenderFrame.
Module Control := ControlBlock.ControlBlock.
Module Receiver := ReceiveBuffer.ReceiveBuffer.
Module Window := ReceiveWindow.ReceiveWindow.

#[local] Existing Instances Sender.Sender.t_settable SendBuffer.SendBuffer.t_settable
  ReceiveBuffer.ReceiveBuffer.t_settable ControlBlock.ControlBlock.t_settable
  Connection.Connection.t_settable Connection.Connection.pending_settable Connection.Connection.policy_settable.

(** ** What is published *)

Definition at_rest (c : t) : t := c <| pending_ := None |>.

Lemma at_rest_none c : pending_ c = None -> at_rest c = c.
Proof. intros H. destruct c. cbn in H. now subst. Qed.

Lemma rest_inv c clock : inv c clock -> inv (at_rest c) clock.
Proof. intros [H0 H1 H2 _]. now constructor. Qed.

Lemma write_rest c bytes now : at_rest (write c bytes now).2 = (write (at_rest c) bytes now).2.
Proof. unfold write. change (sender_ (at_rest c)) with (sender_ c). destruct (sender_ c) as [s|]; [|reflexivity]. now destruct (Send.write s bytes now). Qed.

Lemma read_rest c n now : at_rest (read c n now).2 = (read (at_rest c) n now).2.
Proof.
  unfold read. change (receiver_ (at_rest c)) with (receiver_ c). change (receive_window_ (at_rest c)) with (receive_window_ c).
  destruct (receiver_ c) as [r|]; [|reflexivity]. destruct (receive_window_ c) as [w|]; [|reflexivity].
  destruct (Receiver.read r n) as [bytes r']. case_if; [reflexivity|].
  destruct (Window.application_space_available w _) as [[] w']; reflexivity.
Qed.

Lemma reduce_rest c m : at_rest (reduce_maximum_transport_message c m).2 = (reduce_maximum_transport_message (at_rest c) m).2.
Proof.
  unfold reduce_maximum_transport_message. change (sender_ (at_rest c)) with (sender_ c). change (policy_ (at_rest c)) with (policy_ c).
  change (negotiated_ (at_rest c)) with (negotiated_ c). change (tuple_ (at_rest c)) with (tuple_ c).
  case_if; [reflexivity|]. case_if; [reflexivity|]. destruct (sender_ c) as [s|]; [|reflexivity].
  case_if; [reflexivity|]. now destruct (Send.reduce_mss s _) as [[] s'].
Qed.

(** ** Calls that leave a preparation as it was *)

(** Whether a call changes what a commit overwrites. *)
Definition accepts (c : t) (bytes : list Z) (now : Z) : bool := negb ((write c bytes now).1 =? 0).

Definition announces (c : t) (n : Z) : bool :=
  match receiver_ c, receive_window_ c with
  | Some r, Some w =>
      let (bytes, r) := Receiver.read r n in
      negb (size bytes =? 0) && (Window.application_space_available w (Receiver.advertised_window r)).1
  | _, _ => false
  end.

Definition shortens (c : t) (m : Z) : bool :=
  match sender_ c, sender_ (reduce_maximum_transport_message c m).2 with
  | Some s, Some s' => negb (Send.sender_mss_ s' =? Send.sender_mss_ s)
  | _, _ => false
  end.

(** The call changes nothing a staged transition was computed from. *)
Lemma restored_sender c s : sender_ c = Some s -> c <| sender_ := Some s |> = c.
Proof. intros H. destruct c. cbn in H. now subst. Qed.

Lemma open_sender c clock s : inv c clock -> sender_ c = Some s -> Sync.synced s clock.
Proof.
  intros H Es. destruct (sound_streams c clock (iv_sound _ _ H)) as [(s0 & r & w & Es' & _ & _ & St & _)|(Es' & _)]; [|congruence].
  rewrite Es in Es'. injection Es' as <-. apply St.
Qed.

Lemma write_nothing c clock bytes now : inv c clock -> accepts c bytes now = false -> (write c bytes now).2 = c.
Proof.
  intros Hinv. unfold accepts, write. destruct (sender_ c) as [s|] eqn:Es; [|reflexivity].
  pose proof (Sync.sy_bytes _ _ (open_sender c clock s Hinv Es)) as (_ & _ & _ & _ & Iw & _).
  assert (forall x, x = s -> c <| sender_ := Some x |> = c) as Hsame by (intros x ->; now apply restored_sender).
  unfold Send.write. case_if; [intros _; now apply Hsame|]. unfold Send.Bytes.write.
  case_if; [intros _; apply Hsame; now destruct s|].
  set (n := Z.min _ _). cbn [fst]. intros Hn%negb_false_iff. rewrite Hn. apply Z.eqb_eq in Hn. rewrite Hn. cbn [negb snd].
  apply Hsame. change (take (Z.to_nat 0) bytes) with (@nil Z). cbn [ring_write].
  assert (Send.Bytes.write_next_ (Send.bytes_ s) ⊞ 0 = Send.Bytes.write_next_ (Send.bytes_ s)) as Ew
    by (rewrite Z.add_0_r; now apply u32_id).
  cbn. rewrite Ew. destruct s as [b]. now destruct b.
Qed.

(** A transition that is staged stays staged when the receiver gives octets away, or
    the policy changes, and nothing else. *)
Lemma reread_sound p k s r r' w n b clock :
  sound p k (Some s) (Some r) (Some w) n b clock -> Receiver.live r' ->
  Receiver.receive_next_ r' = Receiver.receive_next_ r -> promise r' w ->
  sound p k (Some s) (Some r') (Some w) n b clock.
Proof. intros [H1 H2 H3 H4 [[] H6]] Lr En P. constructor; auto. split; [|done]. constructor; rewrite ?En; auto. Qed.

Lemma policy_sound p m k s r w n b clock :
  sound p k s r w n b clock -> sound (p <| maximum_transport_message := m |>) k s r w n b clock.
Proof. intros [H1 H2 H3 H4 H5]. constructor; auto. revert H5. unfold parts. destruct s, r, w; auto. now intros []. Qed.

Lemma staged_as c c' p clock :
  staged c p clock -> sender_ c' = sender_ c ->
  (forall x n b s t, sender_ c = Some x -> clock <= t -> sound (policy_ c) (p_control p) (Some s) (receiver_ c) (receive_window_ c) n b t ->
     sound (policy_ c') (p_control p) (Some s) (receiver_ c') (receive_window_ c') n b t) ->
  (forall n b, sender_ c = None -> sound (policy_ c) (p_control p) None (receiver_ c) (receive_window_ c) n b clock ->
     sound (policy_ c') (p_control p) None (receiver_ c') (receive_window_ c') n b clock) ->
  staged c' p clock.
Proof.
  intros [G1 G2 G3 G4] Es Hs Hn. constructor; [congruence|exact G2| |].
  - intros Hp. specialize (G3 Hp). unfold sound_after in *. rewrite Es.
    destruct (sender_ c) as [s|]; [eapply (Hs s); [reflexivity|lia|exact G3]|now apply Hn].
  - intros Hp. destruct (G4 Hp) as (s & E & Hsh & Hc). exists s. split_and!; [congruence|exact Hsh|].
    intros t s' Ht Ec. eapply (Hs s); [exact E|exact Ht|now apply Hc].
Qed.

Lemma read_undisturbed c clock now n p :
  inv c clock -> clock <= now -> pending_ c = Some p -> 0 <= n -> announces c n = false -> inv (read c n now).2 now.
Proof.
  intros Hinv Hn Hp Hout Ha. pose proof (inv_later c clock now Hinv Hn) as Hl.
  pose proof (rest_inv _ _ Hl) as Hr. pose proof (read_inv (at_rest c) now now n Hr ltac:(lia) eq_refl Hout) as Hr'. rewrite <- read_rest in Hr'.
  pose proof (iv_pending _ _ Hl) as Hst. rewrite Hp in Hst. pose proof Hl as [H0 Hf Hs _].
  assert (pending_ (read c n now).2 = Some p /\ staged (read c n now).2 p now) as [Ep Hst'].
  { revert Ha. unfold announces, read.
    destruct (sound_streams c now Hs) as [(s & r & w & Es & Er & Ew & St & _)|(Es & Er & _)]; rewrite Er; [|now split]. rewrite Ew.
    pose proof St as []. pose proof (read_promised r w n st_receiver0 st_window0 st_promise0 Hout) as R.
    destruct (Receiver.read r n) as [bytes r'].
    destruct (Window.application_space_available w (Receiver.advertised_window r')) as [opened w'].
    destruct R as (Lr & Enx & _ & _ & Ho & P0).
    assert (staged (c <| receiver_ := Some r' |>) p now) as S1.
    { apply (staged_as c); [exact Hst|reflexivity|..].
      - intros _ m b s' t _ _. rewrite Er, Ew. cbn. rewrite Ew. intros H. now apply (reread_sound _ _ s' r).
      - intros m b E. congruence. }
    case_if; [now split|]. cbn [negb andb fst]. intros ->. specialize (Ho eq_refl). subst w'.
    split; [exact Hp|]. replace (c <| receiver_ := Some r' |> <| receive_window_ := Some w |>) with (c <| receiver_ := Some r' |>); [exact S1|].
    destruct c. cbn in Ew. now subst. }
  destruct Hr' as [R0 R1 R2 _]. constructor; auto. now rewrite Ep.
Qed.

Lemma reduce_undisturbed c clock now m p :
  inv c clock -> clock <= now -> pending_ c = Some p -> is_u32 m -> shortens c m = false ->
  inv (reduce_maximum_transport_message c m).2 now.
Proof.
  intros Hinv Hn Hp Im Ha. pose proof (inv_later c clock now Hinv Hn) as Hl.
  pose proof (rest_inv _ _ Hl) as Hr. pose proof (reduce_inv (at_rest c) now now m Hr ltac:(lia) eq_refl Im) as Hr'. rewrite <- reduce_rest in Hr'.
  pose proof (iv_pending _ _ Hl) as Hst. rewrite Hp in Hst.
  assert (forall c', sender_ c' = sender_ c -> receiver_ c' = receiver_ c -> receive_window_ c' = receive_window_ c ->
            policy_ c' = (policy_ c) <| maximum_transport_message := m |> -> staged c' p now) as Hpub.
  { intros c' E1 E2 E3 E4. apply (staged_as c); [exact Hst|exact E1|..].
    - intros x k b s t _ _. rewrite E2, E3, E4. apply policy_sound.
    - intros k b _. rewrite E2, E3, E4. apply policy_sound. }
  assert (pending_ (reduce_maximum_transport_message c m).2 = Some p /\ staged (reduce_maximum_transport_message c m).2 p now) as [Ep Hst'].
  { revert Ha. unfold shortens, reduce_maximum_transport_message. case_if; [now split|]. case_if; [now split|].
    destruct (sender_ c) as [s|] eqn:Es; [|intros _; split; [exact Hp|apply Hpub; auto]].
    case_if; [now split|]. unfold Send.reduce_mss. case_if; [intros _; rewrite (restored_sender c s Es); now split|].
    case_if; [intros _; rewrite (restored_sender c s Es); split; [exact Hp|apply Hpub; auto]|].
    intros Ha%negb_false_iff%Z.eqb_eq. cbn in Ha. exfalso. lia. }
  destruct Hr' as [R0 R1 R2 _]. constructor; auto. now rewrite Ep.
Qed.

(** ** Commits that undo a call *)

Lemma commit_queue s intent now s' :
  Send.commit s intent now = (true, s') -> Send.Bytes.write_next_ (Send.bytes_ s') = Send.Bytes.write_next_ (Send.bytes_ s).
Proof.
  unfold Send.commit. case_if; [discriminate|]. case_if; [discriminate|].
  destruct (Send.Bytes.commit (Send.bytes_ s) (Send.range intent)) as [[] b] eqn:Eb; [|discriminate]. cbn [negb].
  assert (Send.Bytes.write_next_ b = Send.Bytes.write_next_ (Send.bytes_ s)) as Ew.
  { revert Eb. unfold Send.Bytes.commit. case_if; [discriminate|]. intros [= <-]. now destruct (negb _). }
  set (s1 := s <| Send.bytes_ := b |>). pose proof (Frame.apply_keeps s1 intent (Send.flight_size s) now) as K.
  destruct (Send.apply_intent s1 intent (Send.flight_size s) now) as [[] x]; [|discriminate]. intros [= <-]. cbn [snd] in K.
  change (Send.bytes_ (Send.bump x)) with (Send.bytes_ x). now rewrite K.
Qed.

(** The sender a commit publishes: what the staged one becomes in the live arenas. *)
Definition publishes (p : PendingTransition) (live staged : Send.t) (now : Z) (s : Send.t) : Prop :=
  if p_sender_transmission_present p then Send.commit (share live staged) (p_sender_transmission p) now = (true, s)
  else s = share live staged.

Lemma initialized_open c s now : sender_ c = Some s -> initialize_stream c now = c.
Proof. intros E. unfold initialize_stream. destruct (negotiated_ c); [|reflexivity]. rewrite E. cbn [is_some]. now rewrite orb_true_r. Qed.

Lemma commit_publishes c p live staged q now c' :
  pending_ c = Some p -> sender_ c = Some live -> p_sender p = Some staged -> commit c q now = (true, c') ->
  control_ c' = p_control p /\ receive_window_ c' = receive_window_ c /\ policy_ c' = policy_ c
  /\ exists s, sender_ c' = Some s /\ publishes p live staged now s.
Proof.
  intros Hp Es Eg. unfold commit. rewrite Hp. case_if; [discriminate|]. rewrite Es.
  set (acks := p_emitted p && _). set (p1 := if acks && p_timestamp_state_present p then _ else p).
  assert (p_sender p1 = p_sender p /\ p_control p1 = p_control p
    /\ p_sender_transmission_present p1 = p_sender_transmission_present p /\ p_sender_transmission p1 = p_sender_transmission p)
    as (Q1 & Q2 & Q3 & Q4) by (unfold p1; case_if; now split_and!).
  clearbody p1. rewrite Q1, Eg. change (share_option (Some live) (Some staged)) with (Some (share live staged)).
  set (p2 := p1 <| p_sender := Some (share live staged) |>).
  change (p_sender_transmission_present p2) with (p_sender_transmission_present p1).
  change (p_sender_transmission p2) with (p_sender_transmission p1). change (p_sender p2) with (Some (share live staged)). rewrite Q3, Q4.
  unfold publishes. destruct (p_sender_transmission_present p).
  - destruct (Send.commit (share live staged) (p_sender_transmission p) now) as [[] s]; [|discriminate]. cbn [negb].
    rewrite (initialized_open _ s) by reflexivity. intros [= <-]. case_if; (split_and!; [exact Q2|reflexivity|reflexivity|now exists s]).
  - cbn [negb]. rewrite (initialized_open _ (share live staged)) by reflexivity.
    intros [= <-]. case_if; (split_and!; [exact Q2|reflexivity|reflexivity|now exists (share live staged)]).
Qed.

Lemma publishes_queue p live staged now s :
  publishes p live staged now s -> Send.Bytes.write_next_ (Send.bytes_ s) = Send.Bytes.write_next_ (Send.bytes_ staged).
Proof. unfold publishes. destruct (p_sender_transmission_present p); [intros E%commit_queue; exact E|now intros ->]. Qed.

(** A commit undoes the calls since its preparation.  The octets a write accepted are
    gone: the queue ends where it ended before.  The control block is the staged
    one, so that the window a read announced is not the one it checks.  The sender
    is made of the staged one, whose segment size is the one before a reduction. *)
Theorem commit_undoes_calls c clock p q now :
  inv c clock -> pending_ c = Some p ->
  (forall bytes t c' s, sender_ c = Some s -> commit (write c bytes t).2 q now = (true, c') ->
     exists s', sender_ c' = Some s' /\ Send.Bytes.write_next_ (Send.bytes_ s') = Send.Bytes.write_next_ (Send.bytes_ s))
  /\ (forall n t c' s, sender_ c = Some s -> commit (read c n t).2 q now = (true, c') ->
        control_ c' = p_control p /\ receive_window_ c' = receive_window_ (read c n t).2)
  /\ (forall m c' s, sender_ c = Some s -> commit (reduce_maximum_transport_message c m).2 q now = (true, c') ->
        policy_ c' = policy_ (reduce_maximum_transport_message c m).2
        /\ exists live s', sender_ c' = Some s' /\ publishes p live s now s').
Proof.
  intros Hinv Hp. pose proof (iv_pending _ _ Hinv) as Hst. rewrite Hp in Hst. pose proof (sg_sender _ _ _ Hst) as Eg.
  split_and!.
  - intros bytes t c' s Es. unfold write. rewrite Es. destruct (Send.write s bytes t) as [n live]. cbn [snd]. intros E.
    eapply commit_publishes in E as (_ & _ & _ & s' & E1 & E2); [|exact Hp|reflexivity|rewrite Eg; exact Es].
    exists s'. split; [exact E1|]. exact (publishes_queue _ _ _ _ _ E2).
  - intros n t c' s Es E. assert (sender_ (read c n t).2 = Some s /\ pending_ (read c n t).2 = Some p) as [Es' Hp'].
    { unfold read. destruct (receiver_ c) as [r|], (receive_window_ c) as [w|]; try now split.
      destruct (Receiver.read r n) as [bytes r']. case_if; [now split|].
      destruct (Window.application_space_available w _) as [[] w']; now split. }
    eapply commit_publishes in E as (E1 & E2 & _); [|exact Hp'|exact Es'|rewrite Eg; exact Es]. now split.
  - intros m c' s Es E.
    assert (exists live, sender_ (reduce_maximum_transport_message c m).2 = Some live /\ pending_ (reduce_maximum_transport_message c m).2 = Some p)
      as (live & Es' & Hp').
    { unfold reduce_maximum_transport_message. case_if; [eauto|]. case_if; [eauto|]. rewrite Es. case_if; [eauto|].
      destruct (Send.reduce_mss s _) as [[] s']; cbn; eauto. }
    eapply commit_publishes in E as (_ & _ & E2 & s' & E3 & E4); [|exact Hp'|exact Es'|rewrite Eg; exact Es].
    split; [exact E2|]. eauto.
Qed.

End ConnectionCalls.
