(* ===== verification/ConnectionRuns.v ===== *)
(** * Runs of a connection

    The invariant over every sequence of operations, the transactional contract of
    tcp_connection.hpp, and where the connection departs from what its parts
    promise. *)

From S2P Require Import Prelude Catalog Sequence Arena Blocks Packet Options Timers Retransmission Congestion ReceiveWindow ReceiveBuffer SendBuffer ControlBlock Sender SenderSync SenderFrame Connection ConnectionParts ConnectionSync ConnectionCalls.
Import Arena Blocks.

Module ConnectionRuns.
Import Connection.Connection ConnectionParts.ConnectionParts ConnectionSync.ConnectionSync ConnectionCalls.ConnectionCalls.
Module Sync := SenderSync.SenderSync.
Module Frame := SenderFrame.SenderFrame.
Module Control := ControlBlock.ControlBlock.
Module Receiver := ReceiveBuffer.ReceiveBuffer.
Module Window := ReceiveWindow.ReceiveWindow.

#[local] Existing Instances Sender.Sender.t_settable SendBuffer.SendBuffer.t_settable
  ReceiveBuffer.ReceiveBuffer.t_settable ControlBlock.ControlBlock.t_settable
  Connection.Connection.t_settable Connection.Connection.pending_settable Connection.Connection.policy_settable.

(** ** Requests *)

(** The preparations of the interface, each with the output it encodes into. *)
Inductive request :=
| ActiveOpen (initial_sequence : Z)
| Ingress (segment : list Z) (passive_initial_sequence : Z)
| Close
| Deadline
| Data (pushed : bool).

Definition prepare (c : t) (q : request) (output : list Z) (now : Z) : Prepared :=
  match q with
  | ActiveOpen iss => prepare_active_open c iss output now
  | Ingress bytes iss => prepare_ingress c bytes iss output now
  | Close => prepare_close c output now
  | Deadline => prepare_deadline c output now
  | Data pushed => prepare_data c output pushed now
  end.

Inductive operation :=
| Listen
| Prepare (q : request) (output : list Z)
| Commit (p : PreparedConnectionSegment)
| Discard (p : PreparedConnectionSegment)
| Write (bytes : list Z)
| Read (output_size : Z)
| Reduce (maximum : Z).

Definition perform (c : t) (o : operation) (now : Z) : t :=
  match o with
  | Listen => (listen c).2
  | Prepare q output => (prepare c q output now).2
  | Commit p => (commit c p now).2
  | Discard p => (discard c p).2
  | Write bytes => (write c bytes now).2
  | Read n => (read c n now).2
  | Reduce m => (reduce_maximum_transport_message c m).2
  end.

(** A run notes whether an application's call changed the sender or the control block
    since the pending preparation was made. *)
Record Run := mkRun { connection : t; clock : Z; overtaken : bool }.

Definition overtakes (c : t) (o : operation) (now : Z) : bool :=
  match o with
  | Write bytes => accepts c bytes now
  | Read n => announces c n
  | Reduce m => shortens c m
  | _ => false
  end.

Definition next (x : Run) (o : operation) (now : Z) : Run :=
  let c := perform (connection x) o now in
  mkRun c now (is_some (pending_ c) && (overtaken x || overtakes (connection x) o now)).

(** Words are words; a connection is opened once; the peer stays in the advertised
    window and is silent after its FIN; the control block is at most 2^30 octets
    behind; and a preparation that was overtaken is discarded, not committed
    ([commit_undoes_calls] is what its commit does). *)
Definition enabled (x : Run) (o : operation) : Prop :=
  let c := connection x in
  match o with
  | Listen => unused c
  | Prepare (ActiveOpen iss) _ => unused c /\ is_u32 iss
  | Prepare (Ingress bytes iss) _ => ingress_ok c bytes iss
  | Prepare (Data _) _ | Prepare Deadline _ => close_behind c
  | Commit _ => overtaken x = false
  | Prepare Close _ | Discard _ | Write _ => True
  | Read n => 0 <= n
  | Reduce m => is_u32 m
  end.

Definition step (x : Run) (e : operation * Z) (y : Run) : Prop :=
  clock x <= e.2 /\ enabled x e.1 /\ y = next x e.1 e.2.

Definition init (x : Run) : Prop :=
  exists tuple policy storage origin now,
    valid_ (construct tuple policy storage origin) = true /\ is_u32 (maximum_transport_message policy) /\ 0 <= now
    /\ x = mkRun (construct tuple policy storage origin) now false.

(** What is published is coherent, and a preparation that was not overtaken can be
    published too. *)
Record coherent (x : Run) : Prop := mkCoherent {
  co_published : inv (at_rest (connection x)) (clock x);
  co_staged : overtaken x = false -> inv (connection x) (clock x);
  co_overtaken : overtaken x = true -> is_some (pending_ (connection x)) = true
}.

Lemma coherent_idle c now b : inv c now -> coherent (mkRun c now (is_some (pending_ c) && b)).
Proof.
  intros H. constructor; cbn [connection clock overtaken]; [now apply rest_inv|auto|].
  intros E. now apply andb_true_iff in E as [E _].
Qed.

Lemma prepare_later c q output now : is_some (pending_ c) = true -> (prepare c q output now).2 = c.
Proof.
  intros H. assert (exists s, unavailable c = Some s) as [s E] by (unfold unavailable; rewrite H; case_if; eauto).
  destruct q; cbn [prepare]; unfold prepare_active_open, prepare_ingress, prepare_close, prepare_deadline, prepare_data; now rewrite E.
Qed.

(** The application's calls on what is published. *)
Lemma call_published c o clock now :
  inv (at_rest c) clock -> clock <= now -> match o with Write _ => True | Read n => 0 <= n | Reduce m => is_u32 m | _ => False end ->
  inv (at_rest (perform c o now)) now /\ is_some (pending_ (perform c o now)) = is_some (pending_ c).
Proof.
  intros H Hn Ho. destruct o as [|q output|p|p|bytes|n|m]; try done; cbn [perform].
  - rewrite write_rest. split; [now apply write_inv with clock|]. unfold write. destruct (sender_ c) as [s|]; [|done]. now destruct (Send.write _ _ _).
  - rewrite read_rest. split; [now apply read_inv with clock|]. unfold read. destruct (receiver_ c), (receive_window_ c); try done.
    destruct (Receiver.read _ _). case_if; [done|]. destruct (Window.application_space_available _ _) as [[] ?]; done.
  - rewrite reduce_rest. split; [now apply reduce_inv with clock|]. unfold reduce_maximum_transport_message.
    repeat (case_if; [done|]). destruct (sender_ c); [|done]. case_if; [done|]. now destruct (Send.reduce_mss _ _) as [[] ?].
Qed.

Lemma call_undisturbed c o clock now :
  inv c clock -> clock <= now -> match o with Write _ => True | Read n => 0 <= n | Reduce m => is_u32 m | _ => False end ->
  is_some (pending_ c) && overtakes c o now = false -> inv (perform c o now) now.
Proof.
  intros H Hn Ho Hov. destruct (pending_ c) as [p|] eqn:Ep.
  - cbn [is_some andb] in Hov. destruct o as [|q output|p'|p'|bytes|n|m]; try done; cbn [perform overtakes] in *.
    + rewrite (write_nothing c clock bytes now H Hov). now apply inv_later with clock.
    + now apply (read_undisturbed c clock now n p).
    + now apply (reduce_undisturbed c clock now m p).
  - destruct o as [|q output|p'|p'|bytes|n|m]; try done; cbn [perform].
    + now apply write_inv with clock.
    + now apply read_inv with clock.
    + now apply reduce_inv with clock.
Qed.

Lemma perform_inv x o now :
  inv (connection x) (clock x) -> overtaken x = false -> clock x <= now -> enabled x o -> overtaken (next x o now) = false ->
  inv (perform (connection x) o now) now.
Proof.
  intros H Hov Hn He Hnext.
  assert (match o with Write _ => True | Read n => 0 <= n | Reduce m => is_u32 m | _ => False end -> inv (perform (connection x) o now) now) as Hcall.
  { intros Ho. apply (call_undisturbed _ _ (clock x)); auto. unfold next in Hnext. cbn [overtaken] in Hnext. rewrite Hov in Hnext.
    rewrite <- (proj2 (call_published _ o (clock x) now (rest_inv _ _ H) Hn Ho)). exact Hnext. }
  clear Hnext. destruct o as [|[] output|p|p|bytes|n|m]; cbn [enabled] in *; try now apply Hcall.
  all: cbn [perform prepare].
  - now apply listen_inv with (clock x).
  - destruct He. now apply active_open_inv with (clock x).
  - now apply (ingress_inv (connection x) (clock x) now).
  - now apply close_inv with (clock x).
  - now apply deadline_inv with (clock x).
  - now apply data_inv with (clock x).
  - now apply commit_inv with (clock x).
  - now apply discard_inv with (clock x).
Qed.

(** While a preparation is overtaken nothing else is prepared, and discarding it leaves
    what is published. *)
Lemma overtaken_step x o now :
  coherent x -> overtaken x = true -> clock x <= now -> enabled x o -> coherent (next x o now).
Proof.
  intros [H _ Hp] Hov Hn He. specialize (Hp Hov). pose proof (inv_later _ _ now H Hn) as Hl. unfold next. rewrite Hov. cbn [orb]. rewrite andb_true_r.
  assert (forall c, c = connection x \/ c = at_rest (connection x) -> coherent (mkRun c now (is_some (pending_ c)))) as Hsame.
  { intros c [-> | ->]; (constructor; cbn [connection clock overtaken]; [exact Hl| |done]); [congruence|now intros _]. }
  assert (match o with Write _ => True | Read n => 0 <= n | Reduce m => is_u32 m | _ => False end ->
    coherent (mkRun (perform (connection x) o now) now (is_some (pending_ (perform (connection x) o now))))) as Hcall.
  { intros Ho. destruct (call_published _ o (clock x) now H Hn Ho) as [H' E]. rewrite E.
    constructor; cbn [connection clock overtaken]; [exact H'|congruence|congruence]. }
  destruct o as [|q output|p|p|bytes|n|m]; cbn [enabled] in He; try now apply Hcall.
  - apply Hsame. left. cbn [perform]. unfold listen. rewrite Hp, orb_true_r. reflexivity.
  - apply Hsame. left. now apply prepare_later.
  - congruence.
  - apply Hsame. cbn [perform]. unfold discard. destruct (pending_ (connection x)); [|now left]. case_if; [now left|now right].
Qed.

Lemma coherent_step x o now : coherent x -> clock x <= now -> enabled x o -> coherent (next x o now).
Proof.
  intros H Hn He. destruct (overtaken x) eqn:Hov; [now apply overtaken_step|]. pose proof (co_staged _ H Hov) as Hi.
  destruct (overtaken (next x o now)) eqn:Hnext.
  - assert (match o with Write _ => True | Read n => 0 <= n | Reduce m => is_u32 m | _ => False end) as Ho.
    { unfold next in Hnext. cbn [overtaken] in Hnext. rewrite Hov in Hnext. apply andb_true_iff in Hnext as [_ Hnext]. now destruct o. }
    destruct (call_published _ o (clock x) now (co_published _ H) Hn Ho) as [H' _].
    constructor; [exact H'|congruence|]. intros _. unfold next in Hnext. cbn [overtaken] in Hnext. now apply andb_true_iff in Hnext as [Hnext _].
  - unfold next. apply coherent_idle. now apply perform_inv.
Qed.

Lemma inv_init x : init x -> inv (connection x) (clock x).
Proof.
  intros (u & p & k & o & now & V & Im & Hn & ->). pose proof V as V'. cbn [construct valid_] in V'.
  apply andb_true_iff in V' as [[_ Hst]%andb_true_iff _].
  constructor; [exact Hn|now split_and!| |exact I].
  constructor; try done.
  apply Control.control_wf_construct. unfold is_u32. destruct (family u); cbn; lia.
Qed.

Lemma run_coherent x : reachable init step x -> coherent x.
Proof.
  apply (invariant_reachable init step coherent).
  - intros y Hy. pose proof (inv_init y Hy) as H. destruct Hy as (? & ? & ? & ? & ? & _ & _ & _ & ->).
    constructor; [now apply rest_inv|auto|discriminate].
  - intros y [o now] z H (Hn & He & ->). now apply coherent_step.
Qed.

Lemma run_inv x : reachable init step x -> overtaken x = false -> inv (connection x) (clock x).
Proof. intros H. apply run_coherent, H. Qed.

(** ** A conversation

    Two small connections of one link, and what they say to each other. *)

Definition u8b (x : Z) : bool := (0 <=? x) && (x <? 256).
Definition u32b (x : Z) : bool := (0 <=? x) && (x <? two32).

(** [enabled], decided. *)
Definition allowed (x : Run) (o : operation) : bool :=
  let c := connection x in
  let unused := negb (is_some (sender_ c)) && negb (Control.local_fin_sent_ (control_ c)) in
  let behind := match sender_ c with
                | Some s => negb (talks (state c))
                            || (lag (control_ c) s + size (Send.Bytes.storage_ (Send.bytes_ s)) <=? two30)
                | None => true
                end in
  match o with
  | Listen => unused
  | Prepare (ActiveOpen iss) _ => unused && u32b iss
  | Prepare (Ingress bytes iss) _ =>
      forallb u8b bytes && u32b iss
      && match parse c bytes with
         | Some v => negb (is_some (sender_ c)) || respectful (control_ c) v
         | None => true
         end
  | Prepare (Data _) _ | Prepare Deadline _ => behind
  | Commit _ => negb (overtaken x)
  | Prepare Close _ | Discard _ | Write _ => true
  | Read n => 0 <=? n
  | Reduce m => u32b m
  end.

Lemma u32b_spec x : u32b x = true <-> is_u32 x.
Proof. unfold u32b, is_u32. rewrite andb_true_iff, Z.leb_le, Z.ltb_lt. reflexivity. Qed.

Lemma allowed_enabled x o : allowed x o = true -> enabled x o.
Proof.
  unfold allowed, enabled. set (c := connection x). clearbody c.
  assert (forall A (y : option A), negb (is_some y) = true -> y = None) as Hnone by (now intros A []).
  assert (forall b, negb (is_some (sender_ c)) && negb (Control.local_fin_sent_ (control_ c)) && b = true -> unused c /\ b = true) as Hun.
  { intros b [[H1%Hnone H2%negb_true_iff]%andb_true_iff H3]%andb_true_iff. split; [now split|done]. }
  assert (match sender_ c with
          | Some s => negb (talks (state c)) || (lag (control_ c) s + size (Send.Bytes.storage_ (Send.bytes_ s)) <=? two30)
          | None => true end = true -> close_behind c) as Hcb.
  { intros H s Es Ht. rewrite Es, Ht in H. cbn [negb orb] in H. lia. }
  destruct o as [|[iss|bytes iss| | |pushed] output|p|p|bytes|n|m]; auto.
  - intros H. apply (Hun true). now rewrite H.
  - intros H%Hun. now rewrite u32b_spec in H.
  - rewrite !andb_true_iff, u32b_spec, forallb_forall. intros [[Hb Hi] Hp]. split_and!; [|done|].
    + apply list.Forall_forall. intros y Hx%list_elem_of_In%Hb. unfold u8b in Hx. unfold is_u8. lia.
    + intros v Ev Hs. rewrite Ev in Hp. now rewrite Hs in Hp.
  - intros H%negb_true_iff. exact H.
  - lia.
  - apply u32b_spec.
Qed.

(** A run of allowed operations at times that do not decrease. *)
Fixpoint follow (x : Run) (es : list (operation * Z)) : option Run :=
  match es with
  | [] => Some x
  | (o, now) :: es =>
      if (clock x <=? now) && allowed x o then follow (next x o now) es else None
  end.

Lemma follow_reachable es x y : reachable init step x -> follow x es = Some y -> reachable init step y.
Proof.
  revert x. induction es as [|[o now] es IH]; intros x H; cbn [follow]; [now intros [= <-]|].
  destruct ((clock x <=? now) && _) eqn:E; [|discriminate]. apply andb_true_iff in E as [E1 E2]. apply IH.
  apply (reachable_step _ _ x (o, now)); [exact H|]. split_and!; [cbn; lia|now apply allowed_enabled|reflexivity].
Qed.

Definition host (n : Z) : list Z := [10; 0; 0; n].
Definition sample_policy : ConnectionOptionPolicy := mkPolicy 100 64 0 true true true.
Definition sample_storage : ConnectionStorage :=
  mkStorage (repeat 0 64) (repeat 0 64) (repeat 0 8) 100 (repeat Send.Ledger.no_record 4)
    (repeat Send.Scoreboard.no_range 4) (repeat Send.Scoreboard.no_range 4).
Definition sample (here there port peer : Z) : t :=
  construct (mkTuple Offers.ipv4 (host here) (host there) (repeat 0 16) (repeat 0 16) 0 port peer)
    sample_policy sample_storage 0.

(** Prepare, publish, and the octets on the wire. *)
Definition say (c : t) (q : request) (now : Z) : list Z * t :=
  let '(r, output, c) := prepare c q (repeat 0 120) now in
  match status r with
  | prepared => (take (Z.to_nat (octets (segment r))) output, (commit c (segment r) now).2)
  | _ => ([], c)
  end.

(** The two ends after the three-way handshake. *)
Definition greet (client server : t) (client_isn server_isn now : Z) : t * t :=
  let (syn, client) := say client (ActiveOpen client_isn) now in
  let (synack, server) := say (listen server).2 (Ingress syn server_isn) now in
  let (ack, client) := say client (Ingress synack 0) now in
  let (_, server) := say server (Ingress ack 0) now in
  (client, server).

Definition greeted : t * t := greet (sample 1 2 1000 80) (sample 2 1 80 1000) 100 500 (Catalog.milliseconds 1).

(** The client's five octets, its FIN, and the server's answer to both. *)
Definition farewell : list Z * list Z * list Z :=
  let now := Catalog.milliseconds 5 in
  let (client, server) := greeted in
  let (text, client) := say (write client [1; 2; 3; 4; 5] now).2 (Data true) now in
  let (fin, client) := say client Close now in
  let (_, server) := say server (Ingress text 0) now in
  let (ack, _) := say server (Ingress fin 0) now in
  (text, fin, ack).

(** A preparation and its commit, as operations. *)
Definition utter (q : request) (token now : Z) : list (operation * Z) :=
  [(Prepare q (repeat 0 120), now); (Commit (mkSegment token 0 Control.Event.none true), now)].

(** The client's part of the conversation: nine operations up to its FIN, and the answer. *)
Definition client_side : list (operation * Z) :=
  let now := Catalog.milliseconds 1 in
  let syn := (say (sample 1 2 1000 80) (ActiveOpen 100) now).1 in
  let synack := (say (listen (sample 2 1 80 1000)).2 (Ingress syn 500) now).1 in
  let later := Catalog.milliseconds 5 in
  utter (ActiveOpen 100) 1 now ++ utter (Ingress synack 0) 2 now ++ [(Write [1; 2; 3; 4; 5], later)]
  ++ utter (Data true) 3 later ++ utter Close 4 later
  ++ [(Prepare (Ingress farewell.2 0) (repeat 0 120), Catalog.milliseconds 6)].

Definition opened : Run := mkRun (sample 1 2 1000 80) 0 false.

(** The client after the first operations of its part. *)
Definition client_after (n : nat) : Run :=
  value_or opened (follow opened (take n client_side)).

Lemma client_reachable n : reachable init step (client_after n).
Proof.
  assert (reachable init step opened) as H.
  { apply reachable_init. eexists _, _, _, _, _. split_and!; [| | |reflexivity]; [reflexivity|done|lia]. }
  unfold client_after. destruct (follow _ _) as [y|] eqn:E; [|exact H]. exact (follow_reachable _ _ _ H E).
Qed.

Abbreviation client := (connection (client_after 9)).

(** A segment of the server outside the window of the client. *)
Definition stray : list Z :=
  let server := greeted.2 in
  match encode server (Packet.mkFields 80 1000 800 106 Packet.ack 64 0) None (negotiated_ server) (timestamps_ server)
          true [] (repeat 0 120) (Catalog.milliseconds 5) with
  | Some (n, output) => take (Z.to_nat n) output
  | None => []
  end.

(** ** Preparation is a transaction *)

(** The same sender with other deadlines for its persist timer and the silly-window
    override, which looking for something to send may set. *)
Definition rescheduled (s s' : option Send.t) : Prop :=
  match s, s' with
  | Some s, Some s' => exists persist override,
      s' = s <| Send.persist_ := persist |> <| Send.sws_override_deadline_ := override |>
  | None, None => True
  | _, _ => False
  end.

(** What a preparation of [c] may answer: a token for a staged transition, or a
    refusal; either way the connection keeps everything it publishes. *)
Definition reserved (c : t) (x : Prepared) : Prop :=
  exists s, rescheduled (sender_ c) s /\
    match status x.1.1 with
    | prepared => exists p n, p_token p = token (segment x.1.1) /\ p_token p <> 0
        /\ x.2 = c <| sender_ := s |> <| next_token_ := n |> <| pending_ := Some p |>
    | _ => x.2 = c <| sender_ := s |>
    end.

Lemma rescheduled_refl s : rescheduled s s.
Proof. destruct s as [s|]; [|done]. exists (Send.persist_ s), (Send.sws_override_deadline_ s). now destruct s. Qed.

Lemma rescheduled_trans s1 s2 s3 : rescheduled s1 s2 -> rescheduled s2 s3 -> rescheduled s1 s3.
Proof.
  destruct s1, s2, s3; try done. intros (? & ? & ->) (a & b & ->). exists a, b. reflexivity.
Qed.

Lemma same_sender c : c <| sender_ := sender_ c |> = c.
Proof. now destruct c. Qed.

Lemma refused_reserved c s o : s <> prepared -> reserved c (refuse s, o, c).
Proof.
  intros Hs. exists (sender_ c). split; [apply rescheduled_refl|]. cbn [fst snd refuse status].
  destruct s; try done; symmetry; apply same_sender.
Qed.

Lemma available_reserved c o x :
  reserved c x -> reserved c (match unavailable c with Some s => (refuse s, o, c) | None => x end).
Proof.
  intros Hx. destruct (unavailable c) as [u|] eqn:Eu; [|exact Hx]. apply refused_reserved.
  unfold unavailable in Eu. destruct (negb _); [congruence|]. destruct (is_some _); congruence.
Qed.

Lemma stage_reserved c candidate result local peer negotiated stamps present output t :
  pending_ c = None -> reserved c (stage c candidate result local peer negotiated stamps present output t).
Proof.
  intros Hp. unfold stage. rewrite Hp. cbn [is_some].
  destruct (if Control.emit result then _ else _) as [[octets out]|]; [|now apply refused_reserved].
  pose proof (token_nonzero c) as Ht. destruct (token_keeps c) as [n En].
  destruct (take_token c) as [token c']. cbn [fst snd] in *. subst c'.
  exists (sender_ c). split; [apply rescheduled_refl|]. cbn [status]. eexists _, n.
  split; [|split]; [..|rewrite same_sender; reflexivity]; [reflexivity|exact Ht].
Qed.

Lemma update_rescheduled s w now : rescheduled (Some s) (Some (Send.update_persist s w now)).
Proof. exists (Send.persist_ (Send.update_persist s w now)), (Send.sws_override_deadline_ s). now destruct s. Qed.

Lemma override_rescheduled s deadline : rescheduled (Some s) (Some (s <| Send.sws_override_deadline_ := deadline |>)).
Proof. exists (Send.persist_ s), deadline. now destruct s. Qed.

Lemma new_rescheduled s now pushed : rescheduled (Some s) (Some (Send.prepare_new s now pushed).2).
Proof.
  unfold Send.prepare_new. destruct (negb (Send.valid_ s)); [apply rescheduled_refl|].
  pose proof (update_rescheduled s (Send.receiver_window_ s) now) as H.
  set (s1 := Send.update_persist s _ now) in *. clearbody s1. case_if; [exact H|].
  destruct (Send.choose_payload _ _ _ _ _ _) as [payload sws].
  pose proof (rescheduled_trans _ _ _ H (override_rescheduled s1 sws)) as H'.
  repeat (case_if; [exact H'|]). exact H'.
Qed.

Lemma probe_rescheduled s now : rescheduled (Some s) (Some (Send.prepare_persist_probe s now).2).
Proof.
  unfold Send.prepare_persist_probe. case_if; [apply rescheduled_refl|]. case_if; apply update_rescheduled.
Qed.

Lemma or_try_rescheduled s0 x next :
  rescheduled s0 (Some x.2) -> (forall s, rescheduled (Some s) (Some (next s).2)) ->
  rescheduled s0 (Some (or_try x next).2).
Proof. intros Hx Hn. unfold or_try. case_if; [exact Hx|]. eapply rescheduled_trans; [exact Hx|apply Hn]. Qed.

Lemma transmit_reserved c x output pushed now :
  pending_ c = None -> rescheduled (sender_ c) (Some x.2) -> reserved c (transmit c x output pushed now).
Proof.
  intros Hp Hx. set (c1 := c <| sender_ := Some x.2 |>).
  assert (forall s o, s <> prepared -> reserved c (refuse s, o, c1)) as Hr.
  { intros s o Hs. exists (Some x.2). split; [exact Hx|]. now destruct s. }
  unfold transmit. fold c1. case_if; [|now apply Hr]. unfold prepare_sender_transmission.
  case_if; [now apply Hr|]. destruct (Send.copy _ _ _) as [payload|]; [|now apply Hr].
  destruct (if Send.Bytes.retransmission (Send.range x.1) then _ else _) as [[] k]; [|now apply Hr]. cbn [negb].
  destruct (encode _ _ _ _ _ _ _ _ _) as [[octets out]|]; [|now apply Hr].
  pose proof (token_nonzero c1) as Ht. destruct (token_keeps c1) as [n En].
  destruct (take_token c1) as [token c2]. cbn [fst snd] in Ht, En. subst c2.
  exists (Some x.2). split; [exact Hx|]. cbn [status]. eexists _, n. split; [|split]; [..|reflexivity]; [reflexivity|exact Ht].
Qed.

(** A segment of an open stream is published at once: its response alone is staged. *)
Definition transactional (c : t) (q : request) : Prop :=
  match q with Ingress _ _ => sender_ c = None | _ => True end.

Lemma prepare_reserved c q output now :
  pending_ c = None -> transactional c q -> reserved c (prepare c q output now).
Proof.
  intros Hp Ht. destruct q as [iss|bytes iss| | |pushed]; cbn [prepare transactional] in *.
  - unfold prepare_active_open. apply available_reserved.
    destruct (Control.active_open _ _ _) as [result k]. case_if; [now apply refused_reserved|now apply stage_reserved].
  - unfold prepare_ingress. apply available_reserved.
    destruct (mbind _ _) as [[v typed]|]; [|now apply refused_reserved].
    destruct (receive_options c v typed now) as [[] options]; [|now apply refused_reserved|now apply stage_reserved].
    destruct (Control.on_segment _ _ _ _ _) as [result k]. rewrite Ht. now apply stage_reserved.
  - unfold prepare_close. apply available_reserved.
    destruct (Control.close _ _) as [result k]. case_if; [now apply refused_reserved|now apply stage_reserved].
  - unfold prepare_deadline. apply available_reserved.
    case_if; [now apply stage_reserved|]. destruct (Control.service_deadline _ _) as [result k].
    case_if; [now apply stage_reserved|]. destruct (sender_ c) as [s|] eqn:Es; [|now apply refused_reserved].
    apply transmit_reserved; [done|]. rewrite Es.
    apply or_try_rescheduled; [apply or_try_rescheduled; [apply rescheduled_refl|intros; apply probe_rescheduled]|intros; apply new_rescheduled].
  - unfold prepare_data. apply available_reserved.
    destruct (sender_ c) as [s|] eqn:Es; [|now apply refused_reserved].
    destruct (receiver_ c), (receive_window_ c); try now apply refused_reserved.
    case_if; [now apply refused_reserved|]. apply transmit_reserved; [done|]. rewrite Es.
    apply or_try_rescheduled; [apply or_try_rescheduled; [apply rescheduled_refl|intros; apply rescheduled_refl]|intros; apply new_rescheduled].
Qed.

Lemma prepared_available c q output now :
  status (prepare c q output now).1.1 = prepared -> unavailable c = None.
Proof.
  destruct q; cbn [prepare]; unfold prepare_active_open, prepare_ingress, prepare_close, prepare_deadline, prepare_data.
  all: unfold unavailable; destruct (negb (valid_ c)); [done|]; now destruct (is_some (pending_ c)).
Qed.

Lemma unavailable_refuses c q output now s :
  unavailable c = Some s -> prepare c q output now = (refuse s, output, c).
Proof.
  intros E. destruct q; cbn [prepare]; unfold prepare_active_open, prepare_ingress, prepare_close, prepare_deadline, prepare_data;
    now rewrite E.
Qed.

(** The answer [x] of a preparation, where [c] is what it leaves published. *)
Definition withheld (c : t) (x : Prepared) : Prop :=
  let '(r, _, c') := x in
  match status r with
  | prepared =>
      discard c' (segment r) = (true, c <| next_token_ := next_token_ c' |>)
      /\ (forall other later, token other <> token (segment r) ->
           commit c' other later = (false, c') /\ discard c' other = (false, c'))
      /\ (forall q output later, prepare c' q output later = (refuse pending_transmission, output, c'))
  | _ => c' = c
  end.

(** C10: A preparation is a transaction: it publishes nothing.  A refused one leaves
    the connection as it was but for the deadlines the sender keeps for its own
    attempts; a prepared one only holds its token, so that discarding it gives the
    connection back with its sequence state, options and retransmission deadlines,
    while another token neither commits nor discards it and no other preparation
    can begin before it is settled.  (A segment of an open stream is published at
    once instead, and its response alone is a transaction.) *)
Theorem connection_transaction c q output now :
  pending_ c = None -> transactional c q ->
  exists s, rescheduled (sender_ c) s /\ withheld (c <| sender_ := s |>) (prepare c q output now).
Proof.
  intros Hp Ht. pose proof (prepare_reserved c q output now Hp Ht) as (s & Hs & H).
  pose proof (prepared_available c q output now) as Ha.
  destruct (prepare c q output now) as [[r out] c']. cbn [fst snd] in *. exists s. split; [exact Hs|].
  unfold withheld. destruct (status r); try exact H. destruct H as (p & n & Ep & Hne & ->). specialize (Ha eq_refl).
  set (c1 := c <| sender_ := s |> <| next_token_ := n |>).
  change (next_token_ (c1 <| pending_ := Some p |>)) with n.
  assert (pending_ c1 = None) as H1 by exact Hp. assert (valid_ c1 = valid_ c) as Hv by reflexivity.
  fold c1. clearbody c1. split_and!.
  - unfold discard. change (pending_ (c1 <| pending_ := Some p |>)) with (Some p). cbv match.
    rewrite Ep, Z.eqb_refl, (proj2 (Z.eqb_neq _ _)) by congruence.
    cbn [orb negb]. f_equal. destruct c1; cbn in H1. now subst.
  - intros other later Ho. unfold commit, discard. change (pending_ (c1 <| pending_ := Some p |>)) with (Some p). cbv match.
    rewrite (proj2 (Z.eqb_neq (p_token p) (token other))) by congruence. cbn [negb]. now rewrite orb_true_r.
  - intros q' output' later. apply unavailable_refuses. unfold unavailable in *.
    change (valid_ (c1 <| pending_ := Some p |>)) with (valid_ c1). rewrite Hv. destruct (negb (valid_ c)); [discriminate|reflexivity].
Qed.


(** Runs in which the application calls between a preparation and its commit, as the
    code lets it.  Three octets that a write accepted are gone, and the window that a
    read announced is not the one the control block checks. *)
Definition queued (c : t) : option Z := (fun s => Send.Bytes.queued_octets (Send.bytes_ s)) <$> sender_ c.

Definition windows (c : t) : option (Z * Z) := (fun w => (Control.receive_window_ (control_ c), Window.advertised w)) <$> receive_window_ c.

Example overtaken_write :
  let now := Catalog.milliseconds 5 in
  let '(r, _, c) := prepare (write greeted.1 [1; 2; 3; 4; 5] now).2 (Data true) (repeat 0 120) now in
  let '(accepted, c) := write c [6; 7; 8] now in
  (accepted, queued c, (commit c (segment r) now).1, queued (commit c (segment r) now).2) = (3, Some 8, true, Some 5).
Proof. vm_compute. reflexivity. Qed.

Example overtaken_read :
  let now := Catalog.milliseconds 5 in
  let text := (say (write greeted.1 (repeat 7 40) now).2 (Data true) now).1 in
  let server := (say greeted.2 (Ingress text 0) now).2 in
  let '(r, _, c) := prepare server Close (repeat 0 120) now in
  let '(bytes, c) := read c 64 now in
  (windows server, size bytes, windows c, (commit c (segment r) now).1, windows (commit c (segment r) now).2)
  = (Some (24, 24), 40, Some (64, 64), true, Some (24, 64)).
Proof. vm_compute. reflexivity. Qed.

(** ** Where the two halves disagree *)

(** A pure acknowledgment of everything we sent, our FIN included. *)
Record final_ack (k : Control.t) (v : Packet.View) : Prop := mkFinal {
  fa_port : Packet.destination_port (Packet.fields v) = Control.local_port_ k;
  fa_flags : Packet.flags (Packet.fields v) = Packet.ack;
  fa_text : Packet.payload v = [];
  fa_sequence : Control.seq v = Control.receive_next_ k;
  fa_ack : Control.ackn v = Control.send_next_ k
}.

Lemma at_edge_acceptable q w : is_u32 q -> 0 <= w <= two30 -> Sequence.segment_acceptable q 0 q w = true.
Proof.
  intros Iq Hw. unfold Sequence.segment_acceptable. rewrite Z.eqb_refl. cbn [andb].
  destruct (Z.eqb_spec w 0) as [->|Hne]; [apply Z.eqb_refl|].
  unfold Sequence.after_or_equal, Sequence.before, Sequence.after, Sequence.half_space. rewrite Z.eqb_refl. cbn [orb andb].
  assert (q =? q ⊞ w = false) as ->.
  { apply Z.eqb_neq. word. }
  cbn [negb andb]. apply Z.ltb_lt. word.
Qed.

(** The control block takes it as the acknowledgment of the FIN. *)
Lemma final_ack_control k v iss now w :
  Control.wf k -> 0 <= Control.receive_window_ k <= two30 -> Control.state_ k = Control.fin_wait_1 -> final_ack k v ->
  Control.state_ (Control.on_segment k v iss now w).2 = Control.fin_wait_2
  /\ Control.event (Control.on_segment k v iss now w).1 = Control.Event.none
  /\ Control.emit (Control.on_segment k v iss now w).1 = false.
Proof.
  intros W Hw Es []. pose proof (Control.wf_phase _ W) as Ph. unfold Control.phase in Ph. rewrite Es in Ph.
  destruct Ph as (Hfin & Hfl & _). pose proof (Control.wf_una _ W) as Iu. pose proof (Control.wf_next _ W) as In.
  unfold Control.on_segment. rewrite fa_port0, Z.eqb_refl, Es. cbn [negb].
  set (window := value_or _ w). clearbody window. unfold Control.on_synchronized, Control.repeated_fin, Control.repeated_simultaneous_syn.
  unfold Control.segment_length, Control.flagged, Control.empty. rewrite Es, fa_flags0, fa_text0, fa_sequence0.
  cbn [Control.state_is Control.index Nat.eqb andb negb length]. change (Control.has Packet.ack Packet.rst) with false.
  change (Control.has Packet.ack Packet.syn) with false. change (Control.has Packet.ack Packet.fin) with false. change (Control.has Packet.ack Packet.ack) with true.
  cbn [andb negb Z.of_nat]. change (u32 (u32 (u32 0 + 0) + 0)) with 0.
  rewrite at_edge_acceptable; [|apply W|exact Hw]. cbn [negb].
  assert (Control.advances k v = true) as Hadv.
  { unfold Control.advances. rewrite fa_ack0. unfold Control.flight in Hfl. revert Hfl.
    unfold Sequence.acknowledgment_advances, Sequence.after, Sequence.before_or_equal, Sequence.before, Sequence.half_space.
    clear -Iu In. rewrite Z.eqb_refl. cbn [orb]. rewrite andb_true_r, andb_true_iff, negb_true_iff, Z.eqb_neq, Z.ltb_lt. word. }
  assert (Sequence.after (Control.send_next_ k) (Control.send_next_ k) = false) as Hirr.
  { unfold Sequence.after, Sequence.before. now rewrite Z.eqb_refl. }
  destruct (Control.process_ack k v now window) as [result|[x b]] eqn:Ep.
  { exfalso. revert Ep. unfold Control.process_ack. rewrite Es, fa_ack0, Hirr.
    cbn [Control.state_is Control.index Nat.eqb]. discriminate. }
  apply Control.process_ack_spec in Ep as (K & Eb & Est & Eu & _ & _).
  rewrite Es in Eb. cbn in Eb. subst b. rewrite Es in Est. rewrite Hadv, fa_ack0 in Eu.
  unfold Control.after_ack, Control.local_fin_acknowledged. destruct K.
  rewrite Est, kept_fin, Hfin, Eu, kept_next, !Z.eqb_refl. cbn [Control.state_is Control.index Nat.eqb andb].
  unfold Control.process_text, Control.empty, Control.flagged. rewrite fa_text0, fa_flags0. split_and!; reflexivity.
Qed.

(** The sender refuses it: our FIN is not one of its octets. *)
Lemma final_ack_sender c k s r w v typed negotiated dw clock now :
  stream k s r w clock -> Control.local_fin_sent_ k = true -> Control.state_ k <> Control.closed -> final_ack k v ->
  receive_acknowledgment c s v typed negotiated dw now = s.
Proof.
  intros St Hfin Hopen []. pose proof (st_next _ _ _ _ _ St Hopen) as En. rewrite Hfin in En.
  pose proof (st_sender _ _ _ _ _ St) as Y. destruct (Sync.synced_words s clock Y) as (_ & In & _).
  unfold receive_acknowledgment, Control.flagged. rewrite fa_flags0, fa_ack0, En.
  change (negb (Control.has Packet.ack Packet.ack)) with false. cbv match.
  match goal with |- context [Send.acknowledge s ?a ?x ?e ?t ?q ?l] =>
    pose proof (Frame.acknowledge_refused s clock Y a x e t q l) as Hr;
    pose proof (Frame.acknowledge_bytes s a x e t q l (Sync.sy_valid _ _ Y)) as Hb;
    destruct (Send.acknowledge s a x e t q l) as [res y] end.
  cbn [fst snd] in *. apply (f_equal fst) in Hb. cbn [fst] in Hb.
  assert (Send.acceptable (Send.status res) = false) as Ha.
  { rewrite Hb. unfold Send.Bytes.acknowledge. case_if; [done|].
    assert (Sequence.after (Sync.nxt s ⊞ 1) (Send.Bytes.send_next_ (Send.bytes_ s)) = true) as ->; [|done].
    change (Send.Bytes.send_next_ (Send.bytes_ s)) with (Sync.nxt s).
    unfold Sequence.after, Sequence.before, Sequence.half_space. clear -In.
    rewrite andb_true_iff, negb_true_iff, Z.eqb_neq, Z.ltb_lt. word. }
  rewrite Ha. destruct (Hr Ha) as [q ->]. apply share_persist.
Qed.

(** C11: The acknowledgment of our FIN is lost on the sender.  It covers one number more than
    the sender ever used, so that the sender takes it for an acknowledgment of octets
    beyond SND.NXT: the control block enters FIN-WAIT-2 while the sender stays exactly
    as it was, with the octets the same segment acknowledged still in flight and
    their retransmission deadline running. *)
Theorem final_ack_strands_flight c clock now bytes iss output v typed options s :
  inv c clock -> pending_ c = None -> sender_ c = Some s -> state c = Control.fin_wait_1 ->
  parse c bytes = Some v -> Offers.parse_typed_options (Packet.options v) = Some typed ->
  receive_options c v typed now = (Stamps.accepted, options) -> final_ack (control_ c) v ->
  let '(r, _, c') := prepare_ingress c bytes iss output now in
  status r = no_action /\ state c' = Control.fin_wait_2 /\ sender_ c' = Some s.
Proof.
  intros [_ (V & _) Hs _] Hp Es Est Ev Et Eo F. unfold state in Est.
  destruct (sound_streams c clock Hs) as [(s0 & r & w & Es' & Er & Ew & St & _)|(Es' & _)]; [|congruence].
  rewrite Es in Es'. injection Es' as <-. pose proof (sd_control _ _ _ _ _ _ _ _ Hs) as W.
  pose proof (Control.wf_phase _ W) as Ph. unfold Control.phase in Ph. rewrite Est in Ph. destruct Ph as (Hfin & _).
  unfold prepare_ingress, unavailable. rewrite V, Hp, Ev. cbn [negb is_some mbind option_bind]. rewrite Et. cbn [mbind option_bind].
  rewrite Eo, Es, Er, Ew. set (dw := match o_negotiated options with Some n => _ | None => _ end).
  pose proof (final_ack_control (control_ c) v iss now (Some dw) W (st_range _ _ _ _ _ St) Est F) as (E1 & E2 & E3).
  destruct (Control.on_segment (control_ c) v iss now (Some dw)) as [result candidate]. cbn [fst snd] in *.
  assert (is_stream c = true) as -> by (unfold is_stream, state; now rewrite Es, Er, Ew, Est).
  unfold receive_stream. rewrite E2, E3. cbn [carries_data]. rewrite andb_false_r. cbn [s_control s_response s_receiver s_window s_delayed].
  rewrite E3. cbn [negb].
  rewrite (final_ack_sender c (control_ c) s r w v typed (o_negotiated options) dw clock now St Hfin ltac:(rewrite Est; done) F).
  split_and!; [reflexivity|exact E1|reflexivity].
Qed.

(** Staging publishes nothing. *)
Lemma stage_publishes c candidate result local peer negotiated stamps present output t :
  let c' := (stage c candidate result local peer negotiated stamps present output t).2 in
  control_ c' = control_ c /\ sender_ c' = sender_ c.
Proof.
  unfold stage. case_if; [done|]. destruct (if Control.emit result then _ else _) as [[octets out]|]; [|done].
  destruct (token_keeps c) as [n En]. destruct (take_token c) as [token c']. cbn [snd] in *. now subst c'.
Qed.

Lemma unacceptable_unheard k v iss now w :
  late k -> Control.state_ k <> Control.time_wait -> Control.flagged v Packet.rst = false -> acceptable k v = false ->
  (Control.on_segment k v iss now w).2 = k
  /\ Control.event (Control.on_segment k v iss now w).1 = Control.Event.none.
Proof.
  intros [Hsy Hr] Ht Hrst Ha. unfold Control.on_segment. case_if; [done|].
  assert (forall x, (Control.on_synchronized k v now x).2 = k
    /\ Control.event (Control.on_synchronized k v now x).1 = Control.Event.none) as H.
  { intros x. unfold Control.on_synchronized.
    assert (Control.repeated_fin k v = false) as -> by (unfold Control.repeated_fin; destruct (Control.state_ k); done).
    assert (Control.repeated_simultaneous_syn k v = false) as ->
      by (unfold Control.repeated_simultaneous_syn; destruct (Control.state_ k); done).
    unfold acceptable in Ha. rewrite Ha, Hrst. done. }
  unfold Control.synchronized in Hsy. destruct (Control.state_ k); try done; apply H.
Qed.

(** C12: A segment outside the receive window still acknowledges.  The control block refuses
    it and only repeats its own acknowledgment, but the sender takes the ACK field when
    it lies in the flight: SND.UNA moves there and the octets before it are released,
    so that the two halves disagree about what the peer has received. *)
Theorem unacceptable_segment_acknowledges c clock now bytes iss output v typed options s :
  inv c clock -> clock <= now -> pending_ c = None -> Forall is_u8 bytes -> sender_ c = Some s ->
  late (control_ c) -> state c <> Control.time_wait ->
  parse c bytes = Some v -> Offers.parse_typed_options (Packet.options v) = Some typed ->
  receive_options c v typed now = (Stamps.accepted, options) ->
  acceptable (control_ c) v = false -> Control.flagged v Packet.rst = false -> Control.flagged v Packet.ack = true ->
  0 < Control.ackn v ⊟ Sync.una s <= Sync.nxt s ⊟ Sync.una s ->
  let c' := (prepare_ingress c bytes iss output now).2 in
  control_ c' = control_ c
  /\ exists s', sender_ c' = Some s' /\ Sync.una s' = Control.ackn v /\ Sync.nxt s' = Sync.nxt s.
Proof.
  intros [H0 (V & Hst & Hm) Hs _] Hn Hp Hb Es L Htw Ev Et Eo Hacc Hrst Hack Hin.
  destruct (sound_streams c clock Hs) as [(s0 & r & w & Es' & Er & Ew & St & _)|(Es' & _)]; [|congruence].
  rewrite Es in Es'. injection Es' as <-.
  destruct (parsed_segment c bytes v typed Hb Ev Et) as [T _].
  assert (is_stream c = true) as Hstream.
  { unfold is_stream. rewrite Es, Er, Ew. destruct L as [Hsy Hr]. unfold state, Control.synchronized in *.
    destruct (Control.state_ (control_ c)); done. }
  unfold prepare_ingress, unavailable. rewrite V, Hp, Ev. cbn [negb is_some mbind option_bind]. rewrite Et. cbn [mbind option_bind].
  rewrite Eo, Es, Er, Ew, Hstream. set (dw := match o_negotiated options with Some n => _ | None => _ end).
  assert (is_u32 dw) as Id by (unfold dw; apply decoded_window_word, T).
  destruct (unacceptable_unheard (control_ c) v iss now (Some dw) L Htw Hrst Hacc) as [E1 E2].
  destruct (Control.on_segment (control_ c) v iss now (Some dw)) as [result candidate]. cbn [fst snd] in *. subst candidate.
  pose proof (acknowledgment_moves c s clock now v typed (o_negotiated options) dw (st_sender _ _ _ _ _ St) Hn T Id) as (_ & Ex & Eu).
  rewrite Hack, (proj2 (Z.ltb_lt _ _) (proj1 Hin)), (proj2 (Z.leb_le _ _) (proj2 Hin)) in Eu. cbn [andb] in Eu.
  unfold receive_stream. rewrite E2. cbn [carries_data s_control s_response s_receiver s_window s_delayed].
  case_if.
  - split; [reflexivity|]. eexists. split; [reflexivity|now split].
  - unfold stage_control. cbv zeta.
    match goal with |- context [stage ?x ?a1 ?a2 ?a3 ?a4 ?a5 ?a6 ?a7 ?a8 ?a9] =>
      destruct (stage_publishes x a1 a2 a3 a4 a5 a6 a7 a8 a9) as [-> ->] end.
    split; [reflexivity|]. eexists. split; [reflexivity|now split].
Qed.

(** A preparation that stages octets of the sender. *)
Definition stages_octets (x : Prepared) (p : PendingTransition) : Prop :=
  pending_ x.2 = Some p /\ p_sender_transmission_present p = true.

Lemma transmit_after_fin c x output pushed now p :
  talks (state c) = false -> stages_octets (transmit c x output pushed now) p -> pending_ c = None ->
  Send.Bytes.retransmission (Send.range (p_sender_transmission p)) = true.
Proof.
  intros Ht [Hp Htx] Hnone. revert Hp. set (c1 := c <| sender_ := Some x.2 |>).
  assert (pending_ c1 = None) as H1 by exact Hnone. assert (control_ c1 = control_ c) as Ek by reflexivity.
  unfold transmit. fold c1. case_if; [|cbn [snd]; congruence]. unfold prepare_sender_transmission. rewrite Ek. clearbody c1.
  case_if; [cbn; congruence|]. destruct (Send.copy _ _ _) as [payload|]; [|cbn; congruence].
  destruct (Send.Bytes.retransmission (Send.range x.1)) eqn:Er.
  - cbn [negb]. destruct (encode _ _ _ _ _ _ _ _ _) as [[octets out]|]; [|cbn; congruence].
    destruct (take_token c1) as [token c2]. cbn. now intros [= <-].
  - destruct (Control.commit_sent_data _ _ _) as [[] k] eqn:Ec; cbn [negb]; [|cbn; congruence].
    apply commit_sent_talks in Ec as (Ht' & _). unfold state in Ht. congruence.
Qed.

(** C13: Nothing new follows our FIN: from the moment the FIN is sent, the only octets a
    connection stages are retransmissions.  Octets that were queued and never sent
    when the application closed are never sent after it. *)
Theorem nothing_new_after_fin c clock q output now p :
  inv c clock -> pending_ c = None -> Control.local_fin_sent_ (control_ c) = true ->
  match q with Data _ | Deadline => True | _ => False end ->
  stages_octets (prepare c q output now) p ->
  Send.Bytes.retransmission (Send.range (p_sender_transmission p)) = true.
Proof.
  intros [_ _ Hs _] Hp Hfin Hq Hst.
  assert (talks (state c) = false) as Ht.
  { pose proof (Control.wf_phase _ (sd_control _ _ _ _ _ _ _ _ Hs)) as Ph. unfold Control.phase in Ph. unfold state.
    destruct (Control.state_ (control_ c)); try done; destruct Ph; congruence. }
  assert (forall s (o : list Z), pending_ ((refuse s, o, c) : Prepared).2 = Some p -> False) as Hr by (intros s o; cbn; congruence).
  assert (forall k e a b d f g o, pending_ (stage c k e a b d f g o now).2 = Some p -> p_sender_transmission_present p = true -> False) as Hstage.
  { intros k e a b d f g o. unfold stage. rewrite Hp. cbn [is_some].
    destruct (if Control.emit e then _ else _) as [[n out]|]; [|cbn; congruence].
    destruct (take_token c). cbn. now intros [= <-]. }
  destruct q; try done; cbn [prepare] in Hst; unfold prepare_deadline, prepare_data in Hst.
  all: destruct (unavailable c); [now destruct Hst as [?%Hr _]|].
  - revert Hst. case_if; intros Hst; [destruct Hst as [H1 H2]; now apply Hstage in H1|].
    destruct (Control.service_deadline _ _) as [e k]. revert Hst. case_if; intros Hst; [destruct Hst as [H1 H2]; now apply Hstage in H1|].
    destruct (sender_ c) as [s|]; [|now destruct Hst as [?%Hr _]]. now apply transmit_after_fin in Hst.
  - destruct (sender_ c) as [s|], (receiver_ c), (receive_window_ c); try now destruct Hst as [?%Hr _].
    revert Hst. case_if; intros Hst; [now destruct Hst as [?%Hr _]|]. now apply transmit_after_fin in Hst.
Qed.

(** ** Witnesses *)

Lemma connection_transaction_witness :
  let c := (write greeted.1 [1; 2; 3; 4; 5] (Catalog.milliseconds 5)).2 in
  exists s, rescheduled (sender_ c) s
    /\ withheld (c <| sender_ := s |>) (prepare c (Data true) (repeat 0 120) (Catalog.milliseconds 5)).
Proof. intros c. apply (connection_transaction c); [reflexivity|exact I]. Defined.


Lemma final_ack_strands_flight_witness :
  exists s, sender_ client = Some s /\ Sync.una s <> Sync.nxt s
  /\ let '(r, _, c') := prepare_ingress client farewell.2 0 (repeat 0 120) (Catalog.milliseconds 6) in
     status r = no_action /\ state c' = Control.fin_wait_2 /\ sender_ c' = Some s.
Proof.
  eexists. split; [vm_compute; reflexivity|]. split; [vm_compute; congruence|].
  eapply final_ack_strands_flight.
  - apply run_inv; [apply client_reachable|vm_compute; reflexivity].
  - vm_compute. reflexivity.
  - vm_compute. reflexivity.
  - vm_compute. reflexivity.
  - vm_compute. reflexivity.
  - vm_compute. reflexivity.
  - vm_compute. reflexivity.
  - constructor; vm_compute; reflexivity.
Defined.

Lemma unacceptable_segment_acknowledges_witness :
  exists s v, sender_ (connection (client_after 7)) = Some s /\ parse (connection (client_after 7)) stray = Some v
  /\ (Sync.una s, Control.ackn v) = (101, 106)
  /\ let c' := (prepare_ingress (connection (client_after 7)) stray 0 (repeat 0 120) (Catalog.milliseconds 6)).2 in
     control_ c' = control_ (connection (client_after 7))
     /\ exists s', sender_ c' = Some s' /\ Sync.una s' = Control.ackn v /\ Sync.nxt s' = Sync.nxt s.
Proof.
  eexists _, _. split; [vm_compute; reflexivity|]. split; [vm_compute; reflexivity|]. split; [vm_compute; reflexivity|].
  eapply (unacceptable_segment_acknowledges (connection (client_after 7)) (clock (client_after 7))).
  - apply run_inv; [apply client_reachable|vm_compute; reflexivity].
  - vm_compute. congruence.
  - vm_compute. reflexivity.
  - apply list.Forall_forall. intros x Hx. assert (forallb u8b stray = true) as H by (vm_compute; reflexivity).
    apply list_elem_of_In in Hx. apply (proj1 (forallb_forall _ _) H) in Hx. unfold u8b in Hx. unfold is_u8. lia.
  - vm_compute. reflexivity.
  - split; vm_compute; congruence.
  - vm_compute. congruence.
  - vm_compute. reflexivity.
  - vm_compute. reflexivity.
  - vm_compute. reflexivity.
  - vm_compute. reflexivity.
  - vm_compute. reflexivity.
  - vm_compute. reflexivity.
  - vm_compute. split; congruence.
Defined.

Lemma nothing_new_after_fin_witness :
  let p := value_or (mkPending (control_ client) None None None (timestamps_ client) None Send.no_transmission
                       Control.no_segment 0 Control.Event.none false false false)
             (pending_ (prepare (connection (client_after 10)) Deadline (repeat 0 120) (Catalog.milliseconds 1100)).2) in
  Send.Bytes.retransmission (Send.range (p_sender_transmission p)) = true.
Proof.
  intros p. apply (nothing_new_after_fin (connection (client_after 10)) (clock (client_after 10)) Deadline (repeat 0 120) (Catalog.milliseconds 1100)).
  - apply run_inv; [apply client_reachable|vm_compute; reflexivity].
  - vm_compute. reflexivity.
  - vm_compute. reflexivity.
  - exact I.
  - split; vm_compute; reflexivity.
Defined.

End ConnectionRuns.
