(* ===== verification/Ordering.v ===== *)
(** * Comparators and [std::sort]

    The comparison functions the program hands to [std::sort] compare field by
    field; here each is the lexicographic order of a list of integer keys.  The
    order [std::sort] gives to equivalent elements is not specified, so the
    definitions that sort take any sort that permutes its input into an order
    without inversions. *)

From S2P Require Import Prelude.
From stdpp Require Import sorting.
#[local] Open Scope Z_scope.

(** ** Strict weak orders *)

Record strict_weak {A} (less : A -> A -> bool) : Prop := {
  less_asym : forall x y, less x y = true -> less y x = false;
  less_negtrans : forall x y z, less x y = false -> less y z = false -> less x z = false
}.

(** [x] may stand before [y] in a sorted range. *)
Definition before_in {A} (less : A -> A -> bool) (x y : A) : Prop := less y x = false.

(** The contract of [std::sort]. *)
Class Sorting := {
  std_sort {A} (less : A -> A -> bool) : list A -> list A;
  std_sort_permutes {A} (less : A -> A -> bool) l : strict_weak less -> std_sort less l ≡ₚ l;
  std_sort_orders {A} (less : A -> A -> bool) l :
    strict_weak less -> StronglySorted (before_in less) (std_sort less l)
}.

#[export] Instance before_in_dec {A} (less : A -> A -> bool) x y : Decision (before_in less x y).
Proof. unfold before_in. apply _. Defined.

Lemma before_in_trans {A} (less : A -> A -> bool) :
  strict_weak less -> Transitive (before_in less).
Proof. intros H x y z Hxy Hyz. exact (less_negtrans _ H z y x Hyz Hxy). Qed.

Lemma before_in_total {A} (less : A -> A -> bool) : strict_weak less -> Total (before_in less).
Proof.
  intros H x y. unfold before_in. destruct (less y x) eqn:E; [|now left].
  right. exact (less_asym _ H _ _ E).
Qed.

(** A merge sort meets the contract. *)
#[export] Program Instance merge_sorting : Sorting := {
  std_sort A less := merge_sort (before_in less)
}.
Next Obligation. intros A less l _. apply merge_sort_Permutation. Qed.
Next Obligation.
  intros A less l H. apply Sorted_StronglySorted; [now apply before_in_trans|].
  apply Sorted_merge_sort. now apply before_in_total.
Qed.

(** ** Lexicographic comparison of keys *)

Fixpoint lex (a b : list Z) : bool :=
  match a, b with
  | x :: a, y :: b => if negb (x =? y) then x <? y else lex a b
  | _, _ => false
  end.

Lemma lex_cons x a y b : lex (x :: a) (y :: b) = if negb (x =? y) then x <? y else lex a b.
Proof. reflexivity. Qed.

Lemma lex_irrefl a : lex a a = false.
Proof. induction a as [|x a IH]; [done|]. rewrite lex_cons, Z.eqb_refl. exact IH. Qed.

Lemma lex_asym a b : lex a b = true -> lex b a = false.
Proof.
  revert b. induction a as [|x a IH]; intros [|y b]; try done. rewrite !lex_cons.
  destruct (Z.eqb_spec x y) as [->|]; [rewrite Z.eqb_refl; apply IH|].
  rewrite (proj2 (Z.eqb_neq y x)) by lia. cbn. lia.
Qed.

Lemma lex_negtrans a b c :
  length a = length b -> length b = length c ->
  lex a b = false -> lex b c = false -> lex a c = false.
Proof.
  revert b c. induction a as [|x a IH]; intros [|y b] [|z c]; try done. intros H1 H2.
  rewrite !lex_cons. destruct (Z.eqb_spec x y), (Z.eqb_spec y z), (Z.eqb_spec x z); cbn; try lia.
  apply IH; cbn in *; lia.
Qed.

(** Keys neither of which is smaller are equal. *)
Lemma lex_antisym a b : length a = length b -> lex a b = false -> lex b a = false -> a = b.
Proof.
  revert b. induction a as [|x a IH]; intros [|y b]; try done. intros Hl. rewrite !lex_cons.
  destruct (Z.eqb_spec x y) as [->|]; [rewrite Z.eqb_refl|rewrite (proj2 (Z.eqb_neq y x)) by lia; cbn; lia].
  cbn. intros H1 H2. f_equal. apply IH; [now injection Hl|done|done].
Qed.

Lemma lex_app a b c d :
  length a = length b ->
  lex (a ++ c) (b ++ d) = if lex a b then true else if lex b a then false else lex c d.
Proof.
  revert b. induction a as [|x a IH]; intros [|y b]; try done. intros Hl. cbn [app]. rewrite !lex_cons.
  destruct (Z.eqb_spec x y) as [->|]; [rewrite Z.eqb_refl; cbn; apply IH; now injection Hl|].
  rewrite (proj2 (Z.eqb_neq y x)) by lia. cbn. destruct (x <? y) eqn:E; [done|].
  now replace (y <? x) with true by lia.
Qed.

(** A comparator by keys of one length is a strict weak order. *)
Lemma keyed_strict_weak {A} (less : A -> A -> bool) (key : A -> list Z) n :
  (forall x, length (key x) = n) -> (forall x y, less x y = lex (key x) (key y)) -> strict_weak less.
Proof.
  intros Hn Hk. split.
  - intros x y. rewrite !Hk. apply lex_asym.
  - intros x y z. rewrite !Hk. apply lex_negtrans; congruence.
Qed.

Lemma Forall_before_app {A} (R : A -> A -> Prop) x l :
  StronglySorted R (x :: l) -> forall y, y ∈ l -> R x y.
Proof. intros H y Hy. apply StronglySorted_inv in H as [_ H]. now apply (proj1 (list.Forall_forall _ _) H). Qed.

Lemma StronglySorted_take {A} (R : A -> A -> Prop) n l : StronglySorted R l -> StronglySorted R (take n l).
Proof. intros H. rewrite <- (take_drop n l) in H. now apply StronglySorted_app_1_l in H. Qed.

Lemma StronglySorted_filter {A} (R : A -> A -> Prop) (f : A -> bool) l :
  StronglySorted R l -> StronglySorted R (List.filter f l).
Proof.
  induction 1 as [|x l Hl IH Hx]; cbn; [constructor|]. destruct (f x); [|done].
  constructor; [done|]. apply list.Forall_forall. intros y [Hy _]%list_elem_of_In%filter_In.
  apply (proj1 (list.Forall_forall _ _) Hx). now apply list_elem_of_In.
Qed.

(** Filtering by a predicate that depends only on the elements. *)
Lemma filter_permutation {A} (f g : A -> bool) l l' :
  l ≡ₚ l' -> (forall x, f x = g x) -> List.filter f l ≡ₚ List.filter g l'.
Proof.
  intros H Hfg. rewrite (filter_ext f g Hfg l). clear Hfg. induction H as [|x l l' _ IH|x y l|l1 l2 l3 _ IH1 _ IH2]; cbn.
  - done.
  - destruct (g x); [now constructor|done].
  - destruct (g x), (g y); done || apply perm_swap.
  - now rewrite IH1.
Qed.

Lemma existsb_permutation {A} (f : A -> bool) l l' : l ≡ₚ l' -> existsb f l = existsb f l'.
Proof.
  intros H. apply eq_true_iff_eq. rewrite !existsb_exists.
  split; intros (x & Hx & Hf); exists x; (split; [|done]); [|symmetry in H]; now apply (Permutation_in _ H).
Qed.

Lemma elem_of_filter {A} (f : A -> bool) l x : x ∈ List.filter f l <-> x ∈ l /\ f x = true.
Proof. rewrite !list_elem_of_In. apply filter_In. Qed.

Lemma elem_of_flat_map {A B} (f : A -> list B) l y :
  y ∈ flat_map f l <-> exists x, x ∈ l /\ y ∈ f x.
Proof. rewrite list_elem_of_In, in_flat_map. setoid_rewrite list_elem_of_In. done. Qed.
