(* ===== verification/Routes.v ===== *)
(** * IPv4 routes (core/src/forwarding/multi_device_routing.cpp)

    Route selection of one router: the control plane's [RouteTable] gathers
    connected, protocol and static candidates, orders them and publishes the
    selected paths of every prefix; the forwarding plane looks destinations up in
    the published program (lookup, and the two operations of
    router_forwarder.cpp that own the program).

    An array with a count is the list of its live entries; nothing reads past the
    count. *)

From S2P Require Import Prelude Catalog Arena Ordering.
Import Arena.

Module Routes.

(** ** Values that cross the RIB and FIB boundary *)

Inductive RouteSource := connected | static_route | ospf | ospf3.
Inductive OspfPathType :=
| none | intra_area | inter_area | external_type_1 | external_type_2 | nssa_type_1 | nssa_type_2.

#[export] Instance RouteSource_eq_dec : EqDecision RouteSource.
Proof. solve_decision. Defined.
#[export] Instance OspfPathType_eq_dec : EqDecision OspfPathType.
Proof. solve_decision. Defined.

(** The numeric value of an enumerator, by which the source compares sources. *)
Definition source_number (x : RouteSource) : Z :=
  match x with connected => 0 | static_route => 1 | ospf => 2 | ospf3 => 3 end.

Definition source_is (x y : RouteSource) : bool := bool_decide (x = y).
Definition type_is (x y : OspfPathType) : bool := bool_decide (x = y).

Record Route := mkRoute {
  network : Z;
  next_hop : Z;
  port_ordinal : Z;
  prefix_length : Z;
  preference : Z;
  metric : Z;
  source : RouteSource;
  local_system : bool;
  ospf_path_type : OspfPathType;
  protocol_instance : Z
}.

#[export] Instance Route_eq_dec : EqDecision Route.
Proof. solve_decision. Defined.

Record ConnectedInput := mkConnected {
  c_configured : bool;
  c_operational : bool;
  c_network : Z;
  c_port_ordinal : Z;
  c_prefix_length : Z;
  c_local_system : bool
}.

Record StaticInput := mkStatic {
  s_configured : bool;
  s_network : Z;
  s_next_hop : Z;
  s_prefix_length : Z;
  s_indirect : bool
}.

Record DynamicInput := mkDynamic {
  d_configured : bool;
  d_operational : bool;
  d_network : Z;
  d_next_hop : Z;
  d_port_ordinal : Z;
  d_preference : Z;
  d_metric : Z;
  d_prefix_length : Z;
  d_source : RouteSource;
  d_path_type : OspfPathType;
  d_internal_metric : Z;
  d_area_id : Z;
  d_tag : Z;
  d_instance : Z;
  d_alternate : bool
}.

Record FibProgram := mkFib {
  generation : Z;
  routes : list Route;
  count : Z;
  loop_free_alternate_count : Z
}.

(** [length ? 0xffffffffU << (32U - length) : 0U] *)
Definition prefix_mask (length : Z) : Z :=
  if negb (length =? 0) then u32 (Z.shiftl 4294967295 (32 - length)) else 0.

(** ** Selection order *)

Definition is_ospf (x : RouteSource) : bool := source_is x ospf || source_is x ospf3.

Definition valid_dynamic (x : RouteSource) (path : OspfPathType) : bool :=
  is_ospf x && negb (type_is path none).

Definition path_rank (path : OspfPathType) : Z :=
  match path with
  | none => 0
  | intra_area => 1
  | inter_area => 2
  | external_type_1 | nssa_type_1 => 3
  | external_type_2 | nssa_type_2 => 4
  end.

(** Routes carry no internal metric, so the source's conditional comparison of it
    is not instantiated for them. *)
Definition selection_less (left right : Route) : bool :=
  if negb (preference left =? preference right) then preference left <? preference right
  else if negb (source_number (source left) =? source_number (source right))
  then source_number (source left) <? source_number (source right)
  else if negb (path_rank (ospf_path_type left) =? path_rank (ospf_path_type right))
  then path_rank (ospf_path_type left) <? path_rank (ospf_path_type right)
  else if negb (metric left =? metric right) then metric left <? metric right
  else if negb (protocol_instance left =? protocol_instance right)
  then protocol_instance left <? protocol_instance right
  else false.

Definition same_selection_class (left right : Route) : bool :=
  negb (selection_less left right) && negb (selection_less right left).

Definition same_prefix (left right : Route) : bool :=
  (network left =? network right) && (prefix_length left =? prefix_length right).

(** The comparator of the primary sort. *)
Definition route_less (left right : Route) : bool :=
  if negb (network left =? network right) then network left <? network right
  else if negb (prefix_length left =? prefix_length right) then prefix_length right <? prefix_length left
  else if negb (same_selection_class left right) then selection_less left right
  else if negb (next_hop left =? next_hop right) then next_hop left <? next_hop right
  else port_ordinal left <? port_ordinal right.

(** The comparator and the equality of the repair candidates. *)
Definition alternate_less (left right : Route) : bool :=
  lex [network left; prefix_length left; next_hop left; port_ordinal left]
      [network right; prefix_length right; next_hop right; port_ordinal right].
Definition same_alternate (left right : Route) : bool :=
  same_prefix left right && (next_hop left =? next_hop right)
  && (port_ordinal left =? port_ordinal right).

(** ** Staging *)

(** [if (next_count == next.size()) reject; next[next_count++] = route] *)
Definition push (next : list Route) (route : Route) : option (list Route) :=
  if size next =? Catalog.maximum_fib_routes_per_router then None else Some (next ++ [route]).

(** A loop that pushes what each entry gives, and stops when one does not fit. *)
Fixpoint push_all (next : list Route) (rs : list Route) : option (list Route) :=
  match rs with
  | [] => Some next
  | r :: rs => match push next r with Some next => push_all next rs | None => None end
  end.

Fixpoint stage {A} (contribution : A -> list Route) (next : list Route) (entries : list A)
    : option (list Route) :=
  match entries with
  | [] => Some next
  | e :: entries =>
      match push_all next (contribution e) with
      | Some next => stage contribution next entries
      | None => None
      end
  end.

Definition connected_route (entry : ConnectedInput) : list Route :=
  if negb (c_configured entry) || negb (c_operational entry) then []
  else [mkRoute (Z.land (c_network entry) (prefix_mask (c_prefix_length entry))) 0 (c_port_ordinal entry)
          (c_prefix_length entry) 0 0 connected (c_local_system entry) none 0].

Definition type_two (path : OspfPathType) : bool :=
  type_is path external_type_2 || type_is path nssa_type_2.

(** A primary protocol candidate: configured, operational and not a repair. *)
Definition primary_input (entry : DynamicInput) : bool :=
  d_configured entry && d_operational entry && negb (d_alternate entry).

Definition dominates (entry other : DynamicInput) : bool :=
  primary_input other
  && (d_network other =? d_network entry) && (d_prefix_length other =? d_prefix_length entry)
  && (d_preference other =? d_preference entry) && source_is (d_source other) (d_source entry)
  && type_is (d_path_type other) (d_path_type entry) && (d_instance other =? d_instance entry)
  && (d_metric other =? d_metric entry) && (d_internal_metric other <? d_internal_metric entry).

Definition dominated (dynamic : list DynamicInput) (entry : DynamicInput) : bool :=
  type_two (d_path_type entry) && existsb (dominates entry) dynamic.

(** The FIB row of a protocol candidate. *)
Definition dynamic_value (entry : DynamicInput) : Route :=
  mkRoute (Z.land (d_network entry) (prefix_mask (d_prefix_length entry))) (d_next_hop entry)
    (d_port_ordinal entry) (d_prefix_length entry) (d_preference entry) (d_metric entry) (d_source entry)
    false (d_path_type entry) (d_instance entry).

Definition dynamic_route (dynamic : list DynamicInput) (entry : DynamicInput) : list Route :=
  if negb (primary_input entry) || dominated dynamic entry then [] else [dynamic_value entry].

(** A repair belongs to a route of its own protocol for its own prefix. *)
Definition repairs (alternate candidate : Route) : bool :=
  same_prefix candidate alternate && source_is (source candidate) (source alternate)
  && type_is (ospf_path_type candidate) (ospf_path_type alternate)
  && (protocol_instance candidate =? protocol_instance alternate).

Definition alternate_route (next : list Route) (entry : DynamicInput) : list Route :=
  if negb (d_configured entry && d_operational entry && d_alternate entry) then []
  else if existsb (repairs (dynamic_value entry)) next then [dynamic_value entry] else [].

(** [std::unique]: of each run of equal elements the first. *)
Fixpoint unique_from (kept : Route) (l : list Route) : list Route :=
  match l with
  | [] => [kept]
  | x :: l => if same_alternate kept x then unique_from kept l else kept :: unique_from x l
  end.
Definition unique (l : list Route) : list Route :=
  match l with [] => [] | x :: l => unique_from x l end.

(** ** Resolution of static routes *)

(** [(next_hop & mask) == (network & mask)] for the mask of a prefix *)
Definition on_link (next_hop network length : Z) : bool :=
  Z.land next_hop (prefix_mask length) =? Z.land network (prefix_mask length).

Definition resolves_directly (entry : StaticInput) (candidate : ConnectedInput) : bool :=
  negb (negb (c_configured candidate) || negb (c_operational candidate) || c_local_system candidate)
  && on_link (s_next_hop entry) (c_network candidate) (c_prefix_length candidate).

Fixpoint resolve_directly (entry : StaticInput) (resolution : option ConnectedInput)
    (interfaces : list ConnectedInput) : option ConnectedInput :=
  match interfaces with
  | [] => resolution
  | candidate :: interfaces =>
      resolve_directly entry
        (if negb (resolves_directly entry candidate) then resolution
         else match resolution with
              | None => Some candidate
              | Some r => if c_prefix_length r <? c_prefix_length candidate then Some candidate
                          else resolution
              end) interfaces
  end.

(** The row of a static route over a resolved next hop and port. *)
Definition static_value (entry : StaticInput) (next_hop port : Z) : Route :=
  mkRoute (Z.land (s_network entry) (prefix_mask (s_prefix_length entry))) next_hop port
    (s_prefix_length entry) 5 1 static_route false none 0.

Definition resolves_indirectly (entry : StaticInput) (candidate : DynamicInput) : bool :=
  primary_input candidate && on_link (s_next_hop entry) (d_network candidate) (d_prefix_length candidate).

(** A candidate that replaces the best one so far. *)
Definition better_resolution (candidate best : DynamicInput) : bool :=
  (d_prefix_length best <? d_prefix_length candidate)
  || ((d_prefix_length candidate =? d_prefix_length best)
      && ((d_preference candidate <? d_preference best)
          || ((d_preference candidate =? d_preference best) && (d_metric candidate <? d_metric best)))).

Fixpoint resolve_indirectly (entry : StaticInput) (best : option DynamicInput)
    (dynamic : list DynamicInput) : option DynamicInput :=
  match dynamic with
  | [] => best
  | candidate :: dynamic =>
      resolve_indirectly entry
        (if negb (resolves_indirectly entry candidate) then best
         else match best with
              | None => Some candidate
              | Some b => if better_resolution candidate b then Some candidate else best
              end) dynamic
  end.

Definition equal_resolution (best candidate : DynamicInput) : bool :=
  (d_prefix_length candidate =? d_prefix_length best) && (d_preference candidate =? d_preference best)
  && (d_metric candidate =? d_metric best).

Definition static_routes (interfaces : list ConnectedInput) (dynamic : list DynamicInput)
    (entry : StaticInput) : list Route :=
  if negb (s_configured entry) then []
  else if negb (s_indirect entry) then
    match resolve_directly entry None interfaces with
    | None => []
    | Some resolution => [static_value entry (s_next_hop entry) (c_port_ordinal resolution)]
    end
  else
    match resolve_indirectly entry None dynamic with
    | None => []
    | Some best =>
        map (fun candidate => static_value entry (d_next_hop candidate) (d_port_ordinal candidate))
          (List.filter (fun candidate => resolves_indirectly entry candidate
                                         && equal_resolution best candidate) dynamic)
    end.

(** ** Compaction in place

    [next] is read at [begin], [end] and [index] and written at [selected]; the
    winner is a reference to [next[begin]], so it is read again after each write. *)

Definition no_route : Route := mkRoute 0 0 0 0 0 0 connected false none 0.
#[export] Instance route_inhabited : Inhabited Route := populate no_route.

(** [while (end < count && next[end] has the prefix of next[begin]) ++end] *)
Fixpoint run_end (fuel : nat) (next : list Route) (begin_ end_ : nat) : nat :=
  match fuel with
  | O => end_
  | S fuel =>
      if bool_decide (end_ < length next)%nat && same_prefix (next !!! end_) (next !!! begin_)
      then run_end fuel next begin_ (S end_) else end_
  end.

(** The loop over [index]: copies until the run, the winning class or the paths
    are exhausted. *)
Fixpoint copy_paths (fuel : nat) (maximum : Z) (next : list Route) (begin_ end_ index selected : nat) (paths : Z)
    : list Route * nat :=
  match fuel with
  | O => (next, selected)
  | S fuel =>
      if bool_decide (index < end_)%nat && (paths <? maximum) then
        let candidate := next !!! index in
        if negb (same_selection_class candidate (next !!! begin_)) then (next, selected)
        else copy_paths fuel maximum (<[selected := candidate]> next) begin_ end_ (S index) (S selected)
               (paths + 1)
      else (next, selected)
  end.

Fixpoint compact_from (fuel : nat) (maximum : Z) (next : list Route) (begin_ selected : nat)
    : list Route * nat :=
  match fuel with
  | O => (next, selected)
  | S fuel =>
      if bool_decide (begin_ < length next)%nat then
        let end_ := run_end (length next) next begin_ (S begin_) in
        let (next, selected) := copy_paths (length next) maximum next begin_ end_ begin_ selected 0 in
        compact_from fuel maximum next end_ selected
      else (next, selected)
  end.

Definition compact (maximum : Z) (next : list Route) : list Route :=
  let (next, selected_count) := compact_from (length next) maximum next 0 0 in
  take selected_count next.

(** ** The route table *)

Record t := mk {
  routes_ : list Route;
  loop_free_alternates_ : list Route;
  last_rebuild_valid_ : bool
}.
#[export] Instance t_settable : Settable t := fun s =>
  mk (routes_ s) (loop_free_alternates_ s) (last_rebuild_valid_ s).

Definition initial : t := mk [] [] true.

Definition connected_valid (entry : ConnectedInput) : bool :=
  negb (c_configured entry
        && ((32 <? c_prefix_length entry)
            || (c_local_system entry && negb (c_prefix_length entry =? 32))
            || (negb (c_local_system entry)
                && (Catalog.maximum_ports_per_router <=? c_port_ordinal entry)))).
Definition static_valid (entry : StaticInput) : bool :=
  negb (s_configured entry && (32 <? s_prefix_length entry)).
Definition ecmp_valid (maximum_ecmp_paths : Z) : bool :=
  negb ((maximum_ecmp_paths =? 0) || (Catalog.maximum_ecmp_paths <? maximum_ecmp_paths)).
Definition dynamic_valid (entry : DynamicInput) : bool :=
  negb (d_configured entry
        && ((32 <? d_prefix_length entry)
            || (Catalog.maximum_ports_per_router <=? d_port_ordinal entry)
            || negb (valid_dynamic (d_source entry) (d_path_type entry)))).

Definition inputs_valid (interfaces : list ConnectedInput) (statics : list StaticInput)
    (dynamic : list DynamicInput) (maximum_ecmp_paths : Z) : bool :=
  forallb connected_valid interfaces && forallb static_valid statics && ecmp_valid maximum_ecmp_paths
  && forallb dynamic_valid dynamic.

(** The comparison of two published routes: every field.  The one of repairs
    leaves [local_system] out, which no repair sets. *)
Definition same_route (left right : Route) : bool :=
  (network left =? network right) && (next_hop left =? next_hop right)
  && (port_ordinal left =? port_ordinal right) && (prefix_length left =? prefix_length right)
  && (preference left =? preference right) && (metric left =? metric right)
  && source_is (source left) (source right) && eqb (local_system left) (local_system right)
  && type_is (ospf_path_type left) (ospf_path_type right)
  && (protocol_instance left =? protocol_instance right).
Definition same_repair (left right : Route) : bool :=
  same_route left (mkRoute (network right) (next_hop right) (port_ordinal right) (prefix_length right)
                     (preference right) (metric right) (source right) (local_system left)
                     (ospf_path_type right) (protocol_instance right)).

(** [std::equal] over ranges of one length *)
Fixpoint equal_ranges {A} (same : A -> A -> bool) (l l' : list A) : bool :=
  match l, l' with
  | x :: l, y :: l' => same x y && equal_ranges same l l'
  | _, _ => true
  end.

(** [last_rebuild_valid_ = false; return false;] *)
Definition reject (s : t) : bool * t := (false, s <| last_rebuild_valid_ := false |>).

Section WithSort.
Context {sorting : Sorting}.

Definition publish (s : t) (next alternates : list Route) (maximum_ecmp_paths : Z) : bool * t :=
  let next := compact maximum_ecmp_paths (std_sort route_less next) in
  let alternates := List.filter (fun alternate => existsb (repairs alternate) next) alternates in
  if Catalog.maximum_fib_routes_per_router <? size next + size alternates then reject s
  else
    let changed :=
      negb (size next =? size (routes_ s))
      || negb (size alternates =? size (loop_free_alternates_ s))
      || negb (equal_ranges same_route next (routes_ s))
      || negb (equal_ranges same_repair alternates (loop_free_alternates_ s)) in
    (changed,
     (if changed then s <| routes_ := next |> <| loop_free_alternates_ := alternates |> else s)
     <| last_rebuild_valid_ := true |>).

Definition rebuild (s : t) (interfaces : list ConnectedInput) (statics : list StaticInput)
    (dynamic : list DynamicInput) (maximum_ecmp_paths : Z) : bool * t :=
  if negb (inputs_valid interfaces statics dynamic maximum_ecmp_paths) then reject s
  else
    match stage connected_route [] interfaces with
    | None => reject s
    | Some next =>
        match stage (dynamic_route dynamic) next dynamic with
        | None => reject s
        | Some next =>
            match stage (alternate_route next) [] dynamic with
            | None => reject s
            | Some alternates =>
                let alternates := unique (std_sort alternate_less alternates) in
                match stage (static_routes interfaces dynamic) next statics with
                | None => reject s
                | Some next => publish s next alternates maximum_ecmp_paths
                end
            end
        end
    end.

Definition compile (s : t) (gen : Z) : FibProgram :=
  mkFib gen (routes_ s ++ loop_free_alternates_ s) (u16 (size (routes_ s)))
    (u16 (size (loop_free_alternates_ s))).
End WithSort.

(** ** Lookup *)

Definition covers (destination : Z) (candidate : Route) : bool :=
  Z.land destination (prefix_mask (prefix_length candidate)) =? network candidate.

(** The scan: the best prefix so far, and its equal paths; [joins] is the test an
    equal path must pass beside its prefix. *)
Fixpoint scan (joins : Route -> Route -> bool) (destination : Z) (best : option Route) (equal : list Route)
    (candidates : list Route) : option Route * list Route :=
  match candidates with
  | [] => (best, equal)
  | candidate :: candidates =>
      if negb (covers destination candidate) then scan joins destination best equal candidates
      else
        match best with
        | None => scan joins destination (Some candidate) [candidate] candidates
        | Some b =>
            if prefix_length b <? prefix_length candidate
            then scan joins destination (Some candidate) [candidate] candidates
            else if (prefix_length candidate =? prefix_length b) && (network candidate =? network b)
                    && joins candidate b && (size equal <? Catalog.maximum_ecmp_paths)
            then scan joins destination best (equal ++ [candidate]) candidates
            else scan joins destination best equal candidates
        end
  end.

(** [*equal[flow_hash % equal_count]] *)
Definition pick (scanned : option Route * list Route) (flow_hash : Z) : option Route :=
  match scanned with
  | (None, _) => None
  | (Some _, equal) => equal !! Z.to_nat (flow_hash mod size equal)
  end.

Definition primaries (fib : FibProgram) : list Route := take (Z.to_nat (count fib)) (routes fib).
Definition repair_rows (fib : FibProgram) : list Route :=
  take (Z.to_nat (loop_free_alternate_count fib)) (drop (Z.to_nat (count fib)) (routes fib)).

Definition lookup (fib : FibProgram) (destination flow_hash : Z) : option Route :=
  pick (scan same_selection_class destination None [] (primaries fib)) flow_hash.

Definition lookup_loop_free_alternate (fib : FibProgram) (destination flow_hash : Z) : option Route :=
  pick (scan (fun _ _ => true) destination None [] (repair_rows fib)) flow_hash.

(** ** The forwarding owner (router_forwarder.cpp) *)

Record ForwardPort := mkPort { configured : bool; operational : bool }.

(** [ordinal < ports_.size() && ports_[ordinal].configured && ...operational] *)
Definition usable_port (ports : list ForwardPort) (ordinal : Z) : bool :=
  match ports !! Z.to_nat ordinal with
  | Some port => configured port && operational port
  | None => false
  end.

(** One of the two probing loops: up to [fuel] offsets of the flow hash. *)
Fixpoint probe (find : Z -> option Route) (usable : Route -> bool) (flow_hash offset : Z) (fuel : nat)
    : option Route :=
  match fuel with
  | O => None
  | S fuel =>
      match find (u64 (flow_hash + offset)) with
      | None => None
      | Some candidate =>
          if usable candidate then Some candidate else probe find usable flow_hash (offset + 1) fuel
      end
  end.

Definition probes : nat := Z.to_nat Catalog.maximum_ecmp_paths.

Definition lookup_ipv4_route (fib : FibProgram) (ports : list ForwardPort) (destination flow_hash : Z)
    : option Route :=
  match probe (lookup fib destination)
          (fun candidate => local_system candidate || usable_port ports (port_ordinal candidate))
          flow_hash 0 probes with
  | Some selected => Some selected
  | None => probe (lookup_loop_free_alternate fib destination)
              (fun candidate => usable_port ports (port_ordinal candidate)) flow_hash 0 probes
  end.

(** The installed program with the time each primary route was first installed. *)
Record Installed := mkInstalled { fib_ : FibProgram; installed_at_ : list Z }.

Fixpoint prior_time (route : Route) (routes : list Route) (times : list Z) (now : Z) : Z :=
  match routes, times with
  | r :: routes, at_ :: times => if same_route r route then at_ else prior_time route routes times now
  | _, _ => now
  end.

Definition program_fib (s : Installed) (program : FibProgram) (now : Z) : bool * Installed :=
  if (generation program <? generation (fib_ s))
     || (Catalog.maximum_fib_routes_per_router <? count program)
     || (Catalog.maximum_fib_routes_per_router <? count program + loop_free_alternate_count program)
  then (false, s)
  else if (generation program =? generation (fib_ s)) && negb (generation (fib_ s) =? 0) then
    (negb (negb (count program =? count (fib_ s))
           || negb (loop_free_alternate_count program =? loop_free_alternate_count (fib_ s))
           || negb (equal_ranges same_route (primaries program) (primaries (fib_ s)))
           || negb (equal_ranges same_route (repair_rows program) (repair_rows (fib_ s)))), s)
  else
    (true, mkInstalled program
             (map (fun route => prior_time route (primaries (fib_ s)) (installed_at_ s) now)
                (primaries program))).

End Routes.
