(* ===== verification/RouteSelection.v ===== *)
(** * What the route table selects

    The comparators are lexicographic orders, staging gathers a declarative list
    of candidates, the compaction in place is a plain function of the sorted
    candidates, and what it keeps for each prefix is its best class. *)

From S2P Require Import Prelude Catalog Arena Ordering Routes.
From stdpp Require Import sorting.
Import Arena.
#[local] Open Scope Z_scope.

Module RouteSelection.
Import Routes.
#[local] Existing Instance Routes.t_settable.

(** ** The comparators *)

(** What [selection_less] compares, and what the primary sort compares. *)
Definition class_key (r : Route) : list Z :=
  [preference r; source_number (source r); path_rank (ospf_path_type r); metric r; protocol_instance r].
Definition prefix_key (r : Route) : list Z := [network r; - prefix_length r].
Definition route_key (r : Route) : list Z :=
  prefix_key r ++ class_key r ++ [next_hop r; port_ordinal r].

Lemma selection_less_key l r : selection_less l r = lex (class_key l) (class_key r).
Proof. reflexivity. Qed.

Lemma same_class_key l r : same_selection_class l r = true <-> class_key l = class_key r.
Proof.
  unfold same_selection_class. rewrite !selection_less_key, andb_true_iff, !negb_true_iff. split.
  - intros [H1 H2]. now apply lex_antisym.
  - intros ->. now rewrite lex_irrefl.
Qed.

Lemma same_class_refl r : same_selection_class r r = true.
Proof. now apply same_class_key. Qed.

Lemma same_prefix_key l r : same_prefix l r = true <-> prefix_key l = prefix_key r.
Proof.
  unfold same_prefix, prefix_key. rewrite andb_true_iff, !Z.eqb_eq. split.
  - intros [-> ->]. reflexivity.
  - intros H. injection H. lia.
Qed.

Lemma route_less_key l r : route_less l r = lex (route_key l) (route_key r).
Proof.
  unfold route_less, route_key, prefix_key. cbn [app]. rewrite !lex_cons.
  destruct (network l =? network r); [|done]. cbn [negb].
  replace (- prefix_length l =? - prefix_length r) with (prefix_length l =? prefix_length r) by lia.
  destruct (Z.eqb_spec (prefix_length l) (prefix_length r)); cbn [negb]; [|lia].
  change (?p :: ?q :: ?r :: ?s :: ?t :: ?u) with ([p; q; r; s; t] ++ u). fold (class_key l) (class_key r).
  rewrite lex_app by done. rewrite !selection_less_key. unfold same_selection_class. rewrite !selection_less_key.
  destruct (lex (class_key l) (class_key r)) eqn:E1; [done|].
  destruct (lex (class_key r) (class_key l)); [done|]. cbn [negb andb].
  rewrite !lex_cons. destruct (Z.eqb_spec (port_ordinal l) (port_ordinal r)) as [->|]; [|done].
  cbn. now rewrite Z.ltb_irrefl.
Qed.

Lemma route_less_weak : strict_weak route_less.
Proof. apply (keyed_strict_weak _ route_key 9); [done|]. apply route_less_key. Qed.

Lemma alternate_less_weak : strict_weak alternate_less.
Proof.
  apply (keyed_strict_weak _ (fun r => [network r; prefix_length r; next_hop r; port_ordinal r]) 4); done.
Qed.

(** A sorted range compares prefixes first, and classes within a prefix. *)
Lemma ordered_prefix x y : before_in route_less x y -> lex (prefix_key y) (prefix_key x) = false.
Proof.
  unfold before_in. rewrite route_less_key. unfold route_key. rewrite lex_app by done.
  destruct (lex (prefix_key y) (prefix_key x)); done.
Qed.

Lemma ordered_class x y :
  before_in route_less x y -> prefix_key x = prefix_key y -> selection_less y x = false.
Proof.
  unfold before_in. rewrite route_less_key. unfold route_key. intros H E.
  rewrite lex_app, E, lex_irrefl in H by done. rewrite lex_app in H by done. rewrite selection_less_key.
  destruct (lex (class_key y) (class_key x)); done.
Qed.

(** ** Staging *)

Lemma push_all_spec next rs :
  size next <= Catalog.maximum_fib_routes_per_router ->
  push_all next rs = if size (next ++ rs) <=? Catalog.maximum_fib_routes_per_router
                     then Some (next ++ rs) else None.
Proof.
  revert next. induction rs as [|r rs IH]; intros next H; cbn [push_all].
  - rewrite app_nil_r. now rewrite (proj2 (Z.leb_le _ _) H).
  - unfold push. destruct (Z.eqb_spec (size next) Catalog.maximum_fib_routes_per_router) as [E|E].
    + rewrite (proj2 (Z.leb_gt _ _)); [done|]. rewrite size_app. unfold size at 2. cbn [length]. lia.
    + rewrite IH by (rewrite size_app; unfold size at 2; cbn [length]; lia). now rewrite <- app_assoc.
Qed.

Lemma stage_spec {A} (f : A -> list Route) next es :
  size next <= Catalog.maximum_fib_routes_per_router ->
  stage f next es = if size (next ++ flat_map f es) <=? Catalog.maximum_fib_routes_per_router
                    then Some (next ++ flat_map f es) else None.
Proof.
  revert next. induction es as [|e es IH]; intros next H; cbn [stage flat_map].
  - rewrite app_nil_r. now rewrite (proj2 (Z.leb_le _ _) H).
  - rewrite push_all_spec by done. rewrite app_assoc. destruct (Z.leb_spec (size (next ++ f e)) Catalog.maximum_fib_routes_per_router).
    + now apply IH.
    + rewrite (proj2 (Z.leb_gt _ _)); [done|]. rewrite size_app. pose proof (size_nonneg (flat_map f es)). lia.
Qed.

(** ** Compaction *)

(** The reference: of each run of one prefix, the first paths in the class of the
    run's first route. *)
Fixpoint choose (maximum : Z) (winner : Route) (paths : Z) (l : list Route) : list Route :=
  match l with
  | [] => []
  | x :: l =>
      if same_prefix x winner then
        if (paths <? maximum) && same_selection_class x winner
        then x :: choose maximum winner (paths + 1) l
        else choose maximum winner maximum l
      else x :: choose maximum x 1 l
  end.
Definition chosen (maximum : Z) (l : list Route) : list Route :=
  match l with [] => [] | x :: l => x :: choose maximum x 1 l end.

(** What one run contributes from its [paths]-th route on. *)
Fixpoint leaders (maximum : Z) (winner : Route) (paths : Z) (l : list Route) : list Route :=
  match l with
  | [] => []
  | x :: l => if (paths <? maximum) && same_selection_class x winner
              then x :: leaders maximum winner (paths + 1) l else []
  end.

Lemma choose_run maximum w paths l rest :
  paths <= maximum -> Forall (fun x => same_prefix x w = true) l ->
  match rest with [] => True | y :: _ => same_prefix y w = false end ->
  choose maximum w paths (l ++ rest) = leaders maximum w paths l ++ chosen maximum rest.
Proof.
  intros Hp Hl Hr. assert (forall p, choose maximum w p rest = chosen maximum rest) as Hrest.
  { intros p. destruct rest as [|y rest]; [done|]. cbn. now rewrite Hr. }
  assert (Hmax : forall l, Forall (fun x => same_prefix x w = true) l ->
    choose maximum w maximum (l ++ rest) = chosen maximum rest).
  { intros k. induction 1 as [|x k Hx _ IH]; [apply Hrest|]. cbn [app choose]. rewrite Hx.
    now rewrite (proj2 (Z.ltb_ge maximum maximum)) by lia. }
  revert paths Hp. induction Hl as [|x l Hx Hl IH]; intros paths Hp; [apply Hrest|].
  cbn [app choose leaders]. rewrite Hx. destruct (_ && _) eqn:E; [|now apply Hmax].
  bool_to_prop. cbn [app]. f_equal. apply IH. lia.
Qed.

(** ** The compaction in place *)

Lemma drop_lookup_total (l : list Route) i :
  (i < length l)%nat -> drop i l = (l !!! i) :: drop (S i) l.
Proof. intros H. apply drop_S. now apply list_lookup_lookup_total_lt. Qed.

Lemma total_of_drop (l l' : list Route) b i :
  drop b l = drop b l' -> (b <= i)%nat -> l !!! i = l' !!! i.
Proof.
  intros H Hi. rewrite !list_lookup_total_alt. f_equal.
  replace i with (b + (i - b))%nat by lia. rewrite <- !lookup_drop. now rewrite H.
Qed.

Lemma run_end_spec fuel next b e :
  (length next - e <= fuel)%nat -> (e <= length next)%nat ->
  let stop := run_end fuel next b e in
  (e <= stop <= length next)%nat
  /\ Forall (fun x => same_prefix x (next !!! b) = true) (take (stop - e) (drop e next))
  /\ match drop stop next with [] => True | y :: _ => same_prefix y (next !!! b) = false end.
Proof.
  revert e. induction fuel as [|fuel IH]; intros e Hf He; cbn [run_end].
  - rewrite Nat.sub_diag. cbn. assert (e = length next) as -> by lia. rewrite drop_all. auto with lia.
  - case_bool_decide as Hlt; cbn [andb].
    + destruct (same_prefix (next !!! e) (next !!! b)) eqn:E.
      * destruct (IH (S e)) as (H1 & H2 & H3); [lia|lia|].
        set (stop := run_end fuel next b (S e)) in *. split; [lia|]. split; [|done].
        rewrite drop_lookup_total by done. replace (stop - e)%nat with (S (stop - S e)) by lia.
        cbn [take]. now constructor.
      * rewrite Nat.sub_diag. split; [lia|]. split; [constructor|].
        now rewrite drop_lookup_total.
    + rewrite Nat.sub_diag. assert (e = length next) as -> by lia. rewrite drop_all. auto with lia.
Qed.

(** Writes below [index] leave the unread candidates alone, and a write at [begin_]
    leaves its class alone, so the winner's class is that of [orig]. *)
Lemma copy_paths_spec fuel maximum orig w end_ :
  (end_ <= length orig)%nat -> forall next begin_ index selected paths,
  (end_ - index <= fuel)%nat -> (selected <= index)%nat -> (index <= end_)%nat ->
  length next = length orig -> drop index next = drop index orig ->
  class_key (next !!! begin_) = class_key w ->
  let '(next', selected') := copy_paths fuel maximum next begin_ end_ index selected paths in
  length next' = length orig /\ (selected' <= end_)%nat /\ drop end_ next' = drop end_ orig
  /\ take selected' next'
     = take selected next ++ leaders maximum w paths (take (end_ - index) (drop index orig)).
Proof.
  intros He. induction fuel as [|fuel IH]; intros next b i sel paths Hf Hs Hi Hlen Hd Hw; cbn [copy_paths].
  - assert (i = end_) as -> by lia. rewrite Nat.sub_diag. cbn. rewrite app_nil_r. auto with lia.
  - assert (Hend : drop end_ next = drop end_ orig).
    { replace end_ with (i + (end_ - i))%nat by lia. rewrite <- !drop_drop. now rewrite Hd. }
    case_bool_decide as Hlt; cbn [andb].
    + assert (Hhead : take (end_ - i) (drop i orig) = (next !!! i) :: take (end_ - S i) (drop (S i) orig)).
      { rewrite drop_lookup_total by lia. rewrite (total_of_drop next orig i i Hd) by lia.
        replace (end_ - i)%nat with (S (end_ - S i)) by lia. done. }
      rewrite Hhead. cbn [leaders].
      assert (same_selection_class (next !!! i) (next !!! b) = same_selection_class (next !!! i) w) as Ec.
      { apply eq_true_iff_eq. rewrite !same_class_key. now rewrite Hw. }
      destruct (paths <? maximum); cbn [andb]; [|rewrite app_nil_r; auto with lia]. rewrite Ec.
      destruct (same_selection_class (next !!! i) w) eqn:E; cbn [negb];
        [|rewrite app_nil_r; auto with lia].
      specialize (IH (<[sel:=next !!! i]> next) b (S i) (S sel) (paths + 1)).
      destruct (copy_paths _ _ _ _ _ _ _ _) as [next' sel']. destruct IH as (H1 & H2 & H3 & H4); try lia.
      * now rewrite length_insert.
      * rewrite drop_insert_lt by lia. replace (S i) with (i + 1)%nat by lia. now rewrite <- !drop_drop, Hd.
      * destruct (decide (sel = b)) as [<-|Hne].
        -- rewrite list_lookup_total_insert_eq by lia. now apply same_class_key in E.
        -- now rewrite list_lookup_total_insert_ne.
      * repeat split; try done. rewrite H4.
        rewrite (take_S_r _ sel (next !!! i)) by (apply list_lookup_insert_eq; lia).
        rewrite take_insert_ge by lia. now rewrite <- app_assoc.
    + assert (i = end_) as -> by lia. rewrite Nat.sub_diag. cbn. rewrite app_nil_r. auto with lia.
Qed.

Lemma compact_from_spec fuel maximum orig :
  1 <= maximum -> forall next begin_ selected,
  (length orig - begin_ <= fuel)%nat -> (selected <= begin_)%nat -> (begin_ <= length orig)%nat ->
  length next = length orig -> drop begin_ next = drop begin_ orig ->
  let '(next', selected') := compact_from fuel maximum next begin_ selected in
  take selected' next' = take selected next ++ chosen maximum (drop begin_ orig).
Proof.
  intros Hm. induction fuel as [|fuel IH]; intros next b sel Hf Hs Hb Hlen Hd; cbn [compact_from].
  - assert (b = length orig) as -> by lia. rewrite drop_all, app_nil_r. done.
  - case_bool_decide as Hlt.
    + destruct (run_end_spec (length next) next b (S b)) as (He & Hrun & Hrest); [lia|lia|].
      set (stop := run_end (length next) next b (S b)) in *.
      pose proof (copy_paths_spec (length next) maximum orig (next !!! b) stop ltac:(lia) next b b sel 0) as Hc.
      destruct (copy_paths _ _ _ _ _ _ _ _) as [next' sel']. destruct Hc as (H1 & H2 & H3 & H4); try (lia || done).
      specialize (IH next' stop sel'). destruct (compact_from _ _ _ _ _) as [next'' sel''].
      rewrite IH by (done || lia). rewrite H4, <- app_assoc. f_equal.
      assert (Hw : next !!! b = orig !!! b) by (apply (total_of_drop _ _ b); [done|lia]).
      assert (Hstop : drop stop next = drop stop orig).
      { replace stop with (b + (stop - b))%nat by lia. rewrite <- !drop_drop. now rewrite Hd. }
      rewrite Hstop, Hw in Hrest. rewrite Hw in *.
      rewrite (drop_lookup_total orig b) by lia. cbn [chosen].
      assert (drop (S b) orig = take (stop - S b) (drop (S b) orig) ++ drop stop orig) as Esplit.
      { rewrite <- (take_drop (stop - S b) (drop (S b) orig)) at 1. rewrite drop_drop. do 2 f_equal. lia. }
      assert (Hrun' : Forall (fun x => same_prefix x (orig !!! b) = true) (take (stop - S b) (drop (S b) orig))).
      { replace (drop (S b) orig) with (drop (S b) next); [done|]. replace (S b) with (b + 1)%nat by lia.
        now rewrite <- !drop_drop, Hd. }
      rewrite Esplit at 2. rewrite (choose_run maximum (orig !!! b) 1 _ (drop stop orig)) by (done || lia).
      rewrite app_comm_cons. f_equal. replace (stop - b)%nat with (S (stop - S b)) by lia. cbn [take leaders].
      now rewrite (proj2 (Z.ltb_lt 0 maximum)), same_class_refl by lia.
    + assert (b = length orig) as -> by lia. rewrite drop_all. cbn. now rewrite app_nil_r.
Qed.

Lemma compact_chosen maximum l : 1 <= maximum -> compact maximum l = chosen maximum l.
Proof.
  intros Hm. unfold compact.
  pose proof (compact_from_spec (length l) maximum l Hm l 0 0 ltac:(lia) ltac:(lia) ltac:(lia) eq_refl eq_refl) as H.
  destruct (compact_from _ _ _ _ _) as [next' sel']. rewrite H. now rewrite drop_0.
Qed.

(** ** What is kept for one prefix *)

(** The routes of one prefix, and among candidates those no other candidate of
    their prefix beats. *)
Definition of_prefix (n len : Z) (r : Route) : bool := (network r =? n) && (prefix_length r =? len).
Definition champion (l : list Route) (r : Route) : bool :=
  negb (existsb (fun c => same_prefix c r && selection_less c r) l).
Definition champions (l : list Route) (n len : Z) : list Route :=
  List.filter (fun r => of_prefix n len r && champion l r) l.

Section OnePrefix.
Context (n len maximum : Z).
Abbreviation on := (of_prefix n len) (only parsing).

Lemma of_prefix_key r : of_prefix n len r = true <-> prefix_key r = [n; - len].
Proof.
  unfold of_prefix, prefix_key. rewrite andb_true_iff, !Z.eqb_eq. split.
  - intros [-> ->]. reflexivity.
  - intros H. injection H. lia.
Qed.

Lemma of_prefix_same r w : same_prefix r w = true -> of_prefix n len r = of_prefix n len w.
Proof. intros H. apply same_prefix_key in H. apply eq_true_iff_eq. rewrite !of_prefix_key. now rewrite H. Qed.

Lemma of_prefix_other r w : same_prefix r w = false -> of_prefix n len w = true -> of_prefix n len r = false.
Proof.
  intros H Hw. destruct (of_prefix n len r) eqn:E; [|done]. apply of_prefix_key in E, Hw.
  assert (same_prefix r w = true) by (apply same_prefix_key; congruence). congruence.
Qed.

Lemma elem_of_choose w paths l x : x ∈ choose maximum w paths l -> x ∈ l.
Proof.
  revert w paths. induction l as [|y l IH]; intros w paths; cbn [choose]; [done|].
  repeat case_match; rewrite ?elem_of_cons; firstorder.
Qed.

Lemma filter_nothing {A} (f : A -> bool) l : (forall x, x ∈ l -> f x = false) -> List.filter f l = [].
Proof.
  induction l as [|x l IH]; intros H; cbn; [done|]. rewrite (H x) by constructor. apply IH.
  intros y Hy. apply H. now constructor.
Qed.

(** Once another prefix follows, no route of this one is left. *)
Lemma prefix_passed w x l :
  StronglySorted (before_in route_less) (w :: x :: l) -> of_prefix n len w = true -> same_prefix x w = false ->
  forall y, y ∈ x :: l -> of_prefix n len y = false.
Proof.
  intros Hs Hw Hx y Hy. destruct (of_prefix n len y) eqn:E; [|done]. exfalso.
  apply of_prefix_key in E, Hw.
  pose proof (ordered_prefix _ _ (Forall_before_app _ _ _ Hs x ltac:(constructor))) as H1.
  assert (lex (prefix_key y) (prefix_key x) = false) as H2.
  { apply elem_of_cons in Hy as [->|Hy]; [apply lex_irrefl|]. apply StronglySorted_inv in Hs as [Hs _].
    apply ordered_prefix. now apply (Forall_before_app _ _ _ Hs). }
  assert (prefix_key x = prefix_key w) as Ek by (apply lex_antisym; congruence || done).
  apply same_prefix_key in Ek. congruence.
Qed.

(** Behind a route of a worse class, the prefix has no route of the winner's class. *)
Lemma class_passed w x l y :
  StronglySorted (before_in route_less) (w :: x :: l) -> same_prefix x w = true ->
  same_selection_class x w = false -> y ∈ l -> same_prefix y w = true -> same_selection_class y w = false.
Proof.
  intros Hs Hx Hc Hy Hyw. destruct (same_selection_class y w) eqn:E; [|done]. exfalso.
  apply same_class_key in E. apply same_prefix_key in Hx, Hyw.
  pose proof (ordered_class _ _ (Forall_before_app _ _ _ Hs x ltac:(constructor)) (eq_sym Hx)) as H1.
  apply StronglySorted_inv in Hs as [Hs _].
  pose proof (ordered_class _ _ (Forall_before_app _ _ _ Hs y Hy) ltac:(congruence)) as H2.
  rewrite selection_less_key in H1, H2. rewrite E in H2.
  pose proof (lex_antisym (class_key x) (class_key w) eq_refl H1 H2) as H3.
  apply same_class_key in H3. congruence.
Qed.

Lemma choose_winner w paths l :
  StronglySorted (before_in route_less) (w :: l) -> of_prefix n len w = true -> paths <= maximum ->
  List.filter on (choose maximum w paths l)
  = take (Z.to_nat (maximum - paths)) (List.filter (fun x => on x && same_selection_class x w) l).
Proof.
  revert paths. induction l as [|x l IH]; intros paths Hs Hw Hp; cbn [choose List.filter]; [now rewrite take_nil|].
  assert (StronglySorted (before_in route_less) (w :: l)) as Hs'.
  { apply StronglySorted_inv in Hs as [H1 H2]. apply StronglySorted_inv in H1 as [H1 _].
    constructor; [done|]. now inversion H2. }
  destruct (same_prefix x w) eqn:Ex.
  - rewrite (of_prefix_same _ _ Ex), Hw. cbn [andb].
    destruct (paths <? maximum) eqn:Ep, (same_selection_class x w) eqn:Ec; cbn [andb]; bool_to_prop.
    + cbn [List.filter]. rewrite (of_prefix_same _ _ Ex), Hw.
      replace (Z.to_nat (maximum - paths)) with (S (Z.to_nat (maximum - (paths + 1)))) by lia.
      cbn [take]. f_equal. apply IH; [done|done|lia].
    + rewrite IH, Z.sub_diag by (done || lia). cbn [Z.to_nat take]. symmetry.
      rewrite filter_nothing; [now rewrite take_nil|]. intros y Hy.
      destruct (of_prefix n len y) eqn:Ey; [|done]. cbn [andb].
      apply (class_passed w x l y); try done. apply of_prefix_key in Ey, Hw. apply same_prefix_key. congruence.
    + rewrite IH, Z.sub_diag by (done || lia). replace (maximum - paths) with 0 by lia. done.
    + rewrite IH, Z.sub_diag by (done || lia). replace (maximum - paths) with 0 by lia. done.
  - pose proof (prefix_passed w x l Hs Hw Ex) as Hn. rewrite (Hn x) by constructor. cbn [andb].
    rewrite !filter_nothing; [now rewrite take_nil| |].
    + intros y Hy. rewrite (Hn y); [done|now constructor].
    + intros y Hy. apply Hn. apply elem_of_cons in Hy as [->|Hy]; [constructor|].
      constructor. now apply elem_of_choose in Hy.
Qed.

(** Before the prefix, its own first route decides. *)
Definition bests (l : list Route) : list Route :=
  match List.filter on l with
  | [] => []
  | x :: _ => List.filter (fun y => on y && same_selection_class y x) l
  end.

Lemma choose_later w paths l :
  StronglySorted (before_in route_less) (w :: l) -> of_prefix n len w = false -> 1 <= maximum ->
  List.filter on (choose maximum w paths l) = take (Z.to_nat maximum) (bests l).
Proof.
  revert w paths. induction l as [|x l IH]; intros w paths Hs Hw Hm; [cbn; now rewrite take_nil|].
  assert (StronglySorted (before_in route_less) (w :: l)) as Hs'.
  { apply StronglySorted_inv in Hs as [H1 H2]. apply StronglySorted_inv in H1 as [H1 _].
    constructor; [done|]. now inversion H2. }
  assert (of_prefix n len x = false -> bests (x :: l) = bests l) as Hskip.
  { unfold bests. intros E. cbn [List.filter]. rewrite E. now destruct (List.filter on l). }
  cbn [choose]. destruct (same_prefix x w) eqn:Ex.
  - pose proof (of_prefix_same _ _ Ex) as E. rewrite Hw in E. rewrite (Hskip E).
    destruct (_ && _); cbn [List.filter]; rewrite ?E; now apply IH.
  - cbn [List.filter]. apply StronglySorted_inv in Hs as [Hx _]. destruct (of_prefix n len x) eqn:E.
    + rewrite choose_winner by (done || lia). unfold bests. cbn [List.filter]. rewrite E. cbn [andb].
      rewrite same_class_refl. replace (Z.to_nat maximum) with (S (Z.to_nat (maximum - 1))) by lia. done.
    + rewrite (Hskip eq_refl). now apply IH.
Qed.

(** The first route of a prefix is in the best class of the prefix. *)
Lemma bests_champions l :
  StronglySorted (before_in route_less) l -> bests l = champions l n len.
Proof.
  intros Hs. unfold bests, champions. destruct (List.filter on l) as [|x k] eqn:E.
  - symmetry. apply filter_nothing. intros y Hy. destruct (of_prefix n len y) eqn:Ey; [|done].
    assert (y ∈ List.filter on l) as H by (apply list_elem_of_In, filter_In; split; [now apply list_elem_of_In|done]).
    rewrite E in H. inversion H.
  - assert (of_prefix n len x = true /\ x ∈ l) as [Hx Hin].
    { assert (In x (List.filter on l)) as H by (rewrite E; now left). apply filter_In in H as [H1 H2].
      split; [done|now apply list_elem_of_In]. }
    assert (Hfirst : forall y, y ∈ l -> of_prefix n len y = true -> selection_less y x = false).
    { intros y Hy Hy'. assert (y ∈ x :: k) as H.
      { rewrite <- E. apply list_elem_of_In, filter_In. split; [now apply list_elem_of_In|done]. }
      apply elem_of_cons in H as [->|H]; [rewrite selection_less_key; apply lex_irrefl|].
      assert (StronglySorted (before_in route_less) (x :: k)) as Hk.
      { rewrite <- E. now apply StronglySorted_filter. }
      apply ordered_class; [now apply (Forall_before_app _ _ _ Hk)|].
      apply of_prefix_key in Hx, Hy'. congruence. }
    apply filter_ext_in. intros y Hy%list_elem_of_In. destruct (of_prefix n len y) eqn:Ey; [|done]. cbn [andb].
    unfold champion. apply eq_true_iff_eq. rewrite negb_true_iff, <- not_true_iff_false, existsb_exists. split.
    + intros Hc%same_class_key (c & Hc1%list_elem_of_In & Hc2). apply andb_true_iff in Hc2 as [Hp Hl].
      rewrite selection_less_key, Hc, <- selection_less_key, Hfirst in Hl; try done.
      rewrite (of_prefix_same _ _ Hp). done.
    + intros Hn. apply same_class_key. apply lex_antisym; [done|rewrite <- selection_less_key; now apply Hfirst|].
      rewrite <- selection_less_key. destruct (selection_less x y) eqn:El; [|done]. exfalso. apply Hn.
      exists x. split; [now apply list_elem_of_In|]. rewrite El, andb_true_r. apply same_prefix_key.
      apply of_prefix_key in Hx, Ey. congruence.
Qed.

Lemma chosen_champions l :
  StronglySorted (before_in route_less) l -> 1 <= maximum ->
  List.filter on (chosen maximum l) = take (Z.to_nat maximum) (champions l n len).
Proof.
  intros Hs Hm. rewrite <- bests_champions by done. destruct l as [|x l]; [cbn; now rewrite take_nil|].
  cbn [chosen List.filter]. destruct (of_prefix n len x) eqn:E.
  - rewrite choose_winner by (done || lia). unfold bests. cbn [List.filter]. rewrite E. cbn [andb].
    rewrite same_class_refl. replace (Z.to_nat maximum) with (S (Z.to_nat (maximum - 1))) by lia. done.
  - rewrite choose_later by (done || lia). unfold bests. cbn [List.filter]. rewrite E.
    now destruct (List.filter on l).
Qed.
End OnePrefix.

(** ** Repairs *)

Definition alternate_key (r : Route) : list Z := [network r; prefix_length r; next_hop r; port_ordinal r].

Lemma same_alternate_key l r : same_alternate l r = true <-> alternate_key l = alternate_key r.
Proof.
  unfold same_alternate, same_prefix, alternate_key. rewrite !andb_true_iff, !Z.eqb_eq. split.
  - intros [[[-> ->] ->] ->]. reflexivity.
  - intros H. injection H. auto.
Qed.

Lemma alternate_key_prefix l r : alternate_key l = alternate_key r -> prefix_key l = prefix_key r.
Proof. unfold alternate_key, prefix_key. intros H. injection H. intros. congruence. Qed.

Lemma unique_from_elem kept l x : x ∈ unique_from kept l -> x ∈ kept :: l.
Proof.
  revert kept. induction l as [|y l IH]; intros kept; cbn [unique_from]; [done|].
  case_match; rewrite !elem_of_cons; intros Hx.
  - apply IH, elem_of_cons in Hx. tauto.
  - destruct Hx as [->|Hx]; [auto|]. apply IH, elem_of_cons in Hx. tauto.
Qed.

Lemma unique_from_kept kept l x :
  x ∈ kept :: l -> exists y, y ∈ unique_from kept l /\ alternate_key y = alternate_key x.
Proof.
  revert kept x. induction l as [|z l IH]; intros kept x Hx; cbn [unique_from].
  - apply elem_of_cons in Hx as [->|Hx]; [|inversion Hx]. exists kept. split; [constructor|done].
  - destruct (same_alternate kept z) eqn:E.
    + apply same_alternate_key in E. apply elem_of_cons in Hx as [->|[->|Hx]%elem_of_cons].
      * apply IH. constructor.
      * destruct (IH kept kept) as (y & Hy & Ey); [constructor|]. exists y. split; [done|congruence].
      * apply IH. now constructor.
    + apply elem_of_cons in Hx as [->|Hx]; [exists kept; split; [constructor|done]|].
      destruct (IH z x Hx) as (y & Hy & Ey). exists y. split; [now constructor|done].
Qed.

Lemma unique_elem l x : x ∈ unique l -> x ∈ l.
Proof. destruct l; [done|]. apply unique_from_elem. Qed.

Lemma unique_kept l x : x ∈ l -> exists y, y ∈ unique l /\ alternate_key y = alternate_key x.
Proof. destruct l; [intros H; inversion H|]. apply unique_from_kept. Qed.

(** ** The specification of a rebuild *)

Definition candidates (interfaces : list ConnectedInput) (statics : list StaticInput)
    (dynamic : list DynamicInput) : list Route :=
  flat_map connected_route interfaces ++ flat_map (dynamic_route dynamic) dynamic
  ++ flat_map (static_routes interfaces dynamic) statics.

(** Each prefix has its best candidates, in order, up to the allowed paths. *)
Definition selected (l : list Route) (maximum : Z) (table : list Route) : Prop :=
  forall n len, exists ws,
    ws ≡ₚ champions l n len /\ StronglySorted (before_in route_less) ws
    /\ List.filter (of_prefix n len) table = take (Z.to_nat maximum) ws.

Definition repair_input (entry : DynamicInput) : bool :=
  d_configured entry && d_operational entry && d_alternate entry.

Definition same_protocol (l r : Route) : bool :=
  source_is (source l) (source r) && type_is (ospf_path_type l) (ospf_path_type r)
  && (protocol_instance l =? protocol_instance r).

(** The repairs are protocol inputs for a selected route of their own protocol;
    none is missing unless another protocol offers the same repair. *)
Definition repaired (dynamic : list DynamicInput) (table alternates : list Route) : Prop :=
  (forall a, a ∈ alternates ->
     (exists e, e ∈ dynamic /\ repair_input e = true /\ a = dynamic_value e)
     /\ exists r, r ∈ table /\ repairs a r = true)
  /\ (forall e r, e ∈ dynamic -> repair_input e = true -> r ∈ table -> repairs (dynamic_value e) r = true ->
      (forall e', e' ∈ dynamic -> repair_input e' = true ->
         same_alternate (dynamic_value e') (dynamic_value e) = true ->
         same_protocol (dynamic_value e') (dynamic_value e) = true) ->
      exists a, a ∈ alternates /\ same_alternate a (dynamic_value e) = true).

Lemma source_is_true x y : source_is x y = true <-> x = y.
Proof. apply bool_decide_eq_true. Qed.
Lemma type_is_true x y : type_is x y = true <-> x = y.
Proof. apply bool_decide_eq_true. Qed.

Lemma repairs_spec a r :
  repairs a r = true <->
  prefix_key r = prefix_key a /\ source r = source a /\ ospf_path_type r = ospf_path_type a
  /\ protocol_instance r = protocol_instance a.
Proof.
  unfold repairs. rewrite !andb_true_iff, same_prefix_key, source_is_true, type_is_true, Z.eqb_eq. tauto.
Qed.

Lemma same_route_spec l r : same_route l r = true <-> l = r.
Proof.
  unfold same_route. rewrite !andb_true_iff, !Z.eqb_eq, source_is_true, type_is_true, eqb_true_iff. split.
  - destruct l, r. cbn. intros. destruct_and!. now subst.
  - intros ->. tauto.
Qed.

Lemma equal_ranges_spec {A} (same : A -> A -> bool) l l' :
  (forall x y, x ∈ l -> y ∈ l' -> same x y = true -> x = y) -> (forall x, x ∈ l -> same x x = true) ->
  length l = length l' -> equal_ranges same l l' = true <-> l = l'.
Proof.
  intros Hs Hr Hl. split; [|intros <-].
  - revert l' Hs Hl. clear Hr. induction l as [|x l IH]; intros [|y l'] Hs Hl; try done. cbn.
    intros [H1 H2]%andb_true_iff. f_equal; [apply Hs; [constructor|constructor|done]|].
    apply IH; [|now injection Hl|done]. intros u v Hu Hv. apply Hs; now constructor.
  - clear Hs Hl. induction l as [|x l IH]; [done|]. cbn. rewrite Hr by constructor. apply IH.
    intros u Hu. apply Hr. now constructor.
Qed.

Section Rebuild.
Context {sorting : Sorting}.

Lemma champions_permutation l l' n len : l ≡ₚ l' -> champions l n len ≡ₚ champions l' n len.
Proof.
  intros H. apply filter_permutation; [done|]. intros r. f_equal. unfold champion. f_equal.
  now apply existsb_permutation.
Qed.

Lemma selected_compact l maximum :
  1 <= maximum -> selected l maximum (compact maximum (std_sort route_less l)).
Proof.
  intros Hm n len. pose proof (std_sort_orders _ l route_less_weak) as Hs.
  exists (champions (std_sort route_less l) n len). rewrite compact_chosen by done. split_and!.
  - apply champions_permutation. apply std_sort_permutes, route_less_weak.
  - now apply StronglySorted_filter.
  - now apply chosen_champions.
Qed.

(** What a rebuild proposes: the selected routes and their repairs, unless an
    input is invalid or a capacity is exceeded. *)
Definition primary_rows (interfaces : list ConnectedInput) (dynamic : list DynamicInput) : list Route :=
  flat_map connected_route interfaces ++ flat_map (dynamic_route dynamic) dynamic.
Definition repair_candidates (interfaces : list ConnectedInput) (dynamic : list DynamicInput) : list Route :=
  flat_map (alternate_route (primary_rows interfaces dynamic)) dynamic.
Definition table (interfaces : list ConnectedInput) (statics : list StaticInput)
    (dynamic : list DynamicInput) (maximum : Z) : list Route :=
  compact maximum (std_sort route_less (candidates interfaces statics dynamic)).
Definition alternates (interfaces : list ConnectedInput) (statics : list StaticInput)
    (dynamic : list DynamicInput) (maximum : Z) : list Route :=
  List.filter (fun a => existsb (repairs a) (table interfaces statics dynamic maximum))
    (unique (std_sort alternate_less (repair_candidates interfaces dynamic))).
Definition fits (interfaces : list ConnectedInput) (statics : list StaticInput)
    (dynamic : list DynamicInput) (maximum : Z) : bool :=
  (size (candidates interfaces statics dynamic) <=? Catalog.maximum_fib_routes_per_router)
  && (size (repair_candidates interfaces dynamic) <=? Catalog.maximum_fib_routes_per_router)
  && (size (table interfaces statics dynamic maximum) + size (alternates interfaces statics dynamic maximum)
      <=? Catalog.maximum_fib_routes_per_router).

Definition differs (s : t) (rs alts : list Route) : bool :=
  negb (size rs =? size (routes_ s)) || negb (size alts =? size (loop_free_alternates_ s))
  || negb (equal_ranges same_route rs (routes_ s))
  || negb (equal_ranges same_repair alts (loop_free_alternates_ s)).

Lemma rebuild_proposal s interfaces statics dynamic maximum :
  rebuild s interfaces statics dynamic maximum
  = if inputs_valid interfaces statics dynamic maximum && fits interfaces statics dynamic maximum then
      let rs := table interfaces statics dynamic maximum in
      let alts := alternates interfaces statics dynamic maximum in
      (differs s rs alts,
       (if differs s rs alts then s <| routes_ := rs |> <| loop_free_alternates_ := alts |> else s)
       <| last_rebuild_valid_ := true |>)
    else reject s.
Proof.
  unfold rebuild. destruct (inputs_valid _ _ _ _); cbn [negb andb]; [|done].
  assert (size (@nil Route) <= Catalog.maximum_fib_routes_per_router) as H0 by (vm_compute; discriminate).
  rewrite stage_spec by done. cbn [app]. unfold fits, repair_candidates, primary_rows, candidates.
  set (cs := flat_map connected_route interfaces). set (ds := flat_map (dynamic_route dynamic) dynamic).
  set (ss := flat_map (static_routes interfaces dynamic) statics).
  pose proof (size_nonneg ds). pose proof (size_nonneg ss). rewrite (app_assoc cs ds ss), (size_app (cs ++ ds) ss).
  destruct (Z.leb_spec (size cs) Catalog.maximum_fib_routes_per_router) as [Hc|Hc];
    [|rewrite (proj2 (Z.leb_gt _ _)); [done|rewrite size_app; lia]].
  rewrite stage_spec by done. fold ds.
  destruct (Z.leb_spec (size (cs ++ ds)) Catalog.maximum_fib_routes_per_router) as [Hd|Hd];
    [|rewrite (proj2 (Z.leb_gt _ _)); [done|lia]].
  rewrite stage_spec by done. cbn [app]. set (raw := flat_map (alternate_route (cs ++ ds)) dynamic).
  destruct (size raw <=? _); [|now rewrite andb_false_r].
  rewrite stage_spec by done. fold ss. rewrite size_app.
  destruct (size (cs ++ ds) + size ss <=? _); [|done]. cbn [andb].
  unfold publish. rewrite <- app_assoc. fold cs ds.
  change (compact maximum (std_sort route_less (cs ++ ds ++ ss))) with (table interfaces statics dynamic maximum).
  change (List.filter _ (unique (std_sort alternate_less raw))) with (alternates interfaces statics dynamic maximum).
  rewrite Z.leb_antisym. now destruct (_ <? _).
Qed.

(** ** Well-formed tables *)

(** A published route: canonical prefix, fields in range, and a port that exists
    unless it is the system address, which is a host route. *)
Definition typed (r : Route) : Prop :=
  is_u32 (network r) /\ is_u32 (next_hop r) /\ 0 <= prefix_length r <= 32
  /\ Z.land (network r) (prefix_mask (prefix_length r)) = network r
  /\ (if local_system r then prefix_length r = 32
      else 0 <= port_ordinal r < Catalog.maximum_ports_per_router)
  /\ is_u16 (preference r) /\ is_u32 (metric r) /\ is_u8 (protocol_instance r).

Record well_formed (s : t) : Prop := {
  wf_routes : Forall typed (routes_ s);
  wf_alternates : Forall (fun a => typed a /\ local_system a = false
                                   /\ exists r, r ∈ routes_ s /\ repairs a r = true) (loop_free_alternates_ s);
  wf_class : forall x y, x ∈ routes_ s -> y ∈ routes_ s -> same_prefix x y = true ->
             same_selection_class x y = true;
  wf_paths : forall n len, size (List.filter (of_prefix n len) (routes_ s)) <= Catalog.maximum_ecmp_paths;
  wf_fits : size (routes_ s) + size (loop_free_alternates_ s) <= Catalog.maximum_fib_routes_per_router
}.

(** The fields of an input are in the range of their C++ types. *)
Definition connected_typed (c : ConnectedInput) : Prop :=
  is_u32 (c_network c) /\ 0 <= c_port_ordinal c /\ 0 <= c_prefix_length c.
Definition static_typed (e : StaticInput) : Prop :=
  is_u32 (s_network e) /\ is_u32 (s_next_hop e) /\ 0 <= s_prefix_length e.
Definition dynamic_typed (e : DynamicInput) : Prop :=
  is_u32 (d_network e) /\ is_u32 (d_next_hop e) /\ 0 <= d_port_ordinal e /\ 0 <= d_prefix_length e
  /\ is_u16 (d_preference e) /\ is_u32 (d_metric e) /\ is_u8 (d_instance e).

Lemma land_u32 n m : is_u32 n -> is_u32 (Z.land n m).
Proof.
  unfold is_u32. intros H. replace (Z.land n m) with (Z.land n m mod two32); [lia|].
  change two32 with (2 ^ 32). rewrite <- Z.land_ones, <- Z.land_assoc, (Z.land_comm m), Z.land_assoc by lia.
  rewrite Z.land_ones by lia. rewrite (Z.mod_small n) by lia. done.
Qed.

Lemma land_canonical n m : Z.land (Z.land n m) m = Z.land n m.
Proof. now rewrite <- Z.land_assoc, Z.land_diag. Qed.

Lemma connected_typed_route c r :
  connected_typed c -> connected_valid c = true -> r ∈ connected_route c -> typed r.
Proof.
  intros (H1 & H2 & H3). unfold connected_valid, connected_route.
  destruct (c_configured c), (c_operational c); cbn [negb orb andb]; intros Hv Hr; try now inversion Hr.
  apply list_elem_of_singleton in Hr as ->. unfold typed. cbn. rewrite land_canonical.
  bool_to_prop. split_and!; try (now apply land_u32) || word.
  destruct (c_local_system c); cbn [andb negb orb] in *; bool_to_prop; lia.
Qed.

Lemma dynamic_value_typed e :
  dynamic_typed e -> dynamic_valid e = true -> d_configured e = true -> typed (dynamic_value e).
Proof.
  intros (H1 & H2 & H3 & H4 & H5 & H6 & H7) Hv Hc. unfold dynamic_valid in Hv. rewrite Hc in Hv. cbn [andb] in Hv.
  bool_to_prop. unfold typed. cbn. rewrite land_canonical. split_and!; try (now apply land_u32) || word || done.
Qed.

Lemma resolve_directly_valid entry r0 interfaces r :
  resolve_directly entry r0 interfaces = Some r ->
  r0 = Some r \/ (r ∈ interfaces /\ resolves_directly entry r = true).
Proof.
  revert r0. induction interfaces as [|c l IH]; intros r0; cbn [resolve_directly]; [auto|].
  intros [H|[H1 H2]]%IH; [|right; split; [now constructor|done]].
  destruct (resolves_directly entry c) eqn:E; cbn [negb] in H; [|now left].
  destruct r0 as [x|]; [case_if_in H; [|now left]|]; injection H as <-; right; (split; [constructor|done]).
Qed.

Lemma static_value_typed entry nh port :
  static_typed entry -> static_valid entry = true -> s_configured entry = true -> is_u32 nh ->
  0 <= port < Catalog.maximum_ports_per_router -> typed (static_value entry nh port).
Proof.
  intros (H1 & H2 & H3) Hv Hc Hn Hp. unfold static_valid in Hv. rewrite Hc in Hv. cbn [andb] in Hv. bool_to_prop.
  unfold typed. cbn. rewrite land_canonical. split_and!; try (now apply land_u32) || word || done.
Qed.

Lemma static_typed_route interfaces dynamic entry r :
  Forall connected_typed interfaces -> forallb connected_valid interfaces = true ->
  Forall dynamic_typed dynamic -> forallb dynamic_valid dynamic = true ->
  static_typed entry -> static_valid entry = true -> r ∈ static_routes interfaces dynamic entry -> typed r.
Proof.
  intros Ht Hv Dt Dv Se Sv. unfold static_routes. destruct (s_configured entry) eqn:Ec; cbn [negb]; [|intros H; inversion H].
  destruct (s_indirect entry); cbn [negb].
  - destruct (resolve_indirectly _ _ _) as [best|]; [|intros H; inversion H].
    intros (e & <- & He)%list_elem_of_In%in_map_iff. apply filter_In in He as [Hin He].
    apply andb_true_iff in He as [He _]. unfold resolves_indirectly, primary_input in He.
    apply andb_true_iff in He as [He _]. bool_to_prop.
    pose proof (proj1 (List.Forall_forall _ _) Dt e Hin) as De. pose proof (proj1 (forallb_forall _ _) Dv e Hin) as Ve.
    pose proof (dynamic_value_typed e De Ve ltac:(done)) as (_ & H2 & _ & _ & H5 & _).
    now apply static_value_typed.
  - destruct (resolve_directly _ _ _) as [c|] eqn:E; [|intros H; inversion H].
    intros ->%list_elem_of_singleton. apply resolve_directly_valid in E as [E|[Hin Hr]]; [done|].
    apply list_elem_of_In in Hin. unfold resolves_directly in Hr. apply andb_true_iff in Hr as [Hr _].
    apply negb_true_iff, orb_false_iff in Hr as [Hr Hl]. apply orb_false_iff in Hr as [H1 H2].
    apply negb_false_iff in H1, H2.
    pose proof (connected_typed_route c (mkRoute (Z.land (c_network c) (prefix_mask (c_prefix_length c))) 0
      (c_port_ordinal c) (c_prefix_length c) 0 0 connected (c_local_system c) none 0)
      (proj1 (List.Forall_forall _ _) Ht c Hin) (proj1 (forallb_forall _ _) Hv c Hin)) as Hc.
    unfold connected_route in Hc. rewrite H1, H2 in Hc. cbn [negb orb] in Hc.
    destruct Hc as (_ & _ & _ & _ & Hp & _); [now apply list_elem_of_singleton|]. cbn in Hp. rewrite Hl in Hp.
    apply static_value_typed; try done. apply Se.
Qed.

(** ** The proposal *)

Lemma selected_champion l maximum rs r :
  selected l maximum rs -> r ∈ rs -> r ∈ l /\ champion l r = true.
Proof.
  intros H Hr. destruct (H (network r) (prefix_length r)) as (ws & Hp & _ & E).
  assert (r ∈ List.filter (of_prefix (network r) (prefix_length r)) rs) as Hin.
  { apply elem_of_filter. split; [done|]. now apply of_prefix_key. }
  rewrite E in Hin. apply elem_of_take in Hin as (i & Hi & _). apply list_elem_of_lookup_2 in Hi.
  rewrite Hp in Hi. apply elem_of_filter in Hi as [H1 H2]. apply andb_true_iff in H2. tauto.
Qed.

Lemma champion_le l c r :
  champion l r = true -> c ∈ l -> same_prefix c r = true -> selection_less c r = false.
Proof.
  unfold champion. rewrite negb_true_iff, <- not_true_iff_false, existsb_exists. intros H Hc Hp.
  destruct (selection_less c r) eqn:E; [|done]. exfalso. apply H. exists c.
  split; [now apply list_elem_of_In|]. now rewrite Hp.
Qed.

Lemma selected_class l maximum rs x y :
  selected l maximum rs -> x ∈ rs -> y ∈ rs -> same_prefix x y = true -> same_selection_class x y = true.
Proof.
  intros H Hx Hy Hp. apply (selected_champion _ _ _ _ H) in Hx as [Hx Cx], Hy as [Hy Cy].
  unfold same_selection_class. rewrite (champion_le l x y), (champion_le l y x); try done.
  apply same_prefix_key. apply same_prefix_key in Hp. congruence.
Qed.

(** Every candidate's prefix has a selected route. *)
Lemma selected_present l maximum rs c :
  1 <= maximum -> selected l maximum rs -> c ∈ l -> exists r, r ∈ rs /\ same_prefix r c = true.
Proof.
  intros Hm H Hc. destruct (H (network c) (prefix_length c)) as (ws & Hp & _ & E).
  set (on := of_prefix (network c) (prefix_length c)) in *.
  assert (ws <> []) as Hne.
  { intros ->. apply Permutation_nil in Hp.
    pose proof (std_sort_permutes _ l route_less_weak) as Hs.
    pose proof (champions_permutation _ _ (network c) (prefix_length c) Hs) as Hn.
    rewrite Hp in Hn. apply Permutation_nil in Hn || (symmetry in Hn; apply Permutation_nil in Hn).
    rewrite <- bests_champions in Hn by apply std_sort_orders, route_less_weak.
    unfold bests in Hn. destruct (List.filter _ (std_sort route_less l)) as [|x k] eqn:Ef.
    - assert (c ∈ List.filter on (std_sort route_less l)) as Hin.
      { apply elem_of_filter. rewrite Hs. split; [done|]. now apply of_prefix_key. }
      unfold on in Hin. rewrite Ef in Hin. inversion Hin.
    - assert (x ∈ List.filter on (std_sort route_less l)) as Hx by (unfold on; rewrite Ef; constructor).
      apply elem_of_filter in Hx as [H1 H2]. unfold on in H2.
      assert (x ∈ @nil Route) as Hx; [|inversion Hx]. rewrite <- Hn. apply elem_of_filter. split; [done|].
      now rewrite H2, same_class_refl. }
  destruct ws as [|w ws]; [done|]. exists w.
  assert (w ∈ List.filter on rs) as Hw.
  { rewrite E. replace (Z.to_nat maximum) with (S (Z.to_nat (maximum - 1))) by lia. constructor. }
  apply elem_of_filter in Hw as [H1 H2]. split; [done|]. apply same_prefix_key. unfold on in H2.
  now apply of_prefix_key in H2.
Qed.

Lemma dynamic_valid_source e :
  dynamic_valid e = true -> d_configured e = true -> d_source e = ospf \/ d_source e = ospf3.
Proof.
  unfold dynamic_valid, valid_dynamic, is_ospf. intros Hv Hc. rewrite Hc in Hv. cbn [andb] in Hv. bool_to_prop.
  rewrite orb_true_iff, !source_is_true in E. done.
Qed.

Lemma connected_source c r : r ∈ connected_route c -> source r = connected.
Proof. unfold connected_route. case_match; [intros H'; inversion H'|]. now intros ->%list_elem_of_singleton. Qed.

Lemma static_source interfaces dynamic e r : r ∈ static_routes interfaces dynamic e -> source r = static_route.
Proof.
  unfold static_routes. repeat case_match; try (intros H'; now inversion H').
  now intros (x & <- & _)%list_elem_of_In%in_map_iff.
Qed.

(** A selected route of a routing protocol is one of the primary rows. *)
Lemma protocol_primary interfaces statics dynamic r :
  r ∈ candidates interfaces statics dynamic -> source r = ospf \/ source r = ospf3 ->
  r ∈ primary_rows interfaces dynamic.
Proof.
  unfold candidates, primary_rows. rewrite !elem_of_app. intros [H|[H|H]] Hs; [auto|auto|]. exfalso.
  apply elem_of_flat_map in H as (e & _ & He). apply static_source in He. destruct Hs; congruence.
Qed.

Lemma repaired_proposal interfaces statics dynamic maximum :
  forallb dynamic_valid dynamic = true -> 1 <= maximum ->
  repaired dynamic (table interfaces statics dynamic maximum) (alternates interfaces statics dynamic maximum).
Proof.
  intros Dv Hm. pose proof (selected_compact (candidates interfaces statics dynamic) maximum Hm) as Hs.
  fold (table interfaces statics dynamic maximum) in Hs.
  set (rs := table interfaces statics dynamic maximum) in *. unfold alternates. fold rs.
  assert (Hin : forall a, a ∈ std_sort alternate_less (repair_candidates interfaces dynamic) ->
    exists e, e ∈ dynamic /\ repair_input e = true /\ a = dynamic_value e).
  { intros a. rewrite (std_sort_permutes _ _ alternate_less_weak). unfold repair_candidates.
    intros (e & He & Ha)%elem_of_flat_map. exists e. split; [done|]. unfold alternate_route in Ha.
    fold (repair_input e) in Ha. destruct (repair_input e); [|inversion Ha]. cbn [negb] in Ha.
    destruct (existsb _ _); [|inversion Ha]. now apply list_elem_of_singleton in Ha. }
  split.
  - intros a [Ha Hr]%elem_of_filter. split; [now apply Hin, unique_elem|].
    apply existsb_exists in Hr as (r & H1 & H2). exists r. split; [now apply list_elem_of_In|done].
  - intros e r He Hrep Hr Hrr Hsame.
    assert (d_configured e = true) as Hc by (unfold repair_input in Hrep; now bool_to_prop).
    pose proof (proj1 (forallb_forall _ _) Dv e (proj1 (list_elem_of_In _ _) He)) as Ve.
    pose proof (dynamic_valid_source e Ve Hc) as Hsrc.
    pose proof (proj1 (repairs_spec _ _) Hrr) as (_ & Es & _).
    assert (r ∈ primary_rows interfaces dynamic) as Hp.
    { apply (protocol_primary _ statics); [now apply (selected_champion _ _ _ _ Hs)|]. rewrite Es. exact Hsrc. }
    assert (dynamic_value e ∈ std_sort alternate_less (repair_candidates interfaces dynamic)) as Hst.
    { rewrite (std_sort_permutes _ _ alternate_less_weak). apply elem_of_flat_map. exists e. split; [done|].
      unfold alternate_route. fold (repair_input e). rewrite Hrep. cbn [negb].
      rewrite (proj2 (existsb_exists _ _)); [now apply list_elem_of_singleton|].
      exists r. split; [now apply list_elem_of_In|done]. }
    destruct (unique_kept _ _ Hst) as (a & Ha & Ek). exists a. split; [|now apply same_alternate_key].
    apply elem_of_filter. split; [done|]. apply existsb_exists. exists r. split; [now apply list_elem_of_In|].
    destruct (Hin a (unique_elem _ _ Ha)) as (e' & He' & Hrep' & ->).
    pose proof (Hsame e' He' Hrep' (proj2 (same_alternate_key _ _) Ek)) as Hpr.
    unfold same_protocol in Hpr. rewrite !andb_true_iff, source_is_true, type_is_true, Z.eqb_eq in Hpr.
    apply repairs_spec. apply repairs_spec in Hrr as (K1 & K2 & K3 & K4). destruct Hpr as [[P1 P2] P3].
    split_and!; try congruence. rewrite K1. symmetry. now apply alternate_key_prefix.
Qed.

Lemma same_repair_spec a b :
  local_system a = false -> local_system b = false -> same_repair a b = true <-> a = b.
Proof.
  intros Ha Hb. unfold same_repair. rewrite same_route_spec. destruct a, b. cbn in *. subst. split; congruence.
Qed.

Lemma differs_spec s rs alts :
  Forall (fun a => local_system a = false) alts ->
  Forall (fun a => local_system a = false) (loop_free_alternates_ s) ->
  differs s rs alts = false <-> rs = routes_ s /\ alts = loop_free_alternates_ s.
Proof.
  intros Ha Hs. unfold differs. rewrite !orb_false_iff, !negb_false_iff, !Z.eqb_eq.
  rewrite List.Forall_forall in Ha, Hs.
  assert (forall l l' : list Route, size l = size l' -> length l = length l') as Hl by (unfold size; lia).
  split.
  - intros [[[H1 H2] H3] H4]. apply equal_ranges_spec in H3; [|now intros ???? ?%same_route_spec|now intros; apply same_route_spec|auto].
    apply equal_ranges_spec in H4; [done| | |auto].
    + intros x y Hx%list_elem_of_In Hy%list_elem_of_In. apply same_repair_spec; auto.
    + intros x Hx%list_elem_of_In. apply same_repair_spec; auto.
  - intros [-> ->]. split_and!; try done; apply equal_ranges_spec; try done.
    + now intros ???? ?%same_route_spec.
    + now intros; apply same_route_spec.
    + intros x y Hx%list_elem_of_In Hy%list_elem_of_In. apply same_repair_spec; auto.
    + intros x Hx%list_elem_of_In. apply same_repair_spec; auto.
Qed.

Lemma valid_maximum interfaces statics dynamic maximum :
  0 <= maximum -> inputs_valid interfaces statics dynamic maximum = true ->
  1 <= maximum <= Catalog.maximum_ecmp_paths /\ forallb connected_valid interfaces = true
  /\ forallb static_valid statics = true /\ forallb dynamic_valid dynamic = true.
Proof.
  unfold inputs_valid, ecmp_valid. intros H0 H.
  rewrite !andb_true_iff, negb_true_iff, orb_false_iff, Z.eqb_neq, Z.ltb_ge in H. destruct H as [[[? ?] [? ?]] ?].
  split_and!; lia || done.
Qed.

Lemma alternates_not_local interfaces statics dynamic maximum :
  forallb dynamic_valid dynamic = true -> 1 <= maximum ->
  Forall (fun a => local_system a = false) (alternates interfaces statics dynamic maximum).
Proof.
  intros Dv Hm. apply List.Forall_forall. intros a Ha%list_elem_of_In.
  now destruct (proj1 (repaired_proposal interfaces statics dynamic maximum Dv Hm) a Ha) as [(e & _ & _ & ->) _].
Qed.

Lemma candidates_typed interfaces statics dynamic :
  Forall connected_typed interfaces -> Forall static_typed statics -> Forall dynamic_typed dynamic ->
  forallb connected_valid interfaces = true -> forallb static_valid statics = true ->
  forallb dynamic_valid dynamic = true -> forall r, r ∈ candidates interfaces statics dynamic -> typed r.
Proof.
  intros Ct St Dt Cv Sv Dv r. unfold candidates. rewrite !elem_of_app, !elem_of_flat_map.
  intros [(c & Hc & Hr)|[(e & He & Hr)|(e & He & Hr)]]; apply list_elem_of_In in Hc || apply list_elem_of_In in He.
  - apply (connected_typed_route c); [now apply (proj1 (List.Forall_forall _ _) Ct)|now apply (proj1 (forallb_forall _ _) Cv)|done].
  - unfold dynamic_route in Hr. destruct (primary_input e) eqn:Ep; [|now inversion Hr]. cbn [negb orb] in Hr.
    destruct (dominated _ _); [now inversion Hr|]. apply list_elem_of_singleton in Hr as ->.
    unfold primary_input in Ep. bool_to_prop.
    apply dynamic_value_typed; [now apply (proj1 (List.Forall_forall _ _) Dt)|now apply (proj1 (forallb_forall _ _) Dv)|done].
  - apply (static_typed_route interfaces dynamic e); try done;
      [now apply (proj1 (List.Forall_forall _ _) St)|now apply (proj1 (forallb_forall _ _) Sv)].
Qed.

Lemma well_formed_proposal s interfaces statics dynamic maximum :
  Forall connected_typed interfaces -> Forall static_typed statics -> Forall dynamic_typed dynamic ->
  forallb connected_valid interfaces = true -> forallb static_valid statics = true ->
  forallb dynamic_valid dynamic = true -> 1 <= maximum <= Catalog.maximum_ecmp_paths ->
  fits interfaces statics dynamic maximum = true ->
  routes_ s = table interfaces statics dynamic maximum ->
  loop_free_alternates_ s = alternates interfaces statics dynamic maximum -> well_formed s.
Proof.
  intros Ct St Dt Cv Sv Dv Hm Hf Er Ea.
  pose proof (selected_compact (candidates interfaces statics dynamic) maximum ltac:(lia)) as Hs.
  fold (table interfaces statics dynamic maximum) in Hs. rewrite <- Er in Hs.
  destruct (repaired_proposal interfaces statics dynamic maximum Dv ltac:(lia)) as [Hr _]. rewrite <- Er, <- Ea in Hr.
  unfold fits in Hf. rewrite <- Er, <- Ea in Hf. rewrite !andb_true_iff, !Z.leb_le in Hf. split.
  - apply List.Forall_forall. intros r H%list_elem_of_In.
    apply (candidates_typed interfaces statics dynamic); try done. now apply (selected_champion _ _ _ _ Hs).
  - apply List.Forall_forall. intros a H%list_elem_of_In. destruct (Hr a H) as [(e & He & Hrep & ->) Hp].
    split_and!; try done. apply list_elem_of_In in He. unfold repair_input in Hrep. bool_to_prop.
    apply dynamic_value_typed; [now apply (proj1 (List.Forall_forall _ _) Dt)|now apply (proj1 (forallb_forall _ _) Dv)|done].
  - intros x y. apply (selected_class _ _ _ _ _ Hs).
  - intros n len. destruct (Hs n len) as (ws & _ & _ & E). rewrite E. unfold size. rewrite length_take. lia.
  - tauto.
Qed.

Lemma rebuild_selected s interfaces statics dynamic maximum :
  well_formed s -> 0 <= maximum ->
  inputs_valid interfaces statics dynamic maximum = true -> fits interfaces statics dynamic maximum = true ->
  let (changed, s') := rebuild s interfaces statics dynamic maximum in
  selected (candidates interfaces statics dynamic) maximum (routes_ s')
  /\ repaired dynamic (routes_ s') (loop_free_alternates_ s') /\ last_rebuild_valid_ s' = true
  /\ (changed = false <-> routes_ s' = routes_ s /\ loop_free_alternates_ s' = loop_free_alternates_ s).
Proof.
  intros W H0 Ev Ef. rewrite rebuild_proposal, Ev, Ef. cbn [andb]. destruct (valid_maximum _ _ _ _ H0 Ev) as (Hm & _ & _ & Dv).
  pose proof (selected_compact (candidates interfaces statics dynamic) maximum ltac:(lia)) as Hs.
  fold (table interfaces statics dynamic maximum) in Hs.
  pose proof (repaired_proposal interfaces statics dynamic maximum Dv ltac:(lia)) as Hr.
  assert (Hd := differs_spec s (table interfaces statics dynamic maximum) (alternates interfaces statics dynamic maximum)
    (alternates_not_local interfaces statics dynamic maximum Dv ltac:(lia))
    ltac:(eapply Forall_impl; [apply (wf_alternates s W)|naive_solver])).
  cbn zeta. destruct (differs s _ _) eqn:Ed.
  - cbn. split_and!; done.
  - destruct (proj1 Hd eq_refl) as [Et Ea]. cbn. rewrite <- Et, <- Ea. split_and!; done.
Qed.

Lemma well_formed_rebuilt s interfaces statics dynamic maximum g :
  well_formed s -> 0 <= maximum ->
  Forall connected_typed interfaces -> Forall static_typed statics -> Forall dynamic_typed dynamic ->
  let s' := (rebuild s interfaces statics dynamic maximum).2 in
  well_formed s' /\ primaries (compile s' g) = routes_ s' /\ repair_rows (compile s' g) = loop_free_alternates_ s'.
Proof.
  intros W H0 Ct St Dt s'.
  assert (well_formed s') as W'.
  { subst s'. rewrite rebuild_proposal. destruct (_ && _) eqn:E; [|now destruct W; constructor].
    apply andb_true_iff in E as [Ev Ef]. apply (valid_maximum _ _ _ _ H0) in Ev as (Hm & Cv & Sv & Dv).
    cbn zeta. destruct (differs s _ _); [|now destruct W; constructor].
    now apply (well_formed_proposal _ interfaces statics dynamic maximum). }
  split; [done|]. pose proof (wf_fits _ W') as Hf. unfold Catalog.maximum_fib_routes_per_router in Hf.
  pose proof (size_nonneg (routes_ s')) as H1. pose proof (size_nonneg (loop_free_alternates_ s')) as H2.
  unfold primaries, repair_rows, compile. cbn [routes count loop_free_alternate_count].
  change (Catalog.maximum_ports_per_router + Catalog.maximum_static_routes_per_router) with 865 in Hf.
  assert (u16 (size (routes_ s')) = size (routes_ s')) as -> by word.
  assert (u16 (size (loop_free_alternates_ s')) = size (loop_free_alternates_ s')) as -> by word.
  unfold size. rewrite !Nat2Z.id. rewrite take_app_length, drop_app_length, firstn_all. done.
Qed.

(** ** Theorems *)

(** C20: a rebuild with valid inputs that fit publishes, for every prefix, the
    routes of its best candidates (connected, undominated protocol and resolved
    static routes) in the order of their next hops, up to the allowed number of
    equal paths, and the repairs that protect a selected route of their own
    protocol.  It reports a change exactly when it publishes other tables.  Any
    other rebuild reports none and leaves both tables as they were. *)
Theorem rib_selects s interfaces statics dynamic maximum :
  well_formed s -> 0 <= maximum ->
  let (changed, s') := rebuild s interfaces statics dynamic maximum in
  if inputs_valid interfaces statics dynamic maximum && fits interfaces statics dynamic maximum
  then selected (candidates interfaces statics dynamic) maximum (routes_ s')
    /\ repaired dynamic (routes_ s') (loop_free_alternates_ s') /\ last_rebuild_valid_ s' = true
    /\ (changed = false <-> routes_ s' = routes_ s /\ loop_free_alternates_ s' = loop_free_alternates_ s)
  else changed = false /\ s' = s <| last_rebuild_valid_ := false |>.
Proof.
  intros W H0. destruct (_ && _) eqn:E.
  - apply andb_true_iff in E as [Ev Ef]. now apply rebuild_selected.
  - rewrite rebuild_proposal, E. done.
Qed.

(** C21: every table a rebuild leaves is well formed: canonical prefixes, existing
    ports, the system address only as a host route, one class and at most
    [maximum_ecmp_paths] paths per prefix, repairs only next to a selected route of
    their protocol, and both tables within the forwarding capacity; the compiled
    program then holds exactly the two tables. *)
Theorem rib_well_formed s interfaces statics dynamic maximum g :
  well_formed s -> 0 <= maximum ->
  Forall connected_typed interfaces -> Forall static_typed statics -> Forall dynamic_typed dynamic ->
  let s' := (rebuild s interfaces statics dynamic maximum).2 in
  well_formed s' /\ primaries (compile s' g) = routes_ s' /\ repair_rows (compile s' g) = loop_free_alternates_ s'.
Proof.
  apply well_formed_rebuilt.
Qed.
End Rebuild.
End RouteSelection.
