(* ===== verification/RouteLookup.v ===== *)
(** * Route lookup

    What the scan of the published program finds, its meaning in terms of the
    candidates of the rebuild, the choice of the forwarder among usable paths, and
    the installation of programs. *)

From S2P Require Import Prelude Catalog Arena Ordering Routes RouteSelection.
From stdpp Require Import sorting.
Import Arena.
#[local] Open Scope Z_scope.

Module RouteLookup.
Import Routes RouteSelection.
#[local] Existing Instance Routes.t_settable.

(** ** Prefixes as leading bits *)

(** The destination and the network have the same leading bits. *)
Definition contains (destination : Z) (r : Route) : Prop :=
  destination / 2 ^ (32 - prefix_length r) = network r / 2 ^ (32 - prefix_length r).

Lemma prefix_mask_bits len i :
  0 <= len <= 32 -> 0 <= i -> Z.testbit (prefix_mask len) i = (32 - len <=? i) && (i <? 32).
Proof.
  intros Hl Hi. unfold prefix_mask. destruct (Z.eqb_spec len 0) as [->|Hne]; cbn [negb].
  - rewrite Z.bits_0. lia.
  - unfold u32. change two32 with (2 ^ 32). change 4294967295 with (Z.ones 32).
    destruct (Z.ltb_spec i 32) as [H|H].
    + rewrite Z.mod_pow2_bits_low, Z.shiftl_spec by lia. rewrite andb_true_r.
      destruct (Z.leb_spec (32 - len) i).
      * apply Z.ones_spec_low. lia.
      * apply Z.testbit_neg_r. lia.
    + rewrite Z.mod_pow2_bits_high by lia. now rewrite andb_false_r.
Qed.

(** Masking keeps the leading bits. *)
Lemma land_mask d len :
  is_u32 d -> 0 <= len <= 32 -> Z.land d (prefix_mask len) = d / 2 ^ (32 - len) * 2 ^ (32 - len).
Proof.
  intros Hd Hl. rewrite <- Z.shiftr_div_pow2, <- Z.shiftl_mul_pow2 by lia.
  apply Z.bits_inj'. intros i Hi. rewrite Z.land_spec, prefix_mask_bits by lia.
  rewrite Z.shiftl_spec by lia. destruct (Z.leb_spec (32 - len) i).
  - rewrite Z.shiftr_spec by lia. replace (i - (32 - len) + (32 - len)) with i by lia.
    destruct (Z.ltb_spec i 32); [apply andb_true_r|]. rewrite andb_false_r. symmetry.
    apply Z.testbit_false; [lia|]. rewrite Z.div_small; [done|]. unfold is_u32 in Hd.
    change two32 with (2 ^ 32) in Hd. pose proof (Z.pow_le_mono_r 2 32 i). lia.
  - cbn [andb]. rewrite andb_false_r. symmetry. apply Z.testbit_neg_r. lia.
Qed.

Lemma covers_contains d r : is_u32 d -> typed r -> covers d r = true <-> contains d r.
Proof.
  intros Hd (Hn & _ & Hl & Hc & _). unfold covers, contains. rewrite Z.eqb_eq, <- Hc.
  rewrite !land_mask by done. rewrite Z.div_mul by lia. split; [|now intros ->].
  intros H. apply Z.mul_cancel_r in H; [done|]. lia.
Qed.

(** ** The scan *)

Fixpoint longest (destination : Z) (best : option Route) (l : list Route) : option Route :=
  match l with
  | [] => best
  | c :: l =>
      longest destination
        (if covers destination c && match best with
                                    | None => true
                                    | Some b => prefix_length b <? prefix_length c
                                    end then Some c else best) l
  end.

Lemma longest_app d best l x :
  longest d best (l ++ [x])
  = if covers d x && match longest d best l with None => true | Some b => prefix_length b <? prefix_length x end
    then Some x else longest d best l.
Proof. revert best. induction l as [|c l IH]; intros best; cbn; [done|apply IH]. Qed.

Lemma longest_spec d l :
  match longest d None l with
  | None => forall x, x ∈ l -> covers d x = false
  | Some b => b ∈ l /\ covers d b = true
              /\ forall x, x ∈ l -> covers d x = true -> prefix_length x <= prefix_length b
  end.
Proof.
  induction l as [|x l IH] using rev_ind; [intros y H; inversion H|]. rewrite longest_app.
  destruct (covers d x) eqn:Ex; cbn [andb]; destruct (longest d None l) as [b|].
  - destruct IH as (H1 & H2 & H3). case_if.
    + split_and!; [apply elem_of_app; right; constructor|done|]. intros y [Hy|Hy%list_elem_of_singleton]%elem_of_app Hc.
      * specialize (H3 y Hy Hc). lia.
      * subst. lia.
    + split_and!; [apply elem_of_app; now left|done|]. intros y [Hy|Hy%list_elem_of_singleton]%elem_of_app Hc; [auto|subst; lia].
  - split_and!; [apply elem_of_app; right; constructor|done|].
    intros y [Hy|Hy%list_elem_of_singleton]%elem_of_app Hc; [|subst; lia]. specialize (IH y Hy). congruence.
  - destruct IH as (H1 & H2 & H3). split_and!; [apply elem_of_app; now left|done|].
    intros y [Hy|Hy%list_elem_of_singleton]%elem_of_app Hc; [auto|congruence].
  - intros y [Hy|Hy%list_elem_of_singleton]%elem_of_app; [auto|congruence].
Qed.

Section Scan.
Context (joins : Route -> Route -> bool) (joins_refl : forall r, joins r r = true) (d : Z).

(** The rows equal to the best one. *)
Definition equals (b : Route) (x : Route) : bool :=
  covers d x && (prefix_length x =? prefix_length b) && (network x =? network b) && joins x b.

Definition summary (l : list Route) : option Route * list Route :=
  match longest d None l with
  | None => (None, [])
  | Some b => (Some b, take (Z.to_nat Catalog.maximum_ecmp_paths) (List.filter (equals b) l))
  end.

Lemma covers_same_length x y :
  covers d x = true -> covers d y = true -> prefix_length x = prefix_length y -> network x = network y.
Proof. unfold covers. rewrite !Z.eqb_eq. intros <- <- ->. done. Qed.

Lemma scan_summary l pre :
  scan joins d (summary pre).1 (summary pre).2 l = summary (pre ++ l).
Proof.
  revert pre. induction l as [|c l IH]; intros pre; cbn [scan]; [rewrite app_nil_r; now destruct (summary pre)|].
  replace (pre ++ c :: l) with ((pre ++ [c]) ++ l) by now rewrite <- app_assoc.
  rewrite <- IH. pose proof (longest_spec d pre) as Hl.
  assert (summary (pre ++ [c]) =
    if negb (covers d c) then summary pre
    else match (summary pre).1 with
         | None => (Some c, [c])
         | Some b =>
             if prefix_length b <? prefix_length c then (Some c, [c])
             else if (prefix_length c =? prefix_length b) && (network c =? network b) && joins c b
                     && (size (summary pre).2 <? Catalog.maximum_ecmp_paths)
             then (Some b, (summary pre).2 ++ [c]) else summary pre
         end) as ->.
  { unfold summary. rewrite longest_app. destruct (covers d c) eqn:Ec; cbn [negb andb].
    - destruct (longest d None pre) as [b|] eqn:El; cbn [fst snd].
      + destruct Hl as (Hb & Cb & Hmax). case_if.
        * rewrite List.filter_app. rewrite (filter_nothing (equals c) pre).
          -- cbn [List.filter app]. unfold equals. now rewrite Ec, !Z.eqb_refl, joins_refl.
          -- intros x Hx. unfold equals. destruct (covers d x) eqn:Ex; [|done]. specialize (Hmax x Hx Ex).
             rewrite (proj2 (Z.eqb_neq _ _)) by lia. done.
        * rewrite List.filter_app. cbn [List.filter]. unfold equals at 2. rewrite Ec. cbn [andb].
          destruct ((prefix_length c =? prefix_length b) && (network c =? network b) && joins c b) eqn:Ej;
            cbn [andb]; [|now rewrite app_nil_r].
          set (ms := List.filter (equals b) pre). unfold size. rewrite length_take.
          case_if; f_equal.
          -- rewrite (take_ge ms) by lia. rewrite take_ge; [done|]. rewrite length_app. cbn. lia.
          -- rewrite take_app_le by lia. done.
      + rewrite List.filter_app, (filter_nothing (equals c) pre).
        * cbn [List.filter app]. unfold equals. now rewrite Ec, !Z.eqb_refl, joins_refl.
        * intros x Hx. unfold equals. now rewrite Hl.
    - destruct (longest d None pre) as [b|]; [|done]. rewrite List.filter_app. cbn [List.filter].
      unfold equals at 2. rewrite Ec. cbn [andb]. now rewrite app_nil_r. }
  destruct (covers d c); cbn [negb]; [|done]. destruct (summary pre) as [[b|] eq]; cbn [fst snd]; [|done].
  case_if; [done|]. now case_if.
Qed.

Lemma scan_spec l : scan joins d None [] l = summary l.
Proof. apply (scan_summary l []). Qed.

(** A row is found exactly when one covers the destination, and at most as many
    paths as the array holds. *)
Lemma scan_paths l :
  let paths := (scan joins d None [] l).2 in
  (forall h, pick (scan joins d None [] l) h = paths !! Z.to_nat (h mod size paths))
  /\ size paths <= Catalog.maximum_ecmp_paths
  /\ (paths = [] <-> forall x, x ∈ l -> covers d x = false)
  /\ (forall x, x ∈ paths -> x ∈ l /\ covers d x = true
        /\ forall y, y ∈ l -> covers d y = true -> prefix_length y <= prefix_length x).
Proof.
  rewrite scan_spec. unfold summary. pose proof (longest_spec d l) as H.
  destruct (longest d None l) as [b|]; cbn [fst snd pick].
  - destruct H as (Hb & Cb & Hm).
    assert (b ∈ List.filter (equals b) l) as Hin.
    { apply elem_of_filter. split; [done|]. unfold equals. now rewrite Cb, !Z.eqb_refl, joins_refl. }
    split_and!; [done|unfold size, Catalog.maximum_ecmp_paths; rewrite length_take; lia| |].
    + split.
      * intros E. destruct (List.filter (equals b) l); [inversion Hin|].
        now change (Z.to_nat Catalog.maximum_ecmp_paths) with 128%nat in E.
      * intros Hn. rewrite (Hn b Hb) in Cb. discriminate.
    + intros x (i & Hx & _)%elem_of_take. apply list_elem_of_lookup_2, elem_of_filter in Hx as [H1 H2].
      unfold equals in H2. bool_to_prop. split_and!; try done. intros y Hy Cy. specialize (Hm y Hy Cy). lia.
  - split_and!; [done|done|done|]. intros x Hx. inversion Hx.
Qed.
End Scan.


(** The equal paths of a destination, primary and repair. *)
Definition paths (fib : FibProgram) (d : Z) : list Route :=
  (scan same_selection_class d None [] (primaries fib)).2.
Definition repair_paths (fib : FibProgram) (d : Z) : list Route :=
  (scan (fun _ _ => true) d None [] (repair_rows fib)).2.

Lemma lookup_paths fib d h : lookup fib d h = paths fib d !! Z.to_nat (h mod size (paths fib d)).
Proof. now apply scan_paths; intros; apply same_class_refl. Qed.

Lemma repair_lookup_paths fib d h :
  lookup_loop_free_alternate fib d h = repair_paths fib d !! Z.to_nat (h mod size (repair_paths fib d)).
Proof. now apply scan_paths. Qed.

Lemma paths_bound fib d :
  size (paths fib d) <= Catalog.maximum_ecmp_paths /\ size (repair_paths fib d) <= Catalog.maximum_ecmp_paths.
Proof. split; apply scan_paths; intros; try apply same_class_refl; done. Qed.

Lemma mod_lookup {A} (l : list A) h : l <> [] -> exists x, l !! Z.to_nat (h mod size l) = Some x.
Proof.
  intros H. apply lookup_lt_is_Some_2. unfold size.
  assert (length l <> 0)%nat by (now destruct l).
  pose proof (Z.mod_pos_bound h (Z.of_nat (length l))). lia.
Qed.

(** In a well-formed table the equal paths are all rows of one prefix. *)
Lemma well_formed_paths s d :
  well_formed s -> forall g : Z, primaries (compile s g) = routes_ s ->
  match longest d None (routes_ s) with
  | None => paths (compile s g) d = []
  | Some b => paths (compile s g) d = List.filter (of_prefix (network b) (prefix_length b)) (routes_ s)
  end.
Proof.
  intros W g Eg. unfold paths. rewrite Eg, scan_spec by apply same_class_refl. unfold summary.
  pose proof (longest_spec d (routes_ s)) as H. destruct (longest d None (routes_ s)) as [b|]; [|done].
  destruct H as (Hb & Cb & _). cbn [snd].
  assert (List.filter (equals same_selection_class d b) (routes_ s)
          = List.filter (of_prefix (network b) (prefix_length b)) (routes_ s)) as ->.
  { apply filter_ext_in. intros x Hx%list_elem_of_In. unfold equals, of_prefix.
    destruct (Z.eqb_spec (prefix_length x) (prefix_length b)) as [El|]; [|now rewrite !andb_false_r].
    rewrite !andb_true_r. destruct (Z.eqb_spec (network x) (network b)) as [En|]; [|now rewrite andb_false_r].
    rewrite andb_true_r. unfold covers in *. rewrite El, En. apply Z.eqb_eq in Cb. rewrite Cb, Z.eqb_refl.
    apply (wf_class s W); [done|done|]. unfold same_prefix. now rewrite El, En, !Z.eqb_refl. }
  pose proof (wf_paths s W (network b) (prefix_length b)) as Hp. apply take_ge. unfold size in Hp. lia.
Qed.

Section Choice.
Context {sorting : Sorting}.

(** C19: the forwarding plane sends a destination along the best candidate route:
    among all connected, undominated protocol and resolved static candidates it
    finds the longest prefix with the destination's leading bits, and of the
    prefix's best candidates, in next-hop order and up to the allowed paths, the
    one the flow hash picks.  It finds nothing exactly when no candidate's prefix
    contains the destination. *)
Theorem route_choice s interfaces statics dynamic maximum g d h :
  well_formed s -> 0 <= maximum ->
  Forall connected_typed interfaces -> Forall static_typed statics -> Forall dynamic_typed dynamic ->
  inputs_valid interfaces statics dynamic maximum = true -> fits interfaces statics dynamic maximum = true ->
  is_u32 d -> 0 <= h ->
  let cs := candidates interfaces statics dynamic in
  let s' := (rebuild s interfaces statics dynamic maximum).2 in
  match lookup (compile s' g) d h with
  | None => forall c, c ∈ cs -> ~ contains d c
  | Some r =>
      contains d r /\ (forall c, c ∈ cs -> contains d c -> prefix_length c <= prefix_length r)
      /\ exists ws, ws ≡ₚ champions cs (network r) (prefix_length r)
         /\ StronglySorted (before_in route_less) ws
         /\ let equal := take (Z.to_nat maximum) ws in equal !! Z.to_nat (h mod size equal) = Some r
  end.
Proof.
  intros W H0 Ct St Dt Ev Ef Hd Hh cs s'.
  destruct (well_formed_rebuilt s interfaces statics dynamic maximum g W H0 Ct St Dt) as (W' & Ep & _). fold s' in W', Ep.
  pose proof (rebuild_selected s interfaces statics dynamic maximum W H0 Ev Ef) as Hs.
  rewrite (surjective_pairing (rebuild _ _ _ _ _)) in Hs. destruct Hs as [Hs _]. fold s' cs in Hs.
  pose proof (valid_maximum _ _ _ _ H0 Ev) as (Hm & Cv & Sv & Dv).
  pose proof (candidates_typed interfaces statics dynamic Ct St Dt Cv Sv Dv) as Ht. fold cs in Ht.
  rewrite lookup_paths. pose proof (well_formed_paths s' d W' g Ep) as Hp.
  pose proof (longest_spec d (routes_ s')) as Hl.
  assert (Hcover : forall c, c ∈ cs -> contains d c ->
    exists r, r ∈ routes_ s' /\ covers d r = true /\ prefix_length r = prefix_length c).
  { intros c Hc Hcd. destruct (selected_present cs maximum (routes_ s') c ltac:(lia) Hs Hc) as (r & Hr & Hrc).
    apply (covers_contains d c Hd (Ht c Hc)) in Hcd. unfold same_prefix in Hrc. bool_to_prop.
    exists r. split_and!; [done| |done]. unfold covers in *. now rewrite E, E0. }
  destruct (longest d None (routes_ s')) as [b|].
  - destruct Hl as (Hb & Cb & Hmax). rewrite Hp.
    destruct (Hs (network b) (prefix_length b)) as (ws & Hw & Ws & Ew). rewrite Ew.
    assert (b ∈ List.filter (of_prefix (network b) (prefix_length b)) (routes_ s')) as Hbf.
    { apply elem_of_filter. split; [done|]. unfold of_prefix. now rewrite !Z.eqb_refl. }
    rewrite Ew in Hbf. destruct (mod_lookup (take (Z.to_nat maximum) ws) h) as (r & Hr).
    { intros E. rewrite E in Hbf. inversion Hbf. }
    rewrite Hr. assert (r ∈ take (Z.to_nat maximum) ws) as Hrin by (eapply list_elem_of_lookup_2; exact Hr).
    rewrite <- Ew in Hrin. apply elem_of_filter in Hrin as [Hrr Hrp]. unfold of_prefix in Hrp. bool_to_prop.
    rewrite E, E0. split_and!.
    + apply covers_contains; [done| |].
      * pose proof (wf_routes _ W') as Hty. rewrite List.Forall_forall in Hty. apply Hty. now apply list_elem_of_In.
      * unfold covers in *. now rewrite E, E0.
    + intros c Hc Hcd. destruct (Hcover c Hc Hcd) as (x & Hx & Cx & <-). auto.
    + exists ws. auto.
  - rewrite Hp. intros c Hc Hcd. destruct (Hcover c Hc Hcd) as (x & Hx & Cx & _).
    rewrite (Hl x Hx) in Cx. discriminate.
Qed.
End Choice.

(** ** Probing for a usable path *)

Lemma probe_found find usable h offset fuel x :
  probe find usable h offset fuel = Some x -> usable x = true /\ exists h', find h' = Some x.
Proof.
  revert offset. induction fuel as [|fuel IH]; intros offset; cbn [probe]; [done|].
  destruct (find _) as [c|] eqn:E; [|done]. destruct (usable c) eqn:Eu; [|apply IH].
  intros [= <-]. eauto.
Qed.

Lemma probe_missed find usable h offset fuel i :
  probe find usable h offset fuel = None -> offset <= i < offset + Z.of_nat fuel ->
  (forall k, find k <> None) ->
  exists x, find (u64 (h + i)) = Some x /\ usable x = false.
Proof.
  revert offset. induction fuel as [|fuel IH]; intros offset; cbn [probe]; [lia|].
  destruct (find (u64 (h + offset))) as [c|] eqn:E; intros H Hi Hf; [|now apply Hf in E].
  destruct (usable c) eqn:Eu; [done|].
  destruct (Z.eq_dec i offset) as [->|Hne]; [eauto|]. apply (IH (offset + 1)); [done|lia|done].
Qed.

(** Consecutive hashes reach every residue, as long as the sum does not wrap. *)
Lemma probe_paths (l : list Route) find usable h :
  (forall k, find k = l !! Z.to_nat (k mod size l)) -> size l <= Catalog.maximum_ecmp_paths ->
  0 <= h -> h + Catalog.maximum_ecmp_paths <= two64 ->
  match probe find usable h 0 probes with
  | Some x => x ∈ l /\ usable x = true
  | None => forall x, x ∈ l -> usable x = false
  end.
Proof.
  unfold Catalog.maximum_ecmp_paths. intros Hf Hl H0 Hw.
  destruct (probe find usable h 0 probes) as [x|] eqn:E.
  - apply probe_found in E as [Hu (h' & Hx)]. split; [|done]. rewrite Hf in Hx.
    now apply list_elem_of_lookup_2 in Hx.
  - intros x (i & Hi)%list_elem_of_lookup_1. pose proof (lookup_lt_Some _ _ _ Hi) as Hlt.
    assert (0 < size l) as Hpos by (unfold size; lia).
    set (o := (Z.of_nat i - h) mod size l). pose proof (Z.mod_pos_bound (Z.of_nat i - h) (size l) Hpos) as Ho.
    fold o in Ho. destruct (probe_missed _ _ _ _ _ o E) as (y & Hy & Hu).
    + change (Z.of_nat probes) with 128. lia.
    + intros k. rewrite Hf. destruct (mod_lookup l k) as (z & ->); [|done]. intros ->. cbn in Hlt. lia.
    + rewrite Hf in Hy. unfold u64 in Hy. rewrite (Z.mod_small (h + o)) in Hy by lia.
      unfold o in Hy. rewrite Z.add_mod_idemp_r in Hy by lia.
      replace (h + (Z.of_nat i - h)) with (Z.of_nat i) in Hy by lia.
      rewrite Z.mod_small, Nat2Z.id in Hy by (unfold size; lia). congruence.
Qed.

Definition forwards (ports : list ForwardPort) (r : Route) : bool :=
  local_system r || usable_port ports (port_ordinal r).

(** C31: the forwarder uses a path of the best prefix whenever one of them is local
    or leaves by a configured and operational port, whichever the flow hash points
    at; failing that a usable repair of the destination; and it gives up only when
    neither exists, provided the probed hashes do not wrap around 2^64. *)
Theorem forward_healthy fib ports d h :
  0 <= h -> h + Catalog.maximum_ecmp_paths <= two64 ->
  match lookup_ipv4_route fib ports d h with
  | Some r =>
      (r ∈ paths fib d /\ forwards ports r = true)
      \/ ((forall x, x ∈ paths fib d -> forwards ports x = false)
          /\ r ∈ repair_paths fib d /\ usable_port ports (port_ordinal r) = true)
  | None =>
      (forall x, x ∈ paths fib d -> forwards ports x = false)
      /\ (forall x, x ∈ repair_paths fib d -> usable_port ports (port_ordinal x) = false)
  end.
Proof.
  intros H0 Hw. destruct (paths_bound fib d) as [Hp Hr]. unfold lookup_ipv4_route.
  pose proof (probe_paths (paths fib d) (lookup fib d) (forwards ports) h (lookup_paths fib d) Hp H0 Hw) as H1.
  unfold forwards in H1 at 1. destruct (probe _ _ _ _ _) as [r|]; [now left|].
  pose proof (probe_paths (repair_paths fib d) (lookup_loop_free_alternate fib d)
    (fun x => usable_port ports (port_ordinal x)) h (repair_lookup_paths fib d) Hr H0 Hw) as H2.
  destruct (probe _ _ _ _ _) as [r|]; [right|]; auto.
Qed.

(** A default route with 127 equal paths, of which only the 65th has its port up. *)
Definition wide_fib : FibProgram :=
  mkFib 1 (map (fun i => mkRoute 0 (Z.of_nat i) (Z.of_nat i) 0 5 1 static_route false none 0) (seq 0 127)) 127 0.
Definition one_port : list ForwardPort := map (fun i => mkPort true (i =? 64)%nat) (seq 0 127).

(** When the hash is close to 2^64 the probed sum wraps, the probes miss a
    residue, and the forwarder drops a packet although one of the equal paths of
    its best prefix is usable. *)
Theorem forward_wrap_misses :
  (exists r, r ∈ paths wide_fib 0 /\ forwards one_port r = true)
  /\ lookup_ipv4_route wide_fib one_port 0 (two64 - 64) = None.
Proof.
  split; [|vm_compute; reflexivity].
  exists (mkRoute 0 64 64 0 5 1 static_route false none 0). split; [|vm_compute; reflexivity].
  apply (list_elem_of_lookup_2 _ 64). vm_compute. reflexivity.
Qed.

(** ** Installation *)

(** A program within its array. *)
Definition sized (p : FibProgram) : Prop :=
  0 <= count p /\ 0 <= loop_free_alternate_count p
  /\ count p + loop_free_alternate_count p <= size (routes p).

Lemma size_primaries p : sized p -> size (primaries p) = count p.
Proof. unfold sized, primaries, size. intros H. rewrite length_take. lia. Qed.

Lemma size_repairs p : sized p -> size (repair_rows p) = loop_free_alternate_count p.
Proof. unfold sized, repair_rows, size. intros H. rewrite length_take, length_drop. lia. Qed.

Lemma prior_time_spec route rs times now :
  length times = length rs ->
  match list_find (fun r => r = route) rs with
  | Some (i, _) => times !! i = Some (prior_time route rs times now)
  | None => prior_time route rs times now = now
  end.
Proof.
  revert times. induction rs as [|r rs IH]; intros [|t times] Hl; try done. cbn [prior_time list_find].
  destruct (same_route r route) eqn:E.
  - apply same_route_spec in E. rewrite decide_True by done. done.
  - rewrite decide_False by (intros Hr; apply same_route_spec in Hr; congruence).
    specialize (IH times ltac:(now injection Hl)). destruct (list_find _ rs) as [[i x]|]; done.
Qed.

Definition same_program (p q : FibProgram) : Prop :=
  generation p = generation q /\ primaries p = primaries q /\ repair_rows p = repair_rows q.

Lemma equal_rows l l' : length l = length l' -> equal_ranges same_route l l' = true <-> l = l'.
Proof.
  intros H. apply equal_ranges_spec; [|now intros; apply same_route_spec|done].
  now intros ???? ?%same_route_spec.
Qed.

(** Installing a program never moves the forwarding plane back: an older
    program, one beyond the capacity, or another program under the installed
    generation changes nothing; an accepted one is exactly what is installed, and
    every route it keeps keeps the time of its first installation. *)
Theorem fib_installation s p now :
  sized p -> sized (fib_ s) -> length (installed_at_ s) = length (primaries (fib_ s)) ->
  let (ok, s') := program_fib s p now in
  generation (fib_ s) <= generation (fib_ s') /\ length (installed_at_ s') = length (primaries (fib_ s'))
  /\ if ok then
       same_program p (fib_ s')
       /\ (s' = s
           \/ forall i r, primaries p !! i = Some r -> exists at_, installed_at_ s' !! i = Some at_
              /\ match list_find (fun x => x = r) (primaries (fib_ s)) with
                 | Some (j, _) => installed_at_ s !! j = Some at_
                 | None => at_ = now
                 end)
     else s' = s
       /\ (generation p < generation (fib_ s)
           \/ Catalog.maximum_fib_routes_per_router < count p + loop_free_alternate_count p
           \/ (generation p = generation (fib_ s) /\ ~ same_program p (fib_ s))).
Proof.
  intros Sp Ss Hl. pose proof (size_primaries p Sp) as Cp. pose proof (size_repairs p Sp) as Rp.
  pose proof (size_primaries _ Ss) as Cs. pose proof (size_repairs _ Ss) as Rs.
  unfold program_fib. destruct (_ || _ || _) eqn:E1.
  - rewrite !orb_true_iff, !Z.ltb_lt in E1. unfold sized in Sp. split_and!; try done. lia.
  - rewrite !orb_false_iff, !Z.ltb_ge in E1. destruct (_ && _) eqn:E2.
    + rewrite andb_true_iff, negb_true_iff, Z.eqb_eq, Z.eqb_neq in E2. destruct E2 as [E2 E3].
      destruct (negb _) eqn:E4.
      * rewrite negb_true_iff, !orb_false_iff, !negb_false_iff, !Z.eqb_eq in E4. destruct E4 as [[[F1 F2] F3] F4].
        apply equal_rows in F3, F4; try (unfold size in *; lia). split_and!; try done. now left.
      * split_and!; try done. right. right. split; [done|]. intros (G1 & G2 & G3).
        rewrite negb_false_iff, !orb_true_iff, !negb_true_iff, !Z.eqb_neq in E4.
        rewrite G2, G3 in *. rewrite !(proj2 (equal_rows _ _ eq_refl) eq_refl) in E4. intuition (lia || done).
    + cbn [fib_ installed_at_]. split; [lia|]. rewrite length_map. split; [done|]. split; [done|]. right.
      intros i r Hr. rewrite list_lookup_fmap, Hr. cbn. eexists. split; [done|].
      pose proof (prior_time_spec r (primaries (fib_ s)) (installed_at_ s) now Hl) as H.
      destruct (list_find _ _) as [[j x]|]; done.
Qed.

(** ** Static routes *)

Lemma on_link_bits nh n len :
  is_u32 nh -> is_u32 n -> 0 <= len <= 32 ->
  on_link nh n len = true <-> nh / 2 ^ (32 - len) = n / 2 ^ (32 - len).
Proof.
  intros Hh Hn Hl. unfold on_link. rewrite Z.eqb_eq, !land_mask by done. split; [|now intros ->].
  intros H. apply Z.mul_cancel_r in H; [done|]. lia.
Qed.

(** An operational interface other than the system one whose subnet holds the
    next hop. *)
Definition link_of (e : StaticInput) (c : ConnectedInput) : Prop :=
  c_configured c = true /\ c_operational c = true /\ c_local_system c = false
  /\ s_next_hop e / 2 ^ (32 - c_prefix_length c) = c_network c / 2 ^ (32 - c_prefix_length c).
(** An operational protocol route, not a repair, that covers the next hop. *)
Definition route_of (e : StaticInput) (x : DynamicInput) : Prop :=
  primary_input x = true
  /\ s_next_hop e / 2 ^ (32 - d_prefix_length x) = d_network x / 2 ^ (32 - d_prefix_length x).

Lemma link_of_spec e c :
  static_typed e -> connected_typed c -> connected_valid c = true ->
  resolves_directly e c = true <-> link_of e c.
Proof.
  intros (_ & Hn & _) (H1 & _ & H3) Hv. unfold resolves_directly, link_of, connected_valid in *.
  destruct (c_configured c), (c_operational c), (c_local_system c); cbn [negb orb andb] in *;
    try (split; [done|intros (? & ? & ? & ?); done]).
  bool_to_prop. rewrite on_link_bits by (done || lia). tauto.
Qed.

Lemma route_of_spec e x :
  static_typed e -> dynamic_typed x -> dynamic_valid x = true ->
  resolves_indirectly e x = true <-> route_of e x.
Proof.
  intros (_ & Hn & _) (H1 & _ & _ & H3 & _) Hv. unfold resolves_indirectly, route_of. rewrite andb_true_iff.
  destruct (primary_input x) eqn:Ep; [|split; intros [? _]; done].
  assert (d_configured x = true) as Hc by (unfold primary_input in Ep; now bool_to_prop).
  unfold dynamic_valid in Hv. rewrite Hc in Hv. cbn [andb] in Hv. bool_to_prop.
  rewrite on_link_bits by (done || lia). tauto.
Qed.

Lemma resolve_directly_longest e r0 l r :
  resolve_directly e r0 l = Some r ->
  (forall b, r0 = Some b -> c_prefix_length b <= c_prefix_length r)
  /\ forall c, c ∈ l -> resolves_directly e c = true -> c_prefix_length c <= c_prefix_length r.
Proof.
  revert r0. induction l as [|c l IH]; intros r0; cbn [resolve_directly].
  - intros ->. split; [intros b [= ->]; lia|]. intros c Hc. inversion Hc.
  - intros H. apply IH in H as [H1 H2]. destruct (resolves_directly e c) eqn:E; cbn [negb] in H1.
    + destruct r0 as [b|].
      * destruct (Z.ltb_spec (c_prefix_length b) (c_prefix_length c)); specialize (H1 _ eq_refl);
          (split; [intros ? [= <-]; lia|intros x [->|Hx]%elem_of_cons Ex; [lia|auto]]).
      * specialize (H1 _ eq_refl). split; [done|]. intros x [->|Hx]%elem_of_cons Ex; auto.
    + split; [done|]. intros x [->|Hx]%elem_of_cons Ex; [congruence|auto].
Qed.

Lemma resolve_directly_none e r0 l :
  resolve_directly e r0 l = None -> r0 = None /\ forall c, c ∈ l -> resolves_directly e c = false.
Proof.
  revert r0. induction l as [|c l IH]; intros r0; cbn [resolve_directly].
  - intros ->. split; [done|]. intros c Hc. inversion Hc.
  - intros H. apply IH in H as [H1 H2]. destruct (resolves_directly e c) eqn:E; cbn [negb] in H1.
    + destruct r0; [case_if_in H1|]; done.
    + split; [done|]. intros x [->|Hx]%elem_of_cons; auto.
Qed.

(** The order of indirect resolution: longer prefix, then preference, then metric. *)
Definition resolution_key (x : DynamicInput) : list Z := [- d_prefix_length x; d_preference x; d_metric x].

Lemma better_resolution_key c b : better_resolution c b = lex (resolution_key c) (resolution_key b).
Proof.
  unfold better_resolution, resolution_key. rewrite !lex_cons. cbn [lex].
  destruct (Z.eqb_spec (- d_prefix_length c) (- d_prefix_length b)); cbn [negb]; [|blia].
  destruct (Z.eqb_spec (d_preference c) (d_preference b)); cbn [negb]; [|blia].
  destruct (Z.eqb_spec (d_metric c) (d_metric b)); cbn [negb]; blia.
Qed.

Lemma equal_resolution_key b x : equal_resolution b x = true <-> resolution_key x = resolution_key b.
Proof.
  unfold equal_resolution, resolution_key. rewrite !andb_true_iff, !Z.eqb_eq. split.
  - intros [[-> ->] ->]. done.
  - intros H. injection H. intros. split_and!; lia.
Qed.

Lemma resolve_indirectly_best e b0 l :
  match resolve_indirectly e b0 l with
  | Some b =>
      (b0 = Some b \/ (b ∈ l /\ resolves_indirectly e b = true))
      /\ (forall x, b0 = Some x -> better_resolution x b = false)
      /\ forall x, x ∈ l -> resolves_indirectly e x = true -> better_resolution x b = false
  | None => b0 = None /\ forall x, x ∈ l -> resolves_indirectly e x = false
  end.
Proof.
  assert (Hrefl : forall x, better_resolution x x = false) by (intros; rewrite better_resolution_key; apply lex_irrefl).
  assert (Htrans : forall x y z, better_resolution x y = false -> better_resolution y z = false ->
    better_resolution x z = false) by (intros x y z; rewrite !better_resolution_key; now apply lex_negtrans).
  revert b0. induction l as [|c l IH]; intros b0; cbn [resolve_indirectly].
  - destruct b0 as [b|]; [|split; [done|intros x Hx; inversion Hx]].
    split_and!; [now left|intros x [= <-]; apply Hrefl|intros x Hx; inversion Hx].
  - set (b1 := if negb _ then _ else _). specialize (IH b1).
    destruct (resolve_indirectly e b1 l) as [b|]; destruct (resolves_indirectly e c) eqn:Ec; subst b1; cbn [negb] in IH.
    + destruct IH as (I1 & I2 & I3). destruct b0 as [y|].
      * destruct (better_resolution c y) eqn:Ey; specialize (I2 _ eq_refl).
        -- split_and!.
           ++ right. destruct I1 as [[= ->]|[? ?]]; (split; [constructor; done|done]).
           ++ intros x [= <-]. apply (Htrans _ c); [|done]. rewrite better_resolution_key in *. now apply lex_asym.
           ++ intros x [->|Hx]%elem_of_cons; auto.
        -- split_and!.
           ++ destruct I1 as [I1|[? ?]]; [now left|right; split; [now constructor|done]].
           ++ intros x [= <-]. done.
           ++ intros x [->|Hx]%elem_of_cons Ex; [now apply (Htrans _ y)|auto].
      * specialize (I2 _ eq_refl). split_and!; [|done|intros x [->|Hx]%elem_of_cons; auto].
        right. destruct I1 as [[= ->]|[? ?]]; (split; [constructor; done|done]).
    + destruct IH as (I1 & I2 & I3). split_and!; [|done|intros x [->|Hx]%elem_of_cons Ex; [congruence|auto]].
      destruct I1 as [I1|[? ?]]; [now left|right; split; [now constructor|done]].
    + destruct IH as [I1 _]. destruct b0; [case_if_in I1|]; done.
    + destruct IH as [-> I2]. split; [done|]. intros x [->|Hx]%elem_of_cons; auto.
Qed.

(** A static route is used through what its next hop lies in.  A direct one
    leaves by the operational interface with the longest subnet around the next
    hop, never by the system address, and is absent without one; an indirect one
    takes exactly the paths of the best operational protocol routes that cover the
    next hop (longest prefix, then preference, then metric), never another static
    route. *)
Theorem static_resolution interfaces dynamic e :
  Forall connected_typed interfaces -> forallb connected_valid interfaces = true ->
  Forall dynamic_typed dynamic -> forallb dynamic_valid dynamic = true ->
  static_typed e -> s_configured e = true ->
  if s_indirect e then
    forall r, r ∈ static_routes interfaces dynamic e <->
      exists x, x ∈ dynamic /\ route_of e x
        /\ (forall y, y ∈ dynamic -> route_of e y -> better_resolution y x = false)
        /\ r = static_value e (d_next_hop x) (d_port_ordinal x)
  else
    match static_routes interfaces dynamic e with
    | [] => forall c, c ∈ interfaces -> ~ link_of e c
    | [r] => exists c, c ∈ interfaces /\ link_of e c
        /\ (forall c', c' ∈ interfaces -> link_of e c' -> c_prefix_length c' <= c_prefix_length c)
        /\ r = static_value e (s_next_hop e) (c_port_ordinal c)
    | _ => False
    end.
Proof.
  intros Ct Cv Dt Dv Se Hc. rewrite List.Forall_forall in Ct, Dt.
  pose proof (proj1 (forallb_forall _ _) Cv) as Cv'. pose proof (proj1 (forallb_forall _ _) Dv) as Dv'.
  assert (HC : forall c, c ∈ interfaces -> resolves_directly e c = true <-> link_of e c)
    by (intros c Hin%list_elem_of_In; apply link_of_spec; auto).
  assert (HD : forall x, x ∈ dynamic -> resolves_indirectly e x = true <-> route_of e x)
    by (intros x Hin%list_elem_of_In; apply route_of_spec; auto).
  unfold static_routes. rewrite Hc. cbn [negb]. destruct (s_indirect e); cbn [negb].
  - pose proof (resolve_indirectly_best e None dynamic) as H.
    destruct (resolve_indirectly e None dynamic) as [b|].
    + destruct H as ([H|[Hb Rb]] & _ & Hbest); [done|]. intros r. rewrite list_elem_of_In, in_map_iff. split.
      * intros (x & <- & Hx). apply filter_In in Hx as [Hx Ex]. apply andb_true_iff in Ex as [Rx Ex].
        apply list_elem_of_In in Hx. exists x. split_and!; [done|now apply HD| |done].
        intros y Hy Ry. apply HD in Ry; [|done]. rewrite better_resolution_key.
        apply equal_resolution_key in Ex. rewrite Ex, <- better_resolution_key. auto.
      * intros (x & Hx & Rx & Hmin & ->). exists x. split; [done|]. apply filter_In.
        split; [now apply list_elem_of_In|]. apply HD in Rx; [|done]. rewrite Rx. cbn [andb].
        apply equal_resolution_key, lex_antisym; [done| |]; rewrite <- better_resolution_key; [auto|].
        apply Hmin; [done|]. now apply HD.
    + destruct H as [_ H]. intros r. split; [intros Hr; inversion Hr|]. intros (x & Hx & Rx & _).
      apply HD in Rx; [|done]. rewrite H in Rx; done.
  - destruct (resolve_directly e None interfaces) as [c|] eqn:E.
    + pose proof (resolve_directly_longest _ _ _ _ E) as [_ Hl].
      apply resolve_directly_valid in E as [E|[Hin Rc]]; [done|]. exists c.
      split_and!; [done|now apply HC| |done]. intros c' Hc' Lc'. apply Hl; [done|]. now apply HC.
    + apply resolve_directly_none in E as [_ H]. intros c Hin Lc. apply HC in Lc; [|done]. rewrite H in Lc; done.
Qed.

(** ** A lost repair *)

(** Two instances of one protocol offer a prefix; the second has the better
    preference, and both name the same repair. *)
Definition two_instances : list DynamicInput :=
  let path (nh port pref inst : Z) (alternate : bool) :=
    mkDynamic true true 167772160 nh port pref 10 8 ospf intra_area 0 0 0 inst alternate in
  [path 1 1 20 0 false; path 2 2 10 1 false; path 3 3 20 0 true; path 3 3 10 1 true].

(** When two protocol instances offer the same repair for a prefix, removing
    duplicates before checking who owns the prefix can keep the repair of the
    losing instance and drop that of the winner: the selected route loses the
    protection its own instance offered. *)
Theorem rib_repair_lost :
  let s' := (rebuild initial [] [] two_instances 1).2 in
  (exists r e, r ∈ routes_ s' /\ e ∈ two_instances /\ repair_input e = true
               /\ repairs (dynamic_value e) r = true)
  /\ last_rebuild_valid_ s' = true /\ loop_free_alternates_ s' = [].
Proof.
  split; [|vm_compute; auto].
  exists (mkRoute 167772160 2 2 8 10 10 ospf false intra_area 1),
    (mkDynamic true true 167772160 3 3 10 10 8 ospf intra_area 0 0 0 1 true).
  split_and!; [|do 3 apply list_elem_of_further; apply list_elem_of_here|vm_compute; reflexivity|vm_compute; reflexivity].
  apply (list_elem_of_lookup_2 _ 0). vm_compute. reflexivity.
Qed.

(** ** Witnesses *)

(** 10.0.0.0/24 on port 1, 10.0.0.0/8 over OSPF, a default route through 10.0.0.9. *)
Definition lan : list ConnectedInput :=
  [mkConnected true true 167772161 1 24 false; mkConnected true true 3232235777 0 32 true].
Definition ways_out : list StaticInput := [mkStatic true 0 167772169 0 false; mkStatic true 0 167774000 0 true].
Definition ospf_ways : list DynamicInput :=
  [mkDynamic true true 167772160 167772170 1 10 20 8 ospf intra_area 0 0 0 0 false;
   mkDynamic true true 167772160 167772171 2 10 20 8 ospf intra_area 0 0 0 0 false;
   mkDynamic true true 167772160 167772172 3 10 20 8 ospf intra_area 0 0 0 0 true].

Lemma initial_well_formed : well_formed initial.
Proof.
  constructor; cbn; try constructor; try (now intros x y Hx; inversion Hx).
  all: vm_compute; discriminate.
Qed.

Lemma lan_typed : Forall connected_typed lan.
Proof. unfold lan, connected_typed, is_u32. repeat constructor; cbn; lia. Qed.
Lemma ways_out_typed : Forall static_typed ways_out.
Proof. unfold ways_out, static_typed, is_u32. repeat constructor; cbn; lia. Qed.
Lemma ospf_ways_typed : Forall dynamic_typed ospf_ways.
Proof. unfold ospf_ways, dynamic_typed, is_u32, is_u16, is_u8. repeat constructor; cbn; lia. Qed.

Definition lan_fib : FibProgram := compile (rebuild initial lan ways_out ospf_ways 2).2 1.
Definition lan_ports : list ForwardPort := [mkPort true true; mkPort true false; mkPort true true].

Lemma rib_selects_witness :
  (inputs_valid lan ways_out ospf_ways 2 && fits lan ways_out ospf_ways 2 = true)
  /\ let (changed, s') := rebuild initial lan ways_out ospf_ways 2 in
     if inputs_valid lan ways_out ospf_ways 2 && fits lan ways_out ospf_ways 2
     then selected (candidates lan ways_out ospf_ways) 2 (routes_ s')
       /\ repaired ospf_ways (routes_ s') (loop_free_alternates_ s') /\ last_rebuild_valid_ s' = true
       /\ (changed = false <-> routes_ s' = routes_ initial /\ loop_free_alternates_ s' = loop_free_alternates_ initial)
     else changed = false /\ s' = initial <| last_rebuild_valid_ := false |>.
Proof.
  split; [vm_compute; reflexivity|].
  exact (rib_selects (sorting := merge_sorting) initial lan ways_out ospf_ways 2 initial_well_formed ltac:(lia)).
Defined.

Lemma rib_well_formed_witness :
  let s' := (rebuild initial lan ways_out ospf_ways 2).2 in
  length (routes_ s') = 6%nat
  /\ well_formed s' /\ primaries (compile s' 1) = routes_ s' /\ repair_rows (compile s' 1) = loop_free_alternates_ s'.
Proof.
  split; [vm_compute; reflexivity|].
  exact (rib_well_formed (sorting := merge_sorting) initial lan ways_out ospf_ways 2 1 initial_well_formed
    ltac:(lia) lan_typed ways_out_typed ospf_ways_typed).
Defined.

Lemma route_choice_witness :
  fits lan ways_out ospf_ways 2 = true
  /\ match lookup lan_fib 167837953 7 with
     | None => forall c, c ∈ candidates lan ways_out ospf_ways -> ~ contains 167837953 c
     | Some r =>
         contains 167837953 r
         /\ (forall c, c ∈ candidates lan ways_out ospf_ways -> contains 167837953 c ->
               prefix_length c <= prefix_length r)
         /\ exists ws, ws ≡ₚ champions (candidates lan ways_out ospf_ways) (network r) (prefix_length r)
            /\ StronglySorted (before_in route_less) ws
            /\ let equal := take (Z.to_nat 2) ws in equal !! Z.to_nat (7 mod size equal) = Some r
     end.
Proof.
  split; [vm_compute; reflexivity|].
  exact (route_choice (sorting := merge_sorting) initial lan ways_out ospf_ways 2 1 167837953 7 initial_well_formed ltac:(lia)
    lan_typed ways_out_typed ospf_ways_typed eq_refl ltac:(vm_compute; reflexivity) ltac:(unfold is_u32; lia) ltac:(lia)).
Defined.

Lemma static_resolution_witness :
  (match static_routes lan ospf_ways (mkStatic true 0 167772169 0 false) with
   | [] => forall c, c ∈ lan -> ~ link_of (mkStatic true 0 167772169 0 false) c
   | [r] => exists c, c ∈ lan /\ link_of (mkStatic true 0 167772169 0 false) c
       /\ (forall c', c' ∈ lan -> link_of (mkStatic true 0 167772169 0 false) c' -> c_prefix_length c' <= c_prefix_length c)
       /\ r = static_value (mkStatic true 0 167772169 0 false) 167772169 (c_port_ordinal c)
   | _ => False
   end)
  /\ static_routes lan ospf_ways (mkStatic true 0 167772169 0 false)
     = [mkRoute 0 167772169 1 0 5 1 static_route false none 0].
Proof.
  split; [|vm_compute; reflexivity].
  exact (static_resolution lan ospf_ways (mkStatic true 0 167772169 0 false) lan_typed eq_refl ospf_ways_typed
    eq_refl ltac:(unfold static_typed, is_u32; cbn; lia) eq_refl).
Defined.

Lemma forward_healthy_witness :
  match lookup_ipv4_route lan_fib
          lan_ports 167837953 0 with
  | Some r => port_ordinal r = 2
  | None => False
  end
  /\ match lookup_ipv4_route lan_fib
             lan_ports 167837953 0 with
     | Some r =>
         (r ∈ paths lan_fib 167837953
          /\ forwards lan_ports r = true)
         \/ ((forall x, x ∈ paths lan_fib 167837953 ->
                forwards lan_ports x = false)
             /\ r ∈ repair_paths lan_fib 167837953
             /\ usable_port lan_ports (port_ordinal r) = true)
     | None =>
         (forall x, x ∈ paths lan_fib 167837953 ->
            forwards lan_ports x = false)
         /\ (forall x, x ∈ repair_paths lan_fib 167837953 ->
               usable_port lan_ports (port_ordinal x) = false)
     end.
Proof.
  split; [vm_compute; reflexivity|].
  exact (forward_healthy lan_fib
    lan_ports 167837953 0
    ltac:(lia) ltac:(vm_compute; discriminate)).
Defined.

Definition lan_installed : Installed := mkInstalled lan_fib [4; 5; 6; 7; 8; 9].
Definition lan_only : FibProgram := compile (rebuild initial lan ways_out [] 2).2 2.

Lemma fib_installation_witness :
  installed_at_ (program_fib lan_installed lan_only 100).2 = [4; 6; 9]
  /\ let (ok, s') := program_fib lan_installed lan_only 100 in
     generation (fib_ lan_installed) <= generation (fib_ s')
     /\ length (installed_at_ s') = length (primaries (fib_ s'))
     /\ if ok then
          same_program lan_only (fib_ s')
          /\ (s' = lan_installed
              \/ forall i r, primaries lan_only !! i = Some r -> exists at_, installed_at_ s' !! i = Some at_
                 /\ match list_find (fun x => x = r) (primaries (fib_ lan_installed)) with
                    | Some (j, _) => installed_at_ lan_installed !! j = Some at_
                    | None => at_ = 100
                    end)
        else s' = lan_installed
          /\ (generation lan_only < generation (fib_ lan_installed)
              \/ Catalog.maximum_fib_routes_per_router < count lan_only + loop_free_alternate_count lan_only
              \/ (generation lan_only = generation (fib_ lan_installed)
                  /\ ~ same_program lan_only (fib_ lan_installed))).
Proof.
  split; [vm_compute; reflexivity|]. refine (fib_installation lan_installed lan_only 100 _ _ _).
  - split_and!; vm_compute; discriminate.
  - split_and!; vm_compute; discriminate.
  - vm_compute. reflexivity.
Defined.

End RouteLookup.
