(* ===== verification/OspfFsm.v ===== *)
(** * The OSPF state machines (core/src/ospf/ospf_fsm.cpp)

    Pure functions: the interface machine of RFC 2328 section 9.3, the election of
    section 9.4 and the neighbor machine of section 10.3. *)

From S2P Require Import Prelude.

Module OspfFsm.

Module NetworkType.
Inductive t := point_to_point | broadcast | non_broadcast | point_to_multipoint | virtual_link.
#[export] Instance eq_dec : EqDecision t.
Proof. solve_decision. Defined.
End NetworkType.

Module InterfaceState.
Inductive t := down | loopback | waiting | point_to_point | dr_other | backup | designated.
#[export] Instance eq_dec : EqDecision t.
Proof. solve_decision. Defined.
End InterfaceState.

Module InterfaceEvent.
Inductive t :=
| interface_up | wait_timer | backup_seen | neighbor_change | loop_indication | unloop_indication
| interface_down.
#[export] Instance eq_dec : EqDecision t.
Proof. solve_decision. Defined.
End InterfaceEvent.

Module NeighborState.
Inductive t := down | attempt | init | two_way | exstart | exchange | loading | full.
#[export] Instance eq_dec : EqDecision t.
Proof. solve_decision. Defined.
(** The enumerator's value, by which states are compared. *)
Definition number (s : t) : Z :=
  match s with
  | down => 0 | attempt => 1 | init => 2 | two_way => 3 | exstart => 4 | exchange => 5 | loading => 6
  | full => 7
  end.
Definition at_least (s bound : t) : bool := number bound <=? number s.
End NeighborState.

Module NeighborEvent.
Inductive t :=
| start | hello_received | two_way_received | negotiation_done | exchange_done | bad_link_state_request
| loading_done | adjacency_ok | sequence_number_mismatch | one_way_received | kill_neighbor
| inactivity_timer | lower_layer_down.
#[export] Instance eq_dec : EqDecision t.
Proof. solve_decision. Defined.
End NeighborEvent.

#[export] Existing Instances NetworkType.eq_dec InterfaceState.eq_dec InterfaceEvent.eq_dec
  NeighborState.eq_dec NeighborEvent.eq_dec.

Definition same {A} `{EqDecision A} (x y : A) : bool := bool_decide (x = y).

(** Actions are bits; a combination is their disjunction. *)
Module InterfaceAction.
Definition none : Z := 0.
Definition start_hello_timer : Z := 1.
Definition start_wait_timer : Z := 2.
Definition stop_timers : Z := 4.
Definition send_hello : Z := 8.
Definition elect_dr_bdr : Z := 16.
Definition reset_interface : Z := 32.
Definition originate_router_lsa : Z := 64.
Definition originate_network_lsa : Z := 128.
End InterfaceAction.

Module NeighborAction.
Definition none : Z := 0.
Definition send_hello : Z := 1.
Definition reset_inactivity_timer : Z := 2.
Definition stop_inactivity_timer : Z := 4.
Definition clear_adjacency : Z := 8.
Definition begin_database_exchange : Z := 16.
Definition start_sending_requests : Z := 32.
Definition notify_interface : Z := 64.
Definition delete_neighbor : Z := 128.
End NeighborAction.

(** [left | right] and [has_action] *)
Definition both (left right : Z) : Z := Z.lor left right.
Definition has_action (actions action : Z) : bool := negb (Z.land actions action =? 0).

(** ** The interface machine *)

Definition interface_reset_actions : Z :=
  both (both InterfaceAction.stop_timers InterfaceAction.reset_interface)
    InterfaceAction.originate_router_lsa.

Definition is_multi_access (type : NetworkType.t) : bool :=
  same type NetworkType.broadcast || same type NetworkType.non_broadcast.

(** The actions of every successful InterfaceUp *)
Definition interface_up_actions : Z :=
  both (both InterfaceAction.start_hello_timer InterfaceAction.send_hello)
    InterfaceAction.originate_router_lsa.

Definition interface_transition (current : InterfaceState.t) (event : InterfaceEvent.t)
    (network_type : NetworkType.t) (router_priority : Z) : InterfaceState.t * Z :=
  if same event InterfaceEvent.interface_down then (InterfaceState.down, interface_reset_actions)
  else if same event InterfaceEvent.loop_indication then (InterfaceState.loopback, interface_reset_actions)
  else if same current InterfaceState.loopback then
    if same event InterfaceEvent.unloop_indication
    then (InterfaceState.down, InterfaceAction.originate_router_lsa)
    else (current, InterfaceAction.none)
  else if same current InterfaceState.down then
    if negb (same event InterfaceEvent.interface_up) then (current, InterfaceAction.none)
    else if negb (is_multi_access network_type) then (InterfaceState.point_to_point, interface_up_actions)
    else if router_priority =? 0 then (InterfaceState.dr_other, interface_up_actions)
    else (InterfaceState.waiting, both interface_up_actions InterfaceAction.start_wait_timer)
  else if negb (is_multi_access network_type) then (current, InterfaceAction.none)
  else if same current InterfaceState.waiting then
    if same event InterfaceEvent.wait_timer || same event InterfaceEvent.backup_seen
    then (current, InterfaceAction.elect_dr_bdr)
    else (current, InterfaceAction.none)
  else if (same current InterfaceState.dr_other || same current InterfaceState.backup
           || same current InterfaceState.designated) && same event InterfaceEvent.neighbor_change
  then (current, InterfaceAction.elect_dr_bdr)
  else (current, InterfaceAction.none).

(** ** Designated router election *)

Record ElectionRouter := mkRouter {
  election_identity : Z;
  router_id : Z;
  declared_dr : Z;
  declared_bdr : Z;
  priority : Z;
  two_way_or_greater : bool;
  local : bool
}.
#[export] Instance ElectionRouter_settable : Settable ElectionRouter := fun r =>
  mkRouter (election_identity r) (router_id r) (declared_dr r) (declared_bdr r) (priority r)
    (two_way_or_greater r) (local r).
#[export] Instance ElectionRouter_eq_dec : EqDecision ElectionRouter.
Proof. solve_decision. Defined.

Record DrBdrElection := mkElection {
  designated_router : Z;
  backup_designated_router : Z;
  local_state : InterfaceState.t
}.

(** A pointer into the candidates: the index and the router there. *)
Definition Pointer : Type := option (nat * ElectionRouter).

Definition better (candidate current : Pointer) : bool :=
  match candidate, current with
  | None, _ => false
  | Some _, None => true
  | Some (_, a), Some (_, b) =>
      (priority b <? priority a) || ((priority a =? priority b) && (router_id b <? router_id a))
  end.

Definition eligible (router : ElectionRouter) : bool :=
  negb (priority router =? 0) && (local router || two_way_or_greater router).

(** One scan over the candidates.  Declarations are read from [project] of each
    row; the pointers are to the rows themselves. *)
Fixpoint scan (project : ElectionRouter -> ElectionRouter)
    (declared_designated declared_backup fallback_backup : Pointer)
    (rows : list (nat * ElectionRouter)) : Pointer * Pointer * Pointer :=
  match rows with
  | [] => (declared_designated, declared_backup, fallback_backup)
  | row :: rows =>
      let router := project row.2 in
      if negb (eligible router) then scan project declared_designated declared_backup fallback_backup rows
      else
        let declares_dr := declared_dr router =? election_identity router in
        let declares_bdr := declared_bdr router =? election_identity router in
        if declares_dr then
          scan project (if better (Some row) declared_designated then Some row else declared_designated)
            declared_backup fallback_backup rows
        else
          scan project declared_designated
            (if declares_bdr && better (Some row) declared_backup then Some row else declared_backup)
            (if better (Some row) fallback_backup then Some row else fallback_backup) rows
  end.

(** [a ? a : b] on pointers *)
Definition or_else (a b : Pointer) : Pointer := match a with Some _ => a | None => b end.

(** The designated and the backup router of one scan. *)
Definition election_pass (project : ElectionRouter -> ElectionRouter) (rows : list (nat * ElectionRouter))
    : Pointer * Pointer :=
  let '(designated, backup, fallback) := scan project None None None rows in
  let backup := or_else backup fallback in
  (or_else designated backup, backup).

Definition one_election (rows : list (nat * ElectionRouter)) : Pointer * Pointer :=
  election_pass (fun router => router) rows.

Definition find_local (rows : list (nat * ElectionRouter)) : Pointer :=
  List.find (fun row => local row.2) rows.

(** [pointer == local] *)
Definition points_to (pointer local : Pointer) : bool :=
  match pointer, local with
  | Some (i, _), Some (j, _) => (i =? j)%nat
  | None, None => true
  | _, _ => false
  end.

Definition role_of (pair : Pointer * Pointer) (local : Pointer) : InterfaceState.t :=
  if points_to pair.1 local then InterfaceState.designated
  else if points_to pair.2 local then InterfaceState.backup else InterfaceState.dr_other.

Definition identity_of (pointer : Pointer) : Z :=
  match pointer with Some (_, router) => election_identity router | None => 0 end.

(** The local row with the declarations of its new role. *)
Definition project_role (role : InterfaceState.t) (router : ElectionRouter) : ElectionRouter :=
  if local router then
    router <| declared_dr := if same role InterfaceState.designated then election_identity router else 0 |>
           <| declared_bdr := if same role InterfaceState.backup then election_identity router else 0 |>
  else router.

Definition elect_dr_bdr (routers : list ElectionRouter) : DrBdrElection :=
  let rows := imap pair routers in
  let first := one_election rows in
  let ineligible := mkElection (identity_of first.1) (identity_of first.2) InterfaceState.dr_other in
  match find_local rows with
  | None => ineligible
  | Some (i, router) =>
      if negb (eligible router) then ineligible
      else
        let local := Some (i, router) in
        let previous_local_role :=
          if declared_dr router =? election_identity router then InterfaceState.designated
          else if declared_bdr router =? election_identity router then InterfaceState.backup
          else InterfaceState.dr_other in
        let first_local_role := role_of first local in
        let first := if negb (same first_local_role previous_local_role)
                     then election_pass (project_role first_local_role) rows else first in
        mkElection (identity_of first.1) (identity_of first.2) (role_of first local)
  end.

(** ** The neighbor machine *)

Definition adjacency_reset_actions : Z :=
  both NeighborAction.clear_adjacency NeighborAction.begin_database_exchange.

Definition down_neighbor (extra : Z) : NeighborState.t * Z :=
  (NeighborState.down,
   both (both (both NeighborAction.stop_inactivity_timer NeighborAction.clear_adjacency)
           NeighborAction.notify_interface) extra).

Definition neighbor_transition (current : NeighborState.t) (event : NeighborEvent.t)
    (adjacency_required requests_pending : bool) : NeighborState.t * Z :=
  if same event NeighborEvent.kill_neighbor || same event NeighborEvent.inactivity_timer
     || same event NeighborEvent.lower_layer_down
  then down_neighbor (if same event NeighborEvent.kill_neighbor then NeighborAction.delete_neighbor
                      else NeighborAction.none)
  else if same event NeighborEvent.hello_received then
    if same current NeighborState.down || same current NeighborState.attempt
    then (NeighborState.init,
          both NeighborAction.reset_inactivity_timer NeighborAction.notify_interface)
    else (current, NeighborAction.reset_inactivity_timer)
  else if same current NeighborState.down then
    if same event NeighborEvent.start
    then (NeighborState.attempt, both NeighborAction.send_hello NeighborAction.reset_inactivity_timer)
    else (current, NeighborAction.none)
  else if same event NeighborEvent.one_way_received && NeighborState.at_least current NeighborState.two_way
  then (NeighborState.init, both NeighborAction.clear_adjacency NeighborAction.notify_interface)
  else if same event NeighborEvent.sequence_number_mismatch || same event NeighborEvent.bad_link_state_request
  then
    if NeighborState.at_least current NeighborState.exchange
    then (NeighborState.exstart, adjacency_reset_actions)
    else (current, NeighborAction.none)
  else
    let stay := (current, NeighborAction.none) in
    let adjacency_lost := same event NeighborEvent.adjacency_ok && negb adjacency_required in
    match current with
    | NeighborState.attempt | NeighborState.init =>
        if same event NeighborEvent.two_way_received then
          if adjacency_required
          then (NeighborState.exstart,
                both NeighborAction.begin_database_exchange NeighborAction.notify_interface)
          else (NeighborState.two_way, NeighborAction.notify_interface)
        else stay
    | NeighborState.two_way =>
        if same event NeighborEvent.adjacency_ok && adjacency_required
        then (NeighborState.exstart, NeighborAction.begin_database_exchange) else stay
    | NeighborState.exstart =>
        if same event NeighborEvent.negotiation_done then (NeighborState.exchange, NeighborAction.none)
        else if adjacency_lost then (NeighborState.two_way, NeighborAction.clear_adjacency) else stay
    | NeighborState.exchange =>
        if same event NeighborEvent.exchange_done then
          if requests_pending then (NeighborState.loading, NeighborAction.start_sending_requests)
          else (NeighborState.full, NeighborAction.notify_interface)
        else if adjacency_lost then (NeighborState.two_way, NeighborAction.clear_adjacency) else stay
    | NeighborState.loading =>
        if same event NeighborEvent.loading_done then (NeighborState.full, NeighborAction.notify_interface)
        else if adjacency_lost then (NeighborState.two_way, NeighborAction.clear_adjacency) else stay
    | NeighborState.full =>
        if adjacency_lost
        then (NeighborState.two_way, both NeighborAction.clear_adjacency NeighborAction.notify_interface)
        else stay
    | NeighborState.down => stay
    end.

End OspfFsm.
