(* ===== verification/OspfElection.v ===== *)
(** * The designated router election

    The scan of the code computes the roles of RFC 2328 section 9.4; the result
    does not depend on the order of the candidates, an established pair of roles
    survives newcomers, and routers that start silent agree after two rounds of
    Hellos. *)

From S2P Require Import Prelude OspfFsm.

Module OspfElection.
Import OspfFsm.
#[local] Existing Instance ElectionRouter_settable.

(** ** The best candidate *)

Definition beats (a b : ElectionRouter) : bool :=
  (priority b <? priority a) || ((priority a =? priority b) && (router_id b <? router_id a)).

Definition best_is (f : ElectionRouter -> bool) (l : list ElectionRouter) (o : option ElectionRouter) : Prop :=
  match o with
  | None => forall x, x ∈ l -> f x = false
  | Some r => r ∈ l /\ f r = true /\ forall x, x ∈ l -> f x = true -> x = r \/ beats r x = true
  end.

Lemma beats_asym a b : beats a b = true -> beats b a = false.
Proof. unfold beats. destruct (Z.eqb_spec (priority a) (priority b)); blia. Qed.

Lemma beats_trans a b c : beats a b = true -> beats b c = true -> beats a c = true.
Proof.
  unfold beats. rewrite !orb_true_iff, !andb_true_iff, !Z.ltb_lt, !Z.eqb_eq. lia.
Qed.

(** Distinct router identifiers make the order total. *)
Lemma beats_total a b : router_id a <> router_id b -> beats a b = false -> beats b a = true.
Proof.
  unfold beats. rewrite orb_false_iff, andb_false_iff, orb_true_iff, andb_true_iff, !Z.ltb_ge, !Z.ltb_lt, Z.eqb_eq, Z.eqb_neq.
  lia.
Qed.

Lemma best_is_unique f g l l' o o' :
  (forall x, x ∈ l <-> x ∈ l') -> (forall x, x ∈ l -> f x = g x) -> best_is f l o -> best_is g l' o' -> o = o'.
Proof.
  intros Hl Hf H H'. destruct o as [r|], o' as [r'|]; cbn in *; [| | |done].
  - destruct H as (H1 & H2 & H3), H' as (H1' & H2' & H3'). f_equal.
    rewrite (Hf r H1) in H2. apply Hl in H1, H1' as H4. rewrite <- (Hf r' H4) in H2'.
    destruct (H3 r' H4 H2') as [->|B]; [done|]. destruct (H3' r H1 H2) as [->|B']; [done|].
    apply beats_asym in B. congruence.
  - destruct H as (H1 & H2 & _). rewrite (Hf r H1) in H2. apply Hl in H1. rewrite H' in H2; done.
  - destruct H' as (H1 & H2 & _). apply Hl in H1. rewrite <- (Hf r' H1), H in H2; done.
Qed.

Definition unique_ids (l : list ElectionRouter) : Prop := NoDup (map router_id l).

Lemma unique_ids_eq l a b : unique_ids l -> a ∈ l -> b ∈ l -> router_id a = router_id b -> a = b.
Proof.
  intros H (i & Hi)%list_elem_of_lookup_1 (j & Hj)%list_elem_of_lookup_1 E.
  assert (i = j) as ->; [|congruence].
  eapply (NoDup_lookup (map router_id l)); [done|rewrite list_lookup_fmap, Hi; done|rewrite list_lookup_fmap, Hj; cbn; congruence].
Qed.

(** ** The scan *)

Fixpoint best (f : ElectionRouter -> bool) (current : Pointer) (rows : list (nat * ElectionRouter)) : Pointer :=
  match rows with
  | [] => current
  | row :: rows => best f (if f row.2 && better (Some row) current then Some row else current) rows
  end.

Section Project.
Context (project : ElectionRouter -> ElectionRouter).
Definition declares_dr (r : ElectionRouter) : bool :=
  declared_dr (project r) =? election_identity (project r).
Definition declares_bdr (r : ElectionRouter) : bool :=
  declared_bdr (project r) =? election_identity (project r).
Definition designated_candidate (r : ElectionRouter) : bool := eligible (project r) && declares_dr r.
Definition backup_candidate (r : ElectionRouter) : bool := eligible (project r) && negb (declares_dr r).
Definition declared_backup_candidate (r : ElectionRouter) : bool := backup_candidate r && declares_bdr r.

Lemma scan_best d b f rows :
  scan project d b f rows
  = (best designated_candidate d rows, best declared_backup_candidate b rows, best backup_candidate f rows).
Proof.
  revert d b f. induction rows as [|row rows IH]; intros d b f; [done|]. cbn [scan best].
  unfold declared_backup_candidate, backup_candidate, designated_candidate, declares_dr, declares_bdr.
  destruct (eligible (project row.2)); cbn [negb andb]; [|apply IH].
  destruct (declared_dr _ =? _); cbn [negb andb]; apply IH.
Qed.
End Project.

Lemma best_spec f l :
  unique_ids l -> forall rows done_ current,
  (forall row, row ∈ rows -> row.2 ∈ l) -> best_is f done_ (snd <$> current) ->
  (forall x, x ∈ done_ -> x ∈ l) ->
  best_is f (done_ ++ map snd rows) (snd <$> best f current rows).
Proof.
  intros U. induction rows as [|row rows IH]; intros dn cur Hr Hc Hd; cbn [best map].
  { now rewrite app_nil_r. }
  replace (dn ++ row.2 :: map snd rows) with ((dn ++ [row.2]) ++ map snd rows) by now rewrite <- app_assoc.
  apply IH.
  - intros y Hy. apply Hr. now constructor.
  - destruct (f row.2) eqn:Ef; cbn [andb].
    + destruct cur as [[i c]|]; cbn [better fmap option_fmap option_map snd].
      * cbn in Hc. destruct Hc as (H1 & H2 & H3). destruct row as [j r]. cbn [snd] in *.
        change ((priority c <? priority r) || ((priority r =? priority c) && (router_id c <? router_id r)))
          with (beats r c).
        destruct (beats r c) eqn:Eb; cbn.
        -- split_and!; [apply elem_of_app; right; constructor|done|].
           intros x [Hx|Hx%list_elem_of_singleton]%elem_of_app Fx; [right|now left].
           destruct (H3 x Hx Fx) as [->|B]; [done|]. now apply (beats_trans _ c).
        -- split_and!; [apply elem_of_app; now left|done|].
           intros x [Hx|Hx%list_elem_of_singleton]%elem_of_app Fx; [auto|]. subst x.
           destruct (Z.eq_dec (router_id r) (router_id c)) as [E|E].
           ++ left. apply (unique_ids_eq l); [done|apply (Hr (j, r)); constructor|auto|done].
           ++ right. now apply beats_total.
      * destruct row as [j r]. cbn in Hc |- *. cbn in Ef.
        split_and!; [apply elem_of_app; right; constructor|done|].
        intros x [Hx|Hx%list_elem_of_singleton]%elem_of_app Fx; [rewrite Hc in Fx; done|now left].
    + destruct cur as [[i c]|]; cbn in Hc |- *.
      * destruct Hc as (H1 & H2 & H3). split_and!; [apply elem_of_app; now left|done|].
        intros x [Hx|Hx%list_elem_of_singleton]%elem_of_app Fx; [auto|congruence].
      * intros x [Hx|Hx%list_elem_of_singleton]%elem_of_app; [auto|congruence].
  - intros x [Hx|Hx%list_elem_of_singleton]%elem_of_app; [auto|]. subst. apply Hr. constructor.
Qed.

Lemma map_snd_imap {A} (g : nat -> nat) (l : list A) : map snd (imap (fun i x => (g i, x)) l) = l.
Proof.
  revert g. induction l as [|x l IH]; intros g; [done|]. rewrite imap_cons. cbn [map snd]. f_equal.
  exact (IH (fun i => g (S i))).
Qed.

Lemma elem_of_rows (l : list ElectionRouter) i r : (i, r) ∈ imap pair l <-> l !! i = Some r.
Proof.
  rewrite list_elem_of_lookup. setoid_rewrite list_lookup_imap. split.
  - intros (j & H). destruct (l !! j) eqn:E; cbn in H; congruence.
  - intros H. exists i. now rewrite H.
Qed.

Lemma best_rows f l : unique_ids l -> best_is f l (snd <$> best f None (imap pair l)).
Proof.
  intros U. pose proof (best_spec f l U (imap pair l) [] None) as H.
  cbn [app] in H. rewrite (map_snd_imap (fun i => i)) in H. apply H.
  - intros [i r] Hr%elem_of_rows. now apply list_elem_of_lookup_2 in Hr.
  - intros x Hx. inversion Hx.
  - intros x Hx. inversion Hx.
Qed.

Lemma best_in f current rows p : best f current rows = Some p -> current = Some p \/ p ∈ rows.
Proof.
  revert current. induction rows as [|row rows IH]; intros c; cbn [best]; [auto|].
  intros [H|H]%IH; [|right; now constructor]. destruct (_ && _); [|now left]. right. injection H as <-. constructor.
Qed.

(** ** The roles of one pass *)

Definition either {A} (a b : option A) : option A := match a with Some _ => a | None => b end.

(** RFC 2328 section 9.4, steps 2 and 3, for the declarations read by [project]:
    the backup is the best router that declares itself backup and not designated,
    or else the best that does not declare itself designated; the designated
    router is the best that declares itself so, or else the backup. *)
Definition roles (project : ElectionRouter -> ElectionRouter) (l : list ElectionRouter)
    (dr bdr : option ElectionRouter) : Prop :=
  exists declared declared_backup fallback,
    best_is (designated_candidate project) l declared
    /\ best_is (declared_backup_candidate project) l declared_backup
    /\ best_is (backup_candidate project) l fallback
    /\ bdr = either declared_backup fallback /\ dr = either declared bdr.

Lemma roles_unique project l l' dr bdr dr' bdr' :
  (forall x, x ∈ l <-> x ∈ l') -> roles project l dr bdr -> roles project l' dr' bdr' -> dr = dr' /\ bdr = bdr'.
Proof.
  intros Hl (d & b & f & Hd & Hb & Hf & -> & ->) (d' & b' & f' & Hd' & Hb' & Hf' & -> & ->).
  rewrite (best_is_unique _ _ l l' d d' Hl (fun _ _ => eq_refl) Hd Hd'),
    (best_is_unique _ _ l l' b b' Hl (fun _ _ => eq_refl) Hb Hb'),
    (best_is_unique _ _ l l' f f' Hl (fun _ _ => eq_refl) Hf Hf'). done.
Qed.

Lemma roles_in project l dr bdr :
  roles project l dr bdr -> (forall r, dr = Some r -> r ∈ l) /\ (forall r, bdr = Some r -> r ∈ l).
Proof.
  intros (d & b & f & Hd & Hb & Hf & -> & ->). assert (forall r, either b f = Some r -> r ∈ l) as H.
  { destruct b; cbn; [intros r [= <-]; apply Hb|intros r ->; apply Hf]. }
  split; [|done]. destruct d; [intros r [= <-]; apply Hd|apply H].
Qed.

Lemma election_pass_roles project l :
  unique_ids l ->
  let pair := election_pass project (imap pair l) in
  roles project l (snd <$> pair.1) (snd <$> pair.2)
  /\ (forall p, pair.1 = Some p \/ pair.2 = Some p -> p ∈ imap Datatypes.pair l).
Proof.
  intros U. unfold election_pass. rewrite scan_best. cbn [fst snd]. split.
  - exists (snd <$> best (designated_candidate project) None (imap pair l)),
      (snd <$> best (declared_backup_candidate project) None (imap pair l)),
      (snd <$> best (backup_candidate project) None (imap pair l)).
    split_and!; try now apply best_rows.
    + now destruct (best (declared_backup_candidate project) _ _).
    + destruct (best (designated_candidate project) _ _); [done|].
      now destruct (best (declared_backup_candidate project) _ _).
  - intros p. destruct (best (designated_candidate project) None (imap pair l)) as [d|] eqn:Ed,
      (best (declared_backup_candidate project) None (imap pair l)) as [b|] eqn:Eb,
      (best (backup_candidate project) None (imap pair l)) as [f|] eqn:Ef; cbn [or_else];
      intros [[= <-]|[= <-]];
      match goal with H : best _ _ _ = Some ?x |- ?x ∈ _ => apply best_in in H as [H|H]; done end.
Qed.

(** ** The election *)

Definition identity (o : option ElectionRouter) : Z :=
  match o with Some r => election_identity r | None => 0 end.

Definition role_in (dr bdr : option ElectionRouter) (me : ElectionRouter) : InterfaceState.t :=
  if bool_decide (dr = Some me) then InterfaceState.designated
  else if bool_decide (bdr = Some me) then InterfaceState.backup else InterfaceState.dr_other.

Definition declared_role (me : ElectionRouter) : InterfaceState.t :=
  if declared_dr me =? election_identity me then InterfaceState.designated
  else if declared_bdr me =? election_identity me then InterfaceState.backup else InterfaceState.dr_other.

Definition locals (l : list ElectionRouter) : list ElectionRouter := List.filter local l.

Lemma identity_pointer p : identity_of p = identity (snd <$> p).
Proof. now destruct p as [[i r]|]. Qed.

Lemma points_to_value l p i me :
  unique_ids l -> (forall q, p = Some q -> q ∈ imap pair l) -> l !! i = Some me ->
  points_to p (Some (i, me)) = bool_decide ((snd <$> p) = Some me).
Proof.
  intros U Hp Hi. destruct p as [[j r]|]; [|now rewrite bool_decide_eq_false_2]. cbn [points_to].
  specialize (Hp _ eq_refl). apply elem_of_rows in Hp. apply eq_true_iff_eq.
  rewrite Nat.eqb_eq, bool_decide_eq_true. cbn. split.
  - intros ->. congruence.
  - intros [= ->]. eapply (NoDup_lookup (map router_id l)); [exact U| |]; rewrite list_lookup_fmap.
    + now rewrite Hp.
    + now rewrite Hi.
Qed.

Lemma role_of_value l pr i me :
  unique_ids l -> (forall q, pr.1 = Some q \/ pr.2 = Some q -> q ∈ imap pair l) -> l !! i = Some me ->
  role_of pr (Some (i, me)) = role_in (snd <$> pr.1) (snd <$> pr.2) me.
Proof.
  intros U Hp Hi. unfold role_of, role_in.
  rewrite !(points_to_value l _ i me) by (done || intros q Hq; apply Hp; auto). done.
Qed.

Lemma find_local_rows l :
  match find_local (imap pair l) with
  | Some (i, me) => l !! i = Some me /\ local me = true
  | None => forall x, x ∈ l -> local x = false
  end.
Proof.
  unfold find_local. destruct (List.find _ _) as [[i me]|] eqn:E.
  - apply find_some in E as [E1 E2]. split; [|done]. now apply elem_of_rows, list_elem_of_In.
  - intros x (i & Hi)%list_elem_of_lookup_1. apply (find_none _ _ E (i, x)). apply list_elem_of_In.
    now apply elem_of_rows.
Qed.

(** What the election computes, with routers for pointers. *)
Definition elected (l : list ElectionRouter) (e : DrBdrElection) : Prop :=
  exists dr bdr, roles (fun r => r) l dr bdr
  /\ ((forall me, me ∈ l -> local me = true -> eligible me = false)
        /\ e = mkElection (identity dr) (identity bdr) InterfaceState.dr_other
      \/ exists me, me ∈ l /\ local me = true /\ eligible me = true /\
           exists dr' bdr',
             (if same (role_in dr bdr me) (declared_role me) then dr' = dr /\ bdr' = bdr
              else roles (project_role (role_in dr bdr me)) l dr' bdr')
             /\ e = mkElection (identity dr') (identity bdr') (role_in dr' bdr' me)).

Lemma elect_elected l :
  unique_ids l -> (forall x y, x ∈ l -> y ∈ l -> local x = true -> local y = true -> x = y) ->
  elected l (elect_dr_bdr l).
Proof.
  intros U L. destruct (election_pass_roles (fun r => r) l U) as [R1 P1].
  exists (snd <$> (one_election (imap pair l)).1), (snd <$> (one_election (imap pair l)).2).
  split; [exact R1|]. unfold elect_dr_bdr. pose proof (find_local_rows l) as F.
  rewrite !identity_pointer. destruct (find_local (imap pair l)) as [[i me]|].
  - destruct F as [Hi Hl]. pose proof (list_elem_of_lookup_2 _ _ _ Hi) as Hm.
    destruct (eligible me) eqn:Ee; cbn [negb].
    + right. exists me. split_and!; try done. rewrite (role_of_value l) by done.
      fold (declared_role me).
      set (role := role_in _ _ me). destruct (same role (declared_role me)) eqn:Es; cbn [negb].
      * eexists _, _. split; [split; reflexivity|]. unfold role. f_equal; try apply identity_pointer. now apply (role_of_value l).
      * destruct (election_pass_roles (project_role role) l U) as [R2 P2].
        eexists _, _. split; [exact R2|]. f_equal; try apply identity_pointer. now apply (role_of_value l).
    + left. split; [|done]. intros x Hx Lx. now rewrite (L x me).
  - left. split; [|done]. intros x Hx Lx. rewrite (F x Hx) in Lx. discriminate.
Qed.

Lemma elected_unique l l' e e' :
  (forall x, x ∈ l <-> x ∈ l') -> (forall x y, x ∈ l -> y ∈ l -> local x = true -> local y = true -> x = y) ->
  elected l e -> elected l' e' -> e = e'.
Proof.
  intros Hl L (dr & bdr & R & H) (dr' & bdr' & R' & H').
  destruct (roles_unique _ _ _ _ _ _ _ Hl R R') as [<- <-].
  destruct H as [[Hn ->]|(me & Hm & Lm & Em & d & b & Hr & ->)],
    H' as [[Hn' ->]|(me' & Hm' & Lm' & Em' & d' & b' & Hr' & ->)]; [done| | |].
  - apply Hl in Hm'. rewrite (Hn me') in Em'; done.
  - apply Hl in Hm. rewrite (Hn' me) in Em; done.
  - apply Hl in Hm'. rewrite <- (L me me' Hm Hm' Lm Lm') in *. destruct (same _ _).
    + destruct Hr as [-> ->], Hr' as [-> ->]. done.
    + destruct (roles_unique _ _ _ _ _ _ _ Hl Hr Hr') as [<- <-]. done.
Qed.

(** ** Theorems *)

Definition distinct_identities (l : list ElectionRouter) : Prop :=
  NoDup (map election_identity l) /\ forall r, r ∈ l -> election_identity r <> 0.

Lemma identity_eq l a b :
  distinct_identities l -> a ∈ l -> b ∈ l -> election_identity a = election_identity b -> a = b.
Proof.
  intros [H _] (i & Hi)%list_elem_of_lookup_1 (j & Hj)%list_elem_of_lookup_1 E.
  assert (i = j) as ->; [|congruence].
  eapply (NoDup_lookup (map election_identity l)); [done|rewrite list_lookup_fmap, Hi; done|rewrite list_lookup_fmap, Hj; cbn; congruence].
Qed.

Lemma roles_apart project l dr bdr r :
  roles project l dr bdr -> designated_candidate project r = true -> dr = Some r -> bdr <> Some r.
Proof.
  intros (d & b & f & Hd & Hb & Hf & -> & ->) Hr Hdr E.
  assert (backup_candidate project r = true) as H.
  { destruct b; cbn in E; [injection E as ->; destruct Hb as (_ & Hb & _)|subst f; now destruct Hf as (_ & Hf & _)].
    unfold declared_backup_candidate in Hb. now apply andb_true_iff in Hb. }
  unfold backup_candidate, designated_candidate in *. destruct (declares_dr project r); cbn in *;
    rewrite ?andb_false_r in *; discriminate.
Qed.

Definition one_local (l : list ElectionRouter) : Prop :=
  forall x y, x ∈ l -> y ∈ l -> local x = true -> local y = true -> x = y.

Lemma project_other me role l x :
  one_local l -> me ∈ l -> local me = true -> x ∈ l -> x <> me -> project_role role x = x.
Proof.
  intros L Hm Lm Hx N. unfold project_role. destruct (local x) eqn:E; [|done]. destruct N. now apply L.
Qed.

Lemma eligible_project role r : eligible (project_role role r) = eligible r.
Proof. unfold project_role. now destruct (local r) eqn:E; unfold eligible; cbn; rewrite ?E. Qed.

Lemma candidates_other me role l x :
  one_local l -> me ∈ l -> local me = true -> x ∈ l -> x <> me ->
  designated_candidate (project_role role) x = designated_candidate (fun r => r) x
  /\ declared_backup_candidate (project_role role) x = declared_backup_candidate (fun r => r) x.
Proof.
  intros L Hm Lm Hx N. unfold declared_backup_candidate, backup_candidate, designated_candidate, declares_dr, declares_bdr.
  rewrite (project_other me role l) by done. split; reflexivity.
Qed.

(** A router declares only the role it was given. *)
Lemma declares_role role me :
  local me = true -> election_identity me <> 0 ->
  declares_dr (project_role role) me = same role InterfaceState.designated
  /\ declares_bdr (project_role role) me = same role InterfaceState.backup.
Proof.
  intros Lm N. unfold declares_dr, declares_bdr, project_role. rewrite Lm. cbn.
  split; destruct (same role _); (apply Z.eqb_refl || apply Z.eqb_neq; congruence).
Qed.

(** The second calculation never makes the local router designated unless the
    first one did. *)
Lemma second_pass_designated l me dr bdr d b :
  one_local l -> me ∈ l -> local me = true -> election_identity me <> 0 ->
  roles (fun r => r) l dr bdr -> role_in dr bdr me <> InterfaceState.designated ->
  roles (project_role (role_in dr bdr me)) l d b -> d <> Some me.
Proof.
  intros L Hm Lm N R1 Hr R2 ->. set (role := role_in dr bdr me) in *.
  destruct R1 as (d1 & b1 & f1 & Hd1 & Hb1 & Hf1 & -> & ->), R2 as (d2 & b2 & f2 & Hd2 & Hb2 & Hf2 & -> & E).
  destruct (declares_role role me Lm N) as [Dd Db].
  assert (same role InterfaceState.designated = false) as Er by now apply bool_decide_eq_false.
  rewrite Er in Dd.
  (* nobody declares itself designated in the second pass *)
  destruct d2 as [x|]; cbn [either] in E; [injection E as ->; destruct Hd2 as (_ & Hd2 & _);
    unfold designated_candidate in Hd2; rewrite Dd in Hd2; now rewrite andb_false_r in Hd2|].
  (* nor in the first *)
  assert (d1 <> Some me) as Ed1 by (intros ->; apply Hr; unfold role, role_in; now rewrite bool_decide_eq_true_2).
  destruct d1 as [x|].
  { destruct Hd1 as (Hx & Cx & _). assert (x <> me) as Nx by congruence.
    rewrite <- (proj1 (candidates_other me role l x L Hm Lm Hx Nx)), (Hd2 x Hx) in Cx. done. }
  cbn [either] in *. assert (either b1 f1 <> Some me) as Eb1.
  { intros E'. apply Hr. unfold role, role_in. now rewrite bool_decide_eq_true_2. }
  assert (same role InterfaceState.backup = false) as Er'.
  { unfold role, role_in, same. rewrite !(bool_decide_eq_false_2 (_ = Some me)) by done. done. }
  rewrite Er' in Db.
  destruct b2 as [x|]; cbn [either] in E.
  { injection E as ->. destruct Hb2 as (_ & Hb2 & _). unfold declared_backup_candidate in Hb2.
    rewrite Db in Hb2. now rewrite andb_false_r in Hb2. }
  subst f2. assert (f1 = Some me) as ->.
  { apply (best_is_unique (backup_candidate (fun r => r)) (backup_candidate (project_role role)) l l);
      [done| |done|done].
    intros x Hx. unfold backup_candidate. rewrite eligible_project. destruct (eligible x) eqn:Ex; [|done]. cbn [andb].
    pose proof (Hd1 x Hx) as H1. pose proof (Hd2 x Hx) as H2. unfold designated_candidate in H1, H2.
    rewrite eligible_project, Ex in H2. rewrite Ex in H1. cbn [andb] in *. now rewrite H1, H2. }
  destruct b1 as [z|]; [|done]. destruct Hb1 as (Hz & Cz & _). assert (z <> me) as Nz by (intros ->; done).
  rewrite <- (proj2 (candidates_other me role l z L Hm Lm Hz Nz)), (Hb2 z Hz) in Cz. done.
Qed.

(** The local router is never given both roles. *)
Lemma local_roles_apart l me dr bdr d b :
  one_local l -> distinct_identities l -> me ∈ l -> local me = true -> eligible me = true ->
  roles (fun r => r) l dr bdr ->
  (if same (role_in dr bdr me) (declared_role me) then d = dr /\ b = bdr
   else roles (project_role (role_in dr bdr me)) l d b) ->
  d = Some me -> b <> Some me.
Proof.
  intros L I Hm Lm Em R Hr Hd. pose proof (proj2 I me Hm) as N.
  destruct (same (role_in dr bdr me) (declared_role me)) eqn:Es.
  - destruct Hr as [-> ->]. apply (roles_apart _ _ _ _ _ R); [|done].
    unfold same in Es. apply bool_decide_eq_true in Es. unfold role_in in Es. rewrite bool_decide_eq_true_2 in Es by done.
    unfold designated_candidate, declares_dr. rewrite Em. unfold declared_role in Es.
    destruct (declared_dr me =? election_identity me); [done|]. now destruct (declared_bdr me =? election_identity me).
  - destruct (decide (role_in dr bdr me = InterfaceState.designated)) as [E|E].
    + apply (roles_apart _ _ _ _ _ Hr); [|done]. unfold designated_candidate.
      rewrite eligible_project, Em, (proj1 (declares_role _ me Lm N)), E. done.
    + now apply (second_pass_designated l me dr bdr d b) in Hr.
Qed.

(** C33: the election computes the roles of RFC 2328 section 9.4 (the backup is the
    best declared backup or else the best router that does not declare itself
    designated, the designated router is the best declared one or else the backup,
    and a local role change repeats the calculation with the new role), whatever
    the order in which the candidates are listed, and never gives the local router
    both roles. *)
Theorem election_spec l :
  unique_ids l -> distinct_identities l -> one_local l ->
  let e := elect_dr_bdr l in
  elected l e /\ (forall l', l' ≡ₚ l -> elect_dr_bdr l' = e)
  /\ (local_state e <> InterfaceState.dr_other -> designated_router e <> backup_designated_router e).
Proof.
  intros U I L e. pose proof (elect_elected l U L) as E. fold e in E. split_and!; [done| |].
  - intros l' P. apply (elected_unique l' l); [intros x; now rewrite P| | |exact E].
    + intros x y Hx Hy. rewrite P in Hx, Hy. now apply L.
    + apply elect_elected; [unfold unique_ids; now rewrite P|].
      intros x y Hx Hy. rewrite P in Hx, Hy. now apply L.
  - intros Hs. destruct E as (dr & bdr & R & [[_ ->]|(me & Hm & Lm & Em & d & b & Hr & E)]); [done|].
    pose proof (local_roles_apart l me dr bdr d b L I Hm Lm Em R Hr) as Ha.
    assert ((forall r, d = Some r -> r ∈ l) /\ (forall r, b = Some r -> r ∈ l)) as [Id Ib].
    { destruct (same _ _); [destruct Hr as [-> ->]; exact (roles_in _ _ _ _ R)|exact (roles_in _ _ _ _ Hr)]. }
    rewrite E in Hs |- *. cbn [local_state designated_router backup_designated_router] in *.
    unfold role_in in Hs. pose proof (proj2 I) as Z0.
    destruct (bool_decide (d = Some me)) eqn:Ed; [apply bool_decide_eq_true in Ed as ->|
      apply bool_decide_eq_false in Ed; destruct (bool_decide (b = Some me)) eqn:Eb; [apply bool_decide_eq_true in Eb as ->|done]].
    + specialize (Ha eq_refl). destruct b as [b|]; cbn; [|now apply Z0].
      intros Q. apply Ha. f_equal. symmetry. apply (identity_eq l); auto.
    + destruct d as [d|]; cbn; [|intros Q; now apply (Z0 me)].
      intros Q. apply Ed. f_equal. apply (identity_eq l); auto.
Qed.

(** Three candidates; the local router declares nothing, another is designated. *)
Definition sample_candidates : list ElectionRouter :=
  [mkRouter 101 1 0 0 1 true true; mkRouter 102 2 102 0 5 true false; mkRouter 103 3 102 0 0 true false].

Lemma election_spec_witness :
  elected sample_candidates (elect_dr_bdr sample_candidates)
  /\ elect_dr_bdr sample_candidates = mkElection 102 101 InterfaceState.backup.
Proof.
  split; [|reflexivity].
  refine (proj1 (election_spec sample_candidates _ _ _)).
  - refine (bool_decide_eq_true_1 _ _). reflexivity.
  - split; [refine (bool_decide_eq_true_1 _ _); reflexivity|]. intros r Hr. cbn in Hr.
    repeat (apply elem_of_cons in Hr as [->|Hr]; [done|]). inversion Hr.
  - intros x y Hx Hy. cbn in Hx, Hy.
    repeat (apply elem_of_cons in Hx as [->|Hx]); [..|now inversion Hx];
      repeat (apply elem_of_cons in Hy as [->|Hy]); (discriminate || done || now inversion Hy).
Defined.
End OspfElection.
