(* ===== verification/OspfConvergence.v ===== *)
(** * Routers of a segment agree on their roles

    Every router of a broadcast segment hears all the others and runs the election
    of [OspfFsm] over what they declare; its Hello then declares the result.
    Routers that start silent agree within two rounds, and a router that joins
    later does not displace an agreed pair, whatever its priority. *)

From S2P Require Import Prelude OspfFsm OspfElection.

Module OspfConvergence.
Import OspfFsm OspfElection.
#[local] Existing Instance ElectionRouter_settable.

(** ** The segment *)

Record Host := mkHost { host_identity : Z; host_id : Z; host_priority : Z }.
#[export] Instance Host_eq_dec : EqDecision Host.
Proof. solve_decision. Defined.

(** What each router, by its identifier, declares in its Hello: the designated
    and the backup router. *)
Definition Declarations : Type := Z -> Z * Z.
Definition silent : Declarations := fun _ => (0, 0).

(** The row that stands for a host in the election that router [me] runs. *)
Definition view (me : Z) (declared : Declarations) (h : Host) : ElectionRouter :=
  mkRouter (host_identity h) (host_id h) (declared (host_id h)).1 (declared (host_id h)).2 (host_priority h)
    true (host_id h =? me).

Definition election_at (hosts : list Host) (declared : Declarations) (me : Z) : DrBdrElection :=
  elect_dr_bdr (map (view me declared) hosts).

Definition hello_round (hosts : list Host) (declared : Declarations) : Declarations := fun me =>
  let e := election_at hosts declared me in (designated_router e, backup_designated_router e).

Definition well_identified (hosts : list Host) : Prop :=
  NoDup (map host_id hosts) /\ NoDup (map host_identity hosts) /\ forall h, h ∈ hosts -> host_identity h <> 0.

(** ** The best host *)

Definition outranks (a b : Host) : bool :=
  (host_priority b <? host_priority a) || ((host_priority a =? host_priority b) && (host_id b <? host_id a)).

Fixpoint best_host (f : Host -> bool) (hosts : list Host) : option Host :=
  match hosts with
  | [] => None
  | h :: hosts =>
      match best_host f hosts with
      | None => if f h then Some h else None
      | Some b => if f h && outranks h b then Some h else Some b
      end
  end.

Lemma host_id_eq hosts a b : well_identified hosts -> a ∈ hosts -> b ∈ hosts -> host_id a = host_id b -> a = b.
Proof.
  intros [H _] (i & Hi)%list_elem_of_lookup_1 (j & Hj)%list_elem_of_lookup_1 E.
  assert (i = j) as ->; [|congruence].
  eapply (NoDup_lookup (map host_id hosts)); [done|rewrite list_lookup_fmap, Hi; done|rewrite list_lookup_fmap, Hj; cbn; congruence].
Qed.

Lemma well_identified_cons h hosts : well_identified (h :: hosts) -> well_identified hosts.
Proof.
  intros (A & B & C). inversion A; inversion B; subst. split_and!; [done..|].
  intros x Hx. apply C. now constructor.
Qed.

Lemma best_host_some f hosts b : best_host f hosts = Some b -> b ∈ hosts /\ f b = true.
Proof.
  revert b. induction hosts as [|h hosts IH]; intros b; [done|]. cbn [best_host].
  destruct (best_host f hosts) as [c|].
  - destruct (f h && outranks h c) eqn:E; intros [= <-].
    + apply andb_true_iff in E as [E _]. split; [constructor|done].
    + destruct (IH c eq_refl). split; [now constructor|done].
  - destruct (f h) eqn:Ef; [|done]. intros [= <-]. split; [constructor|done].
Qed.

(** The best host is the best candidate among the rows. *)
Lemma best_host_spec me declared f hosts :
  well_identified hosts ->
  best_is f (map (view me declared) hosts)
    (view me declared <$> best_host (fun h => f (view me declared h)) hosts).
Proof.
  set (v := view me declared). set (f' := fun h => f (v h)). induction hosts as [|h hosts IH]; intros W; [intros x Hx; inversion Hx|].
  specialize (IH (well_identified_cons _ _ W)). fold f' in IH. fold f'. cbn [best_host map].
  pose proof (fun b => host_id_eq _ h b W) as U.
  destruct (best_host f' hosts) as [b|] eqn:Eb; cbn [fmap option_fmap option_map] in IH |- *.
  all: change (f' h) with (f (v h)).
  - destruct IH as (H1 & H2 & H3). destruct (f (v h)) eqn:Ef; cbn [andb].
    + destruct (outranks h b) eqn:Eo; cbn.
      * split_and!; [constructor|done|]. intros x [->|Hx]%elem_of_cons Fx; [now left|right].
        destruct (H3 x Hx Fx) as [->|B]; [exact Eo|]. now apply (beats_trans _ (v b)).
      * split_and!; [now constructor|done|]. intros x [->|Hx]%elem_of_cons Fx; [|auto].
        destruct (Z.eq_dec (host_id h) (host_id b)) as [E|E].
        -- left. f_equal. apply U; [constructor| |done]. constructor. now apply (best_host_some f').
        -- right. now apply beats_total.
    + split_and!; [now constructor|done|]. intros x [->|Hx]%elem_of_cons Fx; [congruence|auto].
  - destruct (f (v h)) eqn:Ef; cbn.
    + split_and!; [constructor|done|]. intros x [->|Hx]%elem_of_cons Fx; [now left|]. rewrite IH in Fx; done.
    + intros x [->|Hx]%elem_of_cons; auto.
Qed.

Lemma best_host_ext f g hosts : (forall h, h ∈ hosts -> f h = g h) -> best_host f hosts = best_host g hosts.
Proof.
  induction hosts as [|h hosts IH]; intros H; [done|]. cbn [best_host].
  rewrite IH by (intros x Hx; apply H; now constructor). now rewrite (H h) by constructor.
Qed.

Lemma best_host_none f hosts : best_host f hosts = None <-> forall h, h ∈ hosts -> f h = false.
Proof.
  induction hosts as [|h hosts IH]; cbn [best_host]; [split; [intros _ h Hh; inversion Hh|done]|].
  destruct (best_host f hosts) as [c|].
  - split; [destruct (f h && outranks h c); done|]. intros H.
    destruct IH as [_ IH]. discriminate IH. intros x Hx. apply H. now constructor.
  - destruct IH as [IH _]. specialize (IH eq_refl). split.
    + intros E x [->|Hx]%elem_of_cons; [now destruct (f h)|auto].
    + intros H. now rewrite (H h) by constructor.
Qed.

(** The only host that satisfies the condition *)
Lemma best_host_only f hosts b :
  b ∈ hosts -> f b = true -> (forall h, h ∈ hosts -> h <> b -> f h = false) -> best_host f hosts = Some b.
Proof.
  intros Hb Fb H. destruct (best_host f hosts) as [c|] eqn:E.
  - apply best_host_some in E as [Hc Fc]. destruct (decide (c = b)) as [->|N]; [done|]. rewrite H in Fc; done.
  - apply best_host_none with (h := b) in E; [congruence|done].
Qed.

(** ** The election in terms of hosts *)

Definition host_pass (project : ElectionRouter -> ElectionRouter) (me : Z) (declared : Declarations)
    (hosts : list Host) : option Host * option Host :=
  let v := view me declared in
  let designated := best_host (fun h => designated_candidate project (v h)) hosts in
  let backup := either (best_host (fun h => declared_backup_candidate project (v h)) hosts)
                  (best_host (fun h => backup_candidate project (v h)) hosts) in
  (either designated backup, backup).

Definition identity_of_host (o : option Host) : Z := match o with Some h => host_identity h | None => 0 end.

Definition host_role (pair : option Host * option Host) (h : Host) : InterfaceState.t :=
  if bool_decide (pair.1 = Some h) then InterfaceState.designated
  else if bool_decide (pair.2 = Some h) then InterfaceState.backup else InterfaceState.dr_other.

Definition result (pair : option Host * option Host) (h : Host) : DrBdrElection :=
  mkElection (identity_of_host pair.1) (identity_of_host pair.2) (host_role pair h).

Lemma fmap_either (v : Host -> ElectionRouter) (a b : option Host) : v <$> either a b = either (v <$> a) (v <$> b).
Proof. now destruct a. Qed.

Lemma roles_host_pass project me declared hosts :
  well_identified hosts ->
  let v := view me declared in
  let pair := host_pass project me declared hosts in
  roles project (map v hosts) (v <$> pair.1) (v <$> pair.2).
Proof.
  intros W v pair. eexists _, _, _. split_and!; try (now apply best_host_spec); unfold pair, host_pass, v; cbn [fst snd];
    now rewrite !fmap_either.
Qed.

Lemma view_injective me declared a b : view me declared a = view me declared b -> a = b.
Proof. destruct a, b. unfold view. cbn. congruence. Qed.

Lemma fmap_view_some me declared (o : option Host) h :
  bool_decide ((view me declared <$> o) = Some (view me declared h)) = bool_decide (o = Some h).
Proof.
  apply bool_decide_ext. destruct o as [x|]; cbn; [|split; discriminate]. split; [|now intros [= ->]].
  intros E. f_equal. apply (view_injective me declared). congruence.
Qed.

Lemma identity_fmap_view me declared o : identity (view me declared <$> o) = identity_of_host o.
Proof. now destruct o. Qed.

Lemma views_unique me declared hosts : well_identified hosts -> unique_ids (map (view me declared) hosts).
Proof. intros (H & _). unfold unique_ids. now rewrite map_map. Qed.

Lemma views_one_local me declared hosts : well_identified hosts -> one_local (map (view me declared) hosts).
Proof.
  intros W x y (a & -> & Ha)%list_elem_of_fmap (b & -> & Hb)%list_elem_of_fmap La%Z.eqb_eq Lb%Z.eqb_eq.
  f_equal. apply (host_id_eq hosts); [done..|congruence].
Qed.

Lemma host_role_view me declared pair h :
  role_in (view me declared <$> pair.1) (view me declared <$> pair.2) (view me declared h) = host_role pair h.
Proof. unfold role_in, host_role. now rewrite !fmap_view_some. Qed.

Lemma election_at_hosts hosts declared h :
  well_identified hosts -> h ∈ hosts ->
  election_at hosts declared (host_id h)
  = let pass project := host_pass project (host_id h) declared hosts in
    let first := pass (fun r => r) in
    if host_priority h =? 0 then
      mkElection (identity_of_host first.1) (identity_of_host first.2) InterfaceState.dr_other
    else
      let role := host_role first h in
      result (if same role (declared_role (view (host_id h) declared h)) then first
              else pass (project_role role)) h.
Proof.
  intros W Hh. set (v := view (host_id h) declared). set (l := map v hosts).
  pose proof (views_unique (host_id h) declared hosts W) as U.
  pose proof (views_one_local (host_id h) declared hosts W) as L. cbn zeta.
  apply (elected_unique l l); [done|exact L|now apply elect_elected|].
  set (first := host_pass (fun r => r) (host_id h) declared hosts).
  exists (v <$> first.1), (v <$> first.2). split; [now apply roles_host_pass|].
  assert (v h ∈ l) as Hv by now apply list_elem_of_fmap_2.
  assert (local (v h) = true) as Lv by apply Z.eqb_refl.
  assert (eligible (v h) = negb (host_priority h =? 0)) as Ev.
  { unfold eligible. cbn. now rewrite orb_true_r, andb_true_r. }
  destruct (host_priority h =? 0).
  - left. split; [|unfold v; now rewrite !identity_fmap_view]. intros x Hx Lx. now rewrite (L x (v h) Hx Hv Lx Lv).
  - right. exists (v h). split_and!; [done..|]. unfold v; rewrite (host_role_view _ _ first); fold v.
    destruct (same _ _).
    + exists (v <$> first.1), (v <$> first.2). split; [done|]. unfold result.
      unfold v; now rewrite !identity_fmap_view, (host_role_view _ _ first).
    + set (role := host_role first h). pose proof (roles_host_pass (project_role role) (host_id h) declared hosts W) as R.
      eexists _, _. split; [exact R|]. unfold result. unfold v; now rewrite !identity_fmap_view, host_role_view.
Qed.

(** ** One pass over the declarations *)

Definition contends (h : Host) : bool := negb (host_priority h =? 0).
Definition claims_dr (declared : Declarations) (h : Host) : bool := (declared (host_id h)).1 =? host_identity h.
Definition claims_bdr (declared : Declarations) (h : Host) : bool := (declared (host_id h)).2 =? host_identity h.

Definition pass (declared : Declarations) (hosts : list Host) : option Host * option Host :=
  let designated := best_host (fun h => contends h && claims_dr declared h) hosts in
  let backup :=
    either (best_host (fun h => contends h && negb (claims_dr declared h) && claims_bdr declared h) hosts)
      (best_host (fun h => contends h && negb (claims_dr declared h)) hosts) in
  (either designated backup, backup).

(** The declarations in which router [m] has taken [role] and nothing else. *)
Definition revise (m : Host) (role : InterfaceState.t) (declared : Declarations) : Declarations := fun id =>
  if id =? host_id m then
    (if same role InterfaceState.designated then host_identity m else 0,
     if same role InterfaceState.backup then host_identity m else 0)
  else declared id.

Lemma eligible_view me declared h : eligible (view me declared h) = contends h.
Proof. unfold eligible, contends. cbn. now rewrite orb_true_r, andb_true_r. Qed.

Lemma host_pass_id me declared hosts : host_pass (fun r => r) me declared hosts = pass declared hosts.
Proof.
  unfold host_pass, pass. rewrite (best_host_ext _ (fun h => contends h && claims_dr declared h)),
    (best_host_ext (fun h => declared_backup_candidate _ _) (fun h => contends h && negb (claims_dr declared h) && claims_bdr declared h)),
    (best_host_ext (fun h => backup_candidate _ _) (fun h => contends h && negb (claims_dr declared h))); [done|..];
    intros h _; unfold declared_backup_candidate, backup_candidate, designated_candidate; now rewrite eligible_view.
Qed.

Lemma project_view m declared hosts role h :
  well_identified hosts -> m ∈ hosts -> h ∈ hosts ->
  project_role role (view (host_id m) declared h) = view (host_id m) (revise m role declared) h.
Proof.
  intros W Hm Hh. unfold project_role, view, revise. cbn. destruct (Z.eqb_spec (host_id h) (host_id m)) as [E|E]; [|done].
  rewrite (host_id_eq hosts h m) by done. reflexivity.
Qed.

Lemma host_pass_project m declared hosts role :
  well_identified hosts -> m ∈ hosts ->
  host_pass (project_role role) (host_id m) declared hosts = pass (revise m role declared) hosts.
Proof.
  intros W Hm. rewrite <- (host_pass_id (host_id m)). unfold host_pass.
  rewrite (best_host_ext _ (fun h => designated_candidate (fun r => r) (view (host_id m) (revise m role declared) h))),
    (best_host_ext (fun h => declared_backup_candidate _ _)
       (fun h => declared_backup_candidate (fun r => r) (view (host_id m) (revise m role declared) h))),
    (best_host_ext (fun h => backup_candidate _ _)
       (fun h => backup_candidate (fun r => r) (view (host_id m) (revise m role declared) h))); [done|..];
    intros h Hh; unfold declared_backup_candidate, backup_candidate, designated_candidate, declares_dr, declares_bdr;
    now rewrite (project_view m declared hosts role h).
Qed.

(** The election of a router that contends, on the declarations. *)
Lemma election_contending hosts declared m :
  well_identified hosts -> m ∈ hosts -> contends m = true ->
  election_at hosts declared (host_id m)
  = let first := pass declared hosts in
    let role := host_role first m in
    result (if same role (declared_role (view (host_id m) declared m)) then first
            else pass (revise m role declared) hosts) m.
Proof.
  intros W Hm C. rewrite election_at_hosts by done. cbn zeta. unfold contends in C.
  destruct (host_priority m =? 0); [done|]. now rewrite host_pass_id, host_pass_project.
Qed.

Lemma election_bystander hosts declared m :
  well_identified hosts -> m ∈ hosts -> contends m = false ->
  election_at hosts declared (host_id m)
  = mkElection (identity_of_host (pass declared hosts).1) (identity_of_host (pass declared hosts).2)
      InterfaceState.dr_other.
Proof.
  intros W Hm C. rewrite election_at_hosts by done. cbn zeta. unfold contends in C.
  destruct (host_priority m =? 0); [|done]. now rewrite host_pass_id.
Qed.

(** ** An agreed pair of roles *)

Definition rest (hosts : list Host) (d : Host) : option Host :=
  best_host (fun h => contends h && negb (bool_decide (h = d))) hosts.

(** Only [d] claims to be designated; the backup claims its role alone, or nobody
    does and it is the best of the others. *)
Record settled (hosts : list Host) (declared : Declarations) (d : Host) (b : option Host) : Prop := {
  settled_in : d ∈ hosts;
  settled_contends : contends d = true;
  settled_dr : forall h, h ∈ hosts -> claims_dr declared h = bool_decide (h = d);
  settled_backup : forall h, b = Some h -> h ∈ hosts /\ contends h = true /\ h <> d;
  settled_bdr :
    (exists h, b = Some h /\ forall x, x ∈ hosts -> x <> d -> claims_bdr declared x = bool_decide (x = h))
    \/ b = rest hosts d /\ (forall x, x ∈ hosts -> x <> d -> claims_bdr declared x = false)
}.

Lemma pass_settled hosts declared d b : settled hosts declared d b -> pass declared hosts = (Some d, b).
Proof.
  intros [Hd Cd Hdr Hb Hbdr]. unfold pass.
  rewrite (best_host_only (fun h => contends h && claims_dr declared h) hosts d); [|done| |].
  2: now rewrite Hdr, bool_decide_eq_true_2, Cd by done.
  2: intros h Hh N; now rewrite Hdr, bool_decide_eq_false_2, andb_false_r by done.
  cbn [either]. f_equal. destruct Hbdr as [(h & -> & H)|[-> H]].
  - destruct (Hb h eq_refl) as (Hh & Ch & Nh).
    rewrite (best_host_only _ hosts h); [done|done| |].
    + now rewrite Ch, Hdr, bool_decide_eq_false_2, H, bool_decide_eq_true_2 by done.
    + intros x Hx N. rewrite Hdr by done. destruct (decide (x = d)) as [->|Nd].
      * now rewrite bool_decide_eq_true_2, andb_false_r by done.
      * now rewrite H, (bool_decide_eq_false_2 (x = h)), andb_false_r by done.
  - replace (best_host _ hosts) with (@None Host).
    + cbn [either]. apply best_host_ext. intros x Hx. now rewrite Hdr.
    + symmetry. apply best_host_none. intros x Hx. rewrite Hdr by done. destruct (decide (x = d)) as [->|Nd].
      * now rewrite bool_decide_eq_true_2, andb_false_r by done.
      * now rewrite H, andb_false_r.
Qed.

Lemma declared_role_view me declared h :
  declared_role (view me declared h)
  = if claims_dr declared h then InterfaceState.designated
    else if claims_bdr declared h then InterfaceState.backup else InterfaceState.dr_other.
Proof. reflexivity. Qed.

Lemma revise_claims m role declared hosts h :
  well_identified hosts -> m ∈ hosts -> h ∈ hosts ->
  claims_dr (revise m role declared) h
    = (if bool_decide (h = m) then same role InterfaceState.designated else claims_dr declared h)
  /\ claims_bdr (revise m role declared) h
    = (if bool_decide (h = m) then same role InterfaceState.backup else claims_bdr declared h).
Proof.
  intros W Hm Hh. unfold claims_dr, claims_bdr, revise. destruct (decide (h = m)) as [->|N].
  - rewrite Z.eqb_refl, bool_decide_eq_true_2 by done. cbn. destruct W as (_ & _ & Z0). specialize (Z0 m Hm).
    split; destruct (same role _); (apply Z.eqb_refl || apply Z.eqb_neq; congruence).
  - rewrite bool_decide_eq_false_2 by done. destruct (Z.eqb_spec (host_id h) (host_id m)) as [E|E]; [|done].
    destruct N. now apply (host_id_eq hosts).
Qed.

Lemma settled_election hosts declared d b m :
  well_identified hosts -> settled hosts declared d b -> m ∈ hosts ->
  election_at hosts declared (host_id m) = result (Some d, b) m.
Proof.
  intros W S Hm. pose proof (pass_settled _ _ _ _ S) as P. destruct S as [Hd Cd Hdr Hb Hbdr].
  destruct (contends m) eqn:C.
  - rewrite election_contending by done. cbn zeta. rewrite P, declared_role_view, Hdr by done.
    unfold host_role. cbn [fst snd]. destruct (decide (m = d)) as [->|N].
    { now rewrite !bool_decide_eq_true_2 by done. }
    rewrite (bool_decide_eq_false_2 (Some d = Some m)), (bool_decide_eq_false_2 (m = d)) by congruence.
    destruct (decide (b = Some m)) as [->|Nb].
    + rewrite bool_decide_eq_true_2 by done. destruct (claims_bdr declared m) eqn:Em; [done|]. cbn [same].
      unfold same. rewrite bool_decide_eq_false_2 by done. f_equal. apply pass_settled. split; [done|done| |done|].
      * intros h Hh. destruct (revise_claims m InterfaceState.backup declared hosts h W Hm Hh) as [-> _].
        destruct (decide (h = m)) as [->|]; [rewrite bool_decide_eq_true_2, bool_decide_eq_false_2 by done; done|].
        rewrite (bool_decide_eq_false_2 (h = m)) by done. auto.
      * left. exists m. split; [done|]. intros x Hx Nx.
        destruct (revise_claims m InterfaceState.backup declared hosts x W Hm Hx) as [_ ->].
        destruct (decide (x = m)) as [->|]; [now rewrite bool_decide_eq_true_2 by done|].
        rewrite bool_decide_eq_false_2 by done. destruct Hbdr as [(h & [= <-] & H)|[_ H]]; [|now apply H].
        rewrite H, bool_decide_eq_true_2 in Em by done. done.
    + rewrite bool_decide_eq_false_2 by done. replace (claims_bdr declared m) with false; [done|].
      symmetry. destruct Hbdr as [(h & -> & H)|[_ H]]; [|now apply H].
      rewrite H by done. apply bool_decide_eq_false_2. congruence.
  - rewrite election_bystander, P by done. unfold result, host_role. cbn [fst snd].
    rewrite !bool_decide_eq_false_2; [done| |congruence]. intros E. destruct (Hb m E) as (_ & C' & _). congruence.
Qed.

Lemma host_identity_eq hosts a b :
  well_identified hosts -> a ∈ hosts -> b ∈ hosts -> host_identity a = host_identity b -> a = b.
Proof.
  intros (_ & H & _) (i & Hi)%list_elem_of_lookup_1 (j & Hj)%list_elem_of_lookup_1 E.
  assert (i = j) as ->; [|congruence].
  eapply (NoDup_lookup (map host_identity hosts)); [done|rewrite list_lookup_fmap, Hi; done|rewrite list_lookup_fmap, Hj; cbn; congruence].
Qed.

Lemma identity_eqb hosts a b :
  well_identified hosts -> a ∈ hosts -> b ∈ hosts -> (host_identity a =? host_identity b) = bool_decide (b = a).
Proof.
  intros W Ha Hb. apply eq_true_iff_eq. rewrite Z.eqb_eq, bool_decide_eq_true. split; [|now intros ->].
  intros E. symmetry. now apply (host_identity_eq hosts).
Qed.

(** Hosts that declare the pair (and hosts that declare nothing) settle it. *)
Lemma settled_declared hosts declared d b :
  well_identified hosts -> d ∈ hosts -> contends d = true ->
  (forall h, b = Some h -> h ∈ hosts /\ contends h = true /\ h <> d) -> (b = None -> rest hosts d = None) ->
  (forall h, h ∈ hosts ->
     declared (host_id h) = (host_identity d, identity_of_host b)
     \/ declared (host_id h) = (0, 0) /\ h <> d /\ b <> Some h) ->
  settled hosts declared d b.
Proof.
  intros W Hd Cd Hb Hn Hdecl. split; [done|done| |done|].
  - intros h Hh. unfold claims_dr. destruct (Hdecl h Hh) as [->|(-> & N & _)]; cbn [fst].
    + now apply (identity_eqb hosts).
    + rewrite bool_decide_eq_false_2 by done. apply Z.eqb_neq. destruct W as (_ & _ & Z0). specialize (Z0 h Hh). lia.
  - destruct b as [b|].
    + left. exists b. split; [done|]. intros h Hh N. destruct (Hb b eq_refl) as (Hb' & _). unfold claims_bdr.
      destruct (Hdecl h Hh) as [->|(-> & _ & N')]; cbn [snd].
      * now apply (identity_eqb hosts).
      * rewrite bool_decide_eq_false_2 by congruence. apply Z.eqb_neq. destruct W as (_ & _ & Z0). specialize (Z0 h Hh). lia.
    + right. split; [now rewrite Hn|]. intros h Hh N. unfold claims_bdr. apply Z.eqb_neq.
      destruct W as (_ & _ & Z0). specialize (Z0 h Hh). destruct (Hdecl h Hh) as [->|(-> & _)]; cbn; lia.
Qed.

Lemma settled_round hosts declared d b :
  well_identified hosts -> settled hosts declared d b -> settled hosts (hello_round hosts declared) d b.
Proof.
  intros W S. pose proof (fun m => settled_election hosts declared d b m W S) as E. destruct S as [Hd Cd Hdr Hb Hbdr].
  apply settled_declared; try done.
  - intros ->. now destruct Hbdr as [(h & ? & _)|[-> _]].
  - intros h Hh. left. unfold hello_round. now rewrite E.
Qed.

Lemma settled_rounds hosts declared d b n :
  well_identified hosts -> settled hosts declared d b -> settled hosts (Nat.iter n (hello_round hosts) declared) d b.
Proof. intros W S. induction n; cbn; [done|now apply settled_round]. Qed.

Lemma rest_some hosts d b : rest hosts d = Some b -> b ∈ hosts /\ contends b = true /\ b <> d.
Proof.
  intros [H1 [H2 H3%negb_true_iff]%andb_true_iff]%best_host_some. split_and!; [done..|].
  now apply bool_decide_eq_false in H3.
Qed.

(** The first round: the best router names a backup, the others do not know it yet. *)
Lemma silent_election hosts d m :
  well_identified hosts -> best_host contends hosts = Some d -> m ∈ hosts ->
  election_at hosts silent (host_id m) = result (Some d, if bool_decide (m = d) then rest hosts d else Some d) m.
Proof.
  intros W D Hm. destruct (best_host_some _ _ _ D) as [Hd Cd].
  assert (forall h, h ∈ hosts -> claims_dr silent h = false /\ claims_bdr silent h = false) as Q.
  { intros h Hh. destruct W as (_ & _ & Z0). specialize (Z0 h Hh). split; apply Z.eqb_neq; cbn; congruence. }
  assert (pass silent hosts = (Some d, Some d)) as P.
  { unfold pass. rewrite (proj2 (best_host_none (fun h => contends h && claims_dr silent h) hosts)),
      (proj2 (best_host_none (fun h => contends h && negb (claims_dr silent h) && claims_bdr silent h) hosts)); cbn [either].
    - rewrite (best_host_ext _ contends); [now rewrite D|]. intros h Hh. rewrite (proj1 (Q h Hh)). apply andb_true_r.
    - intros h Hh. rewrite (proj2 (Q h Hh)). apply andb_false_r.
    - intros h Hh. rewrite (proj1 (Q h Hh)). apply andb_false_r. }
  destruct (contends m) eqn:C.
  - rewrite election_contending by done. cbn zeta. rewrite P, declared_role_view, (proj1 (Q m Hm)), (proj2 (Q m Hm)).
    unfold host_role. cbn [fst snd]. destruct (decide (m = d)) as [->|N].
    + rewrite !bool_decide_eq_true_2 by done. cbn. unfold same. rewrite bool_decide_eq_false_2 by done.
      f_equal. apply pass_settled. split; [done..| |exact (rest_some hosts d)|].
      * intros h Hh. destruct (revise_claims d InterfaceState.designated silent hosts h W Hd Hh) as [-> _].
        rewrite (proj1 (Q h Hh)). now destruct (bool_decide (h = d)).
      * right. split; [done|]. intros x Hx N.
        destruct (revise_claims d InterfaceState.designated silent hosts x W Hd Hx) as [_ ->].
        rewrite bool_decide_eq_false_2 by done. now apply Q.
    + rewrite !bool_decide_eq_false_2 by congruence. done.
  - rewrite election_bystander, P by done. unfold result, host_role. cbn [fst snd].
    assert (m <> d) as N by congruence. rewrite !bool_decide_eq_false_2 by congruence. done.
Qed.

Lemma settled_after_silence hosts d :
  well_identified hosts -> best_host contends hosts = Some d -> settled hosts (hello_round hosts silent) d (rest hosts d).
Proof.
  intros W D. destruct (best_host_some _ _ _ D) as [Hd Cd].
  assert (forall h, h ∈ hosts ->
    hello_round hosts silent (host_id h)
    = (host_identity d, identity_of_host (if bool_decide (h = d) then rest hosts d else Some d))) as E.
  { intros h Hh. unfold hello_round. now rewrite (silent_election hosts d). }
  split; [done..| |exact (rest_some hosts d)|].
  - intros h Hh. unfold claims_dr. rewrite E by done. now apply (identity_eqb hosts).
  - right. split; [done|]. intros h Hh N. unfold claims_bdr. rewrite E, bool_decide_eq_false_2 by done. cbn [snd identity_of_host].
    rewrite (identity_eqb hosts) by done. now apply bool_decide_eq_false_2.
Qed.

Lemma election_nobody hosts declared m :
  well_identified hosts -> best_host contends hosts = None -> m ∈ hosts ->
  election_at hosts declared (host_id m) = result (None, None) m.
Proof.
  intros W D Hm. pose proof (proj1 (best_host_none _ _) D) as C. rewrite election_bystander by auto.
  replace (pass declared hosts) with (@None Host, @None Host); [done|]. unfold pass.
  symmetry. f_equal; rewrite ?(proj2 (best_host_none _ hosts)); try done; intros h Hh; now rewrite C.
Qed.

(** ** Theorems *)

(** The pair that the rules choose: the best router that contends and the best of
    the others. *)
Definition chosen (hosts : list Host) : option Host * option Host :=
  match best_host contends hosts with None => (None, None) | Some d => (Some d, rest hosts d) end.

Definition after (rounds : nat) (hosts : list Host) : Declarations := Nat.iter rounds (hello_round hosts) silent.

(** C32: routers that start silent agree: from the second election on, every router
    of the segment computes the same designated and backup router, the best and
    the second best that contend, each takes the role that pair gives it, and no
    later exchange of Hellos changes it. *)
Theorem election_converges hosts rounds m :
  well_identified hosts -> m ∈ hosts -> (1 <= rounds)%nat ->
  election_at hosts (after rounds hosts) (host_id m) = result (chosen hosts) m.
Proof.
  intros W Hm R. unfold chosen. destruct (best_host contends hosts) as [d|] eqn:D; [|now apply election_nobody].
  apply settled_election; [done| |done]. destruct rounds as [|n]; [lia|]. unfold after. rewrite Nat.iter_succ_r.
  apply settled_rounds; [done|]. now apply settled_after_silence.
Qed.

(** Routers that join declare nothing; the others keep what they declared. *)
Definition joined (newcomers : list Host) (declared : Declarations) : Declarations := fun id =>
  if bool_decide (id ∈ map host_id newcomers) then (0, 0) else declared id.

(** An agreed pair of roles is kept when routers join, whatever their
    priorities: every router, old or new, computes the old pair in every later
    round. *)
Theorem election_not_preempted hosts newcomers d b rounds later m :
  well_identified (hosts ++ newcomers) -> chosen hosts = (Some d, Some b) -> (2 <= rounds)%nat ->
  m ∈ hosts ++ newcomers ->
  election_at (hosts ++ newcomers)
    (Nat.iter later (hello_round (hosts ++ newcomers)) (joined newcomers (after rounds hosts))) (host_id m)
  = result (Some d, Some b) m.
Proof.
  intros W C R Hm. unfold chosen in C. destruct (best_host contends hosts) as [d'|] eqn:D; [|done]. injection C as -> B.
  assert (well_identified hosts) as W1.
  { destruct W as (A1 & A2 & A3). rewrite map_app in A1, A2. apply list.NoDup_app in A1 as [A1 _]; apply list.NoDup_app in A2 as [A2 _].
    split_and!; [done..|]. intros h Hh. apply A3. now apply elem_of_app; left. }
  destruct (best_host_some _ _ _ D) as [Hd Cd]. destruct (rest_some _ _ _ B) as (Hb & Cb & Nb).
  apply settled_election; [done| |done]. apply settled_rounds; [done|].
  assert (forall h, h ∈ hosts -> h ∈ hosts ++ newcomers) as In by (intros h Hh; apply elem_of_app; now left).
  assert (forall h, h ∈ hosts -> host_id h ∈ map host_id newcomers -> False) as Out.
  { intros h Hh (x & E & Hx)%list_elem_of_fmap. destruct W as (A1 & _). rewrite map_app in A1.
    apply list.NoDup_app in A1 as (_ & A1 & _). apply (A1 (host_id h)); [now apply list_elem_of_fmap_2|].
    rewrite E. now apply list_elem_of_fmap_2. }
  apply settled_declared; try done; [now apply In| |].
  - intros h [= <-]. split_and!; [now apply In|done..].
  - intros h [Hh|Hh]%elem_of_app; [left|right].
    + unfold joined. rewrite bool_decide_eq_false_2 by (intros F; now apply (Out h)).
      destruct rounds as [|n]; [lia|]. change (after (S n) hosts) with (hello_round hosts (after n hosts)).
      unfold hello_round. rewrite (settled_election hosts (after n hosts) d (Some b)); [done|done| |done].
      destruct n as [|n]; [lia|]. unfold after. rewrite Nat.iter_succ_r, <- B. apply settled_rounds; [done|].
      now apply settled_after_silence.
    + unfold joined. rewrite bool_decide_eq_true_2 by now apply list_elem_of_fmap_2. split; [done|].
      split; [intros ->; apply (Out d Hd)|intros [= ->]; apply (Out h Hb)]; now apply list_elem_of_fmap_2.
Qed.

(** Three routers of a subnet; the last one does not contend. *)
Definition sample_hosts : list Host := [mkHost 101 1 1; mkHost 102 2 5; mkHost 103 3 0].
Definition sample_newcomer : list Host := [mkHost 104 4 200].

Lemma sample_identified : well_identified (sample_hosts ++ sample_newcomer).
Proof.
  split_and!; [refine (bool_decide_eq_true_1 _ _); reflexivity..|].
  intros h Hh. cbn in Hh. repeat (apply elem_of_cons in Hh as [->|Hh]; [done|]). inversion Hh.
Qed.

Lemma sample_hosts_identified : well_identified sample_hosts.
Proof.
  split_and!; [refine (bool_decide_eq_true_1 _ _); reflexivity..|].
  intros h Hh. cbn in Hh. repeat (apply elem_of_cons in Hh as [->|Hh]; [done|]). inversion Hh.
Qed.

Lemma election_converges_witness :
  election_at sample_hosts (after 1 sample_hosts) 2 = mkElection 102 101 InterfaceState.designated.
Proof.
  refine (eq_trans (election_converges sample_hosts 1 (mkHost 102 2 5) sample_hosts_identified _ _) _).
  - refine (bool_decide_eq_true_1 _ _). reflexivity.
  - lia.
  - reflexivity.
Defined.

Lemma election_not_preempted_witness :
  election_at (sample_hosts ++ sample_newcomer)
    (Nat.iter 3 (hello_round (sample_hosts ++ sample_newcomer)) (joined sample_newcomer (after 2 sample_hosts))) 4
  = mkElection 102 101 InterfaceState.dr_other.
Proof.
  refine (eq_trans (election_not_preempted sample_hosts sample_newcomer (mkHost 102 2 5) (mkHost 101 1 1) 2 3
    (mkHost 104 4 200) sample_identified _ _ _) _).
  - reflexivity.
  - lia.
  - refine (bool_decide_eq_true_1 _ _). reflexivity.
  - reflexivity.
Defined.
End OspfConvergence.
