(* ===== verification/OspfNeighbor.v ===== *)
(** * The OSPF neighbor machine

    What a trace of neighbor events implies: an owner that obeys the actions keeps
    adjacency data exactly in the states from ExStart up and an inactivity timer
    exactly in the states other than Down, every change of the bidirectional
    relation is reported to the interface, and Full is reached only by a complete
    database exchange. *)

From S2P Require Import Prelude OspfFsm.

Module OspfNeighbor.
Import OspfFsm.

(** An event with the answers the owner gives for it: whether an adjacency is
    required and whether link state requests are pending. *)
Record Input := mkInput { event : NeighborEvent.t; required : bool; pending : bool }.

(** What the owner of a neighbor keeps for it. *)
Record Owner := mkOwner { state : NeighborState.t; timer : bool; adjacency : bool }.

(** The owner performs the actions of a transition: clear the adjacency before
    beginning a new exchange. *)
Definition obey (actions : Z) (state : NeighborState.t) (o : Owner) : Owner :=
  let timer := if has_action actions NeighborAction.reset_inactivity_timer then true else timer o in
  let timer := if has_action actions NeighborAction.stop_inactivity_timer then false else timer in
  let adjacency := if has_action actions NeighborAction.clear_adjacency then false else adjacency o in
  let adjacency := if has_action actions NeighborAction.begin_database_exchange then true else adjacency in
  mkOwner state timer adjacency.

Definition transition (s : NeighborState.t) (i : Input) : NeighborState.t * Z :=
  neighbor_transition s (event i) (required i) (pending i).

Definition owner_step (o : Owner) (i : Input) : Owner :=
  let t := transition (state o) i in obey t.2 t.1 o.

Definition run (s : NeighborState.t) (inputs : list Input) : NeighborState.t :=
  fold_left (fun s i => (transition s i).1) inputs s.

Definition new_owner : Owner := mkOwner NeighborState.down false false.

Definition owner_ok (o : Owner) : Prop :=
  timer o = negb (same (state o) NeighborState.down)
  /\ adjacency o = NeighborState.at_least (state o) NeighborState.exstart.

Lemma owner_step_ok o i : owner_ok o -> owner_ok (owner_step o i).
Proof.
  destruct o as [s t a], i as [e r p]. intros [Ht Ha]. cbn [timer adjacency state] in Ht, Ha. subst t a.
  destruct s, e, r, p; vm_compute; split; reflexivity.
Qed.

Lemma owner_steps_state inputs o :
  state (fold_left owner_step inputs o) = run (state o) inputs.
Proof. revert o. induction inputs as [|i l IH]; intros o; [done|]. cbn [fold_left]. now rewrite IH. Qed.

Lemma owner_steps_ok inputs o : owner_ok o -> owner_ok (fold_left owner_step inputs o).
Proof. revert o. induction inputs as [|i l IH]; intros o H; [done|]. apply IH. now apply owner_step_ok. Qed.

(** ** The history of an adjacency *)

(** Inputs that undo an adjacency. *)
Definition breaks (i : Input) : bool :=
  match event i with
  | NeighborEvent.kill_neighbor | NeighborEvent.inactivity_timer | NeighborEvent.lower_layer_down
  | NeighborEvent.one_way_received | NeighborEvent.sequence_number_mismatch
  | NeighborEvent.bad_link_state_request => true
  | NeighborEvent.adjacency_ok => negb (required i)
  | _ => false
  end.

Definition undisturbed (l : list Input) : Prop := Forall (fun i => breaks i = false) l.

(** The negotiation of an exchange that began in ExStart was completed. *)
Definition negotiated (l t2 : list Input) : Prop :=
  exists t1 i, l = t1 ++ i :: t2 /\ event i = NeighborEvent.negotiation_done
    /\ run NeighborState.down t1 = NeighborState.exstart /\ undisturbed t2.

Definition exchanged (l t3 : list Input) (requests : bool) : Prop :=
  exists l1 t2 i, l = l1 ++ i :: t3 /\ event i = NeighborEvent.exchange_done /\ pending i = requests
    /\ negotiated l1 t2 /\ undisturbed t3.

(** What the state says of the events that led to it. *)
Definition history (s : NeighborState.t) (l : list Input) : Prop :=
  match s with
  | NeighborState.exchange => exists t2, negotiated l t2
  | NeighborState.loading => exists t3, exchanged l t3 true
  | NeighborState.full => exists t3 requests, exchanged l t3 requests
      /\ (requests = true -> exists i, i ∈ t3 /\ event i = NeighborEvent.loading_done)
  | _ => True
  end.

Lemma undisturbed_snoc l i : undisturbed l -> breaks i = false -> undisturbed (l ++ [i]).
Proof. intros H B. apply Forall_app. split; [done|]. now repeat constructor. Qed.

Lemma negotiated_snoc l t i : negotiated l t -> breaks i = false -> negotiated (l ++ [i]) (t ++ [i]).
Proof.
  intros (t1 & j & -> & E & R & U) B. exists t1, j. split_and!; [now rewrite <- app_assoc|done|done|].
  now apply undisturbed_snoc.
Qed.

Lemma exchanged_snoc l t r i : exchanged l t r -> breaks i = false -> exchanged (l ++ [i]) (t ++ [i]) r.
Proof.
  intros (l1 & t2 & j & -> & E & P & N & U) B. exists l1, t2, j. split_and!; [now rewrite <- app_assoc|done..|].
  now apply undisturbed_snoc.
Qed.

(** One step into each of the last three states. *)
Lemma into_exchange s i :
  (transition s i).1 = NeighborState.exchange ->
  s = NeighborState.exstart /\ event i = NeighborEvent.negotiation_done
  \/ s = NeighborState.exchange /\ breaks i = false.
Proof. destruct s, i as [e r p]; destruct e, r, p; vm_compute; intuition congruence. Qed.

Lemma into_loading s i :
  (transition s i).1 = NeighborState.loading ->
  s = NeighborState.exchange /\ event i = NeighborEvent.exchange_done /\ pending i = true
  \/ s = NeighborState.loading /\ breaks i = false.
Proof. destruct s, i as [e r p]; destruct e, r, p; vm_compute; intuition congruence. Qed.

Lemma into_full s i :
  (transition s i).1 = NeighborState.full ->
  s = NeighborState.exchange /\ event i = NeighborEvent.exchange_done /\ pending i = false
  \/ s = NeighborState.loading /\ event i = NeighborEvent.loading_done
  \/ s = NeighborState.full /\ breaks i = false.
Proof. destruct s, i as [e r p]; destruct e, r, p; vm_compute; intuition congruence. Qed.

Lemma exchanged_here l t2 i r :
  negotiated l t2 -> event i = NeighborEvent.exchange_done -> pending i = r -> exchanged (l ++ [i]) [] r.
Proof. intros N E P. exists l, t2, i. split_and!; [done..|constructor]. Qed.

Lemma run_snoc s l i : run s (l ++ [i]) = (transition (run s l) i).1.
Proof. unfold run. now rewrite fold_left_app. Qed.

Lemma run_history l : history (run NeighborState.down l) l.
Proof.
  induction l as [|i l IH] using rev_ind; [exact I|]. rewrite run_snoc.
  destruct (transition _ i).1 eqn:T; try exact I.
  - apply into_exchange in T as [[R E]|[R B]]; rewrite R in IH.
    + exists [], l, i. split_and!; [done..|constructor].
    + destruct IH as [t2 N]. exists (t2 ++ [i]). now apply negotiated_snoc.
  - apply into_loading in T as [(R & E & P)|[R B]]; rewrite R in IH.
    + destruct IH as [t2 N]. exists []. now apply (exchanged_here l t2).
    + destruct IH as [t3 X]. exists (t3 ++ [i]). now apply exchanged_snoc.
  - apply into_full in T as [(R & E & P)|[[R E]|[R B]]]; rewrite R in IH.
    + destruct IH as [t2 N]. exists [], false. split; [now apply (exchanged_here l t2)|done].
    + destruct IH as [t3 X]. exists (t3 ++ [i]), true. split.
      * apply exchanged_snoc; [done|]. unfold breaks. now rewrite E.
      * intros _. exists i. split; [apply elem_of_app; right; constructor|done].
    + destruct IH as (t3 & r & X & H). exists (t3 ++ [i]), r. split; [now apply exchanged_snoc|].
      intros Er. destruct (H Er) as (j & Hj & Ej). exists j. split; [apply elem_of_app; now left|done].
Qed.

(** ** Theorems *)

(** Along every trace of neighbor events, an owner that performs the actions of
    each transition has adjacency data exactly from ExStart up and a running
    inactivity timer exactly outside Down, and each transition that gains or loses
    bidirectional communication notifies the interface. *)
Theorem neighbor_actions_sound inputs i :
  let o := fold_left owner_step inputs new_owner in
  let t := transition (state o) i in
  owner_ok o
  /\ (NeighborState.at_least t.1 NeighborState.two_way <> NeighborState.at_least (state o) NeighborState.two_way ->
      has_action t.2 NeighborAction.notify_interface = true).
Proof.
  intros o t. split; [now apply owner_steps_ok|]. unfold t.
  destruct (state o), i as [e r p]; destruct e, r, p; vm_compute; congruence.
Qed.

(** A neighbor is Full only after a complete exchange: the trace has a
    NegotiationDone taken in ExStart, later an ExchangeDone, and a LoadingDone when
    requests were pending, with nothing after the negotiation that undoes the
    adjacency. *)
Theorem full_after_exchange inputs :
  run NeighborState.down inputs = NeighborState.full ->
  exists t1 n t2 x t3,
    inputs = t1 ++ n :: t2 ++ x :: t3
    /\ run NeighborState.down t1 = NeighborState.exstart /\ event n = NeighborEvent.negotiation_done
    /\ event x = NeighborEvent.exchange_done /\ undisturbed t2 /\ undisturbed t3
    /\ (pending x = true -> exists i, i ∈ t3 /\ event i = NeighborEvent.loading_done).
Proof.
  intros R. pose proof (run_history inputs) as H. rewrite R in H.
  destruct H as (t3 & r & (l1 & t2 & x & -> & E & P & (t1 & n & -> & En & Rn & U2) & U3) & L). subst r.
  exists t1, n, t2, x, t3. split_and!; try done. now rewrite <- app_assoc.
Qed.

(** A neighbor that comes up with requests pending. *)
Definition bring_up : list Input :=
  [mkInput NeighborEvent.hello_received true false; mkInput NeighborEvent.two_way_received true false;
   mkInput NeighborEvent.negotiation_done true false; mkInput NeighborEvent.exchange_done true true;
   mkInput NeighborEvent.loading_done true false].

Lemma full_after_exchange_witness :
  run NeighborState.down bring_up = NeighborState.full
  /\ exists t1 n t2 x t3,
    bring_up = t1 ++ n :: t2 ++ x :: t3
    /\ run NeighborState.down t1 = NeighborState.exstart /\ event n = NeighborEvent.negotiation_done
    /\ event x = NeighborEvent.exchange_done /\ undisturbed t2 /\ undisturbed t3
    /\ (pending x = true -> exists i, i ∈ t3 /\ event i = NeighborEvent.loading_done).
Proof. split; [reflexivity|]. apply full_after_exchange. reflexivity. Defined.
End OspfNeighbor.
