(* ===== verification/OspfHello.v ===== *)
(** * The OSPF Hello body (core/src/ospf/ospf_packet.cpp)

    The view of a packet and of its Hello body, for both protocol versions, and the
    byte order helpers of ospf_packet.cpp and ospf_interface.cpp. *)

From S2P Require Import Prelude Arena.

Module OspfHello.
Import Arena.

Definition version_two : Z := 2.
Definition version_three : Z := 3.
Definition option_external_routing_capability : Z := 2.
Definition option_address_family : Z := 256.

Inductive PacketType :=
| hello | database_description | link_state_request | link_state_update | link_state_acknowledgment.
#[export] Instance PacketType_eq_dec : EqDecision PacketType.
Proof. solve_decision. Defined.

(** What the interface reads of a parsed packet. *)
Record PacketView := mkPacket {
  payload : list Z;
  p_router_id : Z;
  p_area_id : Z;
  p_type : PacketType;
  p_version : Z;
  p_instance_id : Z
}.

Record HelloView := mkHello {
  h_network_mask : Z;
  h_interface_id : Z;
  h_designated_router : Z;
  h_backup_designated_router : Z;
  h_neighbors : list Z;
  h_dead_interval_seconds : Z;
  h_options : Z;
  h_hello_interval_seconds : Z;
  h_router_priority : Z;
  h_version : Z
}.

(** ** Byte order *)

Definition read16 (bytes : list Z) (offset : Z) : Z :=
  u16 (Z.lor (Z.shiftl (get bytes offset) 8) (get bytes (offset + 1))).

Definition read32 (bytes : list Z) (offset : Z) : Z :=
  Z.lor (Z.lor (Z.lor (Z.shiftl (get bytes offset) 24) (Z.shiftl (get bytes (offset + 1)) 16))
               (Z.shiftl (get bytes (offset + 2)) 8))
        (get bytes (offset + 3)).

Definition write16 (output : list Z) (offset value : Z) : list Z :=
  put (put output offset (u8 (Z.shiftr value 8))) (offset + 1) (u8 value).

Definition write24 (output : list Z) (offset value : Z) : list Z :=
  put (put (put output offset (u8 (Z.shiftr value 16))) (offset + 1) (u8 (Z.shiftr value 8)))
    (offset + 2) (u8 value).

Definition write32 (output : list Z) (offset value : Z) : list Z :=
  put (put (put (put output offset (u8 (Z.shiftr value 24)))
                (offset + 1) (u8 (Z.shiftr value 16)))
           (offset + 2) (u8 (Z.shiftr value 8)))
      (offset + 3) (u8 value).

(** ** Parsing *)

Definition parse_hello (packet : PacketView) : option HelloView :=
  let p := payload packet in
  if negb (bool_decide (p_type packet = hello)) || (size p <? 20) || negb ((size p - 20) mod 4 =? 0) then None
  else if p_version packet =? version_two then
    Some (mkHello (read32 p 0) 0 (read32 p 12) (read32 p 16) (drop 20 p) (read32 p 8) (get p 6) (read16 p 4)
            (get p 7) version_two)
  else
    Some (mkHello 0 (read32 p 0) (read32 p 12) (read32 p 16) (drop 20 p) (read16 p 10)
            (Z.lor (Z.lor (Z.shiftl (get p 5) 16) (Z.shiftl (get p 6) 8)) (get p 7)) (read16 p 8) (get p 4)
            version_three).

Definition hello_neighbor (h : HelloView) (index : Z) : option Z :=
  if size (h_neighbors h) / 4 <=? index then None else Some (read32 (h_neighbors h) (index * 4)).

End OspfHello.
