(* ===== verification/OspfInterface.v ===== *)
(** * The OSPF interface (core/src/ospf/ospf_interface.cpp)

    The runtime of one interface: its state, the neighbors its Hellos discover,
    their deadlines, and its elections.  Allocation can fail where the code catches
    [bad_alloc]: the operations take the outcome as an argument. *)

From S2P Require Import Prelude Arena Catalog OspfFsm OspfHello.

Module OspfInterface.
Import Arena OspfFsm OspfHello.

(** ** Data *)

Record InterfaceConfiguration := mkConfiguration {
  router_id_ : Z;
  area_id : Z;
  interface_id_ : Z;
  network_mask : Z;
  local_election_identity : Z;
  options_ : Z;
  hello_interval_seconds : Z;
  dead_interval_seconds : Z;
  interface_mtu : Z;
  router_priority : Z;
  version : Z;
  instance_id : Z;
  network_type : NetworkType.t;
  passive : bool;
  enabled : bool
}.
#[export] Instance InterfaceConfiguration_eq_dec : EqDecision InterfaceConfiguration.
Proof. solve_decision. Defined.

Record NeighborRuntime := mkNeighbor {
  n_router_id : Z;
  n_election_identity : Z;
  n_interface_id : Z;
  n_designated_router : Z;
  n_backup_designated_router : Z;
  n_options : Z;
  inactivity_deadline : Z;
  state_since : Z;
  last_event_at : Z;
  last_restart_at : Z;
  event_count : Z;
  restart_count : Z;
  bad_neighbor_states : Z;
  bad_sequence_numbers : Z;
  bad_link_state_requests : Z;
  n_state : NeighborState.t;
  n_priority : Z
}.
#[export] Instance NeighborRuntime_settable : Settable NeighborRuntime := fun n =>
  mkNeighbor (n_router_id n) (n_election_identity n) (n_interface_id n) (n_designated_router n)
    (n_backup_designated_router n) (n_options n) (inactivity_deadline n) (state_since n) (last_event_at n)
    (last_restart_at n) (event_count n) (restart_count n) (bad_neighbor_states n) (bad_sequence_numbers n)
    (bad_link_state_requests n) (n_state n) (n_priority n).
#[export] Instance NeighborRuntime_eq_dec : EqDecision NeighborRuntime.
Proof. solve_decision. Defined.

(** A default time point is zero, the clock's epoch. *)
Definition new_neighbor (router_id now : Z) : NeighborRuntime :=
  mkNeighbor router_id 0 0 0 0 0 0 now 0 0 0 0 0 0 0 NeighborState.down 0.

Inductive HelloDisposition :=
| accepted | malformed | interface_down | self | area_mismatch | instance_mismatch | timer_mismatch
| network_mask_mismatch | options_mismatch | neighbor_capacity_exhausted.

Record HelloResult := mkResult {
  disposition : HelloDisposition;
  r_state : NeighborState.t;
  actions : Z;
  neighbor_router_id : Z;
  backup_seen : bool
}.

Definition rejected (d : HelloDisposition) : HelloResult :=
  mkResult d NeighborState.down NeighborAction.none 0 false.

(** [ExpiredNeighbor] and [NeighborReconciliation] *)
Definition Report : Type := Z * Z.

Record InterfaceRuntimeCheckpoint := mkCheckpoint {
  c_configuration : InterfaceConfiguration;
  c_neighbors : list NeighborRuntime;
  hello_remaining : Z;
  wait_remaining : Z;
  c_state : InterfaceState.t;
  c_designated_router : Z;
  c_backup_designated_router : Z
}.

Record t := mk {
  configuration_ : InterfaceConfiguration;
  neighbors_ : list NeighborRuntime;
  maximum_neighbors_ : Z;
  hello_deadline_ : Z;
  wait_deadline_ : Z;
  state_ : InterfaceState.t;
  designated_router_ : Z;
  backup_designated_router_ : Z
}.
#[export] Instance t_settable : Settable t := fun s =>
  mk (configuration_ s) (neighbors_ s) (maximum_neighbors_ s) (hello_deadline_ s) (wait_deadline_ s) (state_ s)
    (designated_router_ s) (backup_designated_router_ s).

(** ** Construction *)

Definition validate_configuration (c : InterfaceConfiguration) : bool :=
  ((version c =? version_two) || (version c =? version_three))
  && negb (router_id_ c =? 0) && negb (hello_interval_seconds c =? 0) && negb (dead_interval_seconds c =? 0)
  && (hello_interval_seconds c <? dead_interval_seconds c) && negb (interface_mtu c =? 0)
  && ((version c =? version_three) || (instance_id c =? 0)).

Definition construct (c : InterfaceConfiguration) (maximum_neighbors now : Z) : t :=
  let s := mk c [] maximum_neighbors 0 0 InterfaceState.down 0 0 in
  if negb (validate_configuration c) || negb (enabled c) then s
  else
    let transition := interface_transition InterfaceState.down InterfaceEvent.interface_up (network_type c)
                        (router_priority c) in
    let s := s <| state_ := transition.1 |> in
    let s := if negb (passive c) && negb (same (network_type c) NetworkType.non_broadcast)
             then s <| hello_deadline_ := now |> else s in
    if has_action transition.2 InterfaceAction.start_wait_timer
    then s <| wait_deadline_ := now + Catalog.seconds (dead_interval_seconds c) |> else s.

(** ** Neighbors *)

Definition record_neighbor_event (n : NeighborRuntime) (event : NeighborEvent.t)
    (transition : NeighborState.t * Z) (now : Z) : NeighborRuntime :=
  let previous := n_state n in
  let n := n <| event_count := u64 (event_count n + 1) |> <| last_event_at := now |> in
  let n := if same event NeighborEvent.bad_link_state_request
           then n <| bad_link_state_requests := u64 (bad_link_state_requests n + 1) |> else n in
  let n := if same event NeighborEvent.sequence_number_mismatch
           then n <| bad_sequence_numbers := u64 (bad_sequence_numbers n + 1) |> else n in
  let n := if (same event NeighborEvent.one_way_received || same event NeighborEvent.inactivity_timer
               || same event NeighborEvent.lower_layer_down)
              && NeighborState.at_least previous NeighborState.exstart
           then n <| bad_neighbor_states := u64 (bad_neighbor_states n + 1) |> else n in
  let n := if negb (same transition.1 previous) then n <| state_since := now |> else n in
  let n := if same transition.1 NeighborState.exstart && NeighborState.at_least previous NeighborState.exstart
           then n <| restart_count := u64 (restart_count n + 1) |> <| last_restart_at := now |> else n in
  n <| n_state := transition.1 |>.

Definition adjacency_required (s : t) (n : NeighborRuntime) : bool :=
  let type := network_type (configuration_ s) in
  if same type NetworkType.point_to_point || same type NetworkType.point_to_multipoint
     || same type NetworkType.virtual_link then true
  else
    same (state_ s) InterfaceState.designated || same (state_ s) InterfaceState.backup
    || (n_election_identity n =? designated_router_ s) || (n_election_identity n =? backup_designated_router_ s).

(** [found] and the index it is stored back to *)
Definition find_neighbor (router_id : Z) (l : list NeighborRuntime) : option (nat * NeighborRuntime) :=
  list_find (fun n => n_router_id n = router_id) l.

(** One event for one neighbor: the row afterwards and the actions. *)
Definition neighbor_step (s : t) (n : NeighborRuntime) (event : NeighborEvent.t) (requests_pending : bool)
    (now : Z) : NeighborRuntime * Z :=
  let transition := neighbor_transition (n_state n) event (adjacency_required s n) requests_pending in
  (record_neighbor_event n event transition now, transition.2).

(** ** Hellos *)

(** The checks a packet passes before a neighbor is looked up. *)
Definition admit_hello (s : t) (packet : PacketView) (neighbor_election_identity : Z)
    : HelloDisposition + HelloView :=
  let c := configuration_ s in
  if negb (enabled c) || passive c || same (state_ s) InterfaceState.down
     || same (state_ s) InterfaceState.loopback then inl interface_down
  else if (p_router_id packet =? router_id_ c) || (neighbor_election_identity =? 0) then inl self
  else if negb (p_area_id packet =? area_id c) then inl area_mismatch
  else if negb (p_version packet =? version c)
          || ((p_version packet =? version_three) && negb (p_instance_id packet =? instance_id c))
  then inl instance_mismatch
  else
    match parse_hello packet with
    | None => inl malformed
    | Some body =>
        if negb (h_hello_interval_seconds body =? hello_interval_seconds c)
           || negb (h_dead_interval_seconds body =? dead_interval_seconds c) then inl timer_mismatch
        else if (p_version packet =? version_two) && negb (h_network_mask body =? network_mask c)
                && negb (same (network_type c) NetworkType.point_to_point)
                && negb (same (network_type c) NetworkType.virtual_link) then inl network_mask_mismatch
        else if negb (Z.land (h_options body) option_external_routing_capability
                      =? Z.land (options_ c) option_external_routing_capability) then inl options_mismatch
        else if (p_version packet =? version_three) && negb (instance_id c =? 0)
                && negb (Z.land (options_ c) option_address_family =? 0)
                && (Z.land (h_options body) option_address_family =? 0) then inl options_mismatch
        else inr body
    end.

(** Does the Hello list this router? *)
Fixpoint lists_router (fuel : nat) (body : HelloView) (index router_id : Z) : bool :=
  match fuel with
  | O => false
  | S fuel =>
      if size (h_neighbors body) / 4 <=? index then false
      else if bool_decide (hello_neighbor body index = Some router_id) then true
      else lists_router fuel body (index + 1) router_id
  end.

Definition seen_self (body : HelloView) (router_id : Z) : bool :=
  lists_router (length (h_neighbors body)) body 0 router_id.

(** The row with what the accepted Hello says. *)
Definition store_hello (s : t) (packet : PacketView) (body : HelloView) (identity : Z) (n : NeighborRuntime)
    : NeighborRuntime :=
  let n := if p_version packet =? version_three then n <| n_interface_id := h_interface_id body |> else n in
  n <| n_election_identity := identity |> <| n_priority := h_router_priority body |>
    <| n_designated_router := h_designated_router body |>
    <| n_backup_designated_router := h_backup_designated_router body |> <| n_options := h_options body |>.

(** A found or created row is processed; the row and the result. *)
Definition process_hello (s : t) (packet : PacketView) (body : HelloView) (identity now : Z)
    (found : NeighborRuntime) : NeighborRuntime * HelloResult :=
  let first_hello := same (n_state found) NeighborState.down in
  let n := store_hello s packet body identity found in
  let backup_seen :=
    same (state_ s) InterfaceState.waiting
    && ((h_backup_designated_router body =? identity)
        || ((h_designated_router body =? identity) && (h_backup_designated_router body =? 0))) in
  let n := n <| inactivity_deadline := now + Catalog.seconds (dead_interval_seconds (configuration_ s)) |> in
  let '(n, first_actions) := neighbor_step s n NeighborEvent.hello_received false now in
  let event := if seen_self body (router_id_ (configuration_ s)) then NeighborEvent.two_way_received
               else NeighborEvent.one_way_received in
  let '(n, second_actions) := neighbor_step s n event false now in
  let actions := both first_actions second_actions in
  let actions :=
    if negb first_hello
       && (negb (n_priority found =? n_priority n) || negb (n_designated_router found =? n_designated_router n)
           || negb (n_backup_designated_router found =? n_backup_designated_router n))
    then both actions NeighborAction.notify_interface else actions in
  (n, mkResult accepted (n_state n) actions (n_router_id n) backup_seen).

Definition receive_hello (memory : bool) (s : t) (packet : PacketView) (identity now : Z) : HelloResult * t :=
  match admit_hello s packet identity with
  | inl d => (rejected d, s)
  | inr body =>
      match find_neighbor (p_router_id packet) (neighbors_ s) with
      | Some (i, found) =>
          let '(n, result) := process_hello s packet body identity now found in
          (result, s <| neighbors_ := <[i := n]> (neighbors_ s) |>)
      | None =>
          if (size (neighbors_ s) =? maximum_neighbors_ s) || negb memory
          then (rejected neighbor_capacity_exhausted, s)
          else
            let '(n, result) := process_hello s packet body identity now (new_neighbor (p_router_id packet) now) in
            (result, s <| neighbors_ := neighbors_ s ++ [n] |>)
      end
  end.

(** ** Deadlines *)

(** Rows, reports and whether the budget sufficed. *)
Fixpoint expire (s : t) (now budget : Z) (rows : list NeighborRuntime)
    : bool * list Report * list NeighborRuntime :=
  match rows with
  | [] => (true, [], [])
  | n :: rows =>
      if same (n_state n) NeighborState.down || (now <? inactivity_deadline n) then
        let '(ok, output, rows) := expire s now budget rows in (ok, output, n :: rows)
      else if budget =? 0 then (false, [], n :: rows)
      else
        let '(n', actions) := neighbor_step s n NeighborEvent.inactivity_timer false now in
        let '(ok, output, rows) := expire s now (budget - 1) rows in
        (ok, (n_router_id n, actions) :: output, n' <| inactivity_deadline := 0 |> :: rows)
  end.

Definition process_deadlines (s : t) (now output_size : Z) : bool * list Report * t :=
  let '(ok, output, rows) := expire s now output_size (neighbors_ s) in
  (ok, output, s <| neighbors_ := rows |>).

Definition defer_inactivity (s : t) (router_id deadline : Z) : bool * t :=
  match find_neighbor router_id (neighbors_ s) with
  | None => (false, s)
  | Some (i, found) =>
      if same (n_state found) NeighborState.down || (deadline =? 0) then (false, s)
      else if inactivity_deadline found <? deadline
      then (true, s <| neighbors_ := <[i := found <| inactivity_deadline := deadline |>]> (neighbors_ s) |>)
      else (true, s)
  end.

(** ** Elections *)

Definition set_election_result (s : t) (e : DrBdrElection) : t :=
  s <| designated_router_ := designated_router e |>
    <| backup_designated_router_ := backup_designated_router e |> <| state_ := local_state e |>.

Definition local_candidate (s : t) : ElectionRouter :=
  let c := configuration_ s in
  mkRouter (if version c =? version_two then local_election_identity c else router_id_ c) (router_id_ c)
    (designated_router_ s) (backup_designated_router_ s) (router_priority c) true true.

Definition neighbor_candidate (n : NeighborRuntime) : ElectionRouter :=
  mkRouter (n_election_identity n) (n_router_id n) (n_designated_router n) (n_backup_designated_router n)
    (n_priority n) (NeighborState.at_least (n_state n) NeighborState.two_way) false.

Definition candidates (s : t) : list ElectionRouter :=
  local_candidate s :: map neighbor_candidate (neighbors_ s).

Definition elect (memory : bool) (s : t) : t :=
  if memory then set_election_result s (elect_dr_bdr (candidates s)) else s.

Definition apply_election (memory : bool) (s : t) (requested : Z) : Z * t :=
  if negb (has_action requested InterfaceAction.elect_dr_bdr) then (requested, s)
  else
    let s' := elect memory s in
    let changed := negb (same (state_ s) (state_ s')) || negb (designated_router_ s =? designated_router_ s')
                   || negb (backup_designated_router_ s =? backup_designated_router_ s') in
    if negb changed then (requested, s')
    else
      let requested := both requested InterfaceAction.originate_router_lsa in
      let requested :=
        if same (state_ s) InterfaceState.designated || same (state_ s') InterfaceState.designated
        then both requested InterfaceAction.originate_network_lsa else requested in
      (requested, s').

Definition process_interface_deadline (memory : bool) (s : t) (now : Z) : Z * t :=
  if negb (same (state_ s) InterfaceState.waiting) || (wait_deadline_ s =? 0) || (now <? wait_deadline_ s)
  then (InterfaceAction.none, s)
  else
    let s := s <| wait_deadline_ := 0 |> in
    let transition := interface_transition (state_ s) InterfaceEvent.wait_timer (network_type (configuration_ s))
                        (router_priority (configuration_ s)) in
    apply_election memory s transition.2.

Definition neighbor_change (memory : bool) (s : t) (backup_seen : bool) : Z * t :=
  let type := network_type (configuration_ s) in
  if negb (same type NetworkType.broadcast) && negb (same type NetworkType.non_broadcast)
  then (InterfaceAction.none, s)
  else
    let transition :=
      interface_transition (state_ s)
        (if backup_seen then InterfaceEvent.backup_seen else InterfaceEvent.neighbor_change) type
        (router_priority (configuration_ s)) in
    let s := if backup_seen then s <| wait_deadline_ := 0 |> else s in
    apply_election memory s transition.2.

Definition reconcile (s : t) (now : Z) (rows : list NeighborRuntime) : list (NeighborRuntime * Z) :=
  map (fun n => neighbor_step s n NeighborEvent.adjacency_ok false now) rows.

(** Only neighbors whose machine emitted work are reported. *)
Definition reconcile_adjacencies (s : t) (clock output_size : Z) : bool * list Report * t :=
  if output_size <? size (neighbors_ s) then (false, [], s)
  else
    let rows := reconcile s clock (neighbors_ s) in
    (true,
     map (fun row => (n_router_id row.1, row.2)) (List.filter (fun row => negb (row.2 =? NeighborAction.none)) rows),
     s <| neighbors_ := map fst rows |>).

(** ** Hello output *)

Definition earlier (result : option Z) (deadline : Z) : option Z :=
  match result with
  | Some r => if deadline <? r then Some deadline else Some r
  | None => Some deadline
  end.

Definition next_deadline (s : t) : option Z :=
  let c := configuration_ s in
  let result := if enabled c && negb (passive c) && negb (same (network_type c) NetworkType.non_broadcast)
                then Some (hello_deadline_ s) else None in
  let result := if same (state_ s) InterfaceState.waiting && negb (wait_deadline_ s =? 0)
                then earlier result (wait_deadline_ s) else result in
  fold_left (fun result n => if same (n_state n) NeighborState.down then result
                             else earlier result (inactivity_deadline n)) (neighbors_ s) result.

Definition hello_due (s : t) (now : Z) : bool :=
  let c := configuration_ s in
  enabled c && negb (passive c) && negb (same (network_type c) NetworkType.non_broadcast)
  && negb (same (state_ s) InterfaceState.down) && negb (same (state_ s) InterfaceState.loopback)
  && (hello_deadline_ s <=? now).

Definition hello_sent (s : t) (now : Z) : t :=
  s <| hello_deadline_ := now + Catalog.seconds (hello_interval_seconds (configuration_ s)) |>.

Definition fixed_octets : Z := 20.

Definition advertised (n : NeighborRuntime) : bool :=
  negb (same (n_state n) NeighborState.down) && negb (same (n_state n) NeighborState.attempt).

Fixpoint write_neighbors (payload : list Z) (output_index : Z) (rows : list NeighborRuntime) : list Z :=
  match rows with
  | [] => payload
  | n :: rows =>
      if advertised n
      then write_neighbors (write32 payload (fixed_octets + output_index * 4) (n_router_id n)) (output_index + 1) rows
      else write_neighbors payload output_index rows
  end.

Definition write_fixed (s : t) (payload : list Z) : list Z :=
  let c := configuration_ s in
  let payload :=
    if version c =? version_two then
      let payload := write32 payload 0 (network_mask c) in
      let payload := write16 payload 4 (hello_interval_seconds c) in
      let payload := put payload 6 (u8 (options_ c)) in
      let payload := put payload 7 (router_priority c) in
      write32 payload 8 (dead_interval_seconds c)
    else
      let payload := write32 payload 0 (interface_id_ c) in
      let payload := put payload 4 (router_priority c) in
      let payload := write24 payload 5 (options_ c) in
      let payload := write16 payload 8 (hello_interval_seconds c) in
      write16 payload 10 (dead_interval_seconds c) in
  write32 (write32 payload 12 (designated_router_ s)) 16 (backup_designated_router_ s).

(** The octets of the payload, the first [required] ones of an output of the
    given size. *)
Definition encode_hello_payload (s : t) (output_size : Z) : option (list Z) :=
  let advertised_neighbors := size (List.filter advertised (neighbors_ s)) in
  let required := fixed_octets + advertised_neighbors * 4 in
  if negb (enabled (configuration_ s)) || passive (configuration_ s) || (output_size <? required)
     || ((65535 - fixed_octets) / 4 <? advertised_neighbors) then None
  else Some (write_neighbors (write_fixed s (replicate (Z.to_nat required) 0)) 0 (neighbors_ s)).

(** ** Owner events *)

Definition apply_neighbor_event (s : t) (router_id : Z) (event : NeighborEvent.t) (requests_pending : bool)
    (clock : Z) : option (NeighborState.t * Z) * t :=
  match find_neighbor router_id (neighbors_ s) with
  | None => (None, s)
  | Some (i, found) =>
      let '(n, actions) := neighbor_step s found event requests_pending clock in
      let n := if has_action actions NeighborAction.stop_inactivity_timer
               then n <| inactivity_deadline := 0 |> else n in
      (Some (n_state n, actions), s <| neighbors_ := <[i := n]> (neighbors_ s) |>)
  end.

Definition erase_neighbor (s : t) (router_id : Z) : bool * t :=
  match find_neighbor router_id (neighbors_ s) with
  | None => (false, s)
  | Some (i, _) => (true, s <| neighbors_ := delete i (neighbors_ s) |>)
  end.

(** ** Checkpoint *)

(** Durations in milliseconds *)
Definition remaining (now deadline : Z) : Z :=
  if (deadline =? 0) || (deadline <=? now) then 0 else cdiv (deadline - now) 1000000.

Definition elapsed (now point : Z) : Z :=
  if (point =? 0) || (now <? point) then 0 else cdiv (now - point) 1000000.

Definition save_neighbor (now : Z) (n : NeighborRuntime) : NeighborRuntime :=
  n <| inactivity_deadline := Catalog.milliseconds (remaining now (inactivity_deadline n)) |>
    <| state_since := Catalog.milliseconds (elapsed now (state_since n)) |>
    <| last_event_at := Catalog.milliseconds (elapsed now (last_event_at n)) |>
    <| last_restart_at := Catalog.milliseconds (elapsed now (last_restart_at n)) |>.

Definition checkpoint (s : t) (now : Z) : InterfaceRuntimeCheckpoint :=
  mkCheckpoint (configuration_ s) (map (save_neighbor now) (neighbors_ s)) (remaining now (hello_deadline_ s))
    (remaining now (wait_deadline_ s)) (state_ s) (designated_router_ s) (backup_designated_router_ s).

(** [duration == 0 ? {} : now + duration], and the same before [now] *)
Definition deadline_after (now duration : Z) : Z :=
  if duration =? 0 then 0 else now + Catalog.milliseconds duration.
Definition point_before (now duration : Z) : Z :=
  if duration =? 0 then 0 else now - Catalog.milliseconds duration.

Definition since_epoch (point : Z) : Z := cdiv point 1000000.

Definition restore_neighbor (now : Z) (n : NeighborRuntime) : NeighborRuntime :=
  n <| inactivity_deadline := deadline_after now (since_epoch (inactivity_deadline n)) |>
    <| state_since := point_before now (since_epoch (state_since n)) |>
    <| last_event_at := point_before now (since_epoch (last_event_at n)) |>
    <| last_restart_at := point_before now (since_epoch (last_restart_at n)) |>.

Definition neighbor_valid (prior : list Z) (n : NeighborRuntime) : bool :=
  negb ((since_epoch (inactivity_deadline n) <? 0) || (since_epoch (state_since n) <? 0)
        || (since_epoch (last_event_at n) <? 0) || (since_epoch (last_restart_at n) <? 0)
        || (n_router_id n =? 0) || existsb (Z.eqb (n_router_id n)) prior).

Fixpoint restore_neighbors (now : Z) (prior : list Z) (rows : list NeighborRuntime)
    : option (list NeighborRuntime) :=
  match rows with
  | [] => Some []
  | n :: rows =>
      if neighbor_valid prior n then
        rest ← restore_neighbors now (prior ++ [n_router_id n]) rows; Some (restore_neighbor now n :: rest)
      else None
  end.

Definition restore (memory : bool) (s : t) (c : InterfaceRuntimeCheckpoint) (now : Z) : bool * t :=
  if negb (same (c_configuration c) (configuration_ s)) || (maximum_neighbors_ s <? size (c_neighbors c))
     || (hello_remaining c <? 0) || (wait_remaining c <? 0) then (false, s)
  else if negb memory then (false, s)
  else
    match restore_neighbors now [] (c_neighbors c) with
    | None => (false, s)
    | Some staged =>
        (true,
         s <| neighbors_ := staged |> <| hello_deadline_ := deadline_after now (hello_remaining c) |>
           <| wait_deadline_ := deadline_after now (wait_remaining c) |> <| state_ := c_state c |>
           <| designated_router_ := c_designated_router c |>
           <| backup_designated_router_ := c_backup_designated_router c |>)
    end.

(** ** Basic facts *)

(** The row of a neighbor. *)
Definition row (s : t) (router_id : Z) : option NeighborRuntime := snd <$> find_neighbor router_id (neighbors_ s).

Lemma find_neighbor_some r l i n :
  find_neighbor r l = Some (i, n) ->
  l !! i = Some n /\ n_router_id n = r /\ forall j x, (j < i)%nat -> l !! j = Some x -> n_router_id x <> r.
Proof. intros H. apply list_find_Some in H as (H1 & H2 & H3). split_and!; [done..|]. intros j x Hj Hx. now apply (H3 j). Qed.

Lemma find_neighbor_none r l : find_neighbor r l = None -> forall n, n ∈ l -> n_router_id n <> r.
Proof. intros H n Hn. apply list_find_None in H. rewrite list.Forall_forall in H. now apply H. Qed.

Lemma find_neighbor_cons r n l :
  find_neighbor r (n :: l)
  = if decide (n_router_id n = r) then Some (0%nat, n) else prod_map S id <$> find_neighbor r l.
Proof. reflexivity. Qed.

Lemma snd_shift (o : option (nat * NeighborRuntime)) : snd <$> (prod_map S id <$> o) = snd <$> o.
Proof. now destruct o. Qed.

(** A row written back is found under its identifier, and no other row moves. *)
Lemma find_neighbor_insert l i found n r :
  find_neighbor (n_router_id n) l = Some (i, found) ->
  snd <$> find_neighbor r (<[i := n]> l) = if decide (r = n_router_id n) then Some n else snd <$> find_neighbor r l.
Proof.
  revert i. induction l as [|x l IH]; intros i; [done|]. rewrite find_neighbor_cons.
  destruct (decide (n_router_id x = n_router_id n)) as [E|E].
  - intros [= <- <-]. cbn [insert list_insert]. rewrite !find_neighbor_cons.
    destruct (decide (r = n_router_id n)) as [->|N]; [now rewrite decide_True|].
    rewrite !decide_False by congruence. done.
  - destruct (find_neighbor _ l) as [[j y]|] eqn:F; [|done]. cbn [prod_map fmap option_fmap option_map id]. intros [= <- <-]. cbn [insert list_insert].
    assert (IH' := IH j ltac:(congruence)). rewrite !find_neighbor_cons.
    destruct (decide (n_router_id x = r)) as [Er|Nr].
    + rewrite decide_False by congruence. done.
    + rewrite !snd_shift. exact IH'.
Qed.

Lemma find_neighbor_app l n r :
  find_neighbor (n_router_id n) l = None ->
  snd <$> find_neighbor r (l ++ [n]) = if decide (r = n_router_id n) then Some n else snd <$> find_neighbor r l.
Proof.
  induction l as [|x l IH]; cbn [app]; rewrite ?find_neighbor_cons.
  - intros _. destruct (decide (n_router_id n = r)) as [E|E]; [now rewrite decide_True|].
    now rewrite decide_False.
  - destruct (decide (n_router_id x = n_router_id n)) as [E|E]; [done|]. destruct (find_neighbor _ l) eqn:F; [done|]. intros _. specialize (IH eq_refl).
    destruct (decide (n_router_id x = r)) as [Er|Nr].
    + rewrite decide_False by congruence. done.
    + rewrite !snd_shift. exact IH.
Qed.

(** The accounting of an event changes only the state and the counters. *)
Lemma record_fields n event transition now :
  let n' := record_neighbor_event n event transition now in
  n_router_id n' = n_router_id n /\ n_election_identity n' = n_election_identity n
  /\ n_priority n' = n_priority n /\ n_designated_router n' = n_designated_router n
  /\ n_backup_designated_router n' = n_backup_designated_router n /\ n_options n' = n_options n
  /\ n_interface_id n' = n_interface_id n /\ inactivity_deadline n' = inactivity_deadline n
  /\ n_state n' = transition.1.
Proof.
  cbn zeta. unfold record_neighbor_event.
  repeat match goal with |- context [if ?b then _ else _] => destruct b end; split_and!; reflexivity.
Qed.

(** What the events of an accepted Hello do to the state of a neighbor. *)
Lemma hello_events (current : NeighborState.t) (required seen : bool) :
  let s1 := (neighbor_transition current NeighborEvent.hello_received required false).1 in
  let s2 := (neighbor_transition s1 (if seen then NeighborEvent.two_way_received else NeighborEvent.one_way_received)
               required false).1 in
  NeighborState.at_least s2 NeighborState.two_way = seen /\ NeighborState.at_least s2 NeighborState.init = true.
Proof. destruct current, required, seen; vm_compute; split; reflexivity. Qed.

Lemma process_hello_row s packet body identity now found :
  let n := (process_hello s packet body identity now found).1 in
  n_router_id n = n_router_id found /\ n_election_identity n = identity /\ n_priority n = h_router_priority body
  /\ n_designated_router n = h_designated_router body
  /\ n_backup_designated_router n = h_backup_designated_router body
  /\ inactivity_deadline n = now + Catalog.seconds (dead_interval_seconds (configuration_ s))
  /\ NeighborState.at_least (n_state n) NeighborState.two_way = seen_self body (router_id_ (configuration_ s))
  /\ NeighborState.at_least (n_state n) NeighborState.init = true.
Proof.
  cbn zeta. unfold process_hello, neighbor_step.
  set (n0 := (store_hello s packet body identity found)
              <| inactivity_deadline := now + Catalog.seconds (dead_interval_seconds (configuration_ s)) |>).
  set (t1 := neighbor_transition (n_state n0) NeighborEvent.hello_received (adjacency_required s n0) false).
  destruct (record_fields n0 NeighborEvent.hello_received t1 now) as (R1 & R2 & R3 & R4 & R5 & _ & _ & R8 & R9).
  set (n1 := record_neighbor_event n0 NeighborEvent.hello_received t1 now) in *.
  set (event := if seen_self body (router_id_ (configuration_ s)) then NeighborEvent.two_way_received else NeighborEvent.one_way_received).
  set (t2 := neighbor_transition (n_state n1) event (adjacency_required s n1) false).
  destruct (record_fields n1 event t2 now) as (Q1 & Q2 & Q3 & Q4 & Q5 & _ & _ & Q8 & Q9).
  cbn [fst]. rewrite Q1, Q2, Q3, Q4, Q5, Q8, Q9, R1, R2, R3, R4, R5, R8. unfold n0, store_hello.
  split_and!; try (destruct (p_version packet =? version_three); reflexivity).
  - (* both events see the same answer about the adjacency *)
    assert (adjacency_required s n1 = adjacency_required s n0) as Ea by (unfold adjacency_required; now rewrite R2).
    unfold t2. rewrite Ea, R9. apply (hello_events (n_state n0) (adjacency_required s n0) (seen_self body _)).
  - assert (adjacency_required s n1 = adjacency_required s n0) as Ea by (unfold adjacency_required; now rewrite R2).
    unfold t2. rewrite Ea, R9. apply (hello_events (n_state n0) (adjacency_required s n0) (seen_self body _)).
Qed.

End OspfInterface.
