(* ===== verification/OspfDiscovery.v ===== *)
(** * Hellos between two interfaces

    The Hello an interface encodes parses to its fields and its neighbors, for both
    versions of the protocol; two interfaces that agree on the parameters of their
    network discover each other in three Hellos. *)

From S2P Require Import Prelude Arena Catalog OspfFsm OspfHello OspfInterface.

Module OspfDiscovery.
Import Arena OspfFsm OspfHello OspfInterface.
#[local] Existing Instance NeighborRuntime_settable.
#[local] Existing Instance OspfInterface.t_settable.

(** ** The octets of a Hello *)

Definition fixed_bytes (s : OspfInterface.t) : list Z :=
  let c := configuration_ s in
  (if version c =? version_two
   then be32 (network_mask c) ++ be16 (hello_interval_seconds c) ++ [u8 (options_ c); router_priority c]
          ++ be32 (dead_interval_seconds c)
   else be32 (interface_id_ c) ++ [router_priority c] ++ be24 (options_ c) ++ be16 (hello_interval_seconds c)
          ++ be16 (dead_interval_seconds c))
  ++ be32 (designated_router_ s) ++ be32 (backup_designated_router_ s).

Definition known (s : OspfInterface.t) : list Z := map n_router_id (List.filter advertised (neighbors_ s)).

Definition ids_bytes (ids : list Z) : list Z := flat_map be32 ids.

Lemma length_fixed_bytes s : length (fixed_bytes s) = 20%nat.
Proof. unfold fixed_bytes. now destruct (version _ =? version_two). Qed.

Lemma write_fixed_bytes s m : write_fixed s (replicate (20 + m) 0) = fixed_bytes s ++ replicate m 0.
Proof.
  unfold write_fixed, fixed_bytes. destruct (version (configuration_ s) =? version_two); reflexivity.
Qed.

Lemma put_app pre (x y : Z) rest : put (pre ++ x :: rest) (size pre) y = pre ++ y :: rest.
Proof.
  unfold put, size. rewrite Nat2Z.id. replace (length pre) with (length pre + 0)%nat by lia. now rewrite insert_app_r.
Qed.

Lemma write32_app pre a b c d rest v :
  write32 (pre ++ a :: b :: c :: d :: rest) (size pre) v = pre ++ be32 v ++ rest.
Proof.
  unfold write32, be32. rewrite put_app.
  assert (forall (x : Z) l, pre ++ x :: l = (pre ++ [x]) ++ l) as A by (intros; now rewrite <- app_assoc).
  assert (forall (l : list Z) x, size (l ++ [x]) = size l + 1) as S1 by (intros; rewrite size_app; reflexivity).
  rewrite A. replace (size pre + 1) with (size (pre ++ [u8 (Z.shiftr v 24)])) by (rewrite S1; lia).
  rewrite put_app. set (p1 := pre ++ _).
  replace (size pre + 2) with (size (p1 ++ [u8 (Z.shiftr v 16)])) by (unfold p1; rewrite !S1; lia).
  replace (p1 ++ u8 (Z.shiftr v 16) :: c :: d :: rest) with ((p1 ++ [u8 (Z.shiftr v 16)]) ++ c :: d :: rest)
    by now rewrite <- app_assoc.
  rewrite put_app. set (p2 := p1 ++ _).
  replace (size pre + 3) with (size (p2 ++ [u8 (Z.shiftr v 8)])) by (unfold p2, p1; rewrite !S1; lia).
  replace (p2 ++ u8 (Z.shiftr v 8) :: d :: rest) with ((p2 ++ [u8 (Z.shiftr v 8)]) ++ d :: rest)
    by now rewrite <- app_assoc.
  rewrite put_app. unfold p2, p1. now rewrite <- !app_assoc.
Qed.

Lemma write_neighbors_bytes rows : forall pre index,
  size pre = fixed_octets + index * 4 ->
  write_neighbors (pre ++ replicate (4 * length (List.filter advertised rows)) 0) index rows
  = pre ++ ids_bytes (map n_router_id (List.filter advertised rows)).
Proof.
  induction rows as [|n rows IH]; intros pre index Hs; [done|]. cbn [write_neighbors List.filter].
  destruct (advertised n); [|now apply IH]. cbn [length map ids_bytes flat_map].
  replace (4 * S (length (List.filter advertised rows)))%nat with (4 + 4 * length (List.filter advertised rows))%nat by lia.
  rewrite replicate_add, <- Hs. cbn [replicate app]. rewrite write32_app, app_assoc, IH; [now rewrite <- app_assoc|].
  rewrite size_app, Hs. unfold size. cbn. lia.
Qed.

Lemma encode_hello_bytes s output_size bytes :
  encode_hello_payload s output_size = Some bytes -> bytes = fixed_bytes s ++ ids_bytes (known s).
Proof.
  unfold encode_hello_payload. destruct (_ || _); [done|]. intros [= <-].
  replace (Z.to_nat (fixed_octets + size (List.filter advertised (neighbors_ s)) * 4))
    with (20 + 4 * length (List.filter advertised (neighbors_ s)))%nat by (unfold size, fixed_octets; lia).
  rewrite write_fixed_bytes. apply (write_neighbors_bytes _ _ 0). unfold size, fixed_octets. now rewrite length_fixed_bytes.
Qed.

(** ** Reading it back *)

Lemma length_ids_bytes ids : length (ids_bytes ids) = (4 * length ids)%nat.
Proof. induction ids as [|i l IH]; [done|]. cbn [ids_bytes flat_map]. rewrite length_app. unfold ids_bytes in IH. rewrite IH. cbn. lia. Qed.

Lemma get_drop (l : list Z) k i : 0 <= i -> 0 <= k -> get l (k + i) = get (drop (Z.to_nat k) l) i.
Proof. intros. unfold get. rewrite lookup_total_drop. f_equal. lia. Qed.

Lemma read32_ids ids k :
  Forall is_u32 ids -> (k < length ids)%nat -> ids !! k = Some (read32 (ids_bytes ids) (Z.of_nat k * 4)).
Proof.
  revert k. induction ids as [|i ids IH]; intros k H Hk; [cbn in Hk; lia|].
  apply list.Forall_cons in H as [Hi H]. destruct k as [|k].
  - cbn [lookup list_lookup]. symmetry. f_equal. exact (be32_read i Hi).
  - cbn [lookup list_lookup length] in *. rewrite IH by (done || lia). f_equal.
    unfold read32. cbn [ids_bytes flat_map].
    replace (Z.of_nat (S k) * 4) with (4 + Z.of_nat k * 4) by lia.
    rewrite <- !Z.add_assoc, !(get_drop (be32 i ++ _) 4) by lia. reflexivity.
Qed.

Lemma hello_neighbor_ids h ids k :
  h_neighbors h = ids_bytes ids -> Forall is_u32 ids -> hello_neighbor h (Z.of_nat k) = ids !! k.
Proof.
  intros Hh H. unfold hello_neighbor. rewrite Hh. unfold size. rewrite length_ids_bytes.
  replace (Z.of_nat (4 * length ids) / 4) with (Z.of_nat (length ids)) by lia.
  destruct (Z.leb_spec (Z.of_nat (length ids)) (Z.of_nat k)) as [L|L].
  - symmetry. apply lookup_ge_None_2. lia.
  - symmetry. apply read32_ids; [done|lia].
Qed.

Lemma lists_router_ids h ids r : h_neighbors h = ids_bytes ids -> Forall is_u32 ids ->
  forall fuel k, (length ids <= k + fuel)%nat ->
  lists_router fuel h (Z.of_nat k) r = bool_decide (r ∈ drop k ids).
Proof.
  intros Hh H. induction fuel as [|fuel IH]; intros k L; cbn [lists_router].
  - rewrite drop_ge by lia. now rewrite bool_decide_eq_false_2 by (intros E; inversion E).
  - rewrite (hello_neighbor_ids h ids k Hh H), Hh. unfold size at 1. rewrite length_ids_bytes.
    replace (Z.of_nat (4 * length ids) / 4) with (Z.of_nat (length ids)) by lia.
    destruct (Z.leb_spec (Z.of_nat (length ids)) (Z.of_nat k)) as [G|G].
    { rewrite drop_ge by lia. now rewrite bool_decide_eq_false_2 by (intros E; inversion E). }
    destruct (lookup_lt_is_Some_2 ids k) as [x Ex]; [lia|]. rewrite (drop_S ids x k Ex), Ex.
    destruct (decide (x = r)) as [->|N].
    + rewrite !bool_decide_eq_true_2; [done|constructor|done].
    + rewrite bool_decide_eq_false_2 by congruence. replace (Z.of_nat k + 1) with (Z.of_nat (S k)) by lia.
      rewrite IH by lia. apply bool_decide_ext. rewrite elem_of_cons. intuition congruence.
Qed.

Lemma seen_self_ids h ids r :
  h_neighbors h = ids_bytes ids -> Forall is_u32 ids -> seen_self h r = bool_decide (r ∈ ids).
Proof.
  intros Hh H. unfold seen_self. rewrite Hh at 1. change 0 with (Z.of_nat 0).
  rewrite (lists_router_ids h ids r Hh H); [done|]. rewrite length_ids_bytes. lia.
Qed.

(** ** The configuration's widths *)

Record typed (s : OspfInterface.t) : Prop := {
  typed_mask : is_u32 (network_mask (configuration_ s));
  typed_interface : is_u32 (interface_id_ (configuration_ s));
  typed_options : 0 <= options_ (configuration_ s) < (if version (configuration_ s) =? version_two then 256 else 16777216);
  typed_hello : is_u16 (hello_interval_seconds (configuration_ s));
  typed_dead : is_u16 (dead_interval_seconds (configuration_ s));
  typed_priority : is_u8 (router_priority (configuration_ s));
  typed_version : version (configuration_ s) = version_two \/ version (configuration_ s) = version_three;
  typed_dr : is_u32 (designated_router_ s);
  typed_bdr : is_u32 (backup_designated_router_ s);
  typed_ids : Forall (fun n => is_u32 (n_router_id n)) (neighbors_ s)
}.

Lemma typed_known s : typed s -> Forall is_u32 (known s).
Proof.
  intros [_ _ _ _ _ _ _ _ _ H]. unfold known. apply List.Forall_forall. rewrite List.Forall_forall in H.
  intros x Hx. apply in_map_iff in Hx as (n & <- & Hn). apply filter_In in Hn as [Hn _]. now apply H.
Qed.

(** What the peer reads in a Hello of this interface. *)
Definition hello_view (s : OspfInterface.t) : HelloView :=
  let c := configuration_ s in
  mkHello (if version c =? version_two then network_mask c else 0) (if version c =? version_two then 0 else interface_id_ c)
    (designated_router_ s) (backup_designated_router_ s) (ids_bytes (known s)) (dead_interval_seconds c) (options_ c)
    (hello_interval_seconds c) (router_priority c) (version c).

Definition hello_packet (s : OspfInterface.t) (bytes : list Z) : PacketView :=
  let c := configuration_ s in mkPacket bytes (router_id_ c) (area_id c) hello (version c) (instance_id c).

Lemma parse_hello_fixed s bytes :
  typed s -> bytes = fixed_bytes s ++ ids_bytes (known s) -> parse_hello (hello_packet s bytes) = Some (hello_view s).
Proof.
  intros [Tm Ti To Th Td Tp Tv Tr Tb _] ->. unfold parse_hello, hello_packet. cbn [payload p_type p_version].
  unfold size. rewrite bool_decide_eq_true_2, length_app, length_fixed_bytes, length_ids_bytes by done. cbn [negb orb].
  rewrite (proj2 (Z.ltb_ge _ 20)) by lia.
  replace ((Z.of_nat (20 + 4 * length (known s)) - 20) mod 4) with 0 by lia. cbn [Z.eqb negb orb].
  unfold hello_view, fixed_bytes. destruct Tv as [Ev|Ev]; rewrite Ev in *; cbn [Z.eqb version_two version_three Pos.eqb].
  all: f_equal; f_equal.
  all: try reflexivity.
  all: try (exact (be32_read _ Tm) || exact (be32_read _ Ti) || exact (be32_read _ Tr) || exact (be32_read _ Tb)
            || exact (be16_read _ Th) || exact (be16_read _ Td) || exact (be24_read _ To)).
  - apply be32_read. unfold is_u16, is_u32 in *. lia.
  - apply Z.mod_small. exact To.
Qed.

Lemma hello_view_neighbors s k : typed s -> hello_neighbor (hello_view s) (Z.of_nat k) = known s !! k.
Proof. intros T. apply hello_neighbor_ids; [done|now apply typed_known]. Qed.

Lemma hello_view_seen s r : typed s -> seen_self (hello_view s) r = bool_decide (r ∈ known s).
Proof. intros T. apply seen_self_ids; [done|now apply typed_known]. Qed.

(** ** Interfaces of one network *)

(** The identity under which a router is elected: its address, or its router
    identifier in version 3. *)
Definition wire_identity (s : OspfInterface.t) : Z :=
  let c := configuration_ s in if version c =? version_two then local_election_identity c else router_id_ c.

(** [me] can hear [peer]: it runs, and the parameters of the network agree. *)
Record hears (me peer : OspfInterface.t) : Prop := {
  hears_up : state_ me <> InterfaceState.down /\ state_ me <> InterfaceState.loopback;
  hears_enabled : enabled (configuration_ me) = true /\ passive (configuration_ me) = false;
  hears_router : router_id_ (configuration_ peer) <> router_id_ (configuration_ me);
  hears_identity : wire_identity peer <> 0;
  hears_area : area_id (configuration_ peer) = area_id (configuration_ me);
  hears_version : version (configuration_ peer) = version (configuration_ me);
  hears_instance : version (configuration_ me) = version_three ->
    instance_id (configuration_ peer) = instance_id (configuration_ me);
  hears_hello : hello_interval_seconds (configuration_ peer) = hello_interval_seconds (configuration_ me);
  hears_dead : dead_interval_seconds (configuration_ peer) = dead_interval_seconds (configuration_ me);
  hears_mask : version (configuration_ me) = version_two ->
    network_mask (configuration_ peer) = network_mask (configuration_ me)
    \/ network_type (configuration_ me) = NetworkType.point_to_point
    \/ network_type (configuration_ me) = NetworkType.virtual_link;
  hears_options : options_ (configuration_ peer) = options_ (configuration_ me)
}.

Lemma admit_hello_hears me peer bytes :
  hears me peer -> typed peer -> bytes = fixed_bytes peer ++ ids_bytes (known peer) ->
  admit_hello me (hello_packet peer bytes) (wire_identity peer) = inr (hello_view peer).
Proof.
  intros [[U1 U2] [Ee Ep] Nr Ni Ea Ev Ei Eh Ed Em Eo] T Hb. unfold admit_hello.
  rewrite (parse_hello_fixed peer bytes T Hb), Ee, Ep. cbn [negb orb]. unfold same.
  rewrite !bool_decide_eq_false_2 by done.
  cbn [orb p_router_id p_area_id p_version p_instance_id hello_packet h_hello_interval_seconds
    h_dead_interval_seconds h_network_mask h_options hello_view].
  rewrite (proj2 (Z.eqb_neq _ _) Nr), (proj2 (Z.eqb_neq _ _) Ni), Ea, Ev, Eh, Ed, Eo, !Z.eqb_refl. cbn [negb orb].
  replace ((version (configuration_ me) =? version_three)
           && negb (instance_id (configuration_ peer) =? instance_id (configuration_ me))) with false.
  2: { symmetry. destruct (Z.eqb_spec (version (configuration_ me)) version_three) as [E|]; [|done].
       now rewrite (Ei E), Z.eqb_refl. }
  match goal with |- (if ?b then _ else _) = _ => replace b with false end.
  2: { symmetry. destruct (Z.eqb_spec (version (configuration_ me)) version_two) as [E|]; [|done]. cbn [andb].
       destruct (Em E) as [->|[->| ->]]; [now rewrite Z.eqb_refl| |]; now rewrite ?andb_false_r. }
  match goal with |- (if ?b then _ else _) = _ => replace b with false; [done|] end.
  symmetry. now destruct (Z.land (options_ (configuration_ me)) option_address_family =? 0); rewrite ?andb_false_r.
Qed.

(** ** One Hello *)

(** There is a row for the sender, or room for one. *)
Definition room (s : OspfInterface.t) (r : Z) : Prop :=
  row s r <> None \/ size (neighbors_ s) < maximum_neighbors_ s.

Lemma rows_insert (l : list NeighborRuntime) i n x : x ∈ <[i := n]> l -> x = n \/ x ∈ l.
Proof.
  intros (j & H)%list_elem_of_lookup. apply list_lookup_insert_Some in H as [(_ & -> & _)|[_ H]]; [now left|right].
  now apply list_elem_of_lookup_2 in H.
Qed.

Lemma receive_accepted s packet body identity now :
  admit_hello s packet identity = inr body -> room s (p_router_id packet) ->
  exists found,
    (row s (p_router_id packet) = Some found
     \/ row s (p_router_id packet) = None /\ found = new_neighbor (p_router_id packet) now)
    /\ n_router_id found = p_router_id packet
    /\ let '(n, result) := process_hello s packet body identity now found in
       let '(result', s') := receive_hello true s packet identity now in
       result' = result
       /\ (exists rows, s' = s <| neighbors_ := rows |>
             /\ (forall x, x ∈ rows -> x = n \/ x ∈ neighbors_ s)
             /\ size rows <= size (neighbors_ s) + 1)
       /\ forall r, row s' r = if decide (r = p_router_id packet) then Some n else row s r.
Proof.
  intros A R. unfold receive_hello. rewrite A. unfold room, row in *.
  destruct (find_neighbor (p_router_id packet) (neighbors_ s)) as [[i found]|] eqn:F.
  - exists found. split; [now left|]. destruct (find_neighbor_some _ _ _ _ F) as (_ & Ef & _). split; [done|].
    pose proof (process_hello_row s packet body identity now found) as (P & _). cbn zeta in P.
    destruct (process_hello s packet body identity now found) as [n result]. cbn [fst] in P.
    split; [done|]. split.
    { eexists. split; [reflexivity|]. split; [intros x Hx; apply rows_insert in Hx; tauto|].
      unfold size. rewrite length_insert. lia. }
    intros r. cbn [neighbors_ set_field t_settable eta].
    replace (p_router_id packet) with (n_router_id n) by congruence.
    rewrite <- Ef, <- P in F. exact (find_neighbor_insert _ _ _ n r F).
  - exists (new_neighbor (p_router_id packet) now). split; [now right|]. split; [done|].
    destruct R as [R|R]; [done|]. replace (size (neighbors_ s) =? maximum_neighbors_ s) with false by lia. cbn [negb orb].
    pose proof (process_hello_row s packet body identity now (new_neighbor (p_router_id packet) now)) as (P & _).
    cbn zeta in P. destruct (process_hello s packet body identity now _) as [n result]. cbn [fst] in P.
    split; [done|]. split.
    { eexists. split; [reflexivity|]. split; [|unfold size; rewrite length_app; cbn; lia].
      intros x [Hx|Hx%list_elem_of_singleton]%elem_of_app; [now right|now left]. }
    intros r. cbn [neighbors_ set_field t_settable eta].
    change (n_router_id (new_neighbor (p_router_id packet) now)) with (p_router_id packet) in P.
    rewrite <- P in F |- *. exact (find_neighbor_app _ n r F).
Qed.

(** ** Delivery *)

Definition transmit (from to : OspfInterface.t) (output_size now : Z) : option (HelloResult * OspfInterface.t) :=
  bytes ← encode_hello_payload from output_size;
  Some (receive_hello true to (hello_packet from bytes) (wire_identity from) now).

(** The output holds a Hello with one neighbor more. *)
Definition fits (s : OspfInterface.t) (output_size : Z) : Prop :=
  fixed_octets + (size (neighbors_ s) + 1) * 4 <= output_size /\ size (neighbors_ s) < 16378.

Lemma advertised_count s : size (List.filter advertised (neighbors_ s)) <= size (neighbors_ s).
Proof. unfold size. pose proof (filter_length_le advertised (neighbors_ s)). lia. Qed.

Lemma encode_hello_total s output_size :
  enabled (configuration_ s) = true -> passive (configuration_ s) = false ->
  fixed_octets + size (neighbors_ s) * 4 <= output_size -> size (neighbors_ s) <= 16378 ->
  exists bytes, encode_hello_payload s output_size = Some bytes.
Proof.
  intros E P F L. pose proof (advertised_count s) as C. unfold encode_hello_payload. rewrite E, P. cbn [negb orb].
  rewrite (proj2 (Z.ltb_ge output_size _)) by lia. rewrite (proj2 (Z.ltb_ge _ _)); [now eexists|].
  change ((65535 - fixed_octets) / 4) with 16378. lia.
Qed.

(** The neighbor is heard both ways. *)
Definition bidirectional (s : OspfInterface.t) (r : Z) : Prop :=
  exists n, row s r = Some n /\ NeighborState.at_least (n_state n) NeighborState.two_way = true.

Lemma advertised_at_least n : NeighborState.at_least (n_state n) NeighborState.init = true -> advertised n = true.
Proof. unfold advertised. destruct (n_state n); (reflexivity || discriminate). Qed.

Lemma row_known s r n :
  row s r = Some n -> NeighborState.at_least (n_state n) NeighborState.init = true -> r ∈ known s.
Proof.
  intros H A. unfold row in H. destruct (find_neighbor r (neighbors_ s)) as [[i m]|] eqn:F; [|done].
  injection H as ->. destruct (find_neighbor_some _ _ _ _ F) as (Hi & <- & _). unfold known.
  apply list_elem_of_In, in_map, filter_In. split; [|now apply advertised_at_least].
  apply list_elem_of_In. now apply list_elem_of_lookup_2 in Hi.
Qed.

(** The row that a Hello of [from] leaves. *)
Definition learned (n : NeighborRuntime) (from to : OspfInterface.t) (now : Z) : Prop :=
  n_election_identity n = wire_identity from /\ n_priority n = router_priority (configuration_ from)
  /\ n_designated_router n = designated_router_ from
  /\ n_backup_designated_router n = backup_designated_router_ from
  /\ inactivity_deadline n = now + Catalog.seconds (dead_interval_seconds (configuration_ to)).

Lemma transmit_accepted from to output_size now :
  typed from -> typed to -> is_u32 (router_id_ (configuration_ from)) -> hears to from ->
  enabled (configuration_ from) = true -> passive (configuration_ from) = false ->
  room to (router_id_ (configuration_ from)) ->
  fixed_octets + size (neighbors_ from) * 4 <= output_size -> size (neighbors_ from) <= 16378 ->
  exists r rows n,
    transmit from to output_size now = Some (r, to <| neighbors_ := rows |>) /\ disposition r = accepted
    /\ size rows <= size (neighbors_ to) + 1 /\ typed (to <| neighbors_ := rows |>)
    /\ row (to <| neighbors_ := rows |>) (router_id_ (configuration_ from)) = Some n
    /\ (forall x, x <> router_id_ (configuration_ from) -> row (to <| neighbors_ := rows |>) x = row to x)
    /\ learned n from to now
    /\ NeighborState.at_least (n_state n) NeighborState.two_way = bool_decide (router_id_ (configuration_ to) ∈ known from)
    /\ router_id_ (configuration_ from) ∈ known (to <| neighbors_ := rows |>).
Proof.
  intros T T' Ti H E P R F L. destruct (encode_hello_total from output_size E P F L) as [bytes Eb].
  pose proof (encode_hello_bytes _ _ _ Eb) as Hb.
  pose proof (admit_hello_hears to from bytes H T Hb) as A.
  destruct (receive_accepted to (hello_packet from bytes) (hello_view from) (wire_identity from) now A R)
    as (found & _ & Ef & X). unfold transmit. rewrite Eb. cbn [mbind option_bind].
  pose proof (process_hello_row to (hello_packet from bytes) (hello_view from) (wire_identity from) now found) as Y.
  assert (disposition (process_hello to (hello_packet from bytes) (hello_view from) (wire_identity from) now found).2
          = accepted) as D by (unfold process_hello; reflexivity).
  destruct (process_hello to _ _ _ now found) as [n result]. cbn [fst snd] in Y, D. cbn zeta in Y.
  destruct (receive_hello true to _ _ now) as [result' s']. destruct X as (-> & (rows & -> & In & S) & X).
  destruct Y as (Y1 & Y2 & Y3 & Y4 & Y5 & Y6 & Y7 & Y8). rewrite (hello_view_seen from _ T) in Y7.
  cbn [p_router_id hello_packet] in *.
  exists result, rows, n. split; [done|]. split; [done|]. split; [done|].
  assert (row (to <| neighbors_ := rows |>) (router_id_ (configuration_ from)) = Some n) as Rn by (rewrite X; now rewrite decide_True).
  split.
  { destruct T' as [K1 K2 K3 K4 K5 K6 K7 K8 K9 K10]. split; try done. cbn [neighbors_ set_field OspfInterface.t_settable eta].
    apply list.Forall_forall. intros x Hx. destruct (In x Hx) as [->|Hx']; [now rewrite Y1, Ef|].
    rewrite list.Forall_forall in K10. now apply K10. }
  split; [done|]. split; [intros x Nx; rewrite X; now rewrite decide_False|].
  split; [split_and!; done|]. split; [done|]. now apply (row_known _ _ n).
Qed.

Lemma hears_rows_peer me peer rows : hears me peer -> hears me (peer <| neighbors_ := rows |>).
Proof. intros []. now split. Qed.

Lemma hears_rows_me me peer rows : hears me peer -> hears (me <| neighbors_ := rows |>) peer.
Proof. intros []. now split. Qed.

(** Two interfaces of one network, with room for each other. *)
Record linked (a b : OspfInterface.t) (output_size : Z) : Prop := {
  linked_typed : typed a /\ typed b;
  linked_ids : is_u32 (router_id_ (configuration_ a)) /\ is_u32 (router_id_ (configuration_ b));
  linked_hears : hears a b /\ hears b a;
  linked_room : room a (router_id_ (configuration_ b)) /\ room b (router_id_ (configuration_ a));
  linked_fits : fits a output_size /\ fits b output_size
}.

(** ** Theorems *)

(** The Hello an interface encodes parses, in both versions of the protocol, to
    the interface's parameters, its declared roles and exactly the neighbors it
    has heard; it is refused only when the interface is silent, the output too
    small or the neighbors too many. *)
Theorem hello_roundtrip s output_size :
  typed s ->
  (enabled (configuration_ s) = true -> passive (configuration_ s) = false ->
   fixed_octets + size (neighbors_ s) * 4 <= output_size -> size (neighbors_ s) <= 16378 ->
   encode_hello_payload s output_size <> None)
  /\ (forall bytes, encode_hello_payload s output_size = Some bytes ->
       parse_hello (hello_packet s bytes) = Some (hello_view s)
       /\ (forall k, hello_neighbor (hello_view s) (Z.of_nat k) = known s !! k)
       /\ (forall r, seen_self (hello_view s) r = bool_decide (r ∈ known s))).
Proof.
  intros T. split.
  - intros E P F L. destruct (encode_hello_total s output_size E P F L) as [bytes ->]. done.
  - intros bytes Hb%encode_hello_bytes. split; [now apply parse_hello_fixed|].
    split; [intros k; now apply hello_view_neighbors|intros r; now apply hello_view_seen].
Qed.

(** C34: two interfaces of one network discover each other in three Hellos, whatever
    they knew before: each Hello is accepted, the second and the third find the
    receiver in their neighbor list, both sides end in 2-Way or beyond, and each
    has learned the other's identity, priority and declared roles. *)
Theorem hello_discovery a b output_size t1 t2 t3 :
  linked a b output_size ->
  exists r1 a1 r2 b1 r3 a2 n m,
    transmit b a output_size t1 = Some (r1, a1)
    /\ transmit a1 b output_size t2 = Some (r2, b1)
    /\ transmit b1 a1 output_size t3 = Some (r3, a2)
    /\ disposition r1 = accepted /\ disposition r2 = accepted /\ disposition r3 = accepted
    /\ row b1 (router_id_ (configuration_ a)) = Some n /\ learned n a b t2
    /\ row a2 (router_id_ (configuration_ b)) = Some m /\ learned m b a t3
    /\ bidirectional b1 (router_id_ (configuration_ a)) /\ bidirectional a2 (router_id_ (configuration_ b)).
Proof.
  intros [[Ta Tb] [Ia Ib] [Hab Hba] [Ra Rb] [[Fa La] [Fb Lb]]]. unfold fixed_octets in *.
  destruct (transmit_accepted b a output_size t1 Tb Ta Ib Hab) as (r1 & rows1 & n1 & E1 & D1 & S1 & T1 & Q1 & O1 & _ & _ & K1);
    try (apply Hba || done || (unfold fixed_octets; lia)).
  set (a1 := a <| neighbors_ := rows1 |>) in *.
  destruct (transmit_accepted a1 b output_size t2 T1 Tb Ia (hears_rows_peer b a rows1 Hba))
    as (r2 & rows2 & n2 & E2 & D2 & S2 & T2 & Q2 & O2 & N2 & B2 & K2);
    try (apply Hab || done || (unfold fixed_octets, a1; cbn [neighbors_ set_field OspfInterface.t_settable eta]; lia)).
  set (b1 := b <| neighbors_ := rows2 |>) in *.
  destruct (transmit_accepted b1 a1 output_size t3 T2 T1 Ib (hears_rows_me a b1 rows1 (hears_rows_peer a b rows2 Hab)))
    as (r3 & rows3 & n3 & E3 & D3 & S3 & T3 & Q3 & O3 & N3 & B3 & K3);
    try (apply Hba || (unfold fixed_octets, b1; cbn [neighbors_ set_field OspfInterface.t_settable eta]; lia)).
  { left. change (configuration_ b1) with (configuration_ b). now rewrite Q1. }
  change (configuration_ b1) with (configuration_ b) in *. change (configuration_ a1) with (configuration_ a) in *.
  rewrite bool_decide_eq_true_2 in B2 by exact K1. rewrite bool_decide_eq_true_2 in B3 by exact K2.
  exists r1, a1, r2, b1, r3, (a1 <| neighbors_ := rows3 |>), n2, n3.
  split_and!; try done; eexists; eauto.
Qed.

(** Two routers of a version 2 broadcast network. *)
Definition sample_configuration (id address : Z) : InterfaceConfiguration :=
  mkConfiguration id 0 1 4294967040 address 2 10 40 1500 1 2 0 NetworkType.broadcast false true.
Definition sample_interface (id address : Z) : OspfInterface.t := construct (sample_configuration id address) 8 1000.

Definition left_interface : OspfInterface.t := Eval vm_compute in sample_interface 1 167772161.
Definition right_interface : OspfInterface.t := Eval vm_compute in sample_interface 2 167772162.

Lemma left_typed : typed left_interface.
Proof. split; cbn; unfold is_u32, is_u16, is_u8; try lia; auto. Qed.

Lemma right_typed : typed right_interface.
Proof. split; cbn; unfold is_u32, is_u16, is_u8; try lia; auto. Qed.

Lemma sample_linked : linked left_interface right_interface 1500.
Proof.
  split; [exact (conj left_typed right_typed)|split; cbn; unfold is_u32; lia| |split; right; reflexivity|].
  - split; split; cbn; try (split; congruence); try congruence; auto.
  - split; vm_compute; split; (reflexivity || discriminate).
Qed.

Lemma hello_roundtrip_witness :
  exists bytes, encode_hello_payload left_interface 1500 = Some bytes
  /\ parse_hello (hello_packet left_interface bytes) = Some (hello_view left_interface).
Proof.
  eexists. split; [reflexivity|].
  refine (proj1 (proj2 (hello_roundtrip left_interface 1500 _) _ _)); [exact left_typed|reflexivity].
Defined.

Lemma hello_discovery_witness :
  linked left_interface right_interface 1500
  /\ exists r1 a1 r2 b1 r3 a2 n m,
    transmit right_interface left_interface 1500 2000 = Some (r1, a1)
    /\ transmit a1 right_interface 1500 3000 = Some (r2, b1)
    /\ transmit b1 a1 1500 4000 = Some (r3, a2)
    /\ disposition r1 = accepted /\ disposition r2 = accepted /\ disposition r3 = accepted
    /\ row b1 (router_id_ (configuration_ left_interface)) = Some n /\ learned n left_interface right_interface 3000
    /\ row a2 (router_id_ (configuration_ right_interface)) = Some m /\ learned m right_interface left_interface 4000
    /\ bidirectional b1 (router_id_ (configuration_ left_interface))
    /\ bidirectional a2 (router_id_ (configuration_ right_interface)).
Proof. split; [exact sample_linked|]. exact (hello_discovery _ _ 1500 2000 3000 4000 sample_linked). Defined.
End OspfDiscovery.
