(* ===== verification/OspfRuntime.v ===== *)
(** * The interface over time

    The invariant of every operation of the interface's owner, elections at the
    end of the wait, the adjacencies that follow an election, and what a
    checkpoint keeps. *)

From S2P Require Import Prelude Arena Catalog OspfFsm OspfElection OspfConvergence OspfHello OspfInterface.

Module OspfRuntime.
Import Arena OspfFsm OspfHello OspfInterface.
#[local] Existing Instance NeighborRuntime_settable.
#[local] Existing Instance OspfInterface.t_settable.

(** ** The invariant *)

Record ok (s : OspfInterface.t) : Prop := {
  ok_ids : NoDup (map n_router_id (neighbors_ s));
  ok_capacity : size (neighbors_ s) <= maximum_neighbors_ s;
  ok_down : forall n, n ∈ neighbors_ s -> n_state n = NeighborState.down -> inactivity_deadline n = 0;
  ok_wait : wait_deadline_ s <> 0 -> state_ s = InterfaceState.waiting;
  ok_type : is_multi_access (network_type (configuration_ s)) = false ->
    state_ s = InterfaceState.down \/ state_ s = InterfaceState.point_to_point
}.

(** The operations of the owner *)
Inductive Operation :=
| on_hello (memory : bool) (packet : PacketView) (identity now : Z)
| on_deadlines (now budget : Z)
| on_grace (router_id deadline : Z)
| on_wait (memory : bool) (now : Z)
| on_change (memory backup_seen : bool)
| on_reconcile (clock budget : Z)
| on_sent (now : Z)
| on_event (router_id : Z) (event : NeighborEvent.t) (pending : bool) (clock : Z)
| on_erase (router_id : Z).

Definition perform (s : OspfInterface.t) (o : Operation) : OspfInterface.t :=
  match o with
  | on_hello memory packet identity now => (receive_hello memory s packet identity now).2
  | on_deadlines now budget => (process_deadlines s now budget).2
  | on_grace r deadline => (defer_inactivity s r deadline).2
  | on_wait memory now => (process_interface_deadline memory s now).2
  | on_change memory seen => (neighbor_change memory s seen).2
  | on_reconcile clock budget => (reconcile_adjacencies s clock budget).2
  | on_sent now => hello_sent s now
  | on_event r event pending clock => (apply_neighbor_event s r event pending clock).2
  | on_erase r => (erase_neighbor s r).2
  end.

(** The states of an interface that its owner created and operates. *)
Definition lives : OspfInterface.t -> Prop :=
  reachable (fun s => exists c maximum now, 0 <= maximum /\ s = construct c maximum now)
    (fun s o s' => s' = perform s o).

(** *** Rows *)

(** One event keeps the identifier, and a neighbor that stays Down was Down. *)
Lemma neighbor_step_id s n e p now : n_router_id (neighbor_step s n e p now).1 = n_router_id n.
Proof. unfold neighbor_step. apply (record_fields n). Qed.

Lemma neighbor_step_deadline s n e p now : inactivity_deadline (neighbor_step s n e p now).1 = inactivity_deadline n.
Proof. unfold neighbor_step. apply (record_fields n). Qed.

Lemma neighbor_step_state s n e p now :
  n_state (neighbor_step s n e p now).1 = (neighbor_transition (n_state n) e (adjacency_required s n) p).1.
Proof. unfold neighbor_step. apply (record_fields n). Qed.

Lemma neighbor_step_actions s n e p now :
  (neighbor_step s n e p now).2 = (neighbor_transition (n_state n) e (adjacency_required s n) p).2.
Proof. reflexivity. Qed.

Definition row_ok (n : NeighborRuntime) : Prop := n_state n = NeighborState.down -> inactivity_deadline n = 0.

Lemma elem_rows_insert (l : list NeighborRuntime) i n x : x ∈ <[i := n]> l -> x = n \/ x ∈ l.
Proof.
  intros (j & H)%list_elem_of_lookup. apply list_lookup_insert_Some in H as [(_ & -> & _)|[_ H]]; [now left|right].
  now apply list_elem_of_lookup_2 in H.
Qed.

(** Writing a row back under its identifier keeps the invariant. *)
Lemma ok_insert s i found n :
  ok s -> neighbors_ s !! i = Some found -> n_router_id n = n_router_id found -> row_ok n ->
  ok (s <| neighbors_ := <[i := n]> (neighbors_ s) |>).
Proof.
  intros [O1 O2 O3 O4 O5] Hi E R. split; cbn [neighbors_ maximum_neighbors_ wait_deadline_ state_ configuration_ set_field OspfInterface.t_settable eta]; try done.
  - change (map n_router_id) with (fmap (M := list) n_router_id). rewrite list_fmap_insert, E.
    rewrite list_insert_id; [done|]. now rewrite list_lookup_fmap, Hi.
  - unfold size. now rewrite length_insert.
  - intros x [->|Hx]%elem_rows_insert; [done|now apply O3].
Qed.

(** Rewriting every row in place does too. *)
Lemma ok_rows s rows :
  ok s -> map n_router_id rows = map n_router_id (neighbors_ s) -> (forall n, n ∈ rows -> row_ok n) ->
  ok (s <| neighbors_ := rows |>).
Proof.
  intros [O1 O2 O3 O4 O5] E R. split; cbn [neighbors_ maximum_neighbors_ wait_deadline_ state_ configuration_ set_field OspfInterface.t_settable eta]; try done.
  - now rewrite E.
  - unfold size in *. apply (f_equal length) in E. rewrite !length_map in E. now rewrite E.
Qed.

Lemma transition_down_zero current e r p :
  (neighbor_transition current e r p).1 = NeighborState.down ->
  current = NeighborState.down
  \/ has_action (neighbor_transition current e r p).2 NeighborAction.stop_inactivity_timer = true.
Proof. destruct current, e, r, p; vm_compute; (now left) || (now right) || discriminate. Qed.

(** An adjacency event leaves Down neighbors down and others up. *)
Lemma adjacency_ok_down current r :
  (neighbor_transition current NeighborEvent.adjacency_ok r false).1 = NeighborState.down <-> current = NeighborState.down.
Proof. destruct current, r; vm_compute; split; congruence. Qed.

Lemma expire_rows s now rows : forall budget,
  (forall n, n ∈ rows -> row_ok n) ->
  let rows' := (expire s now budget rows).2 in
  map n_router_id rows' = map n_router_id rows /\ forall n, n ∈ rows' -> row_ok n.
Proof.
  induction rows as [|n rows IH]; intros budget R; [done|]. cbn [expire].
  assert (forall x, x ∈ rows -> row_ok x) as R' by (intros x Hx; apply R; now constructor).
  assert (row_ok n) as Rn by (apply R; constructor).
  destruct (same (n_state n) NeighborState.down || (now <? inactivity_deadline n)).
  - specialize (IH budget R'). destruct (expire s now budget rows) as [[ok0 out] rows'']. cbn [snd] in *.
    destruct IH as [E H]. split; [cbn; now rewrite E|]. intros x [->|Hx]%elem_of_cons; auto.
  - destruct (budget =? 0); [done|]. specialize (IH (budget - 1) R').
    pose proof (neighbor_step_id s n NeighborEvent.inactivity_timer false now) as Ei.
    destruct (neighbor_step s n NeighborEvent.inactivity_timer false now) as [n' acts].
    destruct (expire s now (budget - 1) rows) as [[ok0 out] rows'']. cbn [snd] in *.
    destruct IH as [E H]. split; [cbn; rewrite E; cbn in Ei; now rewrite Ei|].
    intros x [->|Hx]%elem_of_cons; [|auto]. intros _. reflexivity.
Qed.

(** *** Elections *)

Lemma snd_if {A B} (b : bool) (x y : A) (z : B) : (if b then (x, z) else (y, z)).2 = z.
Proof. now destruct b. Qed.

(** An election touches only the roles. *)
Lemma apply_election_frame memory s requested :
  let s' := (apply_election memory s requested).2 in
  neighbors_ s' = neighbors_ s /\ configuration_ s' = configuration_ s
  /\ maximum_neighbors_ s' = maximum_neighbors_ s /\ hello_deadline_ s' = hello_deadline_ s
  /\ wait_deadline_ s' = wait_deadline_ s
  /\ (has_action requested InterfaceAction.elect_dr_bdr = false -> s' = s).
Proof.
  cbn zeta. unfold apply_election. destruct (has_action requested _) eqn:E; cbn [negb]; [|now split_and!].
  rewrite snd_if. unfold elect. destruct memory; now split_and!.
Qed.

Lemma ok_election memory s requested :
  ok s -> (has_action requested InterfaceAction.elect_dr_bdr = true ->
           wait_deadline_ s = 0 /\ is_multi_access (network_type (configuration_ s)) = true) ->
  ok (apply_election memory s requested).2.
Proof.
  intros O H. destruct (apply_election_frame memory s requested) as (E1 & E2 & E3 & E4 & E5 & E6).
  destruct (has_action requested _); [|now rewrite E6]. destruct (H eq_refl) as [Hw Hm]. destruct O as [O1 O2 O3 O4 O5].
  split; rewrite ?E1, ?E2, ?E3, ?E5; try done. intros F. congruence.
Qed.

(** The machine asks for an election only on multi-access networks, and never
    because of a neighbor change while waiting. *)
Lemma election_requested current event type priority :
  has_action (interface_transition current event type priority).2 InterfaceAction.elect_dr_bdr = true ->
  is_multi_access type = true
  /\ (event = InterfaceEvent.neighbor_change -> current <> InterfaceState.waiting).
Proof.
  unfold interface_transition. destruct current, event, type; cbn [same]; unfold same;
    repeat (rewrite bool_decide_eq_true_2 by done || rewrite bool_decide_eq_false_2 by done);
    cbn; destruct (priority =? 0); cbn; (discriminate || (split; [done|congruence])).
Qed.

Lemma ok_construct c maximum now : 0 <= maximum -> ok (construct c maximum now).
Proof.
  intros H. unfold construct.
  assert (forall st h w, (w <> 0 -> st = InterfaceState.waiting) ->
    (is_multi_access (network_type c) = false -> st = InterfaceState.down \/ st = InterfaceState.point_to_point) ->
    ok (mk c [] maximum h w st 0 0)) as B.
  { intros st h w Hw Ht. split; cbn; try done; [constructor|]. intros n Hn. inversion Hn. }
  destruct (_ || _); [apply B; [done|now left]|]. unfold interface_transition.
  destruct (network_type c) eqn:T; cbn; destruct (passive c); cbn;
    try (apply B; [done|now right]); destruct (router_priority c =? 0); cbn; apply B; (done || now left || now right).
Qed.

Lemma ok_find s r i found : ok s -> find_neighbor r (neighbors_ s) = Some (i, found) ->
  neighbors_ s !! i = Some found /\ row_ok found.
Proof.
  intros O F. apply find_neighbor_some in F as (Hi & _ & _). split; [done|].
  intros D. apply (ok_down s O); [|done]. now apply list_elem_of_lookup_2 in Hi.
Qed.

Lemma process_hello_ok s packet body identity now found :
  let n := (process_hello s packet body identity now found).1 in
  n_router_id n = n_router_id found /\ row_ok n.
Proof.
  cbn zeta. destruct (process_hello_row s packet body identity now found) as (E & _ & _ & _ & _ & _ & _ & A).
  split; [done|]. intros D. rewrite D in A. discriminate.
Qed.

Lemma ok_receive s memory packet identity now : ok s -> ok (receive_hello memory s packet identity now).2.
Proof.
  intros O. unfold receive_hello. destruct (admit_hello s packet identity) as [|body]; [done|].
  destruct (find_neighbor (p_router_id packet) (neighbors_ s)) as [[i found]|] eqn:F.
  - destruct (ok_find s _ _ _ O F) as [Hi R].
    pose proof (process_hello_ok s packet body identity now found) as [E R'].
    destruct (process_hello s packet body identity now found) as [n result]. cbn [fst snd] in *.
    now apply (ok_insert s i found).
  - destruct (Z.eqb_spec (size (neighbors_ s)) (maximum_neighbors_ s)) as [|N]; [done|]. destruct memory; [|done].
    cbn [negb orb].
    pose proof (process_hello_ok s packet body identity now (new_neighbor (p_router_id packet) now)) as [E R'].
    destruct (process_hello s packet body identity now _) as [n result]. cbn [fst snd] in *.
    change (n_router_id (new_neighbor _ _)) with (p_router_id packet) in E.
    destruct O as [O1 O2 O3 O4 O5]. split; cbn [neighbors_ maximum_neighbors_ wait_deadline_ state_ configuration_ set_field OspfInterface.t_settable eta]; try done.
    + rewrite map_app. apply list.NoDup_app. split; [done|]. split; [|cbn; apply NoDup_singleton].
      intros x Hx Hx'. apply list_elem_of_singleton in Hx'. subst x. rewrite E in Hx.
      apply list_elem_of_fmap in Hx as (m & Em & Hm). now apply (find_neighbor_none _ _ F m Hm).
    + unfold size in *. rewrite length_app. cbn. lia.
    + intros x [Hx|Hx%list_elem_of_singleton]%elem_of_app; [now apply O3|now subst].
Qed.

Lemma ok_perform s o : ok s -> ok (perform s o).
Proof.
  intros O. destruct o as [memory packet identity now|now budget|r deadline|memory now|memory seen|clock budget|now|r e p clock|r];
    cbn [perform].
  - now apply ok_receive.
  - unfold process_deadlines. pose proof (expire_rows s now (neighbors_ s) budget (ok_down s O)) as [E R].
    destruct (expire s now budget (neighbors_ s)) as [[b out] rows]. now apply ok_rows.
  - unfold defer_inactivity. destruct (find_neighbor r (neighbors_ s)) as [[i found]|] eqn:F; [|done].
    destruct (ok_find s _ _ _ O F) as [Hi R]. unfold same.
    destruct (bool_decide_reflect (n_state found = NeighborState.down)) as [|N]; [done|]. cbn [orb].
    destruct (deadline =? 0); [done|]. destruct (_ <? _); [|done]. apply (ok_insert s i found); [done..|].
    intros D. now destruct N.
  - unfold process_interface_deadline. destruct (_ || _); [done|]. apply ok_election.
    + destruct O as [O1 O2 O3 O4 O5]. now split.
    + intros H. split; [done|]. now apply election_requested in H.
  - unfold neighbor_change. destruct (_ && _); [done|]. apply ok_election.
    + destruct seen; [|done]. destruct O as [O1 O2 O3 O4 O5]. now split.
    + intros H. destruct seen; [now apply election_requested in H|]. apply election_requested in H as [H W].
      split; [|done]. destruct (Z.eq_dec (wait_deadline_ s) 0) as [|N]; [done|]. now apply (ok_wait s O), W in N.
  - unfold reconcile_adjacencies. destruct (_ <? _); [done|]. apply ok_rows; [done| |].
    + unfold reconcile. rewrite !map_map. apply map_ext. intros n. apply neighbor_step_id.
    + intros n (row & -> & H)%list_elem_of_fmap. apply list_elem_of_fmap in H as (m & -> & Hm). unfold row_ok.
      rewrite neighbor_step_deadline, neighbor_step_state, adjacency_ok_down. now apply (ok_down s O).
  - destruct O as [O1 O2 O3 O4 O5]. now split.
  - unfold apply_neighbor_event. destruct (find_neighbor r (neighbors_ s)) as [[i found]|] eqn:F; [|done].
    destruct (ok_find s _ _ _ O F) as [Hi R].
    pose proof (neighbor_step_id s found e p clock) as E1. pose proof (neighbor_step_deadline s found e p clock) as E2.
    pose proof (neighbor_step_state s found e p clock) as E3. pose proof (neighbor_step_actions s found e p clock) as E4.
    destruct (neighbor_step s found e p clock) as [n acts]. cbn [fst snd] in *. apply (ok_insert s i found); [done..| |].
    + now destruct (has_action acts _).
    + unfold row_ok. destruct (has_action acts _) eqn:A; [done|]. rewrite E3, E2. intros D.
      apply transition_down_zero in D as [D|D]; [auto|]. rewrite E4 in A. congruence.
  - unfold erase_neighbor. destruct (find_neighbor r (neighbors_ s)) as [[i found]|] eqn:F; [|done]. cbn [snd].
    destruct O as [O1 O2 O3 O4 O5]. split; cbn [neighbors_ maximum_neighbors_ wait_deadline_ state_ configuration_ set_field OspfInterface.t_settable eta]; try done.
    + apply (sublist_NoDup _ _ O1), (fmap_sublist n_router_id), sublist_delete.
    + unfold size in *. pose proof (sublist_length _ _ (sublist_delete (neighbors_ s) i)). lia.
    + intros n Hn. apply O3. apply (elem_of_sublist _ _ _ Hn). apply sublist_delete.
Qed.

(** ** Adjacencies after an election *)

(** A bidirectional neighbor has an adjacency exactly when one is required. *)
Definition settled_row (s : OspfInterface.t) (n : NeighborRuntime) : Prop :=
  NeighborState.at_least (n_state n) NeighborState.two_way = true ->
  NeighborState.at_least (n_state n) NeighborState.exstart = adjacency_required s n.

Lemma adjacency_required_frame s s' n n' :
  configuration_ s' = configuration_ s -> state_ s' = state_ s -> designated_router_ s' = designated_router_ s ->
  backup_designated_router_ s' = backup_designated_router_ s -> n_election_identity n' = n_election_identity n ->
  adjacency_required s' n' = adjacency_required s n.
Proof. intros E1 E2 E3 E4 E5. unfold adjacency_required. now rewrite E1, E2, E3, E4, E5. Qed.

Lemma neighbor_step_required s rows n e p now :
  adjacency_required (s <| neighbors_ := rows |>) (neighbor_step s n e p now).1 = adjacency_required s n.
Proof. apply adjacency_required_frame; try reflexivity. unfold neighbor_step. apply (record_fields n). Qed.

Lemma adjacency_event current required :
  let t := neighbor_transition current NeighborEvent.adjacency_ok required false in
  (NeighborState.at_least t.1 NeighborState.two_way = true -> NeighborState.at_least t.1 NeighborState.exstart = required)
  /\ (t.2 = NeighborAction.none -> t.1 = current)
  /\ (neighbor_transition t.1 NeighborEvent.adjacency_ok required false).2 = NeighborAction.none.
Proof. destruct current, required; vm_compute; split_and!; congruence. Qed.

(** After a reconciliation every bidirectional neighbor has an adjacency exactly
    when the interface requires one; every neighbor whose state changed is
    reported, a second reconciliation reports nothing, and with too little output
    space nothing changes. *)
Theorem reconcile_exact s clock budget :
  let '(done, reports, s') := reconcile_adjacencies s clock budget in
  if done then
    (forall n, n ∈ neighbors_ s' -> settled_row s' n)
    /\ (forall i n n', neighbors_ s !! i = Some n -> neighbors_ s' !! i = Some n' -> n_state n' <> n_state n ->
         exists actions, (n_router_id n, actions) ∈ reports)
    /\ (forall clock' budget', size (neighbors_ s') <= budget' -> (reconcile_adjacencies s' clock' budget').1 = (true, []))
  else s' = s /\ reports = [] /\ budget < size (neighbors_ s).
Proof.
  unfold reconcile_adjacencies. destruct (Z.ltb_spec budget (size (neighbors_ s))) as [L|L]; [now split_and!|].
  set (rows := reconcile s clock (neighbors_ s)). split_and!.
  - intros n (row & -> & H)%list_elem_of_fmap. apply list_elem_of_fmap in H as (m & -> & Hm). unfold settled_row.
    rewrite neighbor_step_required, neighbor_step_state. apply adjacency_event.
  - intros i n n' Hn Hn' D. cbn [neighbors_ set_field OspfInterface.t_settable eta] in Hn'.
    unfold rows, reconcile in Hn'. rewrite map_map in Hn'. rewrite list_lookup_fmap, Hn in Hn'. assert (n' = (neighbor_step s n NeighborEvent.adjacency_ok false clock).1) as -> by (now injection Hn').
    exists (neighbor_step s n NeighborEvent.adjacency_ok false clock).2.
    apply list_elem_of_fmap. exists (neighbor_step s n NeighborEvent.adjacency_ok false clock).
    split; [now rewrite neighbor_step_id|]. apply list_elem_of_In, filter_In. split.
    + unfold rows, reconcile. apply (in_map (fun x => neighbor_step s x NeighborEvent.adjacency_ok false clock)).
      apply list_elem_of_In. now apply list_elem_of_lookup_2 in Hn.
    + rewrite neighbor_step_state in D. apply negb_true_iff, Z.eqb_neq. intros E. apply D. now apply adjacency_event.
  - intros clock' budget' L'. rewrite (proj2 (Z.ltb_ge _ _) L'). cbn [fst]. f_equal.
    cbn [neighbors_ set_field OspfInterface.t_settable eta].
    assert (forall l, (forall x : NeighborRuntime * Z, x ∈ l -> x.2 = NeighborAction.none) ->
      map (fun row => (n_router_id row.1, row.2)) (List.filter (fun row => negb (row.2 =? NeighborAction.none)) l) = []) as N.
    { intros l H. induction l as [|x l IH]; [done|]. cbn. rewrite (H x) by constructor. cbn. apply IH. intros y Hy. apply H. now constructor. }
    apply N. intros x (m & -> & Hm)%list_elem_of_fmap. apply list_elem_of_fmap in Hm as (row & -> & Hr).
    apply list_elem_of_fmap in Hr as (n & -> & Hn). rewrite neighbor_step_actions.
    match goal with |- context [adjacency_required ?x ?y] =>
      replace (adjacency_required x y) with (adjacency_required s n)
        by (symmetry; exact (neighbor_step_required s (map fst rows) n NeighborEvent.adjacency_ok false clock)) end.
    rewrite neighbor_step_state.
    apply adjacency_event.
Qed.

(** C35: every interface that its owner creates and operates keeps one row per
    router, within its capacity; a neighbor that is Down has no deadline; the wait
    deadline is set only while the interface waits; and only a multi-access
    interface waits or takes a role. *)
Theorem interface_invariant s : lives s -> ok s.
Proof.
  apply invariant_reachable.
  - intros s0 (c & maximum & now & H & ->). now apply ok_construct.
  - intros s0 o s1 O ->. now apply ok_perform.
Qed.

(** ** Checkpoints *)

(** A deadline after a save at [now] and a restoration at [later]: whole
    milliseconds of the remainder, and none for less than one. *)
Definition kept_deadline (now later deadline : Z) : Z :=
  deadline_after later (remaining now deadline).
Definition kept_point (now later point : Z) : Z := point_before later (elapsed now point).

Definition kept_neighbor (now later : Z) (n : NeighborRuntime) : NeighborRuntime :=
  n <| inactivity_deadline := kept_deadline now later (inactivity_deadline n) |>
    <| state_since := kept_point now later (state_since n) |>
    <| last_event_at := kept_point now later (last_event_at n) |>
    <| last_restart_at := kept_point now later (last_restart_at n) |>.

Definition kept (s : OspfInterface.t) (maximum now later : Z) : OspfInterface.t :=
  mk (configuration_ s) (map (kept_neighbor now later) (neighbors_ s)) maximum
    (kept_deadline now later (hello_deadline_ s)) (kept_deadline now later (wait_deadline_ s)) (state_ s)
    (designated_router_ s) (backup_designated_router_ s).

Lemma since_epoch_milliseconds d : since_epoch (Catalog.milliseconds d) = d.
Proof. unfold since_epoch, Catalog.milliseconds. now rewrite Z.quot_mul. Qed.

Lemma wait_remaining_nonneg now d : 0 <= remaining now d.
Proof. unfold remaining. destruct (_ || _) eqn:E; [done|]. apply orb_false_iff in E as [_ E%Z.leb_gt]. apply Z.quot_pos; lia. Qed.

Lemma wait_elapsed_nonneg now p : 0 <= elapsed now p.
Proof. unfold elapsed. destruct (_ || _) eqn:E; [done|]. apply orb_false_iff in E as [_ E%Z.ltb_ge]. apply Z.quot_pos; lia. Qed.

Lemma restore_saved_neighbor now later n : restore_neighbor later (save_neighbor now n) = kept_neighbor now later n.
Proof.
  unfold kept_neighbor, kept_deadline, kept_point. destruct n.
  cbv -[since_epoch deadline_after point_before remaining elapsed Catalog.milliseconds].
  now rewrite !since_epoch_milliseconds.
Qed.

Lemma save_neighbor_fields now n :
  inactivity_deadline (save_neighbor now n) = Catalog.milliseconds (remaining now (inactivity_deadline n))
  /\ state_since (save_neighbor now n) = Catalog.milliseconds (elapsed now (state_since n))
  /\ last_event_at (save_neighbor now n) = Catalog.milliseconds (elapsed now (last_event_at n))
  /\ last_restart_at (save_neighbor now n) = Catalog.milliseconds (elapsed now (last_restart_at n))
  /\ n_router_id (save_neighbor now n) = n_router_id n.
Proof. destruct n. split_and!; reflexivity. Qed.

Lemma restore_saved_neighbors now later rows : forall prior,
  NoDup (prior ++ map n_router_id rows) -> Forall (fun n => n_router_id n <> 0) rows ->
  restore_neighbors later prior (map (save_neighbor now) rows) = Some (map (kept_neighbor now later) rows).
Proof.
  induction rows as [|n rows IH]; intros prior D Z0; [done|]. cbn [map restore_neighbors].
  apply list.Forall_cons in Z0 as [Zn Z0].
  assert (neighbor_valid prior (save_neighbor now n) = true) as ->.
  { unfold neighbor_valid. destruct (save_neighbor_fields now n) as (-> & -> & -> & -> & ->).
    rewrite !since_epoch_milliseconds, !(proj2 (Z.ltb_ge _ 0)) by (apply wait_remaining_nonneg || apply wait_elapsed_nonneg).
    rewrite (proj2 (Z.eqb_neq _ _) Zn). cbn [orb]. apply negb_true_iff, not_true_is_false.
    intros (x & Hx & E%Z.eqb_eq)%existsb_exists. subst x. apply list.NoDup_app in D as (_ & D & _).
    apply (D (n_router_id n)); [now apply list_elem_of_In|constructor]. }
  change (n_router_id (save_neighbor now n)) with (n_router_id n). rewrite IH; [|now rewrite <- app_assoc|done].
  cbn [mbind option_bind]. now rewrite restore_saved_neighbor.
Qed.

Lemma restore_checkpoint s fresh now later :
  ok s -> Forall (fun n => n_router_id n <> 0) (neighbors_ s) ->
  configuration_ fresh = configuration_ s -> size (neighbors_ s) <= maximum_neighbors_ fresh ->
  restore true fresh (checkpoint s now) later = (true, kept s (maximum_neighbors_ fresh) now later).
Proof.
  intros O Z0 C L. unfold restore, checkpoint. cbn [c_configuration c_neighbors hello_remaining wait_remaining].
  unfold same. rewrite C, bool_decide_eq_true_2 by done.
  rewrite !(proj2 (Z.ltb_ge _ _)) by (apply wait_remaining_nonneg || (unfold size in *; rewrite length_map; lia)).
  cbn [negb orb]. rewrite (restore_saved_neighbors now later _ []) by (done || apply O). unfold kept.
  rewrite <- C. reflexivity.
Qed.

Lemma elected_state l :
  local_state (elect_dr_bdr l) = InterfaceState.designated \/ local_state (elect_dr_bdr l) = InterfaceState.backup
  \/ local_state (elect_dr_bdr l) = InterfaceState.dr_other.
Proof.
  unfold elect_dr_bdr. destruct (find_local _) as [[i r]|]; [|cbn; tauto].
  destruct (negb (eligible r)); [cbn; tauto|]. unfold role_of. cbn [local_state].
  destruct (points_to _ _); [tauto|]. destruct (points_to _ _); tauto.
Qed.

(** The wait timer elects. *)
Lemma wait_elects s now :
  state_ s = InterfaceState.waiting -> is_multi_access (network_type (configuration_ s)) = true ->
  wait_deadline_ s <> 0 -> wait_deadline_ s <= now ->
  let '(actions, s') := process_interface_deadline true s now in
  s' = set_election_result (s <| wait_deadline_ := 0 |>) (elect_dr_bdr (candidates s))
  /\ state_ s' <> InterfaceState.waiting
  /\ has_action actions InterfaceAction.elect_dr_bdr = true
  /\ has_action actions InterfaceAction.originate_router_lsa = true.
Proof.
  intros W M N L. unfold process_interface_deadline. rewrite W. cbn [same]. unfold same at 1.
  rewrite bool_decide_eq_true_2, (proj2 (Z.eqb_neq _ _) N), (proj2 (Z.ltb_ge _ _) L) by done. cbn [negb orb].
  set (s0 := s <| wait_deadline_ := 0 |>). change (state_ s0) with (state_ s). rewrite W.
  assert ((interface_transition InterfaceState.waiting InterfaceEvent.wait_timer (network_type (configuration_ s0))
             (router_priority (configuration_ s0))).2 = InterfaceAction.elect_dr_bdr) as ->.
  { unfold interface_transition. cbn. change (configuration_ s0) with (configuration_ s). now rewrite M. }
  unfold apply_election. change (has_action InterfaceAction.elect_dr_bdr InterfaceAction.elect_dr_bdr) with true. cbn [negb].
  change (elect true s0) with (set_election_result s0 (elect_dr_bdr (candidates s))). change (state_ s0) with (state_ s). rewrite W.
  set (e := elect_dr_bdr (candidates s)). change (state_ (set_election_result s0 e)) with (local_state e).
  pose proof (elected_state (candidates s)) as Se. fold e in Se.
  assert (same InterfaceState.waiting (local_state e) = false) as Ew
    by (unfold same; apply bool_decide_eq_false; destruct Se as [->|[->| ->]]; discriminate).
  rewrite Ew. cbn [negb orb]. cbn [negb].
  assert (local_state e <> InterfaceState.waiting) as Nw by (destruct Se as [->|[->| ->]]; discriminate).
  destruct (_ || _); split_and!; done.
Qed.

(** C36: a saved interface is accepted back and continues with the same roles, rows
    and counters, its times kept to the millisecond.  A waiting interface still
    ends its wait by an election exactly when at least a millisecond of it was
    left; otherwise the timer never releases it. *)
Theorem interface_checkpoint s fresh now later :
  ok s -> Forall (fun n => n_router_id n <> 0) (neighbors_ s) ->
  configuration_ fresh = configuration_ s -> size (neighbors_ s) <= maximum_neighbors_ fresh -> 0 < later ->
  let '(restored, s') := restore true fresh (checkpoint s now) later in
  restored = true /\ s' = kept s (maximum_neighbors_ fresh) now later
  /\ (state_ s = InterfaceState.waiting -> wait_deadline_ s <> 0 ->
       ((exists at_, state_ (process_interface_deadline true s' at_).2 <> InterfaceState.waiting)
        <-> now + 1000000 <= wait_deadline_ s)).
Proof.
  intros O Z0 C L P. rewrite restore_checkpoint by done. split; [done|]. split; [done|]. intros W N.
  assert (is_multi_access (network_type (configuration_ s)) = true) as M.
  { destruct (is_multi_access _) eqn:M; [done|]. apply (ok_type s O) in M. rewrite W in M. now destruct M. }
  set (s' := kept _ _ _ _). assert (wait_deadline_ s' = kept_deadline now later (wait_deadline_ s)) as Ew by done.
  unfold kept_deadline, deadline_after, remaining in Ew. rewrite (proj2 (Z.eqb_neq _ _) N) in Ew. cbn [orb] in Ew.
  split.
  - intros (at_ & H). apply Z.nlt_ge. intros Lt. apply H. unfold process_interface_deadline.
    assert (wait_deadline_ s' = 0) as ->; [|now rewrite Z.eqb_refl, orb_true_r].
    rewrite Ew. destruct (Z.leb_spec (wait_deadline_ s) now); [done|]. now rewrite Z.quot_small by lia.
  - intros Ge. assert (0 < cdiv (wait_deadline_ s - now) 1000000) as Q by (apply Z.quot_str_pos; lia).
    rewrite (proj2 (Z.leb_gt _ _)), (proj2 (Z.eqb_neq _ 0)) in Ew by lia. unfold Catalog.milliseconds in Ew.
    exists (wait_deadline_ s'). pose proof (wait_elects s' (wait_deadline_ s') W M ltac:(lia) ltac:(lia)) as H.
    destruct (process_interface_deadline true s' (wait_deadline_ s')) as [acts s'']. now destruct H as (_ & H & _).
Qed.

(** ** Ending the wait on a Hello *)

(** The election between a silent local router and one that declares itself
    designated, heard one way or both ways. *)
Lemma elect_against_designated i r p j q k seen :
  i <> 0 -> j <> 0 -> p <> 0 -> k <> 0 ->
  elect_dr_bdr [mkRouter i r 0 0 p true true; mkRouter j q j 0 k seen false]
  = if seen then mkElection j i InterfaceState.backup else mkElection i 0 InterfaceState.designated.
Proof.
  intros Hi Hj Hp Hk. destruct i as [|i|i], j as [|j|j], p as [|p|p], k as [|k|k], seen; try done;
    cbv -[Pos.eqb Pos.compare]; rewrite ?Pos.eqb_refl; reflexivity.
Qed.

Lemma notify_first_hello s n event pending now :
  n_state n = NeighborState.down ->
  let '(n1, a1) := neighbor_step s n NeighborEvent.hello_received pending now in
  let '(n2, a2) := neighbor_step s n1 event pending now in
  has_action (both a1 a2) NeighborAction.notify_interface = true.
Proof.
  intros D. pose proof (neighbor_step_actions s n NeighborEvent.hello_received pending now) as A1.
  destruct (neighbor_step s n NeighborEvent.hello_received pending now) as [n1 a1].
  destruct (neighbor_step s n1 event pending now) as [n2 a2]. cbn [snd] in A1. subst a1. rewrite D.
  assert (forall a, has_action (both (Z.lor 2 64) a) NeighborAction.notify_interface = true) as H.
  { intros a. unfold has_action, both, NeighborAction.notify_interface. apply negb_true_iff, Z.eqb_neq. intros E.
    apply (f_equal (fun z => Z.testbit z 6)) in E. rewrite Z.land_spec, Z.lor_spec, Z.bits_0 in E. discriminate. }
  exact (H a2).
Qed.

(** A router that came up and has heard nobody yet. *)
Record fresh_wait (s : OspfInterface.t) : Prop := {
  fresh_waiting : state_ s = InterfaceState.waiting;
  fresh_type : is_multi_access (network_type (configuration_ s)) = true;
  fresh_neighbors : neighbors_ s = [];
  fresh_capacity : 0 < maximum_neighbors_ s;
  fresh_roles : designated_router_ s = 0 /\ backup_designated_router_ s = 0;
  fresh_priority : router_priority (configuration_ s) <> 0;
  fresh_identity : election_identity (local_candidate s) <> 0
}.

(** A waiting interface that hears of an established designated router ends its
    wait on the first Hello, and the outcome depends on whether that Hello lists
    it: when it does, the router becomes backup of the one it heard; when it does
    not, communication is not bidirectional yet, the sender is no candidate, and
    the router elects itself. *)
Theorem waiting_elects_itself s packet identity now body :
  fresh_wait s -> admit_hello s packet identity = inr body ->
  identity <> 0 -> h_router_priority body <> 0 ->
  h_designated_router body = identity -> h_backup_designated_router body = 0 ->
  let seen := seen_self body (router_id_ (configuration_ s)) in
  let '(r, s1) := receive_hello true s packet identity now in
  let '(_, s2) := neighbor_change true s1 (backup_seen r) in
  has_action (actions r) NeighborAction.notify_interface = true
  /\ state_ s2 = (if seen then InterfaceState.backup else InterfaceState.designated)
  /\ designated_router_ s2 = (if seen then identity else election_identity (local_candidate s)).
Proof.
  intros [W M E0 Cap [Dr Bdr] Hp Hi] A Hj Hk HD HB seen. unfold receive_hello. rewrite A, E0. cbn [find_neighbor list_find].
  change (find_neighbor (p_router_id packet) []) with (@None (nat * NeighborRuntime)). cbv iota.
  rewrite (proj2 (Z.eqb_neq (size []) _)) by (change (size (@nil NeighborRuntime)) with 0; lia). cbn [negb orb].
  set (fresh := new_neighbor (p_router_id packet) now).
  pose proof (process_hello_row s packet body identity now fresh) as (P1 & P2 & P3 & P4 & P5 & _ & P7 & _).
  assert (has_action (actions (process_hello s packet body identity now fresh).2) NeighborAction.notify_interface = true
          /\ backup_seen (process_hello s packet body identity now fresh).2 = true) as [N B].
  { unfold process_hello.
    set (n0 := (store_hello s packet body identity fresh)
               <| inactivity_deadline := now + Catalog.seconds (dead_interval_seconds (configuration_ s)) |>).
    set (event := if seen_self body (router_id_ (configuration_ s)) then _ else _).
    pose proof (notify_first_hello s n0 event false now) as H.
    assert (n_state n0 = NeighborState.down) as D by (unfold n0, store_hello; now destruct (p_version packet =? version_three)).
    specialize (H D). destruct (neighbor_step s n0 NeighborEvent.hello_received false now) as [n1 a1].
    destruct (neighbor_step s n1 event false now) as [n2 a2]. cbn [snd actions backup_seen]. split; [exact H|].
    rewrite W, HD, HB, !Z.eqb_refl. apply orb_true_r. }
  destruct (process_hello s packet body identity now fresh) as [n r]. cbn [fst snd] in *. rewrite B.
  set (s1 := s <| neighbors_ := [] ++ [n] |>). unfold neighbor_change.
  assert (negb (same (network_type (configuration_ s1)) NetworkType.broadcast)
          && negb (same (network_type (configuration_ s1)) NetworkType.non_broadcast) = false) as ->.
  { change (configuration_ s1) with (configuration_ s). unfold is_multi_access in M. now rewrite <- negb_orb, M. }
  change (state_ s1) with (state_ s). change (configuration_ s1) with (configuration_ s). rewrite W.
  assert ((interface_transition InterfaceState.waiting InterfaceEvent.backup_seen (network_type (configuration_ s))
             (router_priority (configuration_ s))).2 = InterfaceAction.elect_dr_bdr) as ->.
  { unfold interface_transition. cbn. now rewrite M. }
  unfold apply_election.
  change (has_action InterfaceAction.elect_dr_bdr InterfaceAction.elect_dr_bdr) with true. cbn [negb].
  set (s2 := elect true (s1 <| wait_deadline_ := 0 |>)).
  assert (candidates (s1 <| wait_deadline_ := 0 |>) = [local_candidate s; neighbor_candidate n]) as Ec by reflexivity.
  assert (state_ s2 = (if seen then InterfaceState.backup else InterfaceState.designated)
          /\ designated_router_ s2 = (if seen then identity else election_identity (local_candidate s))) as [G1 G2].
  { unfold s2, elect. rewrite Ec. unfold neighbor_candidate. rewrite P2, P3, P4, P5, P7, HD, HB. fold seen.
    unfold local_candidate in *. rewrite Dr, Bdr. cbn [election_identity] in Hi.
    rewrite elect_against_designated by done. now destruct seen. }
  match goal with |- context [if negb ?c then _ else _] => destruct (negb c) end; now split_and!.
Qed.

(** An election that could not be computed when the wait ended is not tried again
    by the timer. *)
Lemma wait_lost_without_memory s now memory at_ :
  state_ s = InterfaceState.waiting -> is_multi_access (network_type (configuration_ s)) = true ->
  wait_deadline_ s <> 0 -> wait_deadline_ s <= now ->
  let s' := (process_interface_deadline false s now).2 in
  state_ s' = InterfaceState.waiting /\ process_interface_deadline memory s' at_ = (InterfaceAction.none, s').
Proof.
  intros W M N L s'. assert (state_ s' = InterfaceState.waiting /\ wait_deadline_ s' = 0) as [E1 E2].
  { unfold s', process_interface_deadline. rewrite W. unfold same at 1.
    rewrite bool_decide_eq_true_2, (proj2 (Z.eqb_neq _ _) N), (proj2 (Z.ltb_ge _ _) L) by done. cbn [negb orb].
    unfold apply_election, elect. destruct (negb (has_action _ _)); [done|].
    match goal with |- context [if negb ?c then _ else _] => destruct (negb c) end; done. }
  split; [done|]. unfold process_interface_deadline. now rewrite E2, Z.eqb_refl, orb_true_r.
Qed.

(** ** Interfaces of one segment

    The election of a runtime that hears every other router both ways is the
    election of the segment, whatever the order in which it met them. *)
Theorem runtime_election s me others declared :
  OspfConvergence.well_identified (me :: others) ->
  local_candidate s = OspfConvergence.view (OspfConvergence.host_id me) declared me ->
  (exists order, order ≡ₚ others
    /\ map neighbor_candidate (neighbors_ s) = map (OspfConvergence.view (OspfConvergence.host_id me) declared) order) ->
  elect true s = set_election_result s (OspfConvergence.election_at (me :: others) declared (OspfConvergence.host_id me)).
Proof.
  intros W L (order & P & N). unfold elect. f_equal. unfold OspfConvergence.election_at, candidates. rewrite L, N.
  change (OspfConvergence.view (OspfConvergence.host_id me) declared me :: map ?f order) with (map f (me :: order)).
  set (v := OspfConvergence.view (OspfConvergence.host_id me) declared).
  assert (map v (me :: order) ≡ₚ map v (me :: others)) as P' by (apply (fmap_Permutation v); now rewrite P).
  pose proof (OspfConvergence.views_unique (OspfConvergence.host_id me) declared _ W) as U.
  pose proof (OspfConvergence.views_one_local (OspfConvergence.host_id me) declared _ W) as O.
  change (v me :: map v order) with (map v (me :: order)).
  apply (OspfElection.elected_unique (map v (me :: order)) (map v (me :: others))).
  - intros x. now rewrite P'.
  - intros x y Hx Hy. rewrite P' in Hx, Hy. now apply O.
  - apply OspfElection.elect_elected; [unfold OspfElection.unique_ids; now rewrite P'|].
    intros x y Hx Hy. rewrite P' in Hx, Hy. now apply O.
  - now apply OspfElection.elect_elected.
Qed.

(** ** Examples *)

(** Router 1 of a version 2 broadcast network, created at one second. *)
Definition sample_configuration : InterfaceConfiguration :=
  mkConfiguration 1 0 1 4294967040 167772161 2 10 40 1500 1 2 0 NetworkType.broadcast false true.
Definition sample : OspfInterface.t := Eval vm_compute in construct sample_configuration 8 1000000000.

(** A Hello of router 2 that declares itself designated; it lists nobody. *)
Definition sample_bytes : list Z :=
  be32 4294967040 ++ be16 10 ++ [2; 1] ++ be32 40 ++ be32 167772162 ++ be32 0.
Definition sample_packet : PacketView := mkPacket sample_bytes 2 0 hello 2 0.
Definition sample_body : HelloView :=
  mkHello 4294967040 0 167772162 0 [] 40 2 10 1 2.

Lemma interface_invariant_witness :
  lives (perform sample (on_hello true sample_packet 167772162 1500000000))
  /\ ok (perform sample (on_hello true sample_packet 167772162 1500000000)).
Proof.
  assert (lives (perform sample (on_hello true sample_packet 167772162 1500000000))) as L.
  { eapply reachable_step; [|reflexivity]. apply reachable_init. exists sample_configuration, 8, 1000000000.
    split; [lia|reflexivity]. }
  exact (conj L (interface_invariant _ L)).
Defined.

Lemma sample_ok : ok sample.
Proof. apply (ok_construct sample_configuration 8 1000000000). lia. Qed.

Lemma interface_checkpoint_witness :
  let '(restored, s') := restore true sample (checkpoint sample 2000000000) 9000000000 in
  restored = true /\ s' = kept sample 8 2000000000 9000000000
  /\ (state_ sample = InterfaceState.waiting -> wait_deadline_ sample <> 0 ->
       ((exists at_, state_ (process_interface_deadline true s' at_).2 <> InterfaceState.waiting)
        <-> 2000000000 + 1000000 <= wait_deadline_ sample)).
Proof.
  apply (interface_checkpoint sample sample 2000000000 9000000000).
  - exact sample_ok.
  - constructor.
  - reflexivity.
  - discriminate.
  - lia.
Defined.

Lemma waiting_elects_itself_witness :
  let '(r, s1) := receive_hello true sample sample_packet 167772162 2000000000 in
  let '(_, s2) := neighbor_change true s1 (backup_seen r) in
  has_action (actions r) NeighborAction.notify_interface = true
  /\ state_ s2 = InterfaceState.designated /\ designated_router_ s2 = 167772161.
Proof.
  apply (waiting_elects_itself sample sample_packet 167772162 2000000000 sample_body); try (reflexivity || discriminate).
  split; try (reflexivity || discriminate). split; reflexivity.
Defined.
End OspfRuntime.
