(* ===== verification/Octets.v ===== *)
(** * Octet strings

    Pieces of lists at integer indices: what [get] returns from concatenations,
    prefixes, copies, and that it determines the list. *)

From S2P Require Import Prelude Arena Packet.
Import Arena.

Module Octets.

(** The [n] octets from [i] on. *)
Definition slice (l : list Z) (i n : Z) : list Z := take (Z.to_nat n) (drop (Z.to_nat i) l).

Lemma size_slice l i n : 0 <= i -> 0 <= n -> i + n <= size l -> size (slice l i n) = n.
Proof. intros. unfold size, slice in *. rewrite length_take, length_drop. lia. Qed.

Lemma get_slice l i n k : 0 <= i -> 0 <= k < n -> get (slice l i n) k = get l (i + k).
Proof.
  intros. unfold get, slice. rewrite lookup_total_take_lt by lia. rewrite lookup_total_drop. f_equal. lia.
Qed.

Lemma get_before_app (l l' : list Z) k : 0 <= k < size l -> get (l ++ l') k = get l k.
Proof. intros. unfold get, size in *. apply lookup_total_app_l. lia. Qed.

Lemma get_after_app (l l' : list Z) k : size l <= k -> get (l ++ l') k = get l' (k - size l).
Proof. intros. unfold get, size in *. rewrite lookup_total_app_r by lia. f_equal. lia. Qed.

Lemma get_cons_S (x : Z) l k : 0 < k -> get (x :: l) k = get l (k - 1).
Proof. intros. unfold get. replace (Z.to_nat k) with (S (Z.to_nat (k - 1))) by lia. reflexivity. Qed.

Lemma size_take (l : list Z) n : 0 <= n <= size l -> size (take (Z.to_nat n) l) = n.
Proof. intros. unfold size in *. rewrite length_take. lia. Qed.

Lemma get_take (l : list Z) n k : 0 <= k < n -> get (take (Z.to_nat n) l) k = get l k.
Proof. intros. unfold get. apply lookup_total_take_lt. lia. Qed.

Lemma get_dropped (l : list Z) n k : 0 <= n -> 0 <= k -> get (drop (Z.to_nat n) l) k = get l (n + k).
Proof. intros. unfold get. rewrite lookup_total_drop. f_equal. lia. Qed.

(** An octet string is its length and its octets. *)
Lemma get_ext (l l' : list Z) : size l = size l' -> (forall k, 0 <= k < size l -> get l k = get l' k) -> l = l'.
Proof.
  unfold size. intros Hl H. apply list_eq. intros i.
  destruct (decide (i < length l)%nat) as [Hi|Hi].
  - assert (i < length l')%nat as Hi' by lia. specialize (H (Z.of_nat i) ltac:(lia)). unfold get in H. rewrite Nat2Z.id in H.
    rewrite (list_lookup_lookup_total_lt l i Hi), (list_lookup_lookup_total_lt l' i Hi'). now rewrite H.
  - rewrite !lookup_ge_None_2 by lia. done.
Qed.

Lemma size_copy_at l i bs : 0 <= i -> i + size bs <= size l -> size (Packet.copy_at l i bs) = size l.
Proof. intros. unfold size, Packet.copy_at in *. rewrite !length_app, length_take, length_drop. lia. Qed.

Lemma get_copy_at l i bs k :
  0 <= i -> i + size bs <= size l -> 0 <= k ->
  get (Packet.copy_at l i bs) k = if (i <=? k) && (k <? i + size bs) then get bs (k - i) else get l k.
Proof.
  intros Hi Hs Hk. unfold Packet.copy_at. pose proof (size_nonneg bs).
  destruct (Z.leb_spec i k); cbn [andb].
  - rewrite get_after_app by (rewrite size_take; lia). rewrite size_take by lia.
    destruct (Z.ltb_spec k (i + size bs)).
    + now rewrite get_before_app by lia.
    + rewrite get_after_app by lia. replace (Z.to_nat i + length bs)%nat with (Z.to_nat (i + size bs)) by (unfold size; lia).
      rewrite get_dropped by lia. f_equal. lia.
  - rewrite get_before_app by (rewrite size_take; lia). now apply get_take.
Qed.

Lemma size_write16 l i v : size (Packet.write16 l i v) = size l.
Proof. unfold Packet.write16. now rewrite !size_put. Qed.

Lemma get_write16 l i v k :
  0 <= i -> i + 2 <= size l -> 0 <= k ->
  get (Packet.write16 l i v) k = if k =? i then u8 (Z.shiftr v 8) else if k =? i + 1 then u8 v else get l k.
Proof.
  intros. unfold Packet.write16. rewrite get_put by (rewrite ?size_put; lia). rewrite get_put by lia.
  destruct (Z.eqb_spec (i + 1) k), (Z.eqb_spec k i), (Z.eqb_spec i k), (Z.eqb_spec k (i + 1)); (done || lia).
Qed.

Lemma read16_write16 l i v : 0 <= i -> i + 2 <= size l -> is_u16 v -> Packet.read16 (Packet.write16 l i v) i = v.
Proof.
  intros. unfold Packet.read16. rewrite !get_write16 by lia. rewrite Z.eqb_refl.
  destruct (Z.eqb_spec (i + 1) i); [lia|]. rewrite Z.eqb_refl. now apply be16_read.
Qed.

Lemma read16_ext l l' i : get l i = get l' i -> get l (i + 1) = get l' (i + 1) -> Packet.read16 l i = Packet.read16 l' i.
Proof. unfold Packet.read16. now intros -> ->. Qed.

Lemma get_word l i : Forall is_u8 l -> is_u8 (get l i).
Proof.
  intros H. unfold get. destruct (decide (Z.to_nat i < length l)%nat) as [Hi|Hi].
  - eapply list.Forall_lookup_1; [exact H|]. now apply list_lookup_lookup_total_lt.
  - rewrite list_lookup_total_alt, lookup_ge_None_2 by lia. cbn. unfold is_u8. lia.
Qed.

End Octets.
