(* ===== verification/Ipv6Packet.v ===== *)
(** * IPv6 packets (forwarding/packet.cpp)

    The parser of an Ethernet frame that carries IPv6: the fixed header and the
    walk along the extension headers.  A frame is the octets below its length. *)

From S2P Require Import Prelude Arena Packet.
Import Arena.

Module Ipv6.

Definition ethernet_header_octets : Z := 14.
Definition ipv6_header_octets : Z := 40.
Definition ipv6_minimum_link_mtu : Z := 1280.
Definition ipv6_next_header_hop_by_hop : Z := 0.
Definition ipv6_next_header_routing : Z := 43.
Definition ipv6_next_header_fragment : Z := 44.
Definition ipv6_next_header_authentication : Z := 51.
Definition ipv6_next_header_destination_options : Z := 60.
Definition ipv6_fragment_header_octets : Z := 8.
Definition ipv6_fragment_offset_unit_octets : Z := 8.
Definition ethernet_minimum_without_fcs : Z := 60.
Definition maximum_frame_octets : Z := 9212.
Definition maximum_ipv6_payload_octets : Z := 65535.
Definition maximum_ethernet_ipv6_datagram_octets : Z :=
  ethernet_header_octets + ipv6_header_octets + maximum_ipv6_payload_octets.

Record Ipv6FragmentView := mkFragment {
  identification : Z;
  fragment_offset : Z;
  more_fragments : bool
}.

Record Ipv6View := mkView {
  source : list Z;
  destination : list Z;
  flow_label : Z;
  payload_length : Z;
  upper_layer_offset : Z;
  upper_layer_next_header_offset : Z;
  fragment_header_offset : Z;
  fragment_previous_next_header_offset : Z;
  traffic_class : Z;
  next_header : Z;
  upper_layer_protocol : Z;
  hop_limit : Z;
  fragment : option Ipv6FragmentView;
  authentication_header_present : bool
}.

(** The variables of the loop over the headers. *)
Record Walk := mkWalk {
  w_offset : Z;
  w_current : Z;
  w_current_next_header_offset : Z;
  w_fragment : option Ipv6FragmentView;
  w_fragment_header_offset : Z;
  w_fragment_previous : Z;
  w_authentication : bool
}.
#[export] Instance walk_settable : Settable Walk := fun w =>
  mkWalk (w_offset w) (w_current w) (w_current_next_header_offset w) (w_fragment w) (w_fragment_header_offset w)
    (w_fragment_previous w) (w_authentication w).

(** What is found at the cursor: the end of the chain, or a header of a length. *)
Inductive Header := malformed_header | upper_layer | extension (length : Z) (w : Walk).

Definition fragment_fields (packet : list Z) (offset : Z) : Ipv6FragmentView :=
  let field := Packet.read16 packet (offset + 2) in
  mkFragment (Packet.read32 packet (offset + 4)) (Z.land (Z.shiftr field 3) 8191) (negb (Z.land field 1 =? 0)).

Definition header_at (packet : list Z) (packet_end : Z) (w : Walk) : Header :=
  let offset := w_offset w in
  if (w_current w =? 0) || (w_current w =? 43) || (w_current w =? 60) then
    if ((w_current w =? 0) && negb (offset =? 54)) || (packet_end <? offset + 2) then malformed_header
    else extension ((get packet (offset + 1) + 1) * 8) w
  else if w_current w =? 44 then
    if has_value (w_fragment w) || (packet_end <? offset + 8) then malformed_header
    else extension 8 (w <| w_fragment_previous := u16 (w_current_next_header_offset w) |>
                        <| w_fragment := Some (fragment_fields packet offset) |>
                        <| w_fragment_header_offset := u16 offset |>)
  else if w_current w =? 51 then
    if packet_end <? offset + 2 then malformed_header
    else
      let length := (get packet (offset + 1) + 2) * 4 in
      if (length <? 16) || negb (Z.land length 7 =? 0) then malformed_header
      else extension length (w <| w_authentication := true |>)
  else upper_layer.

(** [view.fragment && view.fragment->offset != 0U] *)
Definition later_fragment (w : Walk) : bool :=
  match w_fragment w with Some f => negb (fragment_offset f =? 0) | None => false end.

Definition advance (packet : list Z) (length : Z) (w : Walk) : Walk :=
  let offset := w_offset w in
  w <| w_current_next_header_offset := offset |> <| w_current := get packet offset |> <| w_offset := offset + length |>.

(** The loop, for at most [fuel] headers. *)
Fixpoint walk (fuel : nat) (packet : list Z) (packet_end : Z) (w : Walk) : option Walk :=
  match fuel with
  | O => None
  | S fuel =>
      match header_at packet packet_end w with
      | malformed_header => None
      | upper_layer => Some w
      | extension length w =>
          if (length =? 0) || (packet_end <? w_offset w + length) then None
          else
            let w := advance packet length w in
            if later_fragment w then Some w else walk fuel packet packet_end w
      end
  end.

Definition start (packet : list Z) : Walk := mkWalk 54 (get packet 20) 20 None 0 0 false.

(** Every header takes eight octets. *)
Definition enough_headers (packet_end : Z) : nat := S (Z.to_nat ((packet_end - 54) / 8)).

Definition parse_ipv6 (packet : list Z) : option Ipv6View :=
  if (size packet <? 54) || negb (get packet 12 =? 134) || negb (get packet 13 =? 221)
     || negb (Z.shiftr (get packet 14) 4 =? 6) then None
  else
    let length := Packet.read16 packet 18 in
    if (length =? 0) || (size packet <? 54 + length) then None
    else
      let packet_end := 54 + length in
      w ← walk (enough_headers packet_end) packet packet_end (start packet);
      Some (mkView (take 16 (drop 22 packet)) (take 16 (drop 38 packet))
              (Z.lor (Z.lor (Z.shiftl (Z.land (get packet 15) 15) 16) (Z.shiftl (get packet 16) 8)) (get packet 17))
              length (u16 (w_offset w)) (u16 (w_current_next_header_offset w)) (w_fragment_header_offset w)
              (w_fragment_previous w)
              (u8 (Z.lor (Z.shiftl (Z.land (get packet 14) 15) 4) (Z.shiftr (get packet 15) 4)))
              (get packet 20) (w_current w) (get packet 21) (w_fragment w) (w_authentication w)).

(** ** The fuel suffices *)

Lemma header_length packet packet_end w length w' :
  Forall is_u8 packet -> header_at packet packet_end w = extension length w' -> 8 <= length /\ w_offset w' = w_offset w.
Proof.
  intros Hb. unfold header_at.
  assert (is_u8 (get packet (w_offset w + 1))) as Hg.
  { unfold get. destruct (packet !! Z.to_nat (w_offset w + 1)) as [x|] eqn:E.
    - rewrite (list_lookup_total_correct _ _ _ E). eapply list.Forall_lookup_1; eassumption.
    - rewrite list_lookup_total_alt, E. cbn. unfold is_u8. lia. }
  unfold is_u8 in Hg. repeat case_if; try discriminate; intros [= <- <-]; (split; [|reflexivity]); lia.
Qed.

(** More fuel than the headers that fit does not change the walk: the loop of the
    source, which has none, ends. *)
Lemma walk_enough packet packet_end : Forall is_u8 packet -> forall fuel w n,
  54 <= w_offset w <= packet_end ->
  (packet_end - w_offset w) / 8 < Z.of_nat fuel -> walk (fuel + n) packet packet_end w = walk fuel packet packet_end w.
Proof.
  intros Hb. induction fuel as [|fuel IH]; intros w n Hw Hf; [lia|].
  cbn [Nat.add walk]. destruct (header_at packet packet_end w) as [| |length w'] eqn:E; [done..|].
  apply header_length in E as [Hl Ew]; [|done]. rewrite Ew.
  destruct (_ || _) eqn:Eg; [done|]. bool_to_prop.
  destruct (later_fragment (advance packet length w')); [done|].
  apply IH; unfold advance; cbn [w_offset set_field]; rewrite ?Ew; try lia.
Qed.

End Ipv6.
