(* ===== verification/Ipv6Fragmentation.v ===== *)
(** * IPv6 fragmentation and reassembly (core/src/ip/ipv6_fragmentation.cpp)

    The source encoder and the destination's table of partial datagrams.  The
    sink of the encoder is the caller's: it is a function over the caller's
    context. *)

From S2P Require Import Prelude Catalog Arena Packet Octets Ipv6Packet.
Import Arena.

Module Ipv6Fragmentation.
Import Ipv6Packet.Ipv6 Octets.Octets.

Definition fixed_payload_length_offset : Z := ethernet_header_octets + 4.
Definition fixed_next_header_offset : Z := ethernet_header_octets + 6.
Definition first_extension_offset : Z := ethernet_header_octets + ipv6_header_octets.

(** ** The source *)

Record FragmentInsertion := mkInsertion {
  offset : Z;
  previous_next_header_offset : Z;
  fragment_next_header : Z
}.

Record FragmentLayout := mkLayout {
  insertion : FragmentInsertion;
  packet_end : Z;
  unfragmentable_ip_size : Z;
  per_fragment : Z;
  fragmentable_size : Z;
  count : Z
}.

(** The loop of [insertion_point], for at most [fuel] headers. *)
Fixpoint insertion_loop (fuel : nat) (packet : list Z) (packet_end current offset previous : Z) (routing_seen : bool)
    : option FragmentInsertion :=
  match fuel with
  | O => None
  | S fuel =>
      if negb (current =? ipv6_next_header_hop_by_hop) && negb (current =? ipv6_next_header_routing)
         && negb (current =? ipv6_next_header_destination_options)
      then Some (mkInsertion offset previous current)
      else if packet_end <? offset + 2 then None
      else
        let length := (get packet (offset + 1) + 1) * 8 in
        if packet_end <? offset + length then None
        else if (current =? ipv6_next_header_destination_options)
                && (negb (get packet offset =? ipv6_next_header_routing) || routing_seen)
        then Some (mkInsertion offset previous current)
        else insertion_loop fuel packet packet_end (get packet offset) (offset + length) offset
               (routing_seen || (current =? ipv6_next_header_routing))
  end.

Definition insertion_point (packet : list Z) (packet_end : Z) : option FragmentInsertion :=
  insertion_loop (enough_headers packet_end) packet packet_end (get packet fixed_next_header_offset)
    first_extension_offset fixed_next_header_offset false.

Definition fragment_layout (packet : list Z) (mtu : Z) : option FragmentLayout :=
  view ← parse_ipv6 packet;
  if has_value (fragment view) || (mtu <? ipv6_minimum_link_mtu) then None
  else
    let original_ip_size := ipv6_header_octets + payload_length view in
    if original_ip_size <=? mtu then None
    else
      let packet_end := ethernet_header_octets + original_ip_size in
      insertion ← insertion_point packet packet_end;
      let unfragmentable := offset insertion - ethernet_header_octets in
      if mtu <=? unfragmentable + ipv6_fragment_header_octets then None
      else
        let per_fragment := (mtu - unfragmentable - ipv6_fragment_header_octets) / 8 * 8 in
        let fragmentable_size := packet_end - offset insertion in
        if (per_fragment =? 0) || (fragmentable_size =? 0) then None
        else Some (mkLayout insertion packet_end unfragmentable per_fragment fragmentable_size
                     ((fragmentable_size + per_fragment - 1) / per_fragment)).

Definition ipv6_fragment_count (packet : list Z) (mtu : Z) : option Z := count <$> fragment_layout packet mtu.

(** Zeros up to the minimum of the link. *)
Definition pad (frame : list Z) : list Z :=
  frame ++ replicate (Z.to_nat (ethernet_minimum_without_fcs - size frame)) 0.

(** The fragment at [at_]: headers, Fragment Header, a slice of the rest. *)
Definition fragment_at (packet : list Z) (layout : FragmentLayout) (identification at_ : Z) : list Z :=
  let i := insertion layout in
  let copied := Z.min (per_fragment layout) (fragmentable_size layout - at_) in
  let headers := put (take (Z.to_nat (offset i)) packet) (previous_next_header_offset i) ipv6_next_header_fragment in
  let field := u16 (Z.lor (Z.shiftl (at_ / ipv6_fragment_offset_unit_octets) 3)
                          (if at_ + copied <? fragmentable_size layout then 1 else 0)) in
  let frame := headers ++ [fragment_next_header i; 0] ++ be16 field ++ be32 identification
               ++ slice packet (offset i + at_) copied in
  pad (Packet.write16 frame fixed_payload_length_offset
         (u16 (offset i - first_extension_offset + ipv6_fragment_header_octets + copied))).

Section Source.
Context {S : Type} (sink : S -> list Z -> bool * S).

(** The loop from [at_] on, for at most [fuel] fragments. *)
Fixpoint fragment_loop (fuel : nat) (packet : list Z) (layout : FragmentLayout) (identification at_ counted : Z)
    (context : S) : option Z * S :=
  if at_ <? fragmentable_size layout then
    match fuel with
    | O => (None, context)
    | Datatypes.S fuel =>
        let (admitted, context) := sink context (fragment_at packet layout identification at_) in
        if negb admitted then (None, context)
        else fragment_loop fuel packet layout identification (at_ + per_fragment layout) (counted + 1) context
    end
  else (Some counted, context).

Definition fragment_ipv6_datagram (packet : list Z) (mtu identification : Z) (context : S) : option Z * S :=
  match fragment_layout packet mtu with
  | None => (None, context)
  | Some layout => fragment_loop (Z.to_nat (count layout)) packet layout identification 0 0 context
  end.
End Source.

(** ** The batch *)

Definition minimum_fragment_payload : Z :=
  (ipv6_minimum_link_mtu - ipv6_header_octets - ipv6_fragment_header_octets) / 8 * 8.
Definition maximum_fragment_count : Z :=
  (maximum_frame_octets + minimum_fragment_payload - 1) / minimum_fragment_payload.

Definition append_to_batch (batch : list (list Z)) (fragment : list Z) : bool * list (list Z) :=
  if maximum_fragment_count <=? size batch then (false, batch) else (true, batch ++ [fragment]).

Definition fragment_ipv6 (packet : list Z) (mtu identification : Z) : option (list (list Z)) :=
  match fragment_ipv6_datagram append_to_batch packet mtu identification [] with
  | (Some count, batch) => if count =? size batch then Some batch else None
  | (None, _) => None
  end.

(** ** The destination *)

Inductive Ipv6ReassemblyStatus :=
| not_fragment | incomplete | complete | atomic | malformed | overlap | resource_exhausted.

Record Ipv6ReassemblyResult := mkResult { status : Ipv6ReassemblyStatus; packet : list Z }.
Definition answer (s : Ipv6ReassemblyStatus) : Ipv6ReassemblyResult := mkResult s [].

Record Entry := mkEntry {
  e_source : list Z;
  e_destination : list Z;
  first_fragment : list Z;
  fragmentable : list Z;
  received : list bool;
  expires : Z;
  e_identification : Z;
  e_fragment_header_offset : Z;
  e_previous_next_header_offset : Z;
  extent : Z;
  final_size : Z;
  e_fragment_next_header : Z;
  occupied : bool;
  have_first : bool;
  have_last : bool
}.
#[export] Instance entry_settable : Settable Entry := fun e =>
  mkEntry (e_source e) (e_destination e) (first_fragment e) (fragmentable e) (received e) (expires e)
    (e_identification e) (e_fragment_header_offset e) (e_previous_next_header_offset e) (extent e) (final_size e)
    (e_fragment_next_header e) (occupied e) (have_first e) (have_last e).

Record t := mk { entries_ : list Entry; completed_ : list Z }.
#[export] Instance t_settable : Settable t := fun s => mk (entries_ s) (completed_ s).

Definition no_address : list Z := replicate 16 0.
Definition no_receipts : list bool := replicate (Z.to_nat maximum_ipv6_payload_octets) false.

Definition clear (e : Entry) : Entry :=
  mkEntry no_address no_address [] (fragmentable e) no_receipts 0 0 0 0 0 0 0 false false false.

Definition construct : t :=
  mk (replicate (Z.to_nat Catalog.ipv6_reassembly_entries_per_endpoint)
        (mkEntry no_address no_address [] (replicate (Z.to_nat maximum_ipv6_payload_octets) 0) no_receipts
           0 0 0 0 0 0 0 false false false))
     (replicate (Z.to_nat maximum_ethernet_ipv6_datagram_octets) 0).

(** The entry of a datagram: source, destination and identification. *)
Definition matches (view : Ipv6View) (e : Entry) : bool :=
  occupied e && bool_decide (e_source e = source view) && bool_decide (e_destination e = destination view)
  && match fragment view with Some f => e_identification e =? identification f | None => false end.

(** The first slot that satisfies a test. *)
Fixpoint first_slot (test : Entry -> bool) (entries : list Entry) : option nat :=
  match entries with
  | [] => None
  | e :: entries => if test e then Some O else S <$> first_slot test entries
  end.

Definition find (s : t) (view : Ipv6View) : option nat := first_slot (matches view) (entries_ s).

Definition allocate (s : t) (view : Ipv6View) (f : Ipv6FragmentView) (now : Z) : option nat * t :=
  match first_slot (fun e => negb (occupied e)) (entries_ s) with
  | None => (None, s)
  | Some slot =>
      (Some slot, s <| entries_ := alter (fun e =>
         (clear e) <| occupied := true |> <| e_source := source view |> <| e_destination := destination view |>
           <| e_identification := identification f |> <| expires := now + Catalog.ipv6_reassembly_timeout |>)
         slot (entries_ s) |>)
  end.

Definition update (s : t) (slot : nat) (e : Entry) : t := s <| entries_ := <[slot := e]> (entries_ s) |>.

(** The span [completed_.first(length)] after zeros up to the link's minimum. *)
Definition padded (completed : list Z) (length : Z) : list Z * list Z :=
  let padding := ethernet_minimum_without_fcs - length in
  let completed := Packet.copy_at completed length (replicate (Z.to_nat padding) 0) in
  (take (Z.to_nat (Z.max length ethernet_minimum_without_fcs)) completed, completed).

(** The span is empty when the datagram cannot be assembled. *)
Definition assemble (s : t) (e : Entry) : list Z * t :=
  if negb (have_first e) || negb (have_last e) || (final_size e =? 0) then ([], s)
  else
    let unfragmentable_payload := e_fragment_header_offset e - first_extension_offset in
    let reassembled_payload := unfragmentable_payload + final_size e in
    let packet_end := first_extension_offset + reassembled_payload in
    if (maximum_ipv6_payload_octets <? reassembled_payload) || (size (completed_ s) <? packet_end) then ([], s)
    else
      let c := Packet.copy_at (completed_ s) 0 (take (Z.to_nat (e_fragment_header_offset e)) (first_fragment e)) in
      let c := put c (e_previous_next_header_offset e) (e_fragment_next_header e) in
      let c := Packet.copy_at c (e_fragment_header_offset e) (take (Z.to_nat (final_size e)) (fragmentable e)) in
      let c := Packet.write16 c fixed_payload_length_offset (u16 reassembled_payload) in
      let (packet, c) := padded c packet_end in
      (packet, s <| completed_ := c |>).

Definition expire (s : t) (now : Z) : t :=
  s <| entries_ := (fun e => if occupied e && (expires e <=? now) then clear e else e) <$> entries_ s |>.

Definition discard_all (s : t) : t := s <| entries_ := clear <$> entries_ s |>.

(** An atomic fragment is normalized without touching the entries. *)
Definition accept_atomic (s : t) (view : Ipv6View) (frame : list Z) (packet_end : Z) : Ipv6ReassemblyResult * t :=
  let header := fragment_header_offset view in
  if (header =? 0) || (packet_end <? header + ipv6_fragment_header_octets) then (answer malformed, s)
  else
    let c := Packet.copy_at (completed_ s) 0 (take (Z.to_nat header) frame) in
    let c := Packet.copy_at c header
               (slice frame (header + ipv6_fragment_header_octets) (packet_end - (header + ipv6_fragment_header_octets))) in
    let c := put c (fragment_previous_next_header_offset view) (get frame header) in
    let c := Packet.write16 c fixed_payload_length_offset (u16 (payload_length view - ipv6_fragment_header_octets)) in
    let (packet, c) := padded c (packet_end - ipv6_fragment_header_octets) in
    (mkResult atomic packet, s <| completed_ := c |>).

(** [received.test(i)] for some, or for every, [i] of [n] from [first] on. *)
Fixpoint any_received (n : nat) (bits : list bool) (first : Z) : bool :=
  match n with O => false | S n => bits !!! Z.to_nat first || any_received n bits (first + 1) end.
Fixpoint all_received (n : nat) (bits : list bool) (first : Z) : bool :=
  match n with O => true | S n => bits !!! Z.to_nat first && all_received n bits (first + 1) end.

(** [received.set(i)] for [n] bits from [first] on. *)
Fixpoint set_received (n : nat) (bits : list bool) (first : Z) : list bool :=
  match n with O => bits | S n => set_received n (<[Z.to_nat first := true]> bits) (first + 1) end.

(** A fragment as the table reads it: where its data starts, its size, where it
    belongs. *)
Record Placement := mkPlacement { data_start : Z; data_size : Z; data_offset : Z }.

Definition placement (view : Ipv6View) (f : Ipv6FragmentView) : option Placement :=
  let packet_end := first_extension_offset + payload_length view in
  let data_start := fragment_header_offset view + ipv6_fragment_header_octets in
  if packet_end <? data_start then None
  else
    let data_size := packet_end - data_start in
    let offset := fragment_offset f * ipv6_fragment_offset_unit_octets in
    let unfragmentable_payload := fragment_header_offset view - first_extension_offset in
    if (data_size =? 0)
       || (more_fragments f && negb (data_size mod ipv6_fragment_offset_unit_octets =? 0))
       || (maximum_ipv6_payload_octets <? offset + data_size)
       || (maximum_ipv6_payload_octets <? unfragmentable_payload + offset + data_size)
    then None
    else Some (mkPlacement data_start data_size offset).

(** The entry with the fragment's headers, data and receipts. *)
Definition written (e : Entry) (view : Ipv6View) (frame : list Z) (p : Placement) : Entry :=
  let first := data_offset p =? 0 in
  mkEntry (e_source e) (e_destination e) (if first then frame else first_fragment e)
    (Packet.copy_at (fragmentable e) (data_offset p) (slice frame (data_start p) (data_size p)))
    (set_received (Z.to_nat (data_size p)) (received e) (data_offset p)) (expires e) (e_identification e)
    (fragment_header_offset view) (fragment_previous_next_header_offset view)
    (Z.max (extent e) (data_offset p + data_size p)) (final_size e) (get frame (fragment_header_offset view))
    (occupied e) (if first then true else have_first e) (have_last e).

(** The entry whose end is known. *)
Definition ended (e : Entry) (size : Z) : Entry :=
  mkEntry (e_source e) (e_destination e) (first_fragment e) (fragmentable e) (received e) (expires e)
    (e_identification e) (e_fragment_header_offset e) (e_previous_next_header_offset e) (extent e) (u16 size)
    (e_fragment_next_header e) (occupied e) (have_first e) true.

(** The entry that took the fragment, or the verdict that releases the entry. *)
Definition place (e : Entry) (view : Ipv6View) (f : Ipv6FragmentView) (frame : list Z) (p : Placement)
    : Ipv6ReassemblyStatus * Entry + Entry :=
  let last_ := data_offset p + data_size p in
  if negb (e_fragment_header_offset e =? 0)
     && (negb (e_fragment_header_offset e =? fragment_header_offset view)
         || negb (e_fragment_next_header e =? get frame (fragment_header_offset view)))
  then inl (malformed, e)
  else if (have_last e && (final_size e <? last_)) || any_received (Z.to_nat (data_size p)) (received e) (data_offset p)
  then inl (overlap, e)
  else
    let e := written e view frame p in
    if negb (more_fragments f) then
      if (have_last e && negb (final_size e =? last_)) || (last_ <? extent e) then inl (malformed, e)
      else inr (ended e last_)
    else inr e.

Definition whole (e : Entry) : bool :=
  have_first e && have_last e && all_received (Z.to_nat (final_size e)) (received e) 0.

Definition accept (s : t) (frame : list Z) (now : Z) : Ipv6ReassemblyResult * t :=
  let s := expire s now in
  match parse_ipv6 frame with
  | None => (answer malformed, s)
  | Some view =>
      match fragment view with
      | None => (answer not_fragment, s)
      | Some f =>
          let packet_end := first_extension_offset + payload_length view in
          if (fragment_offset f =? 0) && negb (more_fragments f) then accept_atomic s view frame packet_end
          else
            match placement view f with
            | None => (answer malformed, s)
            | Some p =>
                let (slot, s) := match find s view with Some slot => (Some slot, s) | None => allocate s view f now end in
                match slot with
                | None => (answer resource_exhausted, s)
                | Some slot =>
                    match entries_ s !! slot with
                    | None => (answer resource_exhausted, s)
                    | Some e =>
                        match place e view f frame p with
                        | inl (verdict, e) => (answer verdict, update s slot (clear e))
                        | inr e =>
                            if whole e then
                              let (packet, s) := assemble (update s slot e) e in
                              (mkResult (match packet with [] => malformed | _ => complete end) packet,
                               update s slot (clear e))
                            else (answer incomplete, update s slot e)
                        end
                    end
                end
            end
      end
  end.

Definition next_deadline (s : t) : option Z :=
  fold_left (fun result e =>
    if occupied e && match result with None => true | Some r => expires e <? r end then Some (expires e) else result)
    (entries_ s) None.

Definition active (s : t) : Z := size (List.filter occupied (entries_ s)).

(** ** Checkpoints *)

Record Checkpoint := mkCheckpoint {
  ck_source : list Z;
  ck_destination : list Z;
  ck_first_fragment : list Z;
  ck_fragmentable : list Z;
  ck_received : list Z;
  remaining_nanoseconds : Z;
  ck_identification : Z;
  ck_fragment_header_offset : Z;
  ck_previous_next_header_offset : Z;
  ck_final_size : Z;
  ck_fragment_next_header : Z;
  ck_have_first : bool;
  ck_have_last : bool
}.

Definition bitmap_bit (bitmap : list Z) (index : Z) : bool :=
  negb (Z.land (get bitmap (index / 8)) (u8 (Z.shiftl 1 (index mod 8))) =? 0).

Definition set_bitmap_bit (bitmap : list Z) (index : Z) : list Z :=
  put bitmap (index / 8) (Z.lor (get bitmap (index / 8)) (u8 (Z.shiftl 1 (index mod 8)))).

(** The first [n] receipts from [index] on, packed. *)
Fixpoint pack_receipts (n : nat) (bits : list bool) (index : Z) (bitmap : list Z) : list Z :=
  match n with
  | O => bitmap
  | S n => pack_receipts n bits (index + 1)
             (if (bits !!! Z.to_nat index : bool) then set_bitmap_bit bitmap index else bitmap)
  end.

Definition save (now : Z) (e : Entry) : Checkpoint :=
  mkCheckpoint (e_source e) (e_destination e) (first_fragment e) (take (Z.to_nat (extent e)) (fragmentable e))
    (pack_receipts (Z.to_nat (extent e)) (received e) 0 (replicate (Z.to_nat ((extent e + 7) / 8)) 0))
    (if now <? expires e then expires e - now else 0) (e_identification e) (e_fragment_header_offset e)
    (e_previous_next_header_offset e) (final_size e) (e_fragment_next_header e) (have_first e) (have_last e).

Definition checkpoint (s : t) (now : Z) : list Checkpoint := save now <$> List.filter occupied (entries_ s).

Definition same_datagram (a b : Checkpoint) : bool :=
  bool_decide (ck_source a = ck_source b) && bool_decide (ck_destination a = ck_destination b)
  && (ck_identification a =? ck_identification b).

(** Some bit of the [n] from [index] on is set. *)
Fixpoint any_bit (n : nat) (bitmap : list Z) (index : Z) : bool :=
  match n with O => false | S n => bitmap_bit bitmap index || any_bit n bitmap (index + 1) end.

Definition first_fragment_valid (c : Checkpoint) : bool :=
  if ck_have_first c then
    match parse_ipv6 (ck_first_fragment c) with
    | Some first =>
        match fragment first with
        | Some f => bool_decide (source first = ck_source c) && bool_decide (destination first = ck_destination c)
                    && (identification f =? ck_identification c) && (fragment_offset f =? 0)
                    && (fragment_header_offset first =? ck_fragment_header_offset c)
        | None => false
        end
    | None => false
    end
  else size (ck_first_fragment c) =? 0.

Definition entry_valid (c : Checkpoint) : bool :=
  let extent := size (ck_fragmentable c) in
  negb ((remaining_nanoseconds c <? 0) || (extent =? 0) || (maximum_ipv6_payload_octets <? extent)
        || negb (size (ck_received c) =? (extent + 7) / 8) || (ck_fragment_header_offset c <? first_extension_offset)
        || (maximum_frame_octets <=? ck_fragment_header_offset c)
        || (maximum_frame_octets <=? ck_previous_next_header_offset c) || (extent <? ck_final_size c)
        || negb (eqb (ck_have_last c) (negb (ck_final_size c =? 0))))
  && negb (negb (extent mod 8 =? 0)
           && negb (Z.land (get (ck_received c) (size (ck_received c) - 1)) (u8 (Z.shiftl 255 (extent mod 8))) =? 0))
  && first_fragment_valid c
  && negb (ck_have_last c && any_bit (Z.to_nat (extent - ck_final_size c)) (ck_received c) (ck_final_size c)).

(** Each entry after those before it. *)
Fixpoint entries_valid (before state : list Checkpoint) : bool :=
  match state with
  | [] => true
  | c :: state => entry_valid c && negb (existsb (fun p => same_datagram p c) before) && entries_valid (before ++ [c]) state
  end.

Definition validate_checkpoint (state : list Checkpoint) : bool :=
  negb (Catalog.ipv6_reassembly_entries_per_endpoint <? size state) && entries_valid [] state.

(** [received.set(i, bit)] for [n] bits from [index] on. *)
Fixpoint unpack_receipts (n : nat) (bitmap : list Z) (index : Z) (bits : list bool) : list bool :=
  match n with
  | O => bits
  | S n => unpack_receipts n bitmap (index + 1) (<[Z.to_nat index := bitmap_bit bitmap index]> bits)
  end.

Definition reload (now : Z) (c : Checkpoint) (e : Entry) : Entry :=
  mkEntry (ck_source c) (ck_destination c) (ck_first_fragment c) (Packet.copy_at (fragmentable e) 0 (ck_fragmentable c))
    (unpack_receipts (length (ck_fragmentable c)) (ck_received c) 0 (received e)) (now + remaining_nanoseconds c)
    (ck_identification c) (ck_fragment_header_offset c) (ck_previous_next_header_offset c)
    (u32 (size (ck_fragmentable c))) (ck_final_size c) (ck_fragment_next_header c) true (ck_have_first c) (ck_have_last c).

Fixpoint reload_all (now : Z) (state : list Checkpoint) (entries : list Entry) : list Entry :=
  match state, entries with
  | c :: state, e :: entries => reload now c e :: reload_all now state entries
  | _, _ => entries
  end.

Definition restore (s : t) (state : list Checkpoint) (now : Z) : bool * t :=
  if negb (validate_checkpoint state) then (false, s)
  else (true, s <| entries_ := reload_all now state (clear <$> entries_ s) |>).

End Ipv6Fragmentation.
