(* ===== verification/Ipv6Fragments.v ===== *)
(** * What the source sends

    The layout of a datagram, the octets of each fragment, and what the parser of
    the destination reads in them. *)

From S2P Require Import Prelude Arena Packet Octets Ipv6Packet Ipv6Fragmentation.
Import Arena.

Module Ipv6Fragments.
Import Ipv6Packet.Ipv6 Octets.Octets Ipv6Fragmentation.Ipv6Fragmentation.

#[local] Existing Instance walk_settable.

(** ** The walk up to the insertion point *)

Definition cursor (offset current previous : Z) : Walk := mkWalk offset current previous None 0 0 false.

(** One option header of the chain. *)
Lemma walk_option m packet e off cur prev w :
  cur = 0 \/ cur = 43 \/ cur = 60 ->
  walk (S m) packet e (cursor off cur prev) = Some w ->
  let length := (get packet (off + 1) + 1) * 8 in
  (cur = 0 -> off = 54) /\ off + 2 <= e /\ off + length <= e
  /\ walk m packet e (cursor (off + length) (get packet off) off) = Some w.
Proof.
  intros Hc. cbn [walk]. unfold header_at, cursor. cbn [w_current w_offset w_fragment].
  assert ((cur =? 0) || (cur =? 43) || (cur =? 60) = true) as -> by (destruct Hc as [->|[->| ->]]; reflexivity).
  destruct (((cur =? 0) && negb (off =? 54)) || (e <? off + 2)) eqn:E1; [discriminate|].
  apply orb_false_iff in E1 as [E1 E2]. cbn [w_offset].
  destruct (((get packet (off + 1) + 1) * 8 =? 0) || (e <? off + (get packet (off + 1) + 1) * 8)) eqn:E3; [discriminate|].
  apply orb_false_iff in E3 as [E3 E4].
  intros H. cbn [later_fragment advance w_fragment set_field] in H. split_and!; [|lia|lia|exact H].
  intros ->. cbn in E1. lia.
Qed.

Lemma step_option m packet e off cur prev :
  cur = 0 \/ cur = 43 \/ cur = 60 -> (cur = 0 -> off = 54) ->
  let length := (get packet (off + 1) + 1) * 8 in
  off + 2 <= e -> 0 < length -> off + length <= e ->
  walk (S m) packet e (cursor off cur prev) = walk m packet e (cursor (off + length) (get packet off) off).
Proof.
  intros Hc H0 length He Hpos Hl. cbn [walk]. unfold header_at, cursor. cbn [w_current w_offset w_fragment].
  assert ((cur =? 0) || (cur =? 43) || (cur =? 60) = true) as -> by (destruct Hc as [->|[->| ->]]; reflexivity).
  assert (((cur =? 0) && negb (off =? 54)) || (e <? off + 2) = false) as ->.
  { apply orb_false_iff. split; [|lia]. destruct (Z.eqb_spec cur 0); [|done]. rewrite H0 by done. done. }
  cbn [w_offset]. fold length.
  assert ((length =? 0) || (e <? off + length) = false) as -> by (apply orb_false_iff; lia).
  reflexivity.
Qed.

(** [F] repeats the unfragmentable part of [P], with the Fragment Header announced. *)
Record announces (P F : list Z) (i : FragmentInsertion) : Prop := mkAnnounces {
  an_same : forall k, 54 <= k < offset i -> k <> previous_next_header_offset i -> get F k = get P k;
  an_next : get F (previous_next_header_offset i) = 44
}.

(** The headers before the insertion point: [i] is reached from [off] along option
    headers. *)
Inductive chain (P : list Z) (e : Z) (i : FragmentInsertion) : Z -> Z -> Z -> Prop :=
| chain_here off cur prev : i = mkInsertion off prev cur -> chain P e i off cur prev
| chain_next off cur prev :
    cur = 0 \/ cur = 43 \/ cur = 60 -> off + 2 <= e -> off + (get P (off + 1) + 1) * 8 <= e ->
    chain P e i (off + (get P (off + 1) + 1) * 8) (get P off) off -> chain P e i off cur prev.

Lemma insertion_chain P e fuel : forall cur off prev seen i,
  insertion_loop fuel P e cur off prev seen = Some i -> chain P e i off cur prev.
Proof.
  induction fuel as [|fuel IH]; intros cur off prev seen i; [discriminate|]. cbn [insertion_loop].
  unfold ipv6_next_header_hop_by_hop, ipv6_next_header_routing, ipv6_next_header_destination_options.
  destruct (_ && _ && _) eqn:E; [intros [= <-]; now constructor|].
  assert (cur = 0 \/ cur = 43 \/ cur = 60) as Hc.
  { rewrite !andb_false_iff, !negb_false_iff, !Z.eqb_eq in E. tauto. }
  case_if; [discriminate|]. case_if; [discriminate|]. case_if; [intros [= <-]; now constructor|].
  intros H. apply chain_next; auto. now apply IH in H.
Qed.

(** More fuel does not change the insertion point. *)
Lemma insertion_enough P e : Forall is_u8 P -> forall fuel n cur off prev seen,
  off <= e -> (e - off) / 8 < Z.of_nat fuel ->
  insertion_loop (fuel + n) P e cur off prev seen = insertion_loop fuel P e cur off prev seen.
Proof.
  intros HP. induction fuel as [|fuel IH]; intros n cur off prev seen Ho Hf; [lia|].
  cbn [Nat.add insertion_loop]. case_if; [done|]. case_if; [done|]. case_if; [done|]. case_if; [done|].
  pose proof (get_word P (off + 1) HP) as Hb. unfold is_u8 in Hb. apply IH; lia.
Qed.

Lemma chain_bounds P e i off cur prev :
  Forall is_u8 P -> chain P e i off cur prev -> prev < off ->
  off <= offset i /\ prev <= previous_next_header_offset i < offset i
  /\ (i = mkInsertion off prev cur \/ off <= previous_next_header_offset i).
Proof.
  intros HP H. induction H as [off cur prev ->|off cur prev Hc H1 H2 H IH]; intros Hp; cbn [offset previous_next_header_offset].
  - split_and!; auto; lia.
  - pose proof (get_word P (off + 1) HP) as Hw. unfold is_u8 in Hw. destruct IH as (H3 & H4 & H5); [lia|].
    split_and!; auto; lia.
Qed.

Section Chain.
Context (P F : list Z) (e e' : Z) (i : FragmentInsertion).
Context (HP : Forall is_u8 P) (HF : announces P F i) (He' : offset i + 8 <= e').

(** The announced chain is walked like the original up to the insertion point. *)
Lemma chain_walk off cur prev :
  chain P e i off cur prev -> 54 <= off -> prev < off -> forall m n w,
  walk m P e (cursor off cur prev) = Some w -> (offset i - off) / 8 < Z.of_nat n ->
  exists n', (0 < n')%nat /\ Z.of_nat n - (offset i - off) / 8 <= Z.of_nat n'
    /\ walk n F e' (cursor off (if previous_next_header_offset i =? prev then 44 else cur) prev)
       = walk n' F e' (cursor (offset i) 44 (previous_next_header_offset i)).
Proof.
  intros H. induction H as [off cur prev Ei|off cur prev Hc H1 H2 H IH]; intros Ho Hp m n w Hw Hn.
  - subst i. cbn [offset previous_next_header_offset] in *. rewrite Z.eqb_refl. rewrite Z.sub_diag in *.
    exists n. split_and!; [lia|lia|reflexivity].
  - pose proof (get_word P (off + 1) HP) as Hb. unfold is_u8 in Hb.
    destruct (chain_bounds _ _ _ _ _ _ HP H ltac:(lia)) as (B1 & B2 & _).
    destruct m as [|m]; [discriminate|]. destruct (walk_option m P e off cur prev w Hc Hw) as (H0 & _ & _ & Hw').
    destruct HF as [Hsame Hnext].
    assert (get F (off + 1) = get P (off + 1)) as Ef.
    { apply Hsame; [lia|]. destruct (chain_bounds _ _ _ _ _ _ HP H ltac:(lia)) as (_ & _ & [Ei|B3]); [|lia].
      rewrite Ei. cbn. lia. }
    destruct (Z.eqb_spec (previous_next_header_offset i) prev); [lia|].
    destruct n as [|n]; [lia|].
    rewrite step_option; auto; rewrite ?Ef; [|lia..].
    destruct (IH ltac:(lia) ltac:(lia) m n w Hw' ltac:(lia)) as (n' & Hn1 & Hn2 & E).
    exists n'. split_and!; [done|lia|]. rewrite <- E. f_equal. f_equal.
    destruct (Z.eqb_spec (previous_next_header_offset i) off) as [Eq|Hne]; [congruence|].
    apply Hsame; lia.
Qed.
End Chain.

(** ** The layout *)

Record laid_out (P : list Z) (mtu : Z) (l : FragmentLayout) : Prop := mkLaidOut {
  lo_view : exists v, parse_ipv6 P = Some v /\ fragment v = None /\ packet_end l = 54 + payload_length v;
  lo_walk : exists m w, walk m P (packet_end l) (cursor 54 (get P 20) 20) = Some w;
  lo_chain : chain P (packet_end l) (insertion l) 54 (get P 20) 20;
  lo_mtu : ipv6_minimum_link_mtu <= mtu;
  lo_end : packet_end l <= size P /\ mtu + 14 < packet_end l <= 54 + 65535;
  lo_per : per_fragment l = (mtu - (offset (insertion l) - 14) - 8) / 8 * 8 /\ 0 < per_fragment l;
  lo_size : fragmentable_size l = packet_end l - offset (insertion l) /\ 0 < fragmentable_size l;
  lo_count : count l = (fragmentable_size l + per_fragment l - 1) / per_fragment l
}.

Lemma parse_start P v : parse_ipv6 P = Some v ->
  54 <= size P /\ 0 < payload_length v /\ 54 + payload_length v <= size P
  /\ payload_length v = Packet.read16 P 18 /\ get P 12 = 134 /\ get P 13 = 221 /\ Z.shiftr (get P 14) 4 = 6
  /\ source v = take 16 (drop 22 P) /\ destination v = take 16 (drop 38 P)
  /\ exists w, walk (enough_headers (54 + payload_length v)) P (54 + payload_length v) (start P) = Some w
     /\ fragment v = w_fragment w /\ fragment_header_offset v = w_fragment_header_offset w
     /\ fragment_previous_next_header_offset v = w_fragment_previous w.
Proof.
  unfold parse_ipv6. case_if; [discriminate|]. cbv zeta. case_if; [discriminate|].
  bool_to_prop. destruct (walk _ _ _ _) as [w|] eqn:Ew; cbn [mbind option_bind]; [|discriminate]. intros [= <-].
  cbn [payload_length source destination fragment fragment_header_offset fragment_previous_next_header_offset].
  pose proof (u16_range (Z.lor (Z.shiftl (get P 18) 8) (get P (18 + 1)))) as Hr. fold (Packet.read16 P 18) in Hr. unfold is_u16 in Hr.
  split_and!; auto; try lia. exists w. now split_and!.
Qed.

Lemma layout_laid_out P mtu l : Forall is_u8 P -> fragment_layout P mtu = Some l -> laid_out P mtu l.
Proof.
  intros HP. unfold fragment_layout. destruct (parse_ipv6 P) as [v|] eqn:Ev; cbn [mbind option_bind]; [|discriminate].
  destruct (has_value (fragment v) || _) eqn:E1; [discriminate|]. apply orb_false_iff in E1 as [Ef Em].
  unfold ipv6_header_octets, ethernet_header_octets, ipv6_fragment_header_octets.
  destruct (40 + payload_length v <=? mtu) eqn:E2; [discriminate|].
  destruct (insertion_point P (14 + (40 + payload_length v))) as [i|] eqn:Ei; cbn [mbind option_bind]; [|discriminate].
  destruct (mtu <=? _) eqn:E3; [discriminate|]. destruct (_ || _) eqn:E4; [discriminate|]. apply orb_false_iff in E4 as [E4 E5].
  intros [= <-]. destruct (parse_start P v Ev) as (H1 & H2 & H3 & H4 & _ & _ & _ & _ & _ & w & Hw & _).
  pose proof (u16_range (Z.lor (Z.shiftl (get P 18) 8) (get P (18 + 1)))) as Hr. fold (Packet.read16 P 18) in Hr. unfold is_u16 in Hr.
  apply insertion_chain in Ei. change fixed_next_header_offset with 20 in Ei. change first_extension_offset with 54 in Ei.
  destruct (chain_bounds _ _ _ _ _ _ HP Ei ltac:(lia)) as (B1 & B2 & _).
  replace (14 + (40 + payload_length v)) with (54 + payload_length v) in * by lia.
  constructor; cbn [packet_end insertion per_fragment fragmentable_size count]; auto; try lia.
  - exists v. split_and!; auto. now destruct (fragment v).
  - eexists _, w. exact Hw.
Qed.

(** A Fragment Header met once is the one the view reports. *)
Lemma walk_keeps n packet e : forall w w' f,
  walk n packet e w = Some w' -> w_fragment w = Some f ->
  w_fragment w' = Some f /\ w_fragment_header_offset w' = w_fragment_header_offset w
  /\ w_fragment_previous w' = w_fragment_previous w.
Proof.
  induction n as [|n IH]; intros w w' f; [discriminate|]. cbn [walk]. intros H Hf.
  destruct (header_at packet e w) as [| |length w1] eqn:Eh; [discriminate|injection H as <-; now split_and!|].
  assert (w_fragment w1 = Some f /\ w_fragment_header_offset w1 = w_fragment_header_offset w
    /\ w_fragment_previous w1 = w_fragment_previous w) as (E1 & E2 & E3).
  { revert Eh. unfold header_at. rewrite Hf. cbn [has_value orb]. repeat case_if; try discriminate; intros [= <- <-]; now split_and!. }
  revert H. case_if; [discriminate|]. case_if; [intros [= <-]; now split_and!|].
  intros H. apply IH with (f := f) in H; [|exact E1]. destruct H as (-> & -> & ->). now split_and!.
Qed.

(** What the destination reads in the fragment at [at_]. *)
Record reads (P : list Z) (l : FragmentLayout) (id at_ : Z) (v : Ipv6View) (f : Ipv6FragmentView) : Prop := mkReads {
  rd_source : source v = take 16 (drop 22 P);
  rd_destination : destination v = take 16 (drop 38 P);
  rd_length : payload_length v
              = offset (insertion l) - 54 + 8 + Z.min (per_fragment l) (fragmentable_size l - at_);
  rd_header : fragment_header_offset v = offset (insertion l);
  rd_previous : fragment_previous_next_header_offset v = previous_next_header_offset (insertion l);
  rd_fragment : fragment v = Some f;
  rd_id : identification f = id;
  rd_offset : fragment_offset f * 8 = at_;
  rd_more : more_fragments f = (at_ + Z.min (per_fragment l) (fragmentable_size l - at_) <? fragmentable_size l)
}.

Section Fragment.
Context (P : list Z) (mtu id at_ : Z) (l : FragmentLayout).
Context (HP : Forall is_u8 P) (HL : laid_out P mtu l) (Hmtu : mtu + 14 <= maximum_frame_octets) (Hid : is_u32 id).
Context (Hat : 0 <= at_ < fragmentable_size l) (Hunit : at_ mod 8 = 0).

Abbreviation i := (insertion l).
Abbreviation F := (fragment_at P l id at_).
Abbreviation copied := (Z.min (per_fragment l) (fragmentable_size l - at_)).

Lemma insertion_bounds : 54 <= offset i /\ 20 <= previous_next_header_offset i < offset i.
Proof. destruct (chain_bounds _ _ _ _ _ _ HP (lo_chain _ _ _ HL) ltac:(lia)) as (B1 & B2 & _). lia. Qed.

Lemma fragment_bounds :
  0 < copied /\ offset i + 8 + copied <= mtu + 14 /\ offset i + at_ + copied <= packet_end l <= size P
  /\ at_ <= 65535 /\ fragmentable_size l <= 65535.
Proof. pose proof insertion_bounds. destruct HL. lia. Qed.

(** The frame before the payload length is written. *)
Abbreviation header := (put (take (Z.to_nat (offset i)) P) (previous_next_header_offset i) 44).
Abbreviation body := ([fragment_next_header i; 0]
  ++ be16 (u16 (Z.lor (Z.shiftl (at_ / 8) 3) (if at_ + copied <? fragmentable_size l then 1 else 0)))
  ++ be32 id ++ slice P (offset i + at_) copied).

Lemma size_header : size header = offset i.
Proof. pose proof insertion_bounds. pose proof fragment_bounds. rewrite size_put, size_take; lia. Qed.

Lemma size_body : size body = 8 + copied.
Proof.
  pose proof insertion_bounds. pose proof fragment_bounds. rewrite !size_app, size_slice by lia.
  change (size [fragment_next_header i; 0]) with 2. change (size (be16 _)) with 2. change (size (be32 id)) with 4. lia.
Qed.

Lemma size_frame : size (header ++ body) = offset i + 8 + copied.
Proof. rewrite size_app, size_header, size_body. lia. Qed.

Lemma fragment_frame : F = Packet.write16 (header ++ body) 18 (u16 (offset i - 54 + 8 + copied)).
Proof.
  unfold fragment_at, pad. pose proof insertion_bounds. pose proof fragment_bounds.
  unfold ipv6_fragment_offset_unit_octets, ipv6_fragment_header_octets, ipv6_next_header_fragment.
  change fixed_payload_length_offset with 18. change first_extension_offset with 54.
  set (frame := Packet.write16 _ 18 _). assert (size frame = offset i + 8 + copied) as Hs.
  { unfold frame. rewrite size_write16. exact size_frame. }
  replace (Z.to_nat (ethernet_minimum_without_fcs - size frame)) with 0%nat; [apply app_nil_r|].
  unfold ethernet_minimum_without_fcs. lia.
Qed.

Lemma size_fragment : size F = offset i + 8 + copied.
Proof. rewrite fragment_frame, size_write16. exact size_frame. Qed.

Lemma get_fragment_header k :
  0 <= k < offset i -> k <> 18 -> k <> 19 ->
  get F k = if k =? previous_next_header_offset i then 44 else get P k.
Proof.
  intros Hk H1 H2. pose proof insertion_bounds. pose proof fragment_bounds. rewrite fragment_frame.
  rewrite get_write16 by (rewrite ?size_frame; lia).
  destruct (Z.eqb_spec k 18), (Z.eqb_spec k (18 + 1)); try lia. rewrite get_before_app by (rewrite size_header; lia).
  rewrite get_put by (rewrite ?size_take; lia). rewrite Z.eqb_sym. case_if; [done|]. apply get_take. lia.
Qed.

Lemma get_fragment_body k : 0 <= k < 8 + copied -> get F (offset i + k) = get body k.
Proof.
  intros Hk. pose proof insertion_bounds. pose proof fragment_bounds. rewrite fragment_frame.
  rewrite get_write16 by (rewrite ?size_frame; lia).
  destruct (Z.eqb_spec (offset i + k) 18), (Z.eqb_spec (offset i + k) (18 + 1)); try lia.
  rewrite get_after_app by (rewrite size_header; lia). f_equal. rewrite size_header. lia.
Qed.

Lemma fragment_length : Packet.read16 F 18 = offset i - 54 + 8 + copied.
Proof.
  pose proof insertion_bounds. pose proof fragment_bounds. rewrite fragment_frame.
  unfold maximum_frame_octets in *. rewrite read16_write16; [|lia|rewrite size_frame; lia|apply u16_range].
  unfold u16. rewrite Z.mod_small; lia.
Qed.

Lemma fragment_data : slice F (offset i + 8) copied = slice P (offset i + at_) copied.
Proof.
  pose proof insertion_bounds. pose proof fragment_bounds. pose proof size_fragment.
  apply get_ext; [rewrite !size_slice; lia|]. rewrite size_slice by lia. intros k Hk. rewrite !get_slice by lia.
  replace (offset i + 8 + k) with (offset i + (8 + k)) by lia. rewrite get_fragment_body by lia.
  change (get (([fragment_next_header i; 0] ++ be16 (u16 (Z.lor (Z.shiftl (at_ / 8) 3) (if at_ + copied <? fragmentable_size l then 1 else 0)))
    ++ be32 id) ++ slice P (offset i + at_) copied) (8 + k) = get P (offset i + at_ + k)).
  rewrite get_after_app by (change (size _) with 8; lia). change (size _) with 8.
  rewrite get_slice by lia. f_equal. lia.
Qed.

Lemma fragment_word : Packet.read16 F (offset i + 2)
  = at_ + (if at_ + copied <? fragmentable_size l then 1 else 0).
Proof.
  pose proof insertion_bounds. pose proof fragment_bounds.
  unfold Packet.read16. replace (offset i + 2 + 1) with (offset i + 3) by lia. rewrite !get_fragment_body by lia.
  etransitivity; [exact (be16_read _ (u16_range _))|].
  set (m := if at_ + copied <? fragmentable_size l then 1 else 0).
  assert (0 <= m <= 1) by (unfold m; case_if; lia).
  rewrite lor_shiftl by lia. unfold u16. rewrite Z.mod_small; lia.
Qed.

Lemma fragment_id : Packet.read32 F (offset i + 4) = id.
Proof.
  pose proof insertion_bounds. pose proof fragment_bounds. unfold Packet.read32.
  replace (offset i + 4 + 1) with (offset i + 5) by lia. replace (offset i + 4 + 2) with (offset i + 6) by lia.
  replace (offset i + 4 + 3) with (offset i + 7) by lia. rewrite !get_fragment_body by lia.
  exact (be32_read id Hid).
Qed.

Lemma fragment_view_fields :
  let f := fragment_fields F (offset i) in
  identification f = id /\ fragment_offset f * 8 = at_ /\ more_fragments f = (at_ + copied <? fragmentable_size l).
Proof.
  pose proof fragment_bounds. unfold fragment_fields. rewrite fragment_word, fragment_id.
  cbn [identification fragment_offset more_fragments].
  set (m := if at_ + copied <? fragmentable_size l then 1 else 0).
  assert (m = if at_ + copied <? fragmentable_size l then 1 else 0) as Hm by reflexivity.
  assert (0 <= m <= 1) by (rewrite Hm; case_if; lia).
  split_and!; [done| |].
  - rewrite Z.shiftr_div_pow2 by lia. change 8191 with (Z.ones 13). rewrite Z.land_ones by lia.
    change (2 ^ 3) with 8. change (2 ^ 13) with 8192. lia.
  - change (Z.land (at_ + m) 1) with (Z.land (at_ + m) (Z.ones 1)). rewrite Z.land_ones by lia. change (2 ^ 1) with 2.
    clearbody m. destruct (at_ + copied <? fragmentable_size l); subst m;
      destruct (Z.eqb_spec ((at_ + 1) mod 2) 0), (Z.eqb_spec ((at_ + 0) mod 2) 0); cbn; (reflexivity || lia).
Qed.

Lemma fragment_announces : announces P F i.
Proof.
  pose proof insertion_bounds. constructor.
  - intros k Hk Hne. rewrite get_fragment_header by lia. now rewrite (proj2 (Z.eqb_neq _ _) Hne).
  - rewrite get_fragment_header by lia. now rewrite Z.eqb_refl.
Qed.

Lemma fragment_same_fixed k n : 22 <= k -> 0 <= n -> k + n <= 54 -> slice F k n = slice P k n.
Proof.
  intros. pose proof insertion_bounds. pose proof fragment_bounds. pose proof size_fragment.
  apply get_ext; [rewrite !size_slice; lia|]. rewrite size_slice by lia. intros j Hj. rewrite !get_slice by lia.
  rewrite get_fragment_header by lia. destruct (Z.eqb_spec (k + j) (previous_next_header_offset i)); [|done].
  exfalso. destruct (chain_bounds _ _ _ _ _ _ HP (lo_chain _ _ _ HL) ltac:(lia)) as (_ & _ & [Ei|B]); [|lia].
  rewrite Ei in *. cbn in *. lia.
Qed.

(** Up to its Fragment Header a fragment is walked like the datagram. *)
Lemma fragment_walk :
  let e := offset i + 8 + copied in
  let w := advance F 8 (mkWalk (offset i) 44 (previous_next_header_offset i) (Some (fragment_fields F (offset i)))
                          (offset i) (previous_next_header_offset i) false) in
  exists n, walk (enough_headers e) F e (start F) = if later_fragment w then Some w else walk n F e w.
Proof.
  intros e w. pose proof insertion_bounds as [Hi Hpv]. pose proof fragment_bounds as (Hc & Hm & _).
  destruct (lo_walk _ _ _ HL) as (m & w0 & Hw0).
  assert (start F = cursor 54 (if previous_next_header_offset i =? 20 then 44 else get P 20) 20) as ->.
  { unfold start, cursor. rewrite get_fragment_header by lia. now rewrite Z.eqb_sym. }
  destruct (chain_walk P F (packet_end l) e i HP fragment_announces ltac:(unfold e; lia) 54 (get P 20) 20 (lo_chain _ _ _ HL)
    ltac:(lia) ltac:(lia) m (enough_headers e) w0 Hw0 ltac:(unfold enough_headers, e; lia)) as (n & Hn & _ & ->).
  destruct n as [|n]; [lia|]. exists n. cbn [walk]. unfold header_at, cursor.
  cbn [w_current w_offset w_fragment has_value w_current_next_header_offset].
  change ((44 =? 0) || (44 =? 43) || (44 =? 60)) with false. change (44 =? 44) with true. cbn [orb].
  rewrite (proj2 (Z.ltb_ge e (offset i + 8))) by (unfold e; lia).
  unfold maximum_frame_octets in *.
  assert (u16 (offset i) = offset i /\ u16 (previous_next_header_offset i) = previous_next_header_offset i) as [-> ->]
    by (unfold u16; split; apply Z.mod_small; lia).
  cbn [w_offset w_fragment set_field]. change (8 =? 0) with false. cbn [orb].
  rewrite (proj2 (Z.ltb_ge e (offset i + 8))) by (unfold e; lia). reflexivity.
Qed.

Lemma fragment_reads :
  at_ <> 0 \/ parse_ipv6 F <> None -> exists v f, parse_ipv6 F = Some v /\ reads P l id at_ v f.
Proof.
  intros Hor. pose proof insertion_bounds as [Hi Hpv]. pose proof fragment_bounds as (Hc & Hm & _).
  destruct fragment_view_fields as (E1 & E2 & E3). destruct fragment_walk as (n & Hn).
  destruct (lo_view _ _ _ HL) as (vP & HvP & _). destruct (parse_start P vP HvP) as (_ & _ & _ & _ & B12 & B13 & B14 & _).
  assert (parse_ipv6 F = w ← walk (enough_headers (offset i + 8 + copied)) F (offset i + 8 + copied) (start F);
    Some (mkView (take 16 (drop 22 P)) (take 16 (drop 38 P))
              (Z.lor (Z.lor (Z.shiftl (Z.land (get F 15) 15) 16) (Z.shiftl (get F 16) 8)) (get F 17))
              (offset i - 54 + 8 + copied) (u16 (w_offset w)) (u16 (w_current_next_header_offset w)) (w_fragment_header_offset w)
              (w_fragment_previous w)
              (u8 (Z.lor (Z.shiftl (Z.land (get F 14) 15) 4) (Z.shiftr (get F 15) 4)))
              (get F 20) (w_current w) (get F 21) (w_fragment w) (w_authentication w))) as Ep.
  { unfold parse_ipv6. rewrite size_fragment, fragment_length, !get_fragment_header by lia.
    destruct (Z.eqb_spec 12 (previous_next_header_offset i)), (Z.eqb_spec 13 (previous_next_header_offset i)),
      (Z.eqb_spec 14 (previous_next_header_offset i)); try lia.
    rewrite B12, B13, B14. cbn [Z.eqb Pos.eqb negb orb].
    rewrite (proj2 (Z.ltb_ge (offset i + 8 + copied) 54)) by lia. cbn [orb].
    rewrite (proj2 (Z.eqb_neq (offset i - 54 + 8 + copied) 0)) by lia.
    rewrite (proj2 (Z.ltb_ge (offset i + 8 + copied) (54 + (offset i - 54 + 8 + copied)))) by lia. cbn [orb].
    replace (54 + (offset i - 54 + 8 + copied)) with (offset i + 8 + copied) by lia.
    pose proof (fragment_same_fixed 22 16 ltac:(lia) ltac:(lia) ltac:(lia)) as S1.
    pose proof (fragment_same_fixed 38 16 ltac:(lia) ltac:(lia) ltac:(lia)) as S2. unfold slice in S1, S2.
    change (Z.to_nat 16) with 16%nat in *. change (Z.to_nat 22) with 22%nat in *. change (Z.to_nat 38) with 38%nat in *.
    rewrite S1, S2. reflexivity. }
  rewrite Ep in *. rewrite Hn in *. clear Ep Hn.
  set (w := advance F 8 _) in *.
  assert (exists w', (if later_fragment w then Some w else walk n F (offset i + 8 + copied) w) = Some w'
    /\ w_fragment w' = Some (fragment_fields F (offset i)) /\ w_fragment_header_offset w' = offset i
    /\ w_fragment_previous w' = previous_next_header_offset i) as (w' & Ew & F1 & F2 & F3).
  { destruct (later_fragment w) eqn:El; [eexists; now split_and!|].
    destruct Hor as [Hne|Hp].
    - exfalso. unfold later_fragment, w in El. cbn [advance w_fragment set_field] in El. lia.
    - destruct (walk n F _ w) as [w'|] eqn:Ew; [|done]. exists w'. split; [done|].
      now apply walk_keeps with (f := fragment_fields F (offset i)) in Ew. }
  rewrite Ew. cbn [mbind option_bind]. eexists _, (fragment_fields F (offset i)). split; [reflexivity|].
  constructor; cbn [source destination payload_length fragment_header_offset fragment_previous_next_header_offset fragment]; auto.
Qed.

End Fragment.

End Ipv6Fragments.
