(* ===== verification/Ipv6Entry.v ===== *)
(** * What an entry of the table holds

    The pieces an entry was built from: they never overlap, the receipts are their
    union and the arena has their octets. *)

From S2P Require Import Prelude Arena Packet Octets Ipv6Packet Ipv6Fragmentation Ipv6Fragments.
Import Arena.

Module Ipv6Entry.
Import Ipv6Packet.Ipv6 Octets.Octets Ipv6Fragmentation.Ipv6Fragmentation.

#[local] Existing Instances entry_settable Ipv6Fragmentation.Ipv6Fragmentation.t_settable.

Abbreviation max_payload := 65535 (only parsing).

(** ** Receipts *)

Lemma length_set_received n : forall bits first, length (set_received n bits first) = length bits.
Proof. induction n as [|n IH]; intros bits first; cbn; [done|]. now rewrite IH, length_insert. Qed.

Lemma lookup_set_received n : forall bits first k,
  0 <= first -> 0 <= k -> first + Z.of_nat n <= Z.of_nat (length bits) ->
  set_received n bits first !!! Z.to_nat k = ((first <=? k) && (k <? first + Z.of_nat n)) || bits !!! Z.to_nat k.
Proof.
  induction n as [|n IH]; intros bits first k Hf Hk Hl; cbn [set_received].
  - destruct (Z.leb_spec first k), (Z.ltb_spec k (first + Z.of_nat 0)); cbn; (lia || reflexivity).
  - rewrite IH by (rewrite ?length_insert; lia). destruct (Z.eqb_spec first k) as [->|Hne].
    + rewrite list_lookup_total_insert_eq by lia. rewrite Z.leb_refl.
      destruct (Z.ltb_spec k (k + Z.of_nat (S n))); [|lia]. cbn. apply orb_true_r.
    + rewrite list_lookup_total_insert_ne by lia. f_equal. blia.
Qed.

Lemma any_received_spec n : forall bits first,
  0 <= first ->
  any_received n bits first = true <-> exists k, first <= k < first + Z.of_nat n /\ bits !!! Z.to_nat k = true.
Proof.
  induction n as [|n IH]; intros bits first Hf; cbn [any_received]; [split; [done|intros (k & Hk & _); lia]|].
  rewrite orb_true_iff, IH by lia. split.
  - intros [H|(k & Hk & H)]; [exists first|exists k]; (split; [lia|done]).
  - intros (k & Hk & H). destruct (decide (k = first)) as [->|]; [now left|]. right. exists k. split; [lia|done].
Qed.

Lemma all_received_spec n : forall bits first,
  0 <= first ->
  all_received n bits first = true <-> forall k, first <= k < first + Z.of_nat n -> bits !!! Z.to_nat k = true.
Proof.
  induction n as [|n IH]; intros bits first Hf; cbn [all_received]; [split; [intros _ k Hk; lia|done]|].
  rewrite andb_true_iff, IH by lia. split.
  - intros [H H'] k Hk. destruct (decide (k = first)) as [->|]; [done|]. apply H'. lia.
  - intros H. split; [apply H; lia|]. intros k Hk. apply H. lia.
Qed.

(** ** Pieces *)

(** A fragment the table took: its frame, what was read in it, where it goes. *)
Record Piece := mkPiece {
  p_frame : list Z;
  p_view : Ipv6View;
  p_fields : Ipv6FragmentView;
  p_place : Placement
}.
Definition p_data (q : Piece) : list Z := slice (p_frame q) (data_start (p_place q)) (data_size (p_place q)).
Definition p_offset (q : Piece) : Z := data_offset (p_place q).
Definition p_end (q : Piece) : Z := data_offset (p_place q) + data_size (p_place q).
Definition p_last (q : Piece) : bool := negb (more_fragments (p_fields q)).
Definition p_next (q : Piece) : Z := get (p_frame q) (fragment_header_offset (p_view q)).

(** The view, the fields and the place are those of the frame. *)
Record genuine (q : Piece) : Prop := mkGenuine {
  ge_view : parse_ipv6 (p_frame q) = Some (p_view q);
  ge_fields : fragment (p_view q) = Some (p_fields q);
  ge_normal : (fragment_offset (p_fields q) =? 0) && negb (more_fragments (p_fields q)) = false;
  ge_place : placement (p_view q) (p_fields q) = Some (p_place q);
  ge_octets : Forall is_u8 (p_frame q);
  ge_frame : size (p_frame q) <= maximum_frame_octets
}.

Definition in_piece (k : Z) (q : Piece) : bool := (p_offset q <=? k) && (k <? p_end q).
Definition covers (ps : list Piece) (k : Z) : bool := existsb (in_piece k) ps.
Definition apart (q q' : Piece) : Prop := p_end q <= p_offset q' \/ p_end q' <= p_offset q.

Lemma covers_true ps k : covers ps k = true <-> exists q, q ∈ ps /\ p_offset q <= k < p_end q.
Proof.
  unfold covers. rewrite existsb_exists. setoid_rewrite <- list_elem_of_In. unfold in_piece. split.
  - intros (q & Hq & [H1 H2]%andb_true_iff). exists q. split; [done|lia].
  - intros (q & Hq & H). exists q. split; [done|]. rewrite andb_true_iff. lia.
Qed.

(** The walk never leaves the packet, so that the Fragment Header lies in it. *)
Lemma walk_header n packet e : Forall is_u8 packet -> forall w w' f,
  54 <= w_offset w -> 20 <= w_current_next_header_offset w < w_offset w -> e <= 65535 ->
  walk n packet e w = Some w' -> w_fragment w = None -> w_fragment w' = Some f ->
  54 <= w_fragment_header_offset w' /\ w_fragment_header_offset w' + 8 <= e
  /\ 20 <= w_fragment_previous w' < w_fragment_header_offset w'.
Proof.
  intros Hb. induction n as [|n IH]; intros w w' f Ho Hp He; [discriminate|]. cbn [walk]. intros H Hnone Hsome.
  destruct (header_at packet e w) as [| |length w1] eqn:Eh; [discriminate|congruence|].
  pose proof (header_length _ _ _ _ _ Hb Eh) as [Hl Eo].
  assert (w_current_next_header_offset w1 = w_current_next_header_offset w
    /\ (w_fragment w1 = None \/ (exists g, w_fragment w1 = Some g) /\ w_offset w + 8 <= e
        /\ w_fragment_header_offset w1 = w_offset w /\ w_fragment_previous w1 = w_current_next_header_offset w)) as [E1 E2].
  { revert Eh. unfold header_at. repeat case_if; try discriminate; intros [= <- <-]; (split; [reflexivity|]);
      try now left. right. cbn [w_fragment w_fragment_header_offset w_fragment_previous set_field].
    split_and!; [eexists; reflexivity|lia|unfold u16; apply Z.mod_small; lia..]. }
  revert H. case_if; [discriminate|].
  set (w2 := advance packet length w1).
  assert (w_fragment w2 = w_fragment w1 /\ w_fragment_header_offset w2 = w_fragment_header_offset w1
    /\ w_fragment_previous w2 = w_fragment_previous w1 /\ w_offset w2 = w_offset w + length
    /\ w_current_next_header_offset w2 = w_offset w) as (F1 & F2 & F3 & F4 & F5)
    by (unfold w2, advance; cbn; rewrite Eo; now split_and!).
  destruct E2 as [G2|([g G2] & G3 & G4 & G5)].
  - case_if; [unfold later_fragment in *; rewrite F1, G2 in *; discriminate|].
    intros H. apply (IH w2 w' f); rewrite ?F4, ?F5; auto; (lia || congruence).
  - intros H. assert (w_fragment_header_offset w' = w_offset w /\ w_fragment_previous w' = w_current_next_header_offset w) as [-> ->].
    { revert H. case_if; [intros [= <-]; rewrite F2, F3; now split|].
      intros H. apply (Ipv6Fragments.Ipv6Fragments.walk_keeps _ _ _ _ _ g) in H as (_ & -> & ->); [|congruence].
      rewrite F2, F3. now split. }
    lia.
Qed.

(** The fields come from some place of the packet. *)
Lemma walk_keeps_fields n packet e : forall w w' f,
  walk n packet e w = Some w' -> w_fragment w' = Some f ->
  w_fragment w = Some f \/ exists offset, f = fragment_fields packet offset.
Proof.
  induction n as [|n IH]; intros w w' f; [discriminate|]. cbn [walk]. intros H Hs.
  destruct (header_at packet e w) as [| |length w1] eqn:Eh; [discriminate|injection H as <-; now left|].
  assert (w_fragment w1 = w_fragment w \/ exists offset, w_fragment w1 = Some (fragment_fields packet offset)) as E.
  { revert Eh. unfold header_at. repeat case_if; try discriminate; intros [= <- <-]; eauto. }
  assert (w_fragment w1 = Some f -> w_fragment w = Some f \/ exists offset, f = fragment_fields packet offset) as E'.
  { intros H1. destruct E as [E|[o E]]; [left; congruence|right; exists o; congruence]. }
  revert H. case_if; [discriminate|]. case_if; [intros [= <-]; now apply E'|].
  intros H. apply IH with (f := f) in H; [|done]. destruct H as [H|H]; [now apply E'|now right].
Qed.

Lemma genuine_bounds q : genuine q ->
  let e := 54 + payload_length (p_view q) in
  let h := fragment_header_offset (p_view q) in
  54 <= h /\ 20 <= fragment_previous_next_header_offset (p_view q) < h
  /\ data_start (p_place q) = h + 8 /\ data_size (p_place q) = e - h - 8 /\ e <= size (p_frame q)
  /\ 0 <= p_offset q < p_end q /\ h - 54 + p_end q <= max_payload
  /\ size (p_data q) = p_end q - p_offset q
  /\ p_offset q = fragment_offset (p_fields q) * 8.
Proof.
  intros [Ev Ef Hn Ep Hb Hs] e h. apply Ipv6Fragments.Ipv6Fragments.parse_start in Ev as (H1 & H2 & H3 & H4 & _ & _ & _ & _ & _ & w & Hw & Fw & Fh & Fp).
  unfold maximum_frame_octets in Hs.
  rewrite Ef in Fw. symmetry in Fw.
  assert (0 <= fragment_offset (p_fields q)) as Hfo.
  { destruct (walk_keeps_fields _ _ _ _ _ _ Hw Fw) as [?|[g ->]]; [discriminate|]. unfold fragment_fields. cbn [fragment_offset].
    apply Z.land_nonneg. right. lia. }
  apply (walk_header _ _ _ Hb (start (p_frame q)) w (p_fields q)) in Hw as (B1 & B2 & B3); auto; cbn; try lia.
  unfold h. rewrite Fh, Fp. revert Ep. unfold placement. rewrite Fh. unfold ipv6_fragment_header_octets, ipv6_fragment_offset_unit_octets, maximum_ipv6_payload_octets.
  change first_extension_offset with 54. case_if; [discriminate|]. cbv zeta. case_if; [discriminate|]. intros Hp. injection Hp as Hp.
  unfold p_offset, p_end, p_data. rewrite <- Hp. cbn [data_start data_size data_offset]. bool_to_prop.
  split_and!; try lia. rewrite size_slice; lia.
Qed.

(** ** The entry *)

Record holds (e : Entry) (ps : list Piece) : Prop := mkHolds {
  ho_occupied : occupied e = true;
  ho_arena : size (fragmentable e) = max_payload;
  ho_receipts : Z.of_nat (length (received e)) = max_payload;
  ho_genuine : forall q, q ∈ ps -> genuine q;
  ho_key : forall q, q ∈ ps -> matches (p_view q) e = true;
  ho_bits : forall k, 0 <= k < max_payload -> received e !!! Z.to_nat k = covers ps k;
  ho_data : forall q k, q ∈ ps -> p_offset q <= k < p_end q -> get (fragmentable e) k = get (p_data q) (k - p_offset q);
  ho_apart : forall i j q q', ps !! i = Some q -> ps !! j = Some q' -> i <> j -> apart q q';
  ho_extent : forall q, q ∈ ps -> p_end q <= extent e;
  ho_reach : ps = [] /\ extent e = 0 \/ exists q, q ∈ ps /\ extent e = p_end q;
  ho_first : have_first e = existsb (fun q => p_offset q =? 0) ps;
  ho_frame : forall q, q ∈ ps -> p_offset q = 0 -> first_fragment e = p_frame q;
  ho_no_frame : have_first e = false -> first_fragment e = [];
  ho_last : have_last e = existsb p_last ps;
  ho_final : forall q, q ∈ ps -> p_last q = true -> final_size e = p_end q;
  ho_no_final : have_last e = false -> final_size e = 0;
  ho_within : have_last e = true -> extent e <= final_size e;
  ho_header : forall q, q ∈ ps -> e_fragment_header_offset e = fragment_header_offset (p_view q)
                                  /\ e_fragment_next_header e = p_next q;
  ho_no_header : ps = [] -> e_fragment_header_offset e = 0;
  ho_previous : forall q qs, ps = q :: qs ->
    e_previous_next_header_offset e = fragment_previous_next_header_offset (p_view q)
}.

(** The entry after a piece was placed. *)
Definition taken (e : Entry) (q : Piece) : Entry :=
  mkEntry (e_source e) (e_destination e) (if p_offset q =? 0 then p_frame q else first_fragment e)
    (Packet.copy_at (fragmentable e) (p_offset q) (p_data q))
    (set_received (Z.to_nat (data_size (p_place q))) (received e) (p_offset q)) (expires e) (e_identification e)
    (fragment_header_offset (p_view q)) (fragment_previous_next_header_offset (p_view q))
    (Z.max (extent e) (p_end q)) (if p_last q then u16 (p_end q) else final_size e) (p_next q) (occupied e)
    (if p_offset q =? 0 then true else have_first e) (if p_last q then true else have_last e).

(** Why a piece is refused. *)
Definition foreign_header (e : Entry) (q : Piece) : bool :=
  negb (e_fragment_header_offset e =? 0)
  && (negb (e_fragment_header_offset e =? fragment_header_offset (p_view q)) || negb (e_fragment_next_header e =? p_next q)).
Definition collides (e : Entry) (q : Piece) : bool :=
  (have_last e && (final_size e <? p_end q)) || any_received (Z.to_nat (data_size (p_place q))) (received e) (p_offset q).
Definition wrong_end (e : Entry) (q : Piece) : bool :=
  p_last q && ((have_last e && negb (final_size e =? p_end q)) || (p_end q <? Z.max (extent e) (p_end q))).

Lemma place_cases e q :
  place e (p_view q) (p_fields q) (p_frame q) (p_place q)
  = if foreign_header e q then inl (malformed, e)
    else if collides e q then inl (overlap, e)
    else if wrong_end e q then inl (malformed, written e (p_view q) (p_frame q) (p_place q)) else inr (taken e q).
Proof.
  unfold place, foreign_header, collides, wrong_end, taken, p_last. cbv zeta.
  fold (p_next q) (p_offset q) (p_end q). destruct (_ && (_ || _)); [reflexivity|].
  destruct (_ || any_received _ _ _); [reflexivity|]. destruct (more_fragments (p_fields q)); [reflexivity|]. cbn [negb andb].
  change (have_last (written _ _ _ _)) with (have_last e). change (final_size (written _ _ _ _)) with (final_size e).
  change (extent (written _ _ _ _)) with (Z.max (extent e) (p_end q)). now destruct (_ || _).
Qed.

Lemma apart_spec q q' :
  p_offset q < p_end q -> p_offset q' < p_end q' ->
  apart q q' <-> forall k, p_offset q <= k < p_end q -> p_offset q' <= k < p_end q' -> False.
Proof.
  unfold apart. intros H H'. split; [lia|]. intros Hk.
  specialize (Hk (Z.max (p_offset q) (p_offset q'))). lia.
Qed.

Section Take.
Context (e : Entry) (ps : list Piece) (q : Piece).
Context (H : holds e ps) (G : genuine q) (K : matches (p_view q) e = true).

Lemma piece_bounds q' : q' ∈ ps -> 0 <= p_offset q' < p_end q' /\ p_end q' <= max_payload.
Proof.
  intros Hq. pose proof (genuine_bounds q' (ho_genuine _ _ H q' Hq)) as (B1 & _ & _ & _ & _ & B6 & B7 & _). lia.
Qed.

(** The receipts under the piece are those of a piece it meets. *)
Lemma received_meets :
  any_received (Z.to_nat (data_size (p_place q))) (received e) (p_offset q) = true
  <-> exists q', q' ∈ ps /\ ~ apart q q'.
Proof.
  pose proof (genuine_bounds q G) as (B1 & _ & _ & _ & _ & B6 & B7 & _). unfold p_end, p_offset in *.
  rewrite any_received_spec by lia. split.
  - intros (k & Hk & Hr). rewrite (ho_bits _ _ H) in Hr by lia. apply covers_true in Hr as (q' & Hq' & Hk').
    exists q'. split; [done|]. unfold apart, p_end, p_offset in *. lia.
  - intros (q' & Hq' & Hn). pose proof (piece_bounds q' Hq') as [B8 B9]. unfold apart, p_end, p_offset in *.
    exists (Z.max (data_offset (p_place q)) (data_offset (p_place q'))). split; [lia|].
    rewrite (ho_bits _ _ H) by lia. apply covers_true. exists q'. unfold p_end, p_offset. split; [done|lia].
Qed.

Context (Hf : foreign_header e q = false) (Hc : collides e q = false) (Hw : wrong_end e q = false).

Lemma taken_apart q' : q' ∈ ps -> apart q q'.
Proof.
  intros Hq'. apply orb_false_iff in Hc as [_ Hr]. unfold apart.
  destruct (Z.leb_spec (p_end q) (p_offset q')), (Z.leb_spec (p_end q') (p_offset q)); auto.
  exfalso. rewrite (proj2 received_meets) in Hr; [discriminate|]. exists q'. split; [done|]. unfold apart. lia.
Qed.

Lemma taken_header q' : q' ∈ ps ->
  fragment_header_offset (p_view q') = fragment_header_offset (p_view q) /\ p_next q' = p_next q.
Proof.
  intros Hq'. destruct (ho_header _ _ H q' Hq') as [E1 E2].
  pose proof (genuine_bounds q' (ho_genuine _ _ H q' Hq')) as (B1 & _).
  unfold foreign_header in Hf. rewrite (proj2 (Z.eqb_neq _ 0)) in Hf by lia. cbn [negb andb] in Hf. bool_to_prop. lia.
Qed.

Lemma taken_within : have_last e = true -> p_end q <= final_size e.
Proof. intros Hl. apply orb_false_iff in Hc as [Hr _]. rewrite Hl in Hr. cbn [andb] in Hr. lia. Qed.

(** A last piece that is taken is the first of its kind and lies behind the others. *)
Lemma taken_last : p_last q = true -> have_last e = false /\ extent e <= p_end q.
Proof.
  intros Hl. unfold wrong_end in Hw. rewrite Hl in Hw. cbn [andb] in Hw. apply orb_false_iff in Hw as [H1 H2].
  split; [|lia]. destruct (have_last e) eqn:El; [|done]. exfalso.
  pose proof (ho_last _ _ H) as Hx. rewrite El in Hx. symmetry in Hx. apply existsb_exists in Hx as (q' & Hq'%list_elem_of_In & Hl').
  pose proof (ho_final _ _ H q' Hq' Hl') as Hf'. pose proof (taken_apart q' Hq') as Ha.
  pose proof (piece_bounds q' Hq'). pose proof (genuine_bounds q G) as (_ & _ & _ & _ & _ & B6 & _).
  cbn [andb] in H1. unfold apart in Ha. lia.
Qed.

Lemma taken_holds : holds (taken e q) (q :: ps).
Proof.
  pose proof (genuine_bounds q G) as (B1 & B2 & B3 & B4 & B5 & B6 & B7 & B8 & B9).
  assert (data_size (p_place q) = p_end q - p_offset q) as Bs by (unfold p_end, p_offset; lia).
  pose proof H as [].
  constructor; unfold taken; cbn [e_source e_destination first_fragment fragmentable received expires e_identification
    e_fragment_header_offset e_previous_next_header_offset extent final_size e_fragment_next_header occupied have_first have_last].
  - done.
  - rewrite size_copy_at; lia.
  - now rewrite length_set_received.
  - intros q' [->|Hq]%elem_of_cons; auto.
  - intros q' [->|Hq]%elem_of_cons; [exact K|exact (ho_key0 q' Hq)].
  - intros k Hk. rewrite lookup_set_received by lia. rewrite ho_bits0 by lia. unfold covers. cbn [existsb].
    unfold in_piece at 1. rewrite Z2Nat.id by lia. rewrite Bs. replace (p_offset q + (p_end q - p_offset q)) with (p_end q) by lia. reflexivity.
  - intros q' k [->|Hq]%elem_of_cons Hk.
    + rewrite get_copy_at by lia. rewrite (proj2 (Z.leb_le _ _)), (proj2 (Z.ltb_lt _ _)) by lia. reflexivity.
    + pose proof (taken_apart q' Hq) as Ha. pose proof (piece_bounds q' Hq). rewrite get_copy_at by lia.
      destruct ((p_offset q <=? k) && (k <? p_offset q + size (p_data q))) eqn:E; [|now apply ho_data0].
      exfalso. bool_to_prop. unfold apart in Ha. lia.
  - intros [|i] [|j] q1 q2; cbn [lookup list_lookup]; intros E1 E2 Hne; try lia.
    + injection E1 as <-. apply taken_apart. eapply list_elem_of_lookup_2. exact E2.
    + injection E2 as <-. assert (apart q q1) as Ha by (apply taken_apart; eapply list_elem_of_lookup_2; exact E1).
      unfold apart in *. lia.
    + eapply ho_apart0; eauto.
  - intros q' [->|Hq]%elem_of_cons; [lia|]. specialize (ho_extent0 q' Hq). lia.
  - right. destruct (Z.max_spec (extent e) (p_end q)) as [[_ ->]|[Hle ->]]; [exists q; split; [constructor|done]|].
    destruct ho_reach0 as [[_ ?]|(q' & Hq' & ->)]; [lia|]. exists q'. split; [now constructor|done].
  - cbn [existsb]. rewrite ho_first0. now destruct (p_offset q =? 0).
  - intros q' [->|Hq]%elem_of_cons E0; [now rewrite E0|].
    destruct (Z.eqb_spec (p_offset q) 0) as [E|]; [|now apply ho_frame0].
    exfalso. pose proof (taken_apart q' Hq) as Ha. pose proof (piece_bounds q' Hq). unfold apart in Ha. lia.
  - case_if; [discriminate|exact ho_no_frame0].
  - cbn [existsb]. rewrite ho_last0. now destruct (p_last q).
  - assert (u16 (p_end q) = p_end q) as -> by (unfold u16; apply Z.mod_small; lia).
    intros q' [->|Hq]%elem_of_cons E; [now rewrite E|].
    destruct (p_last q) eqn:El; [|now apply ho_final0]. exfalso. destruct (taken_last El) as [E' _].
    rewrite ho_last0 in E'. rewrite <- not_true_iff_false, existsb_exists in E'. apply E'. exists q'. split; [now apply list_elem_of_In|done].
  - destruct (p_last q); [discriminate|exact ho_no_final0].
  - destruct (p_last q) eqn:El.
    + intros _. destruct (taken_last El) as [_ Hx]. unfold u16. rewrite Z.mod_small by lia. lia.
    + intros Hl. specialize (ho_within0 Hl). pose proof (taken_within Hl). lia.
  - intros q' [->|Hq]%elem_of_cons; [done|]. destruct (taken_header q' Hq) as [-> ->]. done.
  - discriminate.
  - now intros q' qs [= <- <-].
Qed.
End Take.

(** A fresh entry holds nothing. *)
Lemma fresh_holds e :
  occupied e = true -> size (fragmentable e) = max_payload -> received e = no_receipts -> have_first e = false ->
  have_last e = false -> first_fragment e = [] -> extent e = 0 -> final_size e = 0 -> e_fragment_header_offset e = 0 ->
  holds e [].
Proof.
  intros H1 H2 H3 H4 H5 H6 H7 H8 H9. assert (forall q : Piece, q ∈ [] -> False) as Hn by (intros q Hq; inversion Hq).
  constructor; auto; try (intros; exfalso; eauto; fail).
  - rewrite H3. unfold no_receipts. rewrite length_replicate. done.
  - intros k Hk. rewrite H3. unfold no_receipts. rewrite lookup_total_replicate_2; [done|].
    unfold maximum_ipv6_payload_octets. lia.
  - intros i j q q' E. discriminate.
  - rewrite H5. discriminate.
  - discriminate.
Qed.

End Ipv6Entry.
