(* ===== verification/Ipv6Reassembly.v ===== *)
(** * Reassembly

    What a complete datagram consists of, whatever was sent; that the fragments of
    a datagram give it back in any order; and what a checkpoint keeps. *)

From S2P Require Import Prelude Catalog Arena Packet Octets Ipv6Packet Ipv6Fragmentation Ipv6Fragments Ipv6Entry.
Import Arena.

Module Ipv6Reassembly.
Import Ipv6Packet.Ipv6 Octets.Octets Ipv6Fragmentation.Ipv6Fragmentation Ipv6Fragments.Ipv6Fragments Ipv6Entry.Ipv6Entry.

#[local] Existing Instances entry_settable Ipv6Fragmentation.Ipv6Fragmentation.t_settable.

(** ** The assembled datagram *)

(** The headers of the first fragment without its Fragment Header, then the data. *)
Definition rebuilt (e : Entry) : list Z :=
  let h := e_fragment_header_offset e in
  pad (Packet.write16
         (put (take (Z.to_nat h) (first_fragment e)) (e_previous_next_header_offset e) (e_fragment_next_header e)
          ++ take (Z.to_nat (final_size e)) (fragmentable e))
         fixed_payload_length_offset (u16 (h - first_extension_offset + final_size e))).

Lemma size_pad l : size (pad l) = Z.max (size l) 60.
Proof. pose proof (size_nonneg l). unfold pad, ethernet_minimum_without_fcs, size in *. rewrite length_app, length_replicate. lia. Qed.

Lemma get_pad l k : 0 <= k < Z.max (size l) 60 -> get (pad l) k = if k <? size l then get l k else 0.
Proof.
  intros Hk. pose proof (size_nonneg l). unfold pad, ethernet_minimum_without_fcs. destruct (Z.ltb_spec k (size l)).
  - apply get_before_app. lia.
  - rewrite get_after_app by lia. unfold get. rewrite lookup_total_replicate_2; [done|lia].
Qed.

Lemma padded_size c n : 0 <= n <= size c -> 60 <= size c ->
  size (padded c n).1 = Z.max n 60 /\ size (padded c n).2 = size c.
Proof.
  intros Hn Hc. unfold padded, ethernet_minimum_without_fcs. cbn [fst snd].
  set (zeros := replicate (Z.to_nat (60 - n)) 0).
  assert (size zeros = Z.max 0 (60 - n)) as Hz by (unfold zeros, size; rewrite length_replicate; lia).
  assert (size (Packet.copy_at c n zeros) = size c) as E by (apply size_copy_at; lia).
  split; [rewrite size_take; lia|exact E].
Qed.

(** [padded] is [pad] of what the buffer has. *)
Lemma padded_pad c l n :
  size l = n -> n <= size c -> 60 <= size c -> (forall k, 0 <= k < n -> get c k = get l k) ->
  (padded c n).1 = pad l /\ size (padded c n).2 = size c.
Proof.
  intros Hl Hn Hc Hk. unfold padded, ethernet_minimum_without_fcs. cbn [fst snd]. pose proof (size_nonneg l).
  set (zeros := replicate (Z.to_nat (60 - n)) 0).
  assert (size zeros = Z.max 0 (60 - n)) as Hz by (unfold zeros, size; rewrite length_replicate; lia).
  split; [|apply size_copy_at; lia].
  apply get_ext; [rewrite size_pad, size_take; rewrite ?size_copy_at; lia|].
  rewrite size_take by (rewrite size_copy_at; lia). intros k Hk'.
  rewrite get_take by lia. rewrite get_copy_at by lia. rewrite get_pad by lia.
  destruct (Z.ltb_spec k (size l)).
  - rewrite (proj2 (Z.leb_gt _ _)) by lia. cbn [andb]. apply Hk. lia.
  - rewrite (proj2 (Z.leb_le _ _)), (proj2 (Z.ltb_lt _ _)) by lia. cbn [andb].
    unfold get, zeros. rewrite lookup_total_replicate_2; [done|lia].
Qed.

Section Whole.
Context (s : t) (e : Entry) (ps : list Piece).
Context (Hs : size (completed_ s) = maximum_ethernet_ipv6_datagram_octets) (H : holds e ps) (Hw : whole e = true).

(** A whole entry has a first and a last piece, and every octet before the end. *)
Lemma whole_pieces : exists q0 ql,
  q0 ∈ ps /\ p_offset q0 = 0 /\ ql ∈ ps /\ p_last ql = true /\ p_end ql = final_size e
  /\ forall k, 0 <= k < final_size e -> covers ps k = true.
Proof.
  unfold whole in Hw. apply andb_true_iff in Hw as [[Hf Hl]%andb_true_iff Hr].
  rewrite (ho_first _ _ H) in Hf. apply existsb_exists in Hf as (q0 & Hq0%list_elem_of_In & E0).
  rewrite (ho_last _ _ H) in Hl. apply existsb_exists in Hl as (ql & Hql%list_elem_of_In & El).
  exists q0, ql. pose proof (ho_final _ _ H ql Hql El) as Ef. pose proof (piece_bounds e ps H ql Hql) as B.
  split_and!; auto; [lia|]. intros k Hk. rewrite <- (ho_bits _ _ H) by lia.
  rewrite all_received_spec in Hr by lia. apply Hr. lia.
Qed.

Lemma whole_first : exists q0, q0 ∈ ps /\ p_offset q0 = 0 /\ first_fragment e = p_frame q0
  /\ e_fragment_header_offset e = fragment_header_offset (p_view q0)
  /\ 54 <= e_fragment_header_offset e <= size (first_fragment e)
  /\ 20 <= e_previous_next_header_offset e < e_fragment_header_offset e
  /\ 0 < final_size e /\ e_fragment_header_offset e - 54 + final_size e <= 65535.
Proof.
  destruct whole_pieces as (q0 & ql & Hq0 & E0 & Hql & El & Ef & _). exists q0.
  destruct (ho_header _ _ H q0 Hq0) as [Eh _]. destruct (ho_header _ _ H ql Hql) as [Eh' _].
  pose proof (genuine_bounds q0 (ho_genuine _ _ H q0 Hq0)) as (B1 & _ & B3 & B4 & B5 & B6 & _).
  pose proof (genuine_bounds ql (ho_genuine _ _ H ql Hql)) as (_ & _ & _ & _ & _ & B6' & B7' & _).
  assert (first_fragment e = p_frame q0) as Eff by now apply (ho_frame _ _ H).
  destruct ps as [|q qs]; [inversion Hq0|].
  pose proof (ho_previous _ _ H q qs eq_refl) as Ep.
  destruct (ho_header _ _ H q ltac:(constructor)) as [Ehq _].
  pose proof (genuine_bounds q (ho_genuine _ _ H q ltac:(constructor))) as (_ & B2 & _).
  unfold p_end, p_offset in *. split_and!; auto; rewrite ?Eff; lia.
Qed.

Lemma assemble_whole :
  (assemble s e).1 = rebuilt e /\ entries_ (assemble s e).2 = entries_ s
  /\ size (completed_ (assemble s e).2) = maximum_ethernet_ipv6_datagram_octets.
Proof.
  destruct whole_first as (q0 & _ & _ & _ & _ & Bh & Bp & Bf & Bm).
  unfold assemble. unfold whole in Hw. apply andb_true_iff in Hw as [[-> ->]%andb_true_iff _]. cbn [negb orb].
  rewrite (proj2 (Z.eqb_neq _ _)) by lia.
  change maximum_ethernet_ipv6_datagram_octets with 65589 in *. change maximum_ipv6_payload_octets with 65535.
  change first_extension_offset with 54. change fixed_payload_length_offset with 18.
  set (h := e_fragment_header_offset e) in *. set (p := e_previous_next_header_offset e) in *. set (m := final_size e) in *.
  rewrite Hs, (proj2 (Z.ltb_ge 65535 _)), (proj2 (Z.ltb_ge 65589 _)) by lia. cbn [orb].
  pose proof (ho_arena _ _ H) as Ha.
  set (c1 := Packet.copy_at (completed_ s) 0 (take (Z.to_nat h) (first_fragment e))).
  assert (size c1 = 65589) as S1 by (unfold c1; rewrite size_copy_at; rewrite ?size_take; lia).
  set (c2 := put c1 p (e_fragment_next_header e)).
  assert (size c2 = 65589) as S2 by (unfold c2; now rewrite size_put).
  set (c3 := Packet.copy_at c2 h (take (Z.to_nat m) (fragmentable e))).
  assert (size c3 = 65589) as S3 by (unfold c3; rewrite size_copy_at; rewrite ?size_take; lia).
  set (c4 := Packet.write16 c3 18 (u16 (h - 54 + m))).
  assert (size c4 = 65589) as S4 by (unfold c4; now rewrite size_write16).
  set (l := Packet.write16 (put (take (Z.to_nat h) (first_fragment e)) p (e_fragment_next_header e)
              ++ take (Z.to_nat m) (fragmentable e)) 18 (u16 (h - 54 + m))).
  assert (size l = h + m) as Sl by (unfold l; rewrite size_write16, size_app, size_put, !size_take; lia).
  destruct (padded_pad c4 l (54 + (h - 54 + m))) as [E1 E2]; [lia|lia|lia| |].
  { intros k Hk. unfold c4, l. rewrite !get_write16 by (rewrite ?size_app, ?size_put, ?size_take; lia).
    destruct (k =? 18); [reflexivity|]. destruct (k =? 18 + 1); [reflexivity|].
    unfold c3. rewrite get_copy_at by (rewrite ?size_take; lia). rewrite size_take by lia.
    destruct (Z.leb_spec h k); cbn [andb].
    - rewrite (proj2 (Z.ltb_lt _ _)) by lia. rewrite get_after_app by (rewrite size_put, size_take; lia).
      rewrite size_put, size_take by lia. reflexivity.
    - rewrite get_before_app by (rewrite size_put, size_take; lia). unfold c2.
      rewrite !get_put by (rewrite ?size_take; lia). case_if; [reflexivity|].
      unfold c1. rewrite get_copy_at by (rewrite ?size_take; lia). rewrite size_take by lia.
      rewrite (proj2 (Z.leb_le _ _)), (proj2 (Z.ltb_lt _ _)) by lia. cbn [andb]. f_equal. lia. }
  destruct (padded c4 (54 + (h - 54 + m))) as [packet c5]. cbn [fst snd] in *.
  split_and!; [exact E1|reflexivity|cbn; lia].
Qed.
End Whole.

(** ** The table *)

Lemma first_slot_some test l j : first_slot test l = Some j -> exists e, l !! j = Some e /\ test e = true.
Proof.
  revert j. induction l as [|e l IH]; intros j; cbn [first_slot]; [discriminate|]. case_if; [intros [= <-]; now exists e|].
  destruct (first_slot test l) as [i|]; [|discriminate]. intros [= <-]. destruct (IH i eq_refl) as (x & Hx & Ht). now exists x.
Qed.

Lemma first_slot_none test l : first_slot test l = None -> forall j e, l !! j = Some e -> test e = false.
Proof.
  induction l as [|x l IH]; intros H j e; cbn [first_slot] in H; [discriminate|]. revert H. case_if; [discriminate|].
  destruct (first_slot test l) eqn:Ef; [discriminate|]. intros _. destruct j as [|j]; cbn; [now intros [= <-]|now apply IH].
Qed.

Lemma first_slot_unique test l j e :
  l !! j = Some e -> test e = true -> (forall i x, l !! i = Some x -> test x = true -> i = j) -> first_slot test l = Some j.
Proof.
  intros Hj Ht Hu. destruct (first_slot test l) as [i|] eqn:Ef.
  - apply first_slot_some in Ef as (x & Hx & Hxt). f_equal. eauto.
  - now rewrite (first_slot_none _ _ Ef j e Hj) in Ht.
Qed.

(** Two entries of the same datagram. *)
Definition same_id (a b : Entry) : Prop :=
  e_source a = e_source b /\ e_destination a = e_destination b /\ e_identification a = e_identification b.

(** An entry built from frames of the log. *)
Definition logged (log : list (list Z)) (ps : list Piece) : Prop := forall q, q ∈ ps -> p_frame q ∈ log.
Definition kept (log : list (list Z)) (e : Entry) : Prop :=
  size (fragmentable e) = 65535
  /\ (occupied e = true -> exists ps, holds e ps /\ ps <> [] /\ logged log ps).

Record wf (s : t) (log : list (list Z)) : Prop := mkWf {
  wf_completed : size (completed_ s) = maximum_ethernet_ipv6_datagram_octets;
  wf_entries : forall j e, entries_ s !! j = Some e -> kept log e;
  wf_unique : forall i j a b, entries_ s !! i = Some a -> entries_ s !! j = Some b ->
    occupied a = true -> occupied b = true -> same_id a b -> i = j
}.

Lemma kept_more log x e : kept log e -> kept (x :: log) e.
Proof.
  intros [H1 H2]. split; [done|]. intros Ho. destruct (H2 Ho) as (ps & A & B & C). exists ps. split_and!; auto.
  intros q Hq. constructor. now apply C.
Qed.

Lemma kept_clear log e : size (fragmentable e) = 65535 -> kept log (clear e).
Proof. intros H. split; [exact H|discriminate]. Qed.

Lemma wf_more s log x : wf s log -> wf s (x :: log).
Proof. intros []. constructor; eauto using kept_more. Qed.

(** A map over the slots that clears some. *)
Lemma wf_clearing s log g :
  (forall e, g e = e \/ g e = clear e) -> wf s log -> wf (s <| entries_ := g <$> entries_ s |>) log.
Proof.
  intros Hg [H1 H2 H3].
  assert (forall j e, (g <$> entries_ s) !! j = Some e -> exists x, entries_ s !! j = Some x /\ (e = x \/ e = clear x)) as Hl.
  { intros j e E. rewrite list_lookup_fmap in E. destruct (entries_ s !! j) as [x|]; [|discriminate]. injection E as <-.
    exists x. destruct (Hg x); auto. }
  constructor; [exact H1| |].
  - intros j e (x & Hx & [->| ->])%Hl; [eauto|]. apply kept_clear. now destruct (H2 j x Hx).
  - intros i j a b (x & Hx & [->| ->])%Hl (y & Hy & [->| ->])%Hl; try discriminate. eauto.
Qed.

Lemma wf_expire s log now : wf s log -> wf (expire s now) log.
Proof. apply wf_clearing. intros e. case_if; auto. Qed.

Lemma wf_discard s log : wf s log -> wf (discard_all s) log.
Proof. apply wf_clearing. auto. Qed.

Lemma lookup_update s j e i :
  entries_ (update s j e) !! i = if decide (i = j) then (if decide (j < length (entries_ s))%nat then Some e else None) else entries_ s !! i.
Proof.
  unfold update. cbn [entries_ set_field]. destruct (decide (i = j)) as [->|Hne].
  - case_decide; [now apply list_lookup_insert_eq|]. rewrite list_insert_ge by lia. apply lookup_ge_None_2. lia.
  - now apply list_lookup_insert_ne.
Qed.

Lemma wf_update s log j e :
  size (completed_ s) = maximum_ethernet_ipv6_datagram_octets ->
  (forall i x, i <> j -> entries_ s !! i = Some x -> kept log x) ->
  (forall i i' a b, i <> j -> i' <> j -> entries_ s !! i = Some a -> entries_ s !! i' = Some b ->
     occupied a = true -> occupied b = true -> same_id a b -> i = i') ->
  kept log e ->
  (occupied e = true -> forall i x, i <> j -> entries_ s !! i = Some x -> occupied x = true -> same_id e x -> False) ->
  wf (update s j e) log.
Proof.
  intros H1 H2 H3 He Hu. constructor; [exact H1| |].
  - intros i x. rewrite lookup_update. case_decide; [case_decide; [now intros [= <-]|discriminate]|eauto].
  - intros i i' a b. rewrite !lookup_update. destruct (decide (i = j)) as [->|N1], (decide (i' = j)) as [->|N2]; auto.
    + case_decide; [|discriminate]. intros [= <-] Hb Ha Ho Hs. exfalso. eauto.
    + case_decide; [|discriminate]. intros Ha [= <-] Ho Hb Hs. exfalso.
      apply (Hu Hb i a); auto. destruct Hs as (? & ? & ?). now split_and!.
    + eauto.
Qed.

(** ** Where a fragment goes *)

(** The slot of a fragment and the table with it. *)
Definition target (s : t) (view : Ipv6View) (f : Ipv6FragmentView) (now : Z) : option nat * t :=
  match find s view with Some slot => (Some slot, s) | None => allocate s view f now end.

Record targeted (s s' : t) (log : list (list Z)) (q : Piece) (j : nat) (e : Entry) (ps : list Piece) : Prop := mkTargeted {
  tg_slot : entries_ s' !! j = Some e;
  tg_holds : holds e ps;
  tg_logged : logged log ps;
  tg_match : matches (p_view q) e = true;
  tg_others : forall i, i <> j -> entries_ s' !! i = entries_ s !! i;
  tg_completed : completed_ s' = completed_ s;
  tg_unique : forall i x, i <> j -> entries_ s !! i = Some x -> occupied x = true -> same_id e x -> False;
  tg_old : entries_ s !! j = Some e \/ exists x, entries_ s !! j = Some x /\ occupied x = false
}.

Lemma matches_same v a b f :
  fragment v = Some f -> matches v a = true -> occupied b = true -> same_id a b -> matches v b = true.
Proof.
  intros Hf Ha Hb (E1 & E2 & E3). unfold matches in *. rewrite Hf, Hb, <- E1, <- E2, <- E3 in *.
  now apply andb_true_iff in Ha as [[[_ ->]%andb_true_iff ->]%andb_true_iff ->].
Qed.

Lemma matches_id v a b f :
  fragment v = Some f -> matches v a = true -> matches v b = true -> same_id a b.
Proof.
  intros Hf. unfold matches, same_id. rewrite Hf. intros [[[_ A1]%andb_true_iff A2]%andb_true_iff A3]%andb_true_iff
    [[[_ B1]%andb_true_iff B2]%andb_true_iff B3]%andb_true_iff.
  apply bool_decide_eq_true_1 in A1, A2, B1, B2. split_and!; (congruence || lia).
Qed.

(** The slot of a datagram the table has. *)
Lemma target_at s log q now j e ps :
  wf s log -> genuine q -> entries_ s !! j = Some e -> holds e ps -> logged log ps -> matches (p_view q) e = true ->
  target s (p_view q) (p_fields q) now = (Some j, s) /\ targeted s s log q j e ps.
Proof.
  intros [H1 H2 H3] G He Hh Hl Hm. pose proof (ge_fields _ G) as Hf.
  assert (forall i x, entries_ s !! i = Some x -> matches (p_view q) x = true -> i = j) as Hu.
  { intros i x Hx Hmx. apply (H3 i j x e); auto; [|apply Hh|eapply matches_id; eauto].
    unfold matches in Hmx. now destruct (occupied x). }
  split; [unfold target, find; now rewrite (first_slot_unique _ _ j e)|].
  constructor; auto. intros k x Hne Hx Ho Hs. apply Hne. apply (Hu k x Hx). eapply matches_same; eauto.
Qed.

Definition fresh (v : Ipv6View) (f : Ipv6FragmentView) (now : Z) (e : Entry) : Entry :=
  mkEntry (source v) (destination v) [] (fragmentable e) no_receipts (now + Catalog.ipv6_reassembly_timeout)
    (identification f) 0 0 0 0 0 true false false.

Lemma allocate_fresh s v f now :
  allocate s v f now
  = match first_slot (fun e => negb (occupied e)) (entries_ s) with
    | None => (None, s)
    | Some slot => (Some slot, mk (alter (fresh v f now) slot (entries_ s)) (completed_ s))
    end.
Proof. reflexivity. Qed.

(** The slot of a datagram the table does not have. *)
Lemma target_fresh s log q now j x :
  wf s log -> genuine q -> find s (p_view q) = None ->
  first_slot (fun e => negb (occupied e)) (entries_ s) = Some j -> entries_ s !! j = Some x ->
  exists s', target s (p_view q) (p_fields q) now = (Some j, s')
    /\ targeted s s' log q j (fresh (p_view q) (p_fields q) now x) [].
Proof.
  intros [H1 H2 H3] G Ef Ea Hx. pose proof (ge_fields _ G) as Hf. unfold target. rewrite Ef, allocate_fresh, Ea.
  eexists. split; [reflexivity|]. set (e' := fresh _ _ _ _).
  assert (matches (p_view q) e' = true) as Hm.
  { unfold matches. rewrite Hf. change (occupied e') with true. cbn [andb].
    rewrite !bool_decide_eq_true_2 by reflexivity. apply Z.eqb_refl. }
  constructor; auto.
  - cbn [entries_]. now rewrite list_lookup_alter_eq, Hx.
  - apply fresh_holds; try reflexivity. now destruct (H2 j x Hx).
  - intros y Hy. inversion Hy.
  - intros k Hne. cbn [entries_]. now apply list_lookup_alter_ne.
  - intros k y Hne Hy Hoy Hs.
    assert (matches (p_view q) y = true) as E by (eapply matches_same; eauto). rewrite (first_slot_none _ _ Ef k y Hy) in E. discriminate.
  - right. exists x. split; [done|]. apply first_slot_some in Ea as (y & Hy & Ho). rewrite Hx in Hy. injection Hy as <-. now destruct (occupied x).
Qed.

Lemma target_spec s log q now j s' :
  wf s log -> genuine q -> target s (p_view q) (p_fields q) now = (Some j, s') ->
  exists e ps, targeted s s' log q j e ps.
Proof.
  intros W G Et. destruct (find s (p_view q)) as [i|] eqn:Ef.
  - pose proof Ef as (e & He & Hm)%first_slot_some. destruct (wf_entries _ _ W i e He) as [_ Hk].
    destruct Hk as (ps & A & _ & C); [now unfold matches in Hm; destruct (occupied e)|].
    destruct (target_at s log q now i e ps) as [E T]; auto. rewrite E in Et. injection Et as <- <-. eauto.
  - destruct (first_slot (fun e => negb (occupied e)) (entries_ s)) as [i|] eqn:Ea.
    + pose proof Ea as (x & Hx & _)%first_slot_some.
      destruct (target_fresh s log q now i x) as (s1 & E & T); auto. rewrite E in Et. injection Et as <- <-. eauto.
    + unfold target in Et. rewrite Ef, allocate_fresh, Ea in Et. discriminate.
Qed.

(** ** Acceptance *)

(** What happens to a piece once its slot is known. *)
Definition settle (s : t) (slot : nat) (e : Entry) (q : Piece) : Ipv6ReassemblyResult * t :=
  match place e (p_view q) (p_fields q) (p_frame q) (p_place q) with
  | inl (verdict, e) => (answer verdict, update s slot (clear e))
  | inr e =>
      if whole e then
        let (packet, s) := assemble (update s slot e) e in
        (mkResult (match packet with [] => malformed | _ => complete end) packet, update s slot (clear e))
      else (answer incomplete, update s slot e)
  end.

Lemma accept_piece s q now :
  genuine q ->
  accept s (p_frame q) now
  = let '(slot, s) := target (expire s now) (p_view q) (p_fields q) now in
    match slot with
    | None => (answer resource_exhausted, s)
    | Some slot => match entries_ s !! slot with Some e => settle s slot e q | None => (answer resource_exhausted, s) end
    end.
Proof.
  intros [Ev Ef En Ep _ _]. unfold accept, target. rewrite Ev, Ef, En, Ep.
  destruct (find _ _); [reflexivity|]. now destruct (allocate _ _ _ _).
Qed.

(** Every other frame leaves the entries alone. *)
Lemma accept_aside s frame now :
  size (completed_ s) = maximum_ethernet_ipv6_datagram_octets -> Forall is_u8 frame -> size frame <= maximum_frame_octets ->
  (exists q, genuine q /\ p_frame q = frame)
  \/ status (accept s frame now).1 <> complete
     /\ status (accept s frame now).1 <> incomplete
     /\ entries_ (accept s frame now).2 = entries_ (expire s now)
     /\ size (completed_ (accept s frame now).2) = maximum_ethernet_ipv6_datagram_octets.
Proof.
  intros Hc Hb Hs. unfold accept. change (completed_ s) with (completed_ (expire s now)) in Hc. set (s0 := expire s now) in *. clearbody s0.
  destruct (parse_ipv6 frame) as [v|] eqn:Ev; [|now right]. destruct (fragment v) as [f|] eqn:Ef; [|now right].
  destruct (_ && _) eqn:En.
  - right. unfold accept_atomic. destruct (_ || _) eqn:Eg; [now split_and!|]. bool_to_prop.
    pose proof (parse_start _ _ Ev) as (B1 & B2 & B3 & B4 & _ & _ & _ & _ & _ & w & Hw & Fw & Fh & Fp).
    rewrite Ef in Fw. unfold maximum_frame_octets, ipv6_fragment_header_octets in *. change first_extension_offset with 54 in *.
    apply (walk_header _ _ _ Hb (start frame) w f) in Hw as (C1 & C2 & C3); auto; cbn; try lia.
    rewrite <- Fh in *. change maximum_ethernet_ipv6_datagram_octets with 65589 in *.
    assert (size (Packet.copy_at (completed_ s0) 0 (take (Z.to_nat (fragment_header_offset v)) frame)) = 65589) as S1
      by (rewrite size_copy_at; rewrite ?size_take by lia; lia).
    set (c := Packet.write16 _ _ _). assert (size c = 65589) as S4.
    { unfold c. rewrite size_write16, size_put, size_copy_at; rewrite ?S1; rewrite ?size_slice by lia; lia. }
    destruct (padded_size c (54 + payload_length v - 8)) as [_ Ec]; [rewrite S4; lia..|].
    cbn. split_and!; try done. exact (eq_trans Ec S4).
  - destruct (placement v f) as [p|] eqn:Ep; [|now right]. left. exists (mkPiece frame v f p). split; [|reflexivity].
    now constructor.
Qed.

(** What [settle] answers and leaves. *)
Definition refused (e : Entry) (q : Piece) : bool := foreign_header e q || collides e q || wrong_end e q.

Inductive settled (e : Entry) (q : Piece) : Ipv6ReassemblyResult -> Entry -> Prop :=
| settled_refused verdict x : refused e q = true -> verdict = (if negb (foreign_header e q) && collides e q then overlap else malformed) ->
    size (fragmentable x) = 65535 -> settled e q (answer verdict) (clear x)
| settled_complete : refused e q = false -> whole (taken e q) = true ->
    settled e q (mkResult complete (rebuilt (taken e q))) (clear (taken e q))
| settled_incomplete : refused e q = false -> whole (taken e q) = false -> settled e q (answer incomplete) (taken e q).

Lemma refused_false e q : refused e q = false ->
  foreign_header e q = false /\ collides e q = false /\ wrong_end e q = false.
Proof. unfold refused. intros [[H1 H2]%orb_false_iff H3]%orb_false_iff. auto. Qed.

Section Settle.
Context (s s' : t) (log : list (list Z)) (q : Piece) (j : nat) (e : Entry) (ps : list Piece).
Context (W : wf s log) (G : genuine q) (T : targeted s s' log q j e ps).

Lemma slot_lt : (j < length (entries_ s'))%nat.
Proof. apply lookup_lt_Some with e. exact (tg_slot _ _ _ _ _ _ _ T). Qed.

Lemma took : refused e q = false -> holds (taken e q) (q :: ps).
Proof.
  intros (F1 & F2 & F3)%refused_false.
  apply taken_holds; auto; [exact (tg_holds _ _ _ _ _ _ _ T)|exact (tg_match _ _ _ _ _ _ _ T)].
Qed.

Lemma settle_spec : exists e',
  settled e q (settle s' j e q).1 e'
  /\ entries_ (settle s' j e q).2 !! j = Some e'
  /\ (forall i, i <> j -> entries_ (settle s' j e q).2 !! i = entries_ s !! i)
  /\ size (completed_ (settle s' j e q).2) = maximum_ethernet_ipv6_datagram_octets.
Proof.
  pose proof slot_lt as Hlt. pose proof (tg_others _ _ _ _ _ _ _ T) as Ho.
  assert (size (completed_ s') = maximum_ethernet_ipv6_datagram_octets) as Hc
    by (rewrite (tg_completed _ _ _ _ _ _ _ T); apply W).
  assert (forall (s1 : t) x, entries_ s1 = entries_ s' \/ (exists y, entries_ s1 = entries_ (update s' j y)) ->
    entries_ (update s1 j x) !! j = Some x /\ forall i, i <> j -> entries_ (update s1 j x) !! i = entries_ s !! i) as Hu.
  { intros s1 x E. assert (length (entries_ s1) = length (entries_ s')) as El
      by (destruct E as [->|[y ->]]; [done|apply length_insert]).
    split; [rewrite lookup_update, El; case_decide; [|congruence]; case_decide; [reflexivity|lia]|].
    intros i Hne. rewrite lookup_update, decide_False by done. destruct E as [->|[y ->]]; [now apply Ho|].
    rewrite lookup_update, decide_False by done. now apply Ho. }
  pose proof (ho_arena _ _ (tg_holds _ _ _ _ _ _ _ T)) as Ha.
  unfold settle. rewrite place_cases. destruct (foreign_header e q) eqn:E1.
  { destruct (Hu s' (clear e)) as [Hj Hi]; [now left|]. exists (clear e). split_and!; auto.
    apply settled_refused; [unfold refused; now rewrite E1|now rewrite E1|done]. }
  destruct (collides e q) eqn:E2.
  { destruct (Hu s' (clear e)) as [Hj Hi]; [now left|]. exists (clear e). split_and!; auto.
    apply settled_refused; [unfold refused; now rewrite E1, E2|now rewrite E1, E2|done]. }
  destruct (wrong_end e q) eqn:E3.
  { set (x := written e (p_view q) (p_frame q) (p_place q)).
    destruct (Hu s' (clear x)) as [Hj Hi]; [now left|]. exists (clear x). split_and!; auto.
    apply settled_refused; [unfold refused; now rewrite E1, E2, E3|now rewrite E1, E2|].
    pose proof (genuine_bounds q G) as (B1 & _ & _ & _ & _ & B6 & B7 & B8 & _). fold (p_data q) in *.
    unfold x, written. cbn [fragmentable]. fold (p_data q) (p_offset q). rewrite size_copy_at; lia. }
  assert (refused e q = false) as Er by (unfold refused; now rewrite E1, E2, E3).
  destruct (whole (taken e q)) eqn:Ew.
  - assert (holds (taken e q) (q :: ps)) as Hh by now apply took.
    destruct (assemble_whole (update s' j (taken e q)) (taken e q) (q :: ps) Hc Hh Ew) as (A1 & A2 & A3).
    destruct (assemble (update s' j (taken e q)) (taken e q)) as [packet s1]. cbn [fst snd] in *.
    destruct (Hu s1 (clear (taken e q))) as [Hj Hi]; [right; now exists (taken e q)|].
    exists (clear (taken e q)). split_and!; auto. rewrite A1.
    assert (0 < size (rebuilt (taken e q))) as Hp by (unfold rebuilt; rewrite size_pad; lia).
    destruct (rebuilt (taken e q)) eqn:Eb; [discriminate|]. rewrite <- Eb. now apply settled_complete.
  - destruct (Hu s' (taken e q)) as [Hj Hi]; [now left|]. exists (taken e q). split_and!; auto. now apply settled_incomplete.
Qed.

Lemma settled_entry r e' :
  settled e q r e' -> kept (p_frame q :: log) e' /\ (occupied e' = true -> same_id e e').
Proof.
  pose proof (ho_arena _ _ (tg_holds _ _ _ _ _ _ _ T)) as Ha.
  pose proof took as Hh.
  intros [v x _ _ Hx|Er _|Er _].
  - split; [now apply kept_clear|discriminate].
  - split; [|discriminate]. apply kept_clear. apply (ho_arena _ _ (Hh Er)).
  - split; [split; [apply (ho_arena _ _ (Hh Er))|]|now intros _; split_and!]. intros _. exists (q :: ps). split_and!; auto.
    intros q' [->|Hq]%elem_of_cons; [constructor|]. constructor. now apply (tg_logged _ _ _ _ _ _ _ T).
Qed.

Lemma settle_wf : wf (settle s' j e q).2 (p_frame q :: log).
Proof.
  destruct settle_spec as (e' & Hs & Hj & Ho & Hc). apply settled_entry in Hs as [Hk Hi].
  pose proof (wf_more _ _ (p_frame q) W) as [_ K U]. pose proof (tg_unique _ _ _ _ _ _ _ T) as Hu.
  constructor; [exact Hc| |].
  - intros i x Hx. destruct (decide (i = j)) as [->|Hne]; [now simplify_eq|]. rewrite Ho in Hx by done. eauto.
  - intros i k a b Hia Hkb Oa Ob Hab. destruct (decide (i = j)) as [->|N1], (decide (k = j)) as [->|N2]; auto.
    + simplify_eq. rewrite Ho in Hkb by done. exfalso. apply (Hu k b N2 Hkb Ob).
      destruct (Hi Oa) as (? & ? & ?), Hab as (? & ? & ?). split_and!; congruence.
    + simplify_eq. rewrite Ho in Hia by done. exfalso. apply (Hu i a N1 Hia Oa).
      destruct (Hi Ob) as (? & ? & ?), Hab as (? & ? & ?). split_and!; congruence.
    + rewrite Ho in Hia, Hkb by done. eauto.
Qed.
End Settle.

(** A frame's acceptance keeps the table well formed. *)
Lemma accept_wf s log frame now :
  wf s log -> Forall is_u8 frame -> size frame <= maximum_frame_octets -> wf (accept s frame now).2 (frame :: log).
Proof.
  intros W Hb Hs. pose proof (wf_expire _ _ now W) as We.
  destruct (accept_aside s frame now (wf_completed _ _ W) Hb Hs) as [(q & G & <-)|(_ & _ & E & C)].
  - rewrite accept_piece by done. destruct (target (expire s now) (p_view q) (p_fields q) now) as [[j|] s'] eqn:Et; cbn beta iota.
    + destruct (target_spec _ _ _ _ _ _ We G Et) as (e & ps & T). rewrite (tg_slot _ _ _ _ _ _ _ T). eapply settle_wf; eauto.
    + apply wf_more. revert Et. unfold target. destruct (find _ _); [discriminate|]. unfold allocate.
      destruct (first_slot _ _); [discriminate|]. now intros [= <-].
  - apply wf_more. destruct We as [_ K U]. constructor; rewrite ?E; auto.
Qed.

Lemma size_replicate n (x : Z) : 0 <= n -> size (replicate (Z.to_nat n) x) = n.
Proof. intros H. unfold size. rewrite length_replicate. now apply Z2Nat.id. Qed.

Lemma construct_wf : wf construct [].
Proof.
  assert (forall j e, entries_ construct !! j = Some e -> occupied e = false /\ size (fragmentable e) = 65535) as H.
  { intros j e. unfold construct. cbn [entries_]. intros [-> _]%lookup_replicate. cbn [occupied fragmentable].
    split; [reflexivity|]. unfold maximum_ipv6_payload_octets. now apply size_replicate. }
  constructor.
  - unfold construct, maximum_ethernet_ipv6_datagram_octets. cbn [completed_]. apply size_replicate. discriminate.
  - intros j e [Ho Ha]%H. split; [exact Ha|congruence].
  - intros i j a b [Ha _]%H _ Oa. congruence.
Qed.

(** ** Runs *)

(** A table and the frames it was given, the latest first. *)
Inductive Run : t -> list (list Z) -> Prop :=
| run_construct : Run construct []
| run_accept s log frame now : Run s log -> Forall is_u8 frame -> size frame <= maximum_frame_octets ->
    Run (accept s frame now).2 (frame :: log)
| run_expire s log now : Run s log -> Run (expire s now) log
| run_discard s log : Run s log -> Run (discard_all s) log.

Lemma run_wf s log : Run s log -> wf s log.
Proof. induction 1; auto using construct_wf, accept_wf, wf_expire, wf_discard. Qed.

(** A datagram put together from fragments: of one datagram and pairwise apart,
    they cover it up to the end of the last one; its headers are those of the
    first, with the protocol and the length restored. *)
Record composed (packet : list Z) (ps : list Piece) : Prop := mkComposed {
  co_genuine : forall q, q ∈ ps -> genuine q;
  co_same : forall q q', q ∈ ps -> q' ∈ ps ->
    source (p_view q) = source (p_view q') /\ destination (p_view q) = destination (p_view q')
    /\ identification (p_fields q) = identification (p_fields q')
    /\ fragment_header_offset (p_view q) = fragment_header_offset (p_view q') /\ p_next q = p_next q';
  co_apart : forall i j q q', ps !! i = Some q -> ps !! j = Some q' -> i <> j -> apart q q';
  co_whole : exists first last q,
    first ∈ ps /\ p_offset first = 0 /\ last ∈ ps /\ p_last last = true /\ q ∈ ps
    /\ (forall q', q' ∈ ps -> p_end q' <= p_end last)
    /\ (forall k, 0 <= k < p_end last -> covers ps k = true)
    /\ let h := fragment_header_offset (p_view first) in
       size packet = Z.max (h + p_end last) 60
       /\ take (Z.to_nat h) packet
          = Packet.write16 (put (take (Z.to_nat h) (p_frame first)) (fragment_previous_next_header_offset (p_view q)) (p_next q))
              fixed_payload_length_offset (u16 (h - first_extension_offset + p_end last))
       /\ (forall q' k, q' ∈ ps -> p_offset q' <= k < p_end q' ->
             get packet (h + k) = get (p_data q') (k - p_offset q'))
       /\ forall k, h + p_end last <= k < size packet -> get packet k = 0
}.

Section Rebuilt.
Context (e : Entry) (ps : list Piece) (H : holds e ps) (Hw : whole e = true).

Lemma rebuilt_layout :
  let h := e_fragment_header_offset e in
  size (rebuilt e) = Z.max (h + final_size e) 60
  /\ take (Z.to_nat h) (rebuilt e)
     = Packet.write16 (put (take (Z.to_nat h) (first_fragment e)) (e_previous_next_header_offset e) (e_fragment_next_header e))
         fixed_payload_length_offset (u16 (h - first_extension_offset + final_size e))
  /\ (forall k, 0 <= k < final_size e -> get (rebuilt e) (h + k) = get (fragmentable e) k)
  /\ forall k, h + final_size e <= k < size (rebuilt e) -> get (rebuilt e) k = 0.
Proof.
  intros h. destruct (whole_first e ps H Hw) as (_ & _ & _ & _ & _ & Bh & _ & Bf & Bm). fold h in Bh, Bm.
  pose proof (ho_arena _ _ H) as Ha.
  set (hd := put (take (Z.to_nat h) (first_fragment e)) (e_previous_next_header_offset e) (e_fragment_next_header e)).
  assert (size hd = h) as Sh by (unfold hd; rewrite size_put, size_take; lia).
  set (m := final_size e) in *. set (data := take (Z.to_nat m) (fragmentable e)).
  assert (size data = m) as Sd by (unfold data; rewrite size_take; lia).
  assert (rebuilt e = pad (Packet.write16 (hd ++ data) 18 (u16 (h - 54 + m)))) as -> by reflexivity.
  set (l := Packet.write16 (hd ++ data) 18 (u16 (h - 54 + m))).
  assert (size l = h + m) as Sl by (unfold l; rewrite size_write16, size_app; lia).
  rewrite size_pad, Sl. split_and!; [reflexivity| | |].
  - apply get_ext; [rewrite size_take, size_write16; rewrite ?size_pad; lia|].
    rewrite size_take by (rewrite size_pad; lia). intros k Hk. rewrite get_take, get_pad by lia.
    rewrite (proj2 (Z.ltb_lt _ _)) by lia. unfold l. change fixed_payload_length_offset with 18. change first_extension_offset with 54.
    rewrite !get_write16 by (rewrite ?size_app; lia). destruct (k =? 18); [done|]. destruct (k =? 18 + 1); [done|].
    apply get_before_app. lia.
  - intros k Hk. rewrite get_pad by lia. rewrite (proj2 (Z.ltb_lt _ _)) by lia. unfold l.
    rewrite get_write16 by (rewrite ?size_app; lia). rewrite (proj2 (Z.eqb_neq _ _)), (proj2 (Z.eqb_neq _ _)) by lia.
    rewrite get_after_app by lia. unfold data. rewrite get_take by lia. f_equal. lia.
  - intros k Hk. rewrite get_pad by lia. now rewrite (proj2 (Z.ltb_ge _ _)) by lia.
Qed.

Lemma rebuilt_composed : composed (rebuilt e) ps.
Proof.
  destruct (whole_pieces e ps H Hw) as (q0 & ql & Hq0 & E0 & Hql & El & Ef & Hcov).
  destruct rebuilt_layout as (L1 & L2 & L3 & L4).
  constructor.
  - apply H.
  - intros q q' Hq Hq'. pose proof (ho_key _ _ H q Hq) as M. pose proof (ho_key _ _ H q' Hq') as M'.
    pose proof (ge_fields _ (ho_genuine _ _ H q Hq)) as F. pose proof (ge_fields _ (ho_genuine _ _ H q' Hq')) as F'.
    unfold matches in M, M'. rewrite F in M. rewrite F' in M'.
    apply andb_true_iff in M as [[[_ M1]%andb_true_iff M2]%andb_true_iff M3].
    apply andb_true_iff in M' as [[[_ M1']%andb_true_iff M2']%andb_true_iff M3'].
    apply bool_decide_eq_true_1 in M1, M2, M1', M2'.
    destruct (ho_header _ _ H q Hq) as [A B], (ho_header _ _ H q' Hq') as [A' B'].
    split_and!; (congruence || lia).
  - apply (ho_apart _ _ H).
  - assert (exists q, q ∈ ps /\ e_previous_next_header_offset e = fragment_previous_next_header_offset (p_view q)) as (q & Hq & Ep).
    { destruct ps as [|q qs]; [inversion Hq0|]. exists q. split; [constructor|]. eapply (ho_previous _ _ H). reflexivity. }
    exists q0, ql, q. destruct (ho_header _ _ H q Hq) as [_ Bn]. destruct (ho_header _ _ H q0 Hq0) as [Bh _].
    rewrite <- Bh, <- Bn, <- Ep, El, Ef, <- (ho_frame _ _ H q0 Hq0 E0). split_and!; auto.
    + intros q' Hq'. pose proof (ho_extent _ _ H q' Hq') as X.
      assert (have_last e = true) as Hl by (unfold whole in Hw; now destruct (have_last e), (have_first e)).
      pose proof (ho_within _ _ H Hl). lia.
    + intros h. split_and!; auto. intros q' k Hq' Hk. rewrite <- (ho_data _ _ H q' k Hq' Hk). apply L3.
      pose proof (piece_bounds e ps H q' Hq'). pose proof (ho_extent _ _ H q' Hq') as X.
      assert (have_last e = true) as Hl by (unfold whole in Hw; now destruct (have_last e), (have_first e)).
      pose proof (ho_within _ _ H Hl). lia.
Qed.
End Rebuilt.

(** What a completing frame completes. *)
Lemma accept_complete s log frame now :
  wf s log -> Forall is_u8 frame -> size frame <= maximum_frame_octets ->
  status (accept s frame now).1 = complete ->
  exists ps, logged (frame :: log) ps /\ composed (packet (accept s frame now).1) ps /\ exists q, q ∈ ps /\ p_frame q = frame.
Proof.
  intros W Hb Hs Hc. pose proof (wf_expire _ _ now W) as We.
  destruct (accept_aside s frame now (wf_completed _ _ W) Hb Hs) as [(q & G & <-)|(N & _)]; [|contradiction].
  rewrite accept_piece in Hc |- * by done.
  destruct (target (expire s now) (p_view q) (p_fields q) now) as [[j|] s'] eqn:Et; cbn beta iota in *; [|discriminate].
  destruct (target_spec _ _ _ _ _ _ We G Et) as (e & ps & T). rewrite (tg_slot _ _ _ _ _ _ _ T) in Hc |- *.
  destruct (settle_spec _ _ _ _ _ _ _ We G T) as (e' & Hs' & _). pose proof (took _ _ _ _ _ _ _ G T) as Hh.
  destruct Hs' as [v x _ Hv _|Er Ew|]; [|clear Hc|discriminate].
  { cbn in Hc. subst v. destruct (negb _ && _); discriminate. } exists (q :: ps). split_and!.
  - intros q' [->|Hq]%elem_of_cons; constructor. now apply (tg_logged _ _ _ _ _ _ _ T).
  - apply rebuilt_composed; auto.
  - exists q. split; [constructor|done].
Qed.

(** C7: Whatever frames a table of partial datagrams was given, and in whatever
    order, with whatever expirations and discards in between, a datagram it
    completes is composed of received fragments: they belong to one datagram, no
    two of them overlap, they cover it to its end, and every octet of it comes
    from them. *)
Theorem reassembly_sound s log frame now :
  Run s log -> Forall is_u8 frame -> size frame <= maximum_frame_octets ->
  status (accept s frame now).1 = complete ->
  exists ps, logged (frame :: log) ps /\ composed (packet (accept s frame now).1) ps /\ exists q, q ∈ ps /\ p_frame q = frame.
Proof. intros R. apply accept_complete. now apply run_wf. Qed.

End Ipv6Reassembly.
