(* ===== verification/Ipv6RoundTrip.v ===== *)
(** * Fragments give the datagram back

    The fragments a source makes of a datagram, delivered in any order and mixed
    with other frames, complete the datagram they were made of, and nothing else. *)

From S2P Require Import Prelude Catalog Arena Packet Octets Ipv6Packet Ipv6Fragmentation Ipv6Fragments Ipv6Entry Ipv6Reassembly.
Import Arena.

Module Ipv6RoundTrip.
Import Ipv6Packet.Ipv6 Octets.Octets Ipv6Fragmentation.Ipv6Fragmentation Ipv6Fragments.Ipv6Fragments Ipv6Entry.Ipv6Entry
  Ipv6Reassembly.Ipv6Reassembly.

(** ** The fragments of a datagram *)

Definition fragment_frame_at (P : list Z) (l : FragmentLayout) (id k : Z) : list Z :=
  fragment_at P l id (k * per_fragment l).
Definition fragments (P : list Z) (l : FragmentLayout) (id : Z) : list (list Z) :=
  fragment_frame_at P l id <$> seqZ 0 (count l).

Lemma chain_next_header P e i off cur prev :
  chain P e i off cur prev -> cur = get P prev -> fragment_next_header i = get P (previous_next_header_offset i).
Proof. induction 1 as [off cur prev ->|]; [done|auto]. Qed.

Lemma octets_put l k v : Forall is_u8 l -> is_u8 v -> Forall is_u8 (put l k v).
Proof. intros Hl Hv. unfold put. now apply Forall_insert. Qed.

Lemma octets_write16 l k v : Forall is_u8 l -> Forall is_u8 (Packet.write16 l k v).
Proof. intros Hl. unfold Packet.write16. auto using octets_put, u8_range. Qed.

Lemma octets_be16 v : Forall is_u8 (be16 v).
Proof. unfold be16. repeat constructor; apply u8_range. Qed.

Lemma octets_be32 v : Forall is_u8 (be32 v).
Proof. unfold be32. repeat constructor; apply u8_range. Qed.

Lemma octets_slice l k n : Forall is_u8 l -> Forall is_u8 (slice l k n).
Proof. intros Hl. unfold slice. now apply Forall_take, Forall_drop. Qed.

Lemma read16_octets l k : Forall is_u8 l ->
  u8 (Z.shiftr (Packet.read16 l k) 8) = get l k /\ u8 (Packet.read16 l k) = get l (k + 1).
Proof.
  intros Hl. pose proof (get_word l k Hl) as H1. pose proof (get_word l (k + 1) Hl) as H2. unfold Packet.read16.
  rewrite Z.shiftr_div_pow2 by lia. rewrite lor_shiftl by (unfold is_u8 in *; lia). change (2 ^ 8) with 256.
  unfold u8, u16, is_u8 in *. lia.
Qed.

Section Datagram.
Context (P : list Z) (mtu id : Z) (l : FragmentLayout).
Context (HP : Forall is_u8 P) (HL : laid_out P mtu l) (Hmtu : mtu + 14 <= maximum_frame_octets) (Hid : is_u32 id).

Abbreviation i := (insertion l).

Lemma next_header_octet : fragment_next_header i = get P (previous_next_header_offset i).
Proof. exact (chain_next_header _ _ _ _ _ _ (lo_chain _ _ _ HL) eq_refl). Qed.

Lemma insertion_place : 54 <= offset i /\ 20 <= previous_next_header_offset i < offset i.
Proof. destruct (lo_size _ _ _ HL) as [_ Hs]. apply (insertion_bounds P mtu 0 l HP HL). lia. Qed.

(** More than one fragment: the datagram exceeds the mtu. *)
Lemma per_bounds : per_fragment l mod 8 = 0 /\ 0 < per_fragment l < fragmentable_size l.
Proof.
  pose proof insertion_place as Hi. destruct (lo_per _ _ _ HL) as [E Hp]. destruct (lo_size _ _ _ HL) as [Es _].
  destruct (lo_end _ _ _ HL) as [_ He]. split; [rewrite E; apply Z.mod_mul; lia|]. lia.
Qed.

Lemma count_bounds : 2 <= count l /\ (count l - 1) * per_fragment l < fragmentable_size l <= count l * per_fragment l.
Proof. pose proof per_bounds as [_ Hp]. rewrite (lo_count _ _ _ HL). nia. Qed.

Lemma index_bounds k : 0 <= k < count l -> 0 <= k * per_fragment l < fragmentable_size l /\ (k * per_fragment l) mod 8 = 0.
Proof.
  pose proof per_bounds as [Hm Hp]. pose proof count_bounds as [_ Hc]. intros Hk. split; [nia|].
  rewrite <- Z.mul_mod_idemp_r, Hm, Z.mul_0_r by lia. reflexivity.
Qed.

(** The extent of the fragment of an index. *)
Definition fragment_end (k : Z) : Z := Z.min ((k + 1) * per_fragment l) (fragmentable_size l).

Lemma fragment_end_last k : 0 <= k < count l -> (fragment_end k <? fragmentable_size l) = negb (k =? count l - 1).
Proof. pose proof per_bounds as [Hm Hp]. pose proof count_bounds as [_ Hc]. intros Hk. unfold fragment_end. nia. Qed.

Section Index.
Context (k : Z) (Hk : 0 <= k < count l).
Abbreviation F := (fragment_frame_at P l id k).

Lemma fragment_octets : Forall is_u8 F.
Proof.
  destruct (index_bounds k Hk) as [Ha Hu]. unfold fragment_frame_at. rewrite (fragment_frame P mtu id _ l HP HL Ha).
  apply octets_write16, Forall_app_2; [apply octets_put; [now apply Forall_take|unfold is_u8; lia]|].
  apply Forall_app_2; [|auto using Forall_app_2, octets_be16, octets_be32, octets_slice].
  rewrite next_header_octet. repeat constructor; (now apply get_word || (unfold is_u8; lia)).
Qed.

Lemma fragment_size : size F <= maximum_frame_octets.
Proof.
  destruct (index_bounds k Hk) as [Ha _]. unfold fragment_frame_at. rewrite (size_fragment P mtu id _ l HP HL Ha).
  pose proof (fragment_bounds P mtu _ l HP HL Ha). lia.
Qed.

(** The piece the destination makes of the fragment. *)
Record part (q : Piece) : Prop := mkPart {
  pt_genuine : genuine q;
  pt_frame : p_frame q = F;
  pt_source : source (p_view q) = take 16 (drop 22 P);
  pt_destination : destination (p_view q) = take 16 (drop 38 P);
  pt_id : identification (p_fields q) = id;
  pt_header : fragment_header_offset (p_view q) = offset i;
  pt_previous : fragment_previous_next_header_offset (p_view q) = previous_next_header_offset i;
  pt_next : p_next q = fragment_next_header i;
  pt_offset : p_offset q = k * per_fragment l;
  pt_end : p_end q = fragment_end k;
  pt_last : p_last q = (k =? count l - 1);
  pt_data : p_data q = slice P (offset i + k * per_fragment l) (fragment_end k - k * per_fragment l)
}.

Lemma fragment_part : k <> 0 \/ parse_ipv6 F <> None -> exists q, part q.
Proof.
  intros Hor. destruct (index_bounds k Hk) as [Ha Hu]. pose proof per_bounds as [Hm Hp]. pose proof insertion_place as Hi.
  pose proof (fragment_bounds P mtu _ l HP HL Ha) as (B1 & B2 & B3 & B4 & B5).
  pose proof fragment_octets as Ho. pose proof fragment_size as Hs.
  unfold fragment_frame_at in *. set (at_ := k * per_fragment l) in *.
  destruct (fragment_reads P mtu id at_ l HP HL Hmtu Hid Ha Hu) as (v & f & Hv & [R1 R2 R3 R4 R5 R6 R7 R8 R9]).
  { destruct Hor; [left; unfold at_; nia|now right]. }
  set (copied := Z.min (per_fragment l) (fragmentable_size l - at_)) in *.
  assert (at_ + copied = fragment_end k) as Ee by (unfold copied, fragment_end, at_; lia).
  assert (placement v f = Some (mkPlacement (offset i + 8) copied at_)) as Ep.
  { unfold placement. rewrite R3, R4. unfold ipv6_fragment_offset_unit_octets, ipv6_fragment_header_octets, maximum_ipv6_payload_octets.
    change first_extension_offset with 54. rewrite R8, R9.
    replace (54 + (offset i - 54 + 8 + copied)) with (offset i + 8 + copied) by lia.
    rewrite (proj2 (Z.ltb_ge _ _)) by lia. replace (offset i + 8 + copied - (offset i + 8)) with copied by lia.
    pose proof (lo_end _ _ _ HL) as [_ He]. destruct (lo_size _ _ _ HL) as [Es _].
    rewrite (proj2 (Z.eqb_neq copied 0)), (proj2 (Z.ltb_ge 65535 (at_ + copied))), (proj2 (Z.ltb_ge 65535 _)) by lia.
    rewrite !orb_false_r. cbn [orb]. destruct (Z.ltb_spec (at_ + copied) (fragmentable_size l)); [|reflexivity].
    assert (copied = per_fragment l) as -> by lia. rewrite Hm. reflexivity. }
  exists (mkPiece (fragment_at P l id at_) v f (mkPlacement (offset i + 8) copied at_)).
  constructor; unfold p_next, p_offset, p_end, p_last, p_data; cbn [p_frame p_view p_fields p_place data_start data_size data_offset]; auto.
  - constructor; cbn [p_frame p_view p_fields p_place]; auto. rewrite R9. apply andb_false_iff.
    destruct (Z.eqb_spec (fragment_offset f) 0); [right|now left]. apply negb_false_iff. lia.
  - rewrite R4. replace (offset i) with (offset i + 0) by lia.
    rewrite (get_fragment_body P mtu id at_ l HP HL Ha) by lia. reflexivity.
  - rewrite R9, Ee, fragment_end_last by done. apply negb_involutive.
  - unfold copied. rewrite (fragment_data P mtu id at_ l HP HL Ha). f_equal. fold copied. lia.
Qed.
End Index.

(** ** The entry of the datagram *)

(** What the table has after the fragments of [ks]. *)
Record partial (ks : list Z) (e : Entry) (ps : list Piece) : Prop := mkPartial {
  pa_holds : holds e ps;
  pa_parts : Forall2 part ks ps;
  pa_indices : forall k, k ∈ ks -> 0 <= k < count l
}.

Section Partial.
Context (ks : list Z) (e : Entry) (ps : list Piece) (A : partial ks e ps).

Lemma piece_part q : q ∈ ps -> exists k, k ∈ ks /\ 0 <= k < count l /\ part k q.
Proof.
  intros (j & Hj)%list_elem_of_lookup. destruct (Forall2_lookup_r _ _ _ _ _ (pa_parts _ _ _ A) Hj) as (k & Hk & Hp).
  apply list_elem_of_lookup_2 in Hk. exists k. split_and!; auto; now apply (pa_indices _ _ _ A).
Qed.

Lemma part_piece k : k ∈ ks -> exists q, q ∈ ps /\ part k q.
Proof.
  intros (j & Hj)%list_elem_of_lookup. destruct (Forall2_lookup_l _ _ _ _ _ (pa_parts _ _ _ A) Hj) as (q & Hq & Hp).
  exists q. split; [eapply list_elem_of_lookup_2; exact Hq|done].
Qed.

Lemma last_end : fragment_end (count l - 1) = fragmentable_size l.
Proof. pose proof per_bounds as [_ Hp]. pose proof count_bounds as [_ Hc]. unfold fragment_end. nia. Qed.

Lemma final_is_size : have_last e = true -> final_size e = fragmentable_size l.
Proof.
  intros Hl. rewrite (ho_last _ _ (pa_holds _ _ _ A)) in Hl. apply existsb_exists in Hl as (q & Hq%list_elem_of_In & El).
  rewrite (ho_final _ _ (pa_holds _ _ _ A) q Hq El). destruct (piece_part q Hq) as (k & _ & _ & Hp).
  rewrite (pt_last _ _ Hp) in El. rewrite (pt_end _ _ Hp). apply Z.eqb_eq in El as ->. exact last_end.
Qed.

Lemma end_within k : fragment_end k <= fragmentable_size l.
Proof. unfold fragment_end. lia. Qed.

(** A fragment not yet taken is never refused. *)
Lemma next_admitted k q : part k q -> 0 <= k < count l -> k ∉ ks -> refused e q = false.
Proof.
  intros Hq Hk Hn. pose proof (pa_holds _ _ _ A) as H. pose proof per_bounds as [_ Hp].
  unfold refused. rewrite !orb_false_iff. split_and!.
  - unfold foreign_header. assert (ps = [] \/ exists q', q' ∈ ps) as [En|(q' & Hq')]
      by (destruct ps as [|q' qs]; [now left|right; exists q'; constructor]); [now rewrite (ho_no_header _ _ H En)|].
    destruct (piece_part q' Hq') as (k' & _ & _ & Hp'). destruct (ho_header _ _ H q' Hq') as [-> ->].
    rewrite (pt_header _ _ Hp'), (pt_next _ _ Hp'), (pt_header _ _ Hq), (pt_next _ _ Hq), !Z.eqb_refl. apply andb_false_r.
  - unfold collides. apply orb_false_iff. split.
    + destruct (have_last e) eqn:El; [|done]. rewrite (final_is_size El), (pt_end _ _ Hq). pose proof (end_within k). cbn. lia.
    + destruct (any_received _ _ _) eqn:Er; [|done]. exfalso.
      apply (received_meets e ps q H (pt_genuine _ _ Hq)) in Er as (q' & Hq' & Ha).
      destruct (piece_part q' Hq') as (k' & Hk' & Hb & Hp'). apply Ha. unfold apart.
      rewrite (pt_offset _ _ Hq), (pt_end _ _ Hq), (pt_offset _ _ Hp'), (pt_end _ _ Hp'). unfold fragment_end.
      assert (k <> k') as Hne by congruence. nia.
  - unfold wrong_end. destruct (p_last q) eqn:El; [|done]. cbn [andb]. pose proof El as Ek.
    rewrite (pt_last _ _ Hq) in Ek. apply Z.eqb_eq in Ek. rewrite (pt_end _ _ Hq), Ek, last_end.
    apply orb_false_iff. split.
    + destruct (have_last e) eqn:Eh; [|done]. rewrite (final_is_size Eh), Z.eqb_refl. done.
    + apply Z.ltb_ge. destruct (ho_reach _ _ H) as [[_ ->]|(q' & Hq' & ->)]; [lia|].
      destruct (piece_part q' Hq') as (k' & _ & _ & Hp'). rewrite (pt_end _ _ Hp'). pose proof (end_within k'). lia.
Qed.

Lemma taken_partial k q :
  part k q -> 0 <= k < count l -> k ∉ ks -> matches (p_view q) e = true -> partial (k :: ks) (taken e q) (q :: ps).
Proof.
  intros Hq Hk Hn Hm. pose proof (next_admitted k q Hq Hk Hn) as (F1 & F2 & F3)%refused_false.
  constructor.
  - apply taken_holds; auto; [apply A|apply (pt_genuine _ _ Hq)].
  - constructor; [done|apply A].
  - intros k' [->|Hk']%elem_of_cons; [done|now apply (pa_indices _ _ _ A)].
Qed.

Lemma whole_all : whole e = true <-> forall k, 0 <= k < count l -> k ∈ ks.
Proof.
  pose proof (pa_holds _ _ _ A) as H. pose proof per_bounds as [_ Hp]. pose proof count_bounds as [Hc1 Hc]. split.
  - intros Hw k Hk. destruct (whole_pieces e ps H Hw) as (_ & ql & _ & _ & Hql & El & Ef & Hcov).
    destruct (index_bounds k Hk) as [Hb _]. rewrite <- Ef in Hcov. destruct (piece_part ql Hql) as (kl & _ & _ & Hpl).
    rewrite (pt_last _ _ Hpl) in El. apply Z.eqb_eq in El. rewrite (pt_end _ _ Hpl), El, last_end in Hcov.
    specialize (Hcov _ Hb). apply covers_true in Hcov as (q & Hq & Hkq). destruct (piece_part q Hq) as (k' & Hk' & _ & Hp').
    rewrite (pt_offset _ _ Hp'), (pt_end _ _ Hp') in Hkq. unfold fragment_end in Hkq. assert (k = k') as -> by nia. done.
  - intros Hall. destruct (part_piece 0) as (q0 & Hq0 & P0); [apply Hall; lia|].
    destruct (part_piece (count l - 1)) as (ql & Hql & Pl); [apply Hall; lia|].
    assert (have_first e = true) as Hf.
    { rewrite (ho_first _ _ H). apply existsb_exists. exists q0. split; [now apply list_elem_of_In|]. rewrite (pt_offset _ _ P0). lia. }
    assert (have_last e = true) as Hl.
    { rewrite (ho_last _ _ H). apply existsb_exists. exists ql. split; [now apply list_elem_of_In|]. rewrite (pt_last _ _ Pl). lia. }
    unfold whole. rewrite Hf, Hl, (final_is_size Hl). cbn [andb]. apply all_received_spec; [lia|]. intros m Hm.
    pose proof (insertion_place) as Hi. destruct (lo_end _ _ _ HL) as [_ He]. destruct (lo_size _ _ _ HL) as [Es _].
    rewrite (ho_bits _ _ H) by lia. apply covers_true.
    assert (0 <= m / per_fragment l < count l) as Hd by nia.
    destruct (part_piece (m / per_fragment l)) as (q & Hq & Pq); [now apply Hall|].
    exists q. split; [done|]. rewrite (pt_offset _ _ Pq), (pt_end _ _ Pq). unfold fragment_end. nia.
Qed.

(** The datagram as the source had it. *)
Lemma rebuilt_whole : whole e = true -> rebuilt e = take (Z.to_nat (packet_end l)) P.
Proof.
  intros Hw. pose proof (pa_holds _ _ _ A) as H. pose proof insertion_place as Hi. pose proof per_bounds as [_ Hp].
  pose proof count_bounds as [Hc1 Hc]. destruct (lo_end _ _ _ HL) as [Hsz He]. destruct (lo_size _ _ _ HL) as [Es _].
  destruct (rebuilt_layout e ps H Hw) as (L1 & L2 & L3 & _).
  destruct (whole_first e ps H Hw) as (q0 & Hq0 & E0 & Ef & Eh & _).
  destruct (piece_part q0 Hq0) as (k0 & _ & Hk0 & P0).
  assert (k0 = 0) as -> by (pose proof (pt_offset _ _ P0) as X; rewrite E0 in X; nia).
  assert (have_last e = true) as Hl by (unfold whole in Hw; now destruct (have_last e), (have_first e)).
  rewrite (final_is_size Hl) in *. rewrite Eh, (pt_header _ _ P0) in *. rewrite Ef, (pt_frame _ _ P0) in L2.
  assert (e_previous_next_header_offset e = previous_next_header_offset i /\ e_fragment_next_header e = fragment_next_header i)
    as [Epv Enx].
  { destruct (ho_header _ _ H q0 Hq0) as [_ ->]. split; [|apply (pt_next _ _ P0)].
    assert (exists q qs, ps = q :: qs) as (q & qs & E) by (destruct ps as [|q qs]; [inversion Hq0|now exists q, qs]).
    destruct (piece_part q) as (k & _ & _ & Pk); [rewrite E; constructor|].
    rewrite (ho_previous _ _ H q qs E). apply (pt_previous _ _ Pk). }
  rewrite Epv, Enx in L2. change fixed_payload_length_offset with 18 in L2. change first_extension_offset with 54 in L2.
  unfold ipv6_minimum_link_mtu in *. pose proof (lo_mtu _ _ _ HL) as Hmin. unfold ipv6_minimum_link_mtu in Hmin.
  destruct (index_bounds 0 ltac:(lia)) as [Ha _].
  apply get_ext; [rewrite L1, size_take; lia|]. rewrite L1. intros k Hk. rewrite get_take by lia.
  destruct (Z.ltb_spec k (offset i)) as [Hlt|Hge].
  - rewrite <- (get_take (rebuilt e) (offset i) k) by lia. rewrite L2.
    pose proof (size_fragment P mtu id _ l HP HL Ha) as Sf. fold (fragment_frame_at P l id 0) in Sf.
    rewrite get_write16 by (rewrite ?size_put, ?size_take; lia).
    destruct (lo_view _ _ _ HL) as (v & Hv & _ & Hpe). destruct (parse_start P v Hv) as (_ & _ & _ & H4 & _).
    replace (u16 (offset i - 54 + fragmentable_size l)) with (Packet.read16 P 18)
      by (unfold u16; rewrite Z.mod_small; lia).
    destruct (read16_octets P 18 HP) as [R1 R2].
    destruct (Z.eqb_spec k 18) as [->|N1]; [exact R1|]. destruct (Z.eqb_spec k (18 + 1)) as [->|N2]; [exact R2|].
    rewrite get_put by (rewrite ?size_take; lia). case_if; [subst k; now rewrite next_header_octet|].
    rewrite get_take by lia. unfold fragment_frame_at. rewrite (get_fragment_header P mtu id _ l HP HL Ha) by lia.
    now rewrite (proj2 (Z.eqb_neq _ _)) by lia.
  - replace k with (offset i + (k - offset i)) by lia. set (m := k - offset i). assert (0 <= m < fragmentable_size l) as Hm by lia.
    rewrite L3 by done. assert (0 <= m / per_fragment l < count l) as Hd by nia.
    destruct (part_piece (m / per_fragment l)) as (q & Hq & Pq); [now apply whole_all|].
    assert (p_offset q <= m < p_end q) as Hin by (rewrite (pt_offset _ _ Pq), (pt_end _ _ Pq); unfold fragment_end; nia).
    rewrite (ho_data _ _ H q m Hq Hin), (pt_data _ _ Pq). rewrite (pt_offset _ _ Pq), (pt_end _ _ Pq) in *.
    rewrite get_slice by lia. f_equal. lia.
Qed.
End Partial.
End Datagram.

End Ipv6RoundTrip.
