(* ===== verification/Ipv6Delivery.v ===== *)
(** * Delivering the fragments of a datagram

    A table that is given the fragments of a datagram, in any order and among
    other frames, completes the datagram with the last of them. *)

From stdpp Require Import sets.
From S2P Require Import Prelude Catalog Arena Packet Octets Ipv6Packet Ipv6Fragmentation Ipv6Fragments Ipv6Entry Ipv6Reassembly Ipv6RoundTrip.
Import Arena.

Module Ipv6Delivery.
Import Ipv6Packet.Ipv6 Octets.Octets Ipv6Fragmentation.Ipv6Fragmentation Ipv6Fragments.Ipv6Fragments Ipv6Entry.Ipv6Entry
  Ipv6Reassembly.Ipv6Reassembly Ipv6RoundTrip.Ipv6RoundTrip.

#[local] Existing Instances entry_settable Ipv6Fragmentation.Ipv6Fragmentation.t_settable.

(** The key of a fragment's datagram. *)
Definition key : Type := list Z * list Z * Z.
Definition frame_key (frame : list Z) : option key :=
  view ← parse_ipv6 frame;
  f ← fragment view;
  Some (source view, destination view, identification f).
Definition entry_key (e : Entry) : key := (e_source e, e_destination e, e_identification e).
Definition datagram_key (P : list Z) (id : Z) : key := (take 16 (drop 22 P), take 16 (drop 38 P), id).

(** Frames in their order of arrival, each with the answer it got. *)
Fixpoint deliver (s : t) (ds : list (list Z * Z)) : list (list Z * Ipv6ReassemblyResult) :=
  match ds with
  | [] => []
  | (frame, now) :: ds => (frame, (accept s frame now).1) :: deliver (accept s frame now).2 ds
  end.

Definition of_key (k : key) {A : Type} (x : list Z * A) : bool := bool_decide (frame_key x.1 = Some k).

(** The answers the frames of a datagram got. *)
Definition answers (k : key) (s : t) (ds : list (list Z * Z)) : list Ipv6ReassemblyResult :=
  snd <$> List.filter (of_key k) (deliver s ds).

(** The datagram is not in the table, and there is room for it. *)
Definition ready (k : key) (s : t) (now : Z) : Prop :=
  (forall e, e ∈ entries_ s -> occupied e = true -> now < expires e -> entry_key e <> k)
  /\ exists e, e ∈ entries_ s /\ (occupied e = false \/ expires e <= now).

Lemma genuine_key q : genuine q -> frame_key (p_frame q) = Some (source (p_view q), destination (p_view q), identification (p_fields q)).
Proof. intros G. unfold frame_key. rewrite (ge_view _ G). cbn [mbind option_bind]. rewrite (ge_fields _ G). reflexivity. Qed.

Lemma matches_key q e : genuine q -> matches (p_view q) e = true <-> occupied e = true /\ frame_key (p_frame q) = Some (entry_key e).
Proof.
  intros G. rewrite (genuine_key q G). unfold matches, entry_key. rewrite (ge_fields _ G), !andb_true_iff, !bool_decide_eq_true.
  split; [intros [[[-> ->] ->] E]; split; [done|]; now apply Z.eqb_eq in E as ->|].
  intros [-> [= -> -> ->]]. split_and!; auto. apply Z.eqb_refl.
Qed.

Lemma lookup_expire s now j : entries_ (expire s now) !! j
  = (fun e => if occupied e && (expires e <=? now) then clear e else e) <$> entries_ s !! j.
Proof. unfold expire. cbn [entries_ set_field]. apply list_lookup_fmap. Qed.

Lemma lookup_expire_live s now j e :
  entries_ s !! j = Some e -> now < expires e -> entries_ (expire s now) !! j = Some e.
Proof. intros He Hn. rewrite lookup_expire, He. cbn. rewrite (proj2 (Z.leb_gt _ _)), andb_false_r by lia. reflexivity. Qed.

(** A frame of another datagram leaves an entry in its slot. *)
Lemma accept_foreign s log frame now j e :
  wf s log -> Forall is_u8 frame -> size frame <= maximum_frame_octets ->
  entries_ s !! j = Some e -> occupied e = true -> now < expires e -> frame_key frame <> Some (entry_key e) ->
  entries_ (accept s frame now).2 !! j = Some e.
Proof.
  intros W Hb Hs He Ho Hn Hk. pose proof (wf_expire _ _ now W) as We. pose proof (lookup_expire_live _ _ _ _ He Hn) as Hl.
  destruct (accept_aside s frame now (wf_completed _ _ W) Hb Hs) as [(q & G & <-)|(_ & _ & -> & _)]; [|done].
  rewrite accept_piece by done.
  destruct (target (expire s now) (p_view q) (p_fields q) now) as [[i|] s'] eqn:Et; cbn beta iota.
  - destruct (target_spec _ _ _ _ _ _ We G Et) as (x & ps & T). rewrite (tg_slot _ _ _ _ _ _ _ T).
    destruct (settle_spec _ _ _ _ _ _ _ We G T) as (e' & _ & _ & Hoth & _). rewrite Hoth; [done|]. intros ->.
    destruct (tg_old _ _ _ _ _ _ _ T) as [Hx|(y & Hy & Hf)]; [|congruence].
    rewrite Hl in Hx. injection Hx as <-. apply Hk. now apply (matches_key q e G), (tg_match _ _ _ _ _ _ _ T).
  - revert Et. unfold target. destruct (find _ _); [discriminate|]. rewrite allocate_fresh.
    destruct (first_slot _ _); [discriminate|]. now intros [= <-].
Qed.

(** A frame of the entry's datagram is settled in its slot. *)
Lemma accept_own s log q now j e ps :
  wf s log -> genuine q -> entries_ s !! j = Some e -> now < expires e -> matches (p_view q) e = true ->
  holds e ps -> logged log ps ->
  exists e', settled e q (accept s (p_frame q) now).1 e' /\ entries_ (accept s (p_frame q) now).2 !! j = Some e'.
Proof.
  intros W G He Hn Hm Hh Hl. pose proof (wf_expire _ _ now W) as We. pose proof (lookup_expire_live _ _ _ _ He Hn) as He'.
  destruct (target_at _ _ q now j e ps We G He' Hh Hl Hm) as [Et T]. rewrite accept_piece, Et, He' by done.
  destruct (settle_spec _ _ _ _ _ _ _ We G T) as (e' & H1 & H2 & _). eauto.
Qed.

(** The first frame of a datagram finds a slot. *)
Lemma accept_first s log q now k :
  wf s log -> genuine q -> ready k s now -> frame_key (p_frame q) = Some k ->
  exists j x e', let e := fresh (p_view q) (p_fields q) now x in
    holds e [] /\ settled e q (accept s (p_frame q) now).1 e' /\ entries_ (accept s (p_frame q) now).2 !! j = Some e'.
Proof.
  intros W G [Hnew (x0 & Hx0 & Hfree)] Hk. pose proof (wf_expire _ _ now W) as We.
  assert (find (expire s now) (p_view q) = None) as Ef.
  { unfold find. destruct (first_slot _ _) as [i|] eqn:E; [|done]. exfalso. apply first_slot_some in E as (y & Hy & Hm).
    apply (matches_key q y G) in Hm as [Ho Ek]. rewrite lookup_expire in Hy.
    destruct (entries_ s !! i) as [y0|] eqn:Ey; [|discriminate]. cbn in Hy. injection Hy as <-. revert Ho Ek.
    destruct (occupied y0 && (expires y0 <=? now)) eqn:Ex; [discriminate|]. intros Ho Ek. rewrite Ho in Ex. cbn [andb] in Ex.
    apply (Hnew y0); [eapply list_elem_of_lookup_2; exact Ey|done|lia|congruence]. }
  destruct (first_slot (fun e => negb (occupied e)) (entries_ (expire s now))) as [j|] eqn:Ea.
  - pose proof Ea as (x & Hx & _)%first_slot_some.
    destruct (target_fresh _ _ q now j x We G Ef Ea Hx) as (s' & Et & T). exists j, x.
    rewrite accept_piece, Et, (tg_slot _ _ _ _ _ _ _ T) by done.
    destruct (settle_spec _ _ _ _ _ _ _ We G T) as (e' & H1 & H2 & _). exists e'. split_and!; auto. apply T.
  - exfalso. apply list_elem_of_lookup in Hx0 as (i & Hi).
    assert (exists y, entries_ (expire s now) !! i = Some y /\ occupied y = false) as (y & Hy & Ho).
    { rewrite lookup_expire, Hi. cbn. eexists. split; [reflexivity|].
      destruct (occupied x0 && (expires x0 <=? now)) eqn:Ex; [reflexivity|]. destruct Hfree as [|Hle]; [done|].
      destruct (occupied x0); [|done]. cbn in Ex. lia. }
    pose proof (first_slot_none _ _ Ea i y Hy) as Hz. cbv beta in Hz. now rewrite Ho in Hz.
Qed.

(** The frame and the time of a delivery are those a network can have. *)
Definition deliverable (deadline : Z) (d : list Z * Z) : Prop :=
  Forall is_u8 d.1 /\ size d.1 <= maximum_frame_octets /\ d.2 < deadline.

Lemma answers_none k ds : forall s, List.filter (of_key k) ds = [] -> answers k s ds = [].
Proof.
  induction ds as [|[frame now] ds IH]; intros s H; [reflexivity|]. unfold answers in *. cbn [deliver List.filter] in *.
  unfold of_key at 1 in H. unfold of_key at 1. cbn [fst] in *. case_bool_decide; [discriminate|]. now apply IH.
Qed.

Section Delivery.
Context (P : list Z) (mtu id : Z) (l : FragmentLayout).
Context (HP : Forall is_u8 P) (HL : laid_out P mtu l) (Hmtu : mtu + 14 <= maximum_frame_octets) (Hid : is_u32 id).

Abbreviation F := (fragment_frame_at P l id).
Abbreviation whole_datagram := (take (Z.to_nat (packet_end l)) P).

(** The table with the fragments of [ks] in a slot. *)
Record progress (ks : list Z) (deadline : Z) (s : t) (log : list (list Z)) (j : nat) (e : Entry) (ps : list Piece) : Prop :=
  mkProgress {
    pr_wf : wf s log;
    pr_slot : entries_ s !! j = Some e;
    pr_partial : partial P id l ks e ps;
    pr_logged : logged log ps;
    pr_expires : expires e = deadline;
    pr_key : entry_key e = datagram_key P id
  }.

Lemma own_part k : 0 <= k < count l -> frame_key (F k) = Some (datagram_key P id) -> exists q, part P id l k q.
Proof.
  intros Hk Hf. apply (fragment_part P mtu id l HP HL Hmtu Hid k Hk). right. unfold frame_key in Hf.
  intros E. rewrite E in Hf. discriminate.
Qed.

Lemma part_logged ps log k q : part P id l k q -> logged log ps -> logged (F k :: log) (q :: ps).
Proof.
  intros Hq Hl q' [->|Hq']%elem_of_cons; [rewrite (pt_frame _ _ _ _ _ Hq); constructor|]. constructor. now apply Hl.
Qed.

Lemma accept_part ks deadline s log j e ps k now :
  progress ks deadline s log j e ps -> 0 <= k < count l -> k ∉ ks -> now < deadline ->
  frame_key (F k) = Some (datagram_key P id) ->
  ((forall i, 0 <= i < count l -> i ∈ k :: ks) /\ (accept s (F k) now).1 = mkResult complete whole_datagram)
  \/ (~ (forall i, 0 <= i < count l -> i ∈ k :: ks)) /\ (accept s (F k) now).1 = answer incomplete
     /\ exists e' ps', progress (k :: ks) deadline (accept s (F k) now).2 (F k :: log) j e' ps'.
Proof.
  intros [W Hs Hp Hl Hx Hkey] Hk Hn Hnow Hf. destruct (own_part k Hk Hf) as (q & Hq).
  pose proof (pt_genuine _ _ _ _ _ Hq) as G. pose proof (pt_frame _ _ _ _ _ Hq) as Eq.
  assert (matches (p_view q) e = true) as Hm
    by (apply (matches_key q e G); split; [apply Hp|congruence]).
  pose proof (next_admitted P mtu id l HP HL ks e ps Hp k q Hq Hk Hn) as Hr.
  pose proof (taken_partial P mtu id l HP HL ks e ps Hp k q Hq Hk Hn Hm) as Ht.
  destruct (accept_own s log q now j e ps W G Hs ltac:(lia) Hm (pa_holds _ _ _ _ _ _ Hp) Hl) as (e' & Hset & Hj).
  rewrite Eq in Hset, Hj. pose proof (whole_all P mtu id l HP HL _ _ _ Ht) as Hw.
  assert (Forall is_u8 (F k) /\ size (F k) <= maximum_frame_octets) as [Hb Hsz]
    by (rewrite <- Eq; split; apply G).
  pose proof (accept_wf s log (F k) now W Hb Hsz) as W'.
  remember (accept s (F k) now).1 as r eqn:Er. destruct Hset as [v x' Hv _ _|_ Hwt|_ Hwf]; [congruence|left|right].
  - split; [now apply Hw|]. f_equal. now apply (rebuilt_whole P mtu id l HP HL Hmtu _ _ _ Ht).
  - split_and!; [intros Hall; apply Hw in Hall; congruence|done|]. exists (taken e q), (q :: ps).
    constructor; auto. now apply part_logged.
Qed.

(** The answers to the fragments that are still to come. *)
Lemma deliver_rest deadline j ds : forall ks ks' s log e ps,
  progress ks deadline s log j e ps -> ks ++ ks' ≡ₚ seqZ 0 (count l) -> ks' <> [] ->
  Forall (deliverable deadline) ds -> fst <$> List.filter (of_key (datagram_key P id)) ds = F <$> ks' ->
  answers (datagram_key P id) s ds = replicate (length ks' - 1) (answer incomplete) ++ [mkResult complete whole_datagram].
Proof.
  induction ds as [|[frame now] ds IH]; intros ks ks' s log e ps Hp Hks Hne Hds Hf.
  { destruct ks'; [done|discriminate]. }
  apply list.Forall_cons in Hds as [(Hb & Hsz & Hnow) Hds]. cbn [fst snd] in Hb, Hsz, Hnow.
  unfold answers. cbn [deliver List.filter] in *. unfold of_key at 1 in Hf. unfold of_key at 1. cbn [fst] in *.
  case_bool_decide as Hk.
  - destruct ks' as [|k ks']; [discriminate|]. cbn [fmap list_fmap] in Hf. injection Hf as -> Hf.
    assert (forall i, i ∈ ks ++ k :: ks' <-> 0 <= i < count l) as Hin by (intros i; rewrite Hks, elem_of_seqZ; lia).
    assert (NoDup (ks ++ k :: ks')) as Hnd by (rewrite Hks; apply NoDup_seqZ).
    apply list.NoDup_app in Hnd as (_ & Hd & Hnd). apply list.NoDup_cons in Hnd as [Hkn Hnd].
    assert (k ∉ ks) as Hkks by (intros Hx; apply (Hd k Hx); constructor).
    assert (0 <= k < count l) as Hkb by (apply Hin; set_solver).
    destruct (accept_part _ _ _ _ _ _ _ k now Hp Hkb Hkks Hnow Hk) as [[Hall Hr]|(Hall & Hr & e' & ps' & Hp')].
    + assert (ks' = []) as ->.
      { destruct ks' as [|k' ks']; [done|]. exfalso. assert (k' ∈ k :: ks) as Hx by (apply Hall, Hin; set_solver).
        apply elem_of_cons in Hx as [->|Hx]; [apply Hkn; constructor|]. apply (Hd k' Hx). set_solver. }
      cbn [fmap list_fmap snd length]. rewrite Hr. change (replicate (1 - 1) (answer incomplete)) with (@nil Ipv6ReassemblyResult).
      cbn [app]. f_equal. apply answers_none. now destruct (List.filter _ ds).
    + assert (ks' <> []) as Hne'.
      { intros ->. apply Hall. intros i Hi. apply Hin in Hi. set_solver. }
      cbn [fmap list_fmap snd]. rewrite Hr.
      fold (answers (datagram_key P id) (accept s (F k) now).2 ds). rewrite (IH (k :: ks) ks' _ _ _ _ Hp' ltac:(rewrite <- Hks; apply Permutation_middle) Hne' Hds Hf).
      destruct ks' as [|k' ks']; [done|]. cbn [length]. now replace (S (S (length ks')) - 1)%nat with (S (S (length ks') - 1)) by lia.
  - destruct Hp as [W Hs Hpa Hl Hx Hkey]. apply (IH ks ks' _ (frame :: log) e ps); auto. constructor; auto.
    + now apply accept_wf.
    + apply (accept_foreign s log); auto; [apply Hpa|lia|congruence].
    + intros q Hq. constructor. now apply Hl.
Qed.

(** The first of them opens an entry. *)
Lemma accept_first_part s log k now :
  wf s log -> ready (datagram_key P id) s now -> 0 <= k < count l -> frame_key (F k) = Some (datagram_key P id) ->
  (accept s (F k) now).1 = answer incomplete
  /\ exists j e ps, progress [k] (now + Catalog.ipv6_reassembly_timeout) (accept s (F k) now).2 (F k :: log) j e ps.
Proof.
  intros W Hr Hk Hf. destruct (own_part k Hk Hf) as (q & Hq).
  pose proof (pt_genuine _ _ _ _ _ Hq) as G. pose proof (pt_frame _ _ _ _ _ Hq) as Eq.
  destruct (accept_first s log q now _ W G Hr ltac:(now rewrite Eq)) as (j & x & e' & Hh & Hset & Hj). rewrite Eq in Hset, Hj.
  set (e := fresh (p_view q) (p_fields q) now x) in *.
  assert (partial P id l [] e []) as Hp by (constructor; [exact Hh|constructor|intros i Hi; inversion Hi]).
  assert (entry_key e = datagram_key P id) as Ek.
  { rewrite <- Eq in Hf. rewrite (genuine_key q G) in Hf. injection Hf as E1 E2 E3. unfold entry_key, datagram_key. now rewrite <- E1, <- E2, <- E3. }
  assert (k ∉ []) as Hn by (intros Hi; inversion Hi).
  assert (matches (p_view q) e = true) as Hm by (apply (matches_key q e G); split; [reflexivity|congruence]).
  pose proof (next_admitted P mtu id l HP HL [] e [] Hp k q Hq Hk Hn) as Hrf.
  pose proof (taken_partial P mtu id l HP HL [] e [] Hp k q Hq Hk Hn Hm) as Ht.
  pose proof (whole_all P mtu id l HP HL _ _ _ Ht) as Hw. pose proof (count_bounds P mtu l HP HL) as [Hc _].
  assert (Forall is_u8 (F k) /\ size (F k) <= maximum_frame_octets) as [Hb Hsz] by (rewrite <- Eq; split; apply G).
  pose proof (accept_wf s log (F k) now W Hb Hsz) as W'.
  remember (accept s (F k) now).1 as r eqn:Er. destruct Hset as [v x' Hv _ _|_ Hwt|_ Hwf]; [congruence| |].
  - exfalso. rewrite Hw in Hwt. pose proof (Hwt 0 ltac:(lia)) as H0. pose proof (Hwt 1 ltac:(lia)) as H1.
    apply list_elem_of_singleton in H0, H1. lia.
  - split; [done|]. exists j, (taken e q), [q]. constructor; auto. apply (part_logged []); [done|]. intros y Hy. inversion Hy.
Qed.

Lemma batch_loop fuel : forall k counted batch n batch',
  0 <= k <= count l ->
  fragment_loop append_to_batch fuel P l id (k * per_fragment l) counted batch = (Some n, batch') ->
  batch' = batch ++ (F <$> seqZ k (count l - k)).
Proof.
  pose proof (count_bounds P mtu l HP HL) as [_ Hc]. pose proof (per_bounds P mtu l HP HL) as [_ Hper].
  induction fuel as [|fuel IH]; intros k counted batch n batch' Hk; cbn [fragment_loop].
  - destruct (Z.ltb_spec (k * per_fragment l) (fragmentable_size l)); [discriminate|]. intros [= _ <-].
    rewrite seqZ_nil by nia. now rewrite app_nil_r.
  - destruct (Z.ltb_spec (k * per_fragment l) (fragmentable_size l)).
    + unfold append_to_batch at 1. destruct (maximum_fragment_count <=? size batch); cbn [negb]; [discriminate|].
      replace (k * per_fragment l + per_fragment l) with ((k + 1) * per_fragment l) by lia.
      intros ->%IH; [|nia]. rewrite (seqZ_cons k) by nia. cbn [fmap list_fmap]. rewrite <- app_assoc. cbn [app].
      replace (Z.succ k) with (k + 1) by lia. now replace (Z.pred (count l - k)) with (count l - (k + 1)) by lia.
    + intros [= _ <-]. rewrite seqZ_nil by nia. now rewrite app_nil_r.
Qed.

(** More fuel does not change the loop of the encoder, whatever the sink. *)
Lemma fragment_loop_enough {S : Type} (sink : S -> list Z -> bool * S) fuel n : forall k counted context,
  0 <= k -> count l - k <= Z.of_nat fuel ->
  fragment_loop sink (fuel + n) P l id (k * per_fragment l) counted context
  = fragment_loop sink fuel P l id (k * per_fragment l) counted context.
Proof.
  pose proof (count_bounds P mtu l HP HL) as [_ Hc]. pose proof (per_bounds P mtu l HP HL) as [_ Hper].
  induction fuel as [|fuel IH]; intros k counted context Hk Hf.
  - destruct n; [done|]. cbn [Nat.add fragment_loop]. now rewrite (proj2 (Z.ltb_ge _ _)) by nia.
  - cbn [Nat.add fragment_loop]. case_if; [|done]. destruct (sink context _) as [admitted context']. case_if; [done|].
    replace (k * per_fragment l + per_fragment l) with ((k + 1) * per_fragment l) by lia. apply IH; lia.
Qed.

End Delivery.

(** What the source's batch holds. *)
Lemma fragment_ipv6_spec P mtu id fs :
  Forall is_u8 P -> fragment_ipv6 P mtu id = Some fs -> exists l, laid_out P mtu l /\ fs = fragments P l id.
Proof.
  intros HP. unfold fragment_ipv6, fragment_ipv6_datagram. destruct (fragment_layout P mtu) as [l|] eqn:El; [|discriminate].
  apply (layout_laid_out P mtu l HP) in El as HL.
  destruct (fragment_loop _ _ _ _ _ _ _ _) as [[n|] batch] eqn:Ef; [|discriminate]. case_if; [|discriminate]. intros [= <-].
  exists l. split; [done|]. pose proof (count_bounds P mtu l HP HL) as [Hc _].
  apply (batch_loop P mtu id l HP HL _ 0) in Ef as ->; [|lia]. unfold fragments. now rewrite Z.sub_0_r.
Qed.

(** The datagram without what pads the frame. *)
Definition datagram (P : list Z) : list Z :=
  take (Z.to_nat (first_extension_offset + Packet.read16 P fixed_payload_length_offset)) P.

(** C6: The fragments a source makes of a datagram give it back: a table that has
    room for the datagram and is given its fragments in any order, mixed with
    any frames of other datagrams and before the entry expires, answers each but
    the last as incomplete and the last with exactly the datagram. *)
Theorem fragments_reassemble P mtu id fs s log first t0 ds :
  Forall is_u8 P -> is_u32 id -> mtu + 14 <= maximum_frame_octets -> fragment_ipv6 P mtu id = Some fs ->
  Run s log -> ready (datagram_key P id) s t0 ->
  Forall (deliverable (t0 + Catalog.ipv6_reassembly_timeout)) ((first, t0) :: ds) ->
  frame_key first = Some (datagram_key P id) ->
  fst <$> List.filter (of_key (datagram_key P id)) ((first, t0) :: ds) ≡ₚ fs ->
  answers (datagram_key P id) s ((first, t0) :: ds)
  = replicate (length fs - 1) (answer incomplete) ++ [mkResult complete (datagram P)].
Proof.
  intros HP Hid Hmtu Hfs R Hr Hds Hf Hperm. destruct (fragment_ipv6_spec P mtu id fs HP Hfs) as (l & HL & ->).
  pose proof (count_bounds P mtu l HP HL) as [Hc _]. pose proof (run_wf s log R) as W.
  apply Permutation_map_inv in Hperm as (ks & Eks & Hks). cbn [List.filter] in Eks. unfold of_key at 1 in Eks.
  cbn [fst] in Eks. rewrite bool_decide_eq_true_2 in Eks by done. destruct ks as [|k ks]; [discriminate|].
  cbn [fmap list_fmap map] in Eks. injection Eks as -> Eks.
  assert (0 <= k < count l) as Hk by (cut (k ∈ seqZ 0 (count l)); [rewrite elem_of_seqZ; lia|rewrite Hks; constructor]).
  destruct (accept_first_part P mtu id l HP HL Hmtu Hid s log k t0 W Hr Hk Hf) as (Ha & j & e & ps & Hp).
  assert (length (fragments P l id) = S (length ks)) as ->
    by (unfold fragments; rewrite length_fmap, (Permutation_length Hks); reflexivity).
  assert (ks <> []) as Hne.
  { intros ->. apply Permutation_length in Hks. rewrite length_seqZ in Hks. cbn in Hks. lia. }
  unfold answers. cbn [deliver List.filter]. unfold of_key at 1. cbn [fst]. rewrite bool_decide_eq_true_2 by done.
  cbn [fmap list_fmap snd]. rewrite Ha. fold (answers (datagram_key P id) (accept s (fragment_frame_at P l id k) t0).2 ds).
  apply list.Forall_cons in Hds as [_ Hds].
  rewrite (deliver_rest P mtu id l HP HL Hmtu Hid (t0 + Catalog.ipv6_reassembly_timeout) j ds [k] ks _ _ _ _ Hp (Permutation_sym Hks)); auto.
  destruct (lo_view _ _ _ HL) as (v & Hv & _ & Hpe). destruct (parse_start P v Hv) as (_ & _ & _ & H4 & _).
  unfold datagram. change first_extension_offset with 54. change fixed_payload_length_offset with 18.
  rewrite <- H4, <- Hpe. destruct ks as [|k' ks]; [done|]. cbn [length]. now rewrite !Nat.sub_succ, !Nat.sub_0_r.
Qed.

(** C8: A fragment that covers an octet the table already has of its datagram ends
    the datagram: the answer says so, the entry is released with all it held, no
    other entry changes, and the table is ready for the datagram again. *)
Theorem overlap_releases s log q now j e k :
  Run s log -> genuine q -> entries_ s !! j = Some e -> occupied e = true -> now < expires e ->
  frame_key (p_frame q) = Some (entry_key e) -> foreign_header e q = false ->
  p_offset q <= k < p_end q -> received e !!! Z.to_nat k = true ->
  (accept s (p_frame q) now).1 = answer overlap
  /\ entries_ (accept s (p_frame q) now).2 !! j = Some (clear e)
  /\ (forall i, i <> j -> entries_ (accept s (p_frame q) now).2 !! i = entries_ (expire s now) !! i)
  /\ ready (entry_key e) (accept s (p_frame q) now).2 now.
Proof.
  intros R G He Ho Hn Hk Hf Hkb Hr. pose proof (run_wf s log R) as W. pose proof (wf_expire _ _ now W) as We.
  pose proof (lookup_expire_live _ _ _ _ He Hn) as He'. destruct (wf_entries _ _ We j e He') as [_ Hh].
  destruct (Hh Ho) as (ps & H & _ & Hl). assert (matches (p_view q) e = true) as Hm by now apply (matches_key q e G).
  destruct (target_at _ _ q now j e ps We G He' H Hl Hm) as [Et T]. rewrite accept_piece, Et, He' by done.
  assert (collides e q = true) as Hc.
  { unfold collides. apply orb_true_iff. right. pose proof (genuine_bounds q G) as (_ & _ & _ & _ & _ & B & _).
    apply any_received_spec; [lia|]. exists k. split; [unfold p_end, p_offset in *; lia|done]. }
  unfold settle. rewrite place_cases, Hf, Hc. cbn [fst snd].
  assert (forall i, entries_ (update (expire s now) j (clear e)) !! i
    = if decide (i = j) then Some (clear e) else entries_ (expire s now) !! i) as Hlk.
  { intros i. rewrite lookup_update. case_decide; [|done]. rewrite decide_True; [done|]. now apply lookup_lt_Some in He'. }
  split_and!; [done|now rewrite Hlk, decide_True|intros i Hi; now rewrite Hlk, decide_False|]. split.
  - intros x (i & Hx)%list_elem_of_lookup Hox _ Ekey. rewrite Hlk in Hx. case_decide; [injection Hx as <-; discriminate|].
    apply (tg_unique _ _ _ _ _ _ _ T i x); auto. unfold entry_key in Ekey. injection Ekey as E1 E2 E3. now split_and!.
  - exists (clear e). split; [|now left]. apply list_elem_of_lookup_2 with j. now rewrite Hlk, decide_True.
Qed.

Lemma construct_ready k now : ready k construct now.
Proof.
  unfold construct, ready. cbn [entries_].
  set (e := mkEntry _ _ _ _ _ _ _ _ _ _ _ _ _ _ _). assert (occupied e = false) as Ho by reflexivity. clearbody e.
  change (Z.to_nat Catalog.ipv6_reassembly_entries_per_endpoint) with 4%nat. split.
  - intros x (_ & ->)%elem_of_replicate_inv || (intros x Hx; apply elem_of_replicate in Hx as [-> _]). congruence.
  - exists e. split; [constructor|now left].
Qed.

(** ** A datagram of two fragments *)

Module Sample.

Definition payload : Z := 1300.
Definition P : list Z :=
  replicate 12 2 ++ [134; 221; 96; 0; 0; 0] ++ be16 payload ++ [17; 64] ++ replicate 16 1 ++ replicate 16 3
  ++ replicate (Z.to_nat payload) 7.
Definition l : FragmentLayout := mkLayout (mkInsertion 54 20 17) 1354 40 1232 1300 2.
Definition F (k : Z) : list Z := fragment_frame_at P l 9 k.

Lemma octets : Forall is_u8 P.
Proof.
  unfold P. repeat apply Forall_app_2; try (apply list.Forall_replicate; unfold is_u8; lia).
  - repeat constructor; unfold is_u8; lia.
  - apply octets_be16.
  - repeat constructor; unfold is_u8; lia.
Qed.

Lemma layout : fragment_layout P 1280 = Some l.
Proof. vm_compute. reflexivity. Qed.

Lemma laid : laid_out P 1280 l.
Proof. exact (layout_laid_out P 1280 l octets layout). Qed.

Lemma batch : fragment_ipv6 P 1280 9 = Some [F 0; F 1].
Proof. vm_compute. reflexivity. Qed.

Lemma keys k : 0 <= k < 2 -> frame_key (F k) = Some (datagram_key P 9).
Proof. intros Hk. assert (k = 0 \/ k = 1) as [-> | ->] by lia; vm_compute; reflexivity. Qed.

Lemma delivers k now deadline : 0 <= k < 2 -> now < deadline -> deliverable deadline (F k, now).
Proof.
  intros Hk Hn. assert (1280 + 14 <= maximum_frame_octets) as Hm by (unfold maximum_frame_octets; lia).
  split_and!; [exact (fragment_octets P 1280 9 l octets laid k Hk)|exact (fragment_size P 1280 9 l octets laid Hm k Hk)|done].
Qed.

Lemma mtu_fits : 1280 + 14 <= maximum_frame_octets.
Proof. unfold maximum_frame_octets. lia. Qed.

Lemma id_word : is_u32 9.
Proof. unfold is_u32. lia. Qed.

(** The table after the second fragment. *)
Definition after : t := (accept construct (F 1) 0).2.

Lemma after_run : Run after [F 1].
Proof.
  destruct (delivers 1 0 1 ltac:(lia) ltac:(lia)) as (H1 & H2 & _). exact (run_accept construct [] (F 1) 0 run_construct H1 H2).
Qed.

Lemma after_progress : exists j e ps, progress P 9 l [1] Catalog.ipv6_reassembly_timeout after [F 1] j e ps.
Proof.
  destruct (accept_first_part P 1280 9 l octets laid mtu_fits id_word construct [] 1 0 construct_wf (construct_ready _ _)
    ltac:(cbn; lia) (keys 1 ltac:(lia))) as (_ & j & e & ps & H). eauto.
Qed.

End Sample.

(** The first fragment after the second completes a composed datagram. *)
Lemma reassembly_sound_witness :
  exists ps, logged [Sample.F 0; Sample.F 1] ps /\ composed (packet (accept Sample.after (Sample.F 0) 1).1) ps
    /\ exists q, q ∈ ps /\ p_frame q = Sample.F 0.
Proof.
  destruct (Sample.delivers 0 1 2 ltac:(lia) ltac:(lia)) as (H1 & H2 & _).
  apply (reassembly_sound Sample.after [Sample.F 1] (Sample.F 0) 1 Sample.after_run H1 H2).
  destruct Sample.after_progress as (j & e & ps & Hp).
  destruct (accept_part Sample.P 1280 9 Sample.l Sample.octets Sample.laid Sample.mtu_fits Sample.id_word [1] _ _ _ _ _ _ 0 1 Hp)
    as [[_ E]|[Hn _]].
  - cbn. lia.
  - rewrite list_elem_of_singleton. lia.
  - unfold Catalog.ipv6_reassembly_timeout, Catalog.seconds. lia.
  - apply Sample.keys. lia.
  - exact (f_equal status E).
  - exfalso. apply Hn. intros i Hi. change (count Sample.l) with 2 in Hi. assert (i = 0 \/ i = 1) as [-> | ->] by lia; set_solver.
Defined.

(** Out of order, with a stray frame in between. *)
Lemma fragments_reassemble_witness :
  answers (datagram_key Sample.P 9) construct [(Sample.F 1, 0); ([1; 2; 3], 5); (Sample.F 0, 7)]
  = [answer incomplete; mkResult complete (datagram Sample.P)].
Proof.
  apply (fragments_reassemble Sample.P 1280 9 [Sample.F 0; Sample.F 1] construct [] (Sample.F 1) 0
    [([1; 2; 3], 5); (Sample.F 0, 7)] Sample.octets Sample.id_word Sample.mtu_fits Sample.batch run_construct (construct_ready _ _)).
  - change (0 + Catalog.ipv6_reassembly_timeout) with 60000000000.
    apply list.Forall_cons; split; [apply Sample.delivers; lia|]. apply list.Forall_cons; split.
    { split_and!; [|discriminate|reflexivity]. repeat (apply list.Forall_cons; split; [unfold is_u8; lia|]). apply list.Forall_nil. exact I. }
    apply list.Forall_cons; split; [apply Sample.delivers; lia|]. apply list.Forall_nil. exact I.
  - apply Sample.keys. lia.
  - assert (List.filter (of_key (A := Z) (datagram_key Sample.P 9)) [(Sample.F 1, 0); ([1; 2; 3], 5); (Sample.F 0, 7)]
      = [(Sample.F 1, 0); (Sample.F 0, 7)]) as ->.
    { cbn [List.filter]. unfold of_key. cbn [fst]. rewrite !Sample.keys by lia. rewrite !bool_decide_eq_true_2 by reflexivity.
      reflexivity. }
    apply Permutation_swap.
Defined.

(** The second fragment again. *)
Lemma overlap_releases_witness : (accept Sample.after (Sample.F 1) 1).1 = answer overlap.
Proof.
  destruct Sample.after_progress as (j & e & ps & [_ Hs Hp _ Hx Hk]).
  destruct (part_piece _ _ _ _ _ _ Hp 1 ltac:(constructor)) as (q & Hq & Pq).
  rewrite <- (pt_frame _ _ _ _ _ Pq : p_frame q = Sample.F 1).
  pose proof (genuine_bounds q (pt_genuine _ _ _ _ _ Pq)) as (B1 & _ & _ & _ & _ & B & B7 & _).
  apply (overlap_releases Sample.after [Sample.F 1] q 1 j e (p_offset q) Sample.after_run (pt_genuine _ _ _ _ _ Pq) Hs).
  - apply Hp.
  - rewrite Hx. unfold Catalog.ipv6_reassembly_timeout, Catalog.seconds. lia.
  - rewrite Hk, (pt_frame _ _ _ _ _ Pq). apply (Sample.keys 1). lia.
  - unfold foreign_header. destruct (ho_header _ _ (pa_holds _ _ _ _ _ _ Hp) q Hq) as [-> ->]. rewrite !Z.eqb_refl. apply andb_false_r.
  - lia.
  - rewrite (ho_bits _ _ (pa_holds _ _ _ _ _ _ Hp)) by lia. apply covers_true. exists q. split; [done|lia].
Defined.

End Ipv6Delivery.
