(* ===== verification/OspfLsa.v ===== *)
(** * OSPF database packets (core/src/ospf/ospf_packet.cpp)

    Headers of link state advertisements, and the bodies of the packets that carry
    them: Database Descriptions, requests, updates and acknowledgments.  An encoder
    returns the prefix it writes of the caller's output, given by its size. *)

From S2P Require Import Prelude Arena Packet Octets OspfHello.
Import Arena.

Module OspfLsa.
Import OspfHello.OspfHello Octets.Octets.

Definition lsa_header_octets : Z := 20.
Definition dd_ipv6_mtu_separate : Z := 8.
Definition dd_init : Z := 4.
Definition dd_more : Z := 2.
Definition dd_master : Z := 1.

Record LsaHeaderView := mkHeader {
  link_state_id : Z;
  advertising_router : Z;
  sequence_number : Z;
  age_seconds : Z;
  lsa_type : Z;
  checksum : Z;
  length_ : Z;
  lsa_options : Z;
  lsa_version : Z
}.
#[export] Instance LsaHeaderView_eq_dec : EqDecision LsaHeaderView.
Proof. solve_decision. Defined.

Record DatabaseDescriptionView := mkDescription {
  lsa_headers : list Z;
  dd_options : Z;
  dd_sequence_number : Z;
  dd_interface_mtu : Z;
  init : bool;
  more : bool;
  master : bool;
  ipv6_mtu_separate : bool;
  dd_version : Z
}.

Record LinkStateRequestEntry := mkEntry {
  r_link_state_type : Z;
  r_link_state_id : Z;
  r_advertising_router : Z
}.
#[export] Instance LinkStateRequestEntry_eq_dec : EqDecision LinkStateRequestEntry.
Proof. solve_decision. Defined.

Record LinkStateRequestView := mkRequest { entries : list Z; r_version : Z }.
Record LinkStateUpdateView := mkUpdate { lsas : list Z; advertisement_count : Z; u_version : Z }.
Record LinkStateAcknowledgmentView := mkAcknowledgment { a_lsa_headers : list Z; a_version : Z }.

Definition known_version (version : Z) : bool := (version =? version_two) || (version =? version_three).

(** [static_cast<std::int32_t>] of a 32-bit word. *)
Definition s32 (z : Z) : Z := if z <? two31 then z else z - two32.

Definition lsa_header (bytes : list Z) (version : Z) : option LsaHeaderView :=
  if negb (known_version version) || (size bytes <? lsa_header_octets) then None
  else
    let length := read16 bytes 18 in
    if length <? lsa_header_octets then None
    else
      let header type options :=
        mkHeader (read32 bytes 4) (read32 bytes 8) (s32 (read32 bytes 12)) (read16 bytes 0) type (read16 bytes 16)
          length options version in
      if version =? version_two then
        if get bytes 3 =? 0 then None else Some (header (get bytes 3) (get bytes 2))
      else
        if Z.land (read16 bytes 2) 8191 =? 0 then None else Some (header (read16 bytes 2) 0).

(** The header as it is written into a Database Description or an acknowledgment
    (ospf_process_internal.hpp). *)
Definition write_lsa_header (output : list Z) (header : LsaHeaderView) (version : Z) : list Z :=
  let output := write16 output 0 (age_seconds header) in
  let output :=
    if version =? version_two then put (put output 2 (u8 (lsa_options header))) 3 (u8 (lsa_type header))
    else write16 output 2 (lsa_type header) in
  let output := write32 output 4 (link_state_id header) in
  let output := write32 output 8 (advertising_router header) in
  let output := write32 output 12 (u32 (sequence_number header)) in
  let output := write16 output 16 (checksum header) in
  write16 output 18 (length_ header).

(** The headers one after the other; [headers] is a multiple of their size. *)
Fixpoint header_sequence (fuel : nat) (headers : list Z) (version offset : Z) : bool :=
  if offset <? size headers then
    match fuel with
    | O => false
    | S fuel =>
        match lsa_header (slice headers offset lsa_header_octets) version with
        | Some header => negb (length_ header <? lsa_header_octets) && header_sequence fuel headers version (offset + lsa_header_octets)
        | None => false
        end
    end
  else true.

Definition valid_lsa_header_sequence (headers : list Z) (version : Z) : bool :=
  (size headers mod lsa_header_octets =? 0) && header_sequence (length headers) headers version 0.

(** ** Encoders *)

Definition dd_flags (init more master ipv6_mtu_separate : bool) : Z :=
  u8 (Z.lor (Z.lor (Z.lor (if init then dd_init else 0) (if more then dd_more else 0)) (if master then dd_master else 0))
            (if ipv6_mtu_separate then dd_ipv6_mtu_separate else 0)).

Definition encode_database_description_payload (output_size version interface_mtu options sequence_number : Z)
    (init more master : bool) (lsa_headers : list Z) (ipv6_mtu_separate : bool) : option (list Z) :=
  let fixed := if version =? version_two then 8 else 12 in
  if negb (known_version version) || ((version =? version_two) && ipv6_mtu_separate)
     || negb (valid_lsa_header_sequence lsa_headers version) || (output_size <? fixed + size lsa_headers) then None
  else
    let payload := replicate (Z.to_nat (fixed + size lsa_headers)) 0 in
    let flags := dd_flags init more master ipv6_mtu_separate in
    let payload :=
      if version =? version_two then
        write32 (put (put (write16 payload 0 interface_mtu) 2 (u8 options)) 3 flags) 4 sequence_number
      else
        let payload := put (put (put payload 1 (u8 (Z.shiftr options 16))) 2 (u8 (Z.shiftr options 8))) 3 (u8 options) in
        write32 (put (write16 payload 4 interface_mtu) 7 flags) 8 sequence_number in
    Some (Packet.copy_at payload fixed lsa_headers).

Fixpoint write_entries (payload : list Z) (offset : Z) (entries : list LinkStateRequestEntry) : list Z :=
  match entries with
  | [] => payload
  | e :: entries =>
      let payload := write32 payload offset (r_link_state_type e) in
      let payload := write32 payload (offset + 4) (r_link_state_id e) in
      let payload := write32 payload (offset + 8) (r_advertising_router e) in
      write_entries payload (offset + 12) entries
  end.

Definition encode_link_state_request_payload (output_size version : Z) (entries : list LinkStateRequestEntry)
    : option (list Z) :=
  if negb (known_version version) || (size entries =? 0) || (output_size / 12 <? size entries) then None
  else Some (write_entries (replicate (Z.to_nat (size entries * 12)) 0) 0 entries).

(** The size of the packet, from [length] on, when every advertisement is complete
    and fits. *)
Fixpoint update_length (output_size version length : Z) (advertisements : list (list Z)) : option Z :=
  match advertisements with
  | [] => Some length
  | a :: advertisements =>
      match lsa_header a version with
      | None => None
      | Some header =>
          if negb (length_ header =? size a) || (output_size - length <? size a) then None
          else update_length output_size version (length + size a) advertisements
      end
  end.

Fixpoint write_advertisements (payload : list Z) (offset : Z) (advertisements : list (list Z)) : list Z :=
  match advertisements with
  | [] => payload
  | a :: advertisements => write_advertisements (Packet.copy_at payload offset a) (offset + size a) advertisements
  end.

Definition encode_link_state_update_payload (output_size version : Z) (advertisements : list (list Z))
    : option (list Z) :=
  if negb (known_version version) || (size advertisements =? 0) || (u32_max <? size advertisements) || (output_size <? 4)
  then None
  else
    length ← update_length output_size version 4 advertisements;
    Some (write_advertisements (write32 (replicate (Z.to_nat length) 0) 0 (u32 (size advertisements))) 4 advertisements).

Definition encode_link_state_acknowledgment_payload (output_size version : Z) (lsa_headers : list Z)
    : option (list Z) :=
  if negb (valid_lsa_header_sequence lsa_headers version) || (size lsa_headers =? 0) || (output_size <? size lsa_headers)
  then None
  else Some lsa_headers.

(** ** Parsers *)

Definition bit (flags mask : Z) : bool := negb (Z.land flags mask =? 0).

Definition parse_database_description (packet : PacketView) : option DatabaseDescriptionView :=
  let p := payload packet in
  if negb (bool_decide (p_type packet = database_description)) then None
  else if p_version packet =? version_two then
    if size p <? 8 then None
    else
      let headers := drop 8 p in
      if negb (valid_lsa_header_sequence headers version_two) then None
      else
        let flags := get p 3 in
        if negb (Z.land flags 248 =? 0) then None
        else Some (mkDescription headers (get p 2) (read32 p 4) (read16 p 0) (bit flags dd_init) (bit flags dd_more)
                     (bit flags dd_master) false version_two)
  else if (size p <? 12) || negb (get p 0 =? 0) || negb (get p 6 =? 0) then None
  else
    let flags := get p 7 in
    let headers := drop 12 p in
    if negb (Z.land flags 240 =? 0) || negb (valid_lsa_header_sequence headers version_three) then None
    else Some (mkDescription headers (Z.lor (Z.lor (Z.shiftl (get p 1) 16) (Z.shiftl (get p 2) 8)) (get p 3))
                 (read32 p 8) (read16 p 4) (bit flags dd_init) (bit flags dd_more) (bit flags dd_master)
                 (bit flags dd_ipv6_mtu_separate) version_three).

Definition parse_link_state_request (packet : PacketView) : option LinkStateRequestView :=
  if negb (bool_decide (p_type packet = link_state_request)) || (size (payload packet) =? 0)
     || negb (size (payload packet) mod 12 =? 0) then None
  else Some (mkRequest (payload packet) (p_version packet)).

(** The walk over the declared advertisements, and what is left after them. *)
Fixpoint skip_advertisements (fuel : nat) (version count : Z) (remaining : list Z) : option (list Z) :=
  if 0 <? count then
    match fuel with
    | O => None
    | S fuel =>
        match lsa_header remaining version with
        | None => None
        | Some header =>
            if size remaining <? length_ header then None
            else skip_advertisements fuel version (count - 1) (drop (Z.to_nat (length_ header)) remaining)
        end
    end
  else Some remaining.

Definition parse_link_state_update (packet : PacketView) : option LinkStateUpdateView :=
  let p := payload packet in
  if negb (bool_decide (p_type packet = link_state_update)) || (size p <? 4) then None
  else
    let count := read32 p 0 in
    remaining ← skip_advertisements (length p) (p_version packet) count (drop 4 p);
    match remaining with
    | [] => Some (mkUpdate (drop 4 p) count (p_version packet))
    | _ :: _ => None
    end.

Definition parse_link_state_acknowledgment (packet : PacketView) : option LinkStateAcknowledgmentView :=
  if negb (bool_decide (p_type packet = link_state_acknowledgment)) || (size (payload packet) =? 0)
     || negb (valid_lsa_header_sequence (payload packet) (p_version packet)) then None
  else Some (mkAcknowledgment (payload packet) (p_version packet)).

Definition request_entry (request : LinkStateRequestView) (index : Z) : option LinkStateRequestEntry :=
  if size (entries request) / 12 <=? index then None
  else
    let offset := index * 12 in
    let encoded_type := read32 (entries request) offset in
    if (r_version request =? version_three) && negb (Z.shiftr encoded_type 16 =? 0) then None
    else Some (mkEntry (if r_version request =? version_three then Z.land encoded_type 65535 else encoded_type)
                 (read32 (entries request) (offset + 4)) (read32 (entries request) (offset + 8))).

(** The advertisement [index] places further. *)
Fixpoint nth_advertisement (index : nat) (version : Z) (remaining : list Z) : option (list Z) :=
  match lsa_header remaining version with
  | None => None
  | Some header =>
      if size remaining <? length_ header then None
      else match index with
           | O => Some (take (Z.to_nat (length_ header)) remaining)
           | S index => nth_advertisement index version (drop (Z.to_nat (length_ header)) remaining)
           end
  end.

Definition update_lsa (update : LinkStateUpdateView) (index : Z) : option (list Z) :=
  if advertisement_count update <=? index then None
  else nth_advertisement (Z.to_nat index) (u_version update) (lsas update).

Definition acknowledgment_header (acknowledgment : LinkStateAcknowledgmentView) (index : Z) : option LsaHeaderView :=
  if size (a_lsa_headers acknowledgment) / lsa_header_octets <=? index then None
  else lsa_header (slice (a_lsa_headers acknowledgment) (index * lsa_header_octets) lsa_header_octets) (a_version acknowledgment).

(** ** Grace LSAs (core/src/ospf/ospf_lsa.cpp) *)

Record TlvView := mkTlv { tlv_value : list Z; tlv_type : Z; next_offset : Z }.

(** [& ~3] is a multiple of four. *)
Definition tlv (body : list Z) (offset : Z) : option TlvView :=
  if (size body <? offset) || (size body - offset <? 4) then None
  else
    let length := read16 body (offset + 2) in
    let padded := (length + 3) / 4 * 4 in
    if size body - offset - 4 <? padded then None
    else Some (mkTlv (slice body (offset + 4) length) (read16 body offset) (offset + 4 + padded)).

Record GraceLsaView := mkGrace {
  grace_interface_address : option Z;
  grace_period_seconds : Z;
  grace_reason : Z
}.

Definition body_header (encoded : list Z) (version : Z) : option LsaHeaderView :=
  match lsa_header encoded version with
  | Some header => if length_ header =? size encoded then Some header else None
  | None => None
  end.

(** The items of the body, with what was seen of each before. *)
Fixpoint grace_items (fuel : nat) (body : list Z) (version offset : Z) (period reason address : option Z)
    : option (option Z * option Z * option Z) :=
  if offset <? size body then
    match fuel with
    | O => None
    | S fuel =>
        item ← tlv body offset;
        let v := tlv_value item in
        if tlv_type item =? 1 then
          if bool_decide (is_Some period) || negb (size v =? 4) then None
          else grace_items fuel body version (next_offset item) (Some (read32 v 0)) reason address
        else if tlv_type item =? 2 then
          if bool_decide (is_Some reason) || negb (size v =? 1) || (3 <? get v 0) then None
          else grace_items fuel body version (next_offset item) period (Some (get v 0)) address
        else if tlv_type item =? 3 then
          if negb (version =? version_two) || bool_decide (is_Some address) || negb (size v =? 4) then None
          else grace_items fuel body version (next_offset item) period reason (Some (read32 v 0))
        else grace_items fuel body version (next_offset item) period reason address
    end
  else Some (period, reason, address).

Definition version_two_link_opaque_type : Z := 9.
Definition version_two_grace_opaque_type : Z := 3.
Definition version_three_grace_type : Z := 11.

Definition parse_grace_lsa (encoded : list Z) (version : Z) : option GraceLsaView :=
  header ← body_header encoded version;
  let named :=
    if version =? version_two then
      (lsa_type header =? version_two_link_opaque_type)
      && (Z.shiftr (link_state_id header) 24 =? version_two_grace_opaque_type)
      && (Z.land (link_state_id header) 16777215 =? 0)
    else (version =? version_three) && (lsa_type header =? version_three_grace_type) in
  if negb named then None
  else
    match grace_items (length encoded) (drop 20 encoded) version 0 None None None with
    | Some (Some period, Some reason, address) =>
        if (period =? 0) || (1800 <? period) then None else Some (mkGrace address period reason)
    | _ => None
    end.

End OspfLsa.
