(* ===== verification/OspfHeaders.v ===== *)
(** * Written headers

    What [write_lsa_header] writes, [lsa_header] reads back. *)

From S2P Require Import Prelude Arena Packet Octets OspfHello OspfLsa.
Import Arena.

Module OspfHeaders.
Import OspfHello.OspfHello OspfLsa.OspfLsa Octets.Octets.

(** The values a header has in the source's types, for its version. *)
Record ranged (version : Z) (h : LsaHeaderView) : Prop := mkRanged {
  ty_version : lsa_version h = version /\ known_version version = true;
  ty_id : is_u32 (link_state_id h);
  ty_router : is_u32 (advertising_router h);
  ty_sequence : - two31 <= sequence_number h < two31;
  ty_age : is_u16 (age_seconds h);
  ty_checksum : is_u16 (checksum h);
  ty_length : lsa_header_octets <= length_ h /\ is_u16 (length_ h);
  ty_type : if version =? version_two then is_u8 (lsa_type h) /\ lsa_type h <> 0 /\ is_u8 (lsa_options h)
            else is_u16 (lsa_type h) /\ Z.land (lsa_type h) 8191 <> 0 /\ lsa_options h = 0
}.

(** The twenty octets. *)
Definition octets (h : LsaHeaderView) (version : Z) : list Z :=
  [u8 (Z.shiftr (age_seconds h) 8); u8 (age_seconds h);
   if version =? version_two then u8 (lsa_options h) else u8 (Z.shiftr (lsa_type h) 8); u8 (lsa_type h);
   u8 (Z.shiftr (link_state_id h) 24); u8 (Z.shiftr (link_state_id h) 16); u8 (Z.shiftr (link_state_id h) 8); u8 (link_state_id h);
   u8 (Z.shiftr (advertising_router h) 24); u8 (Z.shiftr (advertising_router h) 16);
   u8 (Z.shiftr (advertising_router h) 8); u8 (advertising_router h);
   u8 (Z.shiftr (u32 (sequence_number h)) 24); u8 (Z.shiftr (u32 (sequence_number h)) 16);
   u8 (Z.shiftr (u32 (sequence_number h)) 8); u8 (u32 (sequence_number h));
   u8 (Z.shiftr (checksum h) 8); u8 (checksum h); u8 (Z.shiftr (length_ h) 8); u8 (length_ h)].

Lemma write_octets output h version : size output = 20 -> write_lsa_header output h version = octets h version.
Proof.
  unfold size. intros H. assert (length output = 20)%nat as Hl by lia. clear H.
  do 20 (destruct output as [|? output]; [discriminate|]). destruct output; [|discriminate].
  unfold write_lsa_header, octets. destruct (version =? version_two); reflexivity.
Qed.

Lemma s32_u32 z : - two31 <= z < two31 -> s32 (u32 z) = z.
Proof.
  intros Hz. unfold s32, u32. destruct (Z.leb_spec 0 z).
  - rewrite Z.mod_small by lia. case_if; lia.
  - rewrite <- (Z.mod_add z 1) by lia. rewrite Z.mod_small by lia. case_if; lia.
Qed.

Lemma header_octets_read h version rest : ranged version h -> lsa_header (octets h version ++ rest) version = Some h.
Proof.
  intros [[Hv Hk] Hi Hr Hs Ha Hc [Hl Hl'] Ht]. unfold lsa_header. rewrite Hk. cbn [negb orb].
  assert (size (octets h version ++ rest) = 20 + size rest) as -> by (rewrite size_app; reflexivity).
  pose proof (size_nonneg rest). unfold lsa_header_octets in *. rewrite (proj2 (Z.ltb_ge _ _)) by lia.
  assert (read16 (octets h version ++ rest) 18 = length_ h) as -> by (now apply be16_read).
  rewrite (proj2 (Z.ltb_ge _ _)) by lia.
  assert (read32 (octets h version ++ rest) 4 = link_state_id h) as -> by (now apply be32_read).
  assert (read32 (octets h version ++ rest) 8 = advertising_router h) as -> by (now apply be32_read).
  assert (read32 (octets h version ++ rest) 12 = u32 (sequence_number h)) as -> by (apply be32_read, u32_range).
  assert (read16 (octets h version ++ rest) 0 = age_seconds h) as -> by (now apply be16_read).
  assert (read16 (octets h version ++ rest) 16 = checksum h) as -> by (now apply be16_read).
  rewrite s32_u32 by done. destruct (version =? version_two) eqn:E; destruct Ht as (H1 & H2 & H3).
  - assert (get (octets h version ++ rest) 3 = lsa_type h) as -> by (change (u8 (lsa_type h) = lsa_type h); unfold u8, is_u8 in *; apply Z.mod_small; lia).
    assert (get (octets h version ++ rest) 2 = lsa_options h) as ->.
    { unfold octets. rewrite E. change (u8 (lsa_options h) = lsa_options h). unfold u8, is_u8 in *; apply Z.mod_small; lia. }
    case_if; [lia|]. subst version. now destruct h.
  - assert (read16 (octets h version ++ rest) 2 = lsa_type h) as -> by (unfold octets; rewrite E; now apply be16_read).
    case_if; [lia|]. rewrite <- H3. subst version. now destruct h.
Qed.

Lemma read32_range l i : Forall is_u8 l -> is_u32 (read32 l i).
Proof.
  intros Hl. unfold read32. pose proof (get_word l i Hl). pose proof (get_word l (i + 1) Hl). pose proof (get_word l (i + 2) Hl).
  pose proof (get_word l (i + 3) Hl). rewrite lor_octets by done. unfold is_u8, is_u32 in *. lia.
Qed.

(** What [lsa_header] reads is in range. *)
Lemma header_ranged l version h : Forall is_u8 l -> lsa_header l version = Some h -> ranged version h.
Proof.
  intros Hl. unfold lsa_header. destruct (known_version version) eqn:Ek; cbn [negb orb]; [|discriminate].
  case_if; [discriminate|]. destruct (Z.ltb_spec (read16 l 18) lsa_header_octets); [discriminate|].
  pose proof (read32_range l 12 Hl) as H12.
  destruct (version =? version_two) eqn:Ev; (case_if; [discriminate|]); intros [= <-];
    (constructor; cbn [lsa_version link_state_id advertising_router sequence_number age_seconds checksum length_ lsa_type lsa_options];
     rewrite ?Ev; split_and?; auto using u16_range, read32_range, get_word; try (unfold s32, is_u32 in *; case_if; lia)).
  all: try apply u16_range.
  - rewrite Z.eqb_refl. auto using get_word.
  - rewrite (proj2 (Z.eqb_neq _ _)) by done. split_and!; [apply u16_range|done|done].
Qed.

End OspfHeaders.
