(* ===== verification/OspfLsdb.v ===== *)
(** * The link-state database (core/src/ospf/ospf_lsdb.cpp)

    Checksums and recency of advertisements, and the database that keeps the latest
    instance of each.  [memory] says whether an allocation succeeds. *)

From S2P Require Import Prelude Catalog Arena Packet Octets OspfHello OspfLsa.
Import Arena.

Module OspfLsdb.
Import OspfHello.OspfHello OspfLsa.OspfLsa.

Definition max_age_seconds : Z := 3600.
Definition max_age_difference_seconds : Z := 900.

Inductive FloodingScope := link | area | autonomous_system.
#[export] Instance FloodingScope_eq_dec : EqDecision FloodingScope.
Proof. solve_decision. Defined.

Record LsaKey := mkKey {
  k_link_state_id : Z;
  k_advertising_router : Z;
  k_type : Z;
  k_scope : FloodingScope
}.
#[export] Instance LsaKey_eq_dec : EqDecision LsaKey.
Proof. solve_decision. Defined.

Record LsaRecord := mkRecord {
  key : LsaKey;
  bytes : list Z;
  installed_at : Z;
  age_at_install : Z;
  last_checksum_check_age : Z;
  max_age_flooded : bool
}.

Inductive InstallResult :=
| installed | identical_ | older_ | too_soon | fight_back_required | ignored | malformed | capacity_exhausted.
#[export] Instance InstallResult_eq_dec : EqDecision InstallResult.
Proof. solve_decision. Defined.

Inductive LsaRecency := older | identical | newer.
#[export] Instance LsaRecency_eq_dec : EqDecision LsaRecency.
Proof. solve_decision. Defined.

(** ** Types and scopes *)

Definition known_version_three_type (type : Z) : bool :=
  bool_decide (type ∈ [8193; 8194; 8195; 8196; 16389; 8199; 8; 8201]).

Definition known_version_two_type (type : Z) : bool :=
  ((1 <=? type) && (type <=? 5)) || (type =? 7) || ((9 <=? type) && (type <=? 11)).

Definition scope_for (type version : Z) : FloodingScope :=
  if version =? version_two then
    if type =? 9 then link else if (type =? 5) || (type =? 11) then autonomous_system else area
  else if negb (known_version_three_type type) && (Z.land type 32768 =? 0) then link
  else
    let bits := Z.land (Z.shiftr type 13) 3 in
    if bits =? 0 then link else if bits =? 1 then area else if bits =? 2 then autonomous_system else link.

Definition lsa_key (header : LsaHeaderView) : LsaKey :=
  mkKey (link_state_id header) (advertising_router header) (lsa_type header)
    (scope_for (lsa_type header) (lsa_version header)).

(** ** Recency *)

Definition compare_lsa_headers (candidate current : LsaHeaderView) : LsaRecency :=
  if negb (sequence_number candidate =? sequence_number current) then
    if sequence_number current <? sequence_number candidate then newer else older
  else if negb (checksum candidate =? checksum current) then
    if checksum current <? checksum candidate then newer else older
  else if (age_seconds candidate =? max_age_seconds) && negb (age_seconds current =? max_age_seconds) then newer
  else if (age_seconds current =? max_age_seconds) && negb (age_seconds candidate =? max_age_seconds) then older
  else
    let difference :=
      if age_seconds current <? age_seconds candidate then age_seconds candidate - age_seconds current
      else age_seconds current - age_seconds candidate in
    if max_age_difference_seconds <? difference then
      if age_seconds candidate <? age_seconds current then newer else older
    else identical.

(** InitialSequenceNumber - 1 is reserved. *)
Definition valid_sequence (sequence : Z) : bool := negb (u32 sequence =? two31).

Definition age (r : LsaRecord) (now : Z) : Z :=
  if now <=? installed_at r then age_at_install r
  else
    let elapsed := (now - installed_at r) / Catalog.seconds 1 in
    u16 (Z.min (u64 (age_at_install r + elapsed)) max_age_seconds).

(** ** Checksums *)

(** The two sums over the octets. *)
Fixpoint sums (l : list Z) (c0 c1 : Z) : Z * Z :=
  match l with
  | [] => (c0, c1)
  | b :: l => let c0 := (c0 + b) mod 255 in sums l c0 ((c1 + c0) mod 255)
  end.

Definition verify_lsa_checksum (lsa : list Z) : bool :=
  if size lsa <? lsa_header_octets then false
  else let (c0, c1) := sums (drop 2 lsa) 0 0 in (c0 =? 0) && (c1 =? 0).

Definition checksum_offset : Z := 16.

(** Division of signed integers truncates: [Z.rem]. *)
Definition update_lsa_checksum (lsa : list Z) : bool * list Z :=
  if size lsa <? lsa_header_octets then (false, lsa)
  else
    let lsa := put (put lsa checksum_offset 0) (checksum_offset + 1) 0 in
    let (c0, c1) := sums (drop 2 lsa) 0 0 in
    let checksum_distance := size lsa - checksum_offset - 1 in
    let x := Z.rem (checksum_distance * c0 - c1) 255 in
    let x := if x <=? 0 then x + 255 else x in
    let y := 510 - c0 - x in
    let y := if 255 <? y then y - 255 else y in
    let lsa := put (put lsa checksum_offset (u8 x)) (checksum_offset + 1) (u8 y) in
    (verify_lsa_checksum lsa, lsa).

(** ** The database *)

Record t := mk { records_ : list LsaRecord; maximum_records_ : Z }.
#[export] Instance t_settable : Settable t := fun s => mk (records_ s) (maximum_records_ s).

Definition construct (maximum_records : Z) : t := mk [] maximum_records.

Definition has_key (k : LsaKey) (r : LsaRecord) : bool := bool_decide (key r = k).

Definition find (s : t) (k : LsaKey) : option LsaRecord := List.find (has_key k) (records_ s).

(** The record [find] points at is changed in place. *)
Fixpoint assign (k : LsaKey) (f : LsaRecord -> LsaRecord) (records : list LsaRecord) : list LsaRecord :=
  match records with
  | [] => []
  | r :: records => if has_key k r then f r :: records else r :: assign k f records
  end.

Fixpoint remove (k : LsaKey) (records : list LsaRecord) : list LsaRecord :=
  match records with
  | [] => []
  | r :: records => if has_key k r then records else r :: remove k records
  end.

Definition erase (s : t) (k : LsaKey) : bool * t :=
  match find s k with
  | None => (false, s)
  | Some _ => (true, s <| records_ := remove k (records_ s) |>)
  end.

Definition premature_age (s : t) (k : LsaKey) (now : Z) : bool * t :=
  match find s k with
  | None => (false, s)
  | Some record =>
      if size (bytes record) <? lsa_header_octets then (false, s)
      else
        (true, s <| records_ := assign k (fun r =>
           mkRecord (key r) (put (put (bytes r) 0 (u8 (Z.shiftr max_age_seconds 8))) 1 (u8 max_age_seconds)) now
             max_age_seconds (last_checksum_check_age r) false) (records_ s) |>)
  end.

Definition mark_max_age_flooded (s : t) (k : LsaKey) : bool * t :=
  match find s k with
  | None => (false, s)
  | Some record =>
      if negb (age_at_install record =? max_age_seconds) then (false, s)
      else
        (true, s <| records_ := assign k (fun r =>
           mkRecord (key r) (bytes r) (installed_at r) (age_at_install r) (last_checksum_check_age r) true) (records_ s) |>)
  end.

Definition verify_checksum_at (s : t) (k : LsaKey) (now : Z) : bool * t :=
  match find s k with
  | None => (false, s)
  | Some record =>
      if negb (verify_lsa_checksum (bytes record)) then (false, s)
      else
        (true, s <| records_ := assign k (fun r =>
           mkRecord (key r) (bytes r) (installed_at r) (age_at_install r) (age r now) (max_age_flooded r)) (records_ s) |>)
  end.

(** ** Installation *)

(** The header as it is compared: of the record's bytes, with its present age. *)
Definition with_age (header : LsaHeaderView) (age : Z) : LsaHeaderView :=
  mkHeader (link_state_id header) (advertising_router header) (sequence_number header) age (lsa_type header)
    (checksum header) (length_ header) (lsa_options header) (lsa_version header).

Definition well_formed (header : LsaHeaderView) (encoded_lsa : list Z) : bool :=
  (length_ header =? size encoded_lsa) && (age_seconds header <=? max_age_seconds)
  && valid_sequence (sequence_number header) && verify_lsa_checksum encoded_lsa.

Definition supported (type version : Z) : bool :=
  negb ((version =? version_two) && negb (known_version_two_type type))
  && negb ((version =? version_three) && (Z.land (Z.shiftr type 13) 3 =? 3)).

Definition replacement (k : LsaKey) (encoded_lsa : list Z) (header : LsaHeaderView) (now : Z) : LsaRecord :=
  mkRecord k encoded_lsa now (age_seconds header) (age_seconds header) false.

(** What stands against the installation. *)
Definition refusal (s : t) (k : LsaKey) (header : LsaHeaderView) (version now local_router_id : Z)
    (received_from_neighbor : bool) : option InstallResult :=
  let self := received_from_neighbor && (advertising_router header =? local_router_id) in
  match find s k with
  | Some current =>
      match lsa_header (bytes current) version with
      | None => Some malformed
      | Some current_header =>
          match compare_lsa_headers header (with_age current_header (age current now)) with
          | older => Some older_
          | identical => Some identical_
          | newer =>
              if self then Some fight_back_required
              else if received_from_neighbor && (installed_at current <? now)
                      && (now - installed_at current <? Catalog.ospf_min_ls_arrival)
              then Some too_soon
              else None
          end
      end
  | None =>
      if size (records_ s) =? maximum_records_ s then Some capacity_exhausted
      else if self then Some fight_back_required
      else None
  end.

Definition install (s : t) (encoded_lsa : list Z) (version now local_router_id : Z) (received_from_neighbor memory : bool)
    : InstallResult * t :=
  match lsa_header encoded_lsa version with
  | None => (malformed, s)
  | Some header =>
      if negb (well_formed header encoded_lsa) then (malformed, s)
      else if negb (supported (lsa_type header) version) then (ignored, s)
      else
        let k := mkKey (link_state_id header) (advertising_router header) (lsa_type header)
                   (scope_for (lsa_type header) version) in
        match refusal s k header version now local_router_id received_from_neighbor with
        | Some result => (result, s)
        | None =>
            if negb memory then (capacity_exhausted, s)
            else
              let r := replacement k encoded_lsa header now in
              (installed,
               s <| records_ := match find s k with
                                | Some _ => assign k (fun _ => r) (records_ s)
                                | None => records_ s ++ [r]
                                end |>)
        end
  end.

(** ** Checkpoints *)

Record LsaRecordCheckpoint := mkSaved {
  c_key : LsaKey;
  c_bytes : list Z;
  c_effective_age : Z;
  c_last_checksum_check_age : Z;
  c_max_age_flooded : bool
}.

Definition save (now : Z) (r : LsaRecord) : LsaRecordCheckpoint :=
  mkSaved (key r) (bytes r) (age r now) (last_checksum_check_age r) (max_age_flooded r).

Definition checkpoint (s : t) (now : Z) : list LsaRecordCheckpoint := save now <$> records_ s.

Definition saved_valid (saved : LsaRecordCheckpoint) (version : Z) (staged : list LsaRecord) : bool :=
  match lsa_header (c_bytes saved) version with
  | None => false
  | Some header =>
      (length_ header =? size (c_bytes saved)) && bool_decide (lsa_key header = c_key saved)
      && (c_effective_age saved <=? max_age_seconds) && (c_last_checksum_check_age saved <=? c_effective_age saved)
      && verify_lsa_checksum (c_bytes saved) && negb (existsb (has_key (c_key saved)) staged)
  end.

Definition reload (now : Z) (saved : LsaRecordCheckpoint) : LsaRecord :=
  mkRecord (c_key saved) (c_bytes saved) now (c_effective_age saved) (c_last_checksum_check_age saved)
    (c_max_age_flooded saved).

Fixpoint stage (saved : list LsaRecordCheckpoint) (version now : Z) (staged : list LsaRecord) : option (list LsaRecord) :=
  match saved with
  | [] => Some staged
  | r :: saved => if saved_valid r version staged then stage saved version now (staged ++ [reload now r]) else None
  end.

Definition restore (s : t) (saved : list LsaRecordCheckpoint) (version now : Z) (memory : bool) : bool * t :=
  if maximum_records_ s <? size saved then (false, s)
  else
    match stage saved version now [] with
    | Some staged => if memory then (true, s <| records_ := staged |>) else (false, s)
    | None => (false, s)
    end.

End OspfLsdb.
