(* ===== verification/OspfExchange.v ===== *)
(** * Database exchange with a neighbor (core/src/ospf/ospf_database_exchange.cpp)

    The lists a router keeps for one neighbor: what it summarizes, requests,
    retransmits and acknowledges.  [memory] says whether an allocation succeeds. *)

From S2P Require Import Prelude Arena Octets OspfHello OspfLsa OspfLsdb Ordering.
Import Arena.

Module OspfExchange.
Import OspfHello.OspfHello OspfLsa.OspfLsa.

Module Db := OspfLsdb.OspfLsdb.
#[local] Existing Instances Db.FloodingScope_eq_dec Db.LsaKey_eq_dec Db.LsaRecency_eq_dec Db.t_settable
  LinkStateRequestEntry_eq_dec LsaHeaderView_eq_dec.

Record RetransmissionEntry := mkRetransmission {
  t_key : Db.LsaKey;
  t_sequence_number : Z;
  t_checksum : Z
}.

Record t := mk {
  summaries_ : list LsaHeaderView;
  requests_ : list LinkStateRequestEntry;
  retransmissions_ : list RetransmissionEntry;
  acknowledgments_ : list LsaHeaderView;
  maximum_summaries_ : Z;
  maximum_requests_ : Z;
  maximum_retransmissions_ : Z;
  maximum_acknowledgments_ : Z;
  version_ : Z;
  permit_autonomous_system_scope_ : bool
}.
#[export] Instance t_settable : Settable t := fun s =>
  mk (summaries_ s) (requests_ s) (retransmissions_ s) (acknowledgments_ s) (maximum_summaries_ s) (maximum_requests_ s)
    (maximum_retransmissions_ s) (maximum_acknowledgments_ s) (version_ s) (permit_autonomous_system_scope_ s).

Definition construct (maximum_summaries maximum_requests maximum_retransmissions maximum_acknowledgments : Z) : t :=
  mk [] [] [] [] maximum_summaries maximum_requests maximum_retransmissions maximum_acknowledgments 0 true.

(** The request for an instance, and whether a record has the identity of a header. *)
Definition requests_header (header : LsaHeaderView) (r : LinkStateRequestEntry) : bool :=
  (lsa_type header =? r_link_state_type r) && (link_state_id header =? r_link_state_id r)
  && (advertising_router header =? r_advertising_router r).

Definition same_identity (header : LsaHeaderView) (r : Db.LsaRecord) : bool :=
  (Db.k_type (Db.key r) =? lsa_type header) && (Db.k_link_state_id (Db.key r) =? link_state_id header)
  && (Db.k_advertising_router (Db.key r) =? advertising_router header).

(** ** Summaries *)

Definition summary_less (left right : LsaHeaderView) : bool :=
  if negb (lsa_type left =? lsa_type right) then lsa_type left <? lsa_type right
  else if negb (link_state_id left =? link_state_id right) then link_state_id left <? link_state_id right
  else advertising_router left <? advertising_router right.

Section Begin.
Context {sorting : Sorting}.

(** The summaries of the records, after those before them; [None] when a record
    cannot be read or there are too many. *)
Fixpoint collect (s : t) (records : list Db.LsaRecord) (version now : Z) (permit : bool) (next : list LsaHeaderView)
    : option (list LsaHeaderView) :=
  match records with
  | [] => Some next
  | r :: records =>
      if negb permit && bool_decide (Db.k_scope (Db.key r) = Db.autonomous_system) then collect s records version now permit next
      else
        match lsa_header (Db.bytes r) version with
        | None => None
        | Some header =>
            let header := Db.with_age header (Db.age r now) in
            if age_seconds header =? Db.max_age_seconds then collect s records version now permit next
            else if size next =? maximum_summaries_ s then None
            else collect s records version now permit (next ++ [header])
        end
  end.

Definition begin (s : t) (records : list Db.LsaRecord) (version now : Z) (permit memory : bool) : bool * t :=
  if negb (known_version version) || negb memory then (false, s)
  else
    match collect s records version now permit [] with
    | None => (false, s)
    | Some next =>
        (true, mk (std_sort summary_less next) [] [] [] (maximum_summaries_ s) (maximum_requests_ s) (maximum_retransmissions_ s)
                 (maximum_acknowledgments_ s) version permit)
    end.
End Begin.

(** ** Database descriptions *)

(** Whether an advertised instance has to be requested; [None] when the local
    record cannot be read. *)
Definition wanted (s : t) (database : Db.t) (remote : LsaHeaderView) (now : Z) : option bool :=
  match List.find (same_identity remote) (Db.records_ database) with
  | None => Some true
  | Some local_record =>
      match lsa_header (Db.bytes local_record) (version_ s) with
      | None => None
      | Some local =>
          Some (bool_decide (Db.compare_lsa_headers remote (Db.with_age local (Db.age local_record now)) = Db.newer))
      end
  end.

Definition request_of (remote : LsaHeaderView) : LinkStateRequestEntry :=
  mkEntry (lsa_type remote) (link_state_id remote) (advertising_router remote).

(** The headers from [offset] on, for at most [fuel] of them. *)
Fixpoint describe (fuel : nat) (s : t) (database : Db.t) (headers : list Z) (now offset : Z)
    (next : list LinkStateRequestEntry) : option (list LinkStateRequestEntry) :=
  if offset <? size headers then
    match fuel with
    | O => None
    | S fuel =>
        match lsa_header (Octets.slice headers offset lsa_header_octets) (version_ s) with
        | None => None
        | Some remote =>
            let continue next := describe fuel s database headers now (offset + lsa_header_octets) next in
            if negb (permit_autonomous_system_scope_ s) && bool_decide (Db.k_scope (Db.lsa_key remote) = Db.autonomous_system)
            then continue next
            else
              match wanted s database remote now with
              | None => None
              | Some false => continue next
              | Some true =>
                  if bool_decide (request_of remote ∈ next) then continue next
                  else if size next =? maximum_requests_ s then None
                  else continue (next ++ [request_of remote])
              end
        end
    end
  else Some next.

Definition process_database_description (s : t) (description : DatabaseDescriptionView) (database : Db.t) (now : Z)
    (memory : bool) : bool * t :=
  if negb (dd_version description =? version_ s) || negb (size (lsa_headers description) mod lsa_header_octets =? 0)
     || negb memory
  then (false, s)
  else
    match describe (length (lsa_headers description)) s database (lsa_headers description) now 0 (requests_ s) with
    | None => (false, s)
    | Some next => (true, s <| requests_ := next |>)
    end.

(** ** Updates and acknowledgments *)

Definition received_lsa (s : t) (header : LsaHeaderView) (result : Db.InstallResult) : t :=
  match result with
  | Db.installed | Db.identical_ | Db.fight_back_required =>
      s <| requests_ := List.filter (fun r => negb (requests_header header r)) (requests_ s) |>
  | _ => s
  end.

(** The entry of a key gives way to the new generation. *)
Fixpoint supersede (e : RetransmissionEntry) (l : list RetransmissionEntry) : option (list RetransmissionEntry) :=
  match l with
  | [] => None
  | x :: l => if bool_decide (t_key x = t_key e) then Some (e :: l) else cons x <$> supersede e l
  end.

Definition queue_retransmission (s : t) (record : Db.LsaRecord) (version : Z) (memory : bool) : bool * t :=
  match lsa_header (Db.bytes record) version with
  | None => (false, s)
  | Some header =>
      let entry := mkRetransmission (Db.key record) (sequence_number header) (checksum header) in
      match supersede entry (retransmissions_ s) with
      | Some l => (true, s <| retransmissions_ := l |>)
      | None =>
          if (size (retransmissions_ s) =? maximum_retransmissions_ s) || negb memory then (false, s)
          else (true, s <| retransmissions_ := retransmissions_ s ++ [entry] |>)
      end
  end.

(** The exact instance. *)
Definition acknowledges (header : LsaHeaderView) (e : RetransmissionEntry) : bool :=
  (Db.k_type (t_key e) =? lsa_type header) && (Db.k_link_state_id (t_key e) =? link_state_id header)
  && (Db.k_advertising_router (t_key e) =? advertising_router header)
  && (t_sequence_number e =? sequence_number header) && (t_checksum e =? checksum header).

Definition acknowledge (s : t) (header : LsaHeaderView) : bool * t :=
  let l := List.filter (fun e => negb (acknowledges header e)) (retransmissions_ s) in
  (negb (size l =? size (retransmissions_ s)), s <| retransmissions_ := l |>).

Definition retransmits (s : t) (k : Db.LsaKey) : bool :=
  existsb (fun e => bool_decide (t_key e = k)) (retransmissions_ s).

Definition same_instance (a b : LsaHeaderView) : bool :=
  (lsa_type a =? lsa_type b) && (link_state_id a =? link_state_id b) && (advertising_router a =? advertising_router b)
  && (sequence_number a =? sequence_number b) && (checksum a =? checksum b).

Definition queue_delayed_acknowledgment (s : t) (header : LsaHeaderView) (memory : bool) : bool * t :=
  if existsb (fun e => same_instance e header) (acknowledgments_ s) then (true, s)
  else if (size (acknowledgments_ s) =? maximum_acknowledgments_ s) || negb memory then (false, s)
  else (true, s <| acknowledgments_ := acknowledgments_ s ++ [header] |>).

Definition clear_delayed_acknowledgments (s : t) : t := s <| acknowledgments_ := [] |>.

Definition consume_delayed_acknowledgments (s : t) (count : Z) : t :=
  s <| acknowledgments_ := drop (Z.to_nat (Z.min count (size (acknowledgments_ s)))) (acknowledgments_ s) |>.

Definition reset (s : t) : t :=
  mk [] [] [] [] (maximum_summaries_ s) (maximum_requests_ s) (maximum_retransmissions_ s) (maximum_acknowledgments_ s)
    0 (permit_autonomous_system_scope_ s).

(** ** Checkpoints *)

Record Checkpoint := mkCheckpoint {
  c_summaries : list LsaHeaderView;
  c_requests : list LinkStateRequestEntry;
  c_retransmissions : list RetransmissionEntry;
  c_acknowledgments : list LsaHeaderView;
  c_version : Z;
  c_permit_autonomous_system_scope : bool
}.

Definition checkpoint (s : t) : Checkpoint :=
  mkCheckpoint (summaries_ s) (requests_ s) (retransmissions_ s) (acknowledgments_ s) (version_ s)
    (permit_autonomous_system_scope_ s).

Definition restore (s : t) (c : Checkpoint) (memory : bool) : bool * t :=
  if (maximum_summaries_ s <? size (c_summaries c)) || (maximum_requests_ s <? size (c_requests c))
     || (maximum_retransmissions_ s <? size (c_retransmissions c))
     || (maximum_acknowledgments_ s <? size (c_acknowledgments c))
     || (negb (c_version c =? 0) && negb (known_version (c_version c))) || negb memory
  then (false, s)
  else
    (true, mk (c_summaries c) (c_requests c) (c_retransmissions c) (c_acknowledgments c) (maximum_summaries_ s)
             (maximum_requests_ s) (maximum_retransmissions_ s) (maximum_acknowledgments_ s) (c_version c)
             (c_permit_autonomous_system_scope c)).

End OspfExchange.
