(* ===== verification/OspfChecksum.v ===== *)
(** * The checksum of an advertisement

    The Fletcher checksum as two sums: what [update_lsa_checksum] writes verifies,
    and which changes of an advertisement it detects. *)

From S2P Require Import Prelude Arena Packet Octets OspfHello OspfLsa OspfLsdb.
Import Arena.

Module OspfChecksum.
Import OspfLsa.OspfLsa OspfLsdb.OspfLsdb Octets.Octets.

(** The sum of the octets, and their sum weighted by the distance to the end. *)
Fixpoint plain (l : list Z) : Z := match l with [] => 0 | b :: l => b + plain l end.
Fixpoint weighted (l : list Z) : Z := match l with [] => 0 | b :: l => (size l + 1) * b + weighted l end.

Lemma mod_shift a b k : a = b + k * 255 -> a mod 255 = b mod 255.
Proof. intros ->. apply Z_mod_plus_full. Qed.

Lemma sums_spec l : forall c0 c1, 0 <= c0 < 255 -> 0 <= c1 < 255 ->
  sums l c0 c1 = ((c0 + plain l) mod 255, (c1 + size l * c0 + weighted l) mod 255).
Proof.
  induction l as [|b l IH]; intros c0 c1 H0 H1; cbn [sums plain weighted].
  - change (size []) with 0. rewrite !Z.mod_small by lia. f_equal; lia.
  - rewrite IH by lia. set (n := size l). assert (size (b :: l) = n + 1) as -> by (unfold n, size; cbn [length]; lia).
    f_equal.
    + apply (mod_shift _ _ (- ((c0 + b) / 255))). lia.
    + set (q := (c0 + b) / 255). set (c0' := (c0 + b) mod 255). assert (c0' = c0 + b - 255 * q) as E by (unfold c0', q; lia).
      apply (mod_shift _ _ (- ((c1 + c0') / 255) - (n + 1) * q)). rewrite (Z.mod_eq (c1 + c0') 255), E by lia. ring.
Qed.

Lemma plain_put (l : list Z) v : forall i : nat, (i < length l)%nat -> plain (<[i := v]> l) = plain l + (v - l !!! i).
Proof.
  induction l as [|b l IH]; intros [|i] Hi; cbn [length] in Hi; try lia; cbn [insert list_insert plain].
  - change ((b :: l) !!! 0%nat) with b. lia.
  - rewrite IH by lia. change ((b :: l) !!! S i) with (l !!! i). lia.
Qed.

Lemma weighted_put (l : list Z) v : forall i : nat, (i < length l)%nat ->
  weighted (<[i := v]> l) = weighted l + (size l - Z.of_nat i) * (v - l !!! i).
Proof.
  induction l as [|b l IH]; intros [|i] Hi; cbn [length] in Hi; try lia.
  - change (<[0%nat := v]> (b :: l)) with (v :: l). change ((b :: l) !!! 0%nat) with b. cbn [weighted].
    unfold size. cbn [length]. lia.
  - change (<[S i := v]> (b :: l)) with (b :: <[i := v]> l). change ((b :: l) !!! S i) with (l !!! i). cbn [weighted].
    rewrite IH by lia. unfold size. rewrite length_insert. cbn [length]. lia.
Qed.

Lemma plain_drop_put (l : list Z) i v : 2 <= i < size l -> plain (drop 2 (put l i v)) = plain (drop 2 l) + (v - get l i).
Proof.
  intros Hi. unfold put, get. unfold size in Hi. replace (Z.to_nat i) with (2 + Z.to_nat (i - 2))%nat by lia.
  rewrite drop_insert_ge by lia. replace (2 + Z.to_nat (i - 2) - 2)%nat with (Z.to_nat (i - 2)) by lia.
  rewrite plain_put by (rewrite length_drop; lia). now rewrite lookup_total_drop.
Qed.

Lemma weighted_drop_put (l : list Z) i v : 2 <= i < size l ->
  weighted (drop 2 (put l i v)) = weighted (drop 2 l) + (size l - i) * (v - get l i).
Proof.
  intros Hi. unfold put, get. unfold size in Hi. replace (Z.to_nat i) with (2 + Z.to_nat (i - 2))%nat by lia.
  rewrite drop_insert_ge by lia. replace (2 + Z.to_nat (i - 2) - 2)%nat with (Z.to_nat (i - 2)) by lia.
  rewrite weighted_put by (rewrite length_drop; lia). rewrite lookup_total_drop. unfold size. rewrite length_drop.
  replace (Z.of_nat (length l - 2) - Z.of_nat (Z.to_nat (i - 2))) with (Z.of_nat (length l) - i) by lia. reflexivity.
Qed.

Lemma verify_spec l : verify_lsa_checksum l = true <->
  20 <= size l /\ plain (drop 2 l) mod 255 = 0 /\ weighted (drop 2 l) mod 255 = 0.
Proof.
  unfold verify_lsa_checksum, lsa_header_octets. destruct (Z.ltb_spec (size l) 20); [split; [discriminate|lia]|].
  rewrite sums_spec by lia. rewrite Z.mul_0_r, !Z.add_0_l. rewrite andb_true_iff, !Z.eqb_eq. tauto.
Qed.

Lemma u8_small z : is_u8 z -> u8 z = z.
Proof. unfold is_u8, u8. lia. Qed.

(** The two octets the computation writes. *)
Lemma check_octets n c0 c1 :
  0 <= c0 < 255 -> 0 <= c1 < 255 ->
  let x0 := Z.rem (n * c0 - c1) 255 in
  let x := if x0 <=? 0 then x0 + 255 else x0 in
  let y0 := 510 - c0 - x in
  let y := if 255 <? y0 then y0 - 255 else y0 in
  1 <= x <= 255 /\ 1 <= y <= 255
  /\ (exists k, x = n * c0 - c1 + k * 255) /\ exists k, x + y = k * 255 - c0.
Proof.
  intros H0 H1 x0 x y0 y. pose proof (Z.rem_bound_abs (n * c0 - c1) 255 ltac:(lia)) as Hr. fold x0 in Hr.
  pose proof (Z.quot_rem' (n * c0 - c1) 255) as Hq. fold x0 in Hq. set (q := Z.quot (n * c0 - c1) 255) in *.
  assert (1 <= x <= 255) as Hx by (unfold x; case_if; lia).
  assert (1 <= y <= 255) as Hy by (unfold y, y0; case_if; lia).
  split_and!; try lia.
  - exists (if x0 <=? 0 then 1 - q else - q). unfold x. case_if; lia.
  - exists (if 255 <? y0 then 1 else 2). unfold y. case_if; unfold y0; lia.
Qed.

Lemma weighted_balance w dw c1 c n x y k k' :
  w = 255 * dw + c1 -> x = n * c - c1 + k * 255 -> x + y = k' * 255 - c ->
  w + (n + 1) * x + n * y = (dw + n * k' + k) * 255.
Proof. intros -> E1 E2. assert (y = k' * 255 - c - x) as -> by lia. rewrite E1. ring. Qed.

(** The checksum [update_lsa_checksum] writes into an advertisement makes it
    verify, changes no other octet and is never zero; and a verified advertisement
    of which one octet behind the age is changed no longer verifies, unless a zero
    became 255 or 255 a zero. *)
Theorem lsa_checksum_protects l :
  Forall is_u8 l -> 20 <= size l ->
  (let (ok, out) := update_lsa_checksum l in
   ok = true /\ verify_lsa_checksum out = true /\ size out = size l
   /\ (forall k, 0 <= k -> k <> 16 -> k <> 17 -> get out k = get l k) /\ 1 <= get out 16 <= 255 /\ 1 <= get out 17 <= 255)
  /\ (verify_lsa_checksum l = true -> forall i v, 2 <= i < size l -> is_u8 v -> verify_lsa_checksum (put l i v) = true ->
      v = get l i \/ (v = 0 /\ get l i = 255) \/ (v = 255 /\ get l i = 0)).
Proof.
  intros Hb Hs. split.
  - unfold update_lsa_checksum, lsa_header_octets, checksum_offset. rewrite (proj2 (Z.ltb_ge _ _)) by lia.
    set (z := put (put l 16 0) (16 + 1) 0). assert (size z = size l) as Sz by (unfold z; now rewrite !size_put).
    rewrite sums_spec by lia. rewrite Z.mul_0_r, !Z.add_0_l. set (c0 := plain (drop 2 z) mod 255). set (c1 := weighted (drop 2 z) mod 255).
    rewrite Sz. destruct (check_octets (size l - 16 - 1) c0 c1 ltac:(unfold c0; lia) ltac:(unfold c1; lia)) as (Bx & By & (k & Ek) & k' & Ek').
    set (x := if _ <=? 0 then _ else _) in *. set (y := if 255 <? _ then _ else _) in *.
    rewrite (u8_small x), (u8_small y) by (unfold is_u8; lia).
    assert (get z 16 = 0 /\ get z 17 = 0) as [G16 G17].
    { unfold z. rewrite !get_put by (rewrite ?size_put; lia). split; reflexivity. }
    set (out := put (put z 16 x) (16 + 1) y). assert (size out = size l) as So by (unfold out; now rewrite !size_put).
    assert (verify_lsa_checksum out = true) as Hv.
    { apply verify_spec. split; [lia|]. unfold out.
      rewrite plain_drop_put, weighted_drop_put by (rewrite ?size_put; lia). rewrite plain_drop_put, weighted_drop_put by lia.
      rewrite size_put, (get_put z) by lia. change (16 =? 16 + 1) with false. cbn iota. change (get z (16 + 1)) with (get z 17).
      rewrite G16, G17, Sz. unfold c0, c1 in *. split.
      - rewrite <- (Z.mod_0_l 255) by lia. apply (mod_shift _ _ (plain (drop 2 z) / 255 + k')).
        pose proof (Z.div_mod (plain (drop 2 z)) 255 ltac:(lia)). lia.
      - rewrite <- (Z.mod_0_l 255) by lia.
        apply (mod_shift _ _ (weighted (drop 2 z) / 255 + (size l - 17) * k' + k)).
        pose proof (weighted_balance (weighted (drop 2 z)) (weighted (drop 2 z) / 255) (weighted (drop 2 z) mod 255)
          (plain (drop 2 z) mod 255) (size l - 17) x y k k' (Z.div_mod _ 255 ltac:(lia))) as E.
        replace (size l - 16 - 1) with (size l - 17) in Ek by lia. specialize (E Ek Ek'). lia. }
    assert (get out 16 = x /\ get out 17 = y) as [-> ->]
      by (unfold out; rewrite !get_put by (rewrite ?size_put; lia); now split).
    split_and!; auto; try lia.
    intros i H0 H1 H2. unfold out, z. rewrite !get_put by (rewrite ?size_put; lia).
    repeat (rewrite (proj2 (Z.eqb_neq _ _)) by lia). reflexivity.
  - intros (_ & H0 & _)%verify_spec i v Hi Hv (_ & H1 & _)%verify_spec. rewrite plain_drop_put in H1 by lia.
    pose proof (get_word l i Hb) as Hg. unfold is_u8 in *. lia.
Qed.

End OspfChecksum.
