(* ===== verification/OspfFlooding.v ===== *)
(** * Flooded advertisements

    Instances only move forward, and databases that received the same
    advertisements hold the same instances. *)

From S2P Require Import Prelude Catalog Arena Packet Octets OspfHello OspfLsa OspfLsdb OspfChecksum OspfDatabase.
Import Arena.

Module OspfFlooding.
Import OspfLsa.OspfLsa OspfLsdb.OspfLsdb OspfDatabase.OspfDatabase.

#[local] Existing Instances OspfLsdb.OspfLsdb.t_settable OspfLsdb.OspfLsdb.LsaKey_eq_dec OspfLsdb.OspfLsdb.FloodingScope_eq_dec
  OspfLsdb.OspfLsdb.InstallResult_eq_dec.

(** The sequence number and the checksum the database holds for a key. *)
Definition held (version : Z) (s : t) (k : LsaKey) : option instance :=
  r ← lookup (records_ s) k;
  instance_of <$> lsa_header (bytes r) version.

Lemma held_some version s k i : held version s k = Some i ->
  exists r h, lookup (records_ s) k = Some r /\ lsa_header (bytes r) version = Some h /\ i = instance_of h.
Proof.
  unfold held. destruct (lookup (records_ s) k) as [r|]; cbn [mbind option_bind]; [|discriminate].
  destruct (lsa_header (bytes r) version) as [h|] eqn:E; cbn [fmap option_fmap option_map]; [|discriminate]. intros [= <-]. eauto.
Qed.

Lemma held_record version s k r h :
  lookup (records_ s) k = Some r -> lsa_header (bytes r) version = Some h -> held version s k = Some (instance_of h).
Proof. intros E1 E2. unfold held. rewrite E1. cbn [mbind option_bind]. now rewrite E2. Qed.

Lemma held_none version clock s k : wf version clock s -> held version s k = None -> lookup (records_ s) k = None.
Proof.
  intros [W _ _] H. destruct (lookup (records_ s) k) as [r|] eqn:E; [|done]. exfalso.
  pose proof (lookup_some _ _ _ E) as [Hr _]. rewrite list.Forall_forall in W. destruct (so_header _ _ _ (W r Hr)) as (h & Eh & _).
  rewrite (held_record version s k r h E Eh) in H. discriminate.
Qed.

(** An installation moves its key to the instance it brings, and no other. *)
Lemma held_install version s l now local from memory h k :
  admissible l version = Some h ->
  held version (install s l version now local from memory).2 k
  = if bool_decide (k = lsa_key h) && bool_decide ((install s l version now local from memory).1 = installed)
    then Some (instance_of h) else held version s k.
Proof.
  intros Ha. unfold held. rewrite (install_lookup _ _ _ _ _ _ _ h k Ha). destruct (_ && _); [|done].
  cbn [mbind option_bind replacement bytes]. apply admissible_fields in Ha as (-> & _). reflexivity.
Qed.

(** Why an admissible advertisement is not installed. *)
Lemma install_result s l version now local from h :
  admissible l version = Some h ->
  (install s l version now local from true).1 = match refusal s (lsa_key h) h version now local from with Some r => r | None => installed end.
Proof. intros Ha. rewrite (install_admissible _ _ _ _ _ _ _ h Ha). now destruct (refusal s (lsa_key h) h version now local from). Qed.

(** What is held is not older than what was refused as not newer, and not newer
    than what replaces it. *)
Lemma install_advances version s l now local from memory h i :
  admissible l version = Some h -> held version s (lsa_key h) = Some i ->
  (install s l version now local from memory).1 = installed -> upto i (instance_of h).
Proof.
  intros Ha (r & c & Er & Ec & ->)%held_some. rewrite (install_admissible _ _ _ _ _ _ _ h Ha). unfold refusal.
  change (find s (lsa_key h)) with (lookup (records_ s) (lsa_key h)). rewrite Er, Ec.
  pose proof (compare_instance h (with_age c (age r now))) as Hc. destruct (compare_lsa_headers _ _); try discriminate.
  intros _. exact Hc.
Qed.

Lemma held_assign version s k f k' :
  (forall r, key (f r) = key r \/ key (f r) = k) ->
  (forall r, (instance_of <$> lsa_header (bytes (f r)) version) = (instance_of <$> lsa_header (bytes r) version)) ->
  held version (mk (assign k f (records_ s)) (maximum_records_ s)) k' = held version s k'.
Proof.
  intros Hk Hf. unfold held. cbn [records_]. rewrite lookup_assign by done. case_bool_decide; [|done].
  destruct (lookup (records_ s) k') as [r|]; cbn [fmap option_fmap option_map mbind option_bind]; [|done]. apply Hf.
Qed.

Lemma instance_age version l a b : is_u8 a -> is_u8 b ->
  (instance_of <$> lsa_header (put (put l 0 a) 1 b) version) = (instance_of <$> lsa_header l version).
Proof.
  intros Ha Hb. destruct (Z.leb_spec 20 (size l)) as [Hl|Hl].
  - rewrite header_age by done. now destruct (lsa_header l version).
  - unfold lsa_header, lsa_header_octets. rewrite !size_put, (proj2 (Z.ltb_lt (size l) 20)), orb_true_r by lia. reflexivity.
Qed.

(** No operation but an erasure or a restore moves a key back. *)
Definition keeps (o : op) : Prop := match o with Erase _ | Restore _ _ => False | _ => True end.

(** C16: Whatever a router receives, originates or ages, the instance its database
    holds for an advertisement never gives way to one with a lower sequence number,
    nor to one of the same number with a lower checksum; only an erasure or a
    restored checkpoint removes it. *)
Theorem lsdb_never_regresses version local maximum s before now o k i :
  Run version local maximum s before -> before <= now < 9223372036854775808 -> keeps o -> held version s k = Some i ->
  exists i', held version (apply version local now s o) k = Some i' /\ upto i i'.
Proof.
  intros R Hn Ho Hi. assert (upto i i) as Hr by now right.
  destruct o as [l from memory|k0|k0|k0|k0|saved memory]; cbn [apply]; try contradiction.
  - destruct (admissible l version) as [h|] eqn:Ea.
    + rewrite (held_install _ _ _ _ _ _ _ h k Ea). case_bool_decide as E1; cbn [andb]; [|eauto]. case_bool_decide as E2; [|eauto].
      subst k. eexists. split; [reflexivity|]. eapply install_advances; eassumption.
    + destruct (install_inadmissible s l version now local from memory Ea) as [-> _]. eauto.
  - unfold premature_age. destruct (find s k0) as [r0|] eqn:E0; [|eauto]. case_if; [eauto|]. exists i. split; [|done]. cbn [snd].
    rewrite <- Hi. apply (held_assign version s k0); [now left|]. intros r. apply instance_age; apply u8_range.
  - unfold mark_max_age_flooded. destruct (find s k0); [|eauto]. case_if; [eauto|]. exists i. split; [|done]. cbn [snd].
    rewrite <- Hi. apply (held_assign version s k0); [now left|reflexivity].
  - unfold verify_checksum_at. destruct (find s k0); [|eauto]. case_if; [eauto|]. exists i. split; [|done]. cbn [snd].
    rewrite <- Hi. apply (held_assign version s k0); [now left|reflexivity].
Qed.

(** ** Convergence *)

(** A database fed by its neighbors. *)
Fixpoint receive (version local : Z) (s : t) (arrivals : list (list Z * Z)) : t :=
  match arrivals with
  | [] => s
  | (l, now) :: arrivals => receive version local (install s l version now local true true).2 arrivals
  end.

(** The arrivals keep MinLSArrival. *)
Fixpoint spaced (clock : Z) (arrivals : list (list Z * Z)) : Prop :=
  match arrivals with
  | [] => True
  | (_, now) :: arrivals => clock + Catalog.ospf_min_ls_arrival <= now < two63 /\ spaced now arrivals
  end.

(** The greatest instance of a key among advertisements. *)
Definition greatest (version : Z) (ls : list (list Z)) (k : LsaKey) (o : option instance) : Prop :=
  match o with
  | None => forall l h, l ∈ ls -> admissible l version = Some h -> lsa_key h <> k
  | Some i =>
      (exists l h, l ∈ ls /\ admissible l version = Some h /\ lsa_key h = k /\ i = instance_of h)
      /\ forall l h, l ∈ ls -> admissible l version = Some h -> lsa_key h = k -> upto (instance_of h) i
  end.

Lemma greatest_unique version ls ls' k o o' :
  (forall l, l ∈ ls <-> l ∈ ls') -> greatest version ls k o -> greatest version ls' k o' -> o = o'.
Proof.
  intros He. destruct o as [i|], o' as [i'|]; cbn [greatest].
  - intros [(l & h & Hl & Ha & Hk & ->) Hu] [(l' & h' & Hl' & Ha' & Hk' & ->) Hu']. f_equal.
    apply upto_antisym; [apply (Hu' l h)|apply (Hu l' h')]; auto; now apply He.
  - intros [(l & h & Hl & Ha & Hk & _) _] Hn. exfalso. apply (Hn l h); auto. now apply He.
  - intros Hn [(l & h & Hl & Ha & Hk & _) _]. exfalso. apply (Hn l h); auto. now apply He.
  - done.
Qed.

(** An advertisement that leaves the greatest instance what it was. *)
Lemma greatest_more version ls k o l :
  greatest version ls k o ->
  (forall h, admissible l version = Some h -> lsa_key h = k -> exists i, o = Some i /\ upto (instance_of h) i) ->
  greatest version (l :: ls) k o.
Proof.
  intros Hg Hl. destruct o as [i|]; cbn [greatest] in *.
  - destruct Hg as [(l0 & h0 & H0 & H1 & H2 & H3) Hu]. split; [exists l0, h0; split_and!; auto; now constructor|].
    intros l' h [->|Hl']%elem_of_cons Ha Hk; [|eauto]. destruct (Hl h Ha Hk) as (i' & [= <-] & H). exact H.
  - intros l' h [->|Hl']%elem_of_cons Ha; [|eauto]. intros Hk. destruct (Hl h Ha Hk) as (i' & [=] & _).
Qed.

Section Received.
Context (version local : Z) (K : list LsaKey).

(** Advertisements of other routers, over few enough keys. *)
Definition foreign (l : list Z) : Prop :=
  Forall is_u8 l /\ forall h, admissible l version = Some h -> advertising_router h <> local /\ lsa_key h ∈ K.

Lemma room s clock k :
  wf version clock s -> (forall r, r ∈ records_ s -> key r ∈ K) -> size K <= maximum_records_ s -> k ∈ K ->
  lookup (records_ s) k = None -> size (records_ s) <> maximum_records_ s.
Proof.
  intros [_ W _] Hin HK Hk El. assert (k :: (key <$> records_ s) ⊆+ K) as H%submseteq_length.
  { apply NoDup_submseteq.
    - apply list.NoDup_cons. split; [|exact W]. intros (r & -> & Hr)%list_elem_of_fmap. exact (lookup_none _ _ El r Hr eq_refl).
    - intros x [->|(r & -> & Hr)%list_elem_of_fmap]%elem_of_cons; auto. }
  cbn [length] in H. rewrite length_fmap in H. unfold size in *. lia.
Qed.

(** One arrival. *)
Lemma install_greatest s clock ls l now :
  wf version clock s -> (forall r, r ∈ records_ s -> key r ∈ K) -> size K <= maximum_records_ s ->
  (forall k, greatest version ls k (held version s k)) -> foreign l -> clock + Catalog.ospf_min_ls_arrival <= now ->
  let s' := (install s l version now local true true).2 in
  (forall r, r ∈ records_ s' -> key r ∈ K) /\ forall k, greatest version (l :: ls) k (held version s' k).
Proof.
  intros W HK Hmax Hg [Hb Hf] Hn s'. unfold s'. clear s'. destruct (admissible l version) as [h|] eqn:Ea.
  2:{ destruct (install_inadmissible s l version now local true true Ea) as [-> _]. split; [exact HK|]. intros k.
      apply greatest_more; [apply Hg|]. intros h Ha. congruence. }
  destruct (Hf h eq_refl) as [Hl Hk]. split.
  { intros r Hr. destruct (install_keys _ _ _ _ _ _ _ h r Ea Hr) as [| ->]; auto. }
  intros k. rewrite (held_install _ _ _ _ _ _ _ h k Ea), (install_result _ _ _ _ _ _ h Ea).
  case_bool_decide as Ek; cbn [andb].
  2:{ apply greatest_more; [apply Hg|]. intros h' Ha Hk'. exfalso. congruence. }
  subst k. specialize (Hg (lsa_key h)). unfold refusal. change (find s (lsa_key h)) with (lookup (records_ s) (lsa_key h)).
  rewrite (proj2 (Z.eqb_neq (advertising_router h) local)), !andb_false_r by done.
  destruct (lookup (records_ s) (lsa_key h)) as [c|] eqn:El.
  - pose proof (lookup_some _ _ _ El) as [Hc _]. pose proof (wf_records _ _ _ W) as Wr. rewrite list.Forall_forall in Wr.
    specialize (Wr c Hc). destruct (so_header _ _ _ Wr) as (ch & Ech & _). rewrite Ech.
    rewrite (held_record version s _ c ch El Ech) in *.
    pose proof (compare_instance h (with_age ch (age c now))) as Hcmp. change (instance_of (with_age ch (age c now))) with (instance_of ch) in Hcmp.
    destruct (compare_lsa_headers _ _); cbn iota.
    + rewrite bool_decide_eq_false_2 by done. apply greatest_more; [exact Hg|]. intros h' Ha _. assert (h' = h) as -> by congruence. eauto.
    + rewrite bool_decide_eq_false_2 by done. apply greatest_more; [exact Hg|]. intros h' Ha _. assert (h' = h) as -> by congruence.
      exists (instance_of ch). split; [done|]. right. exact Hcmp.
    + pose proof (so_installed _ _ _ Wr) as Hi. rewrite (proj2 (Z.ltb_ge (now - installed_at c) _)), andb_false_r by lia.
      rewrite bool_decide_eq_true_2 by done. cbn [greatest]. split.
      * exists l, h. split_and!; auto. constructor.
      * destruct Hg as [_ Hu]. intros l' h' [->|Hl']%elem_of_cons Ha Hk'; [assert (h' = h) as -> by congruence; now right|].
        eapply upto_trans; [now apply (Hu l' h')|exact Hcmp].
  - pose proof (room s clock (lsa_key h) W HK Hmax Hk El) as Hr. rewrite (proj2 (Z.eqb_neq _ _) Hr).
    rewrite bool_decide_eq_true_2 by done. assert (held version s (lsa_key h) = None) as Eh by (unfold held; now rewrite El).
    rewrite Eh in Hg. cbn [greatest] in *. split.
    + exists l, h. split_and!; auto. constructor.
    + intros l' h' [->|Hl']%elem_of_cons Ha Hk'; [assert (h' = h) as -> by congruence; now right|]. exfalso. now apply (Hg l' h').
Qed.

Lemma install_maximum s l now from memory : maximum_records_ (install s l version now local from memory).2 = maximum_records_ s.
Proof.
  destruct (admissible l version) as [h|] eqn:Ea; [|now destruct (install_inadmissible s l version now local from memory Ea) as [-> _]].
  rewrite (install_admissible _ _ _ _ _ _ _ h Ea). destruct (refusal _ _ _ _ _ _ _); [done|]. now destruct memory.
Qed.

Lemma receive_greatest arrivals : forall s clock ls,
  wf version clock s -> 0 <= clock -> (forall r, r ∈ records_ s -> key r ∈ K) -> size K <= maximum_records_ s ->
  (forall k, greatest version ls k (held version s k)) -> Forall foreign arrivals.*1 -> spaced clock arrivals ->
  forall k, greatest version (rev arrivals.*1 ++ ls) k (held version (receive version local s arrivals) k).
Proof.
  induction arrivals as [|[l now] arrivals IH]; intros s clock ls W H0 HK Hmax Hg Hf Hs k; [apply Hg|].
  cbn [fmap list_fmap fst] in Hf. apply list.Forall_cons in Hf as [Hl Hf]. destruct Hs as [Hn Hs].
  assert (0 < Catalog.ospf_min_ls_arrival) as Hpos by done.
  destruct (install_greatest s clock ls l now W HK Hmax Hg Hl ltac:(lia)) as [HK' Hg'].
  cbn [receive fmap list_fmap rev fst]. rewrite <- app_assoc. apply (IH _ now (l :: ls)); auto; try lia.
  - apply install_wf; [apply Hl|lia|]. apply (wf_later version clock); auto; lia.
  - now rewrite install_maximum.
Qed.
End Received.

(** C5: Flooding converges: two routers whose databases were empty and that have
    received the same advertisements of other routers, in any order, any number of
    times and at any ages, each arrival at least MinLSArrival after the one before,
    hold the same instance of every advertisement, namely the greatest received. *)
Theorem flooding_converges version K local maximum arrivals local' maximum' arrivals' :
  size K <= maximum -> size K <= maximum' ->
  Forall (foreign version local K) arrivals.*1 -> Forall (foreign version local' K) arrivals'.*1 ->
  spaced 0 arrivals -> spaced 0 arrivals' -> (forall l, l ∈ arrivals.*1 <-> l ∈ arrivals'.*1) ->
  forall k,
    held version (receive version local (construct maximum) arrivals) k
    = held version (receive version local' (construct maximum') arrivals') k
    /\ greatest version arrivals.*1 k (held version (receive version local (construct maximum) arrivals) k).
Proof.
  intros Hm Hm' Hf Hf' Hs Hs' He k.
  assert (forall local maximum arrivals, size K <= maximum -> Forall (foreign version local K) arrivals.*1 -> spaced 0 arrivals ->
    greatest version (rev arrivals.*1 ++ []) k (held version (receive version local (construct maximum) arrivals) k)) as H.
  { intros lo ma ar H1 H2 H3. apply (receive_greatest version lo K ar (construct ma) 0 []); auto; try lia.
    - constructor; cbn; [constructor|apply list.NoDup_nil; exact I|unfold size in *; cbn; lia].
    - intros r Hr. inversion Hr.
    - intros k' l h Hl. inversion Hl. }
  pose proof (H local maximum arrivals Hm Hf Hs) as G. pose proof (H local' maximum' arrivals' Hm' Hf' Hs') as G'.
  rewrite app_nil_r in G, G'.
  assert (forall ls : list (list Z), forall l, l ∈ rev ls <-> l ∈ ls) as Hrev
    by (intros ls l; rewrite !list_elem_of_In; symmetry; apply in_rev).
  split; [eapply (greatest_unique version _ _ k); [|exact G|exact G']; intros l; now rewrite !Hrev|].
  assert (forall o, greatest version (rev arrivals.*1) k o -> greatest version arrivals.*1 k o) as Hg.
  { intros [i|]; cbn [greatest].
    - intros [(l & h & Hl & Hx) Hu]. split; [exists l, h; split; [now apply Hrev|exact Hx]|].
      intros l' h' Hl'. apply Hu. now apply Hrev.
    - intros Hx l h Hl. apply Hx. now apply Hrev. }
  apply Hg, G.
Qed.

End OspfFlooding.
