(* ===== verification/OspfThrottle.v ===== *)
(** * Scheduling origination and route calculation (core/src/ospf/ospf_process_database.cpp)

    The adaptive delays before a router originates its advertisements again and
    before it computes its routes again.  Time points and durations are nanoseconds;
    a default time point is zero. *)

From S2P Require Import Prelude Catalog.

Module OspfThrottle.

Record t := mk {
  last_local_origination_ : Z;
  local_origination_deadline_ : Z;
  spf_deadline_ : Z;
  last_spf_started_ : Z;
  current_lsa_delay_ : Z;
  current_spf_delay_ : Z;
  lsa_initial_wait_ : Z;
  lsa_second_wait_ : Z;
  lsa_maximum_wait_ : Z;
  spf_initial_wait_ : Z;
  spf_second_wait_ : Z;
  spf_maximum_wait_ : Z
}.
#[export] Instance t_settable : Settable t := fun s =>
  mk (last_local_origination_ s) (local_origination_deadline_ s) (spf_deadline_ s) (last_spf_started_ s)
    (current_lsa_delay_ s) (current_spf_delay_ s) (lsa_initial_wait_ s) (lsa_second_wait_ s) (lsa_maximum_wait_ s)
    (spf_initial_wait_ s) (spf_second_wait_ s) (spf_maximum_wait_ s).

(** The members' default values. *)
Definition construct : t :=
  mk 0 0 0 0 Catalog.ospf_lsa_initial_wait Catalog.ospf_spf_initial_wait Catalog.ospf_lsa_initial_wait
    Catalog.ospf_lsa_second_wait Catalog.ospf_lsa_maximum_wait Catalog.ospf_spf_initial_wait Catalog.ospf_spf_second_wait
    Catalog.ospf_spf_maximum_wait.

(** A deadline gives way to an earlier one only. *)
Definition retain (deadline requested : Z) : Z :=
  if (deadline =? 0) || (requested <? deadline) then requested else deadline.

(** When the origination is requested, and the delay after it. *)
Definition origination_request (s : t) (now : Z) : Z * Z :=
  if negb (last_local_origination_ s =? 0) then
    let minimum := last_local_origination_ s + Catalog.ospf_min_lsa_interval in
    if current_lsa_delay_ s <=? now - last_local_origination_ s then (Z.max now minimum, lsa_initial_wait_ s)
    else
      (Z.max minimum (last_local_origination_ s + current_lsa_delay_ s),
       if current_lsa_delay_ s =? lsa_initial_wait_ s then lsa_second_wait_ s
       else Z.min (current_lsa_delay_ s * 2) (lsa_maximum_wait_ s))
  else (now, current_lsa_delay_ s).

Definition schedule_local_origination (s : t) (now : Z) : t :=
  let (requested, delay) := origination_request s now in
  s <| current_lsa_delay_ := delay |> <| local_origination_deadline_ := retain (local_origination_deadline_ s) requested |>.

Definition schedule_spf (s : t) (now : Z) : t :=
  let delay :=
    if (last_spf_started_ s =? 0) || (spf_maximum_wait_ s <=? now - last_spf_started_ s) then spf_initial_wait_ s
    else if current_spf_delay_ s =? spf_initial_wait_ s then spf_second_wait_ s
    else Z.min (current_spf_delay_ s * 2) (spf_maximum_wait_ s) in
  s <| current_spf_delay_ := delay |> <| spf_deadline_ := retain (spf_deadline_ s) (now + delay) |>.

End OspfThrottle.
