(* ===== verification/OspfProcess.v ===== *)
(** * An adjacency of the OSPF process (core/src/ospf/ospf_process*.cpp)

    How [InstanceProcess] negotiates with one neighbor: what it sends and how it
    answers Database Descriptions, requests, updates and acknowledgments.  A handler
    works on the process, the interface's owner and the neighbor's exchange, which
    the source holds by reference, as one focus.  Not modelled here: the envelope
    (header, authentication, addresses), of which [envelope] says whether it could
    be encoded, graceful restart, and the other interfaces. *)

From S2P Require Import Prelude Catalog Arena Octets Packet OspfFsm OspfHello OspfInterface Ipv6Packet OspfLsa OspfLsdb OspfExchange OspfThrottle Ordering.
Import Arena.

Module OspfProcess.
Import OspfFsm OspfHello.OspfHello OspfLsa.OspfLsa.

Module Db := OspfLsdb.OspfLsdb.
Module Ex := OspfExchange.OspfExchange.
Module If_ := OspfInterface.OspfInterface.
#[local] Existing Instances Db.FloodingScope_eq_dec Db.LsaKey_eq_dec Db.InstallResult_eq_dec Db.t_settable Ex.t_settable
  OspfInterface.OspfInterface.t_settable OspfThrottle.OspfThrottle.t_settable.

Definition version_two_header_octets : Z := 24.
Definition version_three_header_octets : Z := 16.
Definition ipv4_minimum_header_octets : Z := 20.
Definition ipv6_header_octets : Z := 40.

Inductive ReceiveStatus :=
| accepted | ignored | interface_not_found | malformed | version_mismatch | checksum_failure | authentication_failure
| rejected_hello | neighbor_not_found | invalid_neighbor_state | resource_exhausted.
#[export] Instance ReceiveStatus_eq_dec : EqDecision ReceiveStatus.
Proof. solve_decision. Defined.

(** A default deadline is zero. *)
Record NeighborExchange := mkNeighborExchange {
  database : Ex.t;
  n_router_id : Z;
  dd_sequence : Z;
  summary_cursor : Z;
  request_cursor : Z;
  update_cursor : Z;
  dd_retransmit_deadline : Z;
  request_retransmit_deadline : Z;
  update_retransmit_deadline : Z;
  local_master : bool;
  negotiation_complete : bool;
  pending_database_description : bool;
  pending_request : bool;
  pending_update : bool;
  pending_acknowledgment : bool;
  peer_more : bool;
  sent_more : bool;
  complete_after_reply : bool
}.
#[export] Instance NeighborExchange_settable : Settable NeighborExchange := fun n =>
  mkNeighborExchange (database n) (n_router_id n) (dd_sequence n) (summary_cursor n) (request_cursor n) (update_cursor n)
    (dd_retransmit_deadline n) (request_retransmit_deadline n) (update_retransmit_deadline n) (local_master n)
    (negotiation_complete n) (pending_database_description n) (pending_request n) (pending_update n)
    (pending_acknowledgment n) (peer_more n) (sent_more n) (complete_after_reply n).

Definition new_exchange (id maximum_lsas : Z) : NeighborExchange :=
  mkNeighborExchange (Ex.construct maximum_lsas maximum_lsas maximum_lsas maximum_lsas) id 0 0 0 0 0 0 0
    false false false false false false false false false.

(** Another adjacency of the process: whether it is on the same interface, the
    network type of its interface, and its state there, if the interface has it. *)
Record Other := mkOther {
  o_here : bool;
  o_network_type : NetworkType.t;
  o_state : option NeighborState.t;
  o_exchange : NeighborExchange
}.

(** A received advertisement of this router's own, kept until it originates again. *)
Record PendingFightBack := mkFightBack { f_key : Db.LsaKey; f_bytes : list Z }.

(** The process, the owner of the interface, and the neighbor. *)
Record t := mk {
  router_id_ : Z;
  version_ : Z;
  next_dd_sequence_ : Z;
  database_ : Db.t;
  throttle_ : OspfThrottle.OspfThrottle.t;
  runtime : If_.t;
  retransmit_interval_seconds : Z;
  transmit_delay_seconds : Z;
  neighbor : NeighborExchange;
  others_ : list Other;
  pending_fight_backs_ : list PendingFightBack;
  maximum_lsas_ : Z
}.
#[export] Instance t_settable : Settable t := fun s =>
  mk (router_id_ s) (version_ s) (next_dd_sequence_ s) (database_ s) (throttle_ s) (runtime s)
    (retransmit_interval_seconds s) (transmit_delay_seconds s) (neighbor s) (others_ s) (pending_fight_backs_ s)
    (maximum_lsas_ s).

Definition protocol (s : t) : If_.InterfaceConfiguration := If_.configuration_ (runtime s).

Definition schedule_local_origination (s : t) (now : Z) : t :=
  s <| throttle_ := OspfThrottle.OspfThrottle.schedule_local_origination (throttle_ s) now |>.
Definition schedule_spf (s : t) (now : Z) : t :=
  s <| throttle_ := OspfThrottle.OspfThrottle.schedule_spf (throttle_ s) now |>.

(** The state of the neighbor in the interface's runtime. *)
Definition state (s : t) : option NeighborState.t :=
  (fun f => If_.n_state f.2) <$> If_.find_neighbor (n_router_id (neighbor s)) (If_.neighbors_ (runtime s)).

(** [owner.runtime.apply_neighbor_event]; the runtime reads the clock itself. *)
Definition apply_neighbor_event (s : t) (e : NeighborEvent.t) (requests_pending : bool) (clock : Z)
    : option (NeighborState.t * Z) * t :=
  let '(transition, r) := If_.apply_neighbor_event (runtime s) (n_router_id (neighbor s)) e requests_pending clock in
  (transition, s <| runtime := r |>).

(** ** The actions of a neighbor transition *)

Inductive Applied := failed | applied | deleted.

Definition clear_adjacency (n : NeighborExchange) : NeighborExchange :=
  n <| database := Ex.reset (database n) |> <| pending_database_description := false |> <| pending_request := false |>
    <| pending_update := false |> <| pending_acknowledgment := false |> <| dd_retransmit_deadline := 0 |>
    <| request_retransmit_deadline := 0 |> <| update_retransmit_deadline := 0 |>.

Definition begin_exchange (n : NeighborExchange) (ex : Ex.t) (router_id sequence now : Z) : NeighborExchange :=
  mkNeighborExchange ex (n_router_id n) sequence 0 0 0 now 0 0 (n_router_id n <? router_id) false true false false false
    true true false.

Section Sorted.
Context {sorting : Sorting}.

(** [deleted]: the exchange row of the neighbor is erased. *)
Definition apply_neighbor_actions (s : t) (actions now : Z) (memory : bool) : Applied * t :=
  let s :=
    if has_action actions NeighborAction.clear_adjacency
    then schedule_local_origination (s <| neighbor := clear_adjacency (neighbor s) |>) now else s in
  if has_action actions NeighborAction.delete_neighbor then
    let '(erased, r) := If_.erase_neighbor (runtime s) (n_router_id (neighbor s)) in
    (if erased then deleted else failed, s <| runtime := r |>)
  else if negb (has_action actions NeighborAction.begin_database_exchange) then (applied, s)
  else
    let '(began, ex) := Ex.begin (database (neighbor s)) (Db.records_ (database_ s)) (version_ s) now
                          (negb (same (If_.network_type (protocol s)) NetworkType.virtual_link)) memory in
    if negb began then (failed, s)
    else
      let sequence := u32 (next_dd_sequence_ s + 1) in
      (applied, s <| next_dd_sequence_ := sequence |>
                  <| neighbor := begin_exchange (neighbor s) ex (router_id_ s) sequence now |>).

(** ** Database Descriptions *)

(** The header array: each summary written in its place. *)
Definition header_array (headers : list LsaHeaderView) (version : Z) : list Z :=
  flat_map (fun h => write_lsa_header (replicate 20 0) h version) headers.

Definition header_capacity (mtu version : Z) : option Z :=
  let ospf_header := if version =? version_two then version_two_header_octets else version_three_header_octets in
  let ip_header := if version =? version_two then ipv4_minimum_header_octets else ipv6_header_octets in
  let dd_fixed := if version =? version_two then 8 else 12 in
  if mtu <=? ip_header + ospf_header + dd_fixed then None
  else Some ((mtu - ip_header - ospf_header - dd_fixed) / lsa_header_octets).

(** The slave's ExchangeDone, once its last response is out. *)
Definition complete_reply (s : t) (now clock : Z) : bool * t :=
  let '(transition, s) := apply_neighbor_event s NeighborEvent.exchange_done
                            (negb (size (Ex.requests_ (database (neighbor s))) =? 0)) clock in
  match transition with
  | None => (false, s)
  | Some (next, _) =>
      let loading := same next NeighborState.loading in
      let n := (neighbor s) <| complete_after_reply := false |> <| dd_retransmit_deadline := 0 |>
                 <| pending_request := loading |> in
      let n := if loading then n <| request_retransmit_deadline := now |> else n in
      let s := s <| neighbor := n |> in
      (true, if same next NeighborState.full then schedule_local_origination s now else s)
  end.

(** The body that was sent. *)
Definition emit_database_description (s : t) (envelope : bool) (now clock : Z) : option (list Z) * t :=
  let n := neighbor s in
  let summaries := Ex.summaries_ (database n) in
  let mtu := If_.interface_mtu (protocol s) in
  match header_capacity mtu (version_ s) with
  | None => (None, s)
  | Some header_capacity =>
      let initial := negb (negotiation_complete n) in
      let remaining := size summaries - summary_cursor n in
      let count := if initial then 0 else Z.min remaining header_capacity in
      let headers := header_array (take (Z.to_nat count) (drop (Z.to_nat (summary_cursor n)) summaries)) (version_ s) in
      let more := initial || (summary_cursor n + count <? size summaries) in
      match encode_database_description_payload Ipv6Packet.Ipv6.maximum_frame_octets (version_ s) mtu
              (If_.options_ (protocol s)) (dd_sequence n) initial more (initial || local_master n) headers false with
      | None => (None, s)
      | Some body =>
          if negb envelope then (None, s)
          else
            let n := if initial then n else n <| summary_cursor := summary_cursor n + count |> in
            let n := n <| sent_more := more |> <| pending_database_description := false |>
                       <| dd_retransmit_deadline := now + Catalog.seconds (retransmit_interval_seconds s) |> in
            let s := s <| neighbor := n |> in
            if negb initial && negb (local_master n) && complete_after_reply n && negb more then
              let '(ok, s) := complete_reply s now clock in (if ok then Some body else None, s)
            else (Some body, s)
      end
  end.

(** SeqNumberMismatch, and the exchange begins anew. *)
Definition sequence_mismatch (s : t) (now clock : Z) (memory : bool) : ReceiveStatus * t :=
  let '(transition, s) := apply_neighbor_event s NeighborEvent.sequence_number_mismatch false clock in
  match transition with
  | None => (resource_exhausted, s)
  | Some (_, actions) =>
      match apply_neighbor_actions s actions now memory with
      | (failed, s) => (resource_exhausted, s)
      | (_, s) => (accepted, s)
      end
  end.

(** In ExStart *)
Definition negotiate (s : t) (sender : Z) (d : DatabaseDescriptionView) (now clock : Z) (memory : bool) : ReceiveStatus * t :=
  let n := neighbor s in
  let proposal := init d && more d && master d && (size (lsa_headers d) =? 0) in
  let become_slave := proposal && (router_id_ s <? sender) in
  let remain_master := negb (init d) && negb (master d) && (dd_sequence_number d =? dd_sequence n) && (sender <? router_id_ s) in
  if proposal && (sender <? router_id_ s) then (accepted, s)
  else if negb become_slave && negb remain_master then (invalid_neighbor_state, s)
  else
    let n := n <| local_master := remain_master |> in
    let n := if become_slave then n <| dd_sequence := dd_sequence_number d |> else n in
    let n := n <| negotiation_complete := true |> <| peer_more := more d |> in
    let '(transition, s) := apply_neighbor_event (s <| neighbor := n |>) NeighborEvent.negotiation_done false clock in
    match transition with
    | None => (invalid_neighbor_state, s)
    | Some (next, _) =>
        if negb (same next NeighborState.exchange) then (invalid_neighbor_state, s)
        else
          let '(processed, ex) := Ex.process_database_description (database n) d (database_ s) now memory in
          if negb processed then (resource_exhausted, s)
          else
            let n := n <| database := ex |> in
            let n := if remain_master then n <| dd_sequence := u32 (dd_sequence n + 1) |> else n in
            (accepted, s <| neighbor := n <| pending_database_description := true |> <| dd_retransmit_deadline := now |> |>)
    end.

(** In Exchange *)
Definition continue_exchange (s : t) (d : DatabaseDescriptionView) (now clock : Z) (memory : bool) : ReceiveStatus * t :=
  let n := neighbor s in
  if init d || negb (Bool.eqb (master d) (negb (local_master n)))
     || (if local_master n then negb (dd_sequence_number d =? dd_sequence n) else dd_sequence_number d <? dd_sequence n)
  then sequence_mismatch s now clock memory
  else
    let '(processed, ex) := Ex.process_database_description (database n) d (database_ s) now memory in
    if negb processed then (resource_exhausted, s)
    else
      let n := n <| database := ex |> <| peer_more := more d |> in
      let finish (s : t) :=
        (accepted, s <| neighbor := (neighbor s) <| dd_retransmit_deadline :=
                          if pending_database_description (neighbor s) then now else 0 |> |>) in
      if local_master n then
        if negb (sent_more n) && negb (peer_more n) then
          let '(transition, s) := apply_neighbor_event (s <| neighbor := n |>) NeighborEvent.exchange_done
                                    (negb (size (Ex.requests_ ex) =? 0)) clock in
          match transition with
          | None => (invalid_neighbor_state, s)
          | Some (next, _) =>
              let s := s <| neighbor := n <| pending_database_description := false |>
                              <| pending_request := same next NeighborState.loading |>
                              <| request_retransmit_deadline := now |> |> in
              finish (if same next NeighborState.full then schedule_local_origination s now else s)
          end
        else finish (s <| neighbor := n <| dd_sequence := u32 (dd_sequence n + 1) |> <| pending_database_description := true |> |>)
      else
        finish (s <| neighbor := n <| dd_sequence := dd_sequence_number d |> <| pending_database_description := true |>
                                   <| complete_after_reply := negb (more d) |> |>).

Definition receive_database_description (s : t) (current : NeighborState.t) (decoded : PacketView) (now clock : Z) (memory : bool)
    : ReceiveStatus * t :=
  if negb (NeighborState.at_least current NeighborState.exstart) then (ignored, s)
  else
    match parse_database_description decoded with
    | None => (malformed, s)
    | Some d =>
        if If_.interface_mtu (protocol s) <? dd_interface_mtu d then (invalid_neighbor_state, s)
        else if same current NeighborState.loading || same current NeighborState.full then
          if negb (init d) && Bool.eqb (master d) (negb (local_master (neighbor s)))
             && (dd_sequence_number d =? dd_sequence (neighbor s))
          then (accepted, s)
          else sequence_mismatch s now clock memory
        else if same current NeighborState.exstart then negotiate s (p_router_id decoded) d now clock memory
        else if negb (same current NeighborState.exchange) then (invalid_neighbor_state, s)
        else continue_exchange s d now clock memory
    end.

End Sorted.
End OspfProcess.
