(* ===== verification/OspfUpdate.v ===== *)
(** * Requests, updates and acknowledgments (core/src/ospf/ospf_process*.cpp)

    The other packets of an adjacency: answering requests, accepting updates and
    flooding them on, acknowledging, and the order in which a turn sends what is
    pending.  The process does not help restarting neighbors
    ([graceful_restart_helper_] is false). *)

From S2P Require Import Prelude Catalog Arena Octets Packet OspfFsm OspfHello OspfInterface Ipv6Packet OspfLsa OspfLsdb OspfExchange OspfThrottle Ordering OspfProcess.
Import Arena.

Module OspfUpdate.
Import OspfFsm OspfHello.OspfHello OspfLsa.OspfLsa OspfProcess.OspfProcess.

#[local] Existing Instances Db.FloodingScope_eq_dec Db.LsaKey_eq_dec Db.InstallResult_eq_dec Db.LsaRecency_eq_dec Db.t_settable
  Ex.t_settable OspfInterface.OspfInterface.t_settable OspfProcess.t_settable NeighborExchange_settable.

Definition put_neighbor (s : t) (n : NeighborExchange) : t := s <| neighbor := n |>.

(** ** Requests *)

Definition request_identity (entry : LinkStateRequestEntry) (version : Z) : LsaHeaderView :=
  mkHeader (r_link_state_id entry) (r_advertising_router entry) 0 0 (u16 (r_link_state_type entry)) 0 0 0 version.

(** The entries from [index] on, [fuel] of them. *)
Fixpoint answer_requests (fuel : nat) (s : t) (request : LinkStateRequestView) (index now clock : Z) (memory : bool)
    : ReceiveStatus * t :=
  match fuel with
  | O =>
      (accepted, put_neighbor s ((neighbor s) <| pending_update := true |> <| update_retransmit_deadline := now |>))
  | S fuel =>
      match request_entry request index with
      | None => (malformed, s)
      | Some entry =>
          match Db.find (database_ s) (Db.lsa_key (request_identity entry (version_ s))) with
          | None =>
              let '(transition, s) := apply_neighbor_event s NeighborEvent.bad_link_state_request false clock in
              let begins := match transition with
                            | Some (_, actions) => has_action actions NeighborAction.begin_database_exchange
                            | None => false
                            end in
              (invalid_neighbor_state,
               if begins then put_neighbor s ((neighbor s) <| pending_database_description := true |>) else s)
          | Some record =>
              let '(queued, ex) := Ex.queue_retransmission (database (neighbor s)) record (version_ s) memory in
              if negb queued then (resource_exhausted, s)
              else answer_requests fuel (put_neighbor s ((neighbor s) <| database := ex |>)) request (index + 1) now clock memory
          end
      end
  end.

Definition receive_link_state_request (s : t) (decoded : PacketView) (now clock : Z) (memory : bool) : ReceiveStatus * t :=
  match parse_link_state_request decoded with
  | None => (malformed, s)
  | Some request => answer_requests (Z.to_nat (size (entries request) / 12)) s request 0 now clock memory
  end.

(** ** Updates *)

Definition queue_fight_back (s : t) (encoded : list Z) (header : LsaHeaderView) (now : Z) (memory : bool) : bool * t :=
  let key := Db.lsa_key header in
  let keep l := (true, schedule_local_origination (s <| pending_fight_backs_ := l |>) now) in
  match list_find (fun p => f_key p = key) (pending_fight_backs_ s) with
  | Some (i, found) =>
      let newer := match lsa_header (f_bytes found) (version_ s) with
                   | Some queued => bool_decide (Db.compare_lsa_headers header queued = Db.newer)
                   | None => true
                   end in
      if negb newer then (true, s)
      else if negb memory then (false, s)
      else keep (<[i := mkFightBack key encoded]> (pending_fight_backs_ s))
  | None =>
      if (size (pending_fight_backs_ s) =? maximum_lsas_ s) || negb memory then (false, s)
      else keep (pending_fight_backs_ s ++ [mkFightBack key encoded])
  end.

Definition grace_identity (header : LsaHeaderView) (version : Z) : bool :=
  if version =? version_two then
    (lsa_type header =? version_two_link_opaque_type)
    && (Z.shiftr (link_state_id header) 24 =? version_two_grace_opaque_type)
  else lsa_type header =? version_three_grace_type.

(** The flooding to the other adjacencies; [false] when a list is full. *)
Fixpoint flood_others (others : list Other) (record : Db.LsaRecord) (version now : Z) (memory : bool) : bool * list Other :=
  match others with
  | [] => (true, [])
  | o :: others =>
      let skip := let '(ok, others) := flood_others others record version now memory in (ok, o :: others) in
      if bool_decide (Db.k_scope (Db.key record) = Db.link) && negb (o_here o) then skip
      else if bool_decide (Db.k_scope (Db.key record) = Db.autonomous_system)
              && same (o_network_type o) NetworkType.virtual_link then skip
      else if negb (match o_state o with Some state => NeighborState.at_least state NeighborState.exchange | None => false end)
      then skip
      else
        let '(queued, ex) := Ex.queue_retransmission (database (o_exchange o)) record version memory in
        if negb queued then (false, o :: others)
        else
          let n := (o_exchange o) <| database := ex |> <| pending_update := true |> <| update_retransmit_deadline := now |> in
          let '(ok, others) := flood_others others record version now memory in
          (ok, mkOther (o_here o) (o_network_type o) (o_state o) n :: others)
  end.

Definition flood (s : t) (header : LsaHeaderView) (now : Z) (memory : bool) : ReceiveStatus * t :=
  match Db.find (database_ s) (Db.lsa_key header) with
  | None => (malformed, s)
  | Some record =>
      let '(ok, others) := flood_others (others_ s) record (version_ s) now memory in
      let s := s <| others_ := others |> in
      if ok then (accepted, schedule_spf s now) else (resource_exhausted, s)
  end.

(** What is acknowledged of an installed, identical or refused advertisement. *)
Definition acknowledge_update (s : t) (header : LsaHeaderView) (result : Db.InstallResult) (memory : bool) : bool * t :=
  let n := (neighbor s) <| database := Ex.received_lsa (database (neighbor s)) header result |> in
  let '(implied, ex) :=
    if bool_decide (result = Db.identical_) then Ex.acknowledge (database n) header else (false, database n) in
  let n := n <| database := ex |> in
  if negb implied then
    let '(queued, ex) := Ex.queue_delayed_acknowledgment (database n) header memory in
    if negb queued then (false, put_neighbor s n)
    else (true, put_neighbor s (n <| database := ex |> <| pending_acknowledgment := true |>))
  else if size (Ex.retransmissions_ (database n)) =? 0 then
    (true, put_neighbor s (n <| pending_update := false |> <| update_retransmit_deadline := 0 |>))
  else (true, put_neighbor s n).

(** One advertisement of an update; [accepted] continues with the next. *)
Definition receive_lsa (s : t) (sender : Z) (encoded : list Z) (now : Z) (memory : bool) : ReceiveStatus * t :=
  match lsa_header encoded (version_ s) with
  | None => (malformed, s)
  | Some header =>
      if grace_identity header (version_ s)
         && (negb (bool_decide (is_Some (parse_grace_lsa encoded (version_ s)))) || negb (advertising_router header =? sender))
      then (malformed, s)
      else if same (If_.network_type (protocol s)) NetworkType.virtual_link
              && bool_decide (Db.k_scope (Db.lsa_key header) = Db.autonomous_system)
      then (accepted, s)
      else
        let '(result, db) := Db.install (database_ s) encoded (version_ s) now (router_id_ s) true memory in
        let s := s <| database_ := db |> in
        match result with
        | Db.malformed => (malformed, s)
        | Db.capacity_exhausted => (resource_exhausted, s)
        | Db.ignored => (accepted, s)
        | _ =>
            let '(fought, s) := if bool_decide (result = Db.fight_back_required)
                                then queue_fight_back s encoded header now memory else (true, s) in
            if negb fought then (resource_exhausted, s)
            else
              let '(acknowledged, s) := acknowledge_update s header result memory in
              if negb acknowledged then (resource_exhausted, s)
              else if bool_decide (result = Db.installed) then flood s header now memory
              else (accepted, s)
        end
  end.

(** Once nothing is requested any more. *)
Definition finish_loading (s : t) (now clock : Z) : ReceiveStatus * t :=
  if bool_decide (state s = Some NeighborState.loading) && (size (Ex.requests_ (database (neighbor s))) =? 0) then
    let '(transition, s) := apply_neighbor_event s NeighborEvent.loading_done false clock in
    match transition with
    | Some (NeighborState.full, _) =>
        (accepted, schedule_local_origination (put_neighbor s ((neighbor s) <| pending_request := false |>)) now)
    | _ => (invalid_neighbor_state, s)
    end
  else (accepted, s).

Fixpoint receive_lsas (fuel : nat) (s : t) (sender : Z) (update : LinkStateUpdateView) (index now clock : Z) (memory : bool)
    : ReceiveStatus * t :=
  match fuel with
  | O => finish_loading s now clock
  | S fuel =>
      match update_lsa update index with
      | None => (malformed, s)
      | Some encoded =>
          match receive_lsa s sender encoded now memory with
          | (accepted, s) => receive_lsas fuel s sender update (index + 1) now clock memory
          | refused => refused
          end
      end
  end.

Definition receive_link_state_update (s : t) (decoded : PacketView) (now clock : Z) (memory : bool) : ReceiveStatus * t :=
  match parse_link_state_update decoded with
  | None => (malformed, s)
  | Some update =>
      receive_lsas (Z.to_nat (advertisement_count update)) s (p_router_id decoded) update 0 now clock memory
  end.

(** ** Acknowledgments *)

Fixpoint acknowledge_headers (fuel : nat) (ex : Ex.t) (a : LinkStateAcknowledgmentView) (index : Z) : bool * Ex.t :=
  match fuel with
  | O => (true, ex)
  | S fuel =>
      match acknowledgment_header a index with
      | None => (false, ex)
      | Some header => acknowledge_headers fuel (Ex.acknowledge ex header).2 a (index + 1)
      end
  end.

Definition receive_link_state_acknowledgment (s : t) (decoded : PacketView) : ReceiveStatus * t :=
  match parse_link_state_acknowledgment decoded with
  | None => (malformed, s)
  | Some a =>
      let '(ok, ex) := acknowledge_headers (Z.to_nat (size (a_lsa_headers a) / lsa_header_octets)) (database (neighbor s)) a 0 in
      let n := (neighbor s) <| database := ex |> in
      if negb ok then (malformed, put_neighbor s n)
      else if size (Ex.retransmissions_ ex) =? 0
      then (accepted, put_neighbor s (n <| pending_update := false |> <| update_retransmit_deadline := 0 |>))
      else (accepted, put_neighbor s n)
  end.

(** ** Reception *)

(** A packet of a known neighbor, other than a Hello. *)
Definition receive `{Sorting} (s : t) (decoded : PacketView) (now clock : Z) (memory : bool) : ReceiveStatus * t :=
  match state s with
  | None => (neighbor_not_found, s)
  | Some current =>
      if bool_decide (p_type decoded = database_description)
      then receive_database_description s current decoded now clock memory
      else if negb (NeighborState.at_least current NeighborState.exchange) then (invalid_neighbor_state, s)
      else match p_type decoded with
           | link_state_request => receive_link_state_request s decoded now clock memory
           | link_state_update => receive_link_state_update s decoded now clock memory
           | link_state_acknowledgment => receive_link_state_acknowledgment s decoded
           | _ => (malformed, s)
           end
  end.

(** ** Emission *)

(** The octets of a packet body; [None] when the header already fills the MTU. *)
Definition body_capacity (mtu version fixed : Z) : option Z :=
  let ospf_header := if version =? version_two then version_two_header_octets else version_three_header_octets in
  let ip_header := if version =? version_two then ipv4_minimum_header_octets else ipv6_header_octets in
  if mtu <=? ip_header + ospf_header + fixed then None else Some (mtu - ip_header - ospf_header).

Definition frame : Z := Ipv6Packet.Ipv6.maximum_frame_octets.

Definition emit_link_state_request (s : t) (envelope : bool) (now : Z) : option (list Z) * t :=
  let n := neighbor s in
  let requests := Ex.requests_ (database n) in
  if size requests =? 0 then (None, put_neighbor s (n <| pending_request := false |> <| request_retransmit_deadline := 0 |>))
  else
    match body_capacity (If_.interface_mtu (protocol s)) (version_ s) 0 with
    | None => (None, s)
    | Some octets =>
        let capacity := octets / 12 in
        if capacity =? 0 then (None, s)
        else
          let cursor := if size requests <=? request_cursor n then 0 else request_cursor n in
          let count := Z.min capacity (size requests - cursor) in
          let n := n <| request_cursor := cursor |> in
          match encode_link_state_request_payload frame (version_ s) (take (Z.to_nat count) (drop (Z.to_nat cursor) requests)) with
          | None => (None, put_neighbor s n)
          | Some body =>
              if negb envelope then (None, put_neighbor s n)
              else if cursor + count =? size requests then
                (Some body, put_neighbor s (n <| request_cursor := 0 |> <| pending_request := false |>
                   <| request_retransmit_deadline := now + Catalog.seconds (retransmit_interval_seconds s) |>))
              else (Some body, put_neighbor s (n <| request_cursor := cursor + count |>))
          end
    end.

(** A record as it is sent: with its age and the transmission delay. *)
Definition transmitted (record : Db.LsaRecord) (delay now : Z) : list Z :=
  write16 (Db.bytes record) 0 (u16 (Z.min Db.max_age_seconds (Db.age record now + delay))).

(** The advertisements of one update: while there is work budget and room. *)
Fixpoint gather (db : Db.t) (entries : list Ex.RetransmissionEntry) (room delay now : Z) (budget : nat)
    : option (list (list Z)) :=
  match entries, budget with
  | e :: entries, S budget =>
      match Db.find db (Ex.t_key e) with
      | None => None
      | Some record =>
          if room <? size (Db.bytes record) then Some []
          else
            rest ← gather db entries (room - size (Db.bytes record)) delay now budget;
            Some (transmitted record delay now :: rest)
      end
  | _, _ => Some []
  end.

Definition emit_link_state_update (s : t) (envelope : bool) (now : Z) : option (list Z) * t :=
  let n := neighbor s in
  let l := Ex.retransmissions_ (database n) in
  if size l =? 0 then
    (None, put_neighbor s (n <| pending_update := false |> <| update_retransmit_deadline := 0 |> <| update_cursor := 0 |>))
  else
    let cursor := if size l <=? update_cursor n then 0 else update_cursor n in
    let n := n <| update_cursor := cursor |> in
    let s := put_neighbor s n in
    match body_capacity (If_.interface_mtu (protocol s)) (version_ s) 4 with
    | None => (None, s)
    | Some body_capacity =>
        match gather (database_ s) (drop (Z.to_nat cursor) l) (body_capacity - 4) (transmit_delay_seconds s) now
                (Z.to_nat Catalog.ospf_work_budget_packets) with
        | None | Some [] => (None, s)
        | Some lsas =>
            let body := be32 (size lsas) ++ concat lsas in
            if negb envelope then (None, s)
            else if cursor + size lsas =? size l then
              (Some body, put_neighbor s (n <| update_cursor := 0 |> <| pending_update := false |>
                 <| update_retransmit_deadline := now + Catalog.seconds (retransmit_interval_seconds s) |>))
            else (Some body, put_neighbor s (n <| update_cursor := cursor + size lsas |>))
        end
    end.

Definition emit_link_state_acknowledgment (s : t) (envelope : bool) : option (list Z) * t :=
  let n := neighbor s in
  let acknowledgments := Ex.acknowledgments_ (database n) in
  if size acknowledgments =? 0 then (None, put_neighbor s (n <| pending_acknowledgment := false |>))
  else
    match body_capacity (If_.interface_mtu (protocol s)) (version_ s) 0 with
    | None => (None, s)
    | Some octets =>
        let count := Z.min (octets / lsa_header_octets) (size acknowledgments) in
        if count =? 0 then (None, s)
        else
          match encode_link_state_acknowledgment_payload frame (version_ s)
                  (header_array (take (Z.to_nat count) acknowledgments) (version_ s)) with
          | None => (None, s)
          | Some body =>
              if negb envelope then (None, s)
              else
                let ex := Ex.consume_delayed_acknowledgments (database n) count in
                (Some body, put_neighbor s (n <| database := ex |>
                   <| pending_acknowledgment := negb (size (Ex.acknowledgments_ ex) =? 0) |>))
          end
    end.

(** What the deadlines of a neighbor make pending at the start of a turn. *)
Definition due (deadline now : Z) : bool := negb (deadline =? 0) && (deadline <=? now).

Definition mark_due (n : NeighborExchange) (now : Z) : NeighborExchange :=
  let n := if negb (pending_database_description n) && due (dd_retransmit_deadline n) now
           then n <| pending_database_description := true |> else n in
  let n := if negb (pending_request n) && due (request_retransmit_deadline n) now
              && negb (size (Ex.requests_ (database n)) =? 0)
           then n <| pending_request := true |> else n in
  if negb (pending_update n) && due (update_retransmit_deadline n) now
     && negb (size (Ex.retransmissions_ (database n)) =? 0)
  then n <| pending_update := true |> else n.

(** The turn of a neighbor: what it sends, in the order it is sent; [false] when a
    packet could not be encoded.  The output has room. *)
Definition send (pending : t -> bool) (emit : t -> option (list Z) * t) (type : PacketType)
    (r : bool * list (PacketType * list Z) * t) : bool * list (PacketType * list Z) * t :=
  let '(ok, sent, s) := r in
  if negb ok || negb (pending s) then r
  else match emit s with
       | (Some body, s) => (true, sent ++ [(type, body)], s)
       | (None, s) => (false, sent, s)
       end.

Definition neighbor_turn (s : t) (envelope : bool) (now clock : Z) : bool * list (PacketType * list Z) * t :=
  let s := put_neighbor s (mark_due (neighbor s) now) in
  let r := (true, [], s) in
  let r := send (fun s => pending_acknowledgment (neighbor s)) (fun s => emit_link_state_acknowledgment s envelope)
             link_state_acknowledgment r in
  let r := send (fun s => pending_database_description (neighbor s)) (fun s => emit_database_description s envelope now clock)
             database_description r in
  let r := send (fun s => pending_update (neighbor s)) (fun s => emit_link_state_update s envelope now) link_state_update r in
  send (fun s => pending_request (neighbor s)) (fun s => emit_link_state_request s envelope now) link_state_request r.

End OspfUpdate.
