(* ===== verification/OspfDescription.v ===== *)
(** * Database Descriptions on the wire

    A description that was encoded is parsed back, with the headers it carries. *)

From S2P Require Import Prelude Arena Packet Octets OspfHello OspfLsa OspfHeaders OspfProcess.
Import Arena.

Module OspfDescription.
Import OspfHello.OspfHello OspfLsa.OspfLsa Octets.Octets OspfHeaders.OspfHeaders OspfProcess.OspfProcess.

Lemma size_octets h version : size (octets h version) = 20.
Proof. reflexivity. Qed.

Lemma header_array_octets hs version : header_array hs version = flat_map (fun h => octets h version) hs.
Proof. unfold header_array. induction hs as [|h hs IH]; cbn [flat_map]; [done|]. now rewrite write_octets, IH. Qed.

Lemma header_array_cons h hs version : header_array (h :: hs) version = octets h version ++ header_array hs version.
Proof. rewrite !header_array_octets. reflexivity. Qed.

Lemma header_array_app hs hs' version : header_array (hs ++ hs') version = header_array hs version ++ header_array hs' version.
Proof. unfold header_array. now rewrite flat_map_app. Qed.

Lemma size_header_array hs version : size (header_array hs version) = 20 * size hs.
Proof.
  rewrite header_array_octets. induction hs as [|h hs IH]; [done|]. cbn [flat_map]. rewrite size_app, IH, size_octets.
  unfold size. cbn [length]. lia.
Qed.

(** The header at an offset. *)
Lemma slice_header pre h rest version :
  slice (pre ++ octets h version ++ rest) (size pre) lsa_header_octets = octets h version.
Proof.
  unfold slice, size. rewrite Nat2Z.id, drop_app_length. change (Z.to_nat lsa_header_octets) with (length (octets h version)).
  apply take_app_length.
Qed.

Lemma header_sequence_array fuel hs version : forall pre,
  Forall (ranged version) hs -> (length hs <= fuel)%nat ->
  header_sequence fuel (pre ++ header_array hs version) version (size pre) = true.
Proof.
  revert hs. induction fuel as [|fuel IH]; intros hs pre Ht Hf; cbn [header_sequence].
  - destruct hs; [|cbn in Hf; lia]. rewrite size_app. change (size (header_array [] version)) with 0. now rewrite Z.add_0_r, Z.ltb_irrefl.
  - destruct hs as [|h hs].
    + rewrite size_app. change (size (header_array [] version)) with 0. now rewrite Z.add_0_r, Z.ltb_irrefl.
    + apply list.Forall_cons in Ht as [Hh Ht]. rewrite header_array_cons, slice_header.
      pose proof (header_octets_read h version [] Hh) as E. rewrite app_nil_r in E. rewrite E.
      rewrite (proj2 (Z.ltb_lt _ _)) by (rewrite !size_app, size_octets; pose proof (size_nonneg (header_array hs version)); lia).
      destruct Hh as [_ _ _ _ _ _ [Hl _] _]. rewrite (proj2 (Z.ltb_ge _ _)) by lia. cbn [negb andb].
      rewrite app_assoc. replace (size pre + lsa_header_octets) with (size (pre ++ octets h version)) by now rewrite size_app, size_octets.
      apply IH; [done|]. cbn in Hf. lia.
Qed.

Lemma valid_array hs version : Forall (ranged version) hs -> valid_lsa_header_sequence (header_array hs version) version = true.
Proof.
  intros Ht. unfold valid_lsa_header_sequence. rewrite size_header_array.
  replace ((20 * size hs) mod lsa_header_octets) with 0 by (unfold lsa_header_octets; rewrite Z.mul_comm, Z.mod_mul; lia).
  cbn [andb]. apply (header_sequence_array _ hs version []); [done|].
  pose proof (size_header_array hs version) as E. unfold size in E. lia.
Qed.

(** What is parsed from what was encoded. *)
Lemma description_read output_size version mtu opts sequence i m ma hs body router area instance :
  known_version version = true -> is_u16 mtu -> is_u32 sequence -> Forall (ranged version) hs ->
  encode_database_description_payload output_size version mtu opts sequence i m ma (header_array hs version) false = Some body ->
  exists o,
    parse_database_description (mkPacket body router area database_description version instance)
    = Some (mkDescription (header_array hs version) o sequence mtu i m ma false version).
Proof.
  intros Hk Hm Hs Ht. unfold encode_database_description_payload. rewrite Hk, valid_array, andb_false_r by done. cbn [negb orb].
  case_if; [discriminate|]. pose proof (valid_array hs version Ht) as Hv. set (hd := header_array hs version) in *. intros [= <-].
  unfold parse_database_description. cbn [payload p_type p_version]. rewrite bool_decide_eq_true_2 by done. cbn [negb].
  destruct (Z.eqb_spec version version_two) as [->|Hn].
  - replace (Z.to_nat (8 + size hd)) with (8 + length hd)%nat by (unfold size; lia). rewrite replicate_add.
    unfold Packet.copy_at. change (Z.to_nat 8) with 8%nat.
    match goal with |- context [take 8 ?l] => set (w := l) end.
    assert (w = [u8 (Z.shiftr mtu 8); u8 mtu; u8 opts; dd_flags i m ma false; u8 (Z.shiftr sequence 24);
                 u8 (Z.shiftr sequence 16); u8 (Z.shiftr sequence 8); u8 sequence] ++ replicate (length hd) 0) as Ew by reflexivity.
    rewrite Ew. clear w Ew.
    match goal with |- context [take 8 (?l ++ ?r)] => change (take 8 (l ++ r)) with l;
      change (drop (8 + length hd) (l ++ r)) with (drop (length hd) r); set (w := l) end.
    rewrite drop_ge, app_nil_r by now rewrite length_replicate.
    change (drop 8 (w ++ hd)) with hd. rewrite Hv. cbn [negb].
    rewrite (proj2 (Z.ltb_ge _ _)) by (rewrite size_app; pose proof (size_nonneg hd); change (size w) with 8; lia).
    change (get (w ++ hd) 3) with (dd_flags i m ma false).
    assert (read32 (w ++ hd) 4 = sequence) as -> by (now apply be32_read).
    assert (read16 (w ++ hd) 0 = mtu) as -> by (now apply be16_read).
    eexists. destruct i, m, ma; reflexivity.
  - assert (version = version_three) as -> by (unfold known_version, version_two, version_three in *; lia).
    replace (Z.to_nat (12 + size hd)) with (12 + length hd)%nat by (unfold size; lia). rewrite replicate_add.
    unfold Packet.copy_at. change (Z.to_nat 12) with 12%nat.
    match goal with |- context [take 12 ?l] => set (w := l) end.
    assert (w = [0; u8 (Z.shiftr opts 16); u8 (Z.shiftr opts 8); u8 opts; u8 (Z.shiftr mtu 8); u8 mtu; 0; dd_flags i m ma false;
                 u8 (Z.shiftr sequence 24); u8 (Z.shiftr sequence 16); u8 (Z.shiftr sequence 8); u8 sequence]
                ++ replicate (length hd) 0) as Ew by reflexivity.
    rewrite Ew. clear w Ew.
    match goal with |- context [take 12 (?l ++ ?r)] => change (take 12 (l ++ r)) with l;
      change (drop (12 + length hd) (l ++ r)) with (drop (length hd) r); set (w := l) end.
    rewrite drop_ge, app_nil_r by now rewrite length_replicate.
    change (drop 12 (w ++ hd)) with hd. rewrite Hv. cbn [negb].
    rewrite (proj2 (Z.ltb_ge _ _)) by (rewrite size_app; pose proof (size_nonneg hd); change (size w) with 12; lia).
    change (get (w ++ hd) 7) with (dd_flags i m ma false). change (get (w ++ hd) 0) with 0. change (get (w ++ hd) 6) with 0.
    assert (read32 (w ++ hd) 8 = sequence) as -> by (now apply be32_read).
    assert (read16 (w ++ hd) 4 = mtu) as -> by (now apply be16_read).
    eexists. destruct i, m, ma; reflexivity.
Qed.

End OspfDescription.
