(* ===== verification/OspfSync.v ===== *)
(** * What a description makes a router request

    Processing the headers of a neighbor's database requests exactly the instances
    that are permitted and missing, or newer than the ones held. *)

From S2P Require Import Prelude Catalog Arena Packet Octets OspfHello OspfLsa OspfHeaders OspfLsdb OspfExchange OspfDatabase OspfProcess OspfDescription.
Import Arena.

Module OspfSync.
Import OspfLsa.OspfLsa OspfHeaders.OspfHeaders OspfDatabase.OspfDatabase OspfDescription.OspfDescription.
Import OspfExchange.OspfExchange OspfProcess.OspfProcess.

#[local] Existing Instances OspfExchange.OspfExchange.t_settable Db.LsaKey_eq_dec Db.FloodingScope_eq_dec Db.LsaRecency_eq_dec
  LinkStateRequestEntry_eq_dec.

(** The database has no instance of the header, or an older one. *)
Definition lacks (db : Db.t) (version now : Z) (h : LsaHeaderView) : bool :=
  match lookup (Db.records_ db) (Db.lsa_key h) with
  | None => true
  | Some r =>
      match lsa_header (Db.bytes r) version with
      | None => false
      | Some c => bool_decide (Db.compare_lsa_headers h (Db.with_age c (Db.age r now)) = Db.newer)
      end
  end.

Definition permitted (permit : bool) (h : LsaHeaderView) : bool :=
  permit || negb (bool_decide (Db.k_scope (Db.lsa_key h) = Db.autonomous_system)).

(** One header after the other. *)
Definition request (s : Ex.t) (db : Db.t) (now : Z) (h : LsaHeaderView) (next : list LinkStateRequestEntry)
    : option (list LinkStateRequestEntry) :=
  if negb (permitted (permit_autonomous_system_scope_ s) h) || negb (lacks db (Ex.version_ s) now h) then Some next
  else if bool_decide (request_of h ∈ next) then Some next
  else if size next =? maximum_requests_ s then None
  else Some (next ++ [request_of h]).

Fixpoint requests_for (s : Ex.t) (db : Db.t) (now : Z) (hs : list LsaHeaderView) (next : list LinkStateRequestEntry)
    : option (list LinkStateRequestEntry) :=
  match hs with
  | [] => Some next
  | h :: hs => next ← request s db now h next; requests_for s db now hs next
  end.

(** Records are found by the fields of the key: a type has one scope. *)
Lemma same_identity_key version clock r h :
  sound version clock r -> lsa_version h = version -> same_identity h r = Db.has_key (Db.lsa_key h) r.
Proof.
  intros [_ (c & Ec & _ & Ek) _ _ _ _] Hv. apply header_fields in Ec as (Ev & _). unfold same_identity, Db.has_key.
  rewrite <- Ek. unfold Db.lsa_key. cbn [Db.k_type Db.k_link_state_id Db.k_advertising_router]. rewrite Ev, Hv.
  apply eq_iff_eq_true. rewrite bool_decide_eq_true, !andb_true_iff, !Z.eqb_eq. split.
  - intros [[-> ->] ->]. reflexivity.
  - intros [= -> -> ->]. now split_and!.
Qed.

Lemma find_identity version clock records h :
  Forall (sound version clock) records -> lsa_version h = version ->
  List.find (same_identity h) records = lookup records (Db.lsa_key h).
Proof.
  intros W Hv. unfold lookup. induction W as [|r records Hr W IH]; [done|]. cbn [List.find].
  now rewrite (same_identity_key version clock), IH.
Qed.

Lemma wanted_lacks s db version now h :
  wf version now db -> Ex.version_ s = version -> lsa_version h = version ->
  wanted s db h now = Some (lacks db version now h).
Proof.
  intros [W _ _] Hs Hv. unfold wanted, lacks. rewrite (find_identity version now) by done.
  destruct (lookup (Db.records_ db) (Db.lsa_key h)) as [r|] eqn:E; [|done]. apply lookup_some in E as [Hr _].
  rewrite list.Forall_forall in W. destruct (so_header _ _ _ (W r Hr)) as (c & Ec & _). rewrite Hs, Ec. reflexivity.
Qed.

Lemma describe_array s db now hs : forall fuel pre next,
  wf (Ex.version_ s) now db -> Forall (ranged (Ex.version_ s)) hs -> (length hs <= fuel)%nat ->
  describe fuel s db (pre ++ header_array hs (Ex.version_ s)) now (size pre) next = requests_for s db now hs next.
Proof.
  intros fuel. revert hs. set (version := Ex.version_ s). induction fuel as [|fuel IH]; intros hs pre next W Ht Hf; cbn [describe].
  - destruct hs; [|cbn in Hf; lia]. rewrite size_app. change (size (header_array [] version)) with 0. now rewrite Z.add_0_r, Z.ltb_irrefl.
  - destruct hs as [|h hs].
    + rewrite size_app. change (size (header_array [] version)) with 0. now rewrite Z.add_0_r, Z.ltb_irrefl.
    + apply list.Forall_cons in Ht as [Hh Ht]. fold version. rewrite header_array_cons, slice_header.
      pose proof (header_octets_read h version [] Hh) as E. rewrite app_nil_r in E. rewrite E.
      rewrite (proj2 (Z.ltb_lt _ _)) by (rewrite !size_app, size_octets; pose proof (size_nonneg (header_array hs version)); lia).
      rewrite app_assoc. replace (size pre + lsa_header_octets) with (size (pre ++ octets h version)) by now rewrite size_app, size_octets.
      assert (forall next, describe fuel s db ((pre ++ octets h version) ++ header_array hs version) now
                (size (pre ++ octets h version)) next = requests_for s db now hs next) as Hrec
        by (intros; apply IH; [done|done|cbn in Hf; lia]).
      rewrite !Hrec. cbn [requests_for]. unfold request, permitted.
      rewrite (wanted_lacks s db version now h W eq_refl) by apply Hh. fold version.
      destruct (permit_autonomous_system_scope_ s), (bool_decide (_ = Db.autonomous_system)); cbn [negb andb orb]; try reflexivity;
        (destruct (lacks db version now h); cbn [negb]; [|reflexivity]; repeat case_if; try reflexivity; now rewrite Hrec).
Qed.

(** A description is processed header by header. *)
Lemma process_array s d db now hs :
  wf (Ex.version_ s) now db -> Forall (ranged (Ex.version_ s)) hs ->
  dd_version d = Ex.version_ s -> lsa_headers d = header_array hs (Ex.version_ s) ->
  process_database_description s d db now true
  = match requests_for s db now hs (requests_ s) with
    | None => (false, s)
    | Some next => (true, s <| requests_ := next |>)
    end.
Proof.
  intros W Ht Hv Hd. unfold process_database_description. rewrite Hv, Hd, Z.eqb_refl, size_header_array.
  replace ((20 * size hs) mod lsa_header_octets) with 0 by (unfold lsa_header_octets; rewrite Z.mul_comm, Z.mod_mul; lia).
  cbn [negb orb Z.eqb]. pose proof (describe_array s db now hs (length (header_array hs (Ex.version_ s))) [] (requests_ s) W Ht) as E.
  cbn [app] in E. change (size []) with 0 in E. rewrite E; [done|].
  pose proof (size_header_array hs (Ex.version_ s)) as Es. unfold size in Es. lia.
Qed.

(** ** What is requested *)

Lemma requests_for_app s db now hs hs' next :
  requests_for s db now (hs ++ hs') next = next ← requests_for s db now hs next; requests_for s db now hs' next.
Proof.
  revert next. induction hs as [|h hs IH]; intros next; [done|]. cbn [app requests_for].
  destruct (request s db now h next); cbn [mbind option_bind]; [apply IH|done].
Qed.

Definition asked (s : Ex.t) (db : Db.t) (now : Z) (h : LsaHeaderView) : Prop :=
  permitted (permit_autonomous_system_scope_ s) h = true /\ lacks db (Ex.version_ s) now h = true.

Lemma requests_for_spec s db now hs : forall next,
  NoDup next -> size next + size hs <= maximum_requests_ s ->
  exists next', requests_for s db now hs next = Some next' /\ NoDup next' /\ size next' <= size next + size hs
    /\ forall e, e ∈ next' <-> e ∈ next \/ exists h, h ∈ hs /\ asked s db now h /\ e = request_of h.
Proof.
  induction hs as [|h hs IH]; intros next Hn Hs; cbn [requests_for].
  - exists next. split_and!; [done|done|unfold size; cbn; lia|]. intros e. split; [auto|]. intros [He|(h & Hh & _)]; [done|inversion Hh].
  - assert (size (h :: hs) = 1 + size hs) as El by (unfold size; cbn [length]; lia). rewrite El in *.
    assert (exists next1, request s db now h next = Some next1 /\ NoDup next1 /\ size next1 <= size next + 1
      /\ forall e, e ∈ next1 <-> e ∈ next \/ asked s db now h /\ e = request_of h) as (n1 & E1 & N1 & S1 & I1).
    { unfold request. destruct (negb _ || negb _) eqn:Ea.
      - exists next. split_and!; [done|done|lia|]. intros e. split; [auto|]. intros [He|[[A1 A2] _]]; [done|].
        rewrite A1, A2 in Ea. discriminate.
      - apply orb_false_iff in Ea as [A1%negb_false_iff A2%negb_false_iff]. case_bool_decide as Ei.
        + exists next. split_and!; [done|done|lia|]. intros e. split; [auto|]. intros [He|[_ ->]]; done.
        + pose proof (size_nonneg hs). rewrite (proj2 (Z.eqb_neq _ _)) by lia. exists (next ++ [request_of h]). split_and!; [done| | |].
          * apply list.NoDup_app. split_and!; [done| |apply NoDup_singleton]. intros e He ->%list_elem_of_singleton. done.
          * rewrite size_app. change (size [request_of h]) with 1. lia.
          * intros e. rewrite elem_of_app, list_elem_of_singleton. unfold asked. rewrite A1, A2. intuition. }
    rewrite E1. cbn [mbind option_bind]. destruct (IH n1 N1 ltac:(lia)) as (n2 & E2 & N2 & S2 & I2).
    exists n2. split_and!; [done|done|lia|]. intros e. rewrite I2, I1. setoid_rewrite elem_of_cons. split.
    + intros [[He|He]|(h' & Hh & Ha)]; eauto.
    + intros [He|(h' & [-> |Hh] & Ha)]; eauto.
Qed.

End OspfSync.
