(* ===== verification/OspfNegotiation.v ===== *)
(** * The negotiation of an adjacency

    What a router sends and how it answers, and the exchange of two routers from
    ExStart on. *)

From S2P Require Import Prelude Catalog Arena Packet Octets OspfFsm OspfHello OspfInterface Ipv6Packet OspfLsa OspfHeaders OspfLsdb OspfExchange OspfDatabase OspfThrottle Ordering OspfProcess OspfDescription OspfSync.
Import Arena.

Module OspfNegotiation.
Import OspfFsm OspfHello.OspfHello OspfLsa.OspfLsa OspfHeaders.OspfHeaders OspfProcess.OspfProcess OspfDescription.OspfDescription.
Import OspfDatabase.OspfDatabase OspfSync.OspfSync.

#[local] Existing Instances Ex.t_settable OspfInterface.OspfInterface.t_settable OspfInterface.OspfInterface.NeighborRuntime_settable
  OspfProcess.t_settable NeighborExchange_settable.

(** ** The neighbor machine in the runtime *)

Lemma event_state s e pending clock x :
  state s = Some x ->
  exists required r, let y := neighbor_transition x e required pending in
    apply_neighbor_event s e pending clock = (Some y, s <| runtime := r |>)
    /\ state (s <| runtime := r |>) = Some y.1 /\ If_.configuration_ r = If_.configuration_ (runtime s).
Proof.
  unfold state, apply_neighbor_event, If_.apply_neighbor_event. set (id := n_router_id (neighbor s)).
  destruct (If_.find_neighbor id (If_.neighbors_ (runtime s))) as [[i found]|] eqn:F; [|discriminate].
  cbn [fmap option_fmap option_map snd]. intros [= <-]. unfold If_.neighbor_step.
  exists (If_.adjacency_required (runtime s) found).
  set (tr := neighbor_transition (If_.n_state found) e (If_.adjacency_required (runtime s) found) pending). clearbody tr.
  destruct (If_.record_fields found e tr clock) as (R1 & _ & _ & _ & _ & _ & _ & _ & R9).
  set (n := If_.record_neighbor_event found e tr clock) in *. clearbody n.
  pose proof (If_.find_neighbor_some _ _ _ _ F) as (_ & Hid & _). rewrite Hid in R1.
  set (n' := if has_action tr.2 NeighborAction.stop_inactivity_timer then n <| If_.inactivity_deadline := 0 |> else n).
  assert (If_.n_router_id n' = id /\ If_.n_state n' = tr.1) as [E1 E2] by (unfold n'; now destruct (has_action _ _)).
  pose proof (If_.find_neighbor_insert (If_.neighbors_ (runtime s)) i found n' id) as H. rewrite E1 in H. specialize (H F).
  rewrite decide_True in H by exact eq_refl. clearbody n'.
  exists ((runtime s) <| If_.neighbors_ := <[i := n']> (If_.neighbors_ (runtime s)) |>). cbv zeta.
  split; [rewrite E2; now destruct tr|]. split; [|exact eq_refl].
  change (n_router_id (neighbor _)) with id.
  change (If_.neighbors_ (runtime _)) with (<[i := n']> (If_.neighbors_ (runtime s))).
  destruct (If_.find_neighbor id (<[i := n']> (If_.neighbors_ (runtime s)))) as [[j m]|]; [|discriminate].
  cbn [fmap option_fmap option_map snd] in H |- *. injection H as ->. now rewrite E2.
Qed.

(** ** A party of an exchange *)

(** What stays the same. *)
Record party := mkParty {
  c_router : Z;
  c_version : Z;
  c_protocol : If_.InterfaceConfiguration;
  c_database : Db.t;
  c_summaries : list LsaHeaderView;
  c_maximum : Z;
  c_permit : bool
}.

(** What changes. *)
Record phase := mkPhase {
  v_state : NeighborState.t;
  v_master : bool;
  v_negotiated : bool;
  v_pending : bool;
  v_cursor : Z;
  v_sequence : Z;
  v_requests : list LinkStateRequestEntry;
  v_sent_more : bool;
  v_peer_more : bool;
  v_complete : bool
}.

Record holds (k : party) (v : phase) (s : t) : Prop := mkHolds {
  h_router : router_id_ s = c_router k;
  h_version : version_ s = c_version k;
  h_protocol : protocol s = c_protocol k;
  h_database : database_ s = c_database k;
  h_summaries : Ex.summaries_ (database (neighbor s)) = c_summaries k;
  h_maximum : Ex.maximum_requests_ (database (neighbor s)) = c_maximum k;
  h_permit : Ex.permit_autonomous_system_scope_ (database (neighbor s)) = c_permit k;
  h_exchange : Ex.version_ (database (neighbor s)) = c_version k;
  h_state : state s = Some (v_state v);
  h_master : local_master (neighbor s) = v_master v;
  h_negotiated : negotiation_complete (neighbor s) = v_negotiated v;
  h_pending : pending_database_description (neighbor s) = v_pending v;
  h_cursor : summary_cursor (neighbor s) = v_cursor v;
  h_sequence : dd_sequence (neighbor s) = v_sequence v;
  h_requests : Ex.requests_ (database (neighbor s)) = v_requests v;
  h_sent_more : sent_more (neighbor s) = v_sent_more v;
  h_peer_more : peer_more (neighbor s) = v_peer_more v;
  h_complete : complete_after_reply (neighbor s) = v_complete v
}.

(** A party that can describe its database, [capacity] headers at a time. *)
Record able (now capacity : Z) (k : party) : Prop := mkAble {
  a_version : known_version (c_version k) = true;
  a_capacity : header_capacity (If_.interface_mtu (c_protocol k)) (c_version k) = Some capacity /\ 1 <= capacity;
  a_mtu : 0 <= If_.interface_mtu (c_protocol k) <= Ipv6Packet.Ipv6.maximum_frame_octets;
  a_database : wf (c_version k) now (c_database k);
  a_summaries : Forall (ranged (c_version k)) (c_summaries k)
}.

(** The next headers, and the cursor after them. *)
Definition chunk {A} (l : list A) (cursor capacity : Z) : list A := take (Z.to_nat capacity) (drop (Z.to_nat cursor) l).
Definition past {A} (l : list A) (cursor capacity : Z) : Z := Z.min (cursor + capacity) (size l).

Lemma chunk_count {A} (l : list A) cursor capacity :
  0 <= cursor <= size l -> 0 <= capacity ->
  take (Z.to_nat (Z.min (size l - cursor) capacity)) (drop (Z.to_nat cursor) l) = chunk l cursor capacity.
Proof.
  intros Hc Hp. unfold chunk. destruct (Z.leb_spec capacity (size l - cursor)).
  - now rewrite Z.min_r by lia.
  - rewrite Z.min_l by lia. unfold size in *. rewrite !take_ge; (done || rewrite length_drop; lia).
Qed.

Lemma size_chunk {A} (l : list A) cursor capacity :
  0 <= cursor <= size l -> 0 <= capacity -> size (chunk l cursor capacity) = past l cursor capacity - cursor.
Proof. intros Hc Hp. unfold size, chunk, past, size in *. rewrite length_take, length_drop. lia. Qed.

Lemma chunk_next {A} (l : list A) cursor capacity :
  0 <= cursor <= size l -> 0 <= capacity ->
  take (Z.to_nat (past l cursor capacity)) l = take (Z.to_nat cursor) l ++ chunk l cursor capacity.
Proof.
  intros Hc Hp. unfold chunk, past, size in *. destruct (Z.leb_spec (cursor + capacity) (Z.of_nat (length l))).
  - rewrite Z.min_l by lia. replace (Z.to_nat (cursor + capacity)) with (Z.to_nat cursor + Z.to_nat capacity)%nat by lia.
    now rewrite take_take_drop.
  - rewrite Z.min_r, (take_ge (drop _ _)) by (rewrite ?length_drop; lia). rewrite take_drop, take_ge; [done|lia].
Qed.

Lemma Forall_chunk {A} (P : A -> Prop) l cursor capacity : Forall P l -> Forall P (chunk l cursor capacity).
Proof. intros H. unfold chunk. now apply Forall_take, Forall_drop. Qed.

Lemma description_encoded version mtu capacity opts sequence i m ma hs :
  known_version version = true -> header_capacity mtu version = Some capacity -> mtu <= Ipv6Packet.Ipv6.maximum_frame_octets ->
  Forall (ranged version) hs -> size hs <= capacity ->
  exists body, encode_database_description_payload Ipv6Packet.Ipv6.maximum_frame_octets version mtu opts sequence i m ma
                 (header_array hs version) false = Some body.
Proof.
  intros Hk Hc Hm Ht Hs. unfold encode_database_description_payload. rewrite Hk, valid_array, andb_false_r, size_header_array by done.
  cbn [negb orb]. revert Hc. unfold header_capacity, version_two_header_octets, version_three_header_octets, ipv4_minimum_header_octets,
    ipv6_header_octets, lsa_header_octets, Ipv6Packet.Ipv6.maximum_frame_octets in *.
  destruct (version =? version_two); case_if; try discriminate; intros [= <-]; rewrite (proj2 (Z.ltb_ge _ _)) by lia; eauto.
Qed.

End OspfNegotiation.
