(* ===== verification/OspfParty.v ===== *)
(** * The steps of a party

    Each emission and reception of an exchange, as a change of phase. *)

From S2P Require Import Prelude Catalog Arena Packet Octets OspfFsm OspfHello OspfInterface Ipv6Packet OspfLsa OspfHeaders OspfLsdb OspfExchange OspfDatabase OspfThrottle Ordering OspfProcess OspfDescription OspfSync OspfNegotiation.
Import Arena.

Module OspfParty.
Import OspfFsm OspfHello.OspfHello OspfLsa.OspfLsa OspfHeaders.OspfHeaders OspfProcess.OspfProcess OspfDescription.OspfDescription.
Import OspfDatabase.OspfDatabase OspfSync.OspfSync OspfNegotiation.OspfNegotiation.

#[local] Existing Instances Ex.t_settable OspfInterface.OspfInterface.t_settable OspfInterface.OspfInterface.NeighborRuntime_settable
  OspfProcess.t_settable NeighborExchange_settable.

Section Party.
Context (now capacity : Z) (k : party) (A : able now capacity k).
Context {sorting : Sorting}.

(** What another router parses of a body the party sends. *)
Definition said (body : list Z) (sequence : Z) (initial more master : bool) (hs : list LsaHeaderView) : Prop :=
  forall area instance, exists o,
    parse_database_description (mkPacket body (c_router k) area database_description (c_version k) instance)
    = Some (mkDescription (header_array hs (c_version k)) o sequence (If_.interface_mtu (c_protocol k)) initial more master false
              (c_version k)).

(** The phase after a description is sent. *)
Definition sent (v : phase) (cursor : Z) (more : bool) : phase :=
  mkPhase (v_state v) (v_master v) (v_negotiated v) false cursor (v_sequence v) (v_requests v) more (v_peer_more v) (v_complete v).

(** After the last reply. *)
Definition exchanged (requests : list LinkStateRequestEntry) : NeighborState.t :=
  match requests with [] => NeighborState.full | _ :: _ => NeighborState.loading end.

Definition replied (v : phase) (cursor : Z) : phase :=
  mkPhase (exchanged (v_requests v)) (v_master v) (v_negotiated v) false cursor (v_sequence v) (v_requests v) false (v_peer_more v) false.

Lemma exchange_done_next required pending :
  neighbor_transition NeighborState.exchange NeighborEvent.exchange_done required pending
  = if pending then (NeighborState.loading, NeighborAction.start_sending_requests) else (NeighborState.full, NeighborAction.notify_interface).
Proof. now destruct required, pending. Qed.

Lemma pending_requests (l : list LinkStateRequestEntry) :
  negb (size l =? 0) = match l with [] => false | _ :: _ => true end.
Proof. now destruct l. Qed.

Ltac phase_done := constructor; cbn [v_state v_master v_negotiated v_pending v_cursor v_sequence v_requests v_sent_more v_peer_more v_complete];
  first [assumption | reflexivity | congruence | (etransitivity; eassumption) | idtac].

Lemma emit_initial v s clock :
  holds k v s -> v_negotiated v = false -> is_u32 (v_sequence v) ->
  exists body s', emit_database_description s true now clock = (Some body, s')
    /\ said body (v_sequence v) true true true [] /\ holds k (sent v (v_cursor v) true) s'.
Proof.
  intros [] Hn Hq. destruct A as [A1 [A2 A3] A4 A5 A6]. unfold emit_database_description.
  rewrite h_protocol0, h_version0, A2, h_negotiated0, Hn, h_sequence0. cbn [negb orb].
  change (take (Z.to_nat 0) ?l) with (@nil LsaHeaderView). 
  destruct (description_encoded (c_version k) (If_.interface_mtu (c_protocol k)) capacity (If_.options_ (c_protocol k)) (v_sequence v)
              true true true [] A1 A2 ltac:(lia) ltac:(constructor) ltac:(unfold size; cbn; lia)) as [body E].
  rewrite E. cbn [negb andb]. eexists body, _. split; [reflexivity|]. split.
  - intros area instance. eapply description_read; [done| |done|constructor|exact E].
    unfold is_u16, Ipv6Packet.Ipv6.maximum_frame_octets in *. lia.
  - phase_done.
Qed.

Lemma complete_reply_spec v s clock :
  holds k v s -> v_state v = NeighborState.exchange ->
  exists s', complete_reply s now clock = (true, s')
    /\ holds k (mkPhase (exchanged (v_requests v)) (v_master v) (v_negotiated v) (v_pending v) (v_cursor v) (v_sequence v)
                  (v_requests v) (v_sent_more v) (v_peer_more v) false) s'.
Proof.
  intros H Hs. pose proof H as [].
  destruct (event_state s NeighborEvent.exchange_done (negb (size (Ex.requests_ (database (neighbor s))) =? 0)) clock _ h_state0)
    as (required & r & E & E1 & E2).
  rewrite Hs, exchange_done_next, h_requests0, pending_requests in E, E1.
  unfold complete_reply. rewrite h_requests0, pending_requests, E. destruct (v_requests v) eqn:Er; cbn [exchanged fst] in *.
  all: eexists; (split; [reflexivity|]); phase_done.
Qed.

Lemma emit_next v s clock :
  holds k v s -> v_negotiated v = true -> is_u32 (v_sequence v) -> 0 <= v_cursor v <= size (c_summaries k) ->
  (v_complete v = true -> v_state v = NeighborState.exchange) ->
  let i := past (c_summaries k) (v_cursor v) capacity in
  let more := i <? size (c_summaries k) in
  exists body s', emit_database_description s true now clock = (Some body, s')
    /\ said body (v_sequence v) false more (v_master v) (chunk (c_summaries k) (v_cursor v) capacity)
    /\ holds k (if negb (v_master v) && v_complete v && negb more then replied v i else sent v i more) s'.
Proof.
  intros H Hn Hq Hc Hx i more. pose proof H as []. pose proof A as [A1 [A2 A3] A4 A5 A6]. unfold emit_database_description.
  rewrite h_protocol0, h_version0, A2, h_negotiated0, Hn, h_sequence0, h_summaries0, h_cursor0, h_master0. cbn [negb orb].
  rewrite chunk_count by lia. replace (v_cursor v + Z.min (size (c_summaries k) - v_cursor v) capacity) with i by (unfold i, past; lia).
  fold more.
  destruct (description_encoded (c_version k) (If_.interface_mtu (c_protocol k)) capacity (If_.options_ (c_protocol k)) (v_sequence v)
              false more (v_master v) (chunk (c_summaries k) (v_cursor v) capacity) A1 A2 ltac:(lia) ltac:(now apply Forall_chunk)) as [body E].
  { rewrite size_chunk by lia. unfold past. lia. }
  rewrite E. cbn [negb andb].
  assert (said body (v_sequence v) false more (v_master v) (chunk (c_summaries k) (v_cursor v) capacity)) as Hsaid.
  { intros area instance. eapply description_read; [done| |done|now apply Forall_chunk|exact E].
    unfold is_u16, Ipv6Packet.Ipv6.maximum_frame_octets in *. lia. }
  match goal with |- context [complete_reply ?x now clock] => set (s1 := x) end.
  assert (holds k (sent v i more) s1) as H1 by (unfold s1; phase_done).
  match goal with |- context [if ?b then (let '(_, _) := complete_reply _ _ _ in _) else _] =>
    replace b with (negb (v_master v) && v_complete v && negb more) by (rewrite <- h_master0, <- h_complete0; reflexivity) end.
  destruct (negb (v_master v) && v_complete v && negb more) eqn:Ec.
  - apply andb_true_iff in Ec as [[Em Ev]%andb_true_iff Emo%negb_true_iff].
    destruct (complete_reply_spec _ s1 clock H1 (Hx Ev)) as (s2 & E2 & H2). rewrite E2.
    exists body, s2. split_and!; [reflexivity|exact Hsaid|]. unfold sent, replied in *. cbn in H2. now rewrite Emo in H2.
  - exists body, s1. now split_and!.
Qed.

(** ** Reception *)

(** What the party requests of a description's headers, after what it requested before. *)
Definition asks (hs : list LsaHeaderView) (next : list LinkStateRequestEntry) : option (list LinkStateRequestEntry) :=
  requests_for (Ex.mk [] [] [] [] 0 (c_maximum k) 0 0 (c_version k) (c_permit k)) (c_database k) now hs next.

Lemma requests_for_party v s hs next :
  holds k v s -> requests_for (database (neighbor s)) (database_ s) now hs next = asks hs next.
Proof.
  intros []. unfold asks. rewrite h_database0. revert next. induction hs as [|h hs IH]; intros next; [done|].
  cbn [requests_for]. unfold request. cbn [Ex.permit_autonomous_system_scope_ Ex.version_ Ex.maximum_requests_].
  rewrite h_permit0, h_exchange0, h_maximum0.
  match goal with |- (?x ≫= _) = _ => destruct x; cbn [mbind option_bind]; [apply IH|done] end.
Qed.

Lemma process_party v s d hs next :
  holds k v s -> Forall (ranged (c_version k)) hs -> dd_version d = c_version k ->
  lsa_headers d = header_array hs (c_version k) -> asks hs (v_requests v) = Some next ->
  Ex.process_database_description (database (neighbor s)) d (database_ s) now true
  = (true, (database (neighbor s)) <| Ex.requests_ := next |>).
Proof.
  intros H Ht Hv Hd Hn. pose proof H as []. destruct A as [_ _ _ A5 _].
  rewrite (process_array _ d _ now hs), (requests_for_party v), h_requests0, Hn; rewrite ?h_exchange0, ?h_database0; done.
Qed.

Context (decoded : PacketView) (hs : list LsaHeaderView) (o mtu : Z).
Context (Hmtu : mtu <= If_.interface_mtu (c_protocol k)) (Hhs : Forall (ranged (c_version k)) hs).

(** What was parsed. *)
Definition heard (sequence : Z) (initial more master : bool) : Prop :=
  parse_database_description decoded
  = Some (mkDescription (header_array hs (c_version k)) o sequence mtu initial more master false (c_version k)).

(** Processing, wherever the neighbor's exchange has gone in the meantime. *)
Ltac processed H hs next Hn :=
  match type of H with holds _ ?v ?s =>
    match goal with |- context [Ex.process_database_description ?a ?b ?c now true] =>
      change (Ex.process_database_description a b c now true)
        with (Ex.process_database_description (database (neighbor s)) b (database_ s) now true);
      rewrite (process_party v s b hs next H Hhs eq_refl eq_refl Hn)
    end
  end.

(** A field that the changes before left alone. *)
Ltac reads H :=
  match type of H with ?f (neighbor ?s) = _ =>
    match goal with |- context [f ?n] => change (f n) with (f (neighbor s)) end; rewrite H
  end.

Ltac phase_done' := constructor; cbn [v_state v_master v_negotiated v_pending v_cursor v_sequence v_requests v_sent_more v_peer_more v_complete];
  first [assumption | reflexivity | congruence | (etransitivity; eassumption)
        | (match goal with H : dd_sequence _ = _ |- _ => rewrite <- H end; reflexivity) | idtac].

Lemma negotiation_done_next required :
  neighbor_transition NeighborState.exstart NeighborEvent.negotiation_done required false = (NeighborState.exchange, NeighborAction.none).
Proof. now destruct required. Qed.

(** The proposal of a router with a lower Router ID, which crossed this router's own. *)
Lemma proposal_discarded v s sequence clock :
  holds k v s -> hs = [] -> heard sequence true true true -> p_router_id decoded < c_router k ->
  receive_database_description s NeighborState.exstart decoded now clock true = (accepted, s).
Proof.
  intros [] He Hd Hr. unfold receive_database_description. rewrite Hd. cbn [dd_interface_mtu].
  rewrite h_protocol0, (proj2 (Z.ltb_ge _ _)) by lia. cbn [NeighborState.at_least negb]. unfold negotiate.
  cbn [init more master lsa_headers]. rewrite He. change (size (header_array [] (c_version k)) =? 0) with true. cbn [negb andb].
  now rewrite h_router0, (proj2 (Z.ltb_lt (p_router_id decoded) _)) by lia.
Qed.

Lemma slave_negotiates v s sequence clock :
  holds k v s -> v_state v = NeighborState.exstart -> hs = [] -> heard sequence true true true ->
  c_router k < p_router_id decoded -> asks hs (v_requests v) = Some (v_requests v) ->
  exists s', receive_database_description s NeighborState.exstart decoded now clock true = (accepted, s')
    /\ holds k (mkPhase NeighborState.exchange false true true (v_cursor v) sequence (v_requests v) (v_sent_more v) true (v_complete v)) s'.
Proof.
  intros H Hs He Hd Hr Hn. pose proof H as []. unfold receive_database_description. rewrite Hd. cbn [dd_interface_mtu].
  rewrite h_protocol0, (proj2 (Z.ltb_ge _ _)) by lia. cbn [NeighborState.at_least negb]. unfold negotiate.
  cbn [init more master lsa_headers]. rewrite He. change (size (header_array [] (c_version k)) =? 0) with true. cbn [negb andb].
  rewrite h_router0, (proj2 (Z.ltb_ge (p_router_id decoded) _)), (proj2 (Z.ltb_lt _ _)) by lia. cbn [negb andb].
  match goal with |- context [apply_neighbor_event ?x _ _ _] => set (s1 := x) end.
  destruct (event_state s1 NeighborEvent.negotiation_done false clock NeighborState.exstart) as (required & r & E & E1 & E2).
  { unfold s1. rewrite <- Hs. exact h_state0. }
  rewrite E.
  rewrite negotiation_done_next in E1 |- *. cbn [fst] in E1.
  change (same NeighborState.exchange NeighborState.exchange) with true. cbn [negb].
  rewrite <- He. processed H hs (v_requests v) Hn. eexists. split; [reflexivity|]. phase_done'.
Qed.

Lemma master_negotiates v s more clock next :
  holds k v s -> v_state v = NeighborState.exstart -> heard (v_sequence v) false more false ->
  p_router_id decoded < c_router k -> asks hs (v_requests v) = Some next ->
  exists s', receive_database_description s NeighborState.exstart decoded now clock true = (accepted, s')
    /\ holds k (mkPhase NeighborState.exchange true true true (v_cursor v) (u32 (v_sequence v + 1)) next (v_sent_more v) more (v_complete v)) s'.
Proof.
  intros H Hs Hd Hr Hn. pose proof H as []. unfold receive_database_description. rewrite Hd. cbn [dd_interface_mtu].
  rewrite h_protocol0, (proj2 (Z.ltb_ge _ _)) by lia. cbn [NeighborState.at_least negb]. unfold negotiate.
  cbn [init master OspfLsa.OspfLsa.more lsa_headers dd_sequence_number]. cbn [negb andb].
  rewrite h_router0, h_sequence0, Z.eqb_refl, (proj2 (Z.ltb_lt (p_router_id decoded) _)) by lia. cbn [negb andb].
  match goal with |- context [apply_neighbor_event ?x _ _ _] => set (s1 := x) end.
  destruct (event_state s1 NeighborEvent.negotiation_done false clock NeighborState.exstart) as (required & r & E & E1 & E2).
  { unfold s1. rewrite <- Hs. exact h_state0. }
  rewrite E. rewrite negotiation_done_next in E1 |- *. cbn [fst] in E1.
  change (same NeighborState.exchange NeighborState.exchange) with true. cbn [negb].
  processed H hs next Hn. eexists. split; [reflexivity|]. phase_done'.
Qed.

Lemma slave_continues v s sequence more clock next :
  holds k v s -> v_state v = NeighborState.exchange -> v_master v = false -> heard sequence false more true ->
  v_sequence v <= sequence -> asks hs (v_requests v) = Some next ->
  exists s', receive_database_description s NeighborState.exchange decoded now clock true = (accepted, s')
    /\ holds k (mkPhase NeighborState.exchange false (v_negotiated v) true (v_cursor v) sequence next (v_sent_more v) more (negb more)) s'.
Proof.
  intros H Hs Hm Hd Hq Hn. pose proof H as []. unfold receive_database_description. rewrite Hd. cbn [dd_interface_mtu].
  rewrite h_protocol0, (proj2 (Z.ltb_ge _ _)) by lia. cbn [NeighborState.at_least negb]. unfold continue_exchange.
  cbn [init master OspfLsa.OspfLsa.more lsa_headers dd_sequence_number].
  rewrite h_master0, Hm, h_sequence0, (proj2 (Z.ltb_ge sequence _)) by lia. cbn [negb andb orb Bool.eqb].
  processed H hs next Hn. reads h_master0. rewrite Hm.
  eexists. split; [reflexivity|]. rewrite Hs in h_state0. phase_done'.
Qed.

Lemma master_continues v s more clock next :
  holds k v s -> v_state v = NeighborState.exchange -> v_master v = true -> heard (v_sequence v) false more false ->
  asks hs (v_requests v) = Some next ->
  exists s', receive_database_description s NeighborState.exchange decoded now clock true = (accepted, s')
    /\ holds k (if negb (v_sent_more v) && negb more
                then mkPhase (exchanged next) true (v_negotiated v) false (v_cursor v) (v_sequence v) next (v_sent_more v) more (v_complete v)
                else mkPhase NeighborState.exchange true (v_negotiated v) true (v_cursor v) (u32 (v_sequence v + 1)) next
                       (v_sent_more v) more (v_complete v)) s'.
Proof.
  intros H Hs Hm Hd Hn. pose proof H as []. unfold receive_database_description. rewrite Hd. cbn [dd_interface_mtu].
  rewrite h_protocol0, (proj2 (Z.ltb_ge _ _)) by lia. cbn [NeighborState.at_least negb]. unfold continue_exchange.
  cbn [init master OspfLsa.OspfLsa.more lsa_headers dd_sequence_number].
  rewrite h_master0, Hm, h_sequence0, Z.eqb_refl. cbn [negb andb orb Bool.eqb].
  processed H hs next Hn. reads h_master0. reads h_sent_more0. rewrite Hm.
  match goal with |- context [peer_more ?n] => change (peer_more n) with more end.
  destruct (negb (v_sent_more v) && negb more).
  - match goal with |- context [apply_neighbor_event ?x _ _ _] => set (s1 := x) end.
    destruct (event_state s1 NeighborEvent.exchange_done (negb (size next =? 0)) clock NeighborState.exchange) as (required & r & E & E1 & E2).
    { unfold s1. rewrite <- Hs. exact h_state0. }
    match goal with |- context [apply_neighbor_event s1 ?e ?b clock] =>
      change (apply_neighbor_event s1 e b clock) with (apply_neighbor_event s1 e (negb (size next =? 0)) clock) end.
    rewrite E. rewrite exchange_done_next, pending_requests in *.
    destruct next as [|e next]; cbn [fst exchanged] in *.
    all: eexists; split; [reflexivity|]; phase_done'.
  - eexists. split; [reflexivity|]. rewrite Hs in h_state0. phase_done'.
Qed.

End Party.
End OspfParty.
