(* ===== verification/OspfAdjacency.v ===== *)
(** * Two routers in ExStart

    Both propose themselves, they agree on the master, describe their databases to
    each other and leave Exchange having requested exactly what each of them lacks.
    Descriptions are in flight between them, and every interleaving of sending and
    receiving is a run of the link. *)

From S2P Require Import Prelude Catalog Arena Packet Octets OspfFsm OspfHello OspfInterface Ipv6Packet OspfLsa OspfHeaders OspfLsdb OspfExchange OspfDatabase OspfThrottle Ordering OspfProcess OspfUpdate OspfDescription OspfSync OspfNegotiation OspfParty.
Import Arena.

Module OspfAdjacency.
Import OspfFsm OspfHello.OspfHello OspfLsa.OspfLsa OspfHeaders.OspfHeaders OspfProcess.OspfProcess OspfUpdate.OspfUpdate.
Import OspfDatabase.OspfDatabase OspfSync.OspfSync OspfNegotiation.OspfNegotiation OspfParty.OspfParty.

Section Exchange.
Context {sorting : Sorting}.

(** A description's packet, as the other router sees it. *)
Definition packet_of (s : t) (body : list Z) : PacketView :=
  mkPacket body (router_id_ s) (If_.area_id (protocol s)) database_description (version_ s) (If_.instance_id (protocol s)).

(** A pending description goes straight to the other router. *)
Definition turn (a b : t) (now clock : Z) : option (t * t) :=
  match emit_database_description a true now clock with
  | (Some body, a') =>
      match receive b (packet_of a body) now clock true with
      | (accepted, b) => Some (a', b)
      | _ => None
      end
  | _ => None
  end.

(** ** The link

    The router with the higher Router ID, the one with the lower, and the descriptions
    in flight in each direction, the oldest first. *)
Record link := mkLink { higher : t; lower : t; downward : list PacketView; upward : list PacketView }.

Inductive event := HigherSends | LowerSends | HigherHears | LowerHears.

(** A pending description is sent. *)
Definition speak (s : t) (now clock : Z) : option (PacketView * t) :=
  if pending_database_description (neighbor s) then
    match emit_database_description s true now clock with
    | (Some body, s') => Some (packet_of s body, s')
    | _ => None
    end
  else None.

Definition hear (s : t) (p : PacketView) (now clock : Z) : t := (receive s p now clock true).2.

(** [None]: the event cannot happen. *)
Definition advance (l : link) (now clock : Z) (e : event) : option link :=
  match e with
  | HigherSends => '(p, a) ← speak (higher l) now clock; Some (mkLink a (lower l) (downward l ++ [p]) (upward l))
  | LowerSends => '(p, b) ← speak (lower l) now clock; Some (mkLink (higher l) b (downward l) (upward l ++ [p]))
  | HigherHears =>
      match upward l with
      | p :: rest => Some (mkLink (hear (higher l) p now clock) (lower l) (downward l) rest)
      | [] => None
      end
  | LowerHears =>
      match downward l with
      | p :: rest => Some (mkLink (higher l) (hear (lower l) p now clock) rest (upward l))
      | [] => None
      end
  end.

Fixpoint runs (l : link) (now clock : Z) (es : list event) : option link :=
  match es with
  | [] => Some l
  | e :: es => l ← advance l now clock e; runs l now clock es
  end.

(** Nothing is pending and nothing in flight. *)
Definition quiet (l : link) (now clock : Z) : Prop := forall e, advance l now clock e = None.

Context (now clock capacity : Z).

Lemma receive_description s x decoded :
  state s = Some x -> p_type decoded = database_description ->
  receive s decoded now clock true = receive_database_description s x decoded now clock true.
Proof. intros Hs Ht. unfold receive. rewrite Hs, Ht. now rewrite bool_decide_eq_true_2. Qed.

Lemma packet_read (k : party) v s body sequence initial more master hs :
  holds k v s -> said k body sequence initial more master hs ->
  exists o, parse_database_description (packet_of s body)
    = Some (mkDescription (header_array hs (c_version k)) o sequence (If_.interface_mtu (c_protocol k)) initial more master false (c_version k)).
Proof.
  intros H Hs. destruct (Hs (If_.area_id (protocol s)) (If_.instance_id (protocol s))) as [o E]. exists o. unfold packet_of.
  now rewrite (h_router _ _ _ H), (h_version _ _ _ H).
Qed.

(** A packet in flight is a description of a party. *)
Record carries (k : party) (p : PacketView) (sequence : Z) (initial more master : bool) (hs : list LsaHeaderView) : Prop := mkCarries {
  cr_type : p_type p = database_description;
  cr_router : p_router_id p = c_router k;
  cr_body : exists o, parse_database_description p
    = Some (mkDescription (header_array hs (c_version k)) o sequence (If_.interface_mtu (c_protocol k)) initial more master false (c_version k))
}.

Lemma speak_silent k v s : holds k v s -> v_pending v = false -> speak s now clock = None.
Proof. intros H Hp. unfold speak. now rewrite (h_pending _ _ _ H), Hp. Qed.

Lemma speak_body k v s body s' sequence initial more master hs :
  holds k v s -> v_pending v = true -> emit_database_description s true now clock = (Some body, s') ->
  said k body sequence initial more master hs ->
  speak s now clock = Some (packet_of s body, s') /\ carries k (packet_of s body) sequence initial more master hs.
Proof.
  intros H Hp E Hs. unfold speak. rewrite (h_pending _ _ _ H), Hp, E. split; [reflexivity|].
  constructor; [reflexivity|exact (h_router _ _ _ H)|exact (packet_read _ _ _ _ _ _ _ _ _ H Hs)].
Qed.

(** A party as its exchange begins: in ExStart, nothing sent or requested. *)
Definition fresh (q : Z) (pending : bool) (k : party) (s : t) : Prop :=
  exists a b c, holds k (mkPhase NeighborState.exstart a false pending 0 q [] b c false) s.

Lemma speak_proposal k q s :
  able now capacity k -> fresh q true k s -> is_u32 q ->
  exists p s', speak s now clock = Some (p, s') /\ carries k p q true true true [] /\ fresh q false k s'.
Proof.
  intros A (a & b & c & H) Hq. destruct (emit_initial now capacity k A _ s clock H eq_refl Hq) as (body & s' & E & Sd & H').
  destruct (speak_body k _ s body s' _ _ _ _ _ H eq_refl E Sd) as [Es C]. exists (packet_of s body), s'. split_and!; [exact Es|exact C|].
  do 3 eexists. exact H'.
Qed.

Lemma speak_next k v s :
  able now capacity k -> holds k v s -> v_pending v = true -> v_negotiated v = true -> is_u32 (v_sequence v) ->
  0 <= v_cursor v <= size (c_summaries k) -> (v_complete v = true -> v_state v = NeighborState.exchange) ->
  let i := past (c_summaries k) (v_cursor v) capacity in
  let more := i <? size (c_summaries k) in
  exists p s', speak s now clock = Some (p, s')
    /\ carries k p (v_sequence v) false more (v_master v) (chunk (c_summaries k) (v_cursor v) capacity)
    /\ holds k (if negb (v_master v) && v_complete v && negb more then OspfParty.OspfParty.replied v i else sent v i more) s'.
Proof.
  intros A H Hp Hn Hq Hc Hx i more. destruct (emit_next now capacity k A v s clock H Hn Hq Hc Hx) as (body & s' & E & Sd & H').
  destruct (speak_body k _ s body s' _ _ _ _ _ H Hp E Sd) as [Es C]. now exists (packet_of s body), s'.
Qed.

Context (km ks : party).
Context (Am : able now capacity km) (As : able now capacity ks).
Context (Hversion : c_version km = c_version ks) (Hmtu : If_.interface_mtu (c_protocol km) = If_.interface_mtu (c_protocol ks)).
Context (Hrouter : c_router ks < c_router km).
Context (Hmax_m : size (c_summaries ks) <= c_maximum km) (Hmax_s : size (c_summaries km) <= c_maximum ks).

Definition asked_for (k other : party) (n : Z) (r : list LinkStateRequestEntry) : Prop :=
  asks now k (take (Z.to_nat n) (c_summaries other)) [] = Some r.

Lemma size_take_le {A} (l : list A) n : size (take n l) <= size l.
Proof. unfold size. rewrite length_take. lia. Qed.

Lemma asks_prefix k other n : size (c_summaries other) <= c_maximum k -> exists r, asked_for k other n r.
Proof.
  intros Hm. unfold asked_for, asks. pose proof (size_take_le (c_summaries other) (Z.to_nat n)).
  destruct (requests_for_spec (Ex.mk [] [] [] [] 0 (c_maximum k) 0 0 (c_version k) (c_permit k)) (c_database k) now
              (take (Z.to_nat n) (c_summaries other)) [] ltac:(constructor)) as (r & E & _); [|eauto].
  cbn [Ex.maximum_requests_]. change (size []) with 0. lia.
Qed.

Lemma asks_next k other n r r' :
  0 <= n <= size (c_summaries other) -> 0 <= capacity -> asked_for k other n r -> asked_for k other (past (c_summaries other) n capacity) r' ->
  asks now k (chunk (c_summaries other) n capacity) r = Some r'.
Proof.
  intros Hn Hc. unfold asked_for, asks. rewrite chunk_next by done. rewrite requests_for_app. intros -> E. exact E.
Qed.

Abbreviation Sm := (size (c_summaries km)).
Abbreviation Ss := (size (c_summaries ks)).

(** What the master describes from [i] on, and the slave from [j] on. *)
Abbreviation next_m i := (past (c_summaries km) i capacity).
Abbreviation next_s j := (past (c_summaries ks) j capacity).

Lemma capacity_positive : 1 <= capacity.
Proof. apply (a_capacity _ _ _ Am). Qed.

Lemma next_bounds {A} (l : list A) i : 0 <= i <= size l -> 0 <= past l i capacity <= size l /\ i <= past l i capacity.
Proof. pose proof capacity_positive. unfold past. lia. Qed.

(** ** What each of them hears *)

Lemma higher_discards q q' pending m p :
  fresh q pending km m -> carries ks p q' true true true [] -> hear m p now clock = m.
Proof.
  intros (a & b & c & H) [Ct Cr [o P]]. unfold hear. rewrite (receive_description m _ p (h_state _ _ _ H) Ct). cbn [v_state].
  rewrite (proposal_discarded now km p [] o (If_.interface_mtu (c_protocol ks)) ltac:(lia) _ m q' clock H eq_refl); [reflexivity| |lia].
  unfold heard. rewrite P, Hversion. reflexivity.
Qed.

Lemma lower_negotiates q q' pending s p :
  fresh q' pending ks s -> carries km p q true true true [] ->
  exists more, holds ks (mkPhase NeighborState.exchange false true true 0 q [] more true false) (hear s p now clock).
Proof.
  intros (a & b & c & H) [Ct Cr [o P]]. rewrite Hversion in P.
  destruct (slave_negotiates now capacity ks As p [] o (If_.interface_mtu (c_protocol km)) ltac:(lia) ltac:(constructor)
              _ s q clock H eq_refl eq_refl P) as (s' & E & H'); [lia|reflexivity|].
  unfold hear. rewrite (receive_description s _ p (h_state _ _ _ H) Ct). cbn [v_state]. rewrite E. cbn in H'. eauto.
Qed.

Lemma higher_negotiates q m p j more rm' :
  fresh q false km m -> carries ks p q false more false (chunk (c_summaries ks) j capacity) -> 0 <= q -> q + 1 < two32 ->
  asks now km (chunk (c_summaries ks) j capacity) [] = Some rm' ->
  exists more', holds km (mkPhase NeighborState.exchange true true true 0 (q + 1) rm' more' more false) (hear m p now clock).
Proof.
  intros (a & b & c & H) [Ct Cr [o P]] Hq Hw Hr. rewrite <- Hversion in P.
  pose proof (Forall_chunk _ _ j capacity (a_summaries _ _ _ As)) as F. rewrite <- Hversion in F.
  destruct (master_negotiates now capacity km Am p _ o (If_.interface_mtu (c_protocol ks)) ltac:(lia) F _ m more clock rm' H eq_refl P)
    as (m' & E & H'); [lia|exact Hr|].
  unfold hear. rewrite (receive_description m _ p (h_state _ _ _ H) Ct). cbn [v_state]. rewrite E. cbn in H'.
  rewrite u32_id in H' by (unfold is_u32; lia). eauto.
Qed.

Lemma lower_continues q last s p i j rs rs' more a b c :
  holds ks (mkPhase NeighborState.exchange false true false j last rs a b c) s -> last <= q ->
  carries km p q false more true (chunk (c_summaries km) i capacity) -> asks now ks (chunk (c_summaries km) i capacity) rs = Some rs' ->
  holds ks (mkPhase NeighborState.exchange false true true j q rs' a more (negb more)) (hear s p now clock).
Proof.
  intros H Hq [Ct Cr [o P]] Hr. rewrite Hversion in P.
  pose proof (Forall_chunk _ _ i capacity (a_summaries _ _ _ Am)) as F. rewrite Hversion in F.
  destruct (slave_continues now capacity ks As p _ o (If_.interface_mtu (c_protocol km)) ltac:(lia) F _ s q more clock rs' H eq_refl eq_refl P Hq Hr)
    as (s' & E & H').
  unfold hear. rewrite (receive_description s _ p (h_state _ _ _ H) Ct). cbn [v_state]. rewrite E. exact H'.
Qed.

Lemma higher_continues q m p i j rm rm' sent more b :
  holds km (mkPhase NeighborState.exchange true true false i q rm sent b false) m -> 0 <= q -> q + 1 < two32 ->
  carries ks p q false more false (chunk (c_summaries ks) j capacity) -> asks now km (chunk (c_summaries ks) j capacity) rm = Some rm' ->
  holds km (if negb sent && negb more then mkPhase (exchanged rm') true true false i q rm' sent more false
            else mkPhase NeighborState.exchange true true true i (q + 1) rm' sent more false) (hear m p now clock).
Proof.
  intros H Hq Hw [Ct Cr [o P]] Hr. rewrite <- Hversion in P.
  pose proof (Forall_chunk _ _ j capacity (a_summaries _ _ _ As)) as F. rewrite <- Hversion in F.
  destruct (master_continues now capacity km Am p _ o (If_.interface_mtu (c_protocol ks)) ltac:(lia) F _ m more clock rm' H eq_refl eq_refl P Hr)
    as (m' & E & H').
  unfold hear. rewrite (receive_description m _ p (h_state _ _ _ H) Ct). cbn [v_state]. rewrite E.
  cbn [v_sent_more v_negotiated v_cursor v_sequence v_complete] in H'. rewrite u32_id in H' by (unfold is_u32; lia). exact H'.
Qed.

(** ** The stages of the conversation *)

(** A party that has left Exchange with all its requests, agreed on its role and on
    the last sequence number. *)
Definition exchanged_with (k other : party) (role : bool) (q : Z) (s : t) : Prop :=
  exists r, asked_for k other (size (c_summaries other)) r
    /\ Ex.requests_ (database (neighbor s)) = r /\ state s = Some (exchanged r) /\ database_ s = c_database k
    /\ pending_database_description (neighbor s) = false
    /\ version_ s = c_version k /\ router_id_ s = c_router k /\ protocol s = c_protocol k
    /\ local_master (neighbor s) = role /\ dd_sequence (neighbor s) = q /\ negotiation_complete (neighbor s) = true.

Definition rank (i j : Z) : Z := 4 * ((Sm - i) + (Ss - j) + 1).

Record within (i j q : Z) : Prop := mkWithin {
  wi_cursors : 0 <= i <= Sm /\ 0 <= j <= Ss;
  wi_sequence : 0 <= q /\ q + (Sm - i) + (Ss - j) + 1 < two32
}.

Definition proposed (q : Z) : Prop := 0 <= q /\ q + Sm + Ss + 2 < two32.

(** The lower router's proposal, still in flight. *)
Definition crossing (l : list PacketView) : Prop := l = [] \/ exists p q, carries ks p q true true true [] /\ l = [p].

(** The number bounds the events that are left. *)
Inductive stage : Z -> link -> Prop :=
| opening q q' pm ps m s down up :
    fresh q pm km m -> fresh q' ps ks s -> proposed q -> is_u32 q' ->
    (if pm then down = [] else exists p, carries km p q true true true [] /\ down = [p]) ->
    (if ps then up = [] else crossing up) ->
    stage (rank 0 0 + (if pm then 4 else 3) + (if ps then 2 else size up)) (mkLink m s down up)
| answering q m s up more :
    fresh q false km m -> proposed q -> crossing up ->
    holds ks (mkPhase NeighborState.exchange false true true 0 q [] more true false) s ->
    stage (rank 0 0 + 2 + size up) (mkLink m s [] up)
| answered q m s up p more :
    fresh q false km m -> proposed q -> crossing up ->
    holds ks (mkPhase NeighborState.exchange false true false (next_s 0) q [] more true false) s ->
    carries ks p q false (next_s 0 <? Ss) false (chunk (c_summaries ks) 0 capacity) ->
    stage (rank 0 0 + 1 + size up) (mkLink m s [] (up ++ [p]))
| describing i j q last m s rm rs a b a' b' c :
    within i j q -> 0 <= last <= q -> asked_for km ks j rm -> asked_for ks km i rs ->
    holds km (mkPhase NeighborState.exchange true true true i q rm a b false) m ->
    holds ks (mkPhase NeighborState.exchange false true false j last rs a' b' c) s ->
    stage (rank i j) (mkLink m s [] [])
| described i j q last m s rm rs p b a' b' c :
    within i j q -> 0 <= last <= q -> asked_for km ks j rm -> asked_for ks km i rs ->
    holds km (mkPhase NeighborState.exchange true true false (next_m i) q rm (next_m i <? Sm) b false) m ->
    holds ks (mkPhase NeighborState.exchange false true false j last rs a' b' c) s ->
    carries km p q false (next_m i <? Sm) true (chunk (c_summaries km) i capacity) ->
    stage (rank i j - 1) (mkLink m s [p] [])
| replying i j q m s rm rs b a' :
    within i j q -> asked_for km ks j rm -> asked_for ks km (next_m i) rs ->
    holds km (mkPhase NeighborState.exchange true true false (next_m i) q rm (next_m i <? Sm) b false) m ->
    holds ks (mkPhase NeighborState.exchange false true true j q rs a' (next_m i <? Sm) (negb (next_m i <? Sm))) s ->
    stage (rank i j - 2) (mkLink m s [] [])
| replied_ i j q m s rm rs p b a' :
    within i j q -> asked_for km ks j rm -> asked_for ks km (next_m i) rs ->
    holds km (mkPhase NeighborState.exchange true true false (next_m i) q rm (next_m i <? Sm) b false) m ->
    holds ks (let v := mkPhase NeighborState.exchange false true true j q rs a' (next_m i <? Sm) (negb (next_m i <? Sm)) in
              if negb (next_m i <? Sm) && negb (next_s j <? Ss) then OspfParty.OspfParty.replied v (next_s j)
              else sent v (next_s j) (next_s j <? Ss)) s ->
    carries ks p q false (next_s j <? Ss) false (chunk (c_summaries ks) j capacity) ->
    stage (rank i j - 3) (mkLink m s [] [p])
| finished q m s :
    exchanged_with km ks true q m -> exchanged_with ks km false q s -> stage 0 (mkLink m s [] []).

(** Something can happen, and whatever happens leads on. *)
Definition moves (n : Z) (l : link) : Prop :=
  (exists e l', advance l now clock e = Some l') /\ forall e l', advance l now clock e = Some l' -> exists n', 0 <= n' < n /\ stage n' l'.

Lemma fresh_silent k q s : fresh q false k s -> speak s now clock = None.
Proof. intros (a & b & c & H). now apply (speak_silent k _ s H). Qed.

Lemma rank_bound i j : i <= Sm -> j <= Ss -> 4 <= rank i j.
Proof. unfold rank. lia. Qed.

Lemma size_one {A} (x : A) : size [x] = 1.
Proof. reflexivity. Qed.

(** The events of a link, one by one. *)
Ltac each_event := intros [] l'; cbn [advance higher lower upward downward app].

(** The proposals. *)
Lemma opening_moves q q' pm ps m s down up :
  fresh q pm km m -> fresh q' ps ks s -> proposed q -> is_u32 q' ->
  (if pm then down = [] else exists p, carries km p q true true true [] /\ down = [p]) ->
  (if ps then up = [] else crossing up) ->
  moves (rank 0 0 + (if pm then 4 else 3) + (if ps then 2 else size up)) (mkLink m s down up).
Proof.
  intros Fm Fs W Hq' Hd Hu. pose proof W as Hq. unfold proposed in Hq. assert (is_u32 q) as Iq by (unfold is_u32, size in *; lia).
  pose proof (rank_bound 0 0 (size_nonneg _) (size_nonneg _)) as Hr. pose proof (size_nonneg up) as Nu.
  split.
  - destruct pm.
    + destruct (speak_proposal km q m Am Fm Iq) as (p & m' & E & _). exists HigherSends. cbn [advance higher]. rewrite E. eauto.
    + destruct Hd as (p & _ & ->). exists LowerHears. cbn. eauto.
  - each_event.
    + destruct pm; [|now rewrite (fresh_silent km q m Fm)]. subst down.
      destruct (speak_proposal km q m Am Fm Iq) as (p & m' & E & C & Fm'). rewrite E. intros [= <-].
      eexists. split; [|eapply (opening q q' false ps); eauto]. destruct ps; lia.
    + destruct ps; [|now rewrite (fresh_silent ks q' s Fs)]. subst up.
      destruct (speak_proposal ks q' s As Fs Hq') as (p & s' & E & C & Fs'). rewrite E. intros [= <-]. cbn [app].
      eexists. split; [|eapply (opening q q' pm false); eauto; right; eauto]. rewrite size_one. destruct pm; lia.
    + destruct ps; [now subst up|]. destruct Hu as [->|(p & q2 & C & ->)]; [done|]. intros [= <-].
      rewrite (higher_discards q q2 pm m p Fm C). eexists. split; [|eapply (opening q q' pm false); eauto; now left].
      rewrite size_one. change (size []) with 0. destruct pm; lia.
    + destruct pm; [now subst down|]. destruct Hd as (p & C & ->). intros [= <-].
      destruct (lower_negotiates q q' ps s p Fs C) as [more H]. eexists. split; [|eapply answering; eauto].
      * destruct ps; [subst up; change (size []) with 0|]; lia.
      * destruct ps; [now left|exact Hu].
Qed.

(** The slave's first description. *)
Lemma answering_moves q m s up more :
  fresh q false km m -> proposed q -> crossing up ->
  holds ks (mkPhase NeighborState.exchange false true true 0 q [] more true false) s ->
  moves (rank 0 0 + 2 + size up) (mkLink m s [] up).
Proof.
  intros Fm W Hu H. pose proof W as Hq. unfold proposed in Hq. assert (is_u32 q) as Iq by (unfold is_u32, size in *; lia).
  pose proof (rank_bound 0 0 (size_nonneg _) (size_nonneg _)) as Hr. pose proof (size_nonneg up) as Nu.
  destruct (speak_next ks _ s As H eq_refl eq_refl Iq ltac:(cbn; pose proof (size_nonneg (c_summaries ks)); lia) ltac:(done)) as (p & s' & E & C & H').
  cbn [v_master v_cursor v_sequence v_complete negb andb] in C, H'. split.
  - exists LowerSends. cbn [advance lower]. rewrite E. eauto.
  - each_event.
    + now rewrite (fresh_silent km q m Fm).
    + rewrite E. intros [= <-]. eexists. split; [|eapply answered; eauto; exact H']. lia.
    + destruct Hu as [->|(p2 & q2 & C2 & ->)]; [done|]. intros [= <-]. rewrite (higher_discards q q2 false m p2 Fm C2).
      eexists. split; [|eapply answering; eauto; now left]. rewrite size_one. change (size []) with 0. lia.
    + done.
Qed.

Lemma asked_none k other : asked_for k other 0 [].
Proof. reflexivity. Qed.

Lemma answered_moves q m s up p more :
  fresh q false km m -> proposed q -> crossing up ->
  holds ks (mkPhase NeighborState.exchange false true false (next_s 0) q [] more true false) s ->
  carries ks p q false (next_s 0 <? Ss) false (chunk (c_summaries ks) 0 capacity) ->
  moves (rank 0 0 + 1 + size up) (mkLink m s [] (up ++ [p])).
Proof.
  intros Fm W Hu H C. pose proof W as Hq. unfold proposed in Hq. pose proof capacity_positive as Hc.
  pose proof (size_nonneg (c_summaries km)) as Nm. pose proof (size_nonneg (c_summaries ks)) as Ns.
  pose proof (next_bounds (c_summaries ks) 0 ltac:(lia)) as [B1 B2].
  pose proof (rank_bound 0 0 Nm Ns) as Hr. pose proof (size_nonneg up) as Nu. split.
  - exists HigherHears. cbn [advance upward]. destruct up; cbn [app]; eauto.
  - each_event.
    + now rewrite (fresh_silent km q m Fm).
    + now rewrite (speak_silent ks _ s H eq_refl).
    + destruct Hu as [->|(p2 & q2 & C2 & ->)]; cbn [app]; intros [= <-].
      * destruct (asks_prefix km ks (next_s 0) Hmax_m) as [rm Rm].
        destruct (higher_negotiates q m p 0 _ rm Fm C ltac:(lia) ltac:(lia)
                    (asks_next km ks 0 [] rm ltac:(lia) ltac:(lia) (asked_none km ks) Rm)) as [more' Hm].
        eexists. split; [|eapply (describing 0 (next_s 0) (q + 1) q); [constructor; lia|lia|exact Rm|apply asked_none|exact Hm|exact H]].
        change (size []) with 0. unfold rank. lia.
      * rewrite (higher_discards q q2 false m p2 Fm C2). eexists. split; [|eapply (answered q m s []); eauto; now left].
        rewrite size_one. change (size []) with 0. lia.
    + done.
Qed.

(** One description of the master and its answer. *)
Lemma describing_moves i j q last m s rm rs a b a' b' c :
  within i j q -> 0 <= last <= q -> asked_for km ks j rm -> asked_for ks km i rs ->
  holds km (mkPhase NeighborState.exchange true true true i q rm a b false) m ->
  holds ks (mkPhase NeighborState.exchange false true false j last rs a' b' c) s ->
  moves (rank i j) (mkLink m s [] []).
Proof.
  intros W Hl Rm Rs Hm Hs. pose proof W as [[Hi Hj] Hq]. assert (is_u32 q) as Iq by (unfold is_u32; lia).
  pose proof (rank_bound i j (proj2 Hi) (proj2 Hj)) as Hr.
  destruct (speak_next km _ m Am Hm eq_refl eq_refl Iq Hi ltac:(done)) as (p & m' & E & C & H').
  cbn [v_master v_cursor v_sequence v_complete negb andb] in C, H'. split.
  - exists HigherSends. cbn [advance higher]. rewrite E. eauto.
  - each_event; [|now rewrite (speak_silent ks _ s Hs eq_refl)|done|done].
    rewrite E. intros [= <-]. eexists. split; [|eapply described; eauto; exact H']. lia.
Qed.

Lemma described_moves i j q last m s rm rs p b a' b' c :
  within i j q -> 0 <= last <= q -> asked_for km ks j rm -> asked_for ks km i rs ->
  holds km (mkPhase NeighborState.exchange true true false (next_m i) q rm (next_m i <? Sm) b false) m ->
  holds ks (mkPhase NeighborState.exchange false true false j last rs a' b' c) s ->
  carries km p q false (next_m i <? Sm) true (chunk (c_summaries km) i capacity) ->
  moves (rank i j - 1) (mkLink m s [p] []).
Proof.
  intros W Hl Rm Rs Hm Hs C. pose proof W as [[Hi Hj] Hq]. pose proof (rank_bound i j (proj2 Hi) (proj2 Hj)) as Hr.
  pose proof capacity_positive as Hc. split; [exists LowerHears; cbn; eauto|].
  each_event; [now rewrite (speak_silent km _ m Hm eq_refl)|now rewrite (speak_silent ks _ s Hs eq_refl)|done|].
  intros [= <-]. destruct (asks_prefix ks km (next_m i) Hmax_s) as [rs' Rs'].
  pose proof (lower_continues q last s p i j rs rs' _ _ _ _ Hs (proj2 Hl) C (asks_next ks km i rs rs' Hi ltac:(lia) Rs Rs')) as H.
  eexists. split; [|eapply replying; eauto]. lia.
Qed.

Lemma replying_moves i j q m s rm rs b a' :
  within i j q -> asked_for km ks j rm -> asked_for ks km (next_m i) rs ->
  holds km (mkPhase NeighborState.exchange true true false (next_m i) q rm (next_m i <? Sm) b false) m ->
  holds ks (mkPhase NeighborState.exchange false true true j q rs a' (next_m i <? Sm) (negb (next_m i <? Sm))) s ->
  moves (rank i j - 2) (mkLink m s [] []).
Proof.
  intros W Rm Rs Hm Hs. pose proof W as [[Hi Hj] Hq]. assert (is_u32 q) as Iq by (unfold is_u32; lia).
  pose proof (rank_bound i j (proj2 Hi) (proj2 Hj)) as Hr.
  destruct (speak_next ks _ s As Hs eq_refl eq_refl Iq Hj ltac:(done)) as (p & s' & E & C & H').
  cbn [v_master v_cursor v_sequence v_complete negb andb] in C, H'. split.
  - exists LowerSends. cbn [advance lower]. rewrite E. eauto.
  - each_event; [now rewrite (speak_silent km _ m Hm eq_refl)| |done|done].
    rewrite E. intros [= <-]. eexists. split; [|eapply replied_; eauto; exact H']. lia.
Qed.

Lemma exchanged_holds (k other : party) role q r cursor sent peer s :
  asked_for k other (size (c_summaries other)) r ->
  holds k (mkPhase (exchanged r) role true false cursor q r sent peer false) s -> exchanged_with k other role q s.
Proof. intros Hr []. exists r. now split_and!. Qed.

Lemma replied_moves i j q m s rm rs p b a' :
  within i j q -> asked_for km ks j rm -> asked_for ks km (next_m i) rs ->
  holds km (mkPhase NeighborState.exchange true true false (next_m i) q rm (next_m i <? Sm) b false) m ->
  holds ks (let v := mkPhase NeighborState.exchange false true true j q rs a' (next_m i <? Sm) (negb (next_m i <? Sm)) in
            if negb (next_m i <? Sm) && negb (next_s j <? Ss) then OspfParty.OspfParty.replied v (next_s j)
            else sent v (next_s j) (next_s j <? Ss)) s ->
  carries ks p q false (next_s j <? Ss) false (chunk (c_summaries ks) j capacity) ->
  moves (rank i j - 3) (mkLink m s [] [p]).
Proof.
  intros W Rm Rs Hm Hs C. pose proof W as [[Hi Hj] Hq]. pose proof (rank_bound i j (proj2 Hi) (proj2 Hj)) as Hr.
  pose proof capacity_positive as Hc. pose proof (next_bounds (c_summaries km) i Hi) as Bi. pose proof (next_bounds (c_summaries ks) j Hj) as Bj.
  assert (next_m i = Sm \/ i < next_m i < Sm) as Di by (unfold past in *; lia).
  assert (next_s j = Ss \/ j < next_s j < Ss) as Dj by (unfold past in *; lia).
  assert (speak s now clock = None) as Silent.
  { unfold OspfParty.OspfParty.replied, sent in Hs. destruct (_ && _) in Hs; exact (speak_silent ks _ s Hs eq_refl). }
  split; [exists HigherHears; cbn; eauto|]. each_event; [now rewrite (speak_silent km _ m Hm eq_refl)|now rewrite Silent| |done].
  intros [= <-]. destruct (asks_prefix km ks (next_s j) Hmax_m) as [rm' Rm'].
  pose proof (higher_continues q m p _ j rm rm' _ _ _ Hm (proj1 Hq) ltac:(lia) C (asks_next km ks j rm rm' Hj ltac:(lia) Rm Rm')) as H.
  destruct (Z.ltb_spec (next_m i) Sm) as [Li|Li], (Z.ltb_spec (next_s j) Ss) as [Lj|Lj]; cbn [negb andb] in H, Hs.
  1-3: eexists; (split; [|eapply (describing (next_m i) (next_s j) (q + 1) q); [constructor; lia|lia|exact Rm'|exact Rs|exact H|exact Hs]]);
    unfold rank; lia.
  exists 0. split; [lia|]. assert (next_s j = Ss) as Ej by lia. assert (next_m i = Sm) as Ei by lia. rewrite Ej in *. rewrite Ei in *.
  eapply finished; eapply exchanged_holds; [exact Rm'|exact H|exact Rs|exact Hs].
Qed.

Lemma stage_moves n l : stage n l -> 0 < n -> moves n l.
Proof.
  intros H. destruct H; intros Hn;
    [eapply opening_moves|eapply answering_moves|eapply answered_moves|eapply describing_moves|eapply described_moves|eapply replying_moves
    |eapply replied_moves|lia]; eassumption.
Qed.

(** The exchange is over for both. *)
Definition over (l : link) : Prop :=
  exists q, exchanged_with km ks true q (higher l) /\ exchanged_with ks km false q (lower l) /\ downward l = [] /\ upward l = [].

Lemma stage_rank n l : stage n l -> 0 < n \/ n = 0 /\ over l.
Proof.
  pose proof (rank_bound 0 0 (size_nonneg _) (size_nonneg _)) as H0.
  intros []; [left..|right; split; [done|]; exists q; now split_and!].
  1-3: pose proof (size_nonneg up); try destruct pm, ps; lia.
  all: match goal with W : within ?i ?j _ |- _ =>
         pose proof (rank_bound i j (proj2 (proj1 (wi_cursors _ _ _ W))) (proj2 (proj2 (wi_cursors _ _ _ W)))) end; lia.
Qed.

(** Every run from a stage is bounded, and one that cannot go on has finished. *)
Lemma stage_runs es : forall n l l',
  stage n l -> runs l now clock es = Some l' -> exists n', stage n' l' /\ Z.of_nat (length es) <= n - n'.
Proof.
  induction es as [|e es IH]; intros n l l' H; cbn [runs length].
  - intros [= <-]. exists n. split; [exact H|lia].
  - destruct (advance l now clock e) as [l1|] eqn:E; [|discriminate]. cbn [mbind option_bind]. intros Er.
    destruct (stage_rank n l H) as [Hn|[-> (q & X & Y & Hd & Hu)]].
    + destruct (proj2 (stage_moves n l H Hn) e l1 E) as (n1 & Hn1 & H1).
      destruct (IH n1 l1 l' H1 Er) as (n' & H' & Hle). exists n'. split; [exact H'|lia].
    + exfalso. destruct l as [m s down up]. cbn in X, Y, Hd, Hu. subst.
      destruct X as (? & _ & _ & _ & _ & Xp & _), Y as (? & _ & _ & _ & _ & Yp & _).
      destruct e; cbn in E; unfold speak in E; rewrite ?Xp, ?Yp in E; discriminate.
Qed.

(** And every run can go on until it is quiet. *)
Lemma stage_quiet n l : stage n l -> exists es l', runs l now clock es = Some l' /\ quiet l' now clock.
Proof.
  remember (Z.to_nat n) as k eqn:Ek. revert n l Ek. induction (lt_wf k) as [k _ IH]. intros n l -> H.
  destruct (stage_rank n l H) as [Hn|[_ (q & X & Y & Hd & Hu)]].
  - destruct (stage_moves n l H Hn) as [(e & l1 & E) Hm]. destruct (Hm e l1 E) as (n1 & Hn1 & H1).
    destruct (IH (Z.to_nat n1) ltac:(lia) n1 l1 eq_refl H1) as (es & l' & Er & Hq).
    exists (e :: es), l'. cbn [runs]. now rewrite E.
  - exists [], l. split; [reflexivity|]. destruct l as [m s down up]. cbn in X, Y, Hd, Hu. subst.
    destruct X as (? & _ & _ & _ & _ & Xp & _), Y as (? & _ & _ & _ & _ & Yp & _).
    intros []; cbn; unfold speak; now rewrite ?Xp, ?Yp.
Qed.

(** From ExStart, whoever proposes itself first. *)
Lemma link_exchanges q q' m s es l :
  fresh q true km m -> fresh q' true ks s -> 0 <= q -> is_u32 q' -> q + Sm + Ss + 2 < two32 ->
  runs (mkLink m s [] []) now clock es = Some l ->
  Z.of_nat (length es) <= 4 * (Sm + Ss) + 10
  /\ (quiet l now clock -> over l)
  /\ exists es' l', runs l now clock es' = Some l' /\ quiet l' now clock.
Proof.
  intros Hm Hs Hq Hq' Hw E.
  destruct (stage_runs es _ _ l (opening q q' true true m s [] [] Hm Hs (conj Hq Hw) Hq' eq_refl eq_refl) E) as (n & H & Hn).
  pose proof (stage_quiet n l H) as Hend.
  destruct (stage_rank n l H) as [Hn'|[-> Ho]]; (split; [unfold rank in Hn; lia|]); (split; [|exact Hend]); [|auto]. intros Hquiet.
  destruct (proj1 (stage_moves n l H Hn')) as (e & l' & Ee). now rewrite Hquiet in Ee.
Qed.

End Exchange.
End OspfAdjacency.
