(* ===== verification/OspfSummaries.v ===== *)
(** * From the database to the requests

    What a router describes of its database when an exchange begins, and what the
    two routers of an exchange request of each other's databases. *)

From S2P Require Import Prelude Catalog Arena Packet Octets OspfFsm OspfHello OspfInterface Ipv6Packet OspfLsa OspfHeaders OspfLsdb OspfExchange OspfDatabase OspfThrottle Ordering OspfProcess OspfUpdate OspfDescription OspfSync OspfNegotiation OspfParty OspfAdjacency.
Import Arena.

Module OspfSummaries.
Import OspfFsm OspfHello.OspfHello OspfLsa.OspfLsa OspfHeaders.OspfHeaders OspfProcess.OspfProcess OspfUpdate.OspfUpdate.
Import OspfDatabase.OspfDatabase OspfSync.OspfSync OspfNegotiation.OspfNegotiation OspfParty.OspfParty OspfAdjacency.OspfAdjacency.

#[local] Existing Instances Ex.t_settable OspfProcess.t_settable NeighborExchange_settable Db.FloodingScope_eq_dec.

(** The header a record is described by; none once it has MaxAge, and none of AS
    scope on a virtual link. *)
Definition described (version now : Z) (permit : bool) (r : Db.LsaRecord) : option LsaHeaderView :=
  match lsa_header (Db.bytes r) version with
  | Some h =>
      if (permit || negb (bool_decide (Db.k_scope (Db.key r) = Db.autonomous_system))) && negb (Db.age r now =? Db.max_age_seconds)
      then Some (Db.with_age h (Db.age r now)) else None
  | None => None
  end.

Lemma age_u16 r now : 0 <= Db.age_at_install r <= Db.max_age_seconds -> is_u16 (Db.age r now).
Proof. intros H. unfold Db.age. case_if; [unfold is_u16, Db.max_age_seconds in *; lia|apply u16_range]. Qed.

Lemma with_age_ranged version h a : ranged version h -> is_u16 a -> ranged version (Db.with_age h a).
Proof. intros [] Ha. now constructor. Qed.

Lemma described_ranged version now permit r h : sound version now r -> described version now permit r = Some h -> ranged version h.
Proof.
  intros [S1 (c & Ec & _) _ _ S5 _]. unfold described. rewrite Ec. case_if; [|discriminate]. intros [= <-].
  apply with_age_ranged; [eapply header_ranged; eassumption|now apply age_u16].
Qed.

Lemma collect_described s records version now permit : forall next,
  Forall (sound version now) records -> size next + size records <= Ex.maximum_summaries_ s ->
  Ex.collect s records version now permit next = Some (next ++ omap (described version now permit) records).
Proof.
  induction records as [|r records IH]; intros next Hs Hn; cbn [Ex.collect omap list_omap]; [now rewrite app_nil_r|].
  apply list.Forall_cons in Hs as [[_ (c & Ec & _) _ _ _ _] Hs]. assert (size (r :: records) = 1 + size records) as El by (unfold size; cbn [length]; lia).
  pose proof (size_nonneg records). unfold described at 1. rewrite Ec.
  change (age_seconds (Db.with_age c (Db.age r now))) with (Db.age r now). destruct permit; cbn [negb andb orb].
  - destruct (Db.age r now =? Db.max_age_seconds); cbn [negb]; [apply IH; [done|lia]|].
    rewrite (proj2 (Z.eqb_neq _ _)), IH, <- app_assoc; [done|done|rewrite size_app; change (size [_]) with 1; lia|lia].
  - destruct (bool_decide _); cbn [negb andb]; [apply IH; [done|lia]|].
    destruct (Db.age r now =? Db.max_age_seconds); cbn [negb]; [apply IH; [done|lia]|].
    rewrite (proj2 (Z.eqb_neq _ _)), IH, <- app_assoc; [done|done|rewrite size_app; change (size [_]) with 1; lia|lia].
Qed.

Lemma summary_order : strict_weak Ex.summary_less.
Proof. apply (keyed_strict_weak _ (fun h => [lsa_type h; link_state_id h; advertising_router h]) 3); [done|].
  intros x y. unfold Ex.summary_less. rewrite !lex_cons. repeat case_if; cbn [lex]; (reflexivity || lia). Qed.

Section Begin.
Context {sorting : Sorting}.

Definition summaries (version now : Z) (permit : bool) (db : Db.t) : list LsaHeaderView :=
  std_sort Ex.summary_less (omap (described version now permit) (Db.records_ db)).

Lemma summaries_in version now permit db h :
  h ∈ summaries version now permit db <-> exists r, r ∈ Db.records_ db /\ described version now permit r = Some h.
Proof.
  unfold summaries. pose proof (std_sort_permutes _ (omap (described version now permit) (Db.records_ db)) summary_order) as P.
  rewrite P. apply list_elem_of_omap.
Qed.

Lemma size_summaries version now permit db : size (summaries version now permit db) <= size (Db.records_ db).
Proof.
  unfold size, summaries. rewrite (Permutation_length (std_sort_permutes _ _ summary_order)).
  induction (Db.records_ db) as [|r l IH]; cbn [omap list_omap length]; [lia|]. destruct (described _ _ _ r); cbn [length]; lia.
Qed.

Lemma summaries_ranged version now permit db : wf version now db -> Forall (ranged version) (summaries version now permit db).
Proof.
  intros [W _ _]. apply list.Forall_forall. intros h (r & Hr & Hd)%summaries_in. rewrite list.Forall_forall in W.
  exact (described_ranged _ _ _ _ _ (W r Hr) Hd).
Qed.

(** A router that can begin an exchange, and describe [capacity] headers at a time. *)
Record ready (now capacity : Z) (s : t) : Prop := mkReady {
  rd_state : state s = Some NeighborState.exstart;
  rd_version : known_version (version_ s) = true;
  rd_capacity : header_capacity (If_.interface_mtu (protocol s)) (version_ s) = Some capacity /\ 1 <= capacity;
  rd_mtu : 0 <= If_.interface_mtu (protocol s) <= Ipv6Packet.Ipv6.maximum_frame_octets;
  rd_database : wf (version_ s) now (database_ s);
  rd_room : size (Db.records_ (database_ s)) <= Ex.maximum_summaries_ (database (neighbor s));
  rd_sequence : 0 <= next_dd_sequence_ s < u32_max
}.

(** AS-scope advertisements stay off virtual links. *)
Definition permit (s : t) : bool := negb (same (If_.network_type (protocol s)) NetworkType.virtual_link).

(** The actions that begin an exchange. *)
Definition begins (actions : Z) : Prop :=
  has_action actions NeighborAction.begin_database_exchange = true /\ has_action actions NeighborAction.delete_neighbor = false.

Definition party_of (now : Z) (s : t) : party :=
  mkParty (router_id_ s) (version_ s) (protocol s) (database_ s) (summaries (version_ s) now (permit s) (database_ s))
    (Ex.maximum_requests_ (database (neighbor s))) (permit s).

Lemma state_ext s s' : runtime s = runtime s' -> n_router_id (neighbor s) = n_router_id (neighbor s') -> state s = state s'.
Proof. unfold state. now intros -> ->. Qed.

Lemma begin_fresh now capacity s actions :
  ready now capacity s -> begins actions ->
  exists s', apply_neighbor_actions s actions now true = (applied, s')
    /\ fresh (next_dd_sequence_ s + 1) true (party_of now s) s'.
Proof.
  intros [R1 R2 [R3 R4] R5 R6 R7 R8] [B1 B2]. unfold apply_neighbor_actions. rewrite B1, B2. cbn [negb].
  set (s1 := if has_action actions NeighborAction.clear_adjacency then _ else s).
  assert (Ex.begin (database (neighbor s1)) (Db.records_ (database_ s1)) (version_ s1) now (permit s1) true
          = (true, Ex.mk (summaries (version_ s) now (permit s) (database_ s)) [] [] [] (Ex.maximum_summaries_ (database (neighbor s)))
                     (Ex.maximum_requests_ (database (neighbor s))) (Ex.maximum_retransmissions_ (database (neighbor s)))
                     (Ex.maximum_acknowledgments_ (database (neighbor s))) (version_ s) (permit s))) as E.
  { unfold Ex.begin. assert (version_ s1 = version_ s /\ database_ s1 = database_ s /\ permit s1 = permit s
      /\ Ex.maximum_summaries_ (database (neighbor s1)) = Ex.maximum_summaries_ (database (neighbor s))
      /\ Ex.maximum_requests_ (database (neighbor s1)) = Ex.maximum_requests_ (database (neighbor s))
      /\ Ex.maximum_retransmissions_ (database (neighbor s1)) = Ex.maximum_retransmissions_ (database (neighbor s))
      /\ Ex.maximum_acknowledgments_ (database (neighbor s1)) = Ex.maximum_acknowledgments_ (database (neighbor s)))
      as (-> & -> & -> & Em & -> & -> & ->) by (unfold s1; destruct (has_action actions NeighborAction.clear_adjacency); split_and!; reflexivity).
    rewrite R2. cbn [negb orb]. rewrite collect_described; [now rewrite Em|apply R6|now rewrite Em]. }
  change (negb (same (If_.network_type (protocol s1)) NetworkType.virtual_link)) with (permit s1). rewrite E. cbn [negb].
  eexists. split; [reflexivity|]. do 3 eexists.
  assert (state s1 = Some NeighborState.exstart) as Es by (unfold s1; destruct (has_action actions NeighborAction.clear_adjacency); exact R1).
  assert (u32 (next_dd_sequence_ s + 1) = next_dd_sequence_ s + 1) as Eq by (apply u32_id; unfold is_u32, u32_max in *; lia).
  clear E. unfold s1 in *. destruct (has_action actions NeighborAction.clear_adjacency); constructor.
  9, 27: refine (eq_trans _ Es); apply state_ext; cbn; reflexivity.
  13, 30: exact Eq.
  all: reflexivity.
Qed.

Lemma party_able now capacity s : ready now capacity s -> able now capacity (party_of now s).
Proof. intros []. constructor; cbn; auto. now apply summaries_ranged. Qed.

(** What a router [a] requests of the database of [b]. *)
Definition requested (now : Z) (a b : t) (e : LinkStateRequestEntry) : Prop :=
  exists r h, r ∈ Db.records_ (database_ b) /\ described (version_ b) now (permit b) r = Some h
    /\ permitted (permit a) h = true /\ lacks (database_ a) (version_ a) now h = true /\ e = Ex.request_of h.

(** The neighbor after the exchange: every request noted once. *)
Definition past_exchange (now : Z) (a b a' : t) : Prop :=
  let requests := Ex.requests_ (database (neighbor a')) in
  state a' = Some (match requests with [] => NeighborState.full | _ :: _ => NeighborState.loading end)
  /\ NoDup requests /\ (forall e, e ∈ requests <-> requested now a b e) /\ database_ a' = database_ a
  /\ version_ a' = version_ a /\ router_id_ a' = router_id_ a /\ protocol a' = protocol a.

Lemma exchanged_past now a b role q a' :
  version_ a = version_ b -> size (Db.records_ (database_ b)) <= Ex.maximum_requests_ (database (neighbor a)) ->
  exchanged_with now (party_of now a) (party_of now b) role q a' -> past_exchange now a b a'.
Proof.
  intros Hv Hm (r & Ha & Er & Es & Ed & _ & Ev & Eid & Ep & _). unfold past_exchange. cbv zeta. rewrite Er.
  unfold asked_for, asks in Ha. cbn [c_summaries party_of] in Ha.
  rewrite take_ge in Ha by (unfold size; lia).
  pose proof (size_summaries (version_ b) now (permit b) (database_ b)) as Hs.
  destruct (requests_for_spec (Ex.mk [] [] [] [] 0 (c_maximum (party_of now a)) 0 0 (c_version (party_of now a)) (c_permit (party_of now a)))
              (c_database (party_of now a)) now (summaries (version_ b) now (permit b) (database_ b)) [] ltac:(constructor))
    as (r' & E & Hn & _ & Hin).
  { cbn [Ex.maximum_requests_ c_maximum party_of]. change (size []) with 0. lia. }
  rewrite E in Ha. injection Ha as ->. split_and!; [exact Es|exact Hn| |exact Ed|exact Ev|exact Eid|exact Ep].
  intros e. rewrite Hin. unfold requested. split.
  - intros [He|(h & (x & Hx & Hd)%summaries_in & [A1 A2] & ->)]; [inversion He|]. exists x, h. now split_and!.
  - intros (x & h & Hx & Hd & A1 & A2 & ->). right. exists h. split; [apply summaries_in; eauto|]. now split.
Qed.

(** The outcome of the negotiation: the first router is master, and both ended on one
    sequence number. *)
Definition agreed (a b : t) : Prop :=
  negotiation_complete (neighbor a) = true /\ negotiation_complete (neighbor b) = true
  /\ local_master (neighbor a) = true /\ local_master (neighbor b) = false
  /\ dd_sequence (neighbor a) = dd_sequence (neighbor b).

(** C3: Two routers that begin a database exchange with each other, over a link that
    loses nothing, with the same MTU and sequence numbers that do not wrap, leave
    Exchange, in whatever order they send and descriptions arrive while no
    retransmission is due, so also when their proposals cross: a run has at most four events per record and ten more, every
    run can go on until nothing is pending or in flight, and then they agree on the
    one with the larger Router ID as master and on the last sequence number; each
    has requested exactly the advertisements of the other's database that are not at
    MaxAge, may cross the link, and are missing from its own or newer there, each
    once, and is Full when there are none and Loading otherwise. *)
Theorem exchange_completes now clock capacity a b actions actions' :
  ready now capacity a -> ready now capacity b -> begins actions -> begins actions' ->
  version_ a = version_ b -> If_.interface_mtu (protocol a) = If_.interface_mtu (protocol b) -> router_id_ b < router_id_ a ->
  size (Db.records_ (database_ b)) <= Ex.maximum_requests_ (database (neighbor a)) ->
  size (Db.records_ (database_ a)) <= Ex.maximum_requests_ (database (neighbor b)) ->
  next_dd_sequence_ a + size (Db.records_ (database_ a)) + size (Db.records_ (database_ b)) + 3 < two32 ->
  exists a1 b1,
    apply_neighbor_actions a actions now true = (applied, a1) /\ apply_neighbor_actions b actions' now true = (applied, b1)
    /\ forall es l, runs (mkLink a1 b1 [] []) now clock es = Some l ->
         Z.of_nat (length es) <= 4 * (size (Db.records_ (database_ a)) + size (Db.records_ (database_ b))) + 10
         /\ (exists es' l', runs l now clock es' = Some l' /\ quiet l' now clock)
         /\ (quiet l now clock ->
              downward l = [] /\ upward l = [] /\ agreed (higher l) (lower l)
              /\ past_exchange now a b (higher l) /\ past_exchange now b a (lower l)).
Proof.
  intros Ra Rb Ba Bb Hv Hm Hr Ma Mb Hw.
  destruct (begin_fresh now capacity a actions Ra Ba) as (a1 & Ea & Fa).
  destruct (begin_fresh now capacity b actions' Rb Bb) as (b1 & Eb & Fb).
  pose proof (size_summaries (version_ a) now (permit a) (database_ a)) as Sa.
  pose proof (size_summaries (version_ b) now (permit b) (database_ b)) as Sb.
  pose proof (rd_sequence _ _ _ Ra) as Hs. pose proof (rd_sequence _ _ _ Rb) as Hs'.
  exists a1, b1. split_and!; [exact Ea|exact Eb|]. intros es l E.
  destruct (link_exchanges now clock capacity (party_of now a) (party_of now b) (party_able _ _ _ Ra) (party_able _ _ _ Rb) Hv Hm Hr
              ltac:(cbn; lia) ltac:(cbn; lia) _ _ a1 b1 es l Fa Fb ltac:(lia) ltac:(unfold is_u32, u32_max in *; lia) ltac:(cbn; lia) E)
    as (Hn & Ho & Hq).
  cbn [c_summaries party_of] in Hn. split_and!; [lia|exact Hq|]. intros Hquiet. destruct (Ho Hquiet) as (q & X & Y & Hd & Hu).
  pose proof X as (? & _ & _ & _ & _ & _ & _ & _ & _ & X1 & X2 & X3). pose proof Y as (? & _ & _ & _ & _ & _ & _ & _ & _ & Y1 & Y2 & Y3).
  split_and!; [exact Hd|exact Hu| |..].
  - unfold agreed. now rewrite X1, X2, X3, Y1, Y2, Y3.
  - exact (exchanged_past now a b true q _ Hv Ma X).
  - exact (exchanged_past now b a false q _ (eq_sym Hv) Mb Y).
Qed.

End Begin.
End OspfSummaries.
