(* ===== verification/OspfLoading.v ===== *)
(** * Loading

    The advertisements a router requested, sent to it in an update, synchronize its
    database and complete the adjacency. *)

From S2P Require Import Prelude Catalog Arena Packet Octets OspfFsm OspfHello OspfInterface OspfLsa OspfHeaders OspfLsdb OspfExchange OspfDatabase OspfFlooding OspfThrottle Ordering OspfProcess OspfUpdate OspfDescription OspfSync OspfNegotiation OspfParty OspfAdjacency OspfSummaries.
Import Arena.

Module OspfLoading.
Import OspfFsm OspfHello.OspfHello OspfLsa.OspfLsa OspfHeaders.OspfHeaders OspfProcess.OspfProcess OspfUpdate.OspfUpdate Octets.Octets.
Import OspfDatabase.OspfDatabase OspfFlooding.OspfFlooding OspfSync.OspfSync OspfNegotiation.OspfNegotiation OspfSummaries.OspfSummaries.

#[local] Existing Instances Ex.t_settable OspfProcess.t_settable NeighborExchange_settable Db.FloodingScope_eq_dec Db.LsaKey_eq_dec
  Db.InstallResult_eq_dec LinkStateRequestEntry_eq_dec LsaHeaderView_eq_dec Db.t_settable Db.LsaRecency_eq_dec.

(** ** Updates on the wire *)

Lemma header_prefix l rest version h : lsa_header l version = Some h -> lsa_header (l ++ rest) version = Some h.
Proof.
  intros H. pose proof (header_fields _ _ _ H) as (_ & Hs & _). revert H. unfold lsa_header. pose proof (size_nonneg rest).
  rewrite size_app, (proj2 (Z.ltb_ge (size l) _)), (proj2 (Z.ltb_ge (size l + _) _)) by (unfold lsa_header_octets; lia).
  assert (forall k, 0 <= k < 20 -> get (l ++ rest) k = get l k) as Hg by (intros; apply get_before_app; lia).
  unfold read16, read32. now rewrite !Hg by lia.
Qed.

(** Complete advertisements *)
Definition complete (version : Z) (l : list Z) : Prop := exists h, lsa_header l version = Some h /\ length_ h = size l.

Lemma skip_complete version ls : forall fuel, Forall (complete version) ls -> (length ls <= fuel)%nat ->
  skip_advertisements fuel version (size ls) (concat ls) = Some [].
Proof.
  induction ls as [|l ls IH]; intros fuel Hc Hf; [destruct fuel; reflexivity|].
  apply list.Forall_cons in Hc as [(h & Eh & El) Hc]. destruct fuel as [|fuel]; [cbn in Hf; lia|]. cbn [skip_advertisements concat].
  assert (size (l :: ls) = 1 + size ls) as -> by (unfold size; cbn [length]; lia). pose proof (size_nonneg ls).
  rewrite (proj2 (Z.ltb_lt 0 _)), (header_prefix _ _ _ _ Eh), El, (proj2 (Z.ltb_ge _ _)) by (rewrite ?size_app; pose proof (size_nonneg (concat ls)); lia).
  replace (1 + size ls - 1) with (size ls) by lia. unfold size at 2. rewrite Nat2Z.id, drop_app_length.
  apply IH; [done|cbn in Hf; lia].
Qed.

Lemma nth_complete version ls : forall i l, Forall (complete version) ls -> ls !! i = Some l ->
  nth_advertisement i version (concat ls) = Some l.
Proof.
  induction ls as [|x ls IH]; intros i l Hc Hi; [done|]. apply list.Forall_cons in Hc as [(h & Eh & El) Hc].
  assert (lsa_header (concat (x :: ls)) version = Some h) as E by (cbn [concat]; now apply header_prefix).
  destruct i as [|i]; cbn [nth_advertisement]; rewrite E, El, (proj2 (Z.ltb_ge _ _))
    by (cbn [concat]; rewrite size_app; pose proof (size_nonneg (concat ls)); lia); cbn [concat]; unfold size; rewrite Nat2Z.id.
  - rewrite take_app_length. exact Hi.
  - rewrite drop_app_length. now apply IH.
Qed.

(** The packet of an update, and what is parsed of it. *)
Definition update_packet (ls : list (list Z)) (sender area version instance : Z) : PacketView :=
  mkPacket (be32 (size ls) ++ concat ls) sender area link_state_update version instance.

Lemma update_parsed version ls sender area instance :
  Forall (complete version) ls -> size ls < two32 ->
  parse_link_state_update (update_packet ls sender area version instance) = Some (mkUpdate (concat ls) (size ls) version).
Proof.
  intros Hc Hs. unfold parse_link_state_update, update_packet. cbn [payload p_type p_version]. rewrite bool_decide_eq_true_2 by done. cbn [negb orb].
  rewrite (proj2 (Z.ltb_ge _ _)) by (rewrite size_app; pose proof (size_nonneg (concat ls)); change (size (be32 (size ls))) with 4; lia).
  assert (read32 (be32 (size ls) ++ concat ls) 0 = size ls) as -> by (apply be32_read; unfold is_u32; pose proof (size_nonneg ls); lia).
  change (drop 4 (be32 (size ls) ++ concat ls)) with (concat ls). rewrite skip_complete; [reflexivity|done|].
  rewrite length_app. assert (length ls <= length (concat ls))%nat; [|lia].
  clear Hs. induction Hc as [|l ls (h & Eh & El) Hc IH]; [done|]. cbn [concat length]. rewrite length_app.
  pose proof (header_fields _ _ _ Eh) as (_ & Hl & _). unfold size in Hl. lia.
Qed.

Lemma update_read version ls i l :
  Forall (complete version) ls -> ls !! i = Some l -> update_lsa (mkUpdate (concat ls) (size ls) version) (Z.of_nat i) = Some l.
Proof.
  intros Hc Hi. unfold update_lsa. cbn [advertisement_count u_version lsas].
  pose proof (lookup_lt_Some _ _ _ Hi). rewrite (proj2 (Z.leb_gt _ _)) by (unfold size; lia). rewrite Nat2Z.id. now apply nth_complete.
Qed.

(** ** Transmitted records *)

(** Instances do not become older on the way when what is held stays below MaxAge. *)
Lemma still_not_older h c a1 b1 a2 b2 :
  Db.compare_lsa_headers (Db.with_age h a1) (Db.with_age c b1) = Db.newer -> a1 <> 3600 ->
  (a1 + 900 < b1 -> b1 <> 3600 -> a2 <= b2 /\ b2 <> 3600) ->
  Db.compare_lsa_headers (Db.with_age h a2) (Db.with_age c b2) <> Db.older.
Proof.
  unfold Db.compare_lsa_headers, Db.max_age_seconds, Db.max_age_difference_seconds.
  cbn [Db.with_age sequence_number checksum age_seconds]. intros H Ha Hb. revert H.
  destruct (Z.eqb_spec (sequence_number h) (sequence_number c)); cbn [negb]; [|case_if; discriminate].
  destruct (Z.eqb_spec (checksum h) (checksum c)); cbn [negb]; [|case_if; discriminate].
  rewrite (proj2 (Z.eqb_neq a1 3600)) by done. cbn [andb negb].
  destruct (Z.eqb_spec b1 3600); cbn [andb]; [discriminate|].
  assert (900 < b1 - a1 -> a2 <= b2 /\ b2 <> 3600) as Hc by (intros; apply Hb; lia).
  destruct (Z.ltb_spec b1 a1); [destruct (Z.ltb_spec 900 (a1 - b1)); [destruct (Z.ltb_spec a1 b1); [lia|discriminate]|discriminate]|].
  destruct (Z.ltb_spec 900 (b1 - a1)); [|discriminate]. intros _. destruct (Hc ltac:(lia)) as [H1 H2].
  rewrite (proj2 (Z.eqb_neq b2 3600)), andb_false_l by done. cbn [negb].
  destruct (Z.eqb_spec a2 3600); cbn [andb]; [discriminate|].
  destruct (Z.ltb_spec b2 a2); [lia|]. case_if; [|discriminate]. case_if; [discriminate|]. lia.
Qed.

Definition sent_age (r : Db.LsaRecord) (delay later : Z) : Z := Z.min Db.max_age_seconds (Db.age r later + delay).

Lemma div_sum x y : x / 1000000000 + y / 1000000000 <= (x + y) / 1000000000 <= x / 1000000000 + y / 1000000000 + 1.
Proof. lia. Qed.

Lemma sent_age_below version r c delay now later :
  sound version now r -> sound version now c -> now <= later < 9223372036854775808 -> 0 <= delay <= 900 ->
  Db.age r now + 900 < Db.age c now -> Db.age c now <> 3600 -> Db.age c later <> 3600 ->
  sent_age r delay later <= Db.age c later.
Proof.
  intros [_ _ _ R1 R2 _] [_ _ _ C1 C2 _] Hl Hd. unfold sent_age.
  rewrite !age_spec, !Z.max_r by lia. unfold Db.max_age_seconds in *. intros H1 H2 H3.
  pose proof (div_sum (now - Db.installed_at r) (later - now)) as Dr. pose proof (div_sum (now - Db.installed_at c) (later - now)) as Dc.
  replace (now - Db.installed_at r + (later - now)) with (later - Db.installed_at r) in Dr by lia.
  replace (now - Db.installed_at c + (later - now)) with (later - Db.installed_at c) in Dc by lia.
  generalize dependent ((later - Db.installed_at r) / 1000000000). generalize dependent ((later - Db.installed_at c) / 1000000000).
  generalize dependent ((now - Db.installed_at r) / 1000000000). generalize dependent ((now - Db.installed_at c) / 1000000000).
  generalize dependent ((later - now) / 1000000000). intros. lia.
Qed.

Lemma transmitted_admissible version r h delay later :
  Db.installed_at r <= later < 9223372036854775808 -> 0 <= Db.installed_at r -> 0 <= Db.age_at_install r <= Db.max_age_seconds ->
  0 <= delay -> admissible (Db.bytes r) version = Some h ->
  admissible (transmitted r delay later) version = Some (Db.with_age h (sent_age r delay later)).
Proof.
  intros Hl Hi Ha Hd H. pose proof (age_bounds r later Ha Hi ltac:(lia)) as Hb.
  apply admissible_fields in H as (Eh & El & _ & Es & Ev & Eu). pose proof (header_fields _ _ _ Eh) as (_ & Hs & _).
  assert (0 <= sent_age r delay later <= 3600) as Hsa by (unfold sent_age, Db.max_age_seconds in *; lia).
  assert (u16 (sent_age r delay later) = sent_age r delay later) as Eu16 by (unfold u16; apply Z.mod_small; lia).
  unfold transmitted, write16. fold (sent_age r delay later). rewrite Eu16. change (0 + 1) with 1.
  assert (u8 (Z.shiftr (sent_age r delay later) 8) * 256 + u8 (sent_age r delay later) = sent_age r delay later) as Er.
  { unfold u8. rewrite Z.shiftr_div_pow2 by lia. change (2 ^ 8) with 256. lia. }
  unfold admissible. rewrite header_age, Eh, Er by (lia || apply u8_range). cbn [fmap option_fmap option_map].
  unfold Db.well_formed. cbn [length_ age_seconds sequence_number Db.with_age lsa_type]. rewrite !size_put, verify_age, El, Es, Ev, Eu by lia.
  rewrite Z.eqb_refl, (proj2 (Z.leb_le _ _)); [reflexivity|unfold Db.max_age_seconds; lia].
Qed.

(** ** One advertisement *)

Section Loading.
Context (version later : Z) (b : t) (K : list Db.LsaKey) (sender : Z).

(** An advertisement that [b] wants, as it arrives. *)
Record item (l : list Z) (h : LsaHeaderView) : Prop := mkItem {
  it_header : admissible l version = Some h;
  it_octets : Forall is_u8 l;
  it_key : Db.lsa_key h ∈ K;
  it_plain : grace_identity h version = false;
  it_permitted : permitted (permit b) h = true;
  it_newer : forall c hc, lookup (Db.records_ (database_ b)) (Db.lsa_key h) = Some c -> lsa_header (Db.bytes c) version = Some hc ->
    Db.installed_at c + Catalog.ospf_min_ls_arrival <= later
    /\ Db.compare_lsa_headers h (Db.with_age hc (Db.age c later)) <> Db.older
}.

(** The router while the headers' advertisements are still to come. *)
Record awaiting (hs : list LsaHeaderView) (s : t) : Prop := mkAwaiting {
  aw_version : version_ s = version;
  aw_router : router_id_ s = router_id_ b;
  aw_permit : permit s = permit b;
  aw_state : state s = Some NeighborState.loading;
  aw_requests : Ex.requests_ (database (neighbor s)) = Ex.request_of <$> hs;
  aw_wf : wf version later (database_ s);
  aw_maximum : Db.maximum_records_ (database_ s) = Db.maximum_records_ (database_ b);
  aw_keys : forall r, r ∈ Db.records_ (database_ s) -> Db.key r ∈ K;
  aw_same : forall h, h ∈ hs ->
    lookup (Db.records_ (database_ s)) (Db.lsa_key h) = lookup (Db.records_ (database_ b)) (Db.lsa_key h);
  aw_acknowledgments : size (Ex.acknowledgments_ (database (neighbor s))) + size hs
    <= Ex.maximum_acknowledgments_ (database (neighbor s));
  aw_fights : size (pending_fight_backs_ s) + size hs <= maximum_lsas_ s;
  aw_others : Forall (fun o => size (Ex.retransmissions_ (database (o_exchange o))) + size hs
    <= Ex.maximum_retransmissions_ (database (o_exchange o))) (others_ s)
}.

Context (HK : size K <= Db.maximum_records_ (database_ b)).

(** Either a router's own advertisement, or held from now on. *)
Definition settled (db : Db.t) (h : LsaHeaderView) : Prop :=
  advertising_router h = router_id_ b \/ exists i, held version db (Db.lsa_key h) = Some i /\ upto (instance_of h) i.

Lemma install_wanted s l h hs :
  awaiting (h :: hs) s -> item l h -> 0 <= later ->
  let r := Db.install (database_ s) l version later (router_id_ s) true true in
  (r.1 = Db.installed \/ r.1 = Db.identical_ \/ r.1 = Db.fight_back_required)
  /\ wf version later r.2 /\ Db.maximum_records_ r.2 = Db.maximum_records_ (database_ b)
  /\ (forall x, x ∈ Db.records_ r.2 -> Db.key x ∈ K) /\ settled r.2 h
  /\ (forall k, k <> Db.lsa_key h -> lookup (Db.records_ r.2) k = lookup (Db.records_ (database_ s)) k).
Proof.
  intros W [I1 I2 I3 I4 I5 I6] Hl r. pose proof (aw_wf _ _ W) as Wf.
  assert ((r.1 = Db.installed \/ r.1 = Db.identical_ \/ r.1 = Db.fight_back_required) /\ settled r.2 h) as [R S].
  { unfold r. unfold settled. rewrite (held_install _ _ _ _ _ _ _ h (Db.lsa_key h) I1), (install_result _ _ _ _ _ _ h I1).
    rewrite bool_decide_eq_true_2 by done. cbn [andb]. unfold Db.refusal.
    change (Db.find (database_ s) (Db.lsa_key h)) with (lookup (Db.records_ (database_ s)) (Db.lsa_key h)).
    rewrite (aw_router _ _ W). pose proof (aw_same _ _ W h ltac:(constructor)) as Es.
    destruct (lookup (Db.records_ (database_ s)) (Db.lsa_key h)) as [c|] eqn:El.
    - pose proof (lookup_some _ _ _ El) as [Hc _]. destruct Wf as [Wr _ _]. rewrite list.Forall_forall in Wr.
      destruct (so_header _ _ _ (Wr c Hc)) as (hc & Ehc & _). rewrite Ehc.
      destruct (I6 c hc (eq_sym Es) Ehc) as [H1 H2].
      rewrite (held_record version _ _ c hc El Ehc).
      pose proof (compare_instance h (Db.with_age hc (Db.age c later))) as Hi.
      change (instance_of (Db.with_age hc (Db.age c later))) with (instance_of hc) in Hi.
      destruct (Db.compare_lsa_headers h (Db.with_age hc (Db.age c later))); [done| |].
      + rewrite bool_decide_eq_false_2 by done. split; [auto|]. right. exists (instance_of hc). split; [done|]. now right.
      + rewrite (proj2 (Z.ltb_ge (later - Db.installed_at c) _)), !andb_false_r by lia. cbn [andb].
        destruct (Z.eqb_spec (advertising_router h) (router_id_ b)); cbn [andb]; [auto|].
        split; [auto|]. right. exists (instance_of h). split; [|now right]. now rewrite bool_decide_eq_true_2.
    - rewrite (proj2 (Z.eqb_neq _ _)).
      2:{ eapply (OspfFlooding.room version); eauto using aw_keys. rewrite (aw_maximum _ _ W). exact HK. }
      cbn [andb]. destruct (Z.eqb_spec (advertising_router h) (router_id_ b)); [auto|].
      split; [auto|]. right. exists (instance_of h). split; [|now right]. now rewrite bool_decide_eq_true_2. }
  split_and!; [exact R|now apply install_wf| | |exact S|].
  - unfold r. rewrite install_maximum. apply W.
  - intros x Hx. destruct (install_keys _ _ _ _ _ _ _ h x I1 Hx) as [Hr| ->]; [now apply W|done].
  - intros k Hk. unfold r. rewrite (install_lookup _ _ _ _ _ _ _ h k I1). now rewrite bool_decide_eq_false_2.
Qed.

(** ** What follows an installation *)

Lemma fight_back_queued s l h now :
  size (pending_fight_backs_ s) < maximum_lsas_ s ->
  exists p th, queue_fight_back s l h now true = (true, s <| pending_fight_backs_ := p |> <| throttle_ := th |>)
    /\ size p <= size (pending_fight_backs_ s) + 1.
Proof.
  intros Hs. unfold queue_fight_back. destruct (list_find _ _) as [[i f]|].
  - cbn [negb]. case_if.
    + exists (pending_fight_backs_ s), (throttle_ s). split; [now destruct s|lia].
    + eexists _, _. split; [reflexivity|]. unfold size. rewrite length_insert. lia.
  - rewrite (proj2 (Z.eqb_neq _ _)) by lia. cbn [negb orb]. eexists _, _. split; [reflexivity|]. rewrite size_app. reflexivity.
Qed.

(** The exchange after the acknowledgment: one request less, one acknowledgment more at most. *)
Record acknowledged (h : LsaHeaderView) (n n' : NeighborExchange) : Prop := mkAcknowledged {
  ak_router : n_router_id n' = n_router_id n;
  ak_requests : Ex.requests_ (database n') = List.filter (fun r => negb (Ex.requests_header h r)) (Ex.requests_ (database n));
  ak_size : size (Ex.acknowledgments_ (database n')) <= size (Ex.acknowledgments_ (database n)) + 1;
  ak_maximum : Ex.maximum_acknowledgments_ (database n') = Ex.maximum_acknowledgments_ (database n)
}.

Lemma update_acknowledged s h r :
  r = Db.installed \/ r = Db.identical_ \/ r = Db.fight_back_required ->
  size (Ex.acknowledgments_ (database (neighbor s))) < Ex.maximum_acknowledgments_ (database (neighbor s)) ->
  exists n, acknowledge_update s h r true = (true, put_neighbor s n) /\ acknowledged h (neighbor s) n.
Proof.
  intros Hr Hs. unfold acknowledge_update.
  set (n := (neighbor s) <| database := Ex.received_lsa (database (neighbor s)) h r |>).
  assert (acknowledged h (neighbor s) n) as A0 by (destruct Hr as [->|[->| ->]]; constructor; cbn; (reflexivity || lia)).
  assert (forall i ex, (if bool_decide (r = Db.identical_) then Ex.acknowledge (database n) h else (false, database n)) = (i, ex) ->
    acknowledged h (neighbor s) (n <| database := ex |>)
    /\ Ex.acknowledgments_ ex = Ex.acknowledgments_ (database (neighbor s))
    /\ Ex.maximum_acknowledgments_ ex = Ex.maximum_acknowledgments_ (database (neighbor s))) as A1.
  { intros i ex. case_bool_decide; intros [= <- <-]; destruct A0 as [A01 A02 A03 A04].
    - split_and!; [constructor; [exact A01|exact A02|exact A03|exact A04]| |]; destruct Hr as [->|[->| ->]]; reflexivity.
    - split_and!; [constructor; [exact A01|exact A02|exact A03|exact A04]| |]; destruct Hr as [->|[->| ->]]; reflexivity. }
  destruct (if bool_decide _ then _ else _) as [i ex]. destruct (A1 i ex eq_refl) as ([B1 B2 B3 B4] & E1 & E2).
  cbn [database set_field] in *. destruct i; cbn [negb].
  - case_if; (eexists; split; [reflexivity|]; constructor; [exact B1|exact B2|exact B3|exact B4]).
  - change (database (n <| database := ex |>)) with ex. unfold Ex.queue_delayed_acknowledgment. rewrite E1, E2. case_if.
    + cbn [negb]. eexists. split; [reflexivity|]. constructor; [exact B1|exact B2|exact B3|exact B4].
    + rewrite (proj2 (Z.eqb_neq _ _)) by lia. cbn [negb orb]. eexists. split; [reflexivity|].
      constructor; [exact B1|exact B2| |]; cbn; [|exact E2]. rewrite size_app. change (size [h]) with 1. lia.
Qed.

Lemma others_flooded others record v now m :
  (exists h, lsa_header (Db.bytes record) v = Some h) -> 0 <= m ->
  Forall (fun o => size (Ex.retransmissions_ (database (o_exchange o))) + (1 + m) <= Ex.maximum_retransmissions_ (database (o_exchange o))) others ->
  exists others', flood_others others record v now true = (true, others')
    /\ Forall (fun o => size (Ex.retransmissions_ (database (o_exchange o))) + m <= Ex.maximum_retransmissions_ (database (o_exchange o))) others'.
Proof.
  intros [h Eh] Hm. induction others as [|o others IH]; intros Hf; cbn [flood_others]; [exists []; split; [done|constructor]|].
  apply list.Forall_cons in Hf as [Ho Hf]. destruct (IH Hf) as (os & -> & Hos).
  assert (exists others', (true, o :: os) = (true, others')
    /\ Forall (fun o => size (Ex.retransmissions_ (database (o_exchange o))) + m <= Ex.maximum_retransmissions_ (database (o_exchange o))) others') as Hskip
    by (exists (o :: os); split; [done|constructor; [lia|done]]).
  do 3 (case_if; [exact Hskip|]). unfold Ex.queue_retransmission. rewrite Eh.
  set (e := Ex.mkRetransmission _ _ _). destruct (Ex.supersede e _) as [l|] eqn:Es.
  - cbn [negb]. eexists. split; [reflexivity|]. constructor; [|done]. cbn.
    assert (length l = length (Ex.retransmissions_ (database (o_exchange o)))) as El; [|unfold size in *; lia].
    revert l Es. generalize (Ex.retransmissions_ (database (o_exchange o))). intros q. induction q as [|x q IHq]; intros l; cbn [Ex.supersede]; [discriminate|].
    case_if; [intros [= <-]; done|]. destruct (Ex.supersede e q) eqn:Eq; [|discriminate]. intros [= <-]. cbn [length]. now rewrite (IHq _ eq_refl).
  - rewrite (proj2 (Z.eqb_neq _ _)) by lia. cbn [negb orb]. eexists. split; [reflexivity|]. constructor; [|done]. cbn.
    rewrite size_app. change (size [e]) with 1. lia.
Qed.

Lemma others_requests h hs :
  NoDup (Ex.request_of <$> h :: hs) ->
  List.filter (fun r => negb (Ex.requests_header h r)) (Ex.request_of <$> h :: hs) = Ex.request_of <$> hs.
Proof.
  intros Hn. cbn [fmap list_fmap List.filter]. unfold Ex.requests_header at 1. cbn [Ex.request_of r_link_state_type r_link_state_id r_advertising_router].
  rewrite !Z.eqb_refl. cbn [negb andb]. cbn [fmap list_fmap] in Hn. apply list.NoDup_cons in Hn as [Hh _].
  induction hs as [|x hs IH]; [done|]. cbn [fmap list_fmap List.filter] in *. apply not_elem_of_cons in Hh as [Hx Hh]. rewrite IH by done.
  destruct (negb _) eqn:E; [done|]. exfalso. apply negb_false_iff in E. unfold Ex.requests_header in E.
  apply andb_true_iff in E as [[E1%Z.eqb_eq E2%Z.eqb_eq]%andb_true_iff E3%Z.eqb_eq]. cbn in E1, E2, E3. apply Hx.
  unfold Ex.request_of. congruence.
Qed.

(** Different requests are for different keys. *)
Lemma request_key h h' :
  Db.lsa_key h = Db.lsa_key h' -> Ex.request_of h = Ex.request_of h'.
Proof. unfold Db.lsa_key, Ex.request_of. intros [= -> -> ->]. reflexivity. Qed.

Lemma receive_wanted s l h hs :
  awaiting (h :: hs) s -> item l h -> 0 <= later -> NoDup (Ex.request_of <$> h :: hs) ->
  exists s', receive_lsa s sender l later true = (accepted, s') /\ awaiting hs s' /\ settled (database_ s') h
    /\ forall k, k <> Db.lsa_key h -> lookup (Db.records_ (database_ s')) k = lookup (Db.records_ (database_ s)) k.
Proof.
  intros W I Hl Hn. destruct (install_wanted s l h hs W I Hl) as (R & D1 & D2 & D3 & D4 & D5).
  pose proof (admissible_fields _ _ _ (it_header _ _ I)) as (Eh & _).
  unfold receive_lsa. rewrite (aw_version _ _ W), Eh, (it_plain _ _ I). cbn [andb].
  assert (same (If_.network_type (protocol s)) NetworkType.virtual_link && bool_decide (Db.k_scope (Db.lsa_key h) = Db.autonomous_system) = false) as ->.
  { pose proof (it_permitted _ _ I) as P. rewrite <- (aw_permit _ _ W) in P. unfold permitted, permit in P.
    destruct (same _ _), (bool_decide _); done. }
  destruct (Db.install (database_ s) l version later (router_id_ s) true true) as [r db] eqn:Ei. cbn [fst snd] in *.
  set (s1 := s <| database_ := db |>).
  assert (size (h :: hs) = 1 + size hs) as El by (unfold size; cbn [length]; lia). pose proof (size_nonneg hs) as Nh.
  pose proof (aw_fights _ _ W) as Wf. pose proof (aw_acknowledgments _ _ W) as Wa. rewrite El in Wf, Wa.
  assert (exists s2, (if bool_decide (r = Db.fight_back_required) then queue_fight_back s1 l h later true else (true, s1)) = (true, s2)
    /\ exists p th, s2 = s1 <| pending_fight_backs_ := p |> <| throttle_ := th |> /\ size p <= size (pending_fight_backs_ s) + 1) as (s2 & E2 & p & th & -> & Hp).
  { case_bool_decide.
    - destruct (fight_back_queued s1 l h later ltac:(cbn; lia)) as (p & th & E & Hp). eexists. split; [exact E|]. exists p, th. now split.
    - exists s1. split; [done|]. exists (pending_fight_backs_ s), (throttle_ s). split; [now destruct s|lia]. }
  assert (forall x : ReceiveStatus * t, match r with
      | Db.malformed => (malformed, s1) | Db.capacity_exhausted => (resource_exhausted, s1) | Db.ignored => (accepted, s1) | _ => x end = x) as ->
    by (intros x; destruct R as [->|[->| ->]]; reflexivity).
  rewrite E2. cbn [negb].
  set (s2 := s1 <| pending_fight_backs_ := p |> <| throttle_ := th |>).
  destruct (update_acknowledged s2 h r R) as (n & -> & [N1 N2 N3 N4]).
  { change (neighbor s2) with (neighbor s). lia. }
  change (neighbor s2) with (neighbor s) in *. cbn [negb]. rewrite (aw_requests _ _ W), others_requests in N2 by done.
  assert (forall os th', Forall (fun o => size (Ex.retransmissions_ (database (o_exchange o))) + size hs
      <= Ex.maximum_retransmissions_ (database (o_exchange o))) os ->
    awaiting hs (mk (router_id_ s) (version_ s) (next_dd_sequence_ s) db th' (runtime s) (retransmit_interval_seconds s)
                   (transmit_delay_seconds s) n os p (maximum_lsas_ s))) as Hnext.
  { intros os th' Hos. constructor; cbn [version_ router_id_ runtime database_ neighbor pending_fight_backs_ maximum_lsas_ others_].
    - apply W.
    - apply W.
    - exact (aw_permit _ _ W).
    - refine (eq_trans _ (aw_state _ _ W)). apply state_ext; [reflexivity|exact N1].
    - exact N2.
    - exact D1.
    - exact D2.
    - exact D3.
    - intros h' Hh'. rewrite D5; [apply W; now constructor|]. intros Ek.
      cbn [fmap list_fmap] in Hn. apply list.NoDup_cons in Hn as [Hn _]. apply Hn.
      rewrite <- (request_key h' h Ek). now apply list_elem_of_fmap_2.
    - lia.
    - lia.
    - exact Hos. }
  pose proof (aw_others _ _ W) as Wo.
  destruct (decide (r = Db.installed)) as [Er|Er]; [rewrite bool_decide_eq_true_2 by done|rewrite bool_decide_eq_false_2 by done].
  - unfold flood. change (Db.find (database_ (put_neighbor s2 n)) (Db.lsa_key h)) with (lookup (Db.records_ db) (Db.lsa_key h)).
    pose proof (install_lookup (database_ s) l version later (router_id_ s) true true h (Db.lsa_key h) (it_header _ _ I)) as Hk.
    rewrite Ei in Hk. cbn [fst snd] in Hk. rewrite Er in Hk. rewrite !bool_decide_eq_true_2 in Hk by done. cbn [andb] in Hk. rewrite Hk.
    destruct (others_flooded (others_ s) (Db.replacement (Db.lsa_key h) l h later) version later (size hs)) as (os & Eo & Ho); [eauto|lia| |].
    { eapply list.Forall_impl; [exact Wo|]. intros o Ho. rewrite El in Ho. exact Ho. }
    change (others_ (put_neighbor s2 n)) with (others_ s). change (version_ (put_neighbor s2 n)) with (version_ s).
    rewrite (aw_version _ _ W), Eo. eexists. split; [reflexivity|]. split; [|split; [exact D4|exact D5]].
    exact (Hnext os _ Ho).
  - eexists. split; [reflexivity|]. split; [|split; [exact D4|exact D5]].
    apply (Hnext (others_ s) th). eapply list.Forall_impl; [exact Wo|]. intros o Ho. cbv beta in *. lia.
Qed.

(** ** The whole update *)

Lemma receive_all ls : forall hs s i ls0,
  awaiting hs s -> Forall2 item ls hs -> 0 <= later -> NoDup (Ex.request_of <$> hs) ->
  Forall (complete version) (ls0 ++ ls) -> size ls0 = i ->
  exists s', receive_lsas (length ls) s sender (mkUpdate (concat (ls0 ++ ls)) (size (ls0 ++ ls)) version) i later later true
    = finish_loading s' later later
    /\ awaiting [] s' /\ (forall h, h ∈ hs -> settled (database_ s') h)
    /\ (forall k, (forall h, h ∈ hs -> k <> Db.lsa_key h) -> lookup (Db.records_ (database_ s')) k = lookup (Db.records_ (database_ s)) k).
Proof.
  induction ls as [|l ls IH]; intros hs s i ls0 W F Hl Hn Hc Hi; cbn [length receive_lsas].
  - apply Forall2_nil_inv_l in F as ->. exists s. split_and!; [done|done| |done]. intros h Hh. inversion Hh.
  - apply Forall2_cons_inv_l in F as (h & hs' & I & F & ->).
    rewrite <- Hi. change (size ls0) with (Z.of_nat (length ls0)). rewrite (update_read version _ (length ls0) l Hc)
      by (rewrite lookup_app_r, Nat.sub_diag by done; done).
    destruct (receive_wanted s l h hs' W I Hl Hn) as (s1 & -> & W1 & S1 & L1).
    pose proof Hn as Hn'. cbn [fmap list_fmap] in Hn'. apply list.NoDup_cons in Hn' as [Hh Hn'].
    destruct (IH hs' s1 (size (ls0 ++ [l])) (ls0 ++ [l]) W1 F Hl Hn') as (s2 & E2 & W2 & S2 & L2); [now rewrite <- app_assoc|done|].
    rewrite <- app_assoc in E2. cbn [app] in E2. exists s2. split_and!; [|exact W2| |].
    + rewrite <- E2. f_equal. unfold size. rewrite length_app. cbn [length]. lia.
    + intros x [->|Hx]%elem_of_cons; [|now apply S2]. destruct S1 as [S1|(j & Hj & Hu)]; [now left|]. right. exists j. split; [|exact Hu].
      unfold held in *. rewrite L2; [exact Hj|]. intros y Hy Ek. apply Hh.
      rewrite (request_key h y Ek). now apply list_elem_of_fmap_2.
    + intros k Hk. rewrite L2 by (intros y Hy; apply Hk; now constructor). apply L1. apply Hk. constructor.
Qed.

End Loading.

(** ** Synchronization *)

(** The advertisement that answers a request, as it is sent. *)
Definition answers (a : t) (delay later : Z) (e : LinkStateRequestEntry) (l : list Z) : Prop :=
  exists r, Db.find (database_ a) (Db.lsa_key (request_identity e (version_ a))) = Some r /\ l = transmitted r delay later.

(** The advertisements of a database can be flooded: each would be installed where
    it is unknown, and none announces a graceful restart. *)
Definition sound_origin (version : Z) (db : Db.t) : Prop :=
  Forall (fun r => exists h, admissible (Db.bytes r) version = Some h /\ grace_identity h version = false) (Db.records_ db).

(** Lists that take what an update of [n] advertisements brings. *)
Record takes (n : Z) (s : t) : Prop := mkTakes {
  tk_acknowledgments : size (Ex.acknowledgments_ (database (neighbor s))) + n <= Ex.maximum_acknowledgments_ (database (neighbor s));
  tk_fights : size (pending_fight_backs_ s) + n <= maximum_lsas_ s;
  tk_others : Forall (fun o => size (Ex.retransmissions_ (database (o_exchange o))) + n
    <= Ex.maximum_retransmissions_ (database (o_exchange o))) (others_ s)
}.

Lemma same_request h h' : lsa_version h = lsa_version h' -> Ex.request_of h = Ex.request_of h' -> Db.lsa_key h = Db.lsa_key h'.
Proof. unfold Db.lsa_key, Ex.request_of. intros -> [= -> -> ->]. reflexivity. Qed.

Lemma identity_key version h : ranged version h -> Db.lsa_key (request_identity (Ex.request_of h) version) = Db.lsa_key h.
Proof.
  intros [[Hv _] _ _ _ _ _ _ Ht]. unfold request_identity, Ex.request_of, Db.lsa_key.
  cbn [r_link_state_id r_advertising_router r_link_state_type link_state_id advertising_router lsa_type lsa_version].
  assert (u16 (lsa_type h) = lsa_type h) as ->; [|now rewrite Hv].
  destruct (version =? version_two); destruct Ht as [Ht _]; unfold is_u8, is_u16 in *; apply Z.mod_small; lia.
Qed.

Lemma key_unique db r r' : NoDup (Db.key <$> Db.records_ db) -> r ∈ Db.records_ db -> r' ∈ Db.records_ db -> Db.key r = Db.key r' -> r = r'.
Proof.
  intros Hn Hr Hr' E. pose proof (lookup_in _ _ Hn Hr) as H1. pose proof (lookup_in _ _ Hn Hr') as H2. rewrite E in H1. congruence.
Qed.

Lemma answered (P : LinkStateRequestEntry -> Prop) (Q : LinkStateRequestEntry -> list Z -> Prop) (R : list Z -> LsaHeaderView -> Prop) :
  (forall e l, P e -> Q e l -> exists h, R l h /\ Ex.request_of h = e) ->
  forall es ls, Forall P es -> Forall2 Q es ls -> exists hs, Forall2 R ls hs /\ Ex.request_of <$> hs = es.
Proof.
  intros H es ls Hp Hq. induction Hq as [|e l es ls Hel Hq IH]; [exists []; split; [constructor|done]|].
  apply list.Forall_cons in Hp as [He Hp]. destruct (H e l He Hel) as (h & Hh & <-). destruct (IH Hp) as (hs & Hhs & <-).
  exists (h :: hs). split; [now constructor|done].
Qed.

Lemma receive_update `{Sorting} s x ls sender area version instance now clock :
  state s = Some x -> NeighborState.at_least x NeighborState.exchange = true -> Forall (complete version) ls -> size ls < two32 ->
  OspfUpdate.OspfUpdate.receive s (update_packet ls sender area version instance) now clock true
  = receive_lsas (length ls) s sender (mkUpdate (concat ls) (size ls) version) 0 now clock true.
Proof.
  intros Hs Hx Hc Hl. unfold OspfUpdate.OspfUpdate.receive. rewrite Hs, Hx. cbn [update_packet p_type negb].
  rewrite bool_decide_eq_false_2 by done. unfold receive_link_state_update.
  change (mkPacket _ _ _ _ _ _) with (update_packet ls sender area version instance). rewrite update_parsed by done.
  cbn [advertisement_count update_packet p_router_id]. f_equal. unfold size. lia.
Qed.

Lemma loading_finished s now clock :
  state s = Some NeighborState.loading -> Ex.requests_ (database (neighbor s)) = [] ->
  exists s', finish_loading s now clock = (accepted, s') /\ state s' = Some NeighborState.full
    /\ Ex.requests_ (database (neighbor s')) = [] /\ database_ s' = database_ s.
Proof.
  intros Hs Hr. unfold finish_loading. rewrite Hs, Hr. rewrite bool_decide_eq_true_2 by done. change (size [] =? 0) with true. cbn [andb].
  destruct (event_state s NeighborEvent.loading_done false clock _ Hs) as (required & r & E & E1 & _).
  assert (neighbor_transition NeighborState.loading NeighborEvent.loading_done required false = (NeighborState.full, NeighborAction.notify_interface))
    as En by now destruct required.
  rewrite En in E, E1. rewrite E. eexists. split; [reflexivity|]. split; [exact E1|]. split; [exact Hr|reflexivity].
Qed.

Section Synchronize.
Context {sorting : Sorting}.
Context (now later delay : Z) (a b b' : t).
Context (Hversion : version_ a = version_ b) (Hexchange : past_exchange now b a b').
Context (Wa : wf (version_ a) now (database_ a)) (Wb : wf (version_ b) now (database_ b)).
Context (Htime : now <= later < 9223372036854775808) (Hnow : 0 <= now) (Hdelay : 0 <= delay <= 900).
Context (Ha : sound_origin (version_ a) (database_ a)).
Context (Hb : Forall (fun c => Db.installed_at c + Catalog.ospf_min_ls_arrival <= later /\ Db.age c later <> Db.max_age_seconds)
  (Db.records_ (database_ b))).

Let K := (Db.key <$> Db.records_ (database_ b)) ++ (Db.key <$> Db.records_ (database_ a)).

(** The header of a record of [a], as it arrives. *)
Definition arrives (h : LsaHeaderView) : Prop :=
  exists r h0, r ∈ Db.records_ (database_ a) /\ lsa_header (Db.bytes r) (version_ a) = Some h0
    /\ h = Db.with_age h0 (sent_age r delay later).

Lemma requested_item e l :
  requested now b a e -> answers a delay later e l ->
  exists h, (item (version_ b) later b K l h /\ arrives h) /\ Ex.request_of h = e.
Proof.
  intros (r & h & Hr & Hd & Hp & Hl & ->) (r' & Hf & ->). destruct Wa as [W1 W2 _]. rewrite list.Forall_forall in W1.
  pose proof (W1 r Hr) as Sr. pose proof (described_ranged _ _ _ _ _ Sr Hd) as Rh. rewrite (identity_key _ _ Rh) in Hf.
  unfold sound_origin in Ha. rewrite list.Forall_forall in Ha. destruct (Ha r Hr) as (h0 & Ad & Hg). pose proof (admissible_fields _ _ _ Ad) as (Eh & _).
  revert Hd. unfold described. rewrite Eh. destruct (_ && _) eqn:E; [|discriminate]. intros [= <-].
  apply andb_true_iff in E as [_ Em%negb_true_iff%Z.eqb_neq].
  destruct (so_header _ _ _ Sr) as (h1 & Eh1 & _ & Ek). assert (h1 = h0) as -> by congruence. clear Eh1.
  assert (r' = r) as ->.
  { change (lookup (Db.records_ (database_ a)) (Db.lsa_key h0) = Some r') in Hf. rewrite Ek, (lookup_in _ _ W2 Hr) in Hf. congruence. }
  exists (Db.with_age h0 (sent_age r delay later)). split; [|reflexivity]. split; [|exists r, h0; now split_and!].
  pose proof Sr as [S1 _ _ S4 S5 _]. constructor.
  - rewrite <- Hversion. apply transmitted_admissible; [lia..|exact Ad].
  - unfold transmitted, write16, put. apply Forall_insert; [apply Forall_insert; [exact S1|]|]; apply u8_range.
  - unfold K. apply elem_of_app. right. change (Db.lsa_key (Db.with_age h0 _)) with (Db.lsa_key h0). rewrite Ek. now apply list_elem_of_fmap_2.
  - rewrite <- Hversion. exact Hg.
  - exact Hp.
  - intros c hc Hc Ehc. change (Db.lsa_key (Db.with_age h0 _)) with (Db.lsa_key h0) in Hc.
    pose proof (lookup_some _ _ _ Hc) as [Hin _]. rewrite list.Forall_forall in Hb. destruct (Hb c Hin) as [H1 H2]. split; [exact H1|].
    unfold lacks in Hl. change (Db.lsa_key (Db.with_age h0 _)) with (Db.lsa_key h0) in Hl. rewrite Hc, Ehc in Hl. apply bool_decide_eq_true in Hl.
    eapply still_not_older; [exact Hl|exact Em|]. intros H3 H4. split; [|exact H2].
    destruct Wb as [B1 _ _]. rewrite list.Forall_forall in B1. apply (sent_age_below (version_ b) r c delay now later); auto.
    rewrite <- Hversion. exact Sr.
Qed.

(** C4: After the exchange, the update that answers a router's requests completes
    the adjacency and synchronizes its database: the neighbor becomes Full with
    nothing left to request, and the router then holds, of every advertisement the
    other described and may send it, an instance no older than the other's, its own
    advertisements excepted. *)
Theorem loading_synchronizes ls sender area instance :
  Forall2 (answers a delay later) (Ex.requests_ (database (neighbor b'))) ls -> size ls < two32 -> takes (size ls) b' ->
  size (Db.records_ (database_ b)) + size (Db.records_ (database_ a)) <= Db.maximum_records_ (database_ b) ->
  exists b'',
    OspfUpdate.OspfUpdate.receive b' (update_packet ls sender area (version_ b) instance) later later true = (accepted, b'')
    /\ state b'' = Some NeighborState.full /\ Ex.requests_ (database (neighbor b'')) = []
    /\ forall r h, r ∈ Db.records_ (database_ a) -> described (version_ a) now (permit a) r = Some h -> permitted (permit b) h = true ->
         advertising_router h = router_id_ b
         \/ exists i, held (version_ b) (database_ b'') (Db.lsa_key h) = Some i /\ upto (instance_of h) i.
Proof.
  intros Hf Hls T Hroom. pose proof Hexchange as (Xs & Xn & Xr & Xd & Xv & Xid & Xp).
  assert (Forall (requested now b a) (Ex.requests_ (database (neighbor b')))) as Hreq
    by (apply list.Forall_forall; intros e He; now apply Xr).
  destruct (answered _ _ (fun l h => item (version_ b) later b K l h /\ arrives h) requested_item _ _ Hreq Hf) as (hs & Hi & Ehs).
  assert (Forall2 (item (version_ b) later b K) ls hs) as Hitem by (eapply Forall2_impl; [|exact Hi]; now intros ? ? []).
  assert (forall h, h ∈ hs -> arrives h) as Harr.
  { intros h [j Hj]%list_elem_of_lookup_1. destruct (Forall2_lookup_r _ _ _ _ _ Hi Hj) as (l & _ & _ & H). exact H. }
  assert (Forall (complete (version_ b)) ls) as Hc.
  { apply list.Forall_forall. intros l [j Hj]%list_elem_of_lookup_1. destruct (Forall2_lookup_l _ _ _ _ _ Hitem Hj) as (h & _ & I).
    destruct (admissible_fields _ _ _ (it_header _ _ _ _ _ _ I)) as (E1 & E2 & _). now exists h. }
  assert (size hs = size ls) as Esz by (unfold size; now rewrite (Forall2_length Hitem)).
  assert (forall s, (forall h, h ∈ hs -> settled (version_ b) b (database_ s) h) ->
    (forall k, (forall h, h ∈ hs -> k <> Db.lsa_key h) -> lookup (Db.records_ (database_ s)) k = lookup (Db.records_ (database_ b)) k) ->
    forall r h, r ∈ Db.records_ (database_ a) -> described (version_ a) now (permit a) r = Some h -> permitted (permit b) h = true ->
      settled (version_ b) b (database_ s) h) as Hsettled.
  { intros s Hs Hl r h Hr Hd Hp. 
    pose proof Wa as [W1 W2 _]. rewrite list.Forall_forall in W1. destruct (so_header _ _ _ (W1 r Hr)) as (h0 & Eh & _ & Ek).
    pose proof Hd as Hd'. unfold described in Hd'. rewrite Eh in Hd'. destruct (_ && _); [|discriminate]. injection Hd' as <-.
    destruct (decide (Db.lsa_key h0 ∈ Db.lsa_key <$> hs)) as [(h' & E' & Hh')%list_elem_of_fmap|Hn].
    - destruct (Harr h' Hh') as (r' & h1 & Hr' & Eh1 & ->). destruct (so_header _ _ _ (W1 r' Hr')) as (h2 & Eh2 & _ & Ek2).
      assert (h2 = h1) as -> by congruence. change (Db.lsa_key h0 = Db.lsa_key h1) in E'.
      assert (r' = r) as -> by (apply (key_unique (database_ a)); congruence). assert (h1 = h0) as -> by congruence. exact (Hs _ Hh').
    - assert (lookup (Db.records_ (database_ s)) (Db.lsa_key h0) = lookup (Db.records_ (database_ b)) (Db.lsa_key h0)) as El.
      { apply Hl. intros h Hh E. apply Hn. rewrite E. now apply list_elem_of_fmap_2. }
      destruct (lacks (database_ b) (version_ b) now (Db.with_age h0 (Db.age r now))) eqn:Elk.
      + exfalso. assert (Ex.request_of h0 ∈ Ex.requests_ (database (neighbor b'))) as Hin
          by (apply Xr; exists r, (Db.with_age h0 (Db.age r now)); now split_and!).
        rewrite <- Ehs in Hin. apply list_elem_of_fmap in Hin as (h' & E' & Hh'). destruct (Harr h' Hh') as (r' & h1 & Hr' & Eh1 & ->).
        apply Hn. apply list_elem_of_fmap. exists (Db.with_age h1 (sent_age r' delay later)). split; [|exact Hh'].
        change (Db.lsa_key h0 = Db.lsa_key h1). apply same_request; [|exact E'].
        apply header_fields in Eh as (-> & _). now apply header_fields in Eh1 as (-> & _).
      + right. unfold lacks in Elk. change (Db.lsa_key (Db.with_age h0 _)) with (Db.lsa_key h0) in *.
        destruct (lookup (Db.records_ (database_ b)) (Db.lsa_key h0)) as [c|] eqn:Ec; [|discriminate].
        pose proof Wb as [B1 _ _]. rewrite list.Forall_forall in B1. pose proof (lookup_some _ _ _ Ec) as [Hc0 _].
        destruct (so_header _ _ _ (B1 c Hc0)) as (hc & Ehc & _). rewrite Ehc in Elk. apply bool_decide_eq_false in Elk.
        exists (instance_of hc). split; [exact (held_record _ _ _ c hc El Ehc)|].
        pose proof (compare_instance (Db.with_age h0 (Db.age r now)) (Db.with_age hc (Db.age c now))) as Hcmp.
        destruct (Db.compare_lsa_headers _ _); [exact Hcmp|now right|done]. }
  assert (0 <= later) as Hlater by lia.
  destruct (Ex.requests_ (database (neighbor b'))) as [|e0 es] eqn:Er.
  - apply fmap_nil_inv in Ehs as ->. apply Forall2_nil_inv_r in Hitem as ->. exists b'.
    rewrite (receive_update b' NeighborState.full) by (exact Xs || reflexivity || constructor). cbn [length receive_lsas].
    unfold finish_loading. rewrite Xs, bool_decide_eq_false_2 by done. cbn [andb]. split_and!; [reflexivity|reflexivity|exact Er|].
    apply Hsettled; [intros h Hh; inversion Hh|]. intros k _. now rewrite Xd.
  - rewrite (receive_update b' NeighborState.loading) by (exact Xs || reflexivity || exact Hc || exact Hls).
    destruct (receive_all (version_ b) later b K sender ltac:(unfold K, size in *; rewrite length_app, !length_fmap; lia) ls hs b' 0 [])
      as (s1 & E & W & S & L); try (assumption || reflexivity || now rewrite Ehs).
    { destruct T. constructor; rewrite ?Esz; auto.
      - unfold permit. now rewrite Xp.
      - now rewrite Er, Ehs.
      - rewrite Xd. apply (wf_later _ now); [lia|lia|exact Wb].
      - now rewrite Xd.
      - rewrite Xd. intros r Hr. unfold K. apply elem_of_app. left. now apply list_elem_of_fmap_2.
      - intros h _. now rewrite Xd. }
    cbn [app] in E. rewrite E. destruct (loading_finished s1 later later) as (s2 & E2 & F1 & F2 & F3); [apply W|exact (aw_requests _ _ _ _ _ _ W)|].
    exists s2. split_and!; [exact E2|exact F1|exact F2|]. apply Hsettled; rewrite F3; [exact S|]. intros k Hk. rewrite <- Xd. now apply L.
Qed.
End Synchronize.
End OspfLoading.
