(* ===== verification/OspfLossy.v ===== *)
(** * Lost descriptions

    What the negotiation does when a Database Description is lost, and after a bad
    request: the retransmitted description is not the one that was lost, and a
    router whose last reply was lost is never answered. *)

From S2P Require Import Prelude Catalog Arena Packet Octets OspfFsm OspfHello OspfInterface OspfLsa OspfHeaders OspfLsdb OspfExchange OspfDatabase OspfThrottle Ordering OspfProcess OspfUpdate OspfDescription OspfSync OspfNegotiation OspfParty OspfAdjacency.
Import Arena.

Module OspfLossy.
Import OspfFsm OspfHello.OspfHello OspfLsa.OspfLsa OspfHeaders.OspfHeaders OspfProcess.OspfProcess OspfUpdate.OspfUpdate.
Import OspfDatabase.OspfDatabase OspfSync.OspfSync OspfNegotiation.OspfNegotiation OspfParty.OspfParty OspfAdjacency.OspfAdjacency.

#[local] Existing Instances Ex.t_settable OspfProcess.t_settable NeighborExchange_settable.

(** The deadlines of the neighbor, at the start of a turn. *)
Definition wake (s : t) (later : Z) : t := put_neighbor s (mark_due (neighbor s) later).

Definition awake (v : phase) (pending : bool) : phase :=
  mkPhase (v_state v) (v_master v) (v_negotiated v) pending (v_cursor v) (v_sequence v) (v_requests v) (v_sent_more v)
    (v_peer_more v) (v_complete v).

Lemma mark_due_exchange n later :
  exists p r u, mark_due n later = n <| pending_database_description := p |> <| pending_request := r |> <| pending_update := u |>
    /\ p = pending_database_description n || due (dd_retransmit_deadline n) later.
Proof.
  destruct n as [db id dd sc rc uc t1 t2 t3 lm nc pd pr pu pa pm sm ca]. unfold mark_due. cbn [pending_database_description dd_retransmit_deadline].
  destruct pd, (due t1 later); cbn [negb andb orb]; cbn;
    destruct pr, (due t2 later), (negb (size (Ex.requests_ db) =? 0)); cbn;
    destruct pu, (due t3 later), (negb (size (Ex.retransmissions_ db) =? 0)); cbn;
    do 3 eexists; split; reflexivity.
Qed.

Lemma wake_holds k v s later :
  holds k v s ->
  exists p, holds k (awake v p) (wake s later) /\ p = v_pending v || due (dd_retransmit_deadline (neighbor s)) later.
Proof.
  intros []. unfold wake. destruct (mark_due_exchange (neighbor s) later) as (p & r & u & -> & Ep). exists p. rewrite <- h_pending0.
  split; [|exact Ep]. constructor; (assumption || reflexivity).
Qed.
Lemma able_later now later capacity k : now <= later -> later < 9223372036854775808 -> able now capacity k -> able later capacity k.
Proof. intros H1 H2 []. constructor; auto. eapply wf_later; eassumption. Qed.

Section Lossy.
Context {sorting : Sorting}.

(** ** Retransmission *)

(** A description that is sent is sent again after the retransmission interval. *)
Lemma emit_deadline s now clock body s1 :
  emit_database_description s true now clock = (Some body, s1) -> complete_after_reply (neighbor s) = false ->
  dd_retransmit_deadline (neighbor s1) = now + Catalog.seconds (retransmit_interval_seconds s).
Proof.
  unfold emit_database_description. destruct (header_capacity _ _); [|discriminate]. destruct (encode_database_description_payload _ _ _ _ _ _ _ _ _ _); [|discriminate].
  cbn [negb]. intros E Hc.
  match type of E with context [if ?b then (let '(_, _) := complete_reply _ _ _ in _) else _] =>
    assert (b = false) as Hb by (apply andb_false_iff; left; apply andb_false_iff; right; destruct (negb (negotiation_complete _)); exact Hc);
    rewrite Hb in E end.
  injection E as _ <-. reflexivity.
Qed.

(** The retransmission of a Database Description is not a retransmission: when
    a description is lost, the router sends, at its retransmission deadline, the
    summaries that follow the lost ones, under the same DD sequence number. *)
Theorem retransmission_skips now later clock capacity k v s :
  able now capacity k -> holds k v s -> v_negotiated v = true -> v_complete v = false -> is_u32 (v_sequence v) ->
  0 <= v_cursor v <= size (c_summaries k) ->
  0 < now + Catalog.seconds (retransmit_interval_seconds s) <= later -> now <= later < 9223372036854775808 ->
  let cursor := past (c_summaries k) (v_cursor v) capacity in
  exists body s1 body' s2,
    emit_database_description s true now clock = (Some body, s1)
    /\ pending_database_description (neighbor (wake s1 later)) = true
    /\ emit_database_description (wake s1 later) true later clock = (Some body', s2)
    /\ said k body (v_sequence v) false (cursor <? size (c_summaries k)) (v_master v) (chunk (c_summaries k) (v_cursor v) capacity)
    /\ said k body' (v_sequence v) false (past (c_summaries k) cursor capacity <? size (c_summaries k)) (v_master v)
         (chunk (c_summaries k) cursor capacity).
Proof.
  intros A H Hn Hc Hq Hv Hd Hl cursor. pose proof (a_capacity _ _ _ A) as [_ Hcap].
  destruct (emit_next now capacity k A v s clock H Hn Hq Hv ltac:(congruence)) as (body & s1 & E1 & S1 & H1).
  rewrite Hc, andb_false_r in H1. cbn [andb] in H1. fold cursor in S1, H1.
  destruct (wake_holds _ _ _ later H1) as (p & H2 & Hp).
  pose proof (emit_deadline s now clock body s1 E1 ltac:(rewrite (h_complete _ _ _ H); exact Hc)) as Ed.
  assert (p = true) as ->.
  { rewrite Hp. cbn [sent v_pending orb]. unfold due. rewrite Ed, (proj2 (Z.eqb_neq _ _)), (proj2 (Z.leb_le _ _)) by lia. reflexivity. }
  assert (0 <= cursor <= size (c_summaries k)) as Hb by (unfold cursor, past; lia).
  destruct (emit_next later capacity k (able_later now later capacity k ltac:(lia) ltac:(lia) A) _ (wake s1 later) clock H2 Hn Hq Hb
              ltac:(cbn; congruence)) as (body' & s2 & E2 & S2 & _).
  exists body, s1, body', s2. split_and!; [exact E1|exact (h_pending _ _ _ H2)|exact E2|exact S1|exact S2].
Qed.

(** ** Duplicates *)

(** A description that repeats the last one of the other router. *)
Lemma duplicate_ignored k w s decoded o hs more version mtu clock now :
  holds k w s -> v_state w = NeighborState.loading \/ v_state w = NeighborState.full ->
  parse_database_description decoded = Some (mkDescription hs o (v_sequence w) mtu false more (negb (v_master w)) false version) ->
  mtu <= If_.interface_mtu (c_protocol k) -> p_type decoded = database_description ->
  receive s decoded now clock true = (accepted, s).
Proof.
  intros H Hs Hp Hm Ht. rewrite (receive_description now clock s _ decoded (h_state _ _ _ H) Ht). unfold receive_database_description.
  rewrite Hp. cbn [dd_interface_mtu init master dd_sequence_number].
  rewrite (h_protocol _ _ _ H), (h_master _ _ _ H), (h_sequence _ _ _ H), (proj2 (Z.ltb_ge _ _)), Z.eqb_refl, Bool.eqb_reflx by lia.
  destruct Hs as [->| ->]; reflexivity.
Qed.

(** Retransmissions at the given times. *)
Fixpoint retries (m s : t) (clock : Z) (times : list Z) : option (t * t) :=
  match times with
  | [] => Some (m, s)
  | now :: times =>
      match turn (wake m now) s now clock with
      | Some (m, s) => retries m s clock times
      | None => None
      end
  end.

Lemma retries_ignored capacity km ks times clock w s : forall v m,
  Forall (fun now => able now capacity km) times -> c_version km = c_version ks ->
  If_.interface_mtu (c_protocol km) = If_.interface_mtu (c_protocol ks) ->
  holds km v m -> v_negotiated v = true -> v_complete v = false -> is_u32 (v_sequence v) -> 0 <= v_cursor v <= size (c_summaries km) ->
  holds ks w s -> v_state w = NeighborState.loading \/ v_state w = NeighborState.full ->
  v_master w = negb (v_master v) -> v_sequence w = v_sequence v ->
  exists m', retries m s clock times = Some (m', s) /\ state m' = Some (v_state v).
Proof.
  induction times as [|now times IH]; intros v m Ha Hv Hm H Hn Hc Hq Hb Hs Hw Hma Hse.
  - exists m. split; [done|]. apply H.
  - apply list.Forall_cons in Ha as [A Ha]. pose proof (a_capacity _ _ _ A) as [_ Hcap].
    destruct (wake_holds _ _ _ now H) as (p & H1 & _).
    destruct (emit_next now capacity km A _ (wake m now) clock H1 Hn Hq Hb ltac:(cbn; congruence)) as (body & m1 & E1 & S1 & H2).
    cbn [awake v_master v_complete v_cursor v_sequence] in *. rewrite Hc, andb_false_r in H2. cbn [andb] in H2.
    destruct (packet_read km _ _ body _ _ _ _ _ H1 S1) as [o P].
    assert (receive s (packet_of (wake m now) body) now clock true = (accepted, s)) as Er.
    { eapply duplicate_ignored; [exact Hs|exact Hw| | |reflexivity].
      - rewrite Hse, Hma, negb_involutive. exact P.
      - lia. }
    cbn [retries]. unfold turn. rewrite E1, Er. apply (IH (sent (awake v p) (past (c_summaries km) (v_cursor v) capacity)
      (past (c_summaries km) (v_cursor v) capacity <? size (c_summaries km))) m1 Ha Hv Hm H2 Hn Hc Hq); auto.
    cbn. unfold past. lia.
Qed.

(** C18: When the slave's last reply is lost, the exchange never ends: the slave,
    already Loading or Full, accepts every retransmission of the master as a
    duplicate, changes nothing and has nothing to send, and the master stays in
    Exchange however often it retransmits. *)
Theorem lost_reply_stalls capacity km ks times clock v m w s :
  Forall (fun now => able now capacity km) times -> c_version km = c_version ks ->
  If_.interface_mtu (c_protocol km) = If_.interface_mtu (c_protocol ks) ->
  holds km v m -> v_state v = NeighborState.exchange -> v_master v = true -> v_negotiated v = true -> v_complete v = false ->
  is_u32 (v_sequence v) -> 0 <= v_cursor v <= size (c_summaries km) ->
  holds ks w s -> v_state w = NeighborState.loading \/ v_state w = NeighborState.full -> v_master w = false -> v_sequence w = v_sequence v ->
  v_pending w = false -> dd_retransmit_deadline (neighbor s) = 0 ->
  (exists m', retries m s clock times = Some (m', s) /\ state m' = Some NeighborState.exchange)
  /\ forall now, pending_database_description (neighbor (wake s now)) = false.
Proof.
  intros Ha Hv Hm H Hst Hma Hn Hc Hq Hb Hs Hw Hms Hse Hp Hd. split.
  - rewrite <- Hst. eapply (retries_ignored capacity km ks times clock w s v m); eauto. now rewrite Hma.
  - intros now. destruct (wake_holds _ _ _ now Hs) as (p & Hwk & Ep). rewrite (h_pending _ _ _ Hwk). cbn. rewrite Ep, Hp, Hd. reflexivity.
Qed.

(** A request for an advertisement the router does not have resets its neighbor
    to ExStart but not its exchange: what it sends afterwards is no proposal, the
    neighbor, Loading or Full, takes it for a duplicate, and no new negotiation ever
    begins. *)
Theorem bad_request_stalls capacity km ks times clock v m w s decoded request entry now :
  holds km v m -> NeighborState.at_least (v_state v) NeighborState.exchange = true -> v_negotiated v = true -> v_complete v = false ->
  is_u32 (v_sequence v) -> 0 <= v_cursor v <= size (c_summaries km) ->
  p_type decoded = link_state_request -> parse_link_state_request decoded = Some request -> 1 <= size (entries request) / 12 ->
  request_entry request 0 = Some entry -> Db.find (c_database km) (Db.lsa_key (request_identity entry (c_version km))) = None ->
  Forall (fun now => able now capacity km) times -> c_version km = c_version ks ->
  If_.interface_mtu (c_protocol km) = If_.interface_mtu (c_protocol ks) ->
  holds ks w s -> v_state w = NeighborState.loading \/ v_state w = NeighborState.full ->
  v_master w = negb (v_master v) -> v_sequence w = v_sequence v ->
  exists m', receive m decoded now clock true = (invalid_neighbor_state, m')
    /\ state m' = Some NeighborState.exstart /\ negotiation_complete (neighbor m') = true
    /\ exists m'', retries m' s clock times = Some (m'', s) /\ state m'' = Some NeighborState.exstart.
Proof.
  intros H Hst Hn Hc Hq Hb Ht Hp Hsz He Hf Ha Hv Hm Hs Hw Hma Hse.
  destruct (event_state m NeighborEvent.bad_link_state_request false clock _ (h_state _ _ _ H)) as (required & r & E & E1 & E2).
  assert (neighbor_transition (v_state v) NeighborEvent.bad_link_state_request required false = (NeighborState.exstart, adjacency_reset_actions)) as En
    by (destruct (v_state v); try discriminate Hst; destruct required; reflexivity).
  rewrite En in E, E1. cbn [fst] in E1.
  set (m' := put_neighbor (m <| runtime := r |>) ((neighbor m) <| pending_database_description := true |>)).
  assert (receive m decoded now clock true = (invalid_neighbor_state, m')) as Er.
  { unfold receive. rewrite (h_state _ _ _ H), Hst, Ht. rewrite bool_decide_eq_false_2 by done. cbn [negb].
    unfold receive_link_state_request. rewrite Hp. destruct (Z.to_nat (size (entries request) / 12)) eqn:Ez; [lia|].
    cbn [answer_requests]. rewrite He, (h_version _ _ _ H), (h_database _ _ _ H), Hf, E. reflexivity. }
  assert (holds km (mkPhase NeighborState.exstart (v_master v) (v_negotiated v) true (v_cursor v) (v_sequence v) (v_requests v) (v_sent_more v)
                      (v_peer_more v) (v_complete v)) m') as H'.
  { destruct H. constructor; cbn [v_state v_master v_negotiated v_pending v_cursor v_sequence v_requests v_sent_more v_peer_more v_complete];
      first [assumption|reflexivity|exact E1|exact (eq_trans E2 h_protocol0)]. }
  exists m'. split; [exact Er|]. split; [apply H'|]. split; [rewrite (h_negotiated _ _ _ H'); exact Hn|].
  destruct (retries_ignored capacity km ks times clock w s _ m' Ha Hv Hm H' Hn Hc Hq Hb Hs Hw Hma Hse) as (m'' & E' & F'). eauto.
Qed.

End Lossy.
End OspfLossy.
