(* ===== verification/OspfSample.v ===== *)
(** * Two routers

    Concrete databases and processes, on which the theorems about the link-state
    database and the exchange are applied. *)

From S2P Require Import Prelude Catalog Arena Packet Octets OspfFsm OspfHello OspfInterface OspfLsa OspfHeaders OspfLsdb OspfExchange OspfChecksum OspfDatabase OspfFlooding OspfThrottle Ordering OspfProcess OspfUpdate OspfDescription OspfSync OspfNegotiation OspfParty OspfAdjacency OspfSummaries OspfLoading OspfLossy.
Import Arena.

Module OspfSample.
Import OspfFsm OspfHello.OspfHello OspfLsa.OspfLsa OspfHeaders.OspfHeaders OspfProcess.OspfProcess OspfUpdate.OspfUpdate.
Import OspfDatabase.OspfDatabase OspfFlooding.OspfFlooding OspfSync.OspfSync OspfNegotiation.OspfNegotiation OspfParty.OspfParty.
Import OspfAdjacency.OspfAdjacency OspfSummaries.OspfSummaries OspfLoading.OspfLoading OspfLossy.OspfLossy.

#[local] Existing Instances Db.LsaKey_eq_dec Db.FloodingScope_eq_dec Db.InstallResult_eq_dec Ex.t_settable OspfProcess.t_settable
  NeighborExchange_settable merge_sorting.

(** A version 2 Router-LSA without a body, ten seconds old. *)
Definition lsa (router sequence : Z) : list Z :=
  (Db.update_lsa_checksum ([0; 10; 2; 1] ++ be32 router ++ be32 router ++ be32 sequence ++ [0; 0; 0; 20])).2.

(** The first instances of routers 2 and 3, and the second of router 3. *)
Definition lsa2 : list Z := Eval vm_compute in lsa 2 2147483649.
Definition lsa3 : list Z := Eval vm_compute in lsa 3 2147483649.
Definition lsa3' : list Z := Eval vm_compute in lsa 3 2147483650.

Definition t0 : Z := 1000000000.
Definition now : Z := 2000000000.
Definition later : Z := 4000000000.

(** Router 2 has its own advertisement, router 1 has none. *)
Definition db_a : Db.t := Eval vm_compute in apply 2 2 t0 (Db.construct 8) (Install lsa2 false true).
Definition db_b : Db.t := Db.construct 8.

Lemma octets_ok l : forallb (fun b => (0 <=? b) && (b <? 256)) l = true -> Forall is_u8 l.
Proof.
  intros H. apply list.Forall_forall. intros x Hx. rewrite forallb_forall in H. apply list_elem_of_In in Hx. specialize (H x Hx).
  unfold is_u8. lia.
Qed.

Lemma run_a : Run 2 2 8 db_a t0.
Proof.
  change db_a with (apply 2 2 t0 (Db.construct 8) (Install lsa2 false true)).
  apply (run_op 2 2 8 (Db.construct 8) 0 t0); [now constructor|unfold t0; lia|]. apply octets_ok. reflexivity.
Qed.

Lemma wf_a : wf 2 now db_a.
Proof. apply (wf_later 2 t0 now); [unfold t0, now; lia..|]. exact (proj1 (lsdb_run_wf 2 2 8 db_a t0 run_a)). Qed.

Lemma wf_b : wf 2 now db_b.
Proof. apply (wf_later 2 0 now); [unfold now; lia..|]. apply (lsdb_run_wf 2 1 8). now constructor. Qed.

Lemma lsdb_invariant_witness : Run 2 2 8 db_a t0 /\ wf 2 t0 db_a.
Proof. split; [exact run_a|]. exact (lsdb_invariant 2 2 8 db_a t0 run_a). Defined.

Definition key2 : Db.LsaKey := Db.mkKey 2 2 1 Db.area.

Lemma lsdb_never_regresses_witness :
  exists i', held 2 (apply 2 2 now db_a (Install lsa3 true true)) key2 = Some i' /\ upto (-2147483647, read16 lsa2 16) i'.
Proof. apply (lsdb_never_regresses 2 2 8 db_a t0 now (Install lsa3 true true) key2); [exact run_a|unfold t0, now; lia|exact I|reflexivity]. Defined.

(** Router 9 receives both instances of router 3 in either order. *)
Lemma foreign_sample l h k :
  admissible l 2 = Some h -> Forall is_u8 l -> advertising_router h <> 9 -> Db.lsa_key h = k -> foreign 2 9 [k] l.
Proof. intros Ha Hb Hr Hk. split; [exact Hb|]. intros h' E. assert (h' = h) as -> by congruence. split; [done|]. rewrite Hk. constructor. Qed.

Lemma flooding_converges_witness :
  held 2 (receive 2 9 (Db.construct 1) [(lsa3, now); (lsa3', later)]) (Db.mkKey 3 3 1 Db.area)
  = held 2 (receive 2 9 (Db.construct 1) [(lsa3', now); (lsa3, later); (lsa3', 6000000000)]) (Db.mkKey 3 3 1 Db.area)
  /\ greatest 2 [lsa3; lsa3'] (Db.mkKey 3 3 1 Db.area)
       (held 2 (receive 2 9 (Db.construct 1) [(lsa3, now); (lsa3', later)]) (Db.mkKey 3 3 1 Db.area)).
Proof.
  assert (foreign 2 9 [Db.mkKey 3 3 1 Db.area] lsa3) as F by (eapply foreign_sample; [reflexivity|now apply octets_ok|done|reflexivity]).
  assert (foreign 2 9 [Db.mkKey 3 3 1 Db.area] lsa3') as F' by (eapply foreign_sample; [reflexivity|now apply octets_ok|done|reflexivity]).
  apply (flooding_converges 2 [Db.mkKey 3 3 1 Db.area] 9 1 [(lsa3, now); (lsa3', later)] 9 1
           [(lsa3', now); (lsa3, later); (lsa3', 6000000000)]); try (unfold size; cbn [length]; lia).
  - constructor; [exact F|constructor; [exact F'|constructor]].
  - constructor; [exact F'|constructor; [exact F|constructor; [exact F'|constructor]]].
  - cbn. unfold now, later, Catalog.ospf_min_ls_arrival, Catalog.seconds. lia.
  - cbn. unfold now, later, Catalog.ospf_min_ls_arrival, Catalog.seconds. lia.
  - intros l. cbn [fmap list_fmap fst]. rewrite !elem_of_cons. tauto.
Defined.

(** ** Processes *)

Definition configuration (router : Z) : If_.InterfaceConfiguration :=
  If_.mkConfiguration router 0 1 4294967040 (167772160 + router) 2 10 40 1500 1 2 0 NetworkType.point_to_point false true.

(** The neighbor in ExStart *)
Definition runtime_of (router other : Z) (x : NeighborState.t) : If_.t :=
  let n := If_.new_neighbor other t0 in
  If_.mk (configuration router)
    [If_.mkNeighbor other 0 0 0 0 2 40000000000 t0 t0 0 2 0 0 0 0 x 1] 4 0 0 InterfaceState.point_to_point 0 0.

Definition process (router other : Z) (db : Db.t) (x : NeighborState.t) (n : NeighborExchange) : t :=
  mk router 2 0 db OspfThrottle.OspfThrottle.construct (runtime_of router other x) 5 1 n [] [] 8.

Definition router_a : t := process 2 1 db_a NeighborState.exstart (new_exchange 1 8).
Definition router_b : t := process 1 2 db_b NeighborState.exstart (new_exchange 2 8).

Lemma ready_sample router other db :
  wf 2 now db -> size (Db.records_ db) <= 8 ->
  ready now 72 (process router other db NeighborState.exstart (new_exchange other 8)).
Proof.
  intros W Hs. constructor; try reflexivity; try (exact W || exact Hs || (split; [reflexivity|lia])).
  - unfold state. cbn. unfold If_.find_neighbor. cbn. now rewrite decide_True.
  - cbn. unfold Ipv6Packet.Ipv6.maximum_frame_octets. lia.
  - cbn. unfold u32_max. lia.
Qed.

(** Both propose themselves before either hears the other. *)
Definition crossing_proposals : list event :=
  [HigherSends; LowerSends; HigherHears; LowerHears; LowerSends; HigherHears; HigherSends; LowerHears; LowerSends; HigherHears].

Definition begun (a : t) : t := (apply_neighbor_actions a adjacency_reset_actions now true).2.
Definition after_crossing (a b : t) : link :=
  value_or (mkLink a b [] []) (runs (mkLink (begun a) (begun b) [] []) now now crossing_proposals).

Lemma exchange_completes_witness :
  exists a1 b1 l,
    apply_neighbor_actions router_a adjacency_reset_actions now true = (applied, a1)
    /\ apply_neighbor_actions router_b adjacency_reset_actions now true = (applied, b1)
    /\ runs (mkLink a1 b1 [] []) now now crossing_proposals = Some l
    /\ agreed (higher l) (lower l) /\ past_exchange now router_a router_b (higher l) /\ past_exchange now router_b router_a (lower l).
Proof.
  destruct (exchange_completes now now 72 router_a router_b adjacency_reset_actions adjacency_reset_actions) as (a1 & b1 & Ea & Eb & H).
  - apply ready_sample; [exact wf_a|unfold size; cbn; lia].
  - apply ready_sample; [exact wf_b|unfold size; cbn; lia].
  - now split.
  - now split.
  - reflexivity.
  - reflexivity.
  - reflexivity.
  - unfold size; cbn; lia.
  - unfold size; cbn; lia.
  - unfold size; cbn; lia.
  - assert (a1 = (apply_neighbor_actions router_a adjacency_reset_actions now true).2) as -> by now rewrite Ea.
    assert (b1 = (apply_neighbor_actions router_b adjacency_reset_actions now true).2) as -> by now rewrite Eb.
    destruct (H crossing_proposals (after_crossing router_a router_b)) as (_ & _ & Hq); [vm_compute; reflexivity|].
    destruct Hq as (_ & _ & Hq); [intros []; vm_compute; reflexivity|].
    do 3 eexists. split_and!; [exact Ea|exact Eb| |apply Hq..]. vm_compute. reflexivity.
Defined.

(** Router 1 once the exchange is over: it has requested the advertisement. *)
Definition entry2 : LinkStateRequestEntry := mkEntry 1 2 2.
Definition record2 : Db.LsaRecord := Eval vm_compute in
  Db.mkRecord key2 lsa2 t0 10 10 false.
Definition loading_exchange : NeighborExchange :=
  mkNeighborExchange (Ex.mk [] [entry2] [] [] 8 8 8 8 2 true) 2 2 0 0 0 0 now 0 false true false true false false false false false.
Definition router_b' : t := process 1 2 db_b NeighborState.loading loading_exchange.

Lemma state_sample router other db x n : n_router_id n = other -> state (process router other db x n) = Some x.
Proof. intros <-. unfold state, If_.find_neighbor. cbn. now rewrite decide_True. Qed.

Lemma past_exchange_sample : past_exchange now router_b router_a router_b'.
Proof.
  unfold past_exchange. cbv zeta. split_and!; try reflexivity.
  - apply NoDup_singleton.
  - intros e. cbn [router_b' process neighbor loading_exchange database Ex.requests_]. rewrite list_elem_of_singleton. split.
    + intros ->. exists record2. eexists. split; [constructor|]. split; [vm_compute; reflexivity|]. now split_and!.
    + intros (r & h & Hr & Hd & _ & _ & ->). assert (r = record2) as -> by (apply list_elem_of_singleton; exact Hr).
      vm_compute in Hd. injection Hd as <-. reflexivity.
Qed.

Lemma loading_synchronizes_witness :
  exists b'',
    OspfUpdate.OspfUpdate.receive router_b' (update_packet [transmitted record2 1 later] 2 0 2 0) later later true = (accepted, b'')
    /\ state b'' = Some NeighborState.full /\ Ex.requests_ (database (neighbor b'')) = []
    /\ forall r h, r ∈ Db.records_ db_a -> described 2 now (permit router_a) r = Some h -> permitted (permit router_b) h = true ->
         advertising_router h = 1 \/ exists i, held 2 (database_ b'') (Db.lsa_key h) = Some i /\ upto (instance_of h) i.
Proof.
  apply (loading_synchronizes now later 1 router_a router_b router_b').
  - reflexivity.
  - exact past_exchange_sample.
  - exact wf_a.
  - exact wf_b.
  - unfold now, later. lia.
  - unfold now. lia.
  - lia.
  - constructor; [|constructor]. eexists. split; [vm_compute; reflexivity|reflexivity].
  - constructor.
  - constructor; [|constructor]. exists record2. split; reflexivity.
  - unfold size. cbn. lia.
  - constructor; [unfold size; cbn; lia|unfold size; cbn; lia|constructor].
  - unfold size. cbn. lia.
Defined.

(** ** Parties *)

Definition party_a : party := party_of now router_a.
Definition party_b : party := party_of now router_b.

Lemma able_sample router other db at_ :
  wf 2 now db -> size (Db.records_ db) <= 8 -> now <= at_ < 9223372036854775808 ->
  able at_ 72 (party_of now (process router other db NeighborState.exstart (new_exchange other 8))).
Proof. intros W Hs Ht. apply (able_later now); [lia..|]. apply party_able. now apply ready_sample. Qed.

(** The neighbor of a router in Exchange or later, with the summaries of the router. *)
Definition exchange_with (summaries : list LsaHeaderView) (other sequence cursor : Z) (local_master more : bool) : NeighborExchange :=
  mkNeighborExchange (Ex.mk summaries [] [] [] 8 8 8 8 2 true) other sequence cursor 0 0 0 0 0 local_master true false false false false
    more more false.

Definition phase_with (x : NeighborState.t) (sequence cursor : Z) (local_master more : bool) : phase :=
  mkPhase x local_master true false cursor sequence [] more more false.

Lemma holds_sample router other db x sequence cursor local_master more :
  holds (party_of now (process router other db NeighborState.exstart (new_exchange other 8)))
    (phase_with x sequence cursor local_master more)
    (process router other db x (exchange_with (c_summaries (party_of now (process router other db NeighborState.exstart (new_exchange other 8))))
       other sequence cursor local_master more)).
Proof. constructor; try reflexivity. now apply state_sample. Qed.

Definition in_exchange : t := process 2 1 db_a NeighborState.exchange (exchange_with (c_summaries party_a) 1 7 0 true true).

Lemma retransmission_skips_witness :
  let cursor := past (c_summaries party_a) 0 72 in
  exists body s1 body' s2,
    emit_database_description in_exchange true now now = (Some body, s1)
    /\ pending_database_description (neighbor (wake s1 8000000000)) = true
    /\ emit_database_description (wake s1 8000000000) true 8000000000 now = (Some body', s2)
    /\ said party_a body 7 false (cursor <? size (c_summaries party_a)) true (chunk (c_summaries party_a) 0 72)
    /\ said party_a body' 7 false (past (c_summaries party_a) cursor 72 <? size (c_summaries party_a)) true
         (chunk (c_summaries party_a) cursor 72).
Proof.
  apply (retransmission_skips now 8000000000 now 72 party_a (phase_with NeighborState.exchange 7 0 true true) in_exchange).
  - apply able_sample; [exact wf_a|unfold size; cbn; lia|unfold now; lia].
  - apply holds_sample.
  - reflexivity.
  - reflexivity.
  - unfold is_u32. cbn. lia.
  - cbn [phase_with v_cursor]. pose proof (size_nonneg (c_summaries party_a)). lia.
  - cbn. unfold now, Catalog.seconds. lia.
  - unfold now. lia.
Defined.

(** The slave is Full, the master has not heard its last reply. *)
Definition waiting_master : t := process 2 1 db_a NeighborState.exchange (exchange_with (c_summaries party_a) 1 7 1 true false).
Definition done_slave : t := process 1 2 db_b NeighborState.full (exchange_with (c_summaries party_b) 2 7 0 false false).

Lemma times_sample : Forall (fun at_ => able at_ 72 party_a) [now; 8000000000; 14000000000].
Proof.
  repeat (constructor; [apply able_sample; [exact wf_a|unfold size; cbn; lia|unfold now; lia]|]). constructor.
Qed.

Lemma lost_reply_stalls_witness :
  (exists m', retries waiting_master done_slave now [now; 8000000000; 14000000000] = Some (m', done_slave)
     /\ state m' = Some NeighborState.exchange)
  /\ forall at_, pending_database_description (neighbor (wake done_slave at_)) = false.
Proof.
  apply (lost_reply_stalls 72 party_a party_b [now; 8000000000; 14000000000] now
           (phase_with NeighborState.exchange 7 1 true false) waiting_master (phase_with NeighborState.full 7 0 false false) done_slave);
    try reflexivity.
  - exact times_sample.
  - apply holds_sample.
  - unfold is_u32. cbn. lia.
  - vm_compute. split; discriminate.
  - apply holds_sample.
  - now right.
Defined.

(** A request of router 1 for an advertisement of router 5. *)
Definition bad_request : PacketView := mkPacket (be32 1 ++ be32 5 ++ be32 5) 1 0 link_state_request 2 0.

Lemma bad_request_stalls_witness :
  exists m', OspfUpdate.OspfUpdate.receive waiting_master bad_request now now true = (invalid_neighbor_state, m')
    /\ state m' = Some NeighborState.exstart /\ negotiation_complete (neighbor m') = true
    /\ exists m'', retries m' done_slave now [now; 8000000000; 14000000000] = Some (m'', done_slave)
        /\ state m'' = Some NeighborState.exstart.
Proof.
  apply (bad_request_stalls 72 party_a party_b [now; 8000000000; 14000000000] now
           (phase_with NeighborState.exchange 7 1 true false) waiting_master (phase_with NeighborState.full 7 0 false false) done_slave
           bad_request (mkRequest (be32 1 ++ be32 5 ++ be32 5) 2) (mkEntry 1 5 5) now); try reflexivity.
  - apply holds_sample.
  - unfold is_u32. cbn. lia.
  - vm_compute. split; discriminate.
  - exact times_sample.
  - apply holds_sample.
  - now right.
Defined.

End OspfSample.
